(* ===== verification/_CoqProject ===== *)
-Q . S2P
Prelude.v
RlpEncoding.v
RlpDecoding.v
RlpTheorems.v
Utf.v
AdvRlp.v
AdvRlpTheorems.v
Json.v
JsonTheorems.v
Keccak.v
Bloom.v
EthHeader.v
Difficulty.v
Trie.v
TrieHash.v
Receipts.v
Events.v
Checkpoint.v
Monitor.v
Base64.v
Codec.v
TKeyExchange.v
IasReport.v
EpidRa.v
EpidRaTheorems.v
Keyring.v
Asn1Parse.v
Abi.v
Heartbeat.v
Pubsub.v
Delivery.v
Replay.v
Follow.v
Messages.v
BlockchainMgr.v
AesGcm.v
SecureSocket.v
LocalAttest.v
Deployment.v
AsyncRecv.v
Threads.v
