(* ===== verification/Prelude.v ===== *)
(** * Decentagram: the off-chain subscriber, verified

    Decentagram lets enclaves publish and subscribe through a contract on Ethereum.
    A subscriber cannot run a node inside the enclave: it follows the chain through
    an untrusted host, with the eclipse monitor, and believes an event only if a
    validated header commits to it.  This library models that path, from the bytes
    the host delivers to the events a subscriber is sent, and proves what it
    promises.  Paths are relative to [src/]; [EM] is
    [libs/EclipseMonitor/include/EclipseMonitor], [CLT] is
    [Ethereum/include/EthereumClt/Trusted], [DE] is
    [libs/DecentEnclave/include/DecentEnclave].

    ** The parts, in the order they are built

    - this file: integers of a given width, results and exceptions, the monad [stx]
      of code that changes a state and may throw, lists of bytes, and the tactics
      and hints of the library.
    - [RlpEncoding], [RlpDecoding], [RlpTheorems]: [libs/SimpleRlp], the writer and
      the parsers, and what relates them.
    - [Utf]: [libs/SimpleUtf]; [AdvRlp], [AdvRlpTheorems]: the typed values of
      [libs/SimpleObjects] and their serialisation, [libs/SimpleRlp/include/AdvancedRlp].
    - [Keccak] ([EM/Eth/Keccak256.hpp]), [Bloom] ([EM/Eth/BloomFilter.hpp]).
    - [EthHeader]: the header dictionary ([SimpleRlp/EthHeader.hpp],
      [StaticDictParser.hpp]) and the parsed header ([EM/Eth/HeaderMgr.hpp]).
    - [Difficulty] ([EM/Eth/Params.hpp], [DAA.hpp]).
    - [Trie], [TrieHash] ([EM/Eth/Trie/]), [Receipts] ([EM/Eth/Receipt.hpp],
      [ReceiptsMgr.hpp], [Transaction.hpp], [TransactionsMgr.hpp]).
    - [Events]: listeners and the sync handshake ([EM/Eth/EventManager.hpp],
      [EM/Eth/SyncMsgMgr.hpp]).
    - [Checkpoint]: the header tree, the windows, the checks on headers
      ([EM/Eth/HeaderNode.hpp], [CheckpointMgr.hpp], [DiffChecker.hpp],
      [Validator.hpp]); [Monitor]: [EM/Eth/EclipseMonitor.hpp] itself; [Replay] and
      [Follow]: two studies of it.
    - [Abi] ([EM/Eth/AbiParser.hpp]), [Heartbeat] ([DE/Trusted/HeartbeatEmitterMgr.hpp],
      [HeartbeatRecvMgr.hpp]), [Pubsub] ([CLT/Pubsub/], [CLT/ReceiptSubscriber.hpp]),
      [Delivery] (one subscriber of [Pubsub], from its request on), [BlockchainMgr] ([CLT/BlockchainMgr.hpp], [CLT/HostBlockService.hpp]).
    - [Messages]: all of this as bytes ([EM/MonitorReport.hpp],
      [DE/Common/DeterministicMsg.hpp], [DE/Trusted/DecentLambdaSvr.hpp]), and the
      subscriber [Revoker/src/Trusted/EthHeartbeatHandler.hpp].
    - [AesGcm] ([DE/Common/AesGcmPackager.hpp] over the SGX cipher), [SecureSocket]
      ([DE/Common/AesGcmStreamSocket.hpp], the blocking half of
      [libs/SimpleSysIO/.../StreamSocketBase.hpp]): the channel between two enclaves;
      [AsyncRecv]: the other half of both, which receives by callbacks, the table of
      callbacks ([DE/Trusted/UntrustedAsyncEventHandler.hpp]), what the enclave copies
      from the host, and the buffer below TLS ([DE/Common/TlsSocket.hpp]).
    - [TKeyExchange] ([DE/SgxEdgeSources/decent_tkey_exchange.cpp]): the table of key
      exchanges of the remote attestation, with the calls of the host on it as
      threads; [IasReport] ([DE/Common/Sgx/IasReportVerifier.hpp], [EpidRaMessages.hpp]
      and the chains of [mbedTLScpp/X509Cert.hpp]): the reports of the attestation
      service; [EpidRa], [EpidRaTheorems] ([DE/Common/Sgx/EpidRaSvcProv.hpp],
      [DE/Trusted/Sgx/EpidRaClient.hpp]): the handshake between the two sides.
    - [LocalAttest] ([DE/Trusted/Sgx/LaInitiator.hpp], [LaResponder.hpp],
      [DE/Common/AesGcmSocketHandshaker.hpp]): the handshake of two enclaves on one
      machine, from which the socket of [SecureSocket] is made.
    - [Deployment] ([DE/Untrusted/Config/AuthList.hpp], [DE/Trusted/AuthListMgr.hpp],
      [AppCertRequester.hpp], [DE/Untrusted/Hosting/LambdaFuncServer.hpp]): the list of
      authorized enclaves from the configuration into the enclave, the request for a
      certificate, and the server of hosted functions.
    - [Keyring] ([DE/Common/Keyring.hpp], [CertStore.hpp], [DE/Trusted/SKeyring.hpp],
      [Sgx/SealKey.hpp]): the keys of an enclave, and the keys it seals data with.
    - [Threads] ([libs/SimpleConcurrency/.../ThreadPool.hpp], [TaskRunner.hpp],
      [TickingTask.hpp]): the threads of the host, with the pool as a step relation.
    - [Base64], [Asn1Parse]: routines of [libs/mbedtls/library]; [Codec]:
      [libs/SimpleObjects/include/SimpleObjects/Codec], base64 again and hexadecimal
      text; [Json], [JsonTheorems]: [libs/SimpleJson].

    ** How the model corresponds to the code

    A C++ class is a Module with its members as the record [t] and a definition per
    method, under the method's name.  An exception is a value of [Error], and what
    the code changed before it threw stays changed; undefined behaviour is an
    outcome of its own ([Undefined]), so that a theorem has to exclude it.
    Integers wrap where the type of the code does.  Objects that closures share -
    sync states, queues, listeners - live in the [World] and are named by their
    addresses, which are arguments; fresh addresses come from the caller ([Env],
    [Malloc]).  What the enclave takes from outside is a parameter: the clock and
    the random bytes ([Env]), the ocalls ([Host]), the memory that is left
    ([Allocator]).  Both builds of the monitor are modelled: that of
    [Ethereum/src/CMakeLists.txt] defines [ECLIPSEMONITOR_DEV_MODE], under which the
    session and the nonces are fixed and the sync message is not refreshed; the first
    two are arguments anyway, the last is [env_disableRefresh].  The interfaces between the components are classes with laws:
    [DAASelector], [DiffChecker] and [ValidatorBase] stand between the monitor and
    its checks, [UserHandler] between the event manager and the closures of the
    application, [HeaderCallbacks] between the monitor and its owner, [Follower]
    between the monitor and what the owner wants to know.  A component is proved
    against the class, and the component behind it discharges the laws.

    ** What is shown

    - What a root is worth: [TrieHash], [Receipts].  A trie's hash determines its
      pairs, the receipts root the receipts, up to an exhibited Keccak collision.
    - What an event is worth: [Events].  A check of a header hands every listener
      its logs, once and in order; a sync state is synced only by its message.
    - What a confirmation is worth: [Checkpoint], [Monitor].  Confirmed headers are
      a prefix of one chain of validated headers, window by window; the floor on
      the difficulty; the plan of the first phase.  [Replay] shows what depth is not
      worth.
    - What a subscriber gets: [Pubsub], [Heartbeat].  The service refines an
      abstract one that counts listeners, and the past events are determined
      exactly.  [Delivery]: the answer and the heartbeats together are every event,
      once and in order, when requests and blocks do not overlap; and what happens
      when they do.
    - What a channel is worth: [AesGcm], [SecureSocket].  Packing and unpacking are
      inverse, the socket refines a stream of bytes, and what a session accepts is
      what the peer sent, for a cipher that authenticates.  [AsyncRecv]: without
      waiting a socket with an empty buffer does the same; with data in its buffer,
      or a host that delivers more than was asked for, it does not.  Below TLS nothing
      is lost or reordered, and a receive is answered or ended by an exception, which
      the application may not see.
    - What an attestation is worth: [TKeyExchange].  Whatever the host calls, and when,
      the keys of an exchange are those of a message that the registered key signed,
      and they are the keys its report vouches for.  [IasReport]: exactly what a report
      has to be to be accepted.  [EpidRaTheorems]: a provider that is done has accepted
      a report for the keys it has, unless a later message 2 threw; the enclave has the
      same keys, or two texts of the exchange collide; and both sides end alike.
      [LocalAttest]: a socket of the local handshake has a key that the SDK gave with
      an accepted identity, and the two sockets of one handshake are one channel.
      [Deployment]: the list of the configuration is the list in the enclave; the
      connections are served until an accept fails.
    - What a key is worth: [Keyring].  The hash in the certificates determines the
      enclave's public keys, however its threads run; sealing keys are recovered.
    - What the host's threads promise: [Threads].  A pool completes every task exactly
      once and loses no wakeup, unless it is terminated; with [Terminate] it can block.
    - The application: [BlockchainMgr].  In every run the confirmed blocks have been
      shown to the service with the very logs their headers commit to.
    - What a message is worth: [AdvRlp], [Messages].  Typed values are read back as
      they were written, the bytes are canonical, and a parser of a fixed shape
      returns nothing but values of its shape; a subscriber's call reaches the
      handler as the request for its publisher, and the subscriber logs the events
      of every message it is sent; [Utf] is exact on every text.
    - Formats: round trips, exactness, safety and termination of RLP, of the
      contract ABI, of headers and receipts, of base64, of hexadecimal text, of JSON
      and of DER.
    - [Difficulty] computes the formulas of the protocol, [Keccak] is the padded
      sponge, [Bloom] has no false negatives; [EthHeader] says what of a header its
      setters keep in step, and that the hash is not.

    ** Fuel

    The RLP parsers and the ABI codecs descend with fuel that is the length of the
    input, or the depth of the type, and theorems show that it never runs out; the
    parsers of [AdvRlp] and [Json], the decoders of [Codec] and the conversions of
    [Utf] have the length of the input too, one unit for each level, item or
    character, each of which takes an element, and the round trips include that it
    is enough; the other recursions are structural.

    ** Not modelled

    Locks: a public call runs alone, except in [TKeyExchange], [Keyring] and [Threads],
    and where a theorem or a finding is about two of them.  The TLS library, the contents
    of the enclave's certificates ([DE/Common/DecentCerts.hpp]),
    the untrusted half ([EthereumClt/Untrusted], sockets, HTTP) and logging,
    except for the status line of [BlockchainMgr] and the lines of the revoker.  The
    generic containers of [libs/SimpleObjects] appear as Rocq data; floating-point
    values are not serialised by the code and are left out, and are an abstract type
    in [Json].  The contracts of
    [pubsub-onchain] are not C or C++; the rest of [libs/mbedtls] and
    [libs/mbedTLScpp] is third-party code. *)

From stdpp Require Export prelude list.
From Stdlib Require Export ZArith Lia.

#[global] Set Default Proof Using "Type".

(** ** Scope and widths *)

Declare Scope word_scope.
Delimit Scope word_scope with word.
#[global] Open Scope Z_scope.

(** A value stored in a [w]-bit unsigned integer. *)
Definition wrap (w x : Z) : Z := x mod 2 ^ w.

Abbreviation u8 x := (wrap 8 x).
Abbreviation u16 x := (wrap 16 x).
Abbreviation u32 x := (wrap 32 x).
Abbreviation u64 x := (wrap 64 x).

(** [x] fits in [w] bits. *)
Definition fits (w x : Z) : Prop := 0 <= x < 2 ^ w.

#[export] Instance fits_dec w x : Decision (fits w x).
Proof. unfold fits. apply _. Defined.

Create HintDb word.
Create Rewrite HintDb word.

Lemma wrap_fits w x : 0 <= w -> fits w (wrap w x).
Proof. intros H. apply Z.mod_pos_bound. lia. Qed.

Lemma wrap_small w x : fits w x -> wrap w x = x.
Proof. apply Z.mod_small. Qed.

Lemma wrap_wrap w x : wrap w (wrap w x) = wrap w x.
Proof. apply Zmod_mod. Qed.

Lemma wrap_le w x : 0 <= x -> 0 <= w -> wrap w x <= x.
Proof. intros. apply Z.mod_le; lia. Qed.

Lemma wrap_add_l w x y : wrap w (wrap w x + y) = wrap w (x + y).
Proof. apply Zplus_mod_idemp_l. Qed.

Lemma wrap_add_r w x y : wrap w (x + wrap w y) = wrap w (x + y).
Proof. apply Zplus_mod_idemp_r. Qed.

Lemma wrap_mul_l w x y : wrap w (wrap w x * y) = wrap w (x * y).
Proof. apply Zmult_mod_idemp_l. Qed.

Lemma fits_mono w w' x : 0 <= w <= w' -> fits w x -> fits w' x.
Proof. unfold fits. intros ? ?. pose proof (Z.pow_le_mono_r 2 w w'). lia. Qed.

#[export] Hint Resolve wrap_fits wrap_small : word.
#[export] Hint Rewrite wrap_wrap wrap_add_l wrap_add_r wrap_mul_l : word.

(** [lia] after the common widths and the boolean comparisons are made plain. *)
Ltac widths :=
  unfold fits, wrap in *;
  change (2 ^ 8) with 256 in *; change (2 ^ 16) with 65536 in *;
  change (2 ^ 32) with 4294967296 in *;
  change (2 ^ 64) with 18446744073709551616 in *.
(** [lia] that also understands [/] and [mod] by constants. *)
Ltac mod_lia := Z.to_euclidean_division_equations; lia.
Ltac word_lia := widths; first [lia | mod_lia].

(** ** Bytes *)

Abbreviation bytes := (list Z).
Abbreviation is_byte := (fits 8).
Definition all_bytes (l : bytes) : Prop := Forall is_byte l.

#[export] Instance all_bytes_dec l : Decision (all_bytes l).
Proof. unfold all_bytes. apply _. Defined.

Lemma is_byte_mod x : is_byte (x mod 256).
Proof. apply Z.mod_pos_bound. lia. Qed.
#[export] Hint Resolve is_byte_mod : word.

Lemma all_bytes_nil : all_bytes [].
Proof. constructor. Qed.
Lemma all_bytes_cons b l : all_bytes (b :: l) <-> is_byte b /\ all_bytes l.
Proof. apply Forall_cons. Qed.
Lemma all_bytes_app l k : all_bytes (l ++ k) <-> all_bytes l /\ all_bytes k.
Proof. apply Forall_app. Qed.
Lemma all_bytes_take n l : all_bytes l -> all_bytes (take n l).
Proof. apply Forall_take. Qed.
Lemma all_bytes_drop n l : all_bytes l -> all_bytes (drop n l).
Proof. apply Forall_drop. Qed.

Create HintDb bytes.
#[export] Hint Resolve all_bytes_nil all_bytes_take all_bytes_drop : bytes.

(** A concrete byte string holds bytes. *)
Ltac byte_list :=
  unfold all_bytes; repeat (apply Forall_cons_2; [split; vm_compute; congruence|]);
  apply Forall_nil_2.

Lemma Forall_mp {A} (P Q : A -> Prop) l :
  Forall (fun x => P x -> Q x) l -> Forall P l -> Forall Q l.
Proof. induction 1; inversion 1; subst; constructor; auto. Qed.

(** Length of a list as an integer. *)
Abbreviation zlen l := (Z.of_nat (length l)).

(** ** Fallible code *)

(** The outcome of code that can throw: a value, or the exception it threw. *)
Inductive result (E A : Type) : Type :=
| Ok (a : A)
| Throw (e : E).
Arguments Ok {E A}.
Arguments Throw {E A}.

#[export] Instance result_ret E : MRet (result E) := fun A a => Ok a.
#[export] Instance result_bind E : MBind (result E) :=
  fun A B f r => match r with Ok a => f a | Throw e => Throw e end.
#[export] Instance result_fmap E : FMap (result E) :=
  fun A B f r => match r with Ok a => Ok (f a) | Throw e => Throw e end.

#[export] Instance result_eq_dec E A `{EqDecision E, EqDecision A} :
  EqDecision (result E A).
Proof. solve_decision. Defined.

Definition is_ok {E A} (r : result E A) : bool :=
  match r with Ok _ => true | Throw _ => false end.

Lemma result_bind_ok {E A B} (r : result E A) (f : A -> result E B) b :
  (r ≫= f) = Ok b <-> exists a, r = Ok a /\ f a = Ok b.
Proof. destruct r; simpl; naive_solver. Qed.

(** The value of a run that ends well; [d] is never returned. *)
Definition ok_or {E A} (d : A) (r : result E A) : A :=
  match r with Ok a => a | Throw _ => d end.

Lemma is_ok_or {E A} (d : A) (r : result E A) : is_ok r = true -> r = Ok (ok_or d r).
Proof. by destruct r. Qed.

(** Code that changes a state and can throw: what it changed before it threw
    stays changed. *)
Definition stx (S E A : Type) : Type := S -> S * result E A.

#[export] Instance stx_ret S E : MRet (stx S E) := fun _ a s => (s, Ok a).
#[export] Instance stx_bind S E : MBind (stx S E) := fun _ _ f m s =>
  let '(s, r) := m s in match r with Ok a => f a s | Throw e => (s, Throw e) end.

Lemma stx_bind_ok {S E A B} (m : stx S E A) (f : A -> stx S E B) s s' b :
  (m ≫= f) s = (s', Ok b) <-> exists a s1, m s = (s1, Ok a) /\ f a s1 = (s', Ok b).
Proof. unfold mbind, stx_bind. destruct (m s) as [s1 [a|e]]; naive_solver. Qed.

(** A property of the state that every call keeps, whatever it returns. *)
Lemma stx_bind_inv {S E A B} (P : S -> S -> Prop) (m : stx S E A) (f : A -> stx S E B) s :
  (forall s1 s2 s3, P s1 s2 -> P s2 s3 -> P s1 s3) ->
  P s (m s).1 -> (forall a s1, m s = (s1, Ok a) -> P s1 (f a s1).1) -> P s ((m ≫= f) s).1.
Proof.
  intros Ht Hm Hf. unfold mbind, stx_bind. destruct (m s) as [s1 [a|e]]; cbn in *; [|done].
  eapply Ht; [exact Hm|by apply Hf].
Qed.

(** Peel one bind off a hypothesis [... = Ok _]. *)
Ltac bind_ok H :=
  apply result_bind_ok in H;
  let a := fresh "a" in let E := fresh "E" in destruct H as (a & E & H).

(** The same of a hypothesis [... = (_, Ok _)] about code with a state. *)
Ltac stx_ok H :=
  apply stx_bind_ok in H;
  let a := fresh "a" in let s := fresh "s" in let E := fresh "E" in destruct H as (a & s & E & H).

(** ** Allocation *)

(** The room a [std::vector] can get: [reserve n] throws when there is none for
    [n] bytes, and always beyond [max_size]. *)
Class Allocator := reserve : Z -> bool.
Class AllocatorLaws `{Allocator} := reserve_max : forall n, 2 ^ 63 <= n -> reserve n = false.

(** ** Big-endian byte strings *)

Fixpoint be_val_acc (acc : Z) (l : bytes) : Z :=
  match l with
  | [] => acc
  | b :: l' => be_val_acc (acc * 256 + b) l'
  end.
(** The integer a byte string denotes, most significant byte first. *)
Definition be_val (l : bytes) : Z := be_val_acc 0 l.

(** The [n] least significant bytes of [v], most significant first. *)
Fixpoint be_bytes (n : nat) (v : Z) : bytes :=
  match n with
  | O => []
  | S n' => (v / 256 ^ Z.of_nat n') mod 256 :: be_bytes n' v
  end.

Lemma be_val_acc_spec acc l : be_val_acc acc l = acc * 256 ^ zlen l + be_val l.
Proof.
  unfold be_val. revert acc. induction l as [|b l IH]; intros acc; cbn [be_val_acc length].
  { lia. }
  rewrite IH, (IH (0 * 256 + b)), Nat2Z.inj_succ, Z.pow_succ_r by lia. ring.
Qed.

Lemma be_val_nil : be_val [] = 0.
Proof. done. Qed.

Lemma be_val_cons b l : be_val (b :: l) = b * 256 ^ zlen l + be_val l.
Proof. unfold be_val at 1. cbn [be_val_acc]. rewrite be_val_acc_spec. ring. Qed.

Lemma be_val_app l k : be_val (l ++ k) = be_val l * 256 ^ zlen k + be_val k.
Proof.
  induction l as [|b l IH]; [done|].
  rewrite <-app_comm_cons, !be_val_cons, IH, length_app, Nat2Z.inj_add, Z.pow_add_r by lia.
  ring.
Qed.

Lemma be_val_snoc l b : be_val (l ++ [b]) = be_val l * 256 + b.
Proof. rewrite be_val_app, be_val_cons, be_val_nil. simpl length. lia. Qed.

Lemma pow256_pos n : 0 < 256 ^ Z.of_nat n.
Proof. apply Z.pow_pos_nonneg; lia. Qed.

Lemma pow256_pow2 n : 256 ^ Z.of_nat n = 2 ^ (8 * Z.of_nat n).
Proof. by rewrite Z.pow_mul_r by lia. Qed.

Lemma be_val_bounds l : all_bytes l -> 0 <= be_val l < 256 ^ zlen l.
Proof.
  induction l as [|b l IH]; intros H; [done|].
  apply all_bytes_cons in H as [Hb Hl]. specialize (IH Hl).
  rewrite be_val_cons. cbn [length]. rewrite Nat2Z.inj_succ, Z.pow_succ_r by lia.
  pose proof (pow256_pos (length l)). widths. nia.
Qed.

Lemma length_be_bytes n v : length (be_bytes n v) = n.
Proof. induction n; simpl; auto. Qed.

Lemma all_bytes_be_bytes n v : all_bytes (be_bytes n v).
Proof.
  induction n as [|n IH]; simpl; [constructor|].
  apply all_bytes_cons. split; [|done]. apply Z.mod_pos_bound. lia.
Qed.

Lemma be_val_be_bytes n v : be_val (be_bytes n v) = v mod 256 ^ Z.of_nat n.
Proof.
  induction n as [|n IH]; cbn [be_bytes]; [symmetry; apply Z.mod_1_r|].
  rewrite be_val_cons, length_be_bytes, IH.
  rewrite Nat2Z.inj_succ, Z.pow_succ_r by lia.
  rewrite (Z.mul_comm 256), Z.rem_mul_r by (pose proof (pow256_pos n); lia). ring.
Qed.

Lemma be_val_inj l k :
  all_bytes l -> all_bytes k -> length l = length k -> be_val l = be_val k -> l = k.
Proof.
  revert k. induction l as [|b l IH]; intros [|c k] Hl Hk Hlen Hv; try done.
  apply all_bytes_cons in Hl as [Hb Hl], Hk as [Hc Hk].
  injection Hlen as Hlen. rewrite !be_val_cons, Hlen in Hv.
  pose proof (be_val_bounds l Hl) as Bl. pose proof (be_val_bounds k Hk) as Bk.
  rewrite Hlen in Bl. pose proof (pow256_pos (length k)).
  assert (b = c) as -> by nia. f_equal. apply IH; auto. lia.
Qed.

#[export] Hint Resolve all_bytes_be_bytes : bytes.

(** ** Bit operations as arithmetic *)

Lemma land_ones_byte v : Z.land v 255 = v mod 256.
Proof. change 255 with (Z.ones 8). by rewrite Z.land_ones by lia. Qed.

Lemma testbit_high n a i : fits n a -> 0 <= n <= i -> Z.testbit a i = false.
Proof.
  intros Ha Hi. rewrite <-(Z.mod_small a (2 ^ n)) by done.
  by rewrite Z.mod_pow2_bits_high by lia.
Qed.

Lemma lor_shiftl_add a b n : fits n a -> 0 <= n -> Z.lor (Z.shiftl b n) a = b * 2 ^ n + a.
Proof.
  intros Ha Hn. rewrite <-Z.shiftl_mul_pow2 by lia.
  symmetry. apply Z.add_nocarry_lor.
  apply Z.bits_inj'. intros i Hi. rewrite Z.land_spec, Z.bits_0, Z.shiftl_spec by lia.
  destruct (decide (i < n)) as [Hlt|Hge].
  - by rewrite (Z.testbit_neg_r b) by lia.
  - rewrite (testbit_high n a i) by (done || lia). apply andb_false_r.
Qed.

Lemma shiftr_div_pow2 a n : 0 <= n -> Z.shiftr a n = a / 2 ^ n.
Proof. apply Z.shiftr_div_pow2. Qed.

Lemma land_ones_mod v n : 0 <= n -> Z.land v (Z.ones n) = v mod 2 ^ n.
Proof. intros. by rewrite Z.land_ones. Qed.

(** Bit tests of a number split at bit [n]. *)
Lemma testbit_split_high a b n i : fits n a -> 0 <= n -> 0 <= i ->
  Z.testbit (b * 2 ^ n + a) (n + i) = Z.testbit b i.
Proof.
  intros Ha Hn Hi. rewrite <-lor_shiftl_add, Z.lor_spec, Z.shiftl_spec by (done || lia).
  rewrite (testbit_high n a) by (done || lia). rewrite orb_false_r. f_equal. lia.
Qed.

Lemma testbit_split_low a b n i : fits n a -> 0 <= i < n ->
  Z.testbit (b * 2 ^ n + a) i = Z.testbit a i.
Proof.
  intros Ha Hi. rewrite <-lor_shiftl_add, Z.lor_spec, Z.shiftl_spec by (done || lia).
  by rewrite (Z.testbit_neg_r b) by lia.
Qed.

(** A mask with one bit set tests that bit. *)
Lemma land_pow2_test v j : 0 <= j -> (Z.land v (2 ^ j) =? 0) = negb (Z.testbit v j).
Proof.
  intros Hj. destruct (Z.testbit v j) eqn:E; cbn.
  - apply Z.eqb_neq. intros H. apply (f_equal (fun x => Z.testbit x j)) in H.
    rewrite Z.land_spec, E, Z.pow2_bits_true, Z.bits_0 in H by done. done.
  - apply Z.eqb_eq. apply Z.bits_inj'. intros i Hi. rewrite Z.land_spec, Z.bits_0.
    destruct (decide (i = j)) as [->|Hne]; [by rewrite E|].
    rewrite Z.pow2_bits_false by done. apply andb_false_r.
Qed.

(** ** Finite sums *)

Definition sum_seq (f : nat -> Z) (n : nat) : Z := foldr (fun i s => f i + s) 0 (seq 0 n).

Lemma sum_foldr_acc {A} (f : A -> Z) l a :
  foldr (fun i s => f i + s) a l = foldr (fun i s => f i + s) 0 l + a.
Proof. induction l as [|i l IH]; cbn; lia. Qed.

Lemma sum_seq_S f n : sum_seq f (S n) = sum_seq f n + f n.
Proof. unfold sum_seq. rewrite seq_S, foldr_app, sum_foldr_acc. cbn. lia. Qed.

Lemma sum_seq_add f n m : sum_seq f (n + m) = sum_seq f n + sum_seq (fun i => f (n + i)%nat) m.
Proof.
  induction m as [|m IH]; [rewrite Nat.add_0_r; unfold sum_seq at 3; cbn; lia|].
  rewrite Nat.add_succ_r, !sum_seq_S, IH. lia.
Qed.

Lemma sum_seq_ext f g n : (forall i, (i < n)%nat -> f i = g i) -> sum_seq f n = sum_seq g n.
Proof.
  induction n as [|n IH]; intros H; [done|]. rewrite !sum_seq_S, IH, H by auto. done.
Qed.
