(* ===== verification/RlpEncoding.v ===== *)
(** * RLP encoding

    The writer half of [libs/SimpleRlp]: primitive integers
    ([RlpEncoding.hpp]), leading bytes of byte strings and lists, and the
    generic writer over SimpleObjects values ([Writer.hpp]). *)

From stdpp Require Import strings.
From S2P Require Import Prelude.

(** ** SimpleObjects values as the writer and the parsers see them *)

(** The object categories the generic writer tells apart.  Every category it
    does not serialise (null, bool, number, string, dict, ...) is [OOther]
    with the category's name. A static dict is the list of its values in the
    iteration order of the dict. *)
Inductive Obj : Type :=
| OBytes (b : bytes)
| OList (l : list Obj)
| OStaticDict (l : list Obj)
| OOther (categoryName : string).

(** Exceptions of [Exceptions.hpp]; [OutOfFuel] is the model's own. *)
Inductive RlpError : Type :=
| ParseError (what : string) (pos : Z)
| SerializeTypeError (categoryName : string)
| OutOfFuel.

#[export] Instance RlpError_eq_dec : EqDecision RlpError.
Proof. solve_decision. Defined.

Section obj_induction.
Variable P : Obj -> Prop.
Hypothesis Hbytes : forall b, P (OBytes b).
Hypothesis Hlist : forall l, Forall P l -> P (OList l).
Hypothesis Hdict : forall l, Forall P l -> P (OStaticDict l).
Hypothesis Hother : forall c, P (OOther c).

(** Induction through the nested lists. *)
Fixpoint obj_nested_ind (o : Obj) : P o :=
  let all := fix all (l : list Obj) : Forall P l :=
    match l with
    | [] => Forall_nil_2 P
    | x :: l' => Forall_cons_2 P x l' (obj_nested_ind x) (all l')
    end in
  match o with
  | OBytes b => Hbytes b
  | OList l => Hlist l (all l)
  | OStaticDict l => Hdict l (all l)
  | OOther c => Hother c
  end.
End obj_induction.

(** ** Primitive integers *)

Module EncodePrimitiveIntValue.

(** The byte [(inVal >> (i * 8)) & 0xFF]. *)
Definition byte_of (inVal : Z) (i : nat) : Z :=
  Z.land (Z.shiftr inVal (Z.of_nat i * 8)) 0xFF.

(** The loop counting the most significant zero bytes. *)
Fixpoint zeroBytes_loop (inVal : Z) (i zeroBytes : nat) : nat :=
  match i with
  | O => zeroBytes
  | S i' =>
    if byte_of inVal i' =? 0 then zeroBytes_loop inVal i' (S zeroBytes)
    else zeroBytes
  end.

(** [sz] is [sizeof(_IntType)]. *)
Definition EncodedWidth (sz : nat) (inVal : Z) : nat :=
  (sz - zeroBytes_loop inVal sz 0)%nat.

Fixpoint write_loop (inVal : Z) (i : nat) : bytes :=
  match i with
  | O => []
  | S i' => u8 (byte_of inVal i') :: write_loop inVal i'
  end.

Definition Encode (sz : nat) (inVal : Z) : bytes :=
  write_loop inVal (EncodedWidth sz inVal).

Lemma byte_of_spec v i : 0 <= v -> byte_of v i = (v / 256 ^ Z.of_nat i) mod 256.
Proof.
  intros. unfold byte_of. rewrite land_ones_byte, shiftr_div_pow2 by lia.
  by rewrite Z.mul_comm, Z.pow_mul_r by lia.
Qed.

Lemma write_loop_be v n : 0 <= v -> write_loop v n = be_bytes n v.
Proof.
  intros Hv. induction n as [|n IH]; cbn [write_loop be_bytes]; [done|].
  rewrite IH, byte_of_spec by done. f_equal. auto with word.
Qed.

Lemma zeroBytes_loop_acc v i z : zeroBytes_loop v i z = (z + zeroBytes_loop v i 0)%nat.
Proof.
  revert z. induction i as [|i IH]; intros z; cbn [zeroBytes_loop]; [lia|].
  case_match; [|lia]. rewrite IH, (IH 1%nat). lia.
Qed.

(** The width is the least number of bytes that holds the value. *)
Lemma EncodedWidth_spec sz v :
  0 <= v < 256 ^ Z.of_nat sz ->
  let n := EncodedWidth sz v in
  (n <= sz)%nat /\ v < 256 ^ Z.of_nat n /\ (n <> O -> 256 ^ (Z.of_nat n - 1) <= v).
Proof.
  unfold EncodedWidth. revert v. induction sz as [|sz IH]; intros v Hv.
  { simpl. simpl in Hv. lia. }
  cbn [zeroBytes_loop]. rewrite byte_of_spec by lia.
  rewrite Nat2Z.inj_succ, Z.pow_succ_r in Hv by lia.
  pose proof (pow256_pos sz) as Hp.
  rewrite Z.mod_small; [|split; [apply Z.div_pos; lia|apply Z.div_lt_upper_bound; lia]].
  destruct (Z.eqb_spec (v / 256 ^ Z.of_nat sz) 0) as [E|E].
  - rewrite zeroBytes_loop_acc.
    assert (0 <= v < 256 ^ Z.of_nat sz) as Hv'.
    { apply Z.div_small_iff in E; lia. }
    specialize (IH v Hv'). simpl in IH. simpl. split_and!; lia || apply IH.
  - simpl. split; [lia|]. split.
    + rewrite Nat2Z.inj_succ, Z.pow_succ_r by lia. lia.
    + intros _. replace (Z.of_nat (S sz) - 1) with (Z.of_nat sz) by lia.
      destruct (Z.lt_ge_cases v (256 ^ Z.of_nat sz)); [|done].
      rewrite Z.div_small in E by lia. lia.
Qed.

Lemma Encode_length sz v : length (Encode sz v) = EncodedWidth sz v.
Proof.
  unfold Encode. generalize (EncodedWidth sz v). intros n.
  induction n; simpl; auto.
Qed.

Lemma Encode_val sz v : 0 <= v < 256 ^ Z.of_nat sz -> be_val (Encode sz v) = v.
Proof.
  intros Hv. unfold Encode. rewrite write_loop_be, be_val_be_bytes by lia.
  apply Z.mod_small. pose proof (EncodedWidth_spec sz v Hv). simpl in *. lia.
Qed.

Lemma Encode_bytes sz v : all_bytes (Encode sz v).
Proof.
  unfold Encode. generalize (EncodedWidth sz v) as n. intros n.
  induction n; simpl; constructor; auto. apply wrap_fits. lia.
Qed.

Lemma EncodedWidth_le sz v : (EncodedWidth sz v <= sz)%nat.
Proof. unfold EncodedWidth. lia. Qed.
End EncodePrimitiveIntValue.

(** ** Leading bytes *)

(** [sizeof(size_t)] on the x86-64 target. *)
Definition sizeof_size_t : nat := 8.

Lemma size_t_fits n : fits 64 n -> 0 <= n < 256 ^ Z.of_nat sizeof_size_t.
Proof. change (256 ^ Z.of_nat sizeof_size_t) with (2 ^ 64). done. Qed.

Module EncodeSizeValue.
Definition EncodedWidth (inSize : Z) : nat :=
  EncodePrimitiveIntValue.EncodedWidth sizeof_size_t inSize.
Definition Encode (inSize : Z) : bytes :=
  EncodePrimitiveIntValue.Encode sizeof_size_t inSize.
End EncodeSizeValue.

Module EncodeRlpBytes.

Definition GenLeadingBytes (byteSize : Z) : bytes :=
  if byteSize <=? 55 then [u8 (0x80 + byteSize)]
  else
    let res := 0 :: EncodeSizeValue.Encode byteSize in
    <[0%nat := u8 (0xB7 + (zlen res - 1))]> res.

Definition CalcLeadingBytesSize (byteSize : Z) : Z :=
  if byteSize <=? 55 then 1
  else 1 + Z.of_nat (EncodeSizeValue.EncodedWidth byteSize).

Definition SerializeBytes (inBytes : bytes) : bytes :=
  if (zlen inBytes =? 1) && (default 0 (inBytes !! 0%nat) <=? 0x7F) then inBytes
  else GenLeadingBytes (zlen inBytes) ++ inBytes.

(** [firstByte] is what [firstBytePtr] points at. *)
Definition CalcSerializedSize (inBytesSize firstByte : Z) : Z :=
  if (inBytesSize =? 1) && (firstByte <=? 0x7F) then 1
  else u64 (CalcLeadingBytesSize inBytesSize + inBytesSize).
End EncodeRlpBytes.

Module EncodeRlpList.

Definition GenLeadingBytes (byteSize : Z) : bytes :=
  if byteSize <=? 55 then [u8 (0xC0 + byteSize)]
  else
    let res := 0 :: EncodeSizeValue.Encode byteSize in
    <[0%nat := u8 (0xF7 + (zlen res - 1))]> res.

Definition CalcLeadingBytesSize (byteSize : Z) : Z :=
  if byteSize <=? 55 then 1
  else 1 + Z.of_nat (EncodeSizeValue.EncodedWidth byteSize).

Definition SerializeBytes (inBytes : bytes) : bytes :=
  GenLeadingBytes (zlen inBytes) ++ inBytes.

Definition CalcSerializedSize (inBytesSize : Z) : Z :=
  u64 (CalcLeadingBytesSize inBytesSize + inBytesSize).
End EncodeRlpList.

(** ** The generic writer *)

Module WriterBytes.
Definition Write (inBytes : bytes) : bytes :=
  EncodeRlpBytes.SerializeBytes (map (fun b => u8 b) inBytes).

Definition CalcSize (inBytes : bytes) : Z :=
  EncodeRlpBytes.CalcSerializedSize (zlen inBytes) (default 0 (inBytes !! 0%nat)).
End WriterBytes.

Section writer_list.
Context (WriteItem : Obj -> result RlpError bytes).
Context (SizeItem : Obj -> result RlpError Z).

Fixpoint WriterList_concat (inList : list Obj) : result RlpError bytes :=
  match inList with
  | [] => Ok []
  | item :: rest =>
    subBytes ← WriteItem item;
    outBytes ← WriterList_concat rest;
    Ok (subBytes ++ outBytes)
  end.

Definition WriterList_Write (inList : list Obj) : result RlpError bytes :=
  outBytes ← WriterList_concat inList;
  Ok (EncodeRlpList.SerializeBytes outBytes).

(** Sums the sizes of the items; [innerSize] is a [size_t]. *)
Fixpoint WriterList_sum (innerSize : Z) (inList : list Obj) : result RlpError Z :=
  match inList with
  | [] => Ok innerSize
  | item :: rest =>
    n ← SizeItem item;
    WriterList_sum (u64 (innerSize + n)) rest
  end.

Definition WriterList_CalcSize (inList : list Obj) : result RlpError Z :=
  innerSize ← WriterList_sum 0 inList;
  Ok (EncodeRlpList.CalcSerializedSize innerSize).

(** Items of a static dict from the front, stopping when only [skipLast]
    items are left. *)
Fixpoint WriterStaticDict_concat (itemLeft skipLast : Z) (inDict : list Obj)
  : result RlpError bytes :=
  match inDict with
  | [] => Ok []
  | item :: rest =>
    if itemLeft <=? skipLast then Ok []
    else
      subBytes ← WriteItem item;
      outBytes ← WriterStaticDict_concat (itemLeft - 1) skipLast rest;
      Ok (subBytes ++ outBytes)
  end.

Definition WriterStaticDict_Write (inDict : list Obj) (skipLast : Z)
  : result RlpError bytes :=
  outBytes ← WriterStaticDict_concat (zlen inDict) skipLast inDict;
  Ok (EncodeRlpList.SerializeBytes outBytes).

Fixpoint WriterStaticDict_sum (innerSize itemLeft skipLast : Z) (inDict : list Obj)
  : result RlpError Z :=
  match inDict with
  | [] => Ok innerSize
  | item :: rest =>
    if itemLeft <=? skipLast then Ok innerSize
    else
      n ← SizeItem item;
      WriterStaticDict_sum (u64 (innerSize + n)) (itemLeft - 1) skipLast rest
  end.

Definition WriterStaticDict_CalcSize (inDict : list Obj) (skipLast : Z)
  : result RlpError Z :=
  innerSize ← WriterStaticDict_sum 0 (zlen inDict) skipLast inDict;
  Ok (EncodeRlpList.CalcSerializedSize innerSize).
End writer_list.

Module WriterGeneric.
Fixpoint Write (obj : Obj) : result RlpError bytes :=
  match obj with
  | OBytes b => Ok (WriterBytes.Write b)
  | OList l => WriterList_Write Write l
  | OStaticDict l => WriterStaticDict_Write Write l 0
  | OOther c => Throw (SerializeTypeError c)
  end.

Fixpoint CalcSize (obj : Obj) : result RlpError Z :=
  match obj with
  | OBytes b => Ok (WriterBytes.CalcSize b)
  | OList l => WriterList_CalcSize CalcSize l
  | OStaticDict l => WriterStaticDict_CalcSize CalcSize l 0
  | OOther c => Throw (SerializeTypeError c)
  end.
End WriterGeneric.
