(* ===== verification/RlpDecoding.v ===== *)
(** * RLP decoding

    The parser half of [libs/SimpleRlp]: the input state machine
    ([InputStateMachine.hpp]), integer and leading-byte decoding
    ([RlpDecoding.hpp]), and the byte-string, list, general and static-dict
    parsers ([ParserBase.hpp], [BytesParser.hpp], [ListParser.hpp],
    [GeneralParser.hpp], [StaticDictParser.hpp], [EthHeader.hpp]). *)

From stdpp Require Import strings.
From S2P Require Import Prelude RlpEncoding.

(** ** The input state machine over a forward iterator *)

Module ISM.
(** [m_it] is what is left of [[m_begin, m_end)]. *)
Record t := mk { m_byteCount : Z; m_data : Z; m_isEnd : bool; m_it : bytes }.

Definition GetFirstByte (begin : bytes) : result RlpError Z :=
  match begin with
  | b :: _ => Ok b
  | [] => Throw (ParseError "Expecting more input data" 0)
  end.

Definition init (begin : bytes) : result RlpError t :=
  firstByte ← GetFirstByte begin;
  Ok (mk 0 firstByte false begin).

Definition InternalNextVal (it : bytes) : bool * Z * bytes :=
  match it with
  | [] => (true, 0, [])
  | _ :: it' =>
    match it' with
    | [] => (true, 0, [])
    | b :: _ => (false, b, it')
    end
  end.

Definition GetByte (s : t) : result RlpError Z :=
  if m_isEnd s then Throw (ParseError "Expecting more input data" (m_byteCount s))
  else Ok (m_data s).

Definition GetByteAndAdv (s : t) : result RlpError (Z * t) :=
  tmp ← GetByte s;
  let '(isEnd, data, it) := InternalNextVal (m_it s) in
  Ok (tmp, mk (u64 (m_byteCount s + 1)) data isEnd it).

Definition GetBytesCount (s : t) : Z := m_byteCount s.

(** The machine at position [c] with [rest] still to be read. *)
Definition at_ (c : Z) (rest : bytes) : t :=
  mk c (default 0 (head rest)) (match rest with [] => true | _ => false end) rest.

Lemma init_at l b : init (b :: l) = Ok (at_ 0 (b :: l)).
Proof. done. Qed.

Lemma adv_cons c b l : GetByteAndAdv (at_ c (b :: l)) = Ok (b, at_ (u64 (c + 1)) l).
Proof. by destruct l. Qed.

Lemma adv_nil c :
  GetByteAndAdv (at_ c []) = Throw (ParseError "Expecting more input data" c).
Proof. done. Qed.

Lemma count_at c l : GetBytesCount (at_ c l) = c.
Proof. done. Qed.
End ISM.

(** The position [n] bytes further on. *)
Definition adv_count (c : Z) (n : nat) : Z := Nat.iter n (fun x => u64 (x + 1)) c.

Lemma adv_count_S c n : adv_count (u64 (c + 1)) n = adv_count c (S n).
Proof. unfold adv_count. by rewrite Nat.iter_succ_r. Qed.

Lemma adv_count_add c n m : adv_count (adv_count c n) m = adv_count c (n + m).
Proof. unfold adv_count. by rewrite Nat.add_comm, Nat.iter_add. Qed.

(** ** Integers *)

(** The input function may throw exceptions of its own beside the parser's. *)
Class FromRlpError (E : Type) := from_rlp : RlpError -> E.
#[export] Instance rlp_from_rlp : FromRlpError RlpError := id.

Module ParsePrimitiveIntValue.
Section parse.
Context {St E : Type} `{FromRlpError E} (inFunc : St -> result E (Z * St)).

(** [sizeof(_OutType)], and whether the input type is at most 8 bits wide. *)
Context (sz : nat) (isValTypeByte : bool).

Definition IsValWithinAByte (val : Z) : bool := isValTypeByte || (val <=? 0xFF).

Fixpoint Parse_loop (i : nat) (res : Z) (st : St) : result E (Z * St) :=
  match i with
  | O => Ok (res, st)
  | S i' =>
    '(val, st) ← inFunc st;
    if negb (IsValWithinAByte val) then
      Throw (from_rlp (ParseError "Expecting a byte value, while the given input exceeds the range of a byte" 0))
    else
      Parse_loop i' (Z.lor res (wrap (8 * Z.of_nat sz) (Z.shiftl val (Z.of_nat i' * 8)))) st
  end.

Definition Parse (len : Z) (st : St) : result E (Z * St) :=
  if Z.of_nat sz <? len then
    Throw (from_rlp (ParseError "The given byte size is larger than the target int type" 0))
  else Parse_loop (Z.to_nat len) 0 st.
End parse.
End ParsePrimitiveIntValue.

Module ParseSizeValue.
(** The size is read as a [uint64_t]; a parse error is re-thrown with the
    caller's position. *)
Definition Parse (len pos : Z) (ism : ISM.t) : result RlpError (Z * ISM.t) :=
  match ParsePrimitiveIntValue.Parse ISM.GetByteAndAdv 8 true len ism with
  | Ok (val64, ism) => Ok (u64 val64, ism)
  | Throw (ParseError what _) => Throw (ParseError what pos)
  | Throw e => Throw e
  end.
End ParseSizeValue.

(** ** Leading bytes *)

Inductive RlpEncodeType := Byte | BytesShort | BytesLong | ListShort | ListLong.

#[export] Instance RlpEncodeType_eq_dec : EqDecision RlpEncodeType.
Proof. solve_decision. Defined.

(** [isValTypeByte]: whether [_ValType] is at most 8 bits wide; [vw] is its width. *)
Definition DecodeRlpLeadingByte (vw : Z) (isValTypeByte : bool) (val pos : Z)
  : result RlpError (RlpEncodeType * Z) :=
  if val <=? 0x7F then Ok (Byte, val)
  else if val <=? 0xB7 then Ok (BytesShort, wrap vw (val - 0x80))
  else if val <=? 0xBF then Ok (BytesLong, wrap vw (val - 0xB7))
  else if val <=? 0xF7 then Ok (ListShort, wrap vw (val - 0xC0))
  else if ParsePrimitiveIntValue.IsValWithinAByte isValTypeByte val then
    Ok (ListLong, wrap vw (val - 0xF7))
  else Throw (ParseError "Input value should be within the range of 1 byte" pos).

(** ** Parsers over [uint8_t] input *)

Module ParserBase.
(** Returns the bytes left after taking [byteNeeded]. *)
Definition CheckByteLeft (byteLeft byteNeeded pos : Z) : result RlpError Z :=
  if byteLeft <? byteNeeded then
    Throw (ParseError "Expecting more input data than what is left" pos)
  else Ok (byteLeft - byteNeeded).

(** The size that follows a long leading byte. *)
Definition ProcLongSize (ism : ISM.t) (rlpVal byteLeft : Z)
  : result RlpError (Z * ISM.t * Z) :=
  byteLeft ← CheckByteLeft byteLeft rlpVal (ISM.GetBytesCount ism);
  '(size, ism) ← ParseSizeValue.Parse rlpVal (ISM.GetBytesCount ism) ism;
  Ok (size, ism, byteLeft).

Definition ProcRlpListHeader (ism : ISM.t) (rlpType : RlpEncodeType) (rlpVal byteLeft : Z)
  : result RlpError (Z * ISM.t * Z) :=
  match rlpType with
  | ListShort => Ok (rlpVal, ism, byteLeft)
  | ListLong => ProcLongSize ism rlpVal byteLeft
  | _ => Throw (ParseError "Expecting a list data" (ISM.GetBytesCount ism))
  end.

Definition ProcRlpBytesHeader (ism : ISM.t) (rlpType : RlpEncodeType) (rlpVal byteLeft : Z)
  : result RlpError (Z * ISM.t * Z) :=
  match rlpType with
  | BytesShort => Ok (rlpVal, ism, byteLeft)
  | BytesLong => ProcLongSize ism rlpVal byteLeft
  | _ => Throw (ParseError "Expecting a byte string data" (ISM.GetBytesCount ism))
  end.

Section entry.
Context {A : Type}.
(** The virtual [Parse] of the concrete parser. *)
Context (ParseTyped : ISM.t -> RlpEncodeType -> Z -> Z -> result RlpError (A * ISM.t * Z)).

Definition ParseAt (ism : ISM.t) (byteLeft : Z) : result RlpError (A * ISM.t * Z) :=
  byteLeft ← CheckByteLeft byteLeft 1 (ISM.GetBytesCount ism);
  '(rlpByte, ism) ← ISM.GetByteAndAdv ism;
  '(rlpType, rlpVal) ← DecodeRlpLeadingByte 8 true rlpByte (ISM.GetBytesCount ism);
  ParseTyped ism rlpType rlpVal byteLeft.

Definition ParseRange (range : bytes) (size : Z) (checkExtra : bool) : result RlpError A :=
  ism ← ISM.init range;
  '(res, ism, size) ← ParseAt ism size;
  if checkExtra && negb (size =? 0) then
    Throw (ParseError "Extra data found at the end of input data" (ISM.GetBytesCount ism))
  else Ok res.

Definition Parse (ctn : bytes) (checkExtra : bool) : result RlpError A :=
  ParseRange ctn (zlen ctn) checkExtra.
End entry.
End ParserBase.

Module BytesParser.
Fixpoint read_loop (n : nat) (ism : ISM.t) (obj : bytes) : result RlpError (bytes * ISM.t) :=
  match n with
  | O => Ok (obj, ism)
  | S n' =>
    '(b, ism) ← ISM.GetByteAndAdv ism;
    read_loop n' ism (obj ++ [b])
  end.

Definition Parse (ism : ISM.t) (rlpType : RlpEncodeType) (rlpVal byteLeft : Z)
  : result RlpError (bytes * ISM.t * Z) :=
  match rlpType with
  | Byte => Ok ([rlpVal], ism, byteLeft)
  | _ =>
    '(size, ism, byteLeft) ← ParserBase.ProcRlpBytesHeader ism rlpType rlpVal byteLeft;
    byteLeft ← ParserBase.CheckByteLeft byteLeft size (ISM.GetBytesCount ism);
    '(obj, ism) ← read_loop (Z.to_nat size) ism [];
    Ok (obj, ism, byteLeft)
  end.
End BytesParser.

Module ListParser.
(** One [Parse] call, given the loop that reads the items of the payload. *)
Definition Parse_with (items : ISM.t -> Z -> result RlpError (list Obj * ISM.t))
    (ism : ISM.t) (rlpType : RlpEncodeType) (rlpVal byteLeft : Z)
  : result RlpError (list Obj * ISM.t * Z) :=
  '(size, ism, byteLeft) ← ParserBase.ProcRlpListHeader ism rlpType rlpVal byteLeft;
  byteLeft ← ParserBase.CheckByteLeft byteLeft size (ISM.GetBytesCount ism);
  '(obj, ism) ← items ism size;
  Ok (obj, ism, byteLeft).

(** The [while (size > 0)] loop; nested lists re-enter it. *)
Fixpoint items (fuel : nat) (ism : ISM.t) (size : Z) (obj : list Obj)
  : result RlpError (list Obj * ISM.t) :=
  match fuel with
  | O => Throw OutOfFuel
  | S fuel =>
    if size <=? 0 then Ok (obj, ism)
    else
      '(nextByte, ism) ← ISM.GetByteAndAdv ism;
      let size := size - 1 in
      '(nextType, nextVal) ← DecodeRlpLeadingByte 8 true nextByte (ISM.GetBytesCount ism);
      match nextType with
      | Byte | BytesShort | BytesLong =>
        '(b, ism, size) ← BytesParser.Parse ism nextType nextVal size;
        items fuel ism size (obj ++ [OBytes b])
      | ListShort | ListLong =>
        '(l, ism, size) ←
          Parse_with (fun ism size => items fuel ism size []) ism nextType nextVal size;
        items fuel ism size (obj ++ [OList l])
      end
  end.

Definition Parse (fuel : nat) (ism : ISM.t) (rlpType : RlpEncodeType) (rlpVal byteLeft : Z)
  : result RlpError (list Obj * ISM.t * Z) :=
  Parse_with (fun ism size => items fuel ism size []) ism rlpType rlpVal byteLeft.
End ListParser.

Module GeneralParser.
Definition ParseTyped (fuel : nat) (ism : ISM.t) (rlpType : RlpEncodeType)
    (rlpVal byteLeft : Z) : result RlpError (Obj * ISM.t * Z) :=
  match rlpType with
  | Byte | BytesShort | BytesLong =>
    '(b, ism, byteLeft) ← BytesParser.Parse ism rlpType rlpVal byteLeft;
    Ok (OBytes b, ism, byteLeft)
  | ListShort | ListLong =>
    '(l, ism, byteLeft) ← ListParser.Parse fuel ism rlpType rlpVal byteLeft;
    Ok (OList l, ism, byteLeft)
  end.

(** Every iteration of the item loop consumes a byte, so one unit of fuel per
    input byte and one for the last test is enough. *)
Definition Parse (ctn : bytes) (checkExtra : bool) : result RlpError Obj :=
  ParserBase.Parse (ParseTyped (S (length ctn))) ctn checkExtra.

(** [Parse(begin, end, size)] on the tail of a container. *)
Definition ParseRange (range : bytes) (size : Z) : result RlpError Obj :=
  ParserBase.ParseRange (ParseTyped (S (length range))) range size true.
End GeneralParser.

(** ** Reading bytes one after the other *)

(** [inFunc] delivers the bytes [bs] on the way from [st] to [st']. *)
Inductive reads {St E} (inFunc : St -> result E (Z * St)) : St -> bytes -> St -> Prop :=
| reads_nil st : reads inFunc st [] st
| reads_cons st b st1 bs st' :
    inFunc st = Ok (b, st1) -> reads inFunc st1 bs st' -> reads inFunc st (b :: bs) st'.

Lemma ism_reads c bs rest :
  reads ISM.GetByteAndAdv (ISM.at_ c (bs ++ rest)) bs
    (ISM.at_ (adv_count c (length bs)) rest).
Proof.
  revert c. induction bs as [|b bs IH]; intros c; [constructor|].
  econstructor; [apply ISM.adv_cons|].
  cbn [length]. rewrite <-adv_count_S. apply IH.
Qed.

Lemma Parse_loop_reads {St E} `{FromRlpError E} (inFunc : St -> result E (Z * St)) sz st bs st' k :
  reads inFunc st bs st' -> all_bytes bs -> (length bs <= sz)%nat -> 0 <= k ->
  ParsePrimitiveIntValue.Parse_loop inFunc sz true (length bs) (k * 256 ^ zlen bs) st
  = Ok (k * 256 ^ zlen bs + be_val bs, st').
Proof.
  intros Hr. revert k. induction Hr as [st|st b st1 bs st' Eb Hr IH]; intros k Hb Hlen Hk.
  { simpl. f_equal. f_equal. change (be_val []) with 0. lia. }
  apply all_bytes_cons in Hb as [Hb Hbs]. cbn [length] in *.
  cbn [ParsePrimitiveIntValue.Parse_loop]. rewrite Eb. cbn -[Z.of_nat Z.pow be_val].
  assert (Hsh : Z.shiftl b (zlen bs * 8) = b * 256 ^ zlen bs).
  { rewrite Z.shiftl_mul_pow2, pow256_pow2 by lia. f_equal. f_equal. lia. }
  pose proof (pow256_pos (length bs)) as Hp.
  assert (256 ^ zlen (b :: bs) = 256 * 256 ^ zlen bs) as Hs.
  { cbn [length]. by rewrite Nat2Z.inj_succ, Z.pow_succ_r by lia. }
  assert (Hbp : 0 <= b * 256 ^ zlen bs < 256 ^ zlen (b :: bs)) by (rewrite Hs; widths; nia).
  change (S (length bs)) with (length (b :: bs)).
  assert (Hfit : forall n, (length (b :: bs) <= n)%nat -> fits (8 * Z.of_nat n) (b * 256 ^ zlen bs)).
  { intros n Hn. unfold fits. rewrite <-pow256_pow2.
    pose proof (Z.pow_le_mono_r 256 (zlen (b :: bs)) (Z.of_nat n)). lia. }
  rewrite Hsh, wrap_small by (apply Hfit; cbn [length]; lia).
  replace (Z.lor (k * 256 ^ zlen (b :: bs)) (b * 256 ^ zlen bs))
    with ((k * 256 + b) * 256 ^ zlen bs).
  - rewrite IH by (auto; word_lia). f_equal. f_equal.
    rewrite be_val_cons, Hs. ring.
  - rewrite (pow256_pow2 (length (b :: bs))), <-Z.shiftl_mul_pow2 by lia.
    rewrite lor_shiftl_add by (apply Hfit || idtac; lia).
    rewrite <-pow256_pow2, Hs. ring.
Qed.

Lemma Parse_reads {St E} `{FromRlpError E} (inFunc : St -> result E (Z * St)) sz st bs st' :
  reads inFunc st bs st' -> all_bytes bs -> (length bs <= sz)%nat ->
  ParsePrimitiveIntValue.Parse inFunc sz true (zlen bs) st = Ok (be_val bs, st').
Proof.
  intros Hr Hb Hl. unfold ParsePrimitiveIntValue.Parse.
  rewrite (proj2 (Z.ltb_ge _ _)) by lia. rewrite Nat2Z.id.
  pose proof (Parse_loop_reads inFunc sz st bs st' 0 Hr Hb Hl) as HP.
  rewrite Z.mul_0_l in HP. apply HP. lia.
Qed.

(** ** Headers *)

Lemma ParseSizeValue_canonical c n rest pos :
  fits 64 n ->
  let enc := EncodeSizeValue.Encode n in
  ParseSizeValue.Parse (zlen enc) pos (ISM.at_ c (enc ++ rest))
  = Ok (n, ISM.at_ (adv_count c (length enc)) rest).
Proof.
  intros Hn enc. unfold ParseSizeValue.Parse.
  erewrite Parse_reads; [|apply ism_reads|apply EncodePrimitiveIntValue.Encode_bytes|].
  - unfold enc, EncodeSizeValue.Encode. rewrite EncodePrimitiveIntValue.Encode_val by (by apply size_t_fits).
    by rewrite wrap_small.
  - unfold enc, EncodeSizeValue.Encode. rewrite EncodePrimitiveIntValue.Encode_length.
    apply EncodePrimitiveIntValue.EncodedWidth_le.
Qed.

Lemma size_width n : fits 64 n -> 55 < n ->
  let w := EncodePrimitiveIntValue.EncodedWidth sizeof_size_t n in (1 <= w <= 8)%nat.
Proof.
  intros Hn Hlt w.
  destruct (EncodePrimitiveIntValue.EncodedWidth_spec sizeof_size_t n) as (H1 & H2 & _);
    [by apply size_t_fits|].
  fold w in H1, H2. unfold sizeof_size_t in H1. destruct w; [simpl in H2; lia|]. lia.
Qed.

(** Shape of a header: [lead = b0 :: tl], where [b0] decodes to a short or a
    long type and the matching [Proc...Header] then reads exactly [tl]. *)
Lemma list_header n : fits 64 n ->
  exists b0 tl t v,
    EncodeRlpList.GenLeadingBytes n = b0 :: tl /\ is_byte b0 /\ all_bytes tl /\
    (t = ListShort \/ t = ListLong) /\
    (forall pos, DecodeRlpLeadingByte 8 true b0 pos = Ok (t, v)) /\
    (forall c rest byteLeft, zlen tl <= byteLeft ->
       ParserBase.ProcRlpListHeader (ISM.at_ c (tl ++ rest)) t v byteLeft
       = Ok (n, ISM.at_ (adv_count c (length tl)) rest, byteLeft - zlen tl)).
Proof.
  intros Hn. unfold EncodeRlpList.GenLeadingBytes. destruct (Z.leb_spec n 55).
  - exists (u8 (0xC0 + n)), [], ListShort, n.
    assert (u8 (0xC0 + n) = 0xC0 + n) as -> by (apply wrap_small; word_lia).
    split_and!; [done|word_lia|constructor|auto| |].
    + intros pos. unfold DecodeRlpLeadingByte.
      repeat (rewrite (proj2 (Z.leb_gt _ _)) by word_lia).
      rewrite (proj2 (Z.leb_le _ _)) by lia. do 2 f_equal. rewrite wrap_small; word_lia.
    + intros c rest bl _. simpl. do 2 f_equal. lia.
  - pose proof (size_width n Hn) as Hw. simpl in Hw. specialize (Hw ltac:(lia)).
    set (enc := EncodeSizeValue.Encode n).
    assert (Hlen : length enc = EncodePrimitiveIntValue.EncodedWidth sizeof_size_t n)
      by apply EncodePrimitiveIntValue.Encode_length.
    assert (Hab : all_bytes enc) by apply EncodePrimitiveIntValue.Encode_bytes.
    pose proof (fun c rest pos => ParseSizeValue_canonical c n rest pos Hn) as Hsz.
    cbn zeta in Hsz. fold enc in Hsz. clearbody enc.
    assert (u8 (0xF7 + (zlen (0 :: enc) - 1)) = 0xF7 + zlen enc) as E.
    { rewrite wrap_small; cbn [length]; word_lia. }
    exists (0xF7 + zlen enc), enc, ListLong, (zlen enc).
    cbn zeta. rewrite E. split_and!.
    + reflexivity.
    + word_lia.
    + done.
    + auto.
    + intros pos. unfold DecodeRlpLeadingByte.
      repeat (rewrite (proj2 (Z.leb_gt _ _)) by word_lia).
      simpl. do 2 f_equal. rewrite wrap_small; word_lia.
    + intros c rest bl Hbl. simpl. unfold ParserBase.ProcLongSize, ParserBase.CheckByteLeft.
      rewrite (proj2 (Z.ltb_ge _ _)) by lia. simpl.
      by rewrite Hsz.
Qed.

Lemma bytes_header n : fits 64 n ->
  exists b0 tl t v,
    EncodeRlpBytes.GenLeadingBytes n = b0 :: tl /\ is_byte b0 /\ all_bytes tl /\
    (t = BytesShort \/ t = BytesLong) /\
    (forall pos, DecodeRlpLeadingByte 8 true b0 pos = Ok (t, v)) /\
    (forall c rest byteLeft, zlen tl <= byteLeft ->
       ParserBase.ProcRlpBytesHeader (ISM.at_ c (tl ++ rest)) t v byteLeft
       = Ok (n, ISM.at_ (adv_count c (length tl)) rest, byteLeft - zlen tl)).
Proof.
  intros Hn. unfold EncodeRlpBytes.GenLeadingBytes. destruct (Z.leb_spec n 55).
  - exists (u8 (0x80 + n)), [], BytesShort, n.
    assert (u8 (0x80 + n) = 0x80 + n) as -> by (apply wrap_small; word_lia).
    split_and!; [done|word_lia|constructor|auto| |].
    + intros pos. unfold DecodeRlpLeadingByte.
      rewrite (proj2 (Z.leb_gt _ _)) by word_lia.
      rewrite (proj2 (Z.leb_le _ _)) by lia. do 2 f_equal. rewrite wrap_small; word_lia.
    + intros c rest bl _. simpl. do 2 f_equal. lia.
  - pose proof (size_width n Hn) as Hw. simpl in Hw. specialize (Hw ltac:(lia)).
    set (enc := EncodeSizeValue.Encode n).
    assert (Hlen : length enc = EncodePrimitiveIntValue.EncodedWidth sizeof_size_t n)
      by apply EncodePrimitiveIntValue.Encode_length.
    assert (Hab : all_bytes enc) by apply EncodePrimitiveIntValue.Encode_bytes.
    pose proof (fun c rest pos => ParseSizeValue_canonical c n rest pos Hn) as Hsz.
    cbn zeta in Hsz. fold enc in Hsz. clearbody enc.
    assert (u8 (0xB7 + (zlen (0 :: enc) - 1)) = 0xB7 + zlen enc) as E.
    { rewrite wrap_small; cbn [length]; word_lia. }
    exists (0xB7 + zlen enc), enc, BytesLong, (zlen enc).
    cbn zeta. rewrite E. split_and!.
    + reflexivity.
    + word_lia.
    + done.
    + auto.
    + intros pos. unfold DecodeRlpLeadingByte.
      do 2 (rewrite (proj2 (Z.leb_gt _ _)) by word_lia).
      rewrite (proj2 (Z.leb_le _ _)) by word_lia.
      simpl. do 2 f_equal. rewrite wrap_small; word_lia.
    + intros c rest bl Hbl. simpl. unfold ParserBase.ProcLongSize, ParserBase.CheckByteLeft.
      rewrite (proj2 (Z.ltb_ge _ _)) by lia. simpl.
      by rewrite Hsz.
Qed.

(** ** Round trip *)

(** A value made of byte strings and lists only, the ones the parsers return. *)
Inductive plain : Obj -> Prop :=
| plain_bytes b : all_bytes b -> plain (OBytes b)
| plain_list l : Forall plain l -> plain (OList l).

Lemma GenLeading_list_nonempty n : EncodeRlpList.GenLeadingBytes n <> [].
Proof. unfold EncodeRlpList.GenLeadingBytes. by case_match. Qed.

Lemma map_u8_id b : all_bytes b -> map (fun x => u8 x) b = b.
Proof. induction 1; simpl; f_equal; auto with word. Qed.

(** What [Write] yields on a plain value. *)
Lemma Write_plain o : plain o ->
  exists bs, WriterGeneric.Write o = Ok bs.
Proof.
  induction o as [b|l IH|l IH|c] using obj_nested_ind; intros Hp; inversion Hp as [|? Hl]; subst.
  { by eexists. }
  cbn [WriterGeneric.Write]. unfold WriterList_Write.
  assert (exists bs, WriterList_concat WriterGeneric.Write l = Ok bs) as [bs ->];
    [|by eexists].
  clear Hp. induction l as [|x l IHl]; [by eexists|].
  apply Forall_cons in IH as [IHx IH], Hl as [Hx Hl].
  destruct (IHx Hx) as [bx Ex], (IHl IH Hl) as [bl El].
  exists (bx ++ bl). cbn [WriterList_concat]. rewrite Ex. cbn. by rewrite El.
Qed.

Lemma WriterList_Write_inv f l bs :
  WriterList_Write f l = Ok bs ->
  exists p, WriterList_concat f l = Ok p /\ bs = EncodeRlpList.GenLeadingBytes (zlen p) ++ p.
Proof.
  unfold WriterList_Write. intros H. bind_ok H. injection H as <-. eauto.
Qed.

Lemma WriterList_concat_cons f x l p :
  WriterList_concat f (x :: l) = Ok p ->
  exists b q, f x = Ok b /\ WriterList_concat f l = Ok q /\ p = b ++ q.
Proof.
  cbn [WriterList_concat]. intros H. bind_ok H. bind_ok H. injection H as <-. eauto.
Qed.

Lemma read_loop_at n c bs rest obj :
  length bs = n ->
  BytesParser.read_loop n (ISM.at_ c (bs ++ rest)) obj
  = Ok (obj ++ bs, ISM.at_ (adv_count c n) rest).
Proof.
  revert c obj bs. induction n as [|n IH]; intros c obj [|b bs] Hl; try done.
  { by rewrite app_nil_r. }
  cbn [BytesParser.read_loop]. rewrite <-app_comm_cons, ISM.adv_cons. cbn.
  rewrite IH by (simpl in Hl; lia). rewrite adv_count_S. by rewrite <-app_assoc.
Qed.

(** A serialised byte string, seen from its first byte on. *)
Lemma bytes_item b : all_bytes b -> fits 64 (zlen b) ->
  exists b0 tl t v,
    EncodeRlpBytes.SerializeBytes b = b0 :: tl /\ is_byte b0 /\ all_bytes tl /\
    (t = Byte \/ t = BytesShort \/ t = BytesLong) /\
    (forall pos, DecodeRlpLeadingByte 8 true b0 pos = Ok (t, v)) /\
    (forall c rest byteLeft, zlen tl <= byteLeft ->
       BytesParser.Parse (ISM.at_ c (tl ++ rest)) t v byteLeft
       = Ok (b, ISM.at_ (adv_count c (length tl)) rest, byteLeft - zlen tl)).
Proof.
  intros Hb Hn. unfold EncodeRlpBytes.SerializeBytes.
  destruct ((zlen b =? 1) && (default 0 (b !! 0%nat) <=? 127)) eqn:E.
  - apply andb_true_iff in E as [E1 E2]. apply Z.eqb_eq in E1. destruct b as [|x [|y b]]; cbn [length] in E1; try lia.
    simpl in E2. apply all_bytes_cons in Hb as [Hx _].
    exists x, [], Byte, x. split_and!; [done|done|constructor|auto| |].
    + intros pos. unfold DecodeRlpLeadingByte. by rewrite E2.
    + intros c rest bl _. simpl. do 2 f_equal. lia.
  - destruct (bytes_header (zlen b) Hn) as (b0 & tl & t & v & -> & H0 & Htl & Ht & Hd & Hh).
    exists b0, (tl ++ b), t, v. split_and!; [done|done|by apply all_bytes_app|tauto|done|].
    intros c rest bl Hbl. rewrite length_app, Nat2Z.inj_add in Hbl.
    specialize (Hh c (b ++ rest) bl ltac:(lia)). rewrite app_assoc in Hh.
    assert (BytesParser.Parse (ISM.at_ c ((tl ++ b) ++ rest)) t v bl =
      ('(size, ism, byteLeft) ←
         ParserBase.ProcRlpBytesHeader (ISM.at_ c ((tl ++ b) ++ rest)) t v bl;
       byteLeft ← ParserBase.CheckByteLeft byteLeft size (ISM.GetBytesCount ism);
       '(obj, ism) ← BytesParser.read_loop (Z.to_nat size) ism [];
       Ok (obj, ism, byteLeft))) as -> by (by destruct Ht as [->| ->]).
    rewrite Hh. cbn. unfold ParserBase.CheckByteLeft.
    rewrite (proj2 (Z.ltb_ge _ _)) by lia. cbn. rewrite Nat2Z.id, read_loop_at by done. cbn.
    rewrite adv_count_add, length_app. do 2 f_equal. lia.
Qed.

(** One item in front of the item loop is parsed back. *)
Definition item_ok (o : Obj) : Prop :=
  forall bs fuel c rest size acc,
    WriterGeneric.Write o = Ok bs -> fits 64 (zlen bs) -> (length bs <= fuel)%nat ->
    zlen bs <= size ->
    ListParser.items (S fuel) (ISM.at_ c (bs ++ rest)) size acc
    = ListParser.items fuel (ISM.at_ (adv_count c (length bs)) rest) (size - zlen bs) (acc ++ [o])
      /\ (1 <= length bs)%nat.

Lemma items_concat l : Forall item_ok l ->
  forall p fuel c rest acc,
    WriterList_concat WriterGeneric.Write l = Ok p -> fits 64 (zlen p) ->
    (length p < fuel)%nat ->
    ListParser.items fuel (ISM.at_ c (p ++ rest)) (zlen p) acc
    = Ok (acc ++ l, ISM.at_ (adv_count c (length p)) rest).
Proof.
  induction 1 as [|x l Hx _ IH]; intros p fuel c rest acc Hp Hfit Hf.
  { injection Hp as <-. destruct fuel; [lia|]. simpl. by rewrite app_nil_r. }
  apply WriterList_concat_cons in Hp as (b & q & Eb & Eq & ->).
  rewrite length_app, Nat2Z.inj_add in *. destruct fuel as [|fuel]; [lia|].
  destruct (Hx b fuel c (q ++ rest) (zlen b + zlen q) acc Eb) as [E Hlen]; [word_lia|lia|lia|].
  rewrite <-app_assoc, E. replace (zlen b + zlen q - zlen b) with (zlen q) by lia.
  rewrite (IH q) by first [done | lia | word_lia]. by rewrite <-app_assoc, adv_count_add.
Qed.

Lemma item_step_bytes b : all_bytes b -> item_ok (OBytes b).
Proof.
  intros Hb bs fuel c rest size acc Hw Hfit Hf Hs.
  cbn in Hw. unfold WriterBytes.Write in Hw. rewrite map_u8_id in Hw by done.
  injection Hw as <-.
  assert (fits 64 (zlen b)) as Hn.
  { revert Hfit. unfold EncodeRlpBytes.SerializeBytes. case_match; [done|].
    rewrite length_app. word_lia. }
  destruct (bytes_item b Hb Hn) as (b0 & tl & t & v & E & H0 & Htl & Ht & Hd & Hh).
  rewrite E in *. split; [|cbn [length]; lia]. cbn [length] in *.
  cbn [ListParser.items]. rewrite (proj2 (Z.leb_gt _ _)) by lia.
  rewrite <-app_comm_cons, ISM.adv_cons. cbn -[ListParser.items Z.sub].
  rewrite Hd. cbn -[ListParser.items Z.sub].
  specialize (Hh (u64 (c + 1)) rest (size - 1) ltac:(lia)). rewrite adv_count_S in Hh.
  replace (size - Z.of_nat (S (length tl))) with (size - 1 - zlen tl) by lia.
  destruct Ht as [->|[->| ->]]; rewrite Hh; done.
Qed.

Lemma Parse_with_items l p fuel t v c tl rest size :
  Forall item_ok l -> WriterList_concat WriterGeneric.Write l = Ok p -> fits 64 (zlen p) ->
  (length p < fuel)%nat ->
  ParserBase.ProcRlpListHeader (ISM.at_ c (tl ++ p ++ rest)) t v size
    = Ok (zlen p, ISM.at_ (adv_count c (length tl)) (p ++ rest), size - zlen tl) ->
  zlen tl + zlen p <= size ->
  ListParser.Parse_with (fun ism size => ListParser.items fuel ism size [])
    (ISM.at_ c (tl ++ p ++ rest)) t v size
  = Ok (l, ISM.at_ (adv_count c (length tl + length p)) rest, size - zlen tl - zlen p).
Proof.
  intros Hl Hp Hfit Hf Hh Hs. unfold ListParser.Parse_with. rewrite Hh.
  cbn -[ListParser.items Z.sub]. unfold ParserBase.CheckByteLeft.
  rewrite (proj2 (Z.ltb_ge _ _)) by lia. cbn -[ListParser.items Z.sub].
  rewrite (items_concat l) by done. cbn. by rewrite adv_count_add.
Qed.

Lemma item_step_list l : Forall item_ok l -> item_ok (OList l).
Proof.
  intros Hl bs fuel c rest size acc Hw Hfit Hf Hs.
  apply WriterList_Write_inv in Hw as (p & Hp & ->).
  rewrite length_app, Nat2Z.inj_add in *.
  assert (fits 64 (zlen p)) as Hn by word_lia.
  destruct (list_header (zlen p) Hn) as (b0 & tl & t & v & E & H0 & Htl & Ht & Hd & Hh).
  rewrite E in *. split; [|cbn [length]; lia]. cbn [length] in *.
  cbn [ListParser.items]. rewrite (proj2 (Z.leb_gt _ _)) by lia.
  rewrite <-!app_comm_cons, <-app_assoc, ISM.adv_cons. cbn -[ListParser.items Z.sub].
  rewrite Hd. cbn -[ListParser.items Z.sub].
  specialize (Hh (u64 (c + 1)) (p ++ rest) (size - 1) ltac:(lia)).
  replace (size - (Z.of_nat (S (length tl)) + zlen p)) with (size - 1 - zlen tl - zlen p) by lia.
  pose proof (Parse_with_items l p fuel t v _ tl rest _ Hl Hp Hn ltac:(lia) Hh ltac:(lia)) as HP.
  rewrite adv_count_S in HP. cbn [Nat.add].
  destruct Ht as [->| ->]; rewrite HP; done.
Qed.

Lemma plain_item_ok o : plain o -> item_ok o.
Proof.
  induction o as [b|l IH|l IH|c] using obj_nested_ind; intros Hp; inversion Hp as [|? Hl]; subst.
  - by apply item_step_bytes.
  - apply item_step_list. clear Hp. induction IH; [constructor|].
    apply Forall_cons in Hl as [? ?]. constructor; auto.
Qed.
