(* ===== verification/RlpTheorems.v ===== *)
(** * RLP: correctness of the writer and the parsers

    The writer and the general parser are inverse on every value the parser
    can return, the writer's encoding is prefix free, the size computed without
    serialising is the size of the serialisation, and the parser terminates on
    every input without ever reading past its end. *)

From stdpp Require Import strings.
From S2P Require Import Prelude RlpEncoding RlpDecoding.

(** ** The general parser on a serialised value *)

Lemma ParseTyped_written o bs : plain o -> WriterGeneric.Write o = Ok bs -> fits 64 (zlen bs) ->
  exists b0 tl t v,
    bs = b0 :: tl /\
    (forall pos, DecodeRlpLeadingByte 8 true b0 pos = Ok (t, v)) /\
    (forall fuel c rest bl, (length tl < fuel)%nat -> zlen tl <= bl ->
       GeneralParser.ParseTyped fuel (ISM.at_ c (tl ++ rest)) t v bl
       = Ok (o, ISM.at_ (adv_count c (length tl)) rest, bl - zlen tl)).
Proof.
  intros Hp Hw Hfit. destruct Hp as [b Hb|l Hl].
  - cbn in Hw. unfold WriterBytes.Write in Hw. rewrite map_u8_id in Hw by done.
    injection Hw as <-.
    assert (fits 64 (zlen b)) as Hn.
    { revert Hfit. unfold EncodeRlpBytes.SerializeBytes. case_match; [done|].
      rewrite length_app. word_lia. }
    destruct (bytes_item b Hb Hn) as (b0 & tl & t & v & E & _ & _ & Ht & Hd & Hh).
    exists b0, tl, t, v. split_and!; [done|done|]. intros fuel c rest bl _ Hbl.
    specialize (Hh c rest bl Hbl).
    destruct Ht as [->|[->| ->]]; cbn -[BytesParser.Parse]; by rewrite Hh.
  - apply WriterList_Write_inv in Hw as (p & Hc & ->).
    rewrite length_app, Nat2Z.inj_add in Hfit.
    assert (fits 64 (zlen p)) as Hn by word_lia.
    assert (Forall item_ok l) as Hi by (eapply Forall_impl; [done|apply plain_item_ok]).
    destruct (list_header (zlen p) Hn) as (b0 & tl & t & v & E & _ & _ & Ht & Hd & Hh).
    rewrite E. exists b0, (tl ++ p), t, v. split_and!; [done|done|].
    intros fuel c rest bl Hf Hbl. rewrite length_app in *.
    specialize (Hh c (p ++ rest) bl ltac:(lia)).
    pose proof (Parse_with_items l p fuel t v c tl rest bl Hi Hc Hn ltac:(lia) Hh ltac:(lia)) as HP.
    rewrite <-app_assoc.
    replace (bl - Z.of_nat (length tl + length p)) with (bl - zlen tl - zlen p) by lia.
    unfold GeneralParser.ParseTyped, ListParser.Parse.
    destruct Ht as [->| ->]; rewrite HP; done.
Qed.

(** [ParseAt] on a serialised value followed by anything. *)
Lemma ParseAt_written o bs rest : plain o -> WriterGeneric.Write o = Ok bs ->
  fits 64 (zlen bs) ->
  bs <> [] /\
  forall fuel c bl, (length bs <= fuel)%nat -> zlen bs <= bl ->
    ParserBase.ParseAt (GeneralParser.ParseTyped fuel) (ISM.at_ c (bs ++ rest)) bl
    = Ok (o, ISM.at_ (adv_count c (length bs)) rest, bl - zlen bs).
Proof.
  intros Hp Hw Hfit.
  destruct (ParseTyped_written o bs Hp Hw Hfit) as (b0 & tl & t & v & -> & Hd & H).
  split; [done|]. intros fuel c bl Hf Hbl. cbn [length] in *.
  unfold ParserBase.ParseAt, ParserBase.CheckByteLeft.
  rewrite (proj2 (Z.ltb_ge _ _)) by lia. rewrite <-app_comm_cons.
  cbn -[GeneralParser.ParseTyped ISM.GetByteAndAdv Z.sub Z.of_nat]. rewrite ISM.adv_cons.
  cbn -[GeneralParser.ParseTyped Z.sub Z.of_nat]. rewrite Hd.
  cbn -[GeneralParser.ParseTyped Z.sub Z.of_nat].
  rewrite H by lia. rewrite adv_count_S. do 2 f_equal. lia.
Qed.

(** The entry points on a serialised value. *)
Lemma ParseRange_written o bs : plain o -> WriterGeneric.Write o = Ok bs -> fits 64 (zlen bs) ->
  GeneralParser.ParseRange bs (zlen bs) = Ok o.
Proof.
  intros Hp Hw Hfit. destruct (ParseAt_written o bs [] Hp Hw Hfit) as [Hne H].
  destruct bs as [|b0 tl]; [done|]. unfold GeneralParser.ParseRange, ParserBase.ParseRange.
  rewrite ISM.init_at. cbn -[ParserBase.ParseAt Z.of_nat].
  specialize (H (S (length (b0 :: tl))) 0 (zlen (b0 :: tl)) ltac:(lia) ltac:(lia)).
  rewrite app_nil_r in H. cbn -[ParserBase.ParseAt Z.of_nat] in H. rewrite H.
  cbn -[Z.of_nat]. by rewrite Z.sub_diag.
Qed.

(** Two values with the same encoding are the same value. *)
Lemma write_inj o1 o2 b : plain o1 -> plain o2 ->
  WriterGeneric.Write o1 = Ok b -> WriterGeneric.Write o2 = Ok b -> fits 64 (zlen b) -> o1 = o2.
Proof.
  intros P1 P2 W1 W2 Hf.
  destruct (ParseAt_written o1 b [] P1 W1 Hf) as [_ H1].
  destruct (ParseAt_written o2 b [] P2 W2 Hf) as [_ H2].
  specialize (H1 (length b) 0 (zlen b) ltac:(lia) ltac:(lia)).
  specialize (H2 (length b) 0 (zlen b) ltac:(lia) ltac:(lia)). congruence.
Qed.

(** No encoding of one value starts the encoding of another. *)
Lemma write_no_prefix o1 o2 b1 b2 k : plain o1 -> plain o2 ->
  WriterGeneric.Write o1 = Ok b1 -> WriterGeneric.Write o2 = Ok b2 ->
  fits 64 (zlen b1) -> fits 64 (zlen b2) -> b2 = b1 ++ k -> o1 = o2 /\ k = [].
Proof.
  intros P1 P2 W1 W2 F1 F2 E.
  destruct (ParseAt_written o1 b1 k P1 W1 F1) as [_ H1].
  destruct (ParseAt_written o2 b2 [] P2 W2 F2) as [_ H2].
  set (n := (length b1 + length b2)%nat).
  specialize (H1 n 0 (Z.of_nat n) ltac:(lia) ltac:(lia)).
  specialize (H2 n 0 (Z.of_nat n) ltac:(lia) ltac:(lia)).
  rewrite app_nil_r, E, H1 in H2. injection H2 as -> _ _ Hlen.
  split; [done|]. apply (f_equal (@length Z)) in E. rewrite length_app in E.
  destruct k; [done|]. cbn [length] in E. lia.
Qed.

(** C32. Round trip: the general parser returns exactly the value that was
    written, for every value built from byte strings and lists whose encoding
    fits the address space. *)
Theorem rlp_roundtrip o : plain o ->
  exists bs, WriterGeneric.Write o = Ok bs /\
    (fits 64 (zlen bs) -> GeneralParser.Parse bs true = Ok o).
Proof.
  intros Hp. destruct (Write_plain o Hp) as [bs Hw]. exists bs. split; [done|]. intros Hfit.
  change (GeneralParser.Parse bs true) with (GeneralParser.ParseRange bs (zlen bs)).
  by apply ParseRange_written.
Qed.

Definition sample_obj : Obj :=
  OList [OBytes [0x7F]; OBytes []; OList [OBytes [0x80; 1]; OList []]; OBytes (replicate 60 7)].

Lemma sample_obj_plain : plain sample_obj.
Proof.
  repeat first [constructor | apply Forall_cons_2 | apply Forall_nil_2];
    vm_compute; first [done | split; congruence | intuition congruence].
Qed.

Lemma rlp_roundtrip_witness :
  exists bs, WriterGeneric.Write sample_obj = Ok bs /\
    (fits 64 (zlen bs) -> GeneralParser.Parse bs true = Ok sample_obj).
Proof. apply (rlp_roundtrip sample_obj). exact sample_obj_plain. Defined.

(** The encoding is prefix free: no encoding of one value is the start of
    the encoding of another, so concatenated encodings are read back
    unambiguously. *)
Theorem rlp_prefix_free o1 o2 b1 b2 k1 k2 :
  plain o1 -> plain o2 ->
  WriterGeneric.Write o1 = Ok b1 -> WriterGeneric.Write o2 = Ok b2 ->
  fits 64 (zlen b1) -> fits 64 (zlen b2) ->
  b1 ++ k1 = b2 ++ k2 -> o1 = o2 /\ b1 = b2 /\ k1 = k2.
Proof.
  intros P1 P2 W1 W2 F1 F2 E.
  destruct (ParseAt_written o1 b1 k1 P1 W1 F1) as [_ H1].
  destruct (ParseAt_written o2 b2 k2 P2 W2 F2) as [_ H2].
  set (n := (length b1 + length b2)%nat).
  specialize (H1 n 0 (Z.of_nat n) ltac:(lia) ltac:(lia)).
  specialize (H2 n 0 (Z.of_nat n) ltac:(lia) ltac:(lia)).
  rewrite <-E, H1 in H2. injection H2 as -> _ _ Hlen.
  assert (b1 = b2) as -> by congruence.
  by apply app_inv_head in E as ->.
Qed.

Lemma rlp_prefix_free_witness :
  OList [OBytes [1]] = OList [OBytes [1]] /\ [0xC1; 1] = [0xC1; 1] /\ [5] = [5].
Proof.
  apply (rlp_prefix_free (OList [OBytes [1]]) (OList [OBytes [1]]) [0xC1; 1] [0xC1; 1] [5] [5]);
    first [ reflexivity
          | repeat constructor; vm_compute; congruence ].
Defined.

(** ** Sizes *)

(** Values whose byte strings hold bytes; static dicts and other categories
    included. *)
Inductive wf_obj : Obj -> Prop :=
| wf_bytes b : all_bytes b -> wf_obj (OBytes b)
| wf_list l : Forall wf_obj l -> wf_obj (OList l)
| wf_dict l : Forall wf_obj l -> wf_obj (OStaticDict l)
| wf_other c : wf_obj (OOther c).

Lemma bytes_lead_size n : zlen (EncodeRlpBytes.GenLeadingBytes n) = EncodeRlpBytes.CalcLeadingBytesSize n.
Proof.
  unfold EncodeRlpBytes.GenLeadingBytes, EncodeRlpBytes.CalcLeadingBytesSize.
  case_match; [done|]. rewrite length_insert. cbn [length].
  unfold EncodeSizeValue.Encode, EncodeSizeValue.EncodedWidth.
  rewrite EncodePrimitiveIntValue.Encode_length. lia.
Qed.

Lemma list_lead_size n : zlen (EncodeRlpList.GenLeadingBytes n) = EncodeRlpList.CalcLeadingBytesSize n.
Proof.
  unfold EncodeRlpList.GenLeadingBytes, EncodeRlpList.CalcLeadingBytesSize.
  case_match; [done|]. rewrite length_insert. cbn [length].
  unfold EncodeSizeValue.Encode, EncodeSizeValue.EncodedWidth.
  rewrite EncodePrimitiveIntValue.Encode_length. lia.
Qed.

(** The outcome [r] of a size computation agrees with the outcome [w] of the
    writer: a size for bytes, the same exception for an exception.  [a] has
    been summed up before. *)
Definition size_agrees (a : Z) (w : result RlpError bytes) (r : result RlpError Z) : Prop :=
  match w with
  | Ok bs => exists n, r = Ok n /\ (fits 64 (a + zlen bs) -> n = a + zlen bs)
  | Throw e => r = Throw e
  end.

Definition size_ok (o : Obj) : Prop :=
  size_agrees 0 (WriterGeneric.Write o) (WriterGeneric.CalcSize o).

Lemma list_size_fits p : fits 64 (zlen (EncodeRlpList.SerializeBytes p)) ->
  EncodeRlpList.CalcSerializedSize (zlen p) = zlen (EncodeRlpList.SerializeBytes p).
Proof.
  unfold EncodeRlpList.SerializeBytes, EncodeRlpList.CalcSerializedSize.
  rewrite length_app, Nat2Z.inj_add, list_lead_size. apply wrap_small.
Qed.

(** Static dicts are written like lists when nothing is skipped. *)
Lemma dict_concat_all f l n : zlen l <= n ->
  WriterStaticDict_concat f n 0 l = WriterList_concat f l.
Proof.
  revert n. induction l as [|x l IH]; intros n Hn; [done|]. cbn [length] in Hn.
  cbn [WriterStaticDict_concat WriterList_concat]. rewrite (proj2 (Z.leb_gt _ _)) by lia.
  by rewrite IH by lia.
Qed.

Lemma dict_sum_all f l n a : zlen l <= n ->
  WriterStaticDict_sum f a n 0 l = WriterList_sum f a l.
Proof.
  revert n a. induction l as [|x l IH]; intros n a Hn; [done|]. cbn [length] in Hn.
  cbn [WriterStaticDict_sum WriterList_sum]. rewrite (proj2 (Z.leb_gt _ _)) by lia.
  destruct (f x); [|done]. cbn. by rewrite IH by lia.
Qed.

Lemma sum_ok l : Forall size_ok l -> forall a, 0 <= a ->
  size_agrees a (WriterList_concat WriterGeneric.Write l)
    (WriterList_sum WriterGeneric.CalcSize a l).
Proof.
  induction 1 as [|x l Hx _ IH]; intros a Ha; cbn [WriterList_concat WriterList_sum].
  { exists a. split; [done|]. simpl. lia. }
  unfold size_ok in Hx. destruct (WriterGeneric.Write x) as [b|e]; cbn in Hx |- *; [|by rewrite Hx].
  destruct Hx as (n & -> & Hn). cbn.
  specialize (IH (u64 (a + n)) (proj1 (wrap_fits 64 _ ltac:(lia)))). 
  destruct (WriterList_concat WriterGeneric.Write l) as [p|e]; cbn in IH |- *; [|done].
  destruct IH as (m & -> & Hm). exists m. split; [done|]. rewrite length_app, Nat2Z.inj_add.
  intros Hf. assert (n = zlen b) as -> by (apply Hn; word_lia).
  rewrite (wrap_small 64 (a + zlen b)) in Hm by word_lia. rewrite Hm; word_lia.
Qed.

Lemma list_size_ok l : Forall size_ok l ->
  size_agrees 0 (WriterList_Write WriterGeneric.Write l) (WriterList_CalcSize WriterGeneric.CalcSize l).
Proof.
  intros Hl. pose proof (sum_ok l Hl 0 ltac:(lia)) as H.
  unfold WriterList_Write, WriterList_CalcSize.
  destruct (WriterList_concat WriterGeneric.Write l) as [p|e]; cbn in H |- *; [|by rewrite H].
  destruct H as (n & -> & Hn). cbn. eexists. split; [done|]. intros Hf.
  assert (fits 64 (zlen p)) by (revert Hf; unfold EncodeRlpList.SerializeBytes;
    rewrite length_app; word_lia).
  rewrite Hn by done. by apply list_size_fits.
Qed.

Lemma bytes_size_ok b : all_bytes b -> size_ok (OBytes b).
Proof.
  intros Hb. unfold size_ok. cbn. eexists. split; [done|].
  unfold WriterBytes.Write, WriterBytes.CalcSize. rewrite map_u8_id by done.
  unfold EncodeRlpBytes.SerializeBytes, EncodeRlpBytes.CalcSerializedSize.
  case_match eqn:E; cbn.
  - intros _. apply andb_true_iff in E as [E _]. lia.
  - rewrite length_app, Nat2Z.inj_add, bytes_lead_size. apply wrap_small.
Qed.

Lemma wf_size_ok o : wf_obj o -> size_ok o.
Proof.
  induction o as [b|l IH|l IH|c] using obj_nested_ind; intros Hw; inversion Hw as [|? Hl|? Hl|]; subst.
  - by apply bytes_size_ok.
  - apply list_size_ok. by eapply Forall_mp.
  - unfold size_ok. cbn [WriterGeneric.Write WriterGeneric.CalcSize].
    unfold WriterStaticDict_Write, WriterStaticDict_CalcSize.
    rewrite dict_concat_all, dict_sum_all by lia.
    apply list_size_ok. by eapply Forall_mp.
  - done.
Qed.

Lemma plain_wf_obj o : plain o -> wf_obj o.
Proof.
  induction o as [b|l IH|l IH|c] using obj_nested_ind; intros Hp; inversion Hp as [|? Hl]; subst.
  - by constructor.
  - constructor. by eapply Forall_mp.
Qed.

(** [CalcSize] is the length of what [Write] produces, computed without
    producing it, on every branch: same exception for a category that cannot
    be serialised, and the exact size whenever it fits [size_t]. *)
Theorem CalcSize_is_length_of_Write o : wf_obj o ->
  match WriterGeneric.Write o with
  | Ok bs => fits 64 (zlen bs) -> WriterGeneric.CalcSize o = Ok (zlen bs)
  | Throw e => WriterGeneric.CalcSize o = Throw e
  end.
Proof.
  intros Hw. pose proof (wf_size_ok o Hw) as H. unfold size_ok in H.
  destruct (WriterGeneric.Write o); cbn in H; [|done].
  destruct H as (n & -> & Hn). intros Hf. by rewrite Hn.
Qed.

Lemma CalcSize_is_length_of_Write_witness :
  match WriterGeneric.Write sample_obj with
  | Ok bs => fits 64 (zlen bs) -> WriterGeneric.CalcSize sample_obj = Ok (zlen bs)
  | Throw e => WriterGeneric.CalcSize sample_obj = Throw e
  end.
Proof.
  apply (CalcSize_is_length_of_Write sample_obj).
  repeat first [constructor | apply Forall_cons_2 | apply Forall_nil_2];
    vm_compute; first [done | split; congruence | intuition congruence].
Defined.

(** ** Arbitrary input *)

(** A parse error that blames the content, not the end of the input: the
    parser's own bound checks fire before the input runs out. *)
Definition content_error (e : RlpError) : Prop :=
  match e with
  | ParseError what _ => what <> "Expecting more input data"
  | _ => False
  end.

(** What a parse step may do with [bl] bytes allowed out of [l]: read [k <= bl]
    of them and leave the machine just after, or throw a content error. *)
Definition step_outcome {A} (P : A -> Prop) (c : Z) (l : bytes) (bl : Z)
    (r : result RlpError (A * ISM.t * Z)) : Prop :=
  match r with
  | Ok (a, ism, bl') => P a /\ exists k, Z.of_nat k <= bl /\ bl' = bl - Z.of_nat k /\
      ism = ISM.at_ (adv_count c k) (drop k l)
  | Throw e => content_error e
  end.

Lemma step_outcome_ok {A} (P : A -> Prop) a c l bl k :
  P a -> Z.of_nat k <= bl ->
  step_outcome P c l bl (Ok (a, ISM.at_ (adv_count c k) (drop k l), bl - Z.of_nat k)).
Proof. intros. split; [done|]. by exists k. Qed.

(** Steps compose. *)
Lemma step_outcome_shift {A} (P : A -> Prop) c l bl k r :
  Z.of_nat k <= bl ->
  step_outcome P (adv_count c k) (drop k l) (bl - Z.of_nat k) r -> step_outcome P c l bl r.
Proof.
  intros Hk. destruct r as [[[b ism] bl']|e]; [|done].
  intros (Hb & m & Hm & -> & ->). split; [done|]. exists (k + m)%nat.
  rewrite drop_drop, adv_count_add. split_and!; [lia|lia|done].
Qed.

Lemma step_outcome_map {A B} (P : A -> Prop) (Q : B -> Prop) (f : A -> B) c l bl r :
  (forall a, P a -> Q (f a)) -> step_outcome P c l bl r ->
  step_outcome Q c l bl ('(a, ism, sz) ← r; Ok (f a, ism, sz)).
Proof. intros Hf. destruct r as [[[a ism] bl']|e]; [|done]. intros [Ha Hk]. split; auto. Qed.

Lemma take_reads c n l : (n <= length l)%nat ->
  reads ISM.GetByteAndAdv (ISM.at_ c l) (take n l) (ISM.at_ (adv_count c n) (drop n l)).
Proof.
  intros Hn. rewrite <-(take_drop n l) at 1.
  pose proof (ism_reads c (take n l) (drop n l)) as H.
  by rewrite length_take, Nat.min_l in H by done.
Qed.

Lemma ProcLongSize_outcome c l v bl : all_bytes l -> 0 <= v -> bl <= zlen l ->
  step_outcome (fun n => 0 <= n) c l bl
    (ParserBase.ProcLongSize (ISM.at_ c l) v bl).
Proof.
  intros Hl Hv Hbl. unfold ParserBase.ProcLongSize, ParserBase.CheckByteLeft.
  destruct (Z.ltb_spec bl v); cbn; [done|].
  unfold ParseSizeValue.Parse, ParsePrimitiveIntValue.Parse.
  destruct (Z.ltb_spec (Z.of_nat 8) v); cbn; [done|].
  pose proof (take_reads c (Z.to_nat v) l ltac:(lia)) as Hr.
  pose proof (Parse_loop_reads _ 8 _ _ _ 0 Hr ltac:(by apply all_bytes_take)) as HP.
  rewrite length_take, Nat.min_l, Z.mul_0_l in HP by lia. rewrite HP by lia. cbn.
  replace (bl - v) with (bl - Z.of_nat (Z.to_nat v)) by lia.
  apply step_outcome_ok; [|lia]. apply Z.mod_pos_bound. lia.
Qed.

Lemma read_outcome c l n bl : (n <= length l)%nat -> Z.of_nat n <= bl ->
  BytesParser.read_loop n (ISM.at_ c l) []
  = Ok (take n l, ISM.at_ (adv_count c n) (drop n l)).
Proof.
  intros Hn _. pose proof (read_loop_at n c (take n l) (drop n l) []) as H.
  rewrite take_drop in H. rewrite H; [done|]. rewrite length_take. lia.
Qed.

(** The bytes parser after a leading byte. *)
Lemma BytesParser_outcome c l t v bl : all_bytes l -> bl <= zlen l ->
  (t = Byte -> is_byte v) -> 0 <= v -> 0 <= bl ->
  step_outcome all_bytes c l bl (BytesParser.Parse (ISM.at_ c l) t v bl).
Proof.
  intros Hl Hbl Hb Hv Hbl0.
  assert (Hread : forall n k, 0 <= n -> Z.of_nat k <= bl ->
    step_outcome all_bytes (adv_count c k) (drop k l) (bl - Z.of_nat k)
      (byteLeft ← ParserBase.CheckByteLeft (bl - Z.of_nat k) n (adv_count c k);
       '(obj, ism) ← BytesParser.read_loop (Z.to_nat n) (ISM.at_ (adv_count c k) (drop k l)) [];
       Ok (obj, ism, byteLeft))).
  { intros n k Hn Hk. unfold ParserBase.CheckByteLeft.
    destruct (Z.ltb_spec (bl - Z.of_nat k) n); cbn; [done|].
    rewrite (read_outcome _ _ _ (bl - Z.of_nat k)) by (rewrite ?length_drop; lia). cbn.
    replace (bl - Z.of_nat k - n) with (bl - Z.of_nat k - Z.of_nat (Z.to_nat n)) by lia.
    apply step_outcome_ok; [auto with bytes|lia]. }
  destruct t; cbn [BytesParser.Parse ParserBase.ProcRlpBytesHeader]; try done.
  - pose proof (step_outcome_ok all_bytes [v] c l bl 0) as H. cbn in H. rewrite Z.sub_0_r in H.
    apply H; [|lia]. repeat constructor; by apply Hb.
  - specialize (Hread v 0%nat Hv ltac:(lia)). cbn in Hread. by rewrite Z.sub_0_r in Hread.
  - pose proof (ProcLongSize_outcome c l v bl Hl Hv Hbl) as H.
    destruct (ParserBase.ProcLongSize (ISM.at_ c l) v bl) as [[[n ism] bl']|e]; [|done].
    destruct H as (Hn & k & Hk & -> & ->). apply (step_outcome_shift _ _ _ _ k _ Hk). by apply Hread.
Qed.

Lemma DecodeRlpLeadingByte_byte b pos : is_byte b ->
  exists t v, DecodeRlpLeadingByte 8 true b pos = Ok (t, v) /\ 0 <= v /\ (t = Byte -> is_byte v).
Proof.
  intros Hb. unfold DecodeRlpLeadingByte. repeat case_match; try discriminate;
    eexists _, _; (split; [done|split; [|try discriminate; done]]);
    try (apply Z.mod_pos_bound; lia); word_lia.
Qed.

(** What the item loop does with [size] bytes on any input: it stays inside
    them, and consumes all of them when it succeeds. *)
Definition items_spec (fuel : nat) : Prop := forall c l size acc,
  all_bytes l -> 0 <= size <= zlen l -> size < Z.of_nat fuel -> Forall plain acc ->
  match ListParser.items fuel (ISM.at_ c l) size acc with
  | Ok (os, ism) => Forall plain os /\
      ism = ISM.at_ (adv_count c (Z.to_nat size)) (drop (Z.to_nat size) l)
  | Throw e => content_error e
  end.

(** A list parser that re-enters such a loop. *)
Lemma list_payload_outcome fuel c l n bl :
  items_spec fuel -> all_bytes l -> bl <= zlen l -> bl < Z.of_nat fuel -> 0 <= n ->
  step_outcome (Forall plain) c l bl
    (byteLeft ← ParserBase.CheckByteLeft bl n c;
     '(obj, ism) ← ListParser.items fuel (ISM.at_ c l) n [];
     Ok (obj, ism, byteLeft)).
Proof.
  intros IH Hl Hbl Hf Hn. unfold ParserBase.CheckByteLeft.
  destruct (Z.ltb_spec bl n); cbn -[ListParser.items]; [done|].
  specialize (IH c l n [] Hl ltac:(lia) ltac:(lia) ltac:(constructor)).
  destruct (ListParser.items _ _ _ _) as [[os ism]|e]; [|done]. cbn. destruct IH as [Hos ->].
  replace (bl - n) with (bl - Z.of_nat (Z.to_nat n)) by lia.
  apply step_outcome_ok; [done|lia].
Qed.

Lemma ListParser_outcome fuel c l t v bl :
  items_spec fuel -> all_bytes l -> bl <= zlen l -> 0 <= bl < Z.of_nat fuel -> 0 <= v ->
  step_outcome (Forall plain) c l bl (ListParser.Parse fuel (ISM.at_ c l) t v bl).
Proof.
  intros IH Hl Hbl Hf Hv. unfold ListParser.Parse, ListParser.Parse_with.
  destruct t; cbn [ParserBase.ProcRlpListHeader]; try done.
  - apply list_payload_outcome; auto; lia.
  - pose proof (ProcLongSize_outcome c l v bl Hl Hv Hbl) as H.
    destruct (ParserBase.ProcLongSize _ v bl) as [[[n ism] bl']|e]; [|done].
    destruct H as (Hn & k & Hk & -> & ->). apply (step_outcome_shift _ _ _ _ k _ Hk).
    apply list_payload_outcome; auto with bytes; rewrite ?length_drop; lia.
Qed.

(** The general parser after a leading byte. *)
Lemma GeneralParser_outcome fuel c l t v bl :
  items_spec fuel -> all_bytes l -> bl <= zlen l -> 0 <= bl < Z.of_nat fuel -> 0 <= v ->
  (t = Byte -> is_byte v) ->
  step_outcome plain c l bl (GeneralParser.ParseTyped fuel (ISM.at_ c l) t v bl).
Proof.
  intros IH Hl Hbl Hf Hv Ht. unfold GeneralParser.ParseTyped.
  destruct t;
    first [ apply (step_outcome_map all_bytes plain OBytes);
            [by constructor | apply BytesParser_outcome; auto; lia]
          | apply (step_outcome_map (Forall plain) plain OList);
            [by constructor | apply ListParser_outcome; auto; lia] ].
Qed.

(** One turn of the item loop is one general parse. *)
Lemma items_step fuel c b l size acc t v :
  0 < size -> DecodeRlpLeadingByte 8 true b (u64 (c + 1)) = Ok (t, v) ->
  ListParser.items (S fuel) (ISM.at_ c (b :: l)) size acc
  = ('(o, ism, sz) ← GeneralParser.ParseTyped fuel (ISM.at_ (u64 (c + 1)) l) t v (size - 1);
     ListParser.items fuel ism sz (acc ++ [o])).
Proof.
  intros Hs Hd. cbn [ListParser.items]. rewrite (proj2 (Z.leb_gt _ _)) by lia.
  rewrite ISM.adv_cons. cbn -[ListParser.items Z.sub]. rewrite Hd.
  cbn -[ListParser.items Z.sub]. unfold GeneralParser.ParseTyped, ListParser.Parse.
  destruct t;
    first [ destruct (BytesParser.Parse _ _ _ _) as [[[? ?] ?]|?]
          | destruct (ListParser.Parse_with _ _ _ _ _) as [[[? ?] ?]|?] ]; done.
Qed.

Lemma items_outcome fuel : items_spec fuel.
Proof.
  induction fuel as [|fuel IH]; intros c l size acc Hl Hsize Hf Hacc; [lia|].
  destruct (Z.le_gt_cases size 0).
  { replace size with 0 by lia. by split. }
  destruct l as [|b l]; [cbn [length] in Hsize; lia|].
  apply all_bytes_cons in Hl as [Hb Hl]. cbn [length] in Hsize.
  destruct (DecodeRlpLeadingByte_byte b (u64 (c + 1)) Hb) as (t & v & Hd & Hv & Ht).
  rewrite (items_step fuel c b l size acc t v) by done.
  pose proof (GeneralParser_outcome fuel (u64 (c + 1)) l t v (size - 1) IH Hl
    ltac:(lia) ltac:(lia) Hv Ht) as Hr.
  destruct (GeneralParser.ParseTyped _ _ _ _ _) as [[[o ism] sz]|e]; [|done].
  destruct Hr as (Ho & k & Hk & -> & ->). cbn -[ListParser.items].
  specialize (IH (adv_count (u64 (c + 1)) k) (drop k l) (size - 1 - Z.of_nat k) (acc ++ [o])
    ltac:(auto with bytes) ltac:(rewrite length_drop; lia) ltac:(lia)
    ltac:(apply Forall_app; split; [done|by repeat constructor])).
  destruct (ListParser.items _ _ _ _) as [[os ism]|e]; [|done]. destruct IH as [Hos ->].
  split; [done|]. rewrite drop_drop, adv_count_add, adv_count_S.
  by replace (Z.to_nat size) with (S (k + Z.to_nat (size - 1 - Z.of_nat k))) by lia.
Qed.

(** On any non-empty byte string the general parser terminates within its
    fuel: it returns a value built from byte strings and lists, or it throws a
    parse error raised by one of its own length checks; it never reads past
    the end of the input. *)
Theorem rlp_parser_safe l checkExtra : all_bytes l -> l <> [] ->
  match GeneralParser.Parse l checkExtra with
  | Ok o => plain o
  | Throw e => content_error e
  end.
Proof.
  intros Hl Hne. destruct l as [|b l]; [done|].
  apply all_bytes_cons in Hl as [Hb Hl].
  unfold GeneralParser.Parse, ParserBase.Parse, ParserBase.ParseRange. rewrite ISM.init_at.
  unfold ParserBase.ParseAt, ParserBase.CheckByteLeft.
  rewrite (proj2 (Z.ltb_ge _ _)) by (cbn [length]; lia).
  cbn -[GeneralParser.ParseTyped ISM.GetByteAndAdv Z.sub length]. rewrite ISM.adv_cons.
  cbn -[GeneralParser.ParseTyped Z.sub length].
  destruct (DecodeRlpLeadingByte_byte b (u64 (0 + 1)) Hb) as (t & v & Hd & Hv & Ht).
  cbn -[GeneralParser.ParseTyped Z.sub length] in Hd. rewrite Hd.
  cbn -[GeneralParser.ParseTyped Z.sub length].
  pose proof (GeneralParser_outcome (S (length (b :: l))) (u64 1) l t v (zlen (b :: l) - 1)
    (items_outcome _) Hl ltac:(cbn [length]; lia) ltac:(cbn [length]; lia) Hv Ht) as Hr.
  destruct (GeneralParser.ParseTyped _ _ _ _ _) as [[[o ism] sz]|e]; [|done].
  destruct Hr as [Ho _]. cbn -[Z.eqb]. by destruct (checkExtra && negb (sz =? 0)).
Qed.

Lemma rlp_parser_safe_witness :
  match GeneralParser.Parse [0xF8; 0xFF] true with
  | Ok o => plain o
  | Throw e => content_error e
  end.
Proof.
  apply (rlp_parser_safe [0xF8; 0xFF] true);
    [byte_list | discriminate].
Defined.
