(* ===== verification/Utf.v ===== *)
(** * UTF-8, UTF-16 and UTF-32

    [libs/SimpleUtf]: the tests on code points and bytes ([UtfCommon.hpp]), one
    decoder and one encoder per encoding form ([Utf8.hpp], [Utf16.hpp],
    [Utf32.hpp]) and the conversions that put a decoder in front of an encoder
    ([Utf.hpp]).  An iterator is the list of the elements up to the end of the
    range; a [char] is its bits. *)

From stdpp Require Import strings.
From S2P Require Import Prelude.

(** [PastTheEnd] is not an exception: the code read an element at the end of its
    range, which is undefined. *)
Inductive UtfError := UtfConversionException (what : string) | PastTheEnd.

#[export] Instance UtfError_eq_dec : EqDecision UtfError.
Proof. solve_decision. Defined.

(** ** Code points and bits *)

Definition IsReservedCodePt (val : Z) : bool := (0xD800 <=? val) && (val <=? 0xDFFF).
Definition IsValidCodePt (val : Z) : bool := (val <=? 0x10FFFF) && negb (IsReservedCodePt val).

Definition InvalidCodePt : UtfError := UtfConversionException "Invalid UTF Code Point".

(** The loop shifts a test bit down from the top of a [digits]-bit type. *)
Fixpoint CountLZero (digits : nat) (x : Z) : nat :=
  match digits with
  | O => O
  | S d => if Z.land x (2 ^ Z.of_nat d) =? 0 then S (CountLZero d x) else O
  end.

Definition BitWidth (digits : nat) (x : Z) : nat := digits - CountLZero digits x.
Definition BitWidthChar (x : Z) : nat := BitWidth 32 x.

(** [TrailingOnes<_ValType, _Bytes>]. *)
Fixpoint TrailingOnes (n : nat) : Z :=
  match n with
  | O => 0
  | S O => 0xFF
  | S n' => Z.lor (Z.shiftl 0xFF (Z.of_nat n' * 8)) (TrailingOnes n')
  end.

(** For a value of a [w]-bit type. *)
Definition EnsureByteSize (w : Z) (n : nat) (uval : Z) : result UtfError Z :=
  if Z.land uval (wrap w (Z.lnot (TrailingOnes n))) =? 0 then Ok uval
  else Throw (UtfConversionException "Invalid Encoding").

Module AsciiTraits.
Definition IsAscii (val : Z) : bool := Z.lnot (Z.lor (Z.lnot val) 0x7F) =? 0.
Definition IsAsciiFast (val : Z) : bool := IsAscii val.
Definition IsAByte (val : Z) : bool := val <=? 0xFF.
End AsciiTraits.

(** Reading the element an iterator points at, and stepping over it. *)
Definition deref (it : list Z) : result UtfError (Z * list Z) :=
  match it with [] => Throw PastTheEnd | x :: it => Ok (x, it) end.

(** ** UTF-8 *)

Definition CalcUtf8NumContNeeded (val : Z) : result UtfError nat :=
  if negb (IsValidCodePt val) then Throw InvalidCodePt
  else
    let w := BitWidthChar val in
    Ok (if (w <=? 7)%nat then 0 else if (w <=? 11)%nat then 1 else if (w <=? 16)%nat then 2 else 3)%nat.

(** The value in a condition. *)
Definition bit (val mask : Z) : bool := negb (Z.land val mask =? 0).

Definition Utf8ReadLeading (val : Z) : result UtfError (nat * Z) :=
  if negb (AsciiTraits.IsAByte val) then Throw (UtfConversionException "Invalid Encoding")
  else if AsciiTraits.IsAsciiFast val then Ok (0%nat, u8 (Z.land val 0x7F))
  else if bit val 0x40 && negb (bit val 0x20) && bit val 0x1E then Ok (1%nat, u8 (Z.land val 0x1F))
  else if bit val 0x40 && bit val 0x20 && negb (bit val 0x10) then Ok (2%nat, u8 (Z.land val 0x0F))
  else if bit val 0x40 && bit val 0x20 && bit val 0x10 && negb (bit val 0x08) then Ok (3%nat, u8 (Z.land val 0x07))
  else Throw (UtfConversionException "Invalid Encoding").

Definition Utf8ReadCont (val : Z) : result UtfError Z :=
  if negb (AsciiTraits.IsAByte val) then Throw (UtfConversionException "Invalid Encoding")
  else if negb (AsciiTraits.IsAsciiFast val) && negb (bit val 0x40) then Ok (u8 (Z.land val 0x3F))
  else Throw (UtfConversionException "Invalid Encoding").

(** The loop over the continuation bytes, [n] of [numCont] to go. *)
Fixpoint Utf8_conts (numCont n i : nat) (res : Z) (begin : list Z) : result UtfError (Z * list Z) :=
  match n with
  | O => Ok (res, begin)
  | S n =>
    '(x, begin) ← deref begin;
    b ← Utf8ReadCont x;
    let res := Z.lor (u32 (Z.shiftl res 6)) b in
    if (i =? 0)%nat && ((numCont =? 2)%nat && (res <? 0x20) || (numCont =? 3)%nat && (res <? 0x10))
    then Throw (UtfConversionException "Invalid Encoding")
    else Utf8_conts numCont n (S i) res begin
  end.

Definition Utf8ToCodePtOnce (begin : list Z) : result UtfError (Z * list Z) :=
  match begin with
  | [] => Throw (UtfConversionException "Unexpected Ending")
  | x :: begin =>
    '(numCont, leading) ← Utf8ReadLeading x;
    '(res, begin) ← Utf8_conts numCont numCont 0 (Z.lor 0 leading) begin;
    if negb (IsValidCodePt res) then Throw (UtfConversionException "Invalid Code Point")
    else Ok (res, begin)
  end.

(** The loop that writes [res[n]] to [res[1]]. *)
Fixpoint Utf8_tail (n : nat) (val : Z) (res : list Z) : Z * list Z :=
  match n with
  | O => (val, res)
  | S n => Utf8_tail n (Z.shiftr val 6) (u8 (Z.lor 0x80 (u8 (Z.land val 0x3F))) :: res)
  end.

Definition CodePtToUtf8Once (val : Z) : result UtfError (list Z) :=
  numCont ← CalcUtf8NumContNeeded val;
  let '(val, res) := Utf8_tail numCont val [] in
  let lead :=
    match numCont with
    | 0%nat => u8 (Z.land val 0x7F)
    | 1%nat => u8 (Z.lor 0xC0 (u8 (Z.land val 0x1F)))
    | 2%nat => u8 (Z.lor 0xE0 (u8 (Z.land val 0x0F)))
    | _ => u8 (Z.lor 0xF0 (u8 (Z.land val 0x07)))
    end in
  Ok (lead :: res).

Definition CodePtToUtf8OnceGetSize (val : Z) : result UtfError Z :=
  numCont ← CalcUtf8NumContNeeded val;
  Ok (1 + Z.of_nat numCont).

(** ** UTF-16, over a type of [w] bits *)

Definition IsUtf16Surrogate (val : Z) : bool :=
  bit val 0x8000 && bit val 0x4000 && negb (bit val 0x2000) && bit val 0x1000 && bit val 0x0800.
Definition IsUtf16SurrogateFirst (val : Z) : bool := IsUtf16Surrogate val && negb (bit val 0x0400).
Definition IsUtf16SurrogateSecond (val : Z) : bool := IsUtf16Surrogate val && bit val 0x0400.

Definition Utf16ToCodePtOnce (w : Z) (begin : list Z) : result UtfError (Z * list Z) :=
  match begin with
  | [] => Throw (UtfConversionException "Unexpected Ending")
  | uval1 :: begin =>
    _ ← EnsureByteSize w 2 uval1;
    if IsUtf16SurrogateFirst uval1 then
      match begin with
      | [] => Throw (UtfConversionException "Unexpected Ending")
      | uval2 :: begin =>
        _ ← EnsureByteSize w 2 uval2;
        if IsUtf16SurrogateSecond uval2 then
          let res := 0x10000 in
          let res := u32 (res + u32 (Z.shiftl (Z.land uval1 0x03FF) 10)) in
          let res := u32 (res + u32 (Z.land uval2 0x03FF)) in
          if negb (IsValidCodePt res) then Throw (UtfConversionException "Invalid Code Point")
          else Ok (res, begin)
        else Throw (UtfConversionException "Invalid Encoding")
      end
    else if negb (IsUtf16SurrogateSecond uval1) then
      let res := u32 uval1 in
      if negb (IsValidCodePt res) then Throw (UtfConversionException "Invalid Code Point")
      else Ok (res, begin)
    else Throw (UtfConversionException "Invalid Encoding")
  end.

Definition Utf16_single (val : Z) : bool := (val <=? 0xD7FF) || (0xE000 <=? val) && (val <=? 0xFFFF).

Definition CodePtToUtf16Once (val : Z) : result UtfError (list Z) :=
  if negb (IsValidCodePt val) then Throw InvalidCodePt
  else if Utf16_single val then Ok [u16 val]
  else
    let code := u32 (val - 0x10000) in
    Ok [u16 (Z.lor 0xD800 (Z.shiftr code 10)); u16 (Z.lor 0xDC00 (Z.land code 0x3FF))].

Definition CodePtToUtf16OnceGetSize (val : Z) : result UtfError Z :=
  if negb (IsValidCodePt val) then Throw InvalidCodePt
  else Ok (if Utf16_single val then 1 else 2).

(** ** UTF-32, over a type of [w] bits *)

Definition Utf32ToCodePtOnce (w : Z) (begin : list Z) : result UtfError (Z * list Z) :=
  match begin with
  | [] => Throw (UtfConversionException "Unexpected Ending")
  | uval :: begin =>
    _ ← EnsureByteSize w 4 uval;
    let uval4B := u32 uval in
    if negb (IsValidCodePt uval4B) then Throw (UtfConversionException "Invalid Encoding")
    else Ok (uval4B, begin)
  end.

Definition CodePtToUtf32Once (val : Z) : result UtfError (list Z) :=
  if negb (IsValidCodePt val) then Throw InvalidCodePt else Ok [u32 val].

Definition CodePtToUtf32OnceGetSize (val : Z) : result UtfError Z :=
  if negb (IsValidCodePt val) then Throw InvalidCodePt else Ok 1.

(** ** Conversions *)

Section convert.
Context (inFunc : list Z -> result UtfError (Z * list Z)).

Definition UtfConvertOnce (outFunc : Z -> result UtfError (list Z)) (begin : list Z)
  : result UtfError (list Z * list Z) :=
  '(codePt, begin) ← inFunc begin;
  out ← outFunc codePt;
  Ok (out, begin).

(** Every step takes an element, so the length of the range is fuel enough. *)
Fixpoint UtfConvert_loop (fuel : nat) (outFunc : Z -> result UtfError (list Z)) (begin : list Z)
  : result UtfError (list Z) :=
  match begin, fuel with
  | [], _ => Ok []
  | _, O => Throw PastTheEnd
  | _, S fuel =>
    '(out, begin) ← UtfConvertOnce outFunc begin;
    rest ← UtfConvert_loop fuel outFunc begin;
    Ok (out ++ rest)
  end.

Definition UtfConvert (outFunc : Z -> result UtfError (list Z)) (begin : list Z) : result UtfError (list Z) :=
  UtfConvert_loop (length begin) outFunc begin.

Fixpoint UtfConvertGetSize_loop (fuel : nat) (outFunc : Z -> result UtfError Z) (begin : list Z) (size : Z)
  : result UtfError Z :=
  match begin, fuel with
  | [], _ => Ok size
  | _, O => Throw PastTheEnd
  | _, S fuel =>
    '(codePt, begin) ← inFunc begin;
    tmp ← outFunc codePt;
    UtfConvertGetSize_loop fuel outFunc begin (u64 (size + tmp))
  end.

Definition UtfConvertGetSize (outFunc : Z -> result UtfError Z) (begin : list Z) : result UtfError Z :=
  UtfConvertGetSize_loop (length begin) outFunc begin 0.
End convert.

(** The six conversions of strings, and the computed sizes. *)
Definition Utf8ToUtf16 : list Z -> result UtfError (list Z) := UtfConvert Utf8ToCodePtOnce CodePtToUtf16Once.
Definition Utf8ToUtf16GetSize : list Z -> result UtfError Z := UtfConvertGetSize Utf8ToCodePtOnce CodePtToUtf16OnceGetSize.
Definition Utf8ToUtf32 : list Z -> result UtfError (list Z) := UtfConvert Utf8ToCodePtOnce CodePtToUtf32Once.
Definition Utf8ToUtf32GetSize : list Z -> result UtfError Z := UtfConvertGetSize Utf8ToCodePtOnce CodePtToUtf32OnceGetSize.
Definition Utf16ToUtf8 : list Z -> result UtfError (list Z) := UtfConvert (Utf16ToCodePtOnce 16) CodePtToUtf8Once.
Definition Utf16ToUtf8GetSize : list Z -> result UtfError Z := UtfConvertGetSize (Utf16ToCodePtOnce 16) CodePtToUtf8OnceGetSize.
Definition Utf16ToUtf32 : list Z -> result UtfError (list Z) := UtfConvert (Utf16ToCodePtOnce 16) CodePtToUtf32Once.
Definition Utf16ToUtf32GetSize : list Z -> result UtfError Z := UtfConvertGetSize (Utf16ToCodePtOnce 16) CodePtToUtf32OnceGetSize.
Definition Utf32ToUtf8 : list Z -> result UtfError (list Z) := UtfConvert (Utf32ToCodePtOnce 32) CodePtToUtf8Once.
Definition Utf32ToUtf8GetSize : list Z -> result UtfError Z := UtfConvertGetSize (Utf32ToCodePtOnce 32) CodePtToUtf8OnceGetSize.
Definition Utf32ToUtf16 : list Z -> result UtfError (list Z) := UtfConvert (Utf32ToCodePtOnce 32) CodePtToUtf16Once.
Definition Utf32ToUtf16GetSize : list Z -> result UtfError Z := UtfConvertGetSize (Utf32ToCodePtOnce 32) CodePtToUtf16OnceGetSize.

(** ** The encodings behind one interface *)

Definition valid (c : Z) : Prop := 0 <= c /\ IsValidCodePt c = true.

Lemma valid_iff c : valid c <-> 0 <= c < 0xD800 \/ 0xE000 <= c <= 0x10FFFF.
Proof.
  unfold valid, IsValidCodePt, IsReservedCodePt.
  destruct (Z.leb_spec c 0x10FFFF), (Z.leb_spec 0xD800 c), (Z.leb_spec c 0xDFFF); cbn; intuition (lia || done).
Qed.

Lemma IsValidCodePt_valid c : 0 <= c -> IsValidCodePt c = bool_decide (valid c).
Proof. intros H. unfold valid. destruct (IsValidCodePt c) eqn:E; symmetry; [by apply bool_decide_eq_true|]. apply bool_decide_eq_false. by intros []. Qed.

Class Encoding := {
  decode : list Z -> result UtfError (Z * list Z);
  encode : Z -> result UtfError (list Z);
  encode_size : Z -> result UtfError Z }.

(** [unit] is what an element can hold.  The decoder reads exactly what the
    encoder writes. *)
Class EncodingLaws `(E : Encoding) (unit : Z -> Prop) := {
  decode_exact l c rest : Forall unit l ->
    decode l = Ok (c, rest) <-> valid c /\ exists bs, encode c = Ok bs /\ l = bs ++ rest;
  encode_valid c : valid c -> exists bs, encode c = Ok bs /\ bs <> [] /\ Forall unit bs /\ encode_size c = Ok (zlen bs) }.

Definition text `{Encoding} (cs : list Z) : list Z := concat (map (fun c => ok_or [] (encode c)) cs).

(** *** Bytes and bits, by cases *)

Lemma byte_cases {A} `{EqDecision A} (f g : Z -> A) :
  forallb (fun b => bool_decide (f b = g b)) (seqZ 0 256) = true -> forall b, is_byte b -> f b = g b.
Proof.
  intros H b Hb. rewrite forallb_forall in H. apply (bool_decide_eq_true_1 _), H, list_elem_of_In, elem_of_seqZ.
  widths. lia.
Qed.

(** An equation about every byte, by computation. *)
Ltac by_byte :=
  match goal with |- is_byte ?b -> _ => revert b end;
  match goal with |- forall b, is_byte b -> @?f b = @?g b => refine (byte_cases f g _) end; vm_compute; reflexivity.

Lemma Utf8ReadLeading_byte b : is_byte b -> Utf8ReadLeading b =
  if b <? 0x80 then Ok (0%nat, b) else if b <? 0xC2 then Throw (UtfConversionException "Invalid Encoding")
  else if b <? 0xE0 then Ok (1%nat, b - 0xC0) else if b <? 0xF0 then Ok (2%nat, b - 0xE0)
  else if b <? 0xF8 then Ok (3%nat, b - 0xF0) else Throw (UtfConversionException "Invalid Encoding").
Proof. by_byte. Qed.

Lemma Utf8ReadCont_byte b : is_byte b -> Utf8ReadCont b =
  if (0x80 <=? b) && (b <? 0xC0) then Ok (b - 0x80) else Throw (UtfConversionException "Invalid Encoding").
Proof. by_byte. Qed.

Lemma CountLZero_spec d x : fits (Z.of_nat d) x ->
  (CountLZero d x <= d)%nat /\ forall k, (BitWidth d x <= k)%nat <-> x < 2 ^ Z.of_nat k.
Proof.
  induction d as [|d IH]; intros Hx.
  { split; [done|]. intros k. cbn. unfold fits in Hx. cbn in Hx. pose proof (Z.pow_pos_nonneg 2 (Z.of_nat k)). split; lia. }
  unfold BitWidth. cbn [CountLZero]. rewrite land_pow2_test by lia.
  unfold fits in Hx. rewrite Nat2Z.inj_succ, Z.pow_succ_r in Hx by lia.
  assert (Z.testbit x (Z.of_nat d) = negb (x <? 2 ^ Z.of_nat d)) as ->.
  { rewrite Z.testbit_eqb by lia. destruct (Z.ltb_spec x (2 ^ Z.of_nat d)).
    - by rewrite Z.div_small by lia.
    - by rewrite <-(Z.div_unique x (2 ^ Z.of_nat d) 1 (x - 2 ^ Z.of_nat d)) by lia. }
  destruct (Z.ltb_spec x (2 ^ Z.of_nat d)) as [Hlt|Hge]; cbn [negb].
  - destruct (IH ltac:(unfold fits; lia)) as [H1 H2]. split; [lia|]. exact H2.
  - split; [lia|]. intros k. rewrite Nat.sub_0_r. split; intros Hk.
    + pose proof (Z.pow_le_mono_r 2 (Z.succ (Z.of_nat d)) (Z.of_nat k)). rewrite Z.pow_succ_r in * by lia. lia.
    + destruct (Nat.lt_ge_cases d k) as [|Hc]; [lia|]. pose proof (Z.pow_le_mono_r 2 (Z.of_nat k) (Z.of_nat d)). lia.
Qed.

Lemma CalcUtf8_valid c : valid c -> CalcUtf8NumContNeeded c =
  Ok (if c <? 0x80 then 0%nat else if c <? 0x800 then 1%nat else if c <? 0x10000 then 2%nat else 3%nat).
Proof.
  intros Hv. unfold CalcUtf8NumContNeeded. rewrite (proj2 Hv). cbn [negb]. f_equal. apply valid_iff in Hv.
  destruct (CountLZero_spec 32 c) as [_ H]; [widths; lia|]. unfold BitWidthChar.
  assert (forall k v, v = 2 ^ Z.of_nat k -> (BitWidth 32 c <=? k)%nat = (c <? v)) as E.
  { intros k v ->. apply eq_true_iff_eq. rewrite Nat.leb_le, Z.ltb_lt. apply H. }
  by rewrite (E 7%nat 0x80), (E 11%nat 0x800), (E 16%nat 0x10000) by done.
Qed.

(** A mask of ones is a remainder, and an or with a multiple is a sum. *)
Lemma land_mod v n m : m = Z.ones n -> 0 <= n -> Z.land v m = v mod 2 ^ n.
Proof. intros ->. apply land_ones_mod. Qed.
Lemma lor_add hi n x : 0 <= n -> fits n x -> Z.lor (hi * 2 ^ n) x = hi * 2 ^ n + x.
Proof. intros. rewrite <-(Z.shiftl_mul_pow2 hi n) at 1 by done. by apply lor_shiftl_add. Qed.

Lemma tail_byte v : u8 (Z.lor 0x80 (u8 (Z.land v 0x3F))) = 0x80 + v mod 64.
Proof.
  rewrite (land_mod v 6) by done. change (2 ^ 6) with 64. pose proof (Z.mod_pos_bound v 64 ltac:(lia)) as H.
  rewrite (wrap_small 8 (v mod 64)) by (widths; lia).
  change 0x80 with (2 * 2 ^ 6) at 1. rewrite lor_add by (done || unfold fits; change (2 ^ 6) with 64; lia).
  apply wrap_small. widths. lia.
Qed.

Lemma lead_byte m k n v : (m, k, n) ∈ [(0xC0, 6, 5); (0xE0, 14, 4); (0xF0, 30, 3)] -> 0 <= v < 2 ^ n ->
  u8 (Z.lor m (u8 (Z.land v (Z.ones n)))) = m + v.
Proof.
  intros Hin Hv. assert (0 <= n <= 5 /\ m = k * 2 ^ n /\ m + 2 ^ n <= 256 /\ 0 <= m) as (Hn & Em & Hb & H0).
  { repeat (apply elem_of_cons in Hin as [[= -> -> ->]|Hin]; [vm_compute; intuition congruence|]). by apply not_elem_of_nil in Hin. }
  rewrite land_ones_mod, (Z.mod_small v), (wrap_small 8 v) by (widths; lia). rewrite Em at 1.
  rewrite lor_add by (done || lia). rewrite <-Em. apply wrap_small. widths. lia.
Qed.

(** The encoding as arithmetic. *)
Definition utf8 (c : Z) : list Z :=
  if c <? 0x80 then [c] else if c <? 0x800 then [0xC0 + c / 64; 0x80 + c mod 64]
  else if c <? 0x10000 then [0xE0 + c / 64 / 64; 0x80 + c / 64 mod 64; 0x80 + c mod 64]
  else [0xF0 + c / 64 / 64 / 64; 0x80 + c / 64 / 64 mod 64; 0x80 + c / 64 mod 64; 0x80 + c mod 64].

Lemma CodePtToUtf8Once_valid c : valid c -> CodePtToUtf8Once c = Ok (utf8 c).
Proof.
  intros Hv. unfold CodePtToUtf8Once, utf8. rewrite (CalcUtf8_valid c Hv). apply valid_iff in Hv.
  destruct (Z.ltb_spec c 0x80); [|destruct (Z.ltb_spec c 0x800); [|destruct (Z.ltb_spec c 0x10000)]];
    cbn -[Z.land Z.lor Z.shiftr Z.div Z.modulo Z.add]; rewrite ?tail_byte, ?(shiftr_div_pow2 _ 6) by done; change (2 ^ 6) with 64; do 2 f_equal.
  - rewrite (land_mod c 7) by done. change (2 ^ 7) with 128. rewrite Z.mod_small by lia. apply wrap_small. widths. lia.
  - apply (lead_byte 0xC0 6 5); [set_solver|]. change (2 ^ 5) with 32. mod_lia.
  - apply (lead_byte 0xE0 14 4); [set_solver|]. change (2 ^ 4) with 16. mod_lia.
  - apply (lead_byte 0xF0 30 3); [set_solver|]. change (2 ^ 3) with 8. mod_lia.
Qed.

(** *** UTF-8 is exact *)

Lemma Utf8_conts_byte numCont n i res x l : is_byte x -> fits 26 res ->
  Utf8_conts numCont (S n) i res (x :: l) =
  if (0x80 <=? x) && (x <? 0xC0) then
    let res := res * 64 + (x - 0x80) in
    if (i =? 0)%nat && ((numCont =? 2)%nat && (res <? 0x20) || (numCont =? 3)%nat && (res <? 0x10))
    then Throw (UtfConversionException "Invalid Encoding")
    else Utf8_conts numCont n (S i) res l
  else Throw (UtfConversionException "Invalid Encoding").
Proof.
  intros Hx Hr. cbn -[Z.lor Z.shiftl Z.mul]. rewrite Utf8ReadCont_byte by done.
  destruct ((0x80 <=? x) && (x <? 0xC0)) eqn:E; [|done]. apply andb_true_iff in E as [E1 E2]. cbn -[Z.lor Z.shiftl Z.mul].
  assert (Z.lor (u32 (Z.shiftl res 6)) (x - 128) = res * 64 + (x - 128)) as ->; [|done].
  unfold fits in Hr. change (2 ^ 26) with 67108864 in Hr.
  rewrite wrap_small by (rewrite Z.shiftl_mul_pow2 by done; change (2 ^ 6) with 64; widths; lia).
  apply lor_shiftl_add; [unfold fits; change (2 ^ 6) with 64; lia|done].
Qed.

(** Decide the comparisons of a goal one by one. *)
Ltac cmp_cases :=
  repeat match goal with
  | |- context [?a <? ?b] => destruct (Z.ltb_spec a b); try (exfalso; lia)
  | |- context [?a <=? ?b] => destruct (Z.leb_spec a b); try (exfalso; lia)
  end.

(** Name the quotient and the remainder of a number by 64. *)
Ltac digit c q r :=
  let H := fresh "Hc" in
  pose proof (Z.div_mod c 64 ltac:(lia)) as H; pose proof (Z.mod_pos_bound c 64 ltac:(lia));
  generalize dependent (c / 64); intros q; generalize dependent (c mod 64); intros r; intros.

Ltac cont_step :=
  rewrite Utf8_conts_byte by (unfold fits; change (2 ^ 8) with 256; change (2 ^ 26) with 67108864; lia);
  cmp_cases; cbn -[Utf8_conts Z.add Z.sub Z.mul Z.lor].

Lemma utf8_decoded c rest : valid c -> Utf8ToCodePtOnce (utf8 c ++ rest) = Ok (c, rest).
Proof.
  intros Hv. pose proof Hv as Hr. apply valid_iff in Hr. unfold utf8.
  assert (forall r, c = r -> (if negb (IsValidCodePt r) then Throw (UtfConversionException "Invalid Code Point") else Ok (r, rest)) = Ok (c, rest)) as Hfin.
  { intros r <-. by rewrite (proj2 Hv). }
  destruct (Z.ltb_spec c 0x80); [|destruct (Z.ltb_spec c 0x800); [|destruct (Z.ltb_spec c 0x10000)]];
    cbn [app]; unfold Utf8ToCodePtOnce.
  - rewrite Utf8ReadLeading_byte by (widths; lia). rewrite (proj2 (Z.ltb_lt _ _)) by lia. by apply (Hfin c).
  - digit c q r. rewrite Utf8ReadLeading_byte by (widths; lia). cmp_cases. cbn -[Utf8_conts Z.add Z.sub Z.lor]; rewrite Z.lor_0_l.
    cont_step. apply Hfin. lia.
  - digit c q r. digit q q1 r1. rewrite Utf8ReadLeading_byte by (widths; lia). cmp_cases. cbn -[Utf8_conts Z.add Z.sub Z.lor]; rewrite Z.lor_0_l.
    do 2 cont_step. apply Hfin. lia.
  - digit c q r. digit q q1 r1. digit q1 q2 r2. rewrite Utf8ReadLeading_byte by (widths; lia). cmp_cases. cbn -[Utf8_conts Z.add Z.sub Z.lor]; rewrite Z.lor_0_l.
    do 3 cont_step. apply Hfin. lia.
Qed.

Lemma digit_inv q r : 0 <= r < 64 -> (q * 64 + r) / 64 = q /\ (q * 64 + r) mod 64 = r.
Proof. intros. split; [rewrite Z.div_add_l, Z.div_small by lia; lia|rewrite Z.add_comm, Z.mod_add, Z.mod_small by lia; done]. Qed.

(** Strip one continuation byte off a successful run. *)
Ltac cont_inv H :=
  match type of H with context [Utf8_conts _ (S _) _ _ ?l] =>
    let x := fresh "x" in let Hx := fresh "Hx" in
    destruct l as [|x ?]; [discriminate H|];
    match goal with Hl : all_bytes (x :: _) |- _ => apply all_bytes_cons in Hl as [Hx Hl] end;
    rewrite Utf8_conts_byte in H by (first [done | unfold fits; change (2 ^ 26) with 67108864; lia]);
    destruct (Z.leb_spec 0x80 x); cbn [andb] in H; [|discriminate H];
    destruct (Z.ltb_spec x 0xC0); [|discriminate H];
    cbn -[Utf8_conts Z.add Z.sub Z.mul Z.ltb IsValidCodePt] in H
  end.

Lemma utf8_read l c rest : all_bytes l -> Utf8ToCodePtOnce l = Ok (c, rest) -> valid c /\ l = utf8 c ++ rest.
Proof.
  intros Hl H. destruct l as [|b l]; [discriminate H|]. apply all_bytes_cons in Hl as [Hb Hl].
  unfold Utf8ToCodePtOnce in H. rewrite Utf8ReadLeading_byte in H by done.
  assert (forall r (l' : list Z), 0 <= r -> (if negb (IsValidCodePt r) then Throw (UtfConversionException "Invalid Code Point") else Ok (r, l')) = Ok (c, rest) ->
    (valid r -> b :: l = utf8 r ++ l') -> valid c /\ b :: l = utf8 c ++ rest) as Hfin.
  { intros r l' Hr Ho He. destruct (IsValidCodePt r) eqn:Ev; [|discriminate Ho]. cbn in Ho. injection Ho as <- <-. by split; [|apply He]. }
  assert (forall d n, Utf8_conts n n 0 (Z.lor 0 d) l = Utf8_conts n n 0 d l) as E0 by (intros; by rewrite Z.lor_0_l).
  destruct (Z.ltb_spec b 0x80); [|destruct (Z.ltb_spec b 0xC2); [discriminate H|]; destruct (Z.ltb_spec b 0xE0);
    [|destruct (Z.ltb_spec b 0xF0); [|destruct (Z.ltb_spec b 0xF8); [|discriminate H]]]];
    cbn [mbind result_bind] in H; rewrite E0 in H; clear E0.
  - eapply Hfin; [|exact H|]; [widths; lia|]. intros _. unfold utf8. by rewrite (proj2 (Z.ltb_lt _ _)) by lia.
  - cont_inv H. widths. eapply Hfin; [|exact H|]; [lia|]. intros _. unfold utf8. cmp_cases.
    destruct (digit_inv (b - 192) (x - 128)) as [-> ->]; [lia|]. cbn [app]. repeat f_equal; lia.
  - cont_inv H. destruct (Z.ltb_spec ((b - 224) * 64 + (x - 128)) 32); [discriminate H|]. cbn [orb andb] in H.
    cont_inv H. widths. eapply Hfin; [|exact H|]; [lia|]. intros _. unfold utf8. cmp_cases.
    destruct (digit_inv ((b - 224) * 64 + (x - 128)) (x0 - 128)) as [-> ->]; [lia|].
    destruct (digit_inv (b - 224) (x - 128)) as [-> ->]; [lia|]. cbn [app]. repeat f_equal; lia.
  - cont_inv H. destruct (Z.ltb_spec ((b - 240) * 64 + (x - 128)) 16); [discriminate H|]. cbn [orb andb] in H.
    do 2 cont_inv H. widths. eapply Hfin; [|exact H|]; [lia|]. intros _. unfold utf8. cmp_cases.
    destruct (digit_inv (((b - 240) * 64 + (x - 128)) * 64 + (x0 - 128)) (x1 - 128)) as [-> ->]; [lia|].
    destruct (digit_inv ((b - 240) * 64 + (x - 128)) (x0 - 128)) as [-> ->]; [lia|].
    destruct (digit_inv (b - 240) (x - 128)) as [-> ->]; [lia|]. cbn [app]. repeat f_equal; lia.
Qed.

#[export] Instance utf8_encoding : Encoding := {|
  decode := Utf8ToCodePtOnce; encode := CodePtToUtf8Once; encode_size := CodePtToUtf8OnceGetSize |}.

#[export] Instance utf8_laws : EncodingLaws utf8_encoding is_byte.
Proof.
  split.
  - intros l c rest Hl. cbn [decode encode utf8_encoding]. split.
    + intros [Hv ->]%utf8_read; [|done]. split; [done|]. exists (utf8 c). by rewrite CodePtToUtf8Once_valid.
    + intros [Hv (bs & Hb & ->)]. rewrite CodePtToUtf8Once_valid in Hb by done. injection Hb as <-. by apply utf8_decoded.
  - intros c Hv. exists (utf8 c). cbn. rewrite CodePtToUtf8Once_valid by done. unfold CodePtToUtf8OnceGetSize.
    rewrite CalcUtf8_valid by done. apply valid_iff in Hv. unfold utf8. cmp_cases; (split_and!; [done|done| |done]).
    all: repeat apply Forall_cons_2; try apply Forall_nil_2; widths; mod_lia.
Qed.

(** *** UTF-16 and UTF-32 are exact *)

Lemma EnsureByteSize_spec w n k x : 0 <= k <= w -> TrailingOnes n = Z.ones k -> fits w x ->
  EnsureByteSize w n x = if x <? 2 ^ k then Ok x else Throw (UtfConversionException "Invalid Encoding").
Proof.
  intros Hk Ho Hx. unfold EnsureByteSize. rewrite Ho.
  assert (Z.land x (wrap w (Z.lnot (Z.ones k))) = Z.shiftl (Z.shiftr x k) k) as ->.
  { rewrite <-Z.ldiff_ones_r by lia. apply Z.bits_inj'. intros i Hi. unfold wrap. rewrite Z.land_spec, Z.ldiff_spec.
    destruct (Z.lt_ge_cases i w).
    - rewrite Z.mod_pow2_bits_low by lia. by rewrite Z.lnot_spec by done.
    - by rewrite (testbit_high w x i) by (done || lia). }
  rewrite Z.shiftl_mul_pow2, shiftr_div_pow2 by lia. pose proof (Z.pow_pos_nonneg 2 k ltac:(lia) ltac:(lia)).
  unfold fits in Hx. destruct (Z.ltb_spec x (2 ^ k)).
  - by rewrite Z.div_small by lia.
  - rewrite (proj2 (Z.eqb_neq _ _)); [done|]. pose proof (Z.div_le_lower_bound x (2 ^ k) 1). nia.
Qed.

(** A test of a bit of [x] is one of its high bits. *)
Lemma bit_high x j : 0 <= j -> bit x (2 ^ (10 + j)) = Z.testbit (x / 1024) j.
Proof.
  intros Hj. unfold bit. rewrite land_pow2_test, negb_involutive by lia. change 1024 with (2 ^ 10).
  rewrite Z.div_pow2_bits by lia. f_equal. lia.
Qed.

Lemma surrogate_spec x : fits 16 x ->
  IsUtf16SurrogateFirst x = (x / 1024 =? 54) /\ IsUtf16SurrogateSecond x = (x / 1024 =? 55).
Proof.
  intros Hx. assert (0 <= x / 1024 < 64) as Hh by (widths; mod_lia).
  unfold IsUtf16SurrogateFirst, IsUtf16SurrogateSecond, IsUtf16Surrogate.
  change 0x8000 with (2 ^ (10 + 5)). change 0x4000 with (2 ^ (10 + 4)). change 0x2000 with (2 ^ (10 + 3)).
  change 0x1000 with (2 ^ (10 + 2)). change 0x0800 with (2 ^ (10 + 1)). change (bit x 0x0400) with (bit x (2 ^ (10 + 0))).
  rewrite (bit_high x 5), (bit_high x 4), (bit_high x 3), (bit_high x 2), (bit_high x 1), (bit_high x 0) by lia.
  generalize dependent (x / 1024). clear. intros h Hh.
  assert (forallb (fun h =>
    Bool.eqb (Z.testbit h 5 && Z.testbit h 4 && negb (Z.testbit h 3) && Z.testbit h 2 && Z.testbit h 1 && negb (Z.testbit h 0)) (h =? 54) &&
    Bool.eqb (Z.testbit h 5 && Z.testbit h 4 && negb (Z.testbit h 3) && Z.testbit h 2 && Z.testbit h 1 && Z.testbit h 0) (h =? 55)) (seqZ 0 64) = true) as H
    by reflexivity.
  rewrite forallb_forall in H. specialize (H h). rewrite <-list_elem_of_In, elem_of_seqZ in H.
  specialize (H ltac:(lia)). cbn beta in H. apply andb_true_iff in H as [H1 H2]. split; [exact (Bool.eqb_prop _ _ H1)|exact (Bool.eqb_prop _ _ H2)].
Qed.

(** The encoding as arithmetic. *)
Definition utf16 (c : Z) : list Z :=
  if c <? 0x10000 then [c] else [0xD800 + (c - 0x10000) / 1024; 0xDC00 + (c - 0x10000) mod 1024].

Lemma CodePtToUtf16Once_valid c : valid c -> CodePtToUtf16Once c = Ok (utf16 c).
Proof.
  intros Hv. unfold CodePtToUtf16Once, Utf16_single, utf16. rewrite (proj2 Hv). cbn [negb]. apply valid_iff in Hv.
  cmp_cases; cbn [andb orb]; f_equal; [by rewrite wrap_small by (widths; lia)..|].
  rewrite (wrap_small 32) by (widths; lia). rewrite shiftr_div_pow2, (land_mod _ 10) by done. change (2 ^ 10) with 1024.
  set (d := c - 0x10000) in *. assert (0 <= d < 1048576) as Hd by lia. clearbody d.
  change 0xD800 with (54 * 2 ^ 10) at 1. change 0xDC00 with (55 * 2 ^ 10) at 1.
  rewrite !lor_add by (first [done | unfold fits; change (2 ^ 10) with 1024; mod_lia]).
  change (54 * 2 ^ 10) with 0xD800. change (55 * 2 ^ 10) with 0xDC00. by rewrite !wrap_small by (widths; mod_lia).
Qed.

Lemma TrailingOnes_ones : TrailingOnes 2 = Z.ones 16 /\ TrailingOnes 4 = Z.ones 32.
Proof. done. Qed.

Lemma sub_mod_1024 a : (0xD800 + a) / 1024 = 54 + a / 1024 /\ (0xDC00 + a) / 1024 = 55 + a / 1024.
Proof. split; mod_lia. Qed.

Lemma utf16_decoded w c rest : 16 <= w -> valid c -> Utf16ToCodePtOnce w (utf16 c ++ rest) = Ok (c, rest).
Proof.
  intros Hw Hv. pose proof Hv as Hr. apply valid_iff in Hr. unfold utf16, Utf16ToCodePtOnce.
  pose proof (Z.pow_le_mono_r 2 16 w ltac:(lia) Hw) as Hp. change (2 ^ 16) with 65536 in Hp.
  destruct (Z.ltb_spec c 0x10000) as [Hc|Hc]; cbn [app].
  - rewrite (EnsureByteSize_spec w 2 16) by (unfold fits; done || lia).
    rewrite (proj2 (Z.ltb_lt _ _)) by (change (2 ^ 16) with 65536; lia). cbn -[Z.land Z.shiftl IsValidCodePt IsUtf16SurrogateFirst IsUtf16SurrogateSecond].
    destruct (surrogate_spec c) as [-> ->]; [widths; lia|].
    rewrite !(proj2 (Z.eqb_neq _ _)) by mod_lia. cbn [negb]. rewrite (wrap_small 32) by (widths; lia). by rewrite (proj2 Hv).
  - set (d := c - 0x10000) in *. assert (0 <= d < 1048576) as Hd by lia.
    pose proof (Z.mod_pos_bound d 1024 ltac:(lia)). assert (0 <= d / 1024 < 1024) by mod_lia.
    rewrite !(EnsureByteSize_spec w 2 16) by (unfold fits; done || lia).
    rewrite !(proj2 (Z.ltb_lt _ _)) by (change (2 ^ 16) with 65536; lia). cbn [mbind result_bind].
    destruct (surrogate_spec (0xD800 + d / 1024)) as [-> _]; [widths; lia|].
    destruct (surrogate_spec (0xDC00 + d mod 1024)) as [_ ->]; [widths; lia|].
    rewrite (proj1 (sub_mod_1024 _)), (proj2 (sub_mod_1024 _)), !Z.div_small by lia. cbn [Z.add Z.eqb Pos.add Pos.eqb Pos.add_carry Pos.succ].
    rewrite !(land_mod _ 10) by done. change (2 ^ 10) with 1024.
    replace ((0xD800 + d / 1024) mod 1024) with (d / 1024) by mod_lia.
    replace ((0xDC00 + d mod 1024) mod 1024) with (d mod 1024) by mod_lia.
    rewrite Z.shiftl_mul_pow2 by done. change (2 ^ 10) with 1024.
    assert (u32 (u32 (0x10000 + u32 (d / 1024 * 1024)) + u32 (d mod 1024)) = c) as ->.
    { rewrite !wrap_small by (widths; mod_lia). mod_lia. }
    by rewrite (proj2 Hv).
Qed.

Lemma utf16_read w l c rest : 16 <= w -> Forall (fits w) l -> Utf16ToCodePtOnce w l = Ok (c, rest) ->
  valid c /\ l = utf16 c ++ rest.
Proof.
  intros Hw Hl H. destruct l as [|x l]; [discriminate H|]. apply Forall_cons in Hl as [Hx Hl]. unfold Utf16ToCodePtOnce in H.
  rewrite (EnsureByteSize_spec w 2 16) in H by (done || lia). change (2 ^ 16) with 65536 in H.
  destruct (Z.ltb_spec x 65536) as [Hx16|]; [|discriminate H]. cbn [mbind result_bind] in H. unfold fits in Hx.
  destruct (surrogate_spec x) as [E1 E2]; [widths; lia|]. rewrite E1, E2 in H. destruct (Z.eqb_spec (x / 1024) 54) as [E54|N54].
  - destruct l as [|y l]; [discriminate H|]. apply Forall_cons in Hl as [Hy Hl].
    rewrite (EnsureByteSize_spec w 2 16) in H by (done || lia). change (2 ^ 16) with 65536 in H.
    destruct (Z.ltb_spec y 65536) as [Hy16|]; [|discriminate H]. cbn [mbind result_bind] in H. unfold fits in Hy.
    destruct (surrogate_spec y) as [_ E3]; [widths; lia|]. rewrite E3 in H. destruct (Z.eqb_spec (y / 1024) 55) as [E55|]; [|discriminate H].
    rewrite !(land_mod _ 10) in H by done. change (2 ^ 10) with 1024 in H. rewrite Z.shiftl_mul_pow2 in H by done. change (2 ^ 10) with 1024 in H.
    assert (u32 (u32 (0x10000 + u32 (x mod 1024 * 1024)) + u32 (y mod 1024)) = 0x10000 + (x mod 1024 * 1024 + y mod 1024)) as Ec.
    { rewrite !wrap_small by (widths; mod_lia). lia. }
    rewrite Ec in H. destruct (IsValidCodePt _) eqn:Ev; [|discriminate H]. cbn in H. injection H as <- <-.
    pose proof (Z.mod_pos_bound x 1024 ltac:(lia)). pose proof (Z.mod_pos_bound y 1024 ltac:(lia)).
    split; [split; [lia|done]|]. unfold utf16. rewrite (proj2 (Z.ltb_ge _ _)) by lia.
    replace (0x10000 + (x mod 1024 * 1024 + y mod 1024) - 0x10000) with (x mod 1024 * 1024 + y mod 1024) by lia.
    cbn [app]. repeat f_equal; mod_lia.
  - destruct (Z.eqb_spec (x / 1024) 55) as [|N55]; [discriminate H|]. cbn [negb] in H. rewrite (wrap_small 32) in H by (widths; lia).
    destruct (IsValidCodePt x) eqn:Ev; [|discriminate H]. cbn in H. injection H as <- <-. split; [split; [lia|done]|].
    unfold utf16. by rewrite (proj2 (Z.ltb_lt _ _)) by lia.
Qed.

Definition utf16_encoding (w : Z) : Encoding := {|
  decode := Utf16ToCodePtOnce w; encode := CodePtToUtf16Once; encode_size := CodePtToUtf16OnceGetSize |}.
Definition utf32_encoding (w : Z) : Encoding := {|
  decode := Utf32ToCodePtOnce w; encode := CodePtToUtf32Once; encode_size := CodePtToUtf32OnceGetSize |}.

Lemma utf16_laws w : 16 <= w -> EncodingLaws (utf16_encoding w) (fits w).
Proof.
  intros Hw. split.
  - intros l c rest Hl. cbn [decode encode utf16_encoding]. split.
    + intros [Hv ->]%utf16_read; [|done..]. split; [done|]. exists (utf16 c). by rewrite CodePtToUtf16Once_valid.
    + intros [Hv (bs & Hb & ->)]. rewrite CodePtToUtf16Once_valid in Hb by done. injection Hb as <-. by apply utf16_decoded.
  - intros c Hv. exists (utf16 c). cbn. rewrite CodePtToUtf16Once_valid by done. unfold CodePtToUtf16OnceGetSize, Utf16_single.
    rewrite (proj2 Hv). cbn [negb]. apply valid_iff in Hv. pose proof (Z.pow_le_mono_r 2 16 w ltac:(lia) Hw) as Hp.
    change (2 ^ 16) with 65536 in Hp. unfold utf16. cmp_cases; (split_and!; [done|done| |done]).
    all: repeat apply Forall_cons_2; try apply Forall_nil_2; unfold fits; mod_lia.
Qed.

Lemma utf32_laws w : 32 <= w -> EncodingLaws (utf32_encoding w) (fits w).
Proof.
  intros Hw. pose proof (Z.pow_le_mono_r 2 32 w ltac:(lia) Hw) as Hp. change (2 ^ 32) with 4294967296 in Hp. split.
  - intros l c rest Hl. cbn [decode encode utf32_encoding]. unfold CodePtToUtf32Once. split.
    + intros H. destruct l as [|x l]; [discriminate H|]. apply Forall_cons in Hl as [Hx Hl]. unfold Utf32ToCodePtOnce in H.
      rewrite (EnsureByteSize_spec w 4 32) in H by (done || lia). change (2 ^ 32) with 4294967296 in H.
      destruct (Z.ltb_spec x 4294967296); [|discriminate H]. unfold fits in Hx. cbn [mbind result_bind] in H.
      rewrite (wrap_small 32) in H by (widths; lia). destruct (IsValidCodePt x) eqn:Ev; [|discriminate H]. injection H as <- <-.
      split; [split; [lia|done]|]. exists [x]. rewrite Ev. cbn [negb]. by rewrite wrap_small by (widths; lia).
    + intros [Hv (bs & Hb & ->)]. rewrite (proj2 Hv) in Hb. injection Hb as <-. pose proof Hv as Hr. apply valid_iff in Hr.
      rewrite wrap_small by (widths; lia). cbn [app]. unfold Utf32ToCodePtOnce.
      rewrite (EnsureByteSize_spec w 4 32) by (unfold fits; done || lia). rewrite (proj2 (Z.ltb_lt _ _)) by (change (2 ^ 32) with 4294967296; lia).
      cbn [mbind result_bind]. rewrite (wrap_small 32) by (widths; lia). by rewrite (proj2 Hv).
  - intros c Hv. exists [c]. cbn. unfold CodePtToUtf32Once, CodePtToUtf32OnceGetSize. rewrite (proj2 Hv). cbn. apply valid_iff in Hv.
    rewrite wrap_small by (widths; lia). split_and!; [done|done| |done]. apply Forall_singleton. unfold fits. lia.
Qed.

(** *** A truncated character

    The loop over the continuation bytes does not compare the iterator with the
    end of the range. *)
Lemma utf8_truncated c k : valid c -> (0 < k < length (utf8 c))%nat ->
  Utf8ToCodePtOnce (take k (utf8 c)) = Throw PastTheEnd.
Proof.
  intros Hv Hk. pose proof Hv as Hr. apply valid_iff in Hr. unfold utf8 in *.
  destruct k as [|k]; [lia|]. destruct (Z.ltb_spec c 0x80); [cbn [length] in Hk; lia|].
  destruct (Z.ltb_spec c 0x800); [|destruct (Z.ltb_spec c 0x10000)]; cbn [length] in Hk; cbn [take]; unfold Utf8ToCodePtOnce.
  - assert (k = 0%nat) as -> by lia. digit c q r. rewrite Utf8ReadLeading_byte by (widths; lia). by cmp_cases.
  - digit c q r. digit q q1 r1. rewrite Utf8ReadLeading_byte by (widths; lia). cmp_cases. cbn -[Utf8_conts Z.add Z.sub Z.lor]; rewrite Z.lor_0_l.
    destruct k as [|[|k]]; [done| |lia]. cbn [take]. cont_step. by cmp_cases.
  - digit c q r. digit q q1 r1. digit q1 q2 r2. rewrite Utf8ReadLeading_byte by (widths; lia). cmp_cases.
    cbn -[Utf8_conts Z.add Z.sub Z.lor]; rewrite Z.lor_0_l.
    destruct k as [|[|[|k]]]; [done| | |lia]; cbn [take]; repeat (cont_step; cmp_cases); done.
Qed.

(** ** Conversions are exact *)

Section text.
Context {A : Encoding} {unit : Z -> Prop} {HA : EncodingLaws A unit}.

Lemma text_cons c cs : text (c :: cs) = ok_or [] (encode c) ++ text cs.
Proof. done. Qed.

Lemma decode_text c cs : valid c -> Forall valid cs -> decode (text (c :: cs)) = Ok (c, text cs) /\ text (c :: cs) <> [] /\
  (length (text cs) < length (text (c :: cs)))%nat /\ Forall unit (text (c :: cs)).
Proof using HA.
  intros Hv Hc. rewrite text_cons. destruct (encode_valid c Hv) as (bs & Hb & Hne & Hu & _). rewrite Hb. cbn [ok_or].
  assert (Forall unit (bs ++ text cs)) as Hut.
  { apply Forall_app. split; [done|]. clear -Hc HA. induction Hc as [|d cs Hd _ IH]; [constructor|]. rewrite text_cons.
    destruct (encode_valid d Hd) as (ds & -> & _ & Hd' & _). by apply Forall_app. }
  split_and!; [apply decode_exact; [done|]; by eauto|by intros [? _]%app_eq_nil| |done].
  rewrite length_app. destruct bs; [done|]. cbn. lia.
Qed.

Lemma text_units cs : Forall valid cs -> Forall unit (text cs).
Proof using HA. destruct 1 as [|c cs Hc Hcs]; [constructor|]. by apply decode_text. Qed.
End text.

Section transcode.
Context {A B : Encoding} {unitA unitB : Z -> Prop} {HA : EncodingLaws A unitA} {HB : EncodingLaws B unitB}.
Local Abbreviation convert := (UtfConvert (@decode A) (@encode B)).
Local Abbreviation textA := (@text A).
Local Abbreviation textB := (@text B).

Lemma loop_text cs fuel : Forall valid cs -> (length (textA cs) <= fuel)%nat ->
  UtfConvert_loop (@decode A) fuel (@encode B) (textA cs) = Ok (textB cs).
Proof using HA HB.
  intros Hcs. revert fuel. induction Hcs as [|c cs Hc Hcs IH]; intros fuel Hf; [by destruct fuel|].
  destruct (decode_text (A := A) (HA := HA) c cs Hc Hcs) as (Hd & Hne & Hlt & _). destruct (@encode_valid B unitB HB c Hc) as (bs & Hb & _).
  destruct fuel as [|fuel]; [lia|]. destruct (textA (c :: cs)) as [|x l] eqn:Et; [done|]. rewrite <-Et in *.
  assert (UtfConvert_loop (@decode A) (S fuel) (@encode B) (textA (c :: cs)) =
    ('(out, begin) ← UtfConvertOnce (@decode A) (@encode B) (textA (c :: cs));
     rest ← UtfConvert_loop (@decode A) fuel (@encode B) begin; Ok (out ++ rest))) as -> by (by rewrite Et).
  unfold UtfConvertOnce. rewrite Hd. cbn [mbind result_bind]. rewrite Hb. cbn [mbind result_bind].
  rewrite IH by lia. cbn [mbind result_bind]. by rewrite !(text_cons c), Hb.
Qed.

Lemma loop_inv fuel l l' : Forall unitA l -> UtfConvert_loop (@decode A) fuel (@encode B) l = Ok l' ->
  exists cs, Forall valid cs /\ l = textA cs /\ l' = textB cs.
Proof using HA HB.
  revert l l'. induction fuel as [|fuel IH]; intros l l' Hu H.
  { destruct l; [|discriminate H]. injection H as <-. by exists []. }
  destruct l as [|x l]; [injection H as <-; by exists []|]. cbn [UtfConvert_loop] in H. unfold UtfConvertOnce in H.
  bind_ok H. destruct a as [out begin]. bind_ok E. destruct a as [c begin']. bind_ok E. injection E as -> ->.
  apply (decode_exact _ _ _ Hu) in E0 as [Hv (bs & Hbs & El)]. bind_ok H. injection H as <-.
  rewrite El in Hu. apply Forall_app in Hu as [_ Hu]. destruct (IH _ _ Hu E) as (cs & Hcs & -> & ->).
  exists (c :: cs). split; [by constructor|]. rewrite !text_cons, Hbs, E1. done.
Qed.

Lemma size_text cs fuel n : Forall valid cs -> (length (textA cs) <= fuel)%nat -> 0 <= n -> fits 64 (n + zlen (textB cs)) ->
  UtfConvertGetSize_loop (@decode A) fuel (@encode_size B) (textA cs) n = Ok (n + zlen (textB cs)).
Proof using HA HB.
  intros Hcs. revert fuel n. induction Hcs as [|c cs Hc Hcs IH]; intros fuel n Hf Hn Hfit.
  { cbn. rewrite Z.add_0_r. by destruct fuel. }
  destruct (decode_text (A := A) (HA := HA) c cs Hc Hcs) as (Hd & Hne & Hlt & _). destruct (@encode_valid B unitB HB c Hc) as (bs & Hb & _ & _ & Hsz).
  assert (zlen (textB (c :: cs)) = zlen bs + zlen (textB cs)) as Hl by (rewrite (text_cons c), Hb; cbn [ok_or]; rewrite length_app; lia).
  rewrite Hl in *.
  destruct fuel as [|fuel]; [lia|]. destruct (textA (c :: cs)) as [|x l] eqn:Et; [done|]. rewrite <-Et in *.
  assert (UtfConvertGetSize_loop (@decode A) (S fuel) (@encode_size B) (textA (c :: cs)) n =
    ('(codePt, begin) ← @decode A (textA (c :: cs)); tmp ← @encode_size B codePt;
     UtfConvertGetSize_loop (@decode A) fuel (@encode_size B) begin (u64 (n + tmp)))) as -> by (by rewrite Et).
  rewrite Hd. cbn [mbind result_bind]. rewrite Hsz. cbn [mbind result_bind].
  rewrite wrap_small by (unfold fits in *; lia). rewrite IH by (unfold fits in *; lia). f_equal. lia.
Qed.

(** Between two forms a conversion succeeds on the encoded texts and on nothing
    else, gives the same text, and the computed size is the size of the result. *)
Lemma transcode_exact l l' : Forall unitA l ->
  convert l = Ok l' <-> exists cs, Forall valid cs /\ l = textA cs /\ l' = textB cs.
Proof using HA HB.
  intros Hu. split; [by apply loop_inv|]. intros (cs & Hcs & -> & ->). by apply loop_text.
Qed.

Lemma transcode_size l l' : Forall unitA l -> convert l = Ok l' -> fits 64 (zlen l') ->
  UtfConvertGetSize (@decode A) (@encode_size B) l = Ok (zlen l').
Proof using HA HB.
  intros Hu (cs & Hcs & -> & ->)%transcode_exact Hf; [|done]. by apply (size_text cs _ 0).
Qed.
End transcode.

(** Transcoding between UTF-8, UTF-16 and UTF-32, in every combination: a
    conversion succeeds exactly on the well-formed texts, the conversion back
    gives the input again, and the size computed without converting is the
    length of the result. *)
Theorem utf_transcoding {A B : Encoding} {unitA unitB : Z -> Prop} {HA : EncodingLaws A unitA} {HB : EncodingLaws B unitB} l : Forall unitA l ->
  (forall l', UtfConvert (@decode A) (@encode B) l = Ok l' <-> exists cs, Forall valid cs /\ l = @text A cs /\ l' = @text B cs) /\
  forall l', UtfConvert (@decode A) (@encode B) l = Ok l' ->
    UtfConvert (@decode B) (@encode A) l' = Ok l /\ Forall unitB l' /\
    (fits 64 (zlen l') -> UtfConvertGetSize (@decode A) (@encode_size B) l = Ok (zlen l')).
Proof.
  intros Hu. split; [intros l'; by apply transcode_exact|]. intros l' H.
  pose proof (transcode_size l l' Hu H) as Hs. apply transcode_exact in H as (cs & Hcs & -> & ->); [|done].
  assert (Forall unitB (@text B cs)) as Hub by (by apply text_units).
  split_and!; [apply transcode_exact; by eauto|done|done].
Qed.

(** The euro sign and a character beyond the first plane. *)
Lemma utf_transcoding_witness :
  Utf8ToUtf16 [0x61; 0xE2; 0x82; 0xAC; 0xF0; 0x90; 0x90; 0xB7] = Ok [0x61; 0x20AC; 0xD801; 0xDC37] /\
  Utf16ToUtf8 [0x61; 0x20AC; 0xD801; 0xDC37] = Ok [0x61; 0xE2; 0x82; 0xAC; 0xF0; 0x90; 0x90; 0xB7].
Proof.
  assert (Utf8ToUtf16 [0x61; 0xE2; 0x82; 0xAC; 0xF0; 0x90; 0x90; 0xB7] = Ok [0x61; 0x20AC; 0xD801; 0xDC37]) as H by reflexivity.
  split; [exact H|]. refine (proj1 (proj2 (utf_transcoding (HA := utf8_laws) (HB := utf16_laws 16 ltac:(lia)) _ _) _ H)). byte_list.
Defined.
