(* ===== verification/AdvRlp.v ===== *)
(** * AdvancedRlp: typed values in RLP

    [libs/SimpleRlp/include/AdvancedRlp]: every value is an RLP list whose first
    item says what it is.  The values of [libs/SimpleObjects] with the order and
    the equality of the ones that can be keys, the generic writer, the generic
    parser, and the parsers of dictionaries with a fixed shape. *)

From stdpp Require Import strings sorting.
From S2P Require Import Prelude RlpEncoding RlpDecoding Utf.

(** ** Values *)

(** [RealNumType], without the floating-point types, which are not serialised. *)
Inductive IntType := Int8 | UInt8 | Int16 | UInt16 | Int32 | UInt32 | Int64 | UInt64.

#[export] Instance IntType_eq_dec : EqDecision IntType.
Proof. solve_decision. Defined.

Definition int_size (ty : IntType) : nat :=
  match ty with Int8 | UInt8 => 1 | Int16 | UInt16 => 2 | Int32 | UInt32 => 4 | Int64 | UInt64 => 8 end.
Definition int_signed (ty : IntType) : bool :=
  match ty with Int8 | Int16 | Int32 | Int64 => true | _ => false end.
Definition int_bits (ty : IntType) : Z := 8 * Z.of_nat (int_size ty).
(** [std::numeric_limits]. *)
Definition int_max (ty : IntType) : Z := if int_signed ty then 2 ^ (int_bits ty - 1) - 1 else 2 ^ int_bits ty - 1.
Definition int_min (ty : IntType) : Z := if int_signed ty then - 2 ^ (int_bits ty - 1) else 0.

(** The signed and the unsigned type of a width. *)
Definition to_signed (ty : IntType) : IntType :=
  match ty with UInt8 => Int8 | UInt16 => Int16 | UInt32 => Int32 | UInt64 => Int64 | _ => ty end.

(** The objects that can be keys, and all of them.  A [String] is the list of
    its [char]s.  A [Dict] is the list of its pairs in the iteration order of the
    [std::unordered_map], which the language leaves open; a [StaticDict] is the
    list of its values. *)
Inductive Hashable :=
| SBytes (b : bytes) | SNull | SBool (b : bool) | SInteger (ty : IntType) (v : Z) | SString (s : bytes).

#[export] Instance Hashable_eq_dec : EqDecision Hashable.
Proof. solve_decision. Defined.

Inductive Object :=
| SHashable (h : Hashable) | SList (l : list Object) | SDict (d : list (Hashable * Object)) | SStaticDict (l : list Object).

Section object_induction.
Variable P : Object -> Prop.
Hypothesis Hhash : forall h, P (SHashable h).
Hypothesis Hlist : forall l, Forall P l -> P (SList l).
Hypothesis Hdict : forall d, Forall (fun p => P p.2) d -> P (SDict d).
Hypothesis Hstatic : forall l, Forall P l -> P (SStaticDict l).

Fixpoint object_nested_ind (o : Object) : P o :=
  let all := fix all (l : list Object) : Forall P l :=
    match l with
    | [] => Forall_nil_2 P
    | x :: l' => Forall_cons_2 P x l' (object_nested_ind x) (all l')
    end in
  let vals := fix vals (d : list (Hashable * Object)) : Forall (fun p => P p.2) d :=
    match d with
    | [] => Forall_nil_2 _
    | p :: d' => Forall_cons_2 (fun p => P p.2) p d' (object_nested_ind p.2) (vals d')
    end in
  match o with
  | SHashable h => Hhash h
  | SList l => Hlist l (all l)
  | SDict d => Hdict d (vals d)
  | SStaticDict l => Hstatic l (all l)
  end.
End object_induction.

(** ** Exceptions

    Of AdvancedRlp, of the RLP and UTF libraries, and of the objects; the last
    one is undefined behaviour of the language. *)
Inductive AdvError :=
| RlpErr (e : RlpError)
| UtfErr (e : UtfError)
| AdvParseError (what : string) (pos : Z)
| UnknownCatId (idByte : Z)
| AdvTypeError (expected actual : string)
| AdvIndexError (idx : Z)
| AdvKeyError
| UnsupportedOperation (op : string)
| AdvOutOfFuel
| UndefinedBehaviour (what : string).

#[export] Instance AdvError_eq_dec : EqDecision AdvError.
Proof. solve_decision. Defined.

Definition rlp {A} (r : result RlpError A) : result AdvError A :=
  match r with Ok a => Ok a | Throw e => Throw (RlpErr e) end.
Definition utf {A} (r : result UtfError A) : result AdvError A :=
  match r with Ok a => Ok a | Throw e => Throw (UtfErr e) end.

(** ** Order and equality *)

Inductive ObjectOrder := Less | Equal | Greater | EqualUnordered | NotEqualUnordered.

(** The value of a [bool] or an integer: the comparisons of different integer
    types are those of the values ([RealNumCompare]). *)
Definition real_num (h : Hashable) : option Z :=
  match h with SBool b => Some (Z.b2z b) | SInteger _ v => Some v | _ => None end.

(** A [char] as the signed number it is. *)
Definition char_val (c : Z) : Z := if c <? 0x80 then c else c - 0x100.

(** [LexicographicalCompareThreeWay]. *)
Fixpoint lex_compare (a b : list Z) : comparison :=
  match a, b with
  | [], [] => Eq
  | [], _ :: _ => Lt
  | _ :: _, [] => Gt
  | x :: a, y :: b => match x ?= y with Eq => lex_compare a b | c => c end
  end.

Definition order_of (c : comparison) : ObjectOrder := match c with Lt => Less | Eq => Equal | Gt => Greater end.

Definition BaseObjectCompare (a b : Hashable) : ObjectOrder :=
  match real_num a, real_num b, a, b with
  | Some x, Some y, _, _ => order_of (x ?= y)
  | _, _, SString s, SString t => order_of (lex_compare (map char_val s) (map char_val t))
  | _, _, SBytes s, SBytes t => order_of (lex_compare s t)
  | _, _, SNull, SNull => EqualUnordered
  | _, _, _, _ => NotEqualUnordered
  end.

(** [operator<]. *)
Definition obj_lt (a b : Hashable) : result AdvError bool :=
  match BaseObjectCompare a b with
  | Less => Ok true
  | EqualUnordered | NotEqualUnordered => Throw (UnsupportedOperation "<")
  | _ => Ok false
  end.

(** [operator==]; equal keys have equal hashes. *)
Definition obj_eqb (a b : Hashable) : bool :=
  match real_num a, real_num b, a, b with
  | Some x, Some y, _, _ => x =? y
  | _, _, SString s, SString t => bool_decide (s = t)
  | _, _, SBytes s, SBytes t => bool_decide (s = t)
  | _, _, SNull, SNull => true
  | _, _, _, _ => false
  end.

Module Dict.
Fixpoint find (d : list (Hashable * Object)) (key : Hashable) : option Object :=
  match d with
  | [] => None
  | (k, v) :: d => if obj_eqb k key then Some v else find d key
  end.

Definition HasKey (d : list (Hashable * Object)) (key : Hashable) : bool :=
  match find d key with Some _ => true | None => false end.

Definition InsertOnly (d : list (Hashable * Object)) (key : Hashable) (val : Object) : list (Hashable * Object) :=
  if HasKey d key then d else d ++ [(key, val)].

(** The constant [operator[]]. *)
Definition at_ (d : list (Hashable * Object)) (key : Hashable) : result AdvError Object :=
  match find d key with Some v => Ok v | None => Throw AdvKeyError end.
End Dict.

(** ** Casts *)

Definition GetCategoryName (o : Object) : string :=
  match o with
  | SHashable (SBytes _) => "Bytes" | SHashable SNull => "Null" | SHashable (SBool _) => "Bool"
  | SHashable (SInteger _ _) => "Integer" | SHashable (SString _) => "String"
  | SList _ => "List" | SDict _ => "Dict" | SStaticDict _ => "StaticDict"
  end.

Definition AsBytes (o : Object) : result AdvError bytes :=
  match o with SHashable (SBytes b) => Ok b | _ => Throw (AdvTypeError "Bytes" (GetCategoryName o)) end.
Definition AsList (o : Object) : result AdvError (list Object) :=
  match o with SList l => Ok l | _ => Throw (AdvTypeError "List" (GetCategoryName o)) end.
Definition AsDict (o : Object) : result AdvError (list (Hashable * Object)) :=
  match o with SDict d => Ok d | _ => Throw (AdvTypeError "Dict" (GetCategoryName o)) end.
Definition AsHashable (o : Object) : result AdvError Hashable :=
  match o with SHashable h => Ok h | _ => Throw (AdvTypeError "Hashable" (GetCategoryName o)) end.

(** [operator[]] of a list and of a byte string. *)
Definition at_index {A} (l : list A) (idx : nat) : result AdvError A :=
  match l !! idx with Some x => Ok x | None => Throw (AdvIndexError (Z.of_nat idx)) end.

(** ** Category identifiers *)

Inductive CatId :=
| CatBytes | CatNull | CatFalse | CatTrue | CatInteger | CatFloat | CatString | CatArray | CatDict | CatStaticDict.

#[export] Instance CatId_eq_dec : EqDecision CatId.
Proof. solve_decision. Defined.

Definition SerializeCatId (catId : CatId) : Z :=
  match catId with
  | CatBytes => 0x00 | CatNull => 0x01 | CatFalse => 0x02 | CatTrue => 0x03 | CatInteger => 0x04 | CatFloat => 0x05
  | CatString => 0x08 | CatArray => 0x20 | CatDict => 0x22 | CatStaticDict => 0x23
  end.

Definition GetCatIdFromByte (idByte : Z) : result AdvError CatId :=
  if idByte =? 0x00 then Ok CatBytes else if idByte =? 0x01 then Ok CatNull
  else if idByte =? 0x02 then Ok CatFalse else if idByte =? 0x03 then Ok CatTrue
  else if idByte =? 0x04 then Ok CatInteger else if idByte =? 0x05 then Ok CatFloat
  else if idByte =? 0x08 then Ok CatString else if idByte =? 0x20 then Ok CatArray
  else if idByte =? 0x22 then Ok CatDict else if idByte =? 0x23 then Ok CatStaticDict
  else Throw (UnknownCatId idByte).

(** ** The writer *)

(** [PrimitiveToRaw] and [RawToPrimitive] on the little-endian platform. *)
Definition FromInt (n : nat) (v : Z) : bytes := rev (be_bytes n v).
Definition ToInt (n : nat) (raw : bytes) : result AdvError Z :=
  if (length raw =? n)%nat then Ok (be_val (rev raw))
  else Throw (AdvParseError "The given raw data size doesn't match the size of the targeting type" 0).

(** The magnitude of a negative number is [-1 * val], computed in [int] or in
    the type itself where it is wider. *)
Definition BuildIntRawData (ty : IntType) (val : Z) : result AdvError (Z * bytes) :=
  if int_signed ty then
    if val >=? 0 then Ok (0x10, FromInt (int_size ty) (wrap (int_bits ty) val))
    else if (4 <=? int_size ty)%nat && (int_max ty <? -1 * val) then
      Throw (UndefinedBehaviour "signed overflow")
    else Ok (0x11, FromInt (int_size ty) (wrap (int_bits ty) (-1 * val)))
  else Ok (0x00, FromInt (int_size ty) val).

Definition widthByte (ty : IntType) : Z :=
  match int_size ty with 1%nat => 0x00 | 2%nat => 0x01 | 4%nat => 0x02 | _ => 0x03 end.

(** The detours through 32-bit and signed 16-bit variables on the way to the raw
    data do not change the value. *)
Definition CatIntegerWriter_Write (ty : IntType) (val : Z) : result AdvError bytes :=
  '(signByte, rawData) ← BuildIntRawData ty val;
  let specs := EncodeRlpBytes.SerializeBytes [SerializeCatId CatInteger; widthByte ty; signByte] in
  Ok (EncodeRlpList.SerializeBytes (specs ++ EncodeRlpBytes.SerializeBytes rawData)).

Definition CatBooleanWriter_Write (val : bool) : bytes :=
  EncodeRlpList.SerializeBytes [SerializeCatId (if val then CatTrue else CatFalse)].

Definition CatNullWriter_Write : bytes := EncodeRlpList.SerializeBytes [SerializeCatId CatNull].

Definition CatBytesWriter_Write (inBytes : bytes) : bytes :=
  EncodeRlpList.SerializeBytes (SerializeCatId CatBytes :: WriterBytes.Write inBytes).

Definition Utf8ToUtf8 (s : bytes) : result UtfError bytes := UtfConvert Utf8ToCodePtOnce CodePtToUtf8Once s.

Definition CatStringWriter_Write (val : bytes) : result AdvError bytes :=
  rawData ← utf (Utf8ToUtf8 val);
  let specs := EncodeRlpBytes.SerializeBytes [SerializeCatId CatString; 0x00] in
  Ok (EncodeRlpList.SerializeBytes (specs ++ EncodeRlpBytes.SerializeBytes rawData)).

Definition WriteHashable (h : Hashable) : result AdvError bytes :=
  match h with
  | SBytes b => Ok (CatBytesWriter_Write b)
  | SNull => Ok CatNullWriter_Write
  | SBool b => Ok (CatBooleanWriter_Write b)
  | SInteger ty v => CatIntegerWriter_Write ty v
  | SString s => CatStringWriter_Write s
  end.

(** [std::sort] of the pairs by their keys; the comparison may throw. *)
Section sort.
Context {A : Type}.

Fixpoint sort_insert (p : Hashable * A) (l : list (Hashable * A)) : result AdvError (list (Hashable * A)) :=
  match l with
  | [] => Ok [p]
  | q :: l' =>
    lt ← obj_lt p.1 q.1;
    if (lt : bool) then Ok (p :: q :: l') else r ← sort_insert p l'; Ok (q :: r)
  end.

Fixpoint sort_pairs (l : list (Hashable * A)) : result AdvError (list (Hashable * A)) :=
  match l with
  | [] => Ok []
  | p :: l => r ← sort_pairs l; sort_insert p r
  end.
End sort.

(** What the items are written as, one after the other. *)
Fixpoint concat_bytes (items : list (result AdvError bytes)) : result AdvError bytes :=
  match items with
  | [] => Ok []
  | item :: items => b ← item; rest ← concat_bytes items; Ok (b ++ rest)
  end.

Module GenericWriter.
Fixpoint Write (val : Object) : result AdvError bytes :=
  match val with
  | SHashable h => WriteHashable h
  | SList l =>
    items ← concat_bytes (map Write l);
    Ok (EncodeRlpList.SerializeBytes (SerializeCatId CatArray :: items))
  | SDict d =>
    itVec ← sort_pairs (map (fun p => (p.1, Write p.2)) d);
    items ← concat_bytes (concat (map (fun p => [WriteHashable p.1; p.2]) itVec));
    Ok (EncodeRlpList.SerializeBytes (SerializeCatId CatDict :: items))
  | SStaticDict l =>
    items ← concat_bytes (map Write l);
    Ok (EncodeRlpList.SerializeBytes (SerializeCatId CatStaticDict :: items))
  end.
End GenericWriter.

(** ** The checks in front of a transform *)

(** The items that have to be there, and to be byte strings: the first [n]. *)
Fixpoint CheckObjCat (pos : Z) (n : nat) (l : list Object) : result AdvError () :=
  match n, l with
  | O, _ => Ok ()
  | S n, SHashable (SBytes _) :: l => CheckObjCat pos n l
  | S n, _ => Throw (AdvParseError "item should be type of Bytes" pos)
  end.

Definition CheckRlpListTypeSizeEq (pos : Z) (n : nat) (l : list Object) : result AdvError () :=
  if (length l =? n)%nat then CheckObjCat pos n l else Throw (AdvParseError "wrong number of items in the RLP list" pos).
Definition CheckRlpListTypeSizeLe (pos : Z) (n : nat) (l : list Object) : result AdvError () :=
  if (n <=? length l)%nat then CheckObjCat pos n l else Throw (AdvParseError "too few items in the RLP list" pos).

(** The specs of [specsSize] bytes, the first of which is the category. *)
Definition PreCheck (check : result AdvError ()) (pos : Z) (specsSize : nat) (cat : CatId -> bool) (l : list Object)
  : result AdvError bytes :=
  _ ← check;
  item ← at_index l 0;
  specs ← AsBytes item;
  if negb (length specs =? specsSize)%nat then Throw (AdvParseError "wrong size of the specs bytes" pos)
  else
    b ← at_index specs 0;
    catId ← GetCatIdFromByte b;
    if cat catId then Ok specs else Throw (AdvParseError "The given RLP list is not in the category" pos).

Definition is_cat (c c' : CatId) : bool := bool_decide (c' = c).

(** ** The transforms *)

Definition TransformCatBoolean (pos : Z) (l : list Object) : result AdvError Object :=
  specs ← PreCheck (CheckRlpListTypeSizeEq pos 1 l) pos 1 (fun c => is_cat CatTrue c || is_cat CatFalse c) l;
  b ← at_index specs 0;
  catId ← GetCatIdFromByte b;
  Ok (SHashable (SBool (is_cat CatTrue catId))).

Definition TransformCatNull (pos : Z) (l : list Object) : result AdvError Object :=
  _ ← PreCheck (CheckRlpListTypeSizeEq pos 1 l) pos 1 (is_cat CatNull) l;
  Ok (SHashable SNull).

Definition TransformCatBytes (pos : Z) (l : list Object) : result AdvError Object :=
  _ ← PreCheck (CheckRlpListTypeSizeEq pos 2 l) pos 1 (is_cat CatBytes) l;
  item ← at_index l 1;
  raw ← AsBytes item;
  Ok (SHashable (SBytes raw)).

(** [ty] is the unsigned type of the width. *)
Definition CheckSignedRange (pos : Z) (ty : IntType) (val : Z) : result AdvError () :=
  if int_max (to_signed ty) <? val then
    Throw (AdvParseError "The integer received exceeds the range of the targeting signed integer" pos)
  else Ok ().

Definition SolveSignedness (ty : IntType) (pos sigByte val : Z) : result AdvError (IntType * Z) :=
  if sigByte =? 0x00 then Ok (ty, val)
  else if sigByte =? 0x10 then _ ← CheckSignedRange pos ty val; Ok (to_signed ty, val)
  else if sigByte =? 0x11 then _ ← CheckSignedRange pos ty val; Ok (to_signed ty, -1 * val)
  else Throw (AdvParseError "Invalid signedness byte" pos).

(** The integer, before the converter sees it. *)
Definition CatInteger_value (pos : Z) (l : list Object) : result AdvError (IntType * Z) :=
  specs ← PreCheck (CheckRlpListTypeSizeEq pos 2 l) pos 3 (is_cat CatInteger) l;
  item ← at_index l 1;
  rawData ← AsBytes item;
  widthByte ← at_index specs 1;
  sigByte ← at_index specs 2;
  let solve ty := val ← ToInt (int_size ty) rawData; SolveSignedness ty pos sigByte val in
  if widthByte =? 0x00 then solve UInt8
  else if widthByte =? 0x01 then solve UInt16
  else if widthByte =? 0x02 then solve UInt32
  else if widthByte =? 0x03 then solve UInt64
  else Throw (AdvParseError "Invalid integer width byte" pos).

Definition GenericIntConverter (pos : Z) (x : IntType * Z) : result AdvError Object :=
  Ok (SHashable (SInteger x.1 x.2)).
Definition SpecificIntConverter (ty : IntType) (pos : Z) (x : IntType * Z) : result AdvError Object :=
  if decide (x.1 = ty) then Ok (SHashable (SInteger ty x.2))
  else Throw (AdvParseError "Expecting integer type of another" pos).

Definition TransformCatInteger (converter : Z -> IntType * Z -> result AdvError Object) (pos : Z) (l : list Object)
  : result AdvError Object := x ← CatInteger_value pos l; converter pos x.

Definition TransformCatString (pos : Z) (l : list Object) : result AdvError Object :=
  specs ← PreCheck (CheckRlpListTypeSizeEq pos 2 l) pos 2 (is_cat CatString) l;
  chWidth ← at_index specs 1;
  item ← at_index l 1;
  rawData ← AsBytes item;
  if chWidth =? 0x00 then
    s ← utf (Utf8ToUtf8 rawData);
    Ok (SHashable (SString s))
  else Throw (AdvParseError "The given char width value is unknown" pos).

Definition TransformCatArray (pos : Z) (l : list Object) : result AdvError Object :=
  _ ← PreCheck (CheckRlpListTypeSizeLe pos 1 l) pos 1 (is_cat CatArray) l;
  Ok (SList (drop 1 l)).

(** [CatDictInsertRest<true>]: the pairs that are left, with the key before. *)
Fixpoint CatDictInsertRest (pos : Z) (d : list (Hashable * Object)) (prevKey : Hashable) (l : list Object)
  : result AdvError (list (Hashable * Object)) :=
  match l with
  | keyObj :: val :: l =>
    key ← AsHashable keyObj;
    if Dict.HasKey d key then Throw (AdvParseError "The given dictionary has duplicated key" pos)
    else
      lt ← obj_lt key prevKey;
      if (lt : bool) then Throw (AdvParseError "The key in given dictionary is out of order" pos)
      else CatDictInsertRest pos (Dict.InsertOnly d key val) key l
  | _ => Ok d
  end.

Definition TransformCatDict (pos : Z) (l : list Object) : result AdvError Object :=
  _ ← PreCheck (CheckRlpListTypeSizeLe pos 1 l) pos 1 (is_cat CatDict) l;
  let numOfItems := (length l - 1)%nat in
  if negb (numOfItems mod 2 =? 0)%nat then
    Throw (AdvParseError "The number of given items cannot form key-value pairs for a dictionary" pos)
  else
    match drop 1 l with
    | keyObj :: val :: rest =>
      key ← AsHashable keyObj;
      d ← CatDictInsertRest pos (Dict.InsertOnly [] key val) key rest;
      Ok (SDict d)
    | _ => Ok (SDict [])
    end.

Definition TransformGeneric (pos : Z) (l : list Object) : result AdvError Object :=
  _ ← CheckRlpListTypeSizeLe pos 1 l;
  item ← at_index l 0;
  specs ← AsBytes item;
  b ← at_index specs 0;
  cid ← GetCatIdFromByte b;
  match cid with
  | CatBytes => TransformCatBytes pos l
  | CatNull => TransformCatNull pos l
  | CatFalse | CatTrue => TransformCatBoolean pos l
  | CatInteger => TransformCatInteger GenericIntConverter pos l
  | CatString => TransformCatString pos l
  | CatArray => TransformCatArray pos l
  | CatDict => TransformCatDict pos l
  | CatFloat | CatStaticDict => Throw (AdvParseError "Unsupported CAT ID value" pos)
  end.

(** ** The parsers *)

Definition Typed (A : Type) : Type := ISM.t -> RlpEncodeType -> Z -> Z -> result AdvError (A * ISM.t * Z).

Module ListParser_.
Section parser.
(** [InnerListParser], and the transform. *)
Context (listParser : Typed Object).

(** The [while (size > 0)] loop; each turn takes a byte at least. *)
Fixpoint items (fuel : nat) (ism : ISM.t) (size : Z) (obj : list Object) : result AdvError (list Object * ISM.t) :=
  match fuel with
  | O => Throw AdvOutOfFuel
  | S fuel =>
    if size <=? 0 then Ok (obj, ism)
    else
      '(nextByte, ism) ← rlp (ISM.GetByteAndAdv ism);
      let size := size - 1 in
      '(nextType, nextVal) ← rlp (DecodeRlpLeadingByte 8 true nextByte (ISM.GetBytesCount ism));
      match nextType with
      | Byte | BytesShort | BytesLong =>
        '(b, ism, size) ← rlp (BytesParser.Parse ism nextType nextVal size);
        items fuel ism size (obj ++ [SHashable (SBytes b)])
      | ListShort | ListLong =>
        '(o, ism, size) ← listParser ism nextType nextVal size;
        items fuel ism size (obj ++ [o])
      end
  end.

Definition Parse {A} (transform : Z -> list Object -> result AdvError A) (fuel : nat) : Typed A :=
  fun ism rlpType rlpVal byteLeft =>
  '(size, ism, byteLeft) ← rlp (ParserBase.ProcRlpListHeader ism rlpType rlpVal byteLeft);
  byteLeft ← rlp (ParserBase.CheckByteLeft byteLeft size (ISM.GetBytesCount ism));
  '(obj, ism) ← items fuel ism size [];
  res ← transform (ISM.GetBytesCount ism) obj;
  Ok (res, ism, byteLeft).
End parser.
End ListParser_.

Definition FailingParser : Typed Object := fun ism _ _ _ =>
  Throw (RlpErr (ParseError "RLP list is not allowed in current context" (ISM.GetBytesCount ism))).

(** [PrimitiveParserBase<Transform>]. *)
Definition PrimitiveParser {A} (transform : Z -> list Object -> result AdvError A) (fuel : nat) : Typed A :=
  ListParser_.Parse FailingParser transform fuel.

Definition CatBytesParser : nat -> Typed Object := PrimitiveParser TransformCatBytes.
Definition CatStringParser : nat -> Typed Object := PrimitiveParser TransformCatString.
Definition CatIntegerParser (ty : IntType) : nat -> Typed Object := PrimitiveParser (TransformCatInteger (SpecificIntConverter ty)).

(** The generic parser is its own inner parser; [fuel] bounds the depth and the
    items of a list. *)
Fixpoint GenericParser (fuel : nat) : Typed Object :=
  match fuel with
  | O => fun _ _ _ _ => Throw AdvOutOfFuel
  | S fuel => ListParser_.Parse (GenericParser fuel) TransformGeneric (S fuel)
  end.

(** [CompositeParserBase<Transform, GenericParser>]. *)
Definition CompositeParser (transform : Z -> list Object -> result AdvError Object) (fuel : nat) : Typed Object :=
  ListParser_.Parse (GenericParser fuel) transform (S fuel).
Definition CatArrayParser : nat -> Typed Object := CompositeParser TransformCatArray.
Definition CatDictParser : nat -> Typed Object := CompositeParser TransformCatDict.

(** [ParserBase::Parse] of a whole container. *)
Section entry.
Context {A : Type} (ParseTyped : Typed A).

Definition ParseAt (ism : ISM.t) (byteLeft : Z) : result AdvError (A * ISM.t * Z) :=
  byteLeft ← rlp (ParserBase.CheckByteLeft byteLeft 1 (ISM.GetBytesCount ism));
  '(rlpByte, ism) ← rlp (ISM.GetByteAndAdv ism);
  '(rlpType, rlpVal) ← rlp (DecodeRlpLeadingByte 8 true rlpByte (ISM.GetBytesCount ism));
  ParseTyped ism rlpType rlpVal byteLeft.

Definition ParseCtn (ctn : bytes) : result AdvError A :=
  ism ← rlp (ISM.init ctn);
  '(res, ism, size) ← ParseAt ism (zlen ctn);
  if negb (size =? 0) then
    Throw (RlpErr (ParseError "Extra data found at the end of input data" (ISM.GetBytesCount ism)))
  else Ok res.
End entry.

(** [AdvancedRlp::Parse].  Every level of the input and every item takes a byte,
    so one more than its length is fuel enough. *)
Definition Parse (ctn : bytes) : result AdvError Object := ParseCtn (GenericParser (S (length ctn))) ctn.

(** ** Dictionaries of a fixed shape *)

(** The tuple of parsers of a static dictionary. *)
Inductive Shape := ShInt (ty : IntType) | ShString | ShBytes | ShDict (fields : list Shape).

Module CatStaticDictParser.
Section parser.
(** The parser of the [i]-th item, and the number of parsers. *)
Context (itemParser : nat -> Typed Object) (numOfParsers : nat).

(** Neither missing items nor extra ones are allowed. *)
Fixpoint ProcDictItems (fuel : nat) (ism : ISM.t) (size : Z) (numOfParsed : nat) (resTp : list Object)
  : result AdvError (list Object * ISM.t) :=
  match fuel with
  | O => Throw AdvOutOfFuel
  | S fuel =>
    if size <=? 0 then
      if (numOfParsed <? numOfParsers)%nat then
        Throw (RlpErr (ParseError "The static dict parser is expecting more items to parse" (ISM.GetBytesCount ism)))
      else Ok (resTp, ism)
    else
      '(nextByte, ism) ← rlp (ISM.GetByteAndAdv ism);
      let size := size - 1 in
      '(nextType, nextVal) ← rlp (DecodeRlpLeadingByte 8 true nextByte (ISM.GetBytesCount ism));
      if (numOfParsers <=? numOfParsed)%nat then
        Throw (RlpErr (ParseError "The static dict parser encounters more items than expected" (ISM.GetBytesCount ism)))
      else
        '(o, ism, size) ← itemParser numOfParsed ism nextType nextVal size;
        ProcDictItems fuel ism size (S numOfParsed) (resTp ++ [o])
  end.

Definition PreCheckSpecs (pos : Z) (specs : bytes) : result AdvError () :=
  if negb (length specs =? 1)%nat then Throw (AdvParseError "CAT StaticDict's specs bytes should be exactly 1 byte" pos)
  else
    b ← at_index specs 0;
    catId ← GetCatIdFromByte b;
    if is_cat CatStaticDict catId then Ok () else Throw (AdvParseError "The given RLP list is not in CAT StaticDict" pos).

(** [BytesParser().Parse(ism, size)]. *)
Definition ParseSpecs (ism : ISM.t) (byteLeft : Z) : result AdvError (bytes * ISM.t * Z) :=
  ParseAt (fun ism t v bl => rlp (BytesParser.Parse ism t v bl)) ism byteLeft.

Definition Parse (fuel : nat) : Typed Object := fun ism rlpType rlpVal byteLeft =>
  '(size, ism, byteLeft) ← rlp (ParserBase.ProcRlpListHeader ism rlpType rlpVal byteLeft);
  byteLeft ← rlp (ParserBase.CheckByteLeft byteLeft size (ISM.GetBytesCount ism));
  '(specs, ism, size) ← ParseSpecs ism size;
  _ ← PreCheckSpecs (ISM.GetBytesCount ism) specs;
  '(res, ism) ← ProcDictItems fuel ism size 0 [];
  Ok (SStaticDict res, ism, byteLeft).
End parser.
End CatStaticDictParser.

Fixpoint ShapeParser (sh : Shape) (fuel : nat) : Typed Object :=
  match sh with
  | ShInt ty => CatIntegerParser ty fuel
  | ShString => CatStringParser fuel
  | ShBytes => CatBytesParser fuel
  | ShDict fields =>
    CatStaticDictParser.Parse
      (fun i => nth i (map (fun f => ShapeParser f fuel) fields) FailingParser) (length fields) fuel
  end.

Definition ParseShape (sh : Shape) (ctn : bytes) : result AdvError Object :=
  ParseCtn (ShapeParser sh (S (length ctn))) ctn.

(** ** Examples *)

Example write_string : GenericWriter.Write (SHashable (SString [0x61])) = Ok [0xC4; 0x82; 0x08; 0x00; 0x61].
Proof. reflexivity. Qed.

Example parse_string : Parse [0xC4; 0x82; 0x08; 0x00; 0x61] = Ok (SHashable (SString [0x61])).
Proof. reflexivity. Qed.

Example parse_dict : GenericWriter.Write (SDict [(SString [0x62], SList []); (SString [0x61], SHashable (SBool true))]) ≫= Parse
  = Ok (SDict [(SString [0x61], SHashable (SBool true)); (SString [0x62], SList [])]).
Proof. reflexivity. Qed.
