(* ===== verification/AdvRlpTheorems.v ===== *)
(** * AdvancedRlp: correctness

    The order of keys and the sort, the round trip of the writer and the generic
    parser up to the order of the pairs of a dictionary, and the round trip of
    dictionaries of a fixed shape. *)

From stdpp Require Import strings sorting.
From S2P Require Import Prelude RlpEncoding RlpDecoding Utf AdvRlp.

(** ** The order of keys *)

Lemma lex_eq a b : lex_compare a b = Eq <-> a = b.
Proof.
  revert b. induction a as [|x a IH]; intros [|y b]; cbn; try done.
  destruct (Z.compare_spec x y) as [->|H|H]; [rewrite IH; naive_solver|..]; split; try done; intros [= -> _]; lia.
Qed.

Lemma lex_opp a b : lex_compare b a = CompOpp (lex_compare a b).
Proof.
  revert b. induction a as [|x a IH]; intros [|y b]; cbn; try done.
  rewrite (Z.compare_antisym x y), IH. by destruct (x ?= y).
Qed.

Lemma lex_trans a b c : lex_compare a b = Lt -> lex_compare b c = Lt -> lex_compare a c = Lt.
Proof.
  revert b c. induction a as [|x a IH]; intros [|y b] [|z c]; cbn; try done.
  destruct (Z.compare_spec x y), (Z.compare_spec y z), (Z.compare_spec x z); try done; try lia. apply IH.
Qed.

(** The kind of a key, and what its order compares; null has no order. *)
Definition rank (h : Hashable) : option (nat * list Z) :=
  match h with
  | SNull => None
  | SBool b => Some (0%nat, [Z.b2z b])
  | SInteger _ v => Some (0%nat, [v])
  | SString s => Some (1%nat, map char_val s)
  | SBytes b => Some (2%nat, b)
  end.

Lemma compare_one x y : (x ?= y) = lex_compare [x] [y].
Proof. cbn. by destruct (x ?= y). Qed.

Lemma compare_rank a b k ra rb : rank a = Some (k, ra) -> rank b = Some (k, rb) ->
  BaseObjectCompare a b = order_of (lex_compare ra rb).
Proof.
  intros Ha Hb. destruct a, b; try discriminate; injection Ha as <- <-; injection Hb; try (intros; discriminate);
    intros <-; unfold BaseObjectCompare; cbn [real_num]; by rewrite ?compare_one.
Qed.

Lemma lt_rank a b k ra rb : rank a = Some (k, ra) -> rank b = Some (k, rb) ->
  obj_lt a b = Ok (bool_decide (lex_compare ra rb = Lt)).
Proof. intros Ha Hb. unfold obj_lt. rewrite (compare_rank a b k ra rb) by done. by destruct (lex_compare ra rb). Qed.

Lemma lt_inv a b : obj_lt a b = Ok true -> exists k ra rb, rank a = Some (k, ra) /\ rank b = Some (k, rb) /\ lex_compare ra rb = Lt.
Proof.
  intros H. destruct a, b; try discriminate H; eexists _, _, _; (split; [reflexivity|]; split; [reflexivity|]);
    (erewrite lt_rank in H by reflexivity; by injection H as H%bool_decide_eq_true).
Qed.

Lemma lt_trans a b c : obj_lt a b = Ok true -> obj_lt b c = Ok true -> obj_lt a c = Ok true.
Proof.
  intros (k & ra & rb & Ha & Hb & H1)%lt_inv (k' & rb' & rc & Hb' & Hc & H2)%lt_inv.
  rewrite Hb in Hb'. injection Hb' as <- <-. rewrite (lt_rank a c k ra rc) by done. by rewrite bool_decide_eq_true_2 by (by eapply lex_trans).
Qed.

Lemma lt_asym a b : obj_lt a b = Ok true -> obj_lt b a = Ok false.
Proof.
  intros (k & ra & rb & Ha & Hb & H)%lt_inv. rewrite (lt_rank b a k rb ra) by done. by rewrite lex_opp, H.
Qed.

(** Keys in order are different keys. *)
Lemma lt_neq a b : obj_lt a b = Ok true -> obj_eqb a b = false /\ obj_eqb b a = false.
Proof.
  intros (k & ra & rb & Ha & Hb & H)%lt_inv. assert (ra <> rb) as Hne by (intros ->; by rewrite (proj2 (lex_eq rb rb) eq_refl) in H).
  destruct a, b; try discriminate; injection Ha as <- <-; injection Hb; try (intros; discriminate); intros <-; unfold obj_eqb; cbn [real_num];
    first [split; apply Z.eqb_neq; congruence | split; apply bool_decide_eq_false; congruence].
Qed.

(** ** The sort *)

(** The keys of a dictionary that can be written: one at most, or of one kind and
    different. *)
Definition keys_ok (ks : list Hashable) : Prop :=
  (length ks <= 1)%nat \/ exists k rs, map rank ks = map (fun r => Some (k, r)) rs /\ NoDup rs.

Section sort.
Context {A : Type}.
Implicit Types (p q : Hashable * A) (l d : list (Hashable * A)).

Definition klt p q : Prop := obj_lt p.1 q.1 = Ok true.

Lemma klt_trans : Transitive klt.
Proof. intros p q r. apply lt_trans. Qed.
Lemma klt_antisymm : AntiSymm (=) klt.
Proof. intros p q H1 H2. apply lt_asym in H1. unfold klt in H2. congruence. Qed.

(** A key can be put among others: it compares with them, and is none of them. *)
Definition fresh_for p l : Prop := Forall (fun q => klt p q \/ klt q p) l.

Lemma sort_insert_spec p l : fresh_for p l -> StronglySorted klt l ->
  exists r, sort_insert p l = Ok r /\ r ≡ₚ p :: l /\ StronglySorted klt r.
Proof.
  intros Hf Hs. induction Hs as [|q l Hs IH Hq]; [exists [p]; by repeat constructor|].
  apply Forall_cons in Hf as [Hpq Hf]. cbn [sort_insert]. destruct Hpq as [Hpq|Hqp].
  - rewrite Hpq. eexists. split; [done|]. split; [done|]. repeat constructor; try done.
    eapply Forall_impl; [exact Hq|]. intros x Hx. by eapply lt_trans.
  - rewrite (lt_asym _ _ Hqp). cbn. destruct (IH Hf) as (r & -> & Hp & Hr). cbn. eexists. split; [done|].
    split; [rewrite Hp; constructor|]. constructor; [done|]. rewrite Hp. by constructor.
Qed.

Lemma keys_fresh p l : keys_ok (map fst (p :: l)) -> fresh_for p l /\ keys_ok (map fst l).
Proof.
  intros [Hl|(k & rs & Hr & Hn)].
  { destruct l; [|cbn in Hl; lia]. split; [constructor|]. left. cbn. lia. }
  destruct rs as [|r rs]; [discriminate Hr|]. injection Hr as Hp Hr. apply NoDup_cons in Hn as [Hnr Hn]. split; [|right; by exists k, rs].
  apply Forall_forall. intros q Hq. assert (exists r', r' ∈ rs /\ rank q.1 = Some (k, r')) as (r' & Hin & Hrq).
  { apply list_elem_of_In in Hq. pose proof (in_map rank _ _ (in_map fst _ _ Hq)) as Hq'. rewrite Hr in Hq'.
    apply in_map_iff in Hq' as (r' & E & Hin%list_elem_of_In). by exists r'. }
  unfold klt. rewrite (lt_rank p.1 q.1 k r r'), (lt_rank q.1 p.1 k r' r), (lex_opp r r') by done.
  destruct (lex_compare r r') eqn:E; [|by left|by right]. apply lex_eq in E as ->. done.
Qed.

(** The sort of such keys succeeds, and is the sort. *)
Lemma sort_pairs_spec d : keys_ok (map fst d) ->
  exists r, sort_pairs d = Ok r /\ r ≡ₚ d /\ StronglySorted klt r.
Proof.
  induction d as [|p d IH]; intros Hk; [exists []; by repeat constructor|]. apply keys_fresh in Hk as [Hf Hk].
  destruct (IH Hk) as (r & Hr & Hp & Hs). cbn [sort_pairs]. rewrite Hr. cbn.
  destruct (sort_insert_spec p r) as (r' & -> & Hp' & Hs'); [by unfold fresh_for; rewrite Hp|done|].
  exists r'. split; [done|]. split; [by rewrite Hp', Hp|done].
Qed.

(** Two orders of the same pairs sort to the same list. *)
Lemma sort_pairs_perm d1 d2 : keys_ok (map fst d1) -> d1 ≡ₚ d2 -> keys_ok (map fst d2) -> sort_pairs d1 = sort_pairs d2.
Proof.
  intros H1 Hp H2. destruct (sort_pairs_spec d1 H1) as (r1 & -> & P1 & S1). destruct (sort_pairs_spec d2 H2) as (r2 & -> & P2 & S2).
  f_equal. pose proof klt_antisymm. apply (StronglySorted_unique klt); [done|done|]. by rewrite P1, P2.
Qed.
End sort.

(** The sort does not look at the values. *)
Lemma sort_pairs_map {A B} (f : A -> B) (d : list (Hashable * A)) :
  sort_pairs (map (fun p => (p.1, f p.2)) d) = map (fun p => (p.1, f p.2)) <$> sort_pairs d.
Proof.
  induction d as [|p d IH]; [done|]. cbn [map sort_pairs]. rewrite IH. destruct (sort_pairs d) as [r|e]; [|done]. cbn.
  clear. induction r as [|q r IH]; [done|]. cbn. destruct (obj_lt p.1 q.1) as [[]|e]; cbn; [done| |done].
  rewrite IH. by destruct (sort_insert p r).
Qed.

(** ** Reading what was written *)

(** A parser reads a serialised list as a value. *)
Definition reads_as {A} (parser : Typed A) (bs : bytes) (v : A) : Prop :=
  exists b0 tl t x, bs = b0 :: tl /\ (t = ListShort \/ t = ListLong) /\
    (forall pos, DecodeRlpLeadingByte 8 true b0 pos = Ok (t, x)) /\
    forall c rest bl, zlen tl <= bl ->
      parser (ISM.at_ c (tl ++ rest)) t x bl = Ok (v, ISM.at_ (adv_count c (length tl)) rest, bl - zlen tl).

(** The loop over the items reads a serialised item as an object. *)
Definition item_as (lp : Typed Object) (bs : bytes) (v : Object) : Prop :=
  (1 <= length bs)%nat /\ forall fuel c rest size acc, zlen bs <= size ->
    ListParser_.items lp (S fuel) (ISM.at_ c (bs ++ rest)) size acc =
    ListParser_.items lp fuel (ISM.at_ (adv_count c (length bs)) rest) (size - zlen bs) (acc ++ [v]).

Lemma item_bytes lp b : all_bytes b -> fits 64 (zlen (EncodeRlpBytes.SerializeBytes b)) ->
  item_as lp (EncodeRlpBytes.SerializeBytes b) (SHashable (SBytes b)).
Proof.
  intros Hb Hfit. assert (fits 64 (zlen b)) as Hn.
  { revert Hfit. unfold EncodeRlpBytes.SerializeBytes. case_match; [done|]. rewrite length_app. word_lia. }
  destruct (bytes_item b Hb Hn) as (b0 & tl & t & v & -> & _ & _ & Ht & Hd & Hh). split; [cbn [length]; lia|].
  intros fuel c rest size acc Hs. cbn [length] in *. cbn [ListParser_.items]. rewrite (proj2 (Z.leb_gt _ _)) by lia.
  rewrite <-app_comm_cons, ISM.adv_cons. cbn -[ListParser_.items Z.sub Z.of_nat]. rewrite Hd. cbn -[ListParser_.items Z.sub Z.of_nat].
  specialize (Hh (u64 (c + 1)) rest (size - 1) ltac:(lia)). rewrite adv_count_S in Hh.
  replace (size - Z.of_nat (S (length tl))) with (size - 1 - zlen tl) by lia.
  destruct Ht as [->|[->| ->]]; rewrite Hh; done.
Qed.

Lemma item_list lp bs v : reads_as lp bs v -> item_as lp bs v.
Proof.
  intros (b0 & tl & t & x & -> & Ht & Hd & Hr). split; [cbn [length]; lia|]. intros fuel c rest size acc Hs. cbn [length] in *.
  cbn [ListParser_.items]. rewrite (proj2 (Z.leb_gt _ _)) by lia.
  rewrite <-app_comm_cons, ISM.adv_cons. cbn -[ListParser_.items Z.sub Z.of_nat]. rewrite Hd. cbn -[ListParser_.items Z.sub Z.of_nat].
  specialize (Hr (u64 (c + 1)) rest (size - 1) ltac:(lia)). rewrite adv_count_S in Hr.
  replace (size - Z.of_nat (S (length tl))) with (size - 1 - zlen tl) by lia. destruct Ht as [->| ->]; rewrite Hr; done.
Qed.

Lemma items_read lp encs vals : Forall2 (item_as lp) encs vals -> forall fuel c rest acc, (length (concat encs) < fuel)%nat ->
  ListParser_.items lp fuel (ISM.at_ c (concat encs ++ rest)) (zlen (concat encs)) acc =
  Ok (acc ++ vals, ISM.at_ (adv_count c (length (concat encs))) rest).
Proof.
  induction 1 as [|bs v encs vals [Hne Hi] _ IH]; intros fuel c rest acc Hf.
  { destruct fuel; [cbn in Hf; lia|]. cbn. by rewrite app_nil_r. }
  cbn [concat] in *. rewrite length_app, Nat2Z.inj_add in *. destruct fuel as [|fuel]; [lia|].
  rewrite <-app_assoc, Hi by lia. replace (zlen bs + zlen (concat encs) - zlen bs) with (zlen (concat encs)) by lia.
  rewrite IH by lia. by rewrite <-app_assoc, adv_count_add.
Qed.

Lemma list_bytes_fits p : fits 64 (zlen (EncodeRlpList.SerializeBytes p)) -> fits 64 (zlen p) /\ (length p < length (EncodeRlpList.SerializeBytes p))%nat.
Proof.
  unfold EncodeRlpList.SerializeBytes. rewrite length_app. pose proof (GenLeading_list_nonempty (zlen p)) as Hne.
  destruct (EncodeRlpList.GenLeadingBytes (zlen p)); [done|]. cbn [length]. intros H. split; [word_lia|lia].
Qed.

(** A list whose items are read, and whose transform succeeds. *)
Lemma list_read {A} lp (transform : Z -> list Object -> result AdvError A) fuel encs vals v :
  Forall2 (item_as lp) encs vals -> (forall pos, transform pos vals = Ok v) ->
  fits 64 (zlen (EncodeRlpList.SerializeBytes (concat encs))) -> (length (concat encs) < fuel)%nat ->
  reads_as (ListParser_.Parse lp transform fuel) (EncodeRlpList.SerializeBytes (concat encs)) v.
Proof.
  intros Hi Ht Hfit Hf. apply list_bytes_fits in Hfit as [Hfit _]. set (p := concat encs) in *.
  destruct (list_header (zlen p) Hfit) as (b0 & tl & t & x & E & _ & _ & Hty & Hd & Hh).
  exists b0, (tl ++ p), t, x. unfold EncodeRlpList.SerializeBytes. rewrite E. split_and!; [done|done|done|].
  intros c rest bl Hbl. rewrite length_app, Nat2Z.inj_add in *. unfold ListParser_.Parse. rewrite <-app_assoc, Hh by lia.
  cbn -[ListParser_.items Z.sub Z.of_nat]. unfold ParserBase.CheckByteLeft. rewrite (proj2 (Z.ltb_ge _ _)) by lia.
  cbn -[ListParser_.items Z.sub Z.of_nat]. unfold p at 1 2. rewrite (items_read lp encs vals Hi) by done. fold p.
  cbn -[Z.sub Z.of_nat]. rewrite Ht. cbn -[Z.sub Z.of_nat]. rewrite adv_count_add. do 2 f_equal. lia.
Qed.

(** The entry points. *)
Lemma ParseCtn_read {A} (tp : Typed A) bs v : reads_as tp bs v -> ParseCtn tp bs = Ok v.
Proof.
  intros (b0 & tl & t & x & -> & _ & Hd & Hr). unfold ParseCtn, ParseAt. rewrite ISM.init_at. cbn -[Z.sub Z.of_nat ISM.GetByteAndAdv].
  unfold ParserBase.CheckByteLeft. cbn [length]. rewrite (proj2 (Z.ltb_ge _ _)) by lia. cbn -[Z.sub Z.of_nat ISM.GetByteAndAdv].
  rewrite ISM.adv_cons. cbn -[Z.sub Z.of_nat]. rewrite Hd. cbn -[Z.sub Z.of_nat].
  specialize (Hr (u64 (0 + 1)) [] (Z.of_nat (S (length tl)) - 1) ltac:(lia)). rewrite app_nil_r in Hr. cbn -[Z.sub Z.of_nat] in Hr.
  rewrite Hr. cbn -[Z.sub Z.of_nat]. by rewrite (proj2 (Z.eqb_eq _ 0)) by lia.
Qed.

(** ** What can be written *)

Definition int_writable (ty : IntType) (v : Z) : Prop :=
  (if int_signed ty then - int_max ty else 0) <= v <= int_max ty.

Definition hash_writable (h : Hashable) : Prop :=
  match h with
  | SBytes b => all_bytes b
  | SInteger ty v => int_writable ty v
  | SString s => all_bytes s /\ is_ok (Utf8ToUtf8 s) = true
  | SNull | SBool _ => True
  end.

(** A value the generic writer and the generic parser agree on: no dictionary of
    a fixed shape in it, the strings are UTF-8, no integer is the least of a
    signed type, and the keys of a dictionary have an order. *)
Inductive writable : Object -> Prop :=
| writable_hash h : hash_writable h -> writable (SHashable h)
| writable_list l : Forall writable l -> writable (SList l)
| writable_dict d : keys_ok (map fst d) -> Forall (fun p => hash_writable p.1 /\ writable p.2) d -> writable (SDict d).

(** The value with its dictionaries in the order of their keys. *)
Fixpoint canon (o : Object) : Object :=
  match o with
  | SHashable h => SHashable h
  | SList l => SList (map canon l)
  | SDict d => SDict (ok_or [] (sort_pairs (map (fun p => (p.1, canon p.2)) d)))
  | SStaticDict l => SStaticDict (map canon l)
  end.

Lemma Utf8ToUtf8_id s : all_bytes s -> is_ok (Utf8ToUtf8 s) = true -> Utf8ToUtf8 s = Ok s.
Proof.
  intros Hs Hok. destruct (Utf8ToUtf8 s) as [s'|] eqn:E; [|discriminate Hok]. f_equal.
  apply (transcode_exact (A := utf8_encoding) (B := utf8_encoding)) in E as (cs & _ & -> & ->); done.
Qed.

Lemma int_width ty : int_bits ty ∈ [8; 16; 32; 64] /\ 0 < int_max ty < 2 ^ int_bits ty.
Proof. split; [|by destruct ty]. unfold int_bits. destruct ty; set_solver. Qed.

Lemma ToInt_FromInt n v : 0 <= v < 256 ^ Z.of_nat n -> ToInt n (FromInt n v) = Ok v.
Proof.
  intros Hv. unfold ToInt, FromInt. rewrite length_rev, length_be_bytes, Nat.eqb_refl, rev_involutive, be_val_be_bytes.
  by rewrite Z.mod_small.
Qed.

Lemma all_bytes_FromInt n v : all_bytes (FromInt n v).
Proof. unfold FromInt. apply Forall_rev. apply all_bytes_be_bytes. Qed.

(** The magnitude and the sign byte of an integer. *)
Definition int_sign (ty : IntType) (v : Z) : Z := if int_signed ty then (if v >=? 0 then 0x10 else 0x11) else 0x00.

Lemma BuildIntRawData_writable ty v : int_writable ty v ->
  BuildIntRawData ty v = Ok (int_sign ty v, FromInt (int_size ty) (Z.abs v)) /\ 0 <= Z.abs v <= int_max ty /\
  Z.abs v < 256 ^ Z.of_nat (int_size ty).
Proof.
  unfold int_writable, BuildIntRawData, int_sign. destruct (int_width ty) as [_ Hm]. unfold int_bits in *.
  rewrite <-pow256_pow2 in Hm. intros Hv. destruct (int_signed ty).
  - destruct (Z.geb_spec v 0).
    + rewrite Z.abs_eq, wrap_small by (unfold fits; rewrite <-?pow256_pow2; lia). split; [done|lia].
    + rewrite (proj2 (Z.ltb_ge (int_max ty) (-1 * v))), andb_false_r by lia.
      replace (-1 * v) with (Z.abs v) by lia. rewrite wrap_small by (unfold fits; rewrite <-pow256_pow2; lia). split; [done|lia].
  - rewrite Z.abs_eq by lia. split; [done|lia].
Qed.

Lemma Write_hashable_ok h : hash_writable h -> exists bs, WriteHashable h = Ok bs.
Proof.
  destruct h as [b| |b|ty v|s]; cbn; try by eexists.
  - intros Hv. unfold CatIntegerWriter_Write. destruct (BuildIntRawData_writable ty v Hv) as [-> _]. by eexists.
  - intros [Hs Hok]. unfold CatStringWriter_Write. rewrite Utf8ToUtf8_id by done. by eexists.
Qed.

(** The integer that was written is the one that is read. *)
Lemma int_read ty v pos : int_writable ty v ->
  CatInteger_value pos [SHashable (SBytes [SerializeCatId CatInteger; widthByte ty; int_sign ty v]);
                        SHashable (SBytes (FromInt (int_size ty) (Z.abs v)))] = Ok (ty, v).
Proof.
  intros Hv. destruct (BuildIntRawData_writable ty v Hv) as (_ & Hm & Hw). unfold int_writable in Hv.
  assert (forall uty, int_size uty = int_size ty -> (if int_signed ty then to_signed uty = ty else uty = ty) ->
    (val ← ToInt (int_size uty) (FromInt (int_size ty) (Z.abs v)); SolveSignedness uty pos (int_sign ty v) val) = Ok (ty, v)) as Hs.
  { intros uty Hsz Hty. rewrite Hsz, ToInt_FromInt by lia. cbn [mbind result_bind]. unfold SolveSignedness, CheckSignedRange, int_sign.
    destruct (int_signed ty).
    - rewrite Hty, (proj2 (Z.ltb_ge _ _)) by lia. destruct (Z.geb_spec v 0); cbn -[Z.mul]; do 2 f_equal; lia.
    - rewrite Hty. cbn. do 2 f_equal. lia. }
  unfold CatInteger_value. destruct ty; (apply (Hs UInt8) || apply (Hs UInt16) || apply (Hs UInt32) || apply (Hs UInt64)); done.
Qed.

(** The serialised specs and what follows them are read as items. *)
Lemma specs_read lp specs raws : all_bytes specs -> Forall all_bytes raws ->
  fits 64 (zlen (EncodeRlpList.SerializeBytes (concat (map EncodeRlpBytes.SerializeBytes (specs :: raws))))) ->
  Forall2 (item_as lp) (map EncodeRlpBytes.SerializeBytes (specs :: raws)) (map (fun b => SHashable (SBytes b)) (specs :: raws)).
Proof.
  intros Hs Hr [Hf _]%list_bytes_fits. assert (Forall all_bytes (specs :: raws)) as Hall by (by constructor).
  revert Hf. generalize dependent (specs :: raws). clear. intros l Hl. induction Hl as [|b l Hb _ IH]; [constructor|].
  cbn [map concat]. rewrite length_app. intros Hf. constructor; [apply item_bytes; [done|]|apply IH]; word_lia.
Qed.

(** What the specific transform of a scalar makes of its items. *)
Definition transformed (h : Hashable) (pos : Z) (vals : list Object) : Prop :=
  match h with
  | SBytes _ => TransformCatBytes pos vals = Ok (SHashable h)
  | SString _ => TransformCatString pos vals = Ok (SHashable h)
  | SInteger ty _ => TransformCatInteger (SpecificIntConverter ty) pos vals = Ok (SHashable h)
  | _ => TransformGeneric pos vals = Ok (SHashable h)
  end.

(** The items of a written scalar, and what the transforms make of them. *)
Lemma hash_parts h bs : hash_writable h -> WriteHashable h = Ok bs ->
  exists specs raws, bs = EncodeRlpList.SerializeBytes (concat (map EncodeRlpBytes.SerializeBytes (specs :: raws))) /\
    all_bytes specs /\ Forall all_bytes raws /\ forall pos,
    TransformGeneric pos (map (fun b => SHashable (SBytes b)) (specs :: raws)) = Ok (SHashable h) /\
    transformed h pos (map (fun b => SHashable (SBytes b)) (specs :: raws)).
Proof.
  intros Hw Hwr. destruct h as [b| |b|ty v|s]; cbn in Hw.
  - injection Hwr as <-. unfold CatBytesWriter_Write, WriterBytes.Write. rewrite map_u8_id by done.
    exists [SerializeCatId CatBytes], [b]. cbn [map concat]. rewrite app_nil_r. split_and!; [done|byte_list|by apply Forall_singleton|done].
  - injection Hwr as <-. exists [SerializeCatId CatNull], []. split_and!; [done|byte_list|constructor|done].
  - injection Hwr as <-. exists [SerializeCatId (if b then CatTrue else CatFalse)], [].
    destruct b; (split_and!; [done|byte_list|constructor|done]).
  - cbn in Hwr. unfold CatIntegerWriter_Write in Hwr. destruct (BuildIntRawData_writable ty v Hw) as (Eb & _ & _). rewrite Eb in Hwr.
    injection Hwr as <-. exists [SerializeCatId CatInteger; widthByte ty; int_sign ty v], [FromInt (int_size ty) (Z.abs v)].
    cbn [map concat]. rewrite app_nil_r. split_and!; [done| |apply Forall_singleton, all_bytes_FromInt|].
    + apply Forall_cons_2; [done|]. apply Forall_cons_2; [by destruct ty|]. apply Forall_singleton. unfold int_sign.
      destruct (int_signed ty); [destruct (v >=? 0)|]; done.
    + intros pos. split.
      * match goal with |- TransformGeneric pos ?vals = _ =>
          change (TransformGeneric pos vals) with (TransformCatInteger GenericIntConverter pos vals) end.
        unfold TransformCatInteger. by rewrite int_read.
      * cbn [transformed]. unfold TransformCatInteger. rewrite int_read by done. cbn [mbind result_bind].
        unfold SpecificIntConverter. cbn. by rewrite decide_True.
  - cbn in Hwr. destruct Hw as [Hs Hok]. pose proof (Utf8ToUtf8_id s Hs Hok) as Hid. unfold CatStringWriter_Write in Hwr. rewrite Hid in Hwr.
    injection Hwr as <-. exists [SerializeCatId CatString; 0], [s]. cbn [map concat]. rewrite app_nil_r.
    split_and!; [done|byte_list|by apply Forall_singleton|]. intros pos.
    assert (TransformCatString pos [SHashable (SBytes [SerializeCatId CatString; 0]); SHashable (SBytes s)] = Ok (SHashable (SString s))) as Ht; [|by split].
    unfold TransformCatString. cbn -[Utf8ToUtf8]. by rewrite Hid.
Qed.

Lemma hash_read lp h bs : hash_writable h -> WriteHashable h = Ok bs -> fits 64 (zlen bs) ->
  exists encs vals, bs = EncodeRlpList.SerializeBytes (concat encs) /\ Forall2 (item_as lp) encs vals /\
    forall pos, TransformGeneric pos vals = Ok (SHashable h) /\ transformed h pos vals.
Proof.
  intros Hw Hwr Hfit. destruct (hash_parts h bs Hw Hwr) as (specs & raws & -> & Hs & Hr & Ht).
  eexists _, _. split; [done|]. split; [by apply specs_read|exact Ht].
Qed.

(** *** What is written are bytes *)

Lemma leading_bytes n : all_bytes (EncodeRlpBytes.GenLeadingBytes n) /\ all_bytes (EncodeRlpList.GenLeadingBytes n).
Proof.
  unfold EncodeRlpBytes.GenLeadingBytes, EncodeRlpList.GenLeadingBytes.
  split; case_match; try (apply Forall_singleton; by apply wrap_fits);
    (apply Forall_cons_2; [by apply wrap_fits|apply EncodePrimitiveIntValue.Encode_bytes]).
Qed.

Lemma list_written_bytes p : all_bytes p -> all_bytes (EncodeRlpList.SerializeBytes p).
Proof. intros Hp. apply all_bytes_app. split; [apply leading_bytes|done]. Qed.

Lemma item_written_bytes b : all_bytes b -> all_bytes (EncodeRlpBytes.SerializeBytes b).
Proof. intros Hb. unfold EncodeRlpBytes.SerializeBytes. case_match; [done|]. apply all_bytes_app. split; [apply leading_bytes|done]. Qed.

Lemma concat_all_bytes l : Forall all_bytes l -> all_bytes (concat l).
Proof. induction 1; [constructor|]. cbn. by apply all_bytes_app. Qed.

Lemma hash_written_bytes h bs : hash_writable h -> WriteHashable h = Ok bs -> all_bytes bs.
Proof.
  intros Hw Hwr. destruct (hash_parts h bs Hw Hwr) as (specs & raws & -> & Hs & Hr & _).
  apply list_written_bytes, concat_all_bytes, Forall_map. constructor; [by apply item_written_bytes|].
  eapply Forall_impl; [exact Hr|]. intros b. apply item_written_bytes.
Qed.

(** *** Containers *)

Lemma concat_bytes_inv rs p : concat_bytes rs = Ok p -> exists encs, rs = map Ok encs /\ p = concat encs.
Proof.
  revert p. induction rs as [|r rs IH]; intros p H; [injection H as <-; by exists []|].
  cbn in H. bind_ok H. bind_ok H. injection H as <-. destruct (IH _ E0) as (encs & -> & ->). by exists (a :: encs); rewrite E.
Qed.

Lemma concat_bytes_ok encs : concat_bytes (map Ok encs) = Ok (concat encs).
Proof. induction encs as [|b encs IH]; [done|]. cbn. by rewrite IH. Qed.

(** The pairs of a dictionary one after the other. *)
Definition flat (d : list (Hashable * Object)) : list Object := concat (map (fun p => [SHashable p.1; p.2]) d).

Lemma length_flat d : length (flat d) = (2 * length d)%nat.
Proof. unfold flat. induction d; cbn in *; lia. Qed.

Lemma InsertRest_sorted pos d prev v rest : StronglySorted klt ((d ++ [(prev, v)]) ++ rest) ->
  CatDictInsertRest pos (d ++ [(prev, v)]) prev (flat rest) = Ok ((d ++ [(prev, v)]) ++ rest).
Proof.
  revert d prev v. induction rest as [|[k w] rest IH]; intros d prev v Hs; [by rewrite app_nil_r|].
  assert (forall q, q ∈ d ++ [(prev, v)] -> klt q (k, w)) as Hlt.
  { intros q Hq. clear IH. induction (d ++ [(prev, v)]) as [|x l IHl]; [by apply not_elem_of_nil in Hq|].
    cbn in Hs. apply StronglySorted_inv in Hs as [Hs Hx]. apply elem_of_cons in Hq as [->|Hq]; [|by apply IHl].
    rewrite Forall_forall in Hx. apply Hx, elem_of_app. right. left. }
  cbn -[Dict.HasKey]. assert (Dict.HasKey (d ++ [(prev, v)]) k = false) as Hk.
  { unfold Dict.HasKey. clear -Hlt. induction (d ++ [(prev, v)]) as [|[k' v'] l IHl]; [done|]. cbn.
    assert (klt (k', v') (k, w)) as Hkk by (apply Hlt; left). unfold klt in Hkk. cbn [fst] in Hkk.
    apply lt_neq in Hkk as [E _]. rewrite E. apply IHl. intros q Hq. apply Hlt. by right. }
  rewrite Hk. rewrite (lt_asym prev k) by (apply (Hlt (prev, v)), elem_of_app; right; left). cbn [mbind result_bind].
  unfold Dict.InsertOnly. rewrite Hk. rewrite (IH (d ++ [(prev, v)])); [by rewrite <-!app_assoc|]. by rewrite <-app_assoc.
Qed.

Lemma TransformGeneric_dict pos d : StronglySorted klt d ->
  TransformGeneric pos (SHashable (SBytes [SerializeCatId CatDict]) :: flat d) = Ok (SDict d).
Proof.
  intros Hs. change (TransformGeneric pos _) with (TransformCatDict pos (SHashable (SBytes [SerializeCatId CatDict]) :: flat d)).
  unfold TransformCatDict. cbn [PreCheck]. cbn -[Nat.modulo flat Dict.InsertOnly]. rewrite Nat.sub_0_r, length_flat.
  rewrite (Nat.mul_comm 2), Nat.Div0.mod_mul. cbn [negb Nat.eqb]. destruct d as [|[k v] d]; [done|]. cbn -[Dict.InsertOnly].
  change (Dict.InsertOnly [] k v) with (@nil (Hashable * Object) ++ [(k, v)]). change (concat _) with (flat d).
  by rewrite (InsertRest_sorted pos [] k v d).
Qed.

(** The claim about one value. *)
Definition read_back (o : Object) : Prop := forall bs f, GenericWriter.Write o = Ok bs -> fits 64 (zlen bs) ->
  (length bs <= f)%nat -> reads_as (GenericParser f) bs (canon o).

Lemma items_written f objs encs : Forall read_back objs -> map GenericWriter.Write objs = map Ok encs ->
  fits 64 (zlen (concat encs)) -> (length (concat encs) <= f)%nat ->
  Forall2 (item_as (GenericParser f)) encs (map canon objs).
Proof.
  intros Ho. revert encs. induction Ho as [|o objs Hr _ IH]; intros [|b encs] He Hf Hl; try discriminate; [constructor|].
  injection He as Hb He. cbn [concat] in *. rewrite length_app in *. constructor.
  - apply item_list, Hr; [done|word_lia|lia].
  - apply IH; [done|word_lia|lia].
Qed.

(** A serialised container: the category, then the items. *)
Lemma container_read cat objs encs v : 0 <= cat <= 0x7F -> Forall read_back objs -> map GenericWriter.Write objs = map Ok encs ->
  (forall pos, TransformGeneric pos (SHashable (SBytes [cat]) :: map canon objs) = Ok v) ->
  forall f, let bs := EncodeRlpList.SerializeBytes (cat :: concat encs) in
  fits 64 (zlen bs) -> (length bs <= f)%nat -> reads_as (GenericParser f) bs v.
Proof.
  intros Hc Ho He Ht f bs Hfit Hl. pose proof (list_bytes_fits _ Hfit) as [Hp Hlt]. fold bs in Hlt. cbn [length] in Hp, Hlt.
  destruct f as [|f]; [lia|]. cbn [GenericParser]. unfold bs in *. change (cat :: concat encs) with (concat ([cat] :: encs)) in *.
  eapply list_read; [|exact Ht|done|cbn [concat app length] in *; lia]. constructor.
  - assert ([cat] = EncodeRlpBytes.SerializeBytes [cat]) as E.
    { unfold EncodeRlpBytes.SerializeBytes. cbn. by rewrite (proj2 (Z.leb_le _ _)) by lia. }
    rewrite E at 1. apply item_bytes; [|rewrite <-E; by vm_compute]. apply Forall_singleton. widths. lia.
  - apply items_written; [done|done|word_lia|cbn [concat app length] in *; lia].
Qed.

Lemma canon_pairs d r : sort_pairs d = Ok r -> canon (SDict d) = SDict (map (fun p => (p.1, canon p.2)) r).
Proof. intros Hr. cbn [canon]. by rewrite sort_pairs_map, Hr. Qed.

(** A scalar that was written is read back. *)
Lemma hash_read_back h : hash_writable h -> read_back (SHashable h).
Proof.
  intros Hh bs f Hwr Hfit Hl. destruct (hash_read FailingParser h bs Hh Hwr Hfit) as (encs & vals & Ebs & _).
  assert (0 < length bs)%nat as Hpos by (rewrite Ebs in Hfit |- *; apply list_bytes_fits in Hfit; lia). destruct f as [|f]; [lia|].
  destruct (hash_read (GenericParser f) h bs Hh Hwr Hfit) as (encs' & vals' & -> & Hi & Ht). apply list_bytes_fits in Hfit as Hp.
  cbn [GenericParser canon]. eapply list_read; [exact Hi|intros pos; apply Ht|done|lia].
Qed.

Lemma map_flat (f : Object -> Object) r : (forall h, f (SHashable h) = SHashable h) ->
  map f (flat r) = flat (map (fun p => (p.1, f p.2)) r).
Proof. intros Hf. unfold flat. induction r as [|p r IH]; [done|]. cbn. by rewrite IH, Hf. Qed.

(** The items of a dictionary, as they are written. *)
Lemma dict_written r : map GenericWriter.Write (flat r) =
  concat (map (fun p : Hashable * result AdvError bytes => [WriteHashable p.1; p.2]) (map (fun p => (p.1, GenericWriter.Write p.2)) r)).
Proof. unfold flat. induction r as [|p r IH]; [done|]. cbn. by rewrite IH. Qed.

Lemma dict_sorted (f : Object -> Object) r : StronglySorted klt r -> StronglySorted klt (map (fun p => (p.1, f p.2)) r).
Proof. induction 1 as [|p r _ IH Hp]; [constructor|]. cbn. constructor; [done|]. apply Forall_map. by eapply Forall_impl. Qed.

Lemma Forall_flat (P : Object -> Prop) r : Forall P (flat r) <-> Forall (fun p => P (SHashable p.1) /\ P p.2) r.
Proof. unfold flat. induction r as [|p r IH]; [by split; constructor|]. cbn. rewrite !Forall_cons, IH. tauto. Qed.

Lemma writable_read o : writable o -> read_back o.
Proof.
  induction o as [h|l IH|d IH|l IH] using object_nested_ind; intros Hw; inversion Hw as [h' Hh|l' Hall|d' Hk Hall]; subst;
    [by apply hash_read_back|..]; intros bs f Hwr Hfit Hl; cbn [GenericWriter.Write] in Hwr.
  - bind_ok Hwr. injection Hwr as <-. apply concat_bytes_inv in E as (encs & He & ->).
    by eapply (container_read _ l encs); [by vm_compute|by eapply Forall_mp| | |..].
  - rewrite sort_pairs_map in Hwr. destruct (sort_pairs_spec d Hk) as (r & Hr & Hp & Hs).
    rewrite Hr in Hwr. cbn [fmap result_fmap mbind result_bind] in Hwr. bind_ok Hwr. injection Hwr as <-.
    rewrite <-dict_written in E. apply concat_bytes_inv in E as (encs & He & ->). rewrite (canon_pairs d r Hr).
    eapply (container_read _ (flat r) encs); [by vm_compute| |done| |done|done].
    + apply Forall_flat. rewrite Hp. rewrite Forall_forall in IH, Hall |- *. intros p Hin. destruct (Hall p Hin).
      split; [by apply hash_read_back|by apply IH].
    + intros pos. rewrite map_flat by done. by apply TransformGeneric_dict, dict_sorted.
Qed.

(** Every writable value is written. *)
Lemma concat_written objs : Forall (fun o => exists bs, GenericWriter.Write o = Ok bs) objs ->
  exists p, concat_bytes (map GenericWriter.Write objs) = Ok p.
Proof.
  induction 1 as [|o objs [b Hb] _ [p IH]]; [by exists []|]. cbn [map concat_bytes]. rewrite Hb, IH. by eexists.
Qed.

Lemma writable_written o : writable o -> exists bs, GenericWriter.Write o = Ok bs.
Proof.
  induction o as [h|l IH|d IH|l IH] using object_nested_ind; intros Hw; inversion Hw as [h' Hh|l' Hall|d' Hk Hall]; subst;
    cbn [GenericWriter.Write].
  - by apply Write_hashable_ok.
  - destruct (concat_written l) as [p ->]; [by eapply Forall_mp|]. by eexists.
  - rewrite sort_pairs_map. destruct (sort_pairs_spec d Hk) as (r & -> & Hp & _). cbn [fmap result_fmap mbind result_bind].
    rewrite <-dict_written. destruct (concat_written (flat r)) as [p ->]; [|by eexists].
    apply Forall_flat. rewrite Hp. rewrite Forall_forall in IH, Hall |- *. intros q Hin. destruct (Hall q Hin).
    split; [by apply Write_hashable_ok|by apply IH].
Qed.

(** The claim that what is written are bytes, for a list of items. *)
Definition writes_bytes (o : Object) : Prop := forall bs, GenericWriter.Write o = Ok bs -> all_bytes bs.

Lemma items_written_bytes objs encs : Forall writes_bytes objs -> map GenericWriter.Write objs = map Ok encs -> all_bytes (concat encs).
Proof.
  intros Ho. revert encs. induction Ho as [|o objs Hw _ IH]; intros [|b encs] He; try discriminate; [constructor|].
  injection He as Hb He. cbn. apply all_bytes_app. split; [by apply Hw|by apply IH].
Qed.

Lemma writable_bytes o : writable o -> writes_bytes o.
Proof.
  induction o as [h|l IH|d IH|l IH] using object_nested_ind; intros Hw bs Hwr; inversion Hw as [h' Hh|l' Hall|d' Hk Hall]; subst;
    [by eapply hash_written_bytes|..]; cbn [GenericWriter.Write] in Hwr.
  - bind_ok Hwr. injection Hwr as <-. apply concat_bytes_inv in E as (encs & He & ->). apply list_written_bytes, all_bytes_cons.
    split; [by vm_compute|]. eapply items_written_bytes; [by eapply Forall_mp|done].
  - rewrite sort_pairs_map in Hwr. destruct (sort_pairs_spec d Hk) as (r & Hr & Hp & _). rewrite Hr in Hwr.
    cbn [fmap result_fmap mbind result_bind] in Hwr. bind_ok Hwr. injection Hwr as <-. rewrite <-dict_written in E.
    apply concat_bytes_inv in E as (encs & He & ->). apply list_written_bytes, all_bytes_cons. split; [by vm_compute|].
    eapply items_written_bytes; [|exact He]. apply Forall_flat. rewrite Hp. rewrite Forall_forall in IH, Hall |- *. intros q Hin.
    destruct (Hall q Hin) as [Hq Hv]. split; [intros b Hb; by eapply hash_written_bytes|by apply IH].
Qed.

(** ** Dictionaries of a fixed shape *)

(** A value of a shape. *)
Inductive has_shape : Shape -> Object -> Prop :=
| shape_int ty v : int_writable ty v -> has_shape (ShInt ty) (SHashable (SInteger ty v))
| shape_string s : hash_writable (SString s) -> has_shape ShString (SHashable (SString s))
| shape_bytes b : all_bytes b -> has_shape ShBytes (SHashable (SBytes b))
| shape_dict fields vals : Forall2 has_shape fields vals -> has_shape (ShDict fields) (SStaticDict vals).

Section shape_induction.
Variable P : Shape -> Prop.
Hypothesis Hint : forall ty, P (ShInt ty).
Hypothesis Hstring : P ShString.
Hypothesis Hbytes : P ShBytes.
Hypothesis Hdict : forall fields, Forall P fields -> P (ShDict fields).

Fixpoint shape_nested_ind (sh : Shape) : P sh :=
  let all := fix all (l : list Shape) : Forall P l :=
    match l with
    | [] => Forall_nil_2 P
    | x :: l' => Forall_cons_2 P x l' (shape_nested_ind x) (all l')
    end in
  match sh with
  | ShInt ty => Hint ty
  | ShString => Hstring
  | ShBytes => Hbytes
  | ShDict fields => Hdict fields (all fields)
  end.
End shape_induction.

Lemma dict_items_read (all : list (Typed Object)) ps encs vals : Forall3 reads_as ps encs vals ->
  forall n fuel c rest acc, drop n all = ps -> (length (concat encs) < fuel)%nat ->
  CatStaticDictParser.ProcDictItems (fun i => nth i all FailingParser) (length all) fuel
    (ISM.at_ c (concat encs ++ rest)) (zlen (concat encs)) n acc =
  Ok (acc ++ vals, ISM.at_ (adv_count c (length (concat encs))) rest).
Proof.
  induction 1 as [|p bs v ps encs vals (b0 & tl & t & x & -> & _ & Hd & Hr) _ IH]; intros n fuel c rest acc Hn Hf.
  { destruct fuel; [cbn in Hf; lia|]. apply (f_equal length) in Hn. rewrite length_drop in Hn. cbn -[Nat.ltb] in Hn |- *.
    by rewrite (proj2 (Nat.ltb_ge n (length all))), app_nil_r by lia. }
  assert (n < length all)%nat as Hlt by (apply (f_equal length) in Hn; rewrite length_drop in Hn; cbn in Hn; lia).
  assert (nth n all FailingParser = p) as Hp.
  { rewrite <-(take_drop n all), Hn, app_nth2; rewrite length_take; [|lia]. by rewrite (Nat.min_l n), Nat.sub_diag by lia. }
  cbn [concat] in *. rewrite length_app in *. destruct fuel as [|fuel]; [lia|]. rewrite Nat2Z.inj_add. cbn [length] in *.
  cbn [CatStaticDictParser.ProcDictItems]. rewrite (proj2 (Z.leb_gt _ _)) by lia. rewrite <-app_assoc, <-app_comm_cons, ISM.adv_cons.
  cbn -[CatStaticDictParser.ProcDictItems Z.sub Z.of_nat Z.add Nat.leb nth]. rewrite Hd.
  cbn -[CatStaticDictParser.ProcDictItems Z.sub Z.of_nat Z.add Nat.leb nth]. rewrite (proj2 (Nat.leb_gt _ _)) by lia.
  rewrite Hp. rewrite Hr by lia. cbn [mbind result_bind].
  replace (Z.of_nat (S (length tl)) + zlen (concat encs) - 1 - zlen tl) with (zlen (concat encs)) by lia.
  rewrite IH; [|by rewrite <-Nat.add_1_r, <-drop_drop, Hn|lia].
  rewrite <-app_assoc, adv_count_add, adv_count_S. done.
Qed.

Lemma static_dict_read all encs vals f : Forall3 reads_as all encs vals ->
  let bs := EncodeRlpList.SerializeBytes (SerializeCatId CatStaticDict :: concat encs) in
  fits 64 (zlen bs) -> (length bs <= f)%nat ->
  reads_as (CatStaticDictParser.Parse (fun i => nth i all FailingParser) (length all) f) bs (SStaticDict vals).
Proof.
  intros Hi bs Hfit Hl. pose proof (list_bytes_fits _ Hfit) as [Hp Hlt]. fold bs in Hlt. cbn [length] in Hp, Hlt.
  destruct (list_header _ Hp) as (b0 & tl & t & x & E & _ & _ & Hty & Hd & Hh).
  exists b0, (tl ++ SerializeCatId CatStaticDict :: concat encs), t, x. unfold bs, EncodeRlpList.SerializeBytes. cbn [length]. rewrite E.
  split_and!; [done|done|done|]. intros c rest bl Hbl. rewrite length_app, Nat2Z.inj_add in *. cbn [length] in *.
  unfold CatStaticDictParser.Parse. rewrite <-app_assoc, Hh by lia. cbn -[CatStaticDictParser.ProcDictItems CatStaticDictParser.ParseSpecs Z.sub Z.of_nat].
  unfold ParserBase.CheckByteLeft. rewrite (proj2 (Z.ltb_ge _ _)) by lia.
  cbn -[CatStaticDictParser.ProcDictItems CatStaticDictParser.ParseSpecs Z.sub Z.of_nat].
  unfold CatStaticDictParser.ParseSpecs, ParseAt, ParserBase.CheckByteLeft. rewrite (proj2 (Z.ltb_ge _ _)) by lia.
  cbn -[CatStaticDictParser.ProcDictItems ISM.GetByteAndAdv Z.sub Z.of_nat]. rewrite ISM.adv_cons.
  cbn -[CatStaticDictParser.ProcDictItems Z.sub Z.of_nat].
  replace (Z.of_nat (S (length (concat encs))) - 1) with (zlen (concat encs)) by lia.
  rewrite (dict_items_read all all encs vals Hi 0 f) by (done || lia). cbn -[Z.sub Z.of_nat adv_count].
  rewrite adv_count_S, adv_count_add. unfold is_cat. rewrite bool_decide_eq_true_2 by done. cbn -[Z.sub Z.of_nat adv_count].
  do 2 f_equal. lia.
Qed.

(** The claim about one shape. *)
Definition shape_read (sh : Shape) : Prop := forall o, has_shape sh o -> exists bs, GenericWriter.Write o = Ok bs /\
  forall f, fits 64 (zlen bs) -> (length bs <= f)%nat -> reads_as (ShapeParser sh f) bs o.

Lemma scalar_read transform h : hash_writable h -> (forall pos vals, transformed h pos vals -> transform pos vals = Ok (SHashable h)) ->
  exists bs, WriteHashable h = Ok bs /\
    forall f, fits 64 (zlen bs) -> (length bs <= f)%nat -> reads_as (PrimitiveParser transform f) bs (SHashable h).
Proof.
  intros Hh Ht. destruct (Write_hashable_ok h Hh) as [bs Hbs]. exists bs. split; [done|]. intros f Hfit Hl.
  destruct (hash_read FailingParser h bs Hh Hbs Hfit) as (encs & vals & -> & Hi & Hv). apply list_bytes_fits in Hfit as Hp.
  eapply list_read; [exact Hi|intros pos; apply Ht, Hv|done|lia].
Qed.

Lemma fields_read fields vals : Forall shape_read fields -> Forall2 has_shape fields vals ->
  exists encs, map GenericWriter.Write vals = map Ok encs /\
    forall f, fits 64 (zlen (concat encs)) -> (length (concat encs) <= f)%nat ->
      Forall3 reads_as (map (fun sh => ShapeParser sh f) fields) encs vals.
Proof.
  intros Hf Hv. induction Hv as [|sh o fields vals Ho _ IH]; [by exists []; repeat constructor|].
  apply Forall_cons in Hf as [Hsh Hf]. destruct (Hsh o Ho) as (b & Hb & Hr), (IH Hf) as (encs & He & Hrs). exists (b :: encs). cbn [map concat].
  rewrite Hb, He. split; [done|]. intros f. rewrite length_app. intros Hfit Hl. constructor; [apply Hr|apply Hrs]; first [word_lia|lia].
Qed.

Lemma shapes_read sh : shape_read sh.
Proof.
  induction sh as [ty| | |fields IH] using shape_nested_ind; intros o Ho; inversion Ho as [ty' v Hv|s Hs|b Hb|fs vals Hvs]; subst;
    cbn [GenericWriter.Write ShapeParser]; try by apply scalar_read.
  destruct (fields_read fields vals IH Hvs) as (encs & -> & Hr). rewrite concat_bytes_ok. cbn [mbind result_bind].
  eexists. split; [done|]. intros f Hfit Hl. apply list_bytes_fits in Hfit as Hp. cbn [length] in Hp.
  rewrite <-(length_map (fun sh => ShapeParser sh f) fields). apply static_dict_read; [apply Hr; [word_lia|lia]|done|done].
Qed.

Lemma has_shape_bytes sh : forall o, has_shape sh o -> writes_bytes o.
Proof.
  induction sh as [ty| | |fields IH] using shape_nested_ind; intros o Ho bs Hwr;
    inversion Ho as [ty' v Hv|s Hs|b Hb|fs vals Hvs]; subst;
    try (eapply hash_written_bytes; [|exact Hwr]; done).
  cbn [GenericWriter.Write] in Hwr. bind_ok Hwr. injection Hwr as <-. apply concat_bytes_inv in E as (encs & He & ->).
  apply list_written_bytes, all_bytes_cons. split; [by vm_compute|]. eapply items_written_bytes; [|exact He].
  clear -IH Hvs. induction Hvs as [|sh o fields vals Ho _ IHv]; [constructor|]. apply Forall_cons in IH as [Hsh IH].
  constructor; [by apply Hsh|by apply IHv].
Qed.

(** What the parser of a shape gives back is of the shape, whatever the bytes. *)
Inductive of_shape : Shape -> Object -> Prop :=
| of_int ty v : of_shape (ShInt ty) (SHashable (SInteger ty v))
| of_string s : of_shape ShString (SHashable (SString s))
| of_bytes b : of_shape ShBytes (SHashable (SBytes b))
| of_dict fields vals : Forall2 of_shape fields vals -> of_shape (ShDict fields) (SStaticDict vals).

Definition gives {A} (P : A -> Prop) (tp : Typed A) : Prop :=
  forall ism t x bl v ism' bl', tp ism t x bl = Ok (v, ism', bl') -> P v.

Lemma ListParser_gives {A} lp (transform : Z -> list Object -> result AdvError A) fuel P :
  (forall pos l v, transform pos l = Ok v -> P v) -> gives P (ListParser_.Parse lp transform fuel).
Proof.
  intros Ht ism t x bl v ism' bl' H. unfold ListParser_.Parse in H. bind_ok H. destruct a as [[size i1] bl1]. bind_ok H. bind_ok H.
  destruct a0 as [obj i2]. bind_ok H. injection H as <- _ _. by eapply Ht.
Qed.

Lemma TransformCatBytes_gives pos l v : TransformCatBytes pos l = Ok v -> of_shape ShBytes v.
Proof. intros H. unfold TransformCatBytes in H. bind_ok H. bind_ok H. bind_ok H. injection H as <-. constructor. Qed.

Lemma TransformCatString_gives pos l v : TransformCatString pos l = Ok v -> of_shape ShString v.
Proof.
  intros H. unfold TransformCatString in H. do 4 bind_ok H. case_match; [|done]. bind_ok H. injection H as <-. constructor.
Qed.

Lemma TransformCatInteger_gives ty pos l v : TransformCatInteger (SpecificIntConverter ty) pos l = Ok v -> of_shape (ShInt ty) v.
Proof.
  intros H. unfold TransformCatInteger in H. bind_ok H. unfold SpecificIntConverter in H. case_decide; [|done]. injection H as <-. constructor.
Qed.

Lemma ProcDictItems_gives fields (parsers : nat -> Typed Object) n :
  (forall i sh, fields !! i = Some sh -> gives (of_shape sh) (parsers i)) -> n = length fields ->
  forall fuel ism size k acc res ism', Forall2 of_shape (take k fields) acc -> (k <= n)%nat ->
  CatStaticDictParser.ProcDictItems parsers n fuel ism size k acc = Ok (res, ism') -> Forall2 of_shape fields res.
Proof.
  intros Hp Hn fuel. induction fuel as [|fuel IH]; intros ism size k acc res ism' Hacc Hk H; [done|].
  cbn [CatStaticDictParser.ProcDictItems] in H. destruct (size <=? 0).
  - destruct (Nat.ltb_spec k n); [done|]. injection H as <- _. by rewrite take_ge in Hacc by lia.
  - bind_ok H. destruct a as [b i1]. bind_ok H. destruct a as [t x]. destruct (Nat.leb_spec n k); [done|].
    bind_ok H. destruct a as [[o i2] sz]. destruct (lookup_lt_is_Some_2 fields k) as [sh Hsh]; [lia|].
    eapply (IH i2 sz (S k)); [|lia|exact H]. rewrite (take_S_r _ _ sh) by done. apply Forall2_app; [done|].
    apply Forall2_cons. split; [by eapply Hp|constructor].
Qed.

Lemma shapes_give sh : forall fuel, gives (of_shape sh) (ShapeParser sh fuel).
Proof.
  induction sh as [ty| | |fields IH] using shape_nested_ind; intros fuel; cbn [ShapeParser].
  - apply ListParser_gives, TransformCatInteger_gives.
  - apply ListParser_gives, TransformCatString_gives.
  - apply ListParser_gives, TransformCatBytes_gives.
  - intros ism t x bl v ism' bl' H. unfold CatStaticDictParser.Parse in H. bind_ok H. destruct a as [[size i1] bl1]. bind_ok H. bind_ok H.
    destruct a0 as [[specs i2] sz]. bind_ok H. bind_ok H. destruct a1 as [res i3]. injection H as <- _ _. constructor.
    eapply (ProcDictItems_gives fields); [|done| | |exact E3]; [|by rewrite take_0|lia].
    intros i sh Hsh. cbn beta. erewrite nth_lookup_Some; [|by rewrite list_lookup_fmap, Hsh].
    rewrite Forall_forall in IH. apply IH. by eapply list_elem_of_lookup_2.
Qed.

Lemma ParseCtn_gives {A} (P : A -> Prop) (tp : Typed A) bs v : gives P tp -> ParseCtn tp bs = Ok v -> P v.
Proof.
  intros Hg H. unfold ParseCtn in H. bind_ok H. bind_ok H. destruct a0 as [[res i] sz]. case_match; [done|]. injection H as <-.
  unfold ParseAt in E0. bind_ok E0. bind_ok E0. destruct a1 as [b i1]. bind_ok E0. destruct a1 as [t x]. by eapply Hg.
Qed.

(** ** Canonical form *)

Lemma keys_ok_perm (ks ks' : list Hashable) : ks ≡ₚ ks' -> keys_ok ks -> keys_ok ks'.
Proof.
  intros Hp [Hl|(k & rs & Hr & Hn)]; [left; by rewrite <-Hp|]. right. apply (Permutation_map rank) in Hp as Hq. rewrite Hr in Hq.
  apply Permutation_sym, Permutation_map_inv in Hq as (rs' & Hr' & Hrs). exists k, rs'. split; [done|]. by rewrite <-Hrs.
Qed.

(** A value and its canonical form are written alike. *)
Lemma canon_written o : writable o -> GenericWriter.Write (canon o) = GenericWriter.Write o.
Proof.
  induction o as [h|l IH|d IH|l IH] using object_nested_ind; intros Hw; inversion Hw as [h' Hh|l' Hall|d' Hk Hall]; subst; [done|..].
  - cbn [canon GenericWriter.Write]. rewrite map_map. do 2 f_equal. apply map_ext_in. intros o Ho%list_elem_of_In.
    rewrite Forall_forall in IH, Hall. auto.
  - destruct (sort_pairs_spec d Hk) as (r & Hr & Hp & Hs). rewrite (canon_pairs d r Hr). cbn [GenericWriter.Write].
    rewrite !sort_pairs_map, Hr. assert (keys_ok (map fst r)) as Hk' by (eapply keys_ok_perm; [|exact Hk]; by apply Permutation_map).
    rewrite <-(sort_pairs_perm d r Hk (Permutation_sym Hp) Hk'), Hr. cbn [fmap result_fmap mbind result_bind].
    do 4 f_equal. rewrite map_map. apply map_ext_in. intros p Hin%list_elem_of_In. rewrite Hp in Hin. cbn. f_equal.
    rewrite Forall_forall in IH, Hall. apply IH, Hall; done.
Qed.

(** ** Properties *)

(** The bytes are canonical: two values are written as the same bytes exactly
    when they differ in nothing but the order of the pairs of their dictionaries. *)
Lemma written_alike o1 o2 bs : writable o1 -> writable o2 -> GenericWriter.Write o1 = Ok bs -> fits 64 (zlen bs) ->
  GenericWriter.Write o2 = Ok bs <-> canon o1 = canon o2.
Proof.
  intros H1 H2 Hbs Hfit. split; intros H.
  - assert (forall o, writable o -> GenericWriter.Write o = Ok bs -> Parse bs = Ok (canon o)) as Hr.
    { intros o Hw Ho. apply ParseCtn_read, (writable_read o Hw); [done|done|lia]. }
    pose proof (Hr o1 H1 Hbs) as E1. rewrite (Hr o2 H2 H) in E1. congruence.
  - by rewrite <-(canon_written o2 H2), <-H, (canon_written o1 H1).
Qed.

(** C28. What the generic writer serialises, the generic parser reads back: every
    value it can represent (scalars, lists, and dictionaries whose keys have an
    order, nested in any way) is written, and unless the bytes exceed the machine's
    address space parsing them gives the value with each dictionary in the order
    of its keys, and the bytes are canonical: any other value is written as the
    same bytes exactly when it differs in nothing but the order in which the hash
    maps of its dictionaries iterate. *)
Theorem advrlp_roundtrip o : writable o ->
  exists bs, GenericWriter.Write o = Ok bs /\ (fits 64 (zlen bs) -> Parse bs = Ok (canon o) /\
    forall o', writable o' -> GenericWriter.Write o' = Ok bs <-> canon o = canon o').
Proof.
  intros Hw. destruct (writable_written o Hw) as [bs Hbs]. exists bs. split; [done|]. intros Hfit. split.
  - apply ParseCtn_read, (writable_read o Hw); [done|done|lia].
  - intros o' Hw'. by apply written_alike.
Qed.

(** The messages with a fixed shape: a static dictionary is written, and the
    parser generated from its shape reads the same fields in the same order, at
    any nesting of shapes; and whatever bytes a peer sends, a result of that
    parser has exactly the fields of the shape, each of its type (no field is
    missing, none is extra, no integer has another width or sign). *)
Theorem static_dict_roundtrip sh :
  (forall o, has_shape sh o -> exists bs, GenericWriter.Write o = Ok bs /\ (fits 64 (zlen bs) -> ParseShape sh bs = Ok o)) /\
  (forall bs o, ParseShape sh bs = Ok o -> of_shape sh o).
Proof.
  split.
  - intros o Ho. destruct (shapes_read sh o Ho) as (bs & Hbs & Hr). exists bs. split; [done|]. intros Hfit.
    apply ParseCtn_read, Hr; [done|lia].
  - intros bs o. apply ParseCtn_gives, shapes_give.
Qed.

(** ** Behaviour at the edges *)

(** A peer's message with a UTF-8 character cut short makes the decoder read
    past the end of the received bytes. *)
Lemma truncated_string_read_past : Parse [0xC5; 0x82; 0x08; 0x00; 0x81; 0xC3] = Throw (UtfErr PastTheEnd).
Proof. reflexivity. Qed.

(** The least integer of a small type is written, and then refused by the parser;
    that of a wider type cannot be written. *)
Lemma least_integer :
  (GenericWriter.Write (SHashable (SInteger Int8 (-128))) ≫= Parse =
   Throw (AdvParseError "The integer received exceeds the range of the targeting signed integer" 7)) /\
  GenericWriter.Write (SHashable (SInteger Int32 (-2147483648))) = Throw (UndefinedBehaviour "signed overflow").
Proof. split; reflexivity. Qed.

(** A dictionary with a null key among others cannot be written; with other keys
    of different kinds neither. *)
Lemma mixed_keys :
  GenericWriter.Write (SDict [(SNull, SList []); (SString [0x61], SList [])]) = Throw (UnsupportedOperation "<").
Proof. reflexivity. Qed.

(** ** Witnesses *)

Definition sample_dict (swap : bool) : Object :=
  let p := (SString [0x62], SHashable (SInteger Int16 (-300))) in
  let q := (SString [0x61], SList [SHashable SNull; SHashable (SBool true)]) in
  SDict (if swap then [q; p] else [p; q]).

Lemma sample_writable swap : writable (sample_dict swap).
Proof.
  constructor.
  - right. exists 1%nat. destruct swap; [exists [[0x61]; [0x62]]|exists [[0x62]; [0x61]]]; (split; [done|]);
      repeat constructor; set_solver.
  - assert (hash_writable (SString [0x62]) /\ writable (SHashable (SInteger Int16 (-300)))) as Hp
      by (split; [by repeat constructor|by constructor]).
    assert (hash_writable (SString [0x61]) /\ writable (SList [SHashable SNull; SHashable (SBool true)])) as Hq
      by (split; [by repeat constructor|by repeat constructor]).
    destruct swap; by repeat apply Forall_cons_2.
Qed.

Lemma advrlp_roundtrip_witness :
  exists bs, GenericWriter.Write (sample_dict false) = Ok bs /\ (fits 64 (zlen bs) -> Parse bs = Ok (sample_dict true) /\
    GenericWriter.Write (sample_dict true) = Ok bs).
Proof.
  destruct (advrlp_roundtrip (sample_dict false) (sample_writable false)) as (bs & Hbs & H). exists bs. split; [exact Hbs|].
  intros Hf. destruct (H Hf) as [Hp Hc]. split; [exact Hp|]. apply Hc; [apply sample_writable|reflexivity].
Defined.

Lemma static_dict_roundtrip_witness :
  exists bs, GenericWriter.Write (SStaticDict [SHashable (SString [0x61]); SHashable (SInteger UInt64 7)]) = Ok bs /\
    (fits 64 (zlen bs) -> ParseShape (ShDict [ShString; ShInt UInt64]) bs = Ok (SStaticDict [SHashable (SString [0x61]); SHashable (SInteger UInt64 7)])).
Proof. apply static_dict_roundtrip. repeat constructor; by vm_compute. Defined.
