(* ===== verification/Json.v ===== *)
(** * JSON

    [libs/SimpleJson]: the parser of generic objects with the input state machine
    it reads from ([InputStateMachine.hpp], [GenericObjectParser.hpp] and the
    parsers it calls), and the writer of objects with its configuration
    ([ObjectWriter.hpp] and the writers it calls).  The attestation reports, the
    requests to the attestation service and those to the Ethereum client are
    JSON.  A [char] is its eight bits. *)

From stdpp Require Import strings.
From S2P Require Import Prelude Utf AdvRlp AdvRlpTheorems.

(** [double] with the two conversions the library calls: [atof] of the standard
    library, and the vendored shortest-digits printer. *)
Class DoubleOps := { Double : Type; atof : list Z -> Double; dtoa : Double -> list Z }.

(** ** Values

    The objects that can be keys are those of AdvancedRlp.  A [Dict] is the list
    of its pairs in the iteration order of the map, which the language leaves
    open; a [StaticDict] is the list of its named values. *)
Inductive Json `{DoubleOps} :=
| JHash (h : Hashable) | JReal (d : Double) | JList (l : list Json)
| JDict (d : list (Hashable * Json)) | JStaticDict (d : list (Hashable * Json)).

Section json_induction.
Context `{DoubleOps} (P : Json -> Prop).
Hypothesis Hhash : forall h, P (JHash h).
Hypothesis Hreal : forall d, P (JReal d).
Hypothesis Hlist : forall l, Forall P l -> P (JList l).
Hypothesis Hdict : forall d, Forall (fun p => P p.2) d -> P (JDict d).
Hypothesis Hstatic : forall d, Forall (fun p => P p.2) d -> P (JStaticDict d).

Fixpoint json_nested_ind (v : Json) : P v :=
  let vals := fix vals (d : list (Hashable * Json)) : Forall (fun p => P p.2) d :=
    match d with
    | [] => Forall_nil_2 _
    | p :: d' => Forall_cons_2 (fun p => P p.2) p d' (json_nested_ind p.2) (vals d')
    end in
  match v with
  | JHash h => Hhash h
  | JReal d => Hreal d
  | JList l => Hlist l ((fix all (l : list Json) : Forall P l :=
      match l with [] => Forall_nil_2 P | x :: l' => Forall_cons_2 P x l' (json_nested_ind x) (all l') end) l)
  | JDict d => Hdict d (vals d)
  | JStaticDict d => Hstatic d (vals d)
  end.
End json_induction.

(** [InsertOrAssign] of a dictionary: the value of a key that is there is
    replaced. *)
Section assign.
Context {A : Type}.
Fixpoint InsertOrAssign (d : list (Hashable * A)) (key : Hashable) (val : A) : list (Hashable * A) :=
  match d with
  | [] => [(key, val)]
  | (k, v) :: d => if obj_eqb k key then (k, val) :: d else (k, v) :: InsertOrAssign d key val
  end.

(** [FindVal]. *)
Fixpoint FindVal (d : list (Hashable * A)) (key : Hashable) : option A :=
  match d with
  | [] => None
  | (k, v) :: d => if obj_eqb k key then Some v else FindVal d key
  end.
End assign.

(** ** Exceptions

    [ParseError] has the position of the state machine.  The others are a UTF
    error of the writer, an exception of the objects, and [atoll] of a number
    that is no [long long], which the language leaves undefined. *)
Inductive JsonError :=
| ParseError (issue : string) (lineNum colNum : Z)
| SerializeTypeError (typeName : string)
| JsonUtf (e : UtfError)
| JsonObj (e : AdvError)
| AtollRange
| JsonOutOfFuel.

#[export] Instance JsonError_eq_dec : EqDecision JsonError.
Proof. solve_decision. Defined.

(** ** The input state machine

    [ForwardIteratorStateMachine]: the range still to read, whose first element
    is [m_current], and the position. *)
Record ISM := mkISM { m_begin : list Z; m_lineNum : Z; m_colNum : Z }.

Abbreviation parser := (stx ISM JsonError).

Definition fail {A} (issue : string) : parser A := fun s => (s, Throw (ParseError issue (m_lineNum s) (m_colNum s))).

Definition throw {A} (e : JsonError) : parser A := fun s => (s, Throw e).

Module ForwardISM.
Definition Create (begin : list Z) : result JsonError ISM :=
  match begin with
  | [] => Throw (ParseError "Input string ends unexpectedly" 0 0)
  | _ => Ok (mkISM begin 0 0)
  end.

Definition IsEnd : parser bool := fun s => (s, Ok (match m_begin s with [] => true | _ => false end)).
Definition NewLine (s : ISM) : ISM := mkISM (m_begin s) (u64 (m_lineNum s + 1)) 0.
Definition Advance (s : ISM) : ISM := mkISM (tail (m_begin s)) (m_lineNum s) (u64 (m_colNum s + 1)).

Definition IsSpaceCh (ch : Z) : bool :=
  (ch =? 32) || (ch =? 13) || (ch =? 10) || (ch =? 9) || (ch =? 11) || (ch =? 12).

Definition EndsUnexpectedly {A} : parser A := fail "Input string ends unexpectedly".

(** A carriage return and the line feed after it are one line end. *)
Fixpoint SkipSpaces (begin : list Z) (s : ISM) : ISM :=
  match begin with
  | [] => s
  | c :: rest =>
    if negb (IsSpaceCh c) then s
    else if c =? 13 then
      let s := Advance s in
      match rest with
      | c' :: rest' => if c' =? 10 then SkipSpaces rest' (NewLine (Advance s)) else SkipSpaces rest (NewLine s)
      | [] => NewLine s
      end
    else if c =? 10 then SkipSpaces rest (NewLine (Advance s))
    else SkipSpaces rest (Advance s)
  end.
Definition SkipWhiteSpace : parser () := fun s => (SkipSpaces (m_begin s) s, Ok ()).

Definition GetChar : parser Z := fun s =>
  match m_begin s with c :: _ => (s, Ok c) | [] => EndsUnexpectedly s end.

Definition GetCharAndAdv : parser Z := fun s =>
  match m_begin s with
  | [] => EndsUnexpectedly s
  | res :: rest =>
    let s := Advance s in
    let line_end := (res =? 10) || (res =? 13) && match rest with [] => true | c :: _ => negb (c =? 10) end in
    (if line_end then NewLine s else s, Ok res)
  end.

Definition SkipSpaceAndGetChar : parser Z := _ ← SkipWhiteSpace; GetChar.

(** The character is not a space, so that the position is only advanced. *)
Definition CurrentAndAdv : parser Z := fun s =>
  match m_begin s with res :: _ => (Advance s, Ok res) | [] => EndsUnexpectedly s end.
Definition SkipSpaceAndGetCharAndAdv : parser Z :=
  _ ← SkipWhiteSpace;
  CurrentAndAdv.

Definition ExpDelimiter (d : Z) : parser () :=
  ch ← SkipSpaceAndGetCharAndAdv;
  if negb (ch =? d) then fail ("Expecting '" +:+ String (Ascii.ascii_of_N (Z.to_N d)) "' delimiter") else mret ().
End ForwardISM.
Import ForwardISM.

(** ** Parsing the scalars *)

(** The characters expected one after the other. *)
Fixpoint ExpChars (chs : list Z) : parser () :=
  match chs with
  | [] => mret ()
  | c :: chs => ch ← GetCharAndAdv; if ch =? c then ExpChars chs else fail "Unexpected character"
  end.

Section parser.
Context `{DoubleOps}.

Definition NullParser : parser Json :=
  ch ← SkipSpaceAndGetCharAndAdv;
  if ch =? 110 then _ ← ExpChars [117; 108; 108]; mret (JHash SNull) else fail "Unexpected character".

Definition BoolParser : parser Json :=
  firstCh ← SkipSpaceAndGetCharAndAdv;
  if firstCh =? 102 then _ ← ExpChars [97; 108; 115; 101]; mret (JHash (SBool false))
  else if firstCh =? 116 then _ ← ExpChars [114; 117; 101]; mret (JHash (SBool true))
  else fail "Unexpected character".

(** *** Numbers *)

Definition IsDigitCh (ch : Z) : bool := (48 <=? ch) && (ch <=? 57).

(** [ParseNSign<true>]. *)
Definition ParseNSign : parser bool :=
  ch ← GetChar;
  if ch =? 45 then _ ← GetCharAndAdv; mret false else mret true.

(** [ParseNorPSign<true>]. *)
Definition ParseNorPSign : parser bool :=
  ch ← GetChar;
  if ch =? 45 then _ ← GetCharAndAdv; mret false
  else if ch =? 43 then _ ← GetCharAndAdv; mret true
  else mret true.

(** [len] digits were read; every turn takes a character. *)
Fixpoint ParseNumDigits_loop (fuel len : nat) : parser (list Z) :=
  isEnd ← IsEnd;
  if (isEnd : bool) then if (len =? 0)%nat then fail "Unexpected Ends" else mret []
  else
    ch ← GetChar;
    if IsDigitCh ch then
      match fuel with
      | O => throw JsonOutOfFuel
      | S fuel => d ← GetCharAndAdv; rest ← ParseNumDigits_loop fuel (S len); mret (d :: rest)
      end
    else if (len =? 0)%nat then fail "Expecting a numeric value" else mret [].
Definition ParseNumDigits : parser (list Z) := fun s => ParseNumDigits_loop (length (m_begin s)) 0 s.

Definition ParseInt : parser (list Z) :=
  ch ← GetChar;
  if ch =? 48 then d ← GetCharAndAdv; mret [d]
  else if IsDigitCh ch then ParseNumDigits
  else fail "Expecting a numeric value".

(** [ParseFrac<true>]. *)
Definition ParseFrac : parser (list Z) :=
  isEnd ← IsEnd;
  if (isEnd : bool) then mret []
  else
    ch ← GetChar;
    if ch =? 46 then _ ← GetCharAndAdv; ds ← ParseNumDigits; mret (46 :: ds) else mret [].

(** [ParseExp<true>]. *)
Definition ParseExp : parser (list Z) :=
  isEnd ← IsEnd;
  if (isEnd : bool) then mret []
  else
    ch ← GetChar;
    if (ch =? 101) || (ch =? 69) then
      _ ← GetCharAndAdv;
      pos ← ParseNorPSign;
      ds ← ParseNumDigits;
      mret (101 :: (if (pos : bool) then [] else [45]) ++ ds)
    else mret [].

Definition ParseNum : parser (list Z * list Z) :=
  pos ← ParseNSign;
  i ← ParseInt;
  f ← ParseFrac;
  e ← ParseExp;
  mret ((if (pos : bool) then [] else [45]) ++ i, f ++ e).

(** [atoll] of a sign and digits. *)
Definition dec_val (ds : list Z) : Z := fold_left (fun v d => v * 10 + (d - 48)) ds 0.
Definition atoll (str : list Z) : option Z :=
  let v := match str with c :: ds => if c =? 45 then - dec_val ds else dec_val str | [] => 0 end in
  if (int_min Int64 <=? v) && (v <=? int_max Int64) then Some v else None.

Definition GenericNumberParser : parser Json :=
  _ ← SkipWhiteSpace;
  '(iRes, fRes) ← ParseNum;
  match fRes with
  | _ :: _ => mret (JReal (atof (iRes ++ fRes)))
  | [] =>
    match atoll (iRes ++ fRes) with
    | Some val => mret (JHash (SInteger Int64 val))
    | None => throw AtollRange
    end
  end.

(** *** Strings *)

(** A UTF exception becomes a parse error at the position; a read past the end of
    a range does not. *)
Definition TryUtf {A} (r : result UtfError A) : parser A :=
  match r with
  | Ok a => mret a
  | Throw (UtfConversionException what) => fail ("Invalid Unicode - " +:+ what)
  | Throw e => throw (JsonUtf e)
  end.

Fixpoint ParseUXXXX_loop (n : nat) (res : Z) : parser Z :=
  match n with
  | O => mret res
  | S n =>
    let res := u16 (Z.shiftl res 4) in
    ch ← GetCharAndAdv;
    if IsDigitCh ch then ParseUXXXX_loop n (Z.lor res (u8 (ch - 48)))
    else if (65 <=? ch) && (ch <=? 70) then ParseUXXXX_loop n (Z.lor res (u8 (ch - 65 + 0xa)))
    else if (97 <=? ch) && (ch <=? 102) then ParseUXXXX_loop n (Z.lor res (u8 (ch - 97 + 0xa)))
    else fail "Invalid \uXXXX escape"
  end.
Definition ParseUXXXX : parser Z := ParseUXXXX_loop 4 0.

Definition ParseEscapeUXXXX : parser Z :=
  _ ← ExpChars [92; 117];
  ParseUXXXX.

(** What an escape sequence stands for. *)
Definition ParseEscapeSomething : parser (list Z) :=
  ch ← GetCharAndAdv;
  if ch =? 34 then mret [34]
  else if ch =? 92 then mret [92]
  else if ch =? 47 then mret [47]
  else if ch =? 98 then mret [8]
  else if ch =? 102 then mret [12]
  else if ch =? 110 then mret [10]
  else if ch =? 114 then mret [13]
  else if ch =? 116 then mret [9]
  else if ch =? 117 then
    pair0 ← ParseUXXXX;
    pair ← (if IsUtf16SurrogateFirst pair0 then pair1 ← ParseEscapeUXXXX; mret [pair0; pair1] else mret [pair0]);
    TryUtf (Utf16ToUtf8 pair)
  else fail "Unexpected character".

Fixpoint GetChars (n : nat) : parser (list Z) :=
  match n with
  | O => mret []
  | S n => c ← GetCharAndAdv; cs ← GetChars n; mret (c :: cs)
  end.

(** A character that is not ASCII. *)
Definition ParseUtf8Char (ch : Z) : parser (list Z) :=
  '(contCount, _) ← TryUtf (Utf8ReadLeading ch);
  tmp ← GetChars contCount;
  '(out, _) ← TryUtf (UtfConvertOnce Utf8ToCodePtOnce CodePtToUtf8Once (ch :: tmp));
  mret out.

(** Every turn takes a character. *)
Fixpoint StringParser_loop (fuel : nat) : parser (list Z) :=
  match fuel with
  | O => throw JsonOutOfFuel
  | S fuel =>
    ch ← GetCharAndAdv;
    if ch =? 34 then mret []
    else
      out ← (if ch =? 92 then ParseEscapeSomething
             else if AsciiTraits.IsAsciiFast ch then mret [ch]
             else ParseUtf8Char ch);
      rest ← StringParser_loop fuel;
      mret (out ++ rest)
  end.

Definition StringParser : parser (list Z) :=
  ch ← SkipSpaceAndGetCharAndAdv;
  if ch =? 34 then (fun s => StringParser_loop (S (length (m_begin s))) s) : parser (list Z) else fail "Unexpected character".

(** ** Lists, dictionaries and generic objects *)

(** The items after the first and the end of a container; [fuel] bounds their
    number. *)
Section items.
Context {A : Type} (item : A -> parser A) (close : Z).

Fixpoint Items_loop (fuel : nat) (l : A) : parser A :=
  ch ← SkipSpaceAndGetChar;
  if ch =? 44 then
    match fuel with
    | O => throw JsonOutOfFuel
    | S fuel => _ ← GetCharAndAdv; l ← item l; Items_loop fuel l
    end
  else if ch =? close then _ ← GetCharAndAdv; mret l
  else fail "Unexpected character".

Definition Items (open : Z) (fuel : nat) (l : A) : parser A :=
  ch ← SkipSpaceAndGetCharAndAdv;
  if ch =? open then
    ch ← SkipSpaceAndGetChar;
    if ch =? close then _ ← GetCharAndAdv; mret l
    else l ← item l; Items_loop fuel l
  else fail "Unexpected character".
End items.

Definition ListParser (itemParser : parser Json) (fuel : nat) : parser (list Json) :=
  Items (fun l => v ← itemParser; mret (l ++ [v])) 93 91 fuel [].

Definition DictParser (valParser : parser Json) (fuel : nat) : parser (list (Hashable * Json)) :=
  Items (fun d => k ← StringParser; _ ← ExpDelimiter 58; v ← valParser; mret (InsertOrAssign d (SString k) v)) 125 123 fuel [].

(** [GenericObjectParserImpl::Parse]; the code recurses as deep as the input is
    nested, and [fuel] bounds the depth. *)
Fixpoint GenericObjectParser (fuel : nat) : parser Json :=
  match fuel with
  | O => throw JsonOutOfFuel
  | S fuel =>
    ch ← SkipSpaceAndGetChar;
    if ch =? 110 then NullParser
    else if (ch =? 116) || (ch =? 102) then BoolParser
    else if (ch =? 45) || IsDigitCh ch then GenericNumberParser
    else if ch =? 34 then s ← StringParser; mret (JHash (SString s))
    else if ch =? 91 then l ← ListParser (GenericObjectParser fuel) fuel; mret (JList l)
    else if ch =? 123 then d ← DictParser (GenericObjectParser fuel) fuel; mret (JDict d)
    else fail "Unexpected character"
  end.

(** [ParserBase::Parse] of a container: what follows the object is not read. *)
Definition Parse (ctn : list Z) : result JsonError Json :=
  ism ← Create ctn;
  (GenericObjectParser (S (length ctn)) ism).2.

Definition ParseTillEnd (ctn : list Z) : result JsonError Json :=
  ism ← Create ctn;
  ((res ← GenericObjectParser (S (length ctn));
   _ ← SkipWhiteSpace;
   isEnd ← IsEnd;
   if (isEnd : bool) then mret res else fail "Extra Data") ism).2.

Definition LoadStr (str : list Z) : result JsonError Json := ParseTillEnd str.
End parser.

(** ** The writer *)

Record WriterConfig := mkWriterConfig { m_indent : list Z; m_lineEnd : list Z; m_orderDict : bool }.
Definition DefaultConfig : WriterConfig := mkWriterConfig [] [10] false.

Definition utf_j {A} (r : result UtfError A) : result JsonError A :=
  match r with Ok a => Ok a | Throw e => Throw (JsonUtf e) end.
Definition obj_j {A} (r : result AdvError A) : result JsonError A :=
  match r with Ok a => Ok a | Throw e => Throw (JsonObj e) end.

(** A digit of the upper-case alphabet. *)
Definition hex_char (nibble : Z) : Z := if nibble <? 10 then 48 + nibble else 55 + nibble.

Definition WriteUXXXX (val : Z) : list Z :=
  map hex_char [Z.land (Z.shiftr val 12) 0x0F; Z.land (Z.shiftr val 8) 0x0F;
                Z.land (Z.shiftr val 4) 0x0F; Z.land (Z.shiftr val 0) 0x0F].

(** The [switch] on an ASCII character. *)
Definition WriteAscii (ch : Z) : list Z :=
  if ch =? 34 then [92; 34] else if ch =? 92 then [92; 92] else if ch =? 47 then [92; 47]
  else if ch =? 8 then [92; 98] else if ch =? 12 then [92; 102] else if ch =? 10 then [92; 110]
  else if ch =? 13 then [92; 114] else if ch =? 9 then [92; 116] else [ch].

(** [contCount] characters after the current one; the end is not checked. *)
Fixpoint ReadConts (n : nat) (it : list Z) : result UtfError (list Z * list Z) :=
  match n with
  | O => Ok ([], it)
  | S n => '(c, it) ← deref it; '(cs, it) ← ReadConts n it; Ok (c :: cs, it)
  end.

(** Every turn takes a character. *)
Fixpoint StringWriter_loop (fuel : nat) (it : list Z) : result JsonError (list Z) :=
  match it, fuel with
  | [], _ => Ok []
  | _, O => Throw JsonOutOfFuel
  | ch :: it, S fuel =>
    if AsciiTraits.IsAsciiFast ch then rest ← StringWriter_loop fuel it; Ok (WriteAscii ch ++ rest)
    else
      '(contCount, _) ← utf_j (Utf8ReadLeading ch);
      '(tmp, it) ← utf_j (ReadConts contCount it);
      '(codePt, _) ← utf_j (Utf8ToCodePtOnce (ch :: tmp));
      pair ← utf_j (CodePtToUtf16Once codePt);
      (* an array of two, the second of which is zero if it is not written *)
      let pair0 := pair !!! 0%nat in
      let pair1 := default 0 (pair !! 1%nat) in
      rest ← StringWriter_loop fuel it;
      Ok ([92; 117] ++ WriteUXXXX pair0 ++
          (if IsUtf16SurrogateFirst pair0 then [92; 117] ++ WriteUXXXX pair1 else []) ++ rest)
  end.

Definition StringWriter (obj : list Z) : result JsonError (list Z) :=
  s ← StringWriter_loop (length obj) obj;
  Ok ([34] ++ s ++ [34]).

(** [std::to_string]; the integers have at most twenty digits. *)
Fixpoint dec_digits (fuel : nat) (n : Z) : list Z :=
  match fuel with
  | O => []
  | S fuel => if n <? 10 then [48 + n] else dec_digits fuel (n / 10) ++ [48 + n mod 10]
  end.
Definition to_string (n : Z) : list Z := if n <? 0 then 45 :: dec_digits 20 (- n) else dec_digits 20 n.

Definition WriteNull : list Z := [110; 117; 108; 108].
Definition WriteBool (b : bool) : list Z := if b then [116; 114; 117; 101] else [102; 97; 108; 115; 101].

(** [JsonWriterKeyImpl]. *)
Definition KeyWriter (h : Hashable) : result JsonError (list Z) :=
  match h with
  | SNull => Ok ([34] ++ WriteNull ++ [34])
  | SBool b => Ok ([34] ++ WriteBool b ++ [34])
  | SInteger _ v => Ok ([34] ++ to_string v ++ [34])
  | SString s => StringWriter s
  | SBytes _ => Throw (SerializeTypeError "Bytes")
  end.

Section writer.
Context `{DoubleOps} (config : WriterConfig).

Definition indented : bool := match m_indent config with [] => false | _ => true end.

(** [RepeatOutput] of the indentation. *)
Definition Indent (level : nat) : list Z := if indented then concat (replicate level (m_indent config)) else [].
Definition LineEnd : list Z := if indented then m_lineEnd config else [].

(** The lines of the items of a container: a comma after all but the last. *)
Fixpoint WriteItems (level : nat) (items : list (result JsonError (list Z))) : result JsonError (list Z) :=
  match items with
  | [] => Ok []
  | item :: items =>
    s ← item;
    rest ← WriteItems level items;
    Ok (Indent level ++ s ++ match items with [] => [] | _ => [44] end ++ LineEnd ++ rest)
  end.

(** The writers of lists and of dictionaries around their items. *)
Definition WriteContainer (open close : Z) (level : nat) (items : list (result JsonError (list Z))) : result JsonError (list Z) :=
  s ← WriteItems (S level) items;
  Ok ([open] ++ (match items with [] => [] | _ => LineEnd end) ++ s ++ (match items with [] => [] | _ => Indent level end) ++ [close]).

Definition Colon : list Z := if indented then [32; 58; 32] else [58].

(** A key and what its value is written as. *)
Definition WritePair (p : Hashable * result JsonError (list Z)) : result JsonError (list Z) :=
  k ← KeyWriter p.1; v ← p.2; Ok (k ++ Colon ++ v).

(** [JsonWriterObjectImpl::Write] at a nesting level. *)
Fixpoint Write (level : nat) (obj : Json) : result JsonError (list Z) :=
  match obj with
  | JHash SNull => Ok WriteNull
  | JHash (SBool b) => Ok (WriteBool b)
  | JHash (SInteger _ v) => Ok (to_string v)
  | JHash (SString s) => StringWriter s
  | JHash (SBytes _) => Throw (SerializeTypeError "Bytes")
  | JReal d => Ok (dtoa d)
  | JList l => WriteContainer 91 93 level (map (Write (S level)) l)
  | JDict d =>
    let pairs := map (fun p => (p.1, Write (S level) p.2)) d in
    pairs ← (if m_orderDict config then obj_j (sort_pairs pairs) else Ok pairs);
    WriteContainer 123 125 level (map WritePair pairs)
  | JStaticDict d => WriteContainer 123 125 level (map (fun p => WritePair (p.1, Write (S level) p.2)) d)
  end.

Definition DumpStr (obj : Json) : result JsonError (list Z) := Write 0 obj.
End writer.
