(* ===== verification/JsonTheorems.v ===== *)
(** * JSON: what is written is read back

    The writer and the parser of [Json.v] are inverse: a value whose strings are
    UTF-8 and whose keys are strings is written, under any configuration, as text
    that the parser reads back; what the parser returns is such a value, and the
    parser always ends. *)

From stdpp Require Import strings sorting.
From S2P Require Import Prelude Utf AdvRlp AdvRlpTheorems Json.
Import ForwardISM.

(** ** Runs that succeed

    [step p b a b']: on the range [b], at any position, [p] returns [a] and
    leaves [b']. *)
Definition step {A} (p : parser A) (b : list Z) (a : A) (b' : list Z) : Prop :=
  forall s, m_begin s = b -> exists s', p s = (s', Ok a) /\ m_begin s' = b'.

Lemma step_ret {A} (a : A) b : step (mret a) b a b.
Proof. intros s Hs. by exists s. Qed.

Lemma step_bind {A B} (p : parser A) (f : A -> parser B) b a b1 c b2 :
  step p b a b1 -> step (f a) b1 c b2 -> step (p ≫= f) b c b2.
Proof.
  intros H1 H2 s Hs. destruct (H1 s Hs) as (s1 & E1 & Hs1). destruct (H2 s1 Hs1) as (s2 & E2 & Hs2).
  exists s2. split; [|done]. unfold mbind, stx_bind. by rewrite E1.
Qed.

Lemma step_GetChar c r : step GetChar (c :: r) c (c :: r).
Proof. intros s Hs. exists s. unfold GetChar. by rewrite Hs. Qed.

Lemma step_GetCharAndAdv c r : step GetCharAndAdv (c :: r) c r.
Proof. intros s Hs. unfold GetCharAndAdv. rewrite Hs. eexists. split; [reflexivity|]. case_match; cbn; by rewrite Hs. Qed.

Lemma step_CurrentAndAdv c r : step CurrentAndAdv (c :: r) c r.
Proof. intros s Hs. unfold CurrentAndAdv. rewrite Hs. eexists. split; [reflexivity|]. cbn. by rewrite Hs. Qed.

Lemma step_IsEnd b : step IsEnd b (match b with [] => true | _ => false end) b.
Proof. intros s <-. by exists s. Qed.

Create HintDb step.
#[export] Hint Resolve step_ret step_GetChar step_GetCharAndAdv step_CurrentAndAdv step_IsEnd : step.

(** Run the first call of a sequence. *)
Ltac do_step := eapply step_bind; [by eauto with step|]; cbv beta iota.

(** ** White space *)

Fixpoint drop_ws (b : list Z) : list Z :=
  match b with c :: r => if IsSpaceCh c then drop_ws r else b | [] => [] end.

Definition spaces (ws : list Z) : Prop := Forall (fun c => IsSpaceCh c = true) ws.

Lemma SkipSpaces_begin b s : m_begin s = b -> m_begin (SkipSpaces b s) = drop_ws b.
Proof.
  remember (length b) as n eqn:Hn. revert b s Hn. induction n as [n IH] using lt_wf_ind. intros [|c r] s -> Hs; [done|].
  cbn [SkipSpaces drop_ws]. destruct (IsSpaceCh c) eqn:Ec; cbn [negb]; [|done]. cbn [length] in IH.
  assert (m_begin (Advance s) = r) as Ha by (cbn; by rewrite Hs).
  destruct (Z.eqb_spec c 13) as [->|]; [|by destruct (c =? 10); apply (IH (length r)); try done; lia].
  destruct r as [|c' r']; [by cbn; rewrite Hs|]. destruct (Z.eqb_spec c' 10) as [->|]; [|by apply (IH (length (c' :: r'))); try done; lia].
  change (drop_ws (10 :: r')) with (drop_ws r'). apply (IH (length r')); [cbn [length]; lia|done|]. cbn. by rewrite Hs.
Qed.

Lemma drop_ws_app ws r : spaces ws -> drop_ws (ws ++ r) = drop_ws r.
Proof. induction 1 as [|c ws Hc _ IH]; [done|]. cbn [app drop_ws]. by rewrite Hc. Qed.

Lemma step_SkipWhiteSpace b : step SkipWhiteSpace b () (drop_ws b).
Proof. intros s Hs. unfold SkipWhiteSpace. eexists. split; [reflexivity|]. rewrite Hs. by apply SkipSpaces_begin. Qed.

(** A range that begins with white space and a character [c] that is none. *)
Lemma step_skip ws c r : spaces ws -> IsSpaceCh c = false -> step SkipWhiteSpace (ws ++ c :: r) () (c :: r).
Proof. intros Hw Hc. replace (c :: r) with (drop_ws (ws ++ c :: r)) at 2; [apply step_SkipWhiteSpace|]. rewrite drop_ws_app by done. cbn. by rewrite Hc. Qed.

Lemma step_SkipSpaceAndGetChar ws c r : spaces ws -> IsSpaceCh c = false ->
  step SkipSpaceAndGetChar (ws ++ c :: r) c (c :: r).
Proof. intros Hw Hc. eapply step_bind; [by apply step_skip|]. apply step_GetChar. Qed.

Lemma step_SkipSpaceAndGetCharAndAdv ws c r : spaces ws -> IsSpaceCh c = false ->
  step SkipSpaceAndGetCharAndAdv (ws ++ c :: r) c r.
Proof. intros Hw Hc. eapply step_bind; [by apply step_skip|]. apply step_CurrentAndAdv. Qed.

Lemma step_ExpChars chs r : step (ExpChars chs) (chs ++ r) () r.
Proof. induction chs as [|c chs IH]; [apply step_ret|]. cbn [ExpChars app]. do_step. by rewrite Z.eqb_refl. Qed.

(** What follows a value: the end, a comma, the end of a container or white space. *)
Definition ends (rest : list Z) : Prop :=
  match rest with [] => True | c :: _ => c = 44 \/ c = 93 \/ c = 125 \/ IsSpaceCh c = true end.

(** [p] reads a value written as [t], after any white space and before what
    ends a value. *)
Definition reads {A} (p : parser A) (t : list Z) (a : A) : Prop :=
  forall ws rest, spaces ws -> ends rest -> step p (ws ++ t ++ rest) a rest.

Lemma spaces_app a b : spaces a -> spaces b -> spaces (a ++ b).
Proof. apply Forall_app_2. Qed.
Lemma spaces_nil : spaces [].
Proof. constructor. Qed.

(** ** Numbers *)

Definition digits (ds : list Z) : Prop := Forall (fun c => IsDigitCh c = true) ds.

(** What follows a number. *)
Definition no_number (rest : list Z) : Prop :=
  match rest with [] => True | c :: _ => IsDigitCh c = false /\ c <> 46 /\ c <> 101 /\ c <> 69 end.

Lemma ends_no_number rest : ends rest -> no_number rest.
Proof.
  destruct rest as [|c r]; [done|]. cbn. unfold IsDigitCh, IsSpaceCh.
  intros [-> | [-> | [-> | H]]]; [by vm_compute..|]. rewrite !orb_true_iff, !Z.eqb_eq in H.
  destruct H as [[[[[-> | ->] | ->] | ->] | ->] | ->]; by vm_compute.
Qed.

Lemma step_NumDigits_loop ds fuel len rest : digits ds -> (length ds <= fuel)%nat -> (0 < len + length ds)%nat ->
  match rest with [] => True | c :: _ => IsDigitCh c = false end -> step (ParseNumDigits_loop fuel len) (ds ++ rest) ds rest.
Proof.
  intros Hd. revert fuel len. induction Hd as [|d ds Hd _ IH]; intros fuel len Hf Hl Hr.
  - cbn [length] in Hl. assert ((len =? 0)%nat = false) as E by (apply Nat.eqb_neq; lia).
    destruct fuel; cbn [ParseNumDigits_loop app]; (do_step; destruct rest as [|c r]; [rewrite E; apply step_ret|];
      do_step; rewrite Hr, E; apply step_ret).
  - destruct fuel as [|fuel]; [cbn in Hf; lia|]. cbn [ParseNumDigits_loop app]. do_step. do_step. rewrite Hd.
    do_step. eapply step_bind; [apply (IH fuel (S len)); [cbn in Hf; lia|lia|done]|]. apply step_ret.
Qed.

Lemma step_NumDigits ds rest : digits ds -> ds <> [] ->
  match rest with [] => True | c :: _ => IsDigitCh c = false end -> step ParseNumDigits (ds ++ rest) ds rest.
Proof.
  intros Hd Hne Hr s Hs. unfold ParseNumDigits. rewrite Hs.
  apply step_NumDigits_loop; try done; rewrite ?length_app; [lia|]. destruct ds; [done|cbn; lia].
Qed.

(** The parts of a number: digits without a leading zero, a fraction, an
    exponent. *)
Definition int_part (i : list Z) : Prop := i = [48] \/ digits i /\ exists d ds, i = d :: ds /\ d <> 48.
Definition frac_part (f : list Z) : Prop := f = [] \/ exists ds, f = 46 :: ds /\ ds <> [] /\ digits ds.
Definition exp_part (e : list Z) : Prop := e = [] \/
  exists neg ds, e = 101 :: (if (neg : bool) then [45] else []) ++ ds /\ ds <> [] /\ digits ds.

Lemma step_ParseInt i rest : int_part i -> (i <> [48] -> match rest with [] => True | c :: _ => IsDigitCh c = false end) ->
  step ParseInt (i ++ rest) i rest.
Proof.
  intros [->|(Hd & d & ds & -> & Hz)] Hr; unfold ParseInt; cbn [app]; do_step; [do_step; apply step_ret|].
  rewrite (proj2 (Z.eqb_neq _ _)), (Forall_inv Hd) by done. apply (step_NumDigits (d :: ds)); [done|done|].
  apply Hr. intros [= -> _]. done.
Qed.

Lemma frac_head f rest : frac_part f -> match rest with [] => True | c :: _ => IsDigitCh c = false end ->
  match f ++ rest with [] => True | c :: _ => IsDigitCh c = false end.
Proof. by intros [->|(ds & -> & _)] H. Qed.

Lemma exp_head e rest : exp_part e -> no_number rest ->
  match e ++ rest with [] => True | c :: _ => IsDigitCh c = false /\ c <> 46 end.
Proof. intros [->|(neg & ds & -> & _)] H; [destruct rest; [done|]; by destruct H as (? & ? & _)|done]. Qed.

Lemma step_ParseFrac f rest : frac_part f -> match rest with [] => True | c :: _ => IsDigitCh c = false /\ c <> 46 end ->
  step ParseFrac (f ++ rest) f rest.
Proof.
  intros [->|(ds & -> & Hne & Hd)] Hr; unfold ParseFrac; cbn [app].
  - do_step. destruct rest as [|c r]; [apply step_ret|]. do_step. rewrite (proj2 (Z.eqb_neq _ _)) by apply Hr. apply step_ret.
  - do_step. do_step. do_step. eapply step_bind; [apply step_NumDigits; [done|done|by destruct rest; [|destruct Hr]]|]. apply step_ret.
Qed.

Lemma step_ParseExp e rest : exp_part e -> no_number rest -> step ParseExp (e ++ rest) e rest.
Proof.
  intros [->|(neg & ds & -> & Hne & Hd)] Hr; unfold ParseExp; cbn [app].
  - do_step. destruct rest as [|c r]; [apply step_ret|]. do_step. destruct Hr as (_ & _ & H1 & H2).
    rewrite !(proj2 (Z.eqb_neq _ _)) by done. apply step_ret.
  - do_step. do_step. do_step. destruct ds as [|d ds]; [done|]. pose proof (Forall_inv Hd) as H1. cbn beta in H1.
    assert (match rest with [] => True | c :: _ => IsDigitCh c = false end) as Hr' by (destruct rest; [done|by destruct Hr]).
    destruct neg; cbn [app]; unfold ParseNorPSign.
    + eapply step_bind; [do_step; do_step; apply step_ret|]. cbv beta iota.
      eapply step_bind; [by apply (step_NumDigits (d :: ds))|]. apply step_ret.
    + eapply step_bind; [do_step|].
      { rewrite !(proj2 (Z.eqb_neq _ _)) by (intros ->; done). apply step_ret. }
      cbv beta iota. eapply step_bind; [by apply (step_NumDigits (d :: ds))|]. apply step_ret.
Qed.

Definition sign (neg : bool) : list Z := if neg then [45] else [].

Lemma int_head i : int_part i -> exists d ds, i = d :: ds /\ IsDigitCh d = true.
Proof. intros [->|(Hd & d & ds & -> & _)]; [by exists 48, []|exists d, ds; split; [done|by apply Forall_inv in Hd]]. Qed.

Lemma step_ParseNum neg i f e rest : int_part i -> frac_part f -> exp_part e -> no_number rest ->
  step ParseNum (sign neg ++ i ++ f ++ e ++ rest) (sign neg ++ i, f ++ e) rest.
Proof.
  intros Hi Hf He Hr. unfold ParseNum. destruct (int_head i Hi) as (d & ds & Ei & Hd).
  eapply (step_bind _ _ _ (negb neg) (i ++ f ++ e ++ rest)).
  { unfold ParseNSign. destruct neg; cbn [sign app]; [do_step; do_step; apply step_ret|]. rewrite Ei. cbn [app]. do_step.
    rewrite (proj2 (Z.eqb_neq _ _)) by (intros ->; done). apply step_ret. }
  pose proof (exp_head e rest He Hr) as Hh.
  eapply step_bind.
  { apply step_ParseInt; [done|]. intros _. apply frac_head; [done|]. destruct (e ++ rest); [done|by destruct Hh]. }
  eapply step_bind; [by apply step_ParseFrac|]. eapply step_bind; [by apply step_ParseExp|].
  destruct neg; apply step_ret.
Qed.

(** The digits of an integer. *)
Lemma dec_digits_spec fuel n : 0 <= n < 10 ^ Z.of_nat fuel -> (0 < fuel)%nat ->
  digits (dec_digits fuel n) /\ dec_val (dec_digits fuel n) = n /\
  exists d ds, dec_digits fuel n = d :: ds /\ (n = 0 -> dec_digits fuel n = [48]) /\ (0 < n -> d <> 48).
Proof.
  revert n. induction fuel as [|fuel IH]; intros n Hn Hf; [lia|]. cbn [dec_digits].
  rewrite Nat2Z.inj_succ, Z.pow_succ_r in Hn by lia. destruct (Z.ltb_spec n 10).
  - split_and!; [|unfold dec_val; cbn; lia|].
    + apply Forall_singleton. unfold IsDigitCh. rewrite andb_true_iff, !Z.leb_le. lia.
    + exists (48 + n), []. split_and!; [done|by intros ->|lia].
  - destruct fuel as [|fuel]; [cbn in Hn; lia|].
    destruct (IH (n / 10)) as (Hd & Hv & d & ds & E & _ & Hz); [split; [mod_lia|apply Z.div_lt_upper_bound; lia]|lia|].
    split_and!.
    + apply Forall_app_2; [done|]. apply Forall_singleton. unfold IsDigitCh. rewrite andb_true_iff, !Z.leb_le. mod_lia.
    + unfold dec_val in *. rewrite fold_left_app. cbn [fold_left]. rewrite Hv. mod_lia.
    + rewrite E. exists d, (ds ++ [48 + n mod 10]). split_and!; [done|lia|]. intros _. apply Hz. mod_lia.
Qed.

Definition int64 (v : Z) : Prop := int_min Int64 <= v <= int_max Int64.

Lemma to_string_spec v : int64 v -> exists neg i, to_string v = sign neg ++ i /\ int_part i /\
  atoll (to_string v) = Some v.
Proof.
  unfold int64. change (int_min Int64) with (-9223372036854775808). change (int_max Int64) with 9223372036854775807. intros Hv.
  assert (forall n, 0 <= n <= 9223372036854775808 -> int_part (dec_digits 20 n) /\ dec_val (dec_digits 20 n) = n /\
    exists d ds, dec_digits 20 n = d :: ds /\ d <> 45) as H.
  { intros n Hn. destruct (dec_digits_spec 20 n) as (Hd & Hdv & d & ds & E & H0 & H1); [change (10 ^ Z.of_nat 20) with 100000000000000000000; lia|lia|].
    split_and!; [|done|].
    - destruct (Z.eq_dec n 0) as [->|]; [by left; apply H0|]. right. split; [done|]. exists d, ds. split; [done|]. apply H1. lia.
    - exists d, ds. split; [done|]. rewrite E in Hd. apply Forall_inv in Hd. intros ->. done. }
  unfold to_string, atoll. destruct (Z.ltb_spec v 0).
  - destruct (H (- v)) as (Hi & Hdv & _); [lia|]. exists true, (dec_digits 20 (- v)). split_and!; [done|done|].
    cbn [sign app]. rewrite Z.eqb_refl, Hdv, Z.opp_involutive. change (int_min Int64) with (-9223372036854775808).
    change (int_max Int64) with 9223372036854775807. rewrite !(proj2 (Z.leb_le _ _)) by lia. done.
  - destruct (H v) as (Hi & Hdv & d & ds & E & Hne); [lia|]. exists false, (dec_digits 20 v). split_and!; [done|done|].
    rewrite E in Hdv |- *. cbv beta iota zeta. rewrite (proj2 (Z.eqb_neq _ _)), Hdv by done. change (int_min Int64) with (-9223372036854775808).
    change (int_max Int64) with 9223372036854775807. rewrite !(proj2 (Z.leb_le _ _)) by lia. done.
Qed.

(** ** Strings *)

Lemma IsAsciiFast_byte b : is_byte b -> AsciiTraits.IsAsciiFast b = (b <? 128).
Proof. by_byte. Qed.

Lemma hex_char_read n : 0 <= n < 16 ->
  if IsDigitCh (hex_char n) then u8 (hex_char n - 48) = n
  else (65 <=? hex_char n) && (hex_char n <=? 70) = true /\ u8 (hex_char n - 65 + 0xa) = n.
Proof.
  intros Hn. unfold hex_char, IsDigitCh. destruct (Z.ltb_spec n 10).
  - rewrite (proj2 (andb_true_iff _ _)) by (rewrite !Z.leb_le; lia). rewrite wrap_small by (widths; lia). lia.
  - rewrite (proj2 (andb_false_iff _ _)) by (rewrite !Z.leb_gt; lia). rewrite (proj2 (andb_true_iff _ _)) by (rewrite !Z.leb_le; lia).
    split; [done|]. rewrite wrap_small by (widths; lia). lia.
Qed.

Lemma step_UXXXX_loop ns res r : Forall (fun n => 0 <= n < 16) ns -> 0 <= res ->
  res * 16 ^ zlen ns + 16 ^ zlen ns <= 2 ^ 16 ->
  step (ParseUXXXX_loop (length ns) res) (map hex_char ns ++ r) (fold_left (fun v n => v * 16 + n) ns res) r.
Proof.
  intros Hns. revert res. induction Hns as [|n ns Hn _ IH]; intros res H0 H; [apply step_ret|].
  cbn [length map app fold_left ParseUXXXX_loop] in *. rewrite Nat2Z.inj_succ, Z.pow_succ_r in H by lia.
  pose proof (Z.pow_pos_nonneg 16 (zlen ns) ltac:(lia) ltac:(lia)). change (2 ^ 16) with 65536 in *.
  assert (res * 16 + 16 <= 65536) as Hr by nia.
  assert (u16 (Z.shiftl res 4) = Z.shiftl res 4) as Es.
  { apply wrap_small. rewrite Z.shiftl_mul_pow2 by lia. change (2 ^ 4) with 16. widths. lia. }
  assert (forall m, m = n -> Z.lor (u16 (Z.shiftl res 4)) m = res * 16 + n) as Ev.
  { intros m ->. rewrite Es. apply lor_shiftl_add; [unfold fits; change (2 ^ 4) with 16; lia|done]. }
  do_step. pose proof (hex_char_read n Hn) as Hc. destruct (IsDigitCh (hex_char n)).
  - rewrite Ev by done. apply IH; nia.
  - destruct Hc as [-> Hc]. rewrite Ev by done. apply IH; nia.
Qed.

Lemma step_UXXXX v r : fits 16 v -> step ParseUXXXX (WriteUXXXX v ++ r) v r.
Proof.
  intros Hv. unfold WriteUXXXX, ParseUXXXX. change 4%nat with (length [Z.land (Z.shiftr v 12) 0x0F; Z.land (Z.shiftr v 8) 0x0F;
    Z.land (Z.shiftr v 4) 0x0F; Z.land (Z.shiftr v 0) 0x0F]).
  change 0x0F with (Z.ones 4). rewrite !land_ones_mod, !shiftr_div_pow2 by lia.
  change (2 ^ 12) with 4096. change (2 ^ 8) with 256. change (2 ^ 4) with 16. change (2 ^ 0) with 1.
  pose proof (step_UXXXX_loop [v / 4096 mod 16; v / 256 mod 16; v / 16 mod 16; v / 1 mod 16] 0 r) as H.
  replace (fold_left _ _ 0) with v in H by (cbn [fold_left]; widths; mod_lia).
  apply H; [|lia|by vm_compute]. repeat apply Forall_cons_2; try apply Forall_nil_2; mod_lia.
Qed.

(** What a code point is written as. *)
Definition esc (c : Z) : list Z :=
  if c <? 128 then WriteAscii c else concat (map (fun u => [92; 117] ++ WriteUXXXX u) (utf16 c)).

Lemma Utf16ToUtf8_one c : valid c -> Utf16ToUtf8 (utf16 c) = Ok (utf8 c).
Proof.
  intros Hv. unfold Utf16ToUtf8, UtfConvert. destruct (utf16 c) as [|u l] eqn:E; [by unfold utf16 in E; destruct (c <? _)|].
  cbn [length UtfConvert_loop]. unfold UtfConvertOnce. rewrite <-E.
  pose proof (utf16_decoded 16 c [] ltac:(lia) Hv) as H. rewrite app_nil_r in H. rewrite H. cbn [mbind result_bind].
  rewrite CodePtToUtf8Once_valid by done. cbn [mbind result_bind]. by destruct (length l); cbn; rewrite app_nil_r.
Qed.

Lemma utf16_first c : valid c -> 128 <= c ->
  (c < 0x10000 /\ utf16 c = [c] /\ fits 16 c /\ IsUtf16SurrogateFirst c = false) \/
  exists u1 u2, utf16 c = [u1; u2] /\ fits 16 u1 /\ fits 16 u2 /\ IsUtf16SurrogateFirst u1 = true.
Proof.
  intros Hv Hc. apply valid_iff in Hv. unfold utf16. destruct (Z.ltb_spec c 0x10000).
  - left. assert (fits 16 c) as Hf by (widths; lia). split_and!; [done|done|done|].
    rewrite (proj1 (surrogate_spec c Hf)). apply Z.eqb_neq. mod_lia.
  - right. eexists _, _. split; [done|]. assert (fits 16 (0xD800 + (c - 0x10000) / 1024)) as Hf by (widths; mod_lia).
    split_and!; [done|widths; mod_lia|]. rewrite (proj1 (surrogate_spec _ Hf)). apply Z.eqb_eq. mod_lia.
Qed.

Lemma step_escape c r : valid c -> 128 <= c -> step GetCharAndAdv (esc c ++ r) 92 (tail (esc c ++ r)) /\
  step ParseEscapeSomething (tail (esc c ++ r)) (utf8 c) r.
Proof.
  intros Hv Hc. unfold esc. rewrite (proj2 (Z.ltb_ge _ _)) by done. pose proof (Utf16ToUtf8_one c Hv) as Hu.
  destruct (utf16_first c Hv Hc) as [(_ & E & Hf & Hs)|(u1 & u2 & E & Hf1 & Hf2 & Hs)]; rewrite E in *;
    cbn [map concat app tail]; (split; [apply step_GetCharAndAdv|]); unfold ParseEscapeSomething; do_step; cbn [Z.eqb Pos.eqb].
  - eapply step_bind; [rewrite app_nil_r; by apply step_UXXXX|]. cbv beta. rewrite Hs. do_step. rewrite Hu. apply step_ret.
  - rewrite <-!app_assoc. eapply step_bind; [by apply step_UXXXX|]. cbv beta. rewrite Hs. cbn [app].
    eapply step_bind.
    { eapply step_bind; [|apply step_ret]. eapply step_bind; [apply (step_ExpChars [92; 117])|]. by apply step_UXXXX. }
    cbv beta. rewrite Hu. apply step_ret.
Qed.

Lemma ascii_read c r fuel out rest : 0 <= c < 128 -> step (StringParser_loop fuel) r out rest ->
  step (StringParser_loop (S fuel)) (WriteAscii c ++ r) (c :: out) rest.
Proof.
  intros Hc Hr. cbn [StringParser_loop]. unfold WriteAscii.
  repeat match goal with |- context [if c =? ?v then _ else _] =>
    destruct (Z.eqb_spec c v) as [->|?]; [do_step; cbn [Z.eqb Pos.eqb]; eapply step_bind;
      [unfold ParseEscapeSomething; do_step; apply step_ret|]; eapply step_bind; [exact Hr|]; apply step_ret|]
  end.
  cbn [app]. do_step. rewrite !(proj2 (Z.eqb_neq _ _)), IsAsciiFast_byte, (proj2 (Z.ltb_lt _ _)) by (done || widths; lia).
  do_step. eapply step_bind; [exact Hr|]. apply step_ret.
Qed.

(** The bytes of code points, and what they are written as. *)
Definition utf8s (cs : list Z) : list Z := concat (map utf8 cs).
Definition escs (cs : list Z) : list Z := concat (map esc cs).

Lemma string_read cs fuel rest : Forall valid cs -> (length cs < fuel)%nat ->
  step (StringParser_loop fuel) (escs cs ++ 34 :: rest) (utf8s cs) rest.
Proof.
  intros Hcs. revert fuel. induction Hcs as [|c cs Hc _ IH]; intros fuel Hf; (destruct fuel as [|fuel]; [cbn in Hf; lia|]).
  - cbn [escs map concat app StringParser_loop]. do_step. apply step_ret.
  - cbn [escs utf8s map concat]. fold (escs cs) (utf8s cs). rewrite <-app_assoc. cbn [length] in Hf.
    specialize (IH fuel ltac:(lia)). destruct (Z.ltb_spec c 128) as [Hlt|Hge].
    + unfold esc, utf8. rewrite (proj2 (Z.ltb_lt c 128)) by done. cbn [app].
      apply ascii_read; [|done]. apply valid_iff in Hc. lia.
    + destruct (step_escape c (escs cs ++ 34 :: rest) Hc Hge) as [H1 H2]. cbn [StringParser_loop].
      eapply step_bind; [exact H1|]. cbn [Z.eqb Pos.eqb]. eapply step_bind; [exact H2|]. eapply step_bind; [exact IH|]. apply step_ret.
Qed.

Lemma ReadConts_take l it : ReadConts (length l) (l ++ it) = Ok (l, it).
Proof. induction l as [|c l IH]; [done|]. cbn [length ReadConts app]. unfold deref. cbn [mbind result_bind]. by rewrite IH. Qed.

(** The first byte of a character that is not ASCII announces the others. *)
Lemma utf8_lead c : valid c -> 128 <= c -> exists b l m, utf8 c = b :: l /\ is_byte b /\ AsciiTraits.IsAsciiFast b = false /\
  Utf8ReadLeading b = Ok (length l, m).
Proof.
  intros Hv Hc. apply valid_iff in Hv. unfold utf8. rewrite (proj2 (Z.ltb_ge c 0x80)) by lia.
  assert (forall b l, is_byte b -> 128 <= b -> (exists m, Utf8ReadLeading b = Ok (length l, m)) ->
    exists b' l' m, b :: l = b' :: l' /\ is_byte b' /\ AsciiTraits.IsAsciiFast b' = false /\ Utf8ReadLeading b' = Ok (length l', m)) as H.
  { intros b l Hb Hge [m Hm]. exists b, l, m. split_and!; [done|done| |done]. rewrite IsAsciiFast_byte by done. apply Z.ltb_ge. lia. }
  destruct (Z.ltb_spec c 0x800); [|destruct (Z.ltb_spec c 0x10000)]; apply H; try (widths; mod_lia); try mod_lia;
    rewrite Utf8ReadLeading_byte by (widths; mod_lia); repeat match goal with |- context [?a <? ?b] => destruct (Z.ltb_spec a b); try (exfalso; mod_lia) end; eauto.
Qed.

Lemma string_written cs fuel : Forall valid cs -> (length (utf8s cs) <= fuel)%nat ->
  StringWriter_loop fuel (utf8s cs) = Ok (escs cs).
Proof.
  intros Hcs. revert fuel. induction Hcs as [|c cs Hc _ IH]; intros fuel Hf; [by destruct fuel|].
  cbn [escs utf8s map concat] in *. fold (escs cs) (utf8s cs) in *. rewrite length_app in Hf.
  destruct (Z.ltb_spec c 128) as [Hlt|Hge].
  - apply valid_iff in Hc as Hr. unfold utf8, esc in *. rewrite (proj2 (Z.ltb_lt c 128)) in * by lia.
    cbn [app length] in *. destruct fuel as [|fuel]; [lia|]. cbn [StringWriter_loop].
    rewrite IsAsciiFast_byte, (proj2 (Z.ltb_lt _ _)), IH by (widths; lia). done.
  - destruct (utf8_lead c Hc Hge) as (b & l & m & E & Hb & Ha & Hl). pose proof (utf8_decoded c [] Hc) as Hd.
    rewrite app_nil_r in Hd. unfold esc. rewrite E in *. rewrite (proj2 (Z.ltb_ge _ _)) by done. cbn [app length] in *.
    destruct fuel as [|fuel]; [lia|]. cbn [StringWriter_loop]. rewrite Ha, Hl. cbn [utf_j mbind result_bind].
    rewrite ReadConts_take. cbn [utf_j mbind result_bind]. rewrite Hd. cbn [utf_j mbind result_bind].
    rewrite CodePtToUtf16Once_valid by done. cbn [utf_j mbind result_bind]. rewrite IH by lia. cbn [mbind result_bind].
    destruct (utf16_first c Hc Hge) as [(_ & E2 & _ & Hs)|(u1 & u2 & E2 & _ & _ & Hs)]; rewrite E2; cbn [lookup_total list_lookup_total lookup list_lookup default];
      rewrite Hs; cbn [map concat app]; by rewrite ?app_nil_r, <-?app_assoc.
Qed.

(** A string of code points. *)
Definition utf8_string (s : list Z) : Prop := exists cs, Forall valid cs /\ s = utf8s cs.

Lemma string_step s : utf8_string s -> exists t, StringWriter s = Ok (34 :: t ++ [34]) /\
  forall ws rest, spaces ws -> step StringParser (ws ++ (34 :: t ++ [34]) ++ rest) s rest.
Proof.
  intros (cs & Hcs & ->). exists (escs cs). unfold StringWriter. rewrite string_written by done. split; [done|].
  intros ws rest Hw. replace ((34 :: escs cs ++ [34]) ++ rest) with (34 :: (escs cs ++ 34 :: rest)) by (cbn; by rewrite <-app_assoc).
  unfold StringParser. eapply step_bind; [by apply step_SkipSpaceAndGetCharAndAdv|]. cbn [Z.eqb Pos.eqb].
  intros s Hs. cbv beta. rewrite Hs. apply string_read; [done| |done].
  rewrite length_app. assert (length cs <= length (escs cs))%nat; [|lia].
  clear. induction cs as [|c cs IH]; [done|]. cbn [escs map concat]. fold (escs cs). rewrite length_app. cbn [length].
  assert (0 < length (esc c))%nat; [|lia]. unfold esc, WriteAscii, utf16. repeat case_match; cbn; lia.
Qed.

(** ** Values that can be written *)

Section values.
Context `{DoubleOps}.

(** The printer writes [d] as a JSON number with a fraction or an exponent, and
    [atof] reads it back. *)
Definition real_written (d : Double) : Prop := exists neg i f e,
  dtoa d = sign neg ++ i ++ f ++ e /\ int_part i /\ frac_part f /\ exp_part e /\ f ++ e <> [] /\ atof (dtoa d) = d.

Definition key_ok (h : Hashable) : Prop := exists s, h = SString s /\ utf8_string s.
Definition keys_distinct {A} (d : list (Hashable * A)) : Prop := Forall key_ok (map fst d) /\ NoDup (map fst d).

(** The values whose real numbers satisfy [R]. *)
Inductive json_ok (R : Double -> Prop) : Json -> Prop :=
| ok_null : json_ok R (JHash SNull)
| ok_bool b : json_ok R (JHash (SBool b))
| ok_int n : int64 n -> json_ok R (JHash (SInteger Int64 n))
| ok_string s : utf8_string s -> json_ok R (JHash (SString s))
| ok_real d : R d -> json_ok R (JReal d)
| ok_list l : Forall (json_ok R) l -> json_ok R (JList l)
| ok_dict d : keys_distinct d -> Forall (fun p => json_ok R p.2) d -> json_ok R (JDict d)
| ok_static d : keys_distinct d -> Forall (fun p => json_ok R p.2) d -> json_ok R (JStaticDict d).

(** What is read back: a static dictionary is read as a dictionary, and a
    dictionary written in the order of its keys in that order. *)
Fixpoint norm (ordered : bool) (v : Json) : Json :=
  match v with
  | JList l => JList (map (norm ordered) l)
  | JDict d =>
    let d := map (fun p => (p.1, norm ordered p.2)) d in
    JDict (if ordered then ok_or [] (sort_pairs d) else d)
  | JStaticDict d => JDict (map (fun p => (p.1, norm ordered p.2)) d)
  | _ => v
  end.

Lemma utf8_bytes s : utf8_string s -> all_bytes s.
Proof.
  intros (cs & Hcs & ->). induction Hcs as [|c cs Hc _ IH]; [constructor|]. cbn [utf8s map concat]. apply Forall_app_2; [|done].
  destruct (encode_valid c Hc) as (bs & E & _ & Hb & _). cbn [encode utf8_encoding] in E.
  rewrite CodePtToUtf8Once_valid in E by done. by injection E as ->.
Qed.

Lemma char_val_inj s t : all_bytes s -> all_bytes t -> map char_val s = map char_val t -> s = t.
Proof.
  intros Hs. revert t. induction Hs as [|x s Hx _ IH]; intros [|y t] Ht E; [done|done|done|]. apply all_bytes_cons in Ht as [Hy Ht].
  injection E as E1 E2. rewrite (IH t) by done. f_equal. revert E1. unfold char_val. widths. repeat case_match; lia.
Qed.

(** String keys have an order. *)
Lemma distinct_keys_ok {A} (d : list (Hashable * A)) : keys_distinct d -> keys_ok (map fst d).
Proof.
  intros [Hk Hn]. right. exists 1%nat. induction d as [|p d IH]; [exists []; by split; [|constructor]|].
  cbn [map] in *. apply Forall_cons in Hk as [(s & Es & Hs) Hk]. apply NoDup_cons in Hn as [Hnp Hn].
  destruct (IH Hk Hn) as (rs & E & Hr). exists (map char_val s :: rs). rewrite E, Es. split; [done|].
  apply NoDup_cons. split; [|done]. intros Hin. apply Hnp. rewrite Es.
  apply list_elem_of_In in Hin. pose proof (in_map (fun r => Some (1%nat, r)) rs _ Hin) as Hin'. rewrite <-E in Hin'.
  apply in_map_iff in Hin' as (h & Eh & Hh%list_elem_of_In). rewrite Forall_forall in Hk.
  destruct (Hk h Hh) as (t & -> & Ht). injection Eh as Eh. apply char_val_inj in Eh as ->; auto using utf8_bytes.
Qed.

Lemma obj_eqb_key h1 h2 : key_ok h1 -> key_ok h2 -> obj_eqb h1 h2 = bool_decide (h1 = h2).
Proof. intros (s & -> & _) (t & -> & _). cbn. apply bool_decide_ext. split; congruence. Qed.

(** Distinct keys are inserted one after the other. *)
Lemma InsertOrAssign_new {A} (d : list (Hashable * A)) k v : Forall key_ok (map fst d) -> key_ok k -> k ∉ map fst d ->
  InsertOrAssign d k v = d ++ [(k, v)].
Proof.
  intros Hd Hk Hn. induction d as [|[k' v'] d IH]; [done|]. cbn [InsertOrAssign map fst app] in *.
  apply Forall_cons in Hd as [Hk' Hd]. apply not_elem_of_cons in Hn as [Hne Hn].
  rewrite obj_eqb_key, bool_decide_eq_false_2 by congruence. by rewrite IH.
Qed.

Lemma distinct_map {A B} (f : A -> B) d : keys_distinct (map (fun p => (p.1, f p.2)) d) <-> keys_distinct d.
Proof. unfold keys_distinct. by rewrite map_map. Qed.

Lemma distinct_perm {A} (d1 d2 : list (Hashable * A)) : d1 ≡ₚ d2 -> keys_distinct d1 -> keys_distinct d2.
Proof. intros Hp [H1 H2]. split; [by rewrite <-Hp|]. eapply NoDup_Permutation_proper; [|exact H2]. by rewrite Hp. Qed.

(** ** Containers *)

Section containers.
Context (config : WriterConfig).
Hypothesis Hconfig : spaces (m_indent config) /\ spaces (m_lineEnd config).

Lemma Indent_spaces n : spaces (Indent config n).
Proof using Hconfig.
  destruct Hconfig as [Hi _]. unfold Indent. destruct (indented config); [|constructor].
  induction n as [|n IH]; [constructor|]. cbn. by apply spaces_app.
Qed.
Lemma LineEnd_spaces : spaces (LineEnd config).
Proof using Hconfig. destruct Hconfig as [_ Hl]. unfold LineEnd. destruct (indented config); [done|constructor]. Qed.

(** The text of items, and what follows the first. *)
Fixpoint body (level : nat) (ts : list (list Z)) : list Z :=
  match ts with
  | [] => []
  | t :: ts => Indent config level ++ t ++ match ts with [] => LineEnd config | _ => 44 :: LineEnd config ++ body level ts end
  end.
Definition after (level : nat) (ts : list (list Z)) : list Z :=
  match ts with [] => LineEnd config | _ => 44 :: LineEnd config ++ body level ts end.

Lemma body_cons level t ts : body level (t :: ts) = Indent config level ++ t ++ after level ts.
Proof. done. Qed.

Lemma WriteItems_body level ts : WriteItems config level (map Ok ts) = Ok (body level ts).
Proof.
  induction ts as [|t ts IH]; [done|]. cbn [map WriteItems mbind result_bind]. rewrite IH. cbn [mbind result_bind body].
  destruct ts as [|t' ts]; cbn [map app]; by rewrite ?app_nil_r.
Qed.

Lemma ends_close level (ts : list (list Z)) I close rest : close = 93 \/ close = 125 -> spaces I ->
  ends (after level ts ++ I ++ close :: rest).
Proof using Hconfig.
  intros Hc HI. unfold after. destruct ts; [|by left]. pose proof LineEnd_spaces as HL.
  destruct (LineEnd config) as [|x L]; [|by cbn; apply Forall_inv in HL; auto]. cbn.
  destruct I as [|x I]; [cbn; tauto|]. cbn. apply Forall_inv in HI. auto.
Qed.

(** [item] adds to a collection what it reads of a text. *)
Definition adds {A} (item : A -> parser A) (t : list Z) (f : A -> A) : Prop :=
  forall l ws rest, spaces ws -> ends rest -> step (item l) (ws ++ t ++ rest) (f l) rest.

Lemma items_loop_read {A} (item : A -> parser A) close level ts fs I l fuel rest : close = 93 \/ close = 125 ->
  spaces I -> Forall2 (adds item) ts fs -> (length ts <= fuel)%nat ->
  step (Items_loop item close fuel l) (after level ts ++ I ++ close :: rest) (fold_left (fun l f => f l) fs l) rest.
Proof using Hconfig.
  intros Hc HI Hts. revert l fuel. induction Hts as [|t f ts fs Ht Hts IH]; intros l fuel Hf.
  - change (after level []) with (LineEnd config). cbn [fold_left]. rewrite app_assoc.
    assert (step SkipSpaceAndGetChar ((LineEnd config ++ I) ++ close :: rest) close (close :: rest)) as H1.
    { apply step_SkipSpaceAndGetChar; [apply spaces_app; [apply LineEnd_spaces|done]|by destruct Hc as [-> | ->]]. }
    destruct fuel; cbn [Items_loop]; (eapply step_bind; [exact H1|]; rewrite (proj2 (Z.eqb_neq close 44)) by lia; rewrite Z.eqb_refl;
      do_step; apply step_ret).
  - destruct fuel as [|fuel]; [cbn in Hf; lia|]. cbn [fold_left Items_loop].
    change (after level (t :: ts)) with (44 :: LineEnd config ++ body level (t :: ts)). cbn [app].
    rewrite body_cons, <-!app_assoc, (app_assoc (LineEnd config)).
    eapply step_bind; [apply (step_SkipSpaceAndGetChar [] 44); [constructor|done]|]. cbn [Z.eqb Pos.eqb]. do_step.
    eapply step_bind; [apply Ht; [apply spaces_app; [apply LineEnd_spaces|apply Indent_spaces]|by apply ends_close]|].
    apply IH. cbn in Hf. lia.
Qed.

(** The text of a container. *)
Definition ctext (open close : Z) (level : nat) (ts : list (list Z)) : list Z :=
  open :: match ts with [] => [] | _ => LineEnd config ++ body (S level) ts ++ Indent config level end ++ [close].

Lemma WriteContainer_text open close level ts :
  WriteContainer config open close level (map Ok ts) = Ok (ctext open close level ts).
Proof.
  unfold WriteContainer, ctext. rewrite WriteItems_body. cbn [mbind result_bind app].
  destruct ts; [done|]. cbn [map]. by rewrite <-!app_assoc.
Qed.

Lemma body_length level t ts : t ∈ ts -> (length t <= length (body level ts))%nat.
Proof.
  induction ts as [|t' ts IH]; [by intros ?%not_elem_of_nil|]. rewrite body_cons, !length_app. intros [->|Hin]%elem_of_cons; [lia|].
  specialize (IH Hin). unfold after. destruct ts; [by apply not_elem_of_nil in Hin|]. cbn [length]. rewrite length_app. lia.
Qed.

Lemma ctext_length open close level ts t : t ∈ ts -> (length t + 2 <= length (ctext open close level ts))%nat.
Proof.
  intros Hin. pose proof (body_length (S level) t ts Hin). unfold ctext. destruct ts; [by apply not_elem_of_nil in Hin|].
  cbn [length]. rewrite !length_app. cbn [length]. lia.
Qed.

Lemma ctext_count open close level ts : (forall t, t ∈ ts -> t <> []) -> (length ts <= length (ctext open close level ts))%nat.
Proof.
  intros Hne. assert (length ts <= length (body (S level) ts))%nat as H1.
  { induction ts as [|t ts IH]; [done|]. rewrite body_cons, !length_app. cbn [length].
    specialize (IH ltac:(intros; apply Hne; by right)). pose proof (Hne t ltac:(left)) as Ht. unfold after.
    destruct t; [done|]. destruct ts; cbn [length] in *; rewrite ?length_app; lia. }
  unfold ctext. destruct ts; [cbn; lia|]. cbn [length] in *. rewrite !length_app. lia.
Qed.

Lemma json_container_read {A} (item : A -> parser A) open close level ts fs l fuel : close = 93 \/ close = 125 ->
  IsSpaceCh open = false -> Forall2 (adds item) ts fs -> (length ts <= fuel)%nat ->
  (forall t, t ∈ ts -> exists c r, t = c :: r /\ IsSpaceCh c = false /\ c <> close) ->
  reads (Items item close open fuel l) (ctext open close level ts) (fold_left (fun l f => f l) fs l).
Proof using Hconfig.
  intros Hc Ho Hts Hf Hheads. assert (IsSpaceCh close = false) as Hcs by by destruct Hc as [-> | ->].
  intros ws rest Hw Hr. unfold Items, ctext. cbn [app].
  destruct Hts as [|t f ts fs Ht Hts]; (eapply step_bind; [by apply step_SkipSpaceAndGetCharAndAdv|]); rewrite Z.eqb_refl.
  - cbn [app fold_left]. eapply step_bind; [apply (step_SkipSpaceAndGetChar [] close); [constructor|done]|].
    rewrite Z.eqb_refl. do_step. apply step_ret.
  - destruct (Hheads t ltac:(left)) as (c & r & Et & Hsp & Hne). rewrite body_cons, <-!app_assoc, (app_assoc (LineEnd config)).
    assert (spaces (LineEnd config ++ Indent config (S level))) as HI by (apply spaces_app; [apply LineEnd_spaces|apply Indent_spaces]).
    cbn [app]. rewrite Et at 1. cbn [app]. eapply step_bind; [by apply step_SkipSpaceAndGetChar|]. rewrite (proj2 (Z.eqb_neq _ _)) by done.
    change (c :: r ++ after (S level) ts ++ Indent config level ++ close :: rest) with
      ([] ++ (c :: r) ++ after (S level) ts ++ Indent config level ++ close :: rest). rewrite <-Et.
    eapply step_bind; [apply Ht; [constructor|by apply ends_close, Indent_spaces]|].
    cbn [fold_left]. apply items_loop_read; [done|apply Indent_spaces|done|cbn in Hf; lia].
Qed.

(** ** Values *)

(** [v] is written at every level as text the parser reads back. *)
Definition read_back (v : Json) : Prop := forall level, exists t, Write config level v = Ok t /\
  (exists c r, t = c :: r /\ IsSpaceCh c = false /\ c <> 93) /\
  forall fuel, (length t < fuel)%nat -> reads (GenericObjectParser fuel) t (norm (m_orderDict config) v).

(** The dispatch on the first character. *)
Lemma dispatch fuel c r a : IsSpaceCh c = false ->
  reads (if c =? 110 then NullParser else if (c =? 116) || (c =? 102) then BoolParser
         else if (c =? 45) || IsDigitCh c then GenericNumberParser
         else if c =? 34 then s ← StringParser; mret (JHash (SString s))
         else if c =? 91 then l ← ListParser (GenericObjectParser fuel) fuel; mret (JList l)
         else if c =? 123 then d ← DictParser (GenericObjectParser fuel) fuel; mret (JDict d)
         else fail "Unexpected character") (c :: r) a ->
  reads (GenericObjectParser (S fuel)) (c :: r) a.
Proof.
  intros Hc Hp ws rest Hw Hr. cbn [GenericObjectParser app]. eapply step_bind; [by apply step_SkipSpaceAndGetChar|].
  specialize (Hp [] rest ltac:(constructor) Hr). repeat case_match; exact Hp.
Qed.

Lemma json_number_read neg i f e v : int_part i -> frac_part f -> exp_part e ->
  match f ++ e with
  | [] => option_map (fun n => JHash (SInteger Int64 n)) (atoll (sign neg ++ i ++ f ++ e)) = Some v
  | _ => JReal (atof (sign neg ++ i ++ f ++ e)) = v
  end ->
  reads GenericNumberParser (sign neg ++ i ++ f ++ e) v.
Proof.
  intros Hi Hf He Hv ws rest Hw Hr. unfold GenericNumberParser.
  destruct (int_head i Hi) as (d & ds & Ei & Hd).
  assert (exists c r, sign neg ++ i ++ f ++ e = c :: r /\ IsSpaceCh c = false) as (c & r & Ec & Hc).
  { destruct neg; [by eexists _, _|]. rewrite Ei. eexists _, _. split; [reflexivity|].
    revert Hd. unfold IsDigitCh, IsSpaceCh. rewrite andb_true_iff, !Z.leb_le. intros [? ?].
    rewrite !(proj2 (Z.eqb_neq _ _)) by lia. done. }
  rewrite Ec. cbn [app]. eapply step_bind; [by apply step_skip|].
  change (c :: r ++ rest) with ((c :: r) ++ rest). rewrite <-Ec, <-!app_assoc.
  eapply step_bind; [apply step_ParseNum; try done; by apply ends_no_number|]. cbv beta iota.
  rewrite <-!app_assoc. destruct (f ++ e) as [|x l] eqn:Ef.
  - rewrite app_nil_r in *. destruct (atoll (sign neg ++ i)); [|done]. injection Hv as <-. apply step_ret.
  - rewrite Hv. apply step_ret.
Qed.

Lemma null_read : reads NullParser WriteNull (JHash SNull).
Proof.
  intros ws rest Hw Hr. unfold NullParser. eapply step_bind; [by apply step_SkipSpaceAndGetCharAndAdv|]. cbn [Z.eqb Pos.eqb].
  eapply step_bind; [apply (step_ExpChars [117; 108; 108])|]. apply step_ret.
Qed.

Lemma bool_read b : reads BoolParser (WriteBool b) (JHash (SBool b)).
Proof.
  intros ws rest Hw Hr. unfold BoolParser.
  destruct b; (eapply step_bind; [by apply step_SkipSpaceAndGetCharAndAdv|]); cbn [Z.eqb Pos.eqb].
  - eapply step_bind; [apply (step_ExpChars [114; 117; 101])|]. apply step_ret.
  - eapply step_bind; [apply (step_ExpChars [97; 108; 115; 101])|]. apply step_ret.
Qed.

(** A number is dispatched to its parser. *)
Lemma number_dispatch fuel neg i f e v : int_part i -> reads GenericNumberParser (sign neg ++ i ++ f ++ e) v ->
  (exists c r, sign neg ++ i ++ f ++ e = c :: r /\ IsSpaceCh c = false /\ c <> 93) /\
  reads (GenericObjectParser (S fuel)) (sign neg ++ i ++ f ++ e) v.
Proof.
  intros Hi Hp. destruct (int_head i Hi) as (d & ds & Ei & Hd).
  assert (exists c r, sign neg ++ i ++ f ++ e = c :: r /\ (c = 45 \/ IsDigitCh c = true)) as (c & r & Ec & Hc).
  { destruct neg; [by eexists _, _; auto|]. rewrite Ei. eexists _, _. cbn [sign app]. auto. }
  rewrite Ec in *. assert (IsSpaceCh c = false /\ c <> 93 /\ c <> 110 /\ c <> 116 /\ c <> 102) as (Hs & H93 & H1 & H2 & H3).
  { destruct Hc as [->|Hc]; [by vm_compute|]. unfold IsDigitCh in Hc. rewrite andb_true_iff, !Z.leb_le in Hc.
    unfold IsSpaceCh. rewrite !(proj2 (Z.eqb_neq _ _)) by lia. lia. }
  split; [by exists c, r|]. apply dispatch; [done|]. rewrite !(proj2 (Z.eqb_neq _ _)) by done. cbn [orb].
  destruct Hc as [->|Hc]; [done|]. rewrite Hc, orb_true_r. done.
Qed.

Lemma string_read_back s : utf8_string s -> read_back (JHash (SString s)).
Proof.
  intros Hs level. destruct (string_step s Hs) as (t & Hw & Hp). exists (34 :: t ++ [34]). split; [done|].
  split; [by eexists _, _|]. intros [|fuel] Hf; [lia|]. apply dispatch; [done|]. intros ws rest Hws Hr.
  eapply step_bind; [by apply (Hp ws rest)|]. apply step_ret.
Qed.

(** The texts of values that are read back. *)
Lemma read_back_texts (l : list Json) level : Forall read_back l -> exists ts, map (Write config level) l = map Ok ts /\
  Forall2 (fun t v => (exists c r, t = c :: r /\ IsSpaceCh c = false /\ c <> 93) /\
    forall fuel, (length t < fuel)%nat -> reads (GenericObjectParser fuel) t (norm (m_orderDict config) v)) ts l.
Proof.
  induction 1 as [|v l Hv _ (ts & E & Hts)]; [by exists []|]. destruct (Hv level) as (t & Et & Hh & Hp).
  exists (t :: ts). cbn [map]. rewrite Et, E. split; [done|]. by constructor.
Qed.

Lemma fold_snoc {A} (vs l : list A) : fold_left (fun l f => f l) (map (fun v l => l ++ [v]) vs) l = l ++ vs.
Proof. revert l. induction vs as [|v vs IH]; intros l; [by rewrite app_nil_r|]. cbn [map fold_left]. by rewrite IH, <-app_assoc. Qed.

Lemma fold_insert {A} (d acc : list (Hashable * A)) : keys_distinct (acc ++ d) ->
  fold_left (fun l f => f l) (map (fun p l => InsertOrAssign l p.1 p.2) d) acc = acc ++ d.
Proof.
  revert acc. induction d as [|[k v] d IH]; intros acc Hk; [by rewrite app_nil_r|]. cbn [map fold_left fst snd].
  pose proof Hk as [Hk1 Hk2]. rewrite map_app in Hk1, Hk2. cbn [map fst] in Hk1, Hk2.
  apply Forall_app in Hk1 as [Ha Hb]. apply Forall_cons in Hb as [Hb _].
  rewrite InsertOrAssign_new; [|done|done|].
  - rewrite IH; [by rewrite <-app_assoc|]. by rewrite <-app_assoc.
  - apply NoDup_app in Hk2 as (_ & Hn & _). intros Hin. apply (Hn k Hin). left.
Qed.

Lemma list_read_back l : Forall read_back l -> read_back (JList l).
Proof using Hconfig.
  intros Hl level. destruct (read_back_texts l (S level) Hl) as (ts & E & Hts). cbn [Write]. rewrite E, WriteContainer_text.
  eexists. split; [reflexivity|]. split; [by eexists _, _|]. intros [|fuel] Hf; [lia|]. apply dispatch; [done|]. cbn [Z.eqb Pos.eqb orb].
  cbn [norm]. intros ws rest Hw Hr. eapply step_bind; [|apply step_ret].
  replace (map (norm (m_orderDict config)) l) with
    (fold_left (fun l f => f l) (map (fun v l => l ++ [v]) (map (norm (m_orderDict config)) l)) []) by apply fold_snoc.
  change (91 :: match ts with [] => [] | _ => LineEnd config ++ body (S level) ts ++ Indent config level end ++ [93]) with
    (ctext 91 93 level ts) in *.
  apply (json_container_read (fun l => v ← GenericObjectParser fuel; mret (l ++ [v])) 91 93 level ts); try done; [by left| | |].
  - assert (forall t, t ∈ ts -> (length t + 2 < S fuel)%nat) as Hlen by (intros t Ht; pose proof (ctext_length 91 93 level ts t Ht); lia).
    clear - Hts Hlen. induction Hts as [|t v ts l [_ Hp] _ IH]; [constructor|]. cbn [map]. constructor; [|apply IH; intros; apply Hlen; by right].
    intros acc ws rest Hw Hr. eapply step_bind; [apply Hp; [|done|done]|apply step_ret]. specialize (Hlen t ltac:(left)). lia.
  - pose proof (ctext_count 91 93 level ts). apply Nat.lt_succ_r. eapply Nat.le_lt_trans; [apply H0|exact Hf].
    intros t Ht ->. apply list_elem_of_lookup_1 in Ht as [k Hk]. eapply Forall2_lookup_l in Hts as (v & _ & (c & r & ? & _) & _); [|exact Hk]. done.
  - intros t Ht. apply list_elem_of_lookup_1 in Ht as [k Hk]. eapply Forall2_lookup_l in Hts as (v & _ & Hh & _); [|exact Hk]. done.
Qed.

Lemma Colon_spaces : exists w, Colon config = w ++ 58 :: (if indented config then [32] else []) /\ spaces w.
Proof. unfold Colon. destruct (indented config); [exists [32]|exists []]; by repeat constructor. Qed.

Lemma pair_read s v level : utf8_string s -> read_back v -> exists t,
  WritePair config (SString s, Write config (S level) v) = Ok t /\ (exists r, t = 34 :: r) /\
  forall fuel, (length t < fuel)%nat ->
    adds (fun d => k ← StringParser; _ ← ExpDelimiter 58; v ← GenericObjectParser fuel; mret (InsertOrAssign d (SString k) v))
      t (fun l => InsertOrAssign l (SString s) (norm (m_orderDict config) v)).
Proof.
  intros Hs Hrb. destruct (string_step s Hs) as (kt & Hkw & Hkr). destruct (Hrb (S level)) as (vt & Hvw & _ & Hvr).
  destruct Colon_spaces as (w & Ew & Hw). exists ((34 :: kt ++ [34]) ++ Colon config ++ vt). unfold WritePair. cbn [fst snd].
  rewrite Hvw. cbn [KeyWriter]. rewrite Hkw. cbn [mbind result_bind]. split; [done|]. split; [by eexists|].
  intros fuel Hf l ws rest Hws Hr. rewrite <-!app_assoc. eapply step_bind; [by apply Hkr|]. rewrite Ew, <-!app_assoc. cbn [app].
  eapply step_bind.
  { unfold ExpDelimiter. eapply step_bind; [by apply step_SkipSpaceAndGetCharAndAdv|]. apply step_ret. }
  eapply step_bind; [apply Hvr; [|destruct (indented config); by repeat constructor|done]|apply step_ret].
  rewrite !length_app in Hf. lia.
Qed.

(** A dictionary around its pairs, in the order they are written in. *)
Lemma dict_read (d : list (Hashable * Json)) level : keys_distinct d -> Forall (fun p => read_back p.2) d -> exists t,
  WriteContainer config 123 125 level (map (WritePair config) (map (fun p => (p.1, Write config (S level) p.2)) d)) = Ok t /\
  (exists c r, t = c :: r /\ IsSpaceCh c = false /\ c <> 93) /\
  forall fuel, (length t < fuel)%nat -> reads (GenericObjectParser fuel) t (JDict (map (fun p => (p.1, norm (m_orderDict config) p.2)) d)).
Proof using Hconfig.
  intros Hd Hv. set (nrm := fun p : Hashable * Json => (p.1, norm (m_orderDict config) p.2)).
  assert (exists ts, map (WritePair config) (map (fun p => (p.1, Write config (S level) p.2)) d) = map Ok ts /\
    (forall t, t ∈ ts -> exists r, t = 34 :: r) /\
    forall fuel, (forall t, t ∈ ts -> (length t < fuel)%nat) ->
      Forall2 (adds (fun d => k ← StringParser; _ ← ExpDelimiter 58; v ← GenericObjectParser fuel; mret (InsertOrAssign d (SString k) v)))
        ts (map (fun p l => InsertOrAssign l p.1 p.2) (map nrm d))) as (ts & E & Hh & Hts).
  { destruct Hd as [Hk _]. induction Hv as [|[k v] d Hrb _ IH]; [by exists []; split_and!; [|intros ? ?%not_elem_of_nil|constructor]|].
    apply Forall_cons in Hk as [(s & Es & Hs) Hk]. cbn [fst snd] in *. subst k. destruct (IH Hk) as (ts & E & Hh & Hts).
    destruct (pair_read s v level Hs Hrb) as (t & Et & Ht & Hp). exists (t :: ts). cbn [map fst snd].
    split; [by rewrite Et, E|]. split; [by intros ? [-> | ?]%elem_of_cons; auto|].
    intros fuel Hlen. constructor; [apply Hp, Hlen; left|apply Hts; intros; apply Hlen; by right]. }
  rewrite E, WriteContainer_text. eexists. split; [reflexivity|]. split; [by eexists _, _|].
  intros [|fuel] Hf; [lia|]. apply dispatch; [done|]. cbn [Z.eqb Pos.eqb orb]. intros ws rest Hw Hr.
  eapply step_bind; [|apply step_ret].
  replace (map nrm d) with (fold_left (fun l f => f l) (map (fun p l => InsertOrAssign l p.1 p.2) (map nrm d)) [])
    by (apply (fold_insert (map nrm d) []); by apply distinct_map).
  change (123 :: match ts with [] => [] | _ => LineEnd config ++ body (S level) ts ++ Indent config level end ++ [125]) with
    (ctext 123 125 level ts) in *.
  apply json_container_read; try done; [by right|apply Hts| |].
  - intros t Ht. pose proof (ctext_length 123 125 level ts t Ht). lia.
  - apply Nat.lt_succ_r. eapply Nat.le_lt_trans; [apply (ctext_count 123 125 level)|exact Hf]. intros t Ht ->. by destruct (Hh [] Ht).
  - intros t Ht. destruct (Hh t Ht) as [r ->]. by eexists _, _.
Qed.

Lemma dict_read_back d : keys_distinct d -> Forall (fun p => read_back p.2) d -> read_back (JDict d).
Proof using Hconfig.
  intros Hd Hv level. cbn [Write norm]. destruct (m_orderDict config) eqn:Eo.
  - rewrite sort_pairs_map. destruct (sort_pairs_spec d (distinct_keys_ok d Hd)) as (r & Er & Hp & _). rewrite Er.
    cbn [fmap result_fmap obj_j mbind result_bind].
    destruct (dict_read r level) as (t & Ht & Hh & Hr); [by eapply distinct_perm|by rewrite Hp|].
    exists t. rewrite Ht. split; [done|]. split; [done|]. rewrite sort_pairs_map, Er. cbn [fmap result_fmap ok_or]. by rewrite Eo in Hr.
  - cbn [mbind result_bind]. destruct (dict_read d level Hd Hv) as (t & Ht & Hh & Hr). exists t. by rewrite Eo in Hr.
Qed.

Lemma static_read_back d : keys_distinct d -> Forall (fun p => read_back p.2) d -> read_back (JStaticDict d).
Proof using Hconfig.
  intros Hd Hv level. cbn [Write norm]. destruct (dict_read d level Hd Hv) as (t & Ht & Hh & Hr). exists t.
  split; [|done]. by rewrite map_map in Ht.
Qed.

Lemma ok_read_back v : json_ok real_written v -> read_back v.
Proof using Hconfig.
  induction v as [h|r|l IH|d IH|d IH] using json_nested_ind; intros Hv; inversion Hv; subst.
  - intros level. exists WriteNull. split; [done|]. split; [by eexists _, _|]. intros [|fuel] Hf; [lia|]. apply dispatch; [done|]. apply null_read.
  - intros level. exists (WriteBool b). split; [done|]. split; [by destruct b; eexists _, _|]. intros [|fuel] Hf; [lia|].
    pose proof (bool_read b) as Hb. destruct b; (apply dispatch; [done|]; exact Hb).
  - intros level. destruct (to_string_spec n) as (neg & i & E & Hi & Ha); [done|]. exists (to_string n). split; [done|].
    assert (reads GenericNumberParser (sign neg ++ i ++ [] ++ []) (JHash (SInteger Int64 n))) as Hp.
    { apply json_number_read; [done|by left|by left|]. cbn [app]. by rewrite app_nil_r, <-E, Ha. }
    cbn [norm]. destruct (number_dispatch 0 neg i [] [] _ Hi Hp) as [Hh _]. rewrite !app_nil_r, <-E in *.
    split; [done|]. intros [|fuel] Hf; [lia|]. destruct (number_dispatch fuel neg i [] [] (JHash (SInteger Int64 n)) Hi) as [_ Hd];
      rewrite !app_nil_r, <-E in *; done.
  - by apply string_read_back.
  - intros level. destruct H1 as (neg & i & f & e & E & Hi & Hf & He & Hne & Ha). exists (dtoa r). split; [done|].
    assert (reads GenericNumberParser (sign neg ++ i ++ f ++ e) (JReal r)) as Hp.
    { apply json_number_read; [done..|]. destruct (f ++ e); [done|]. by rewrite <-E, Ha. }
    rewrite E. destruct (number_dispatch 0 neg i f e _ Hi Hp) as [Hh _].
    split; [done|]. intros [|fuel] Hl; [lia|]. by apply number_dispatch.
  - apply list_read_back. rewrite Forall_forall in IH, H1 |- *. auto.
  - apply dict_read_back; [done|]. rewrite Forall_forall in *. auto.
  - apply static_read_back; [done|]. rewrite Forall_forall in *. auto.
Qed.
End containers.

(** ** Every run

    [wp n p Q]: on any range of [n] bytes, [p] ends, with a result and a rest
    that satisfy [Q] or with an exception. *)
Definition wp {A} (n : nat) (p : parser A) (Q : nat -> A -> Prop) : Prop :=
  forall s, all_bytes (m_begin s) -> length (m_begin s) = n ->
    match p s with
    | (s', Ok a) => all_bytes (m_begin s') /\ Q (length (m_begin s')) a
    | (_, Throw e) => e <> JsonOutOfFuel
    end.

Lemma wp_mono {A} n (p : parser A) (Q Q' : nat -> A -> Prop) : wp n p Q -> (forall m a, Q m a -> Q' m a) -> wp n p Q'.
Proof. intros Hp HQ s Hb Hn. specialize (Hp s Hb Hn). destruct (p s) as [s' [a|e]]; [destruct Hp; auto|done]. Qed.

Lemma wp_ret {A} n (a : A) (Q : nat -> A -> Prop) : Q n a -> wp n (mret a) Q.
Proof. intros HQ s Hb Hn. cbn. by rewrite Hn. Qed.

Lemma wp_bind {A B} n (p : parser A) (f : A -> parser B) Q : wp n p (fun m a => wp m (f a) Q) -> wp n (p ≫= f) Q.
Proof.
  intros Hp s Hb Hn. specialize (Hp s Hb Hn). unfold mbind, stx_bind. destruct (p s) as [s' [a|e]]; [|done].
  destruct Hp as [Hb' Hf]. by apply Hf.
Qed.

Lemma wp_fail {A} n issue (Q : nat -> A -> Prop) : wp n (fail issue) Q.
Proof. by intros s Hb Hn. Qed.

Lemma wp_throw {A} n e (Q : nat -> A -> Prop) : e <> JsonOutOfFuel -> wp n (throw e) Q.
Proof. by intros He s Hb Hn. Qed.

Lemma wp_GetChar n (Q : nat -> Z -> Prop) : (forall c, (0 < n)%nat -> is_byte c -> Q n c) -> wp n GetChar Q.
Proof.
  intros HQ s Hb Hn. unfold GetChar. destruct (m_begin s) as [|c r] eqn:E; [done|]. rewrite E. split; [done|].
  rewrite Hn. apply HQ; [rewrite <-Hn; cbn; lia|by apply all_bytes_cons in Hb as [? _]].
Qed.

Lemma wp_adv {A} n (p : parser A) (s : ISM) c r (Q : nat -> Z -> Prop) : m_begin s = c :: r -> all_bytes (c :: r) ->
  (forall c m, (S m = n)%nat -> is_byte c -> Q m c) -> length (c :: r) = n ->
  forall s', m_begin s' = r -> all_bytes (m_begin s') /\ Q (length (m_begin s')) c.
Proof. intros E Hb HQ Hn s' ->. apply all_bytes_cons in Hb as [Hc Hr]. split; [done|]. by apply HQ. Qed.

Lemma wp_GetCharAndAdv n (Q : nat -> Z -> Prop) : (forall c m, (S m = n)%nat -> is_byte c -> Q m c) -> wp n GetCharAndAdv Q.
Proof.
  intros HQ s Hb Hn. unfold GetCharAndAdv. destruct (m_begin s) as [|c r] eqn:E; [done|].
  eapply (wp_adv n GetCharAndAdv s c r Q); try done. case_match; cbn; by rewrite E.
Qed.

Lemma wp_CurrentAndAdv n (Q : nat -> Z -> Prop) : (forall c m, (S m = n)%nat -> is_byte c -> Q m c) -> wp n CurrentAndAdv Q.
Proof.
  intros HQ s Hb Hn. unfold CurrentAndAdv. destruct (m_begin s) as [|c r] eqn:E; [done|].
  eapply (wp_adv n CurrentAndAdv s c r Q); try done. cbn. by rewrite E.
Qed.

Lemma wp_IsEnd n (Q : nat -> bool -> Prop) : (forall b, (b = false -> (0 < n)%nat) -> Q n b) -> wp n IsEnd Q.
Proof. intros HQ s Hb Hn. unfold IsEnd. split; [done|]. rewrite Hn. apply HQ. rewrite <-Hn. destruct (m_begin s); [done|cbn; lia]. Qed.

Lemma drop_ws_suffix b : all_bytes b -> all_bytes (drop_ws b) /\ (length (drop_ws b) <= length b)%nat.
Proof.
  induction b as [|c b IH]; intros Hb; [done|]. cbn [drop_ws]. apply all_bytes_cons in Hb as [Hc Hb].
  destruct (IsSpaceCh c); [|by split; [apply all_bytes_cons|]]. destruct (IH Hb). cbn [length]. auto with lia.
Qed.

Lemma wp_SkipWhiteSpace n (Q : nat -> () -> Prop) : (forall m, (m <= n)%nat -> Q m ()) -> wp n SkipWhiteSpace Q.
Proof.
  intros HQ s Hb Hn. unfold SkipWhiteSpace. rewrite (SkipSpaces_begin _ s) by done. destruct (drop_ws_suffix _ Hb).
  split; [done|]. apply HQ. lia.
Qed.

Lemma wp_SkipSpaceAndGetChar n (Q : nat -> Z -> Prop) : (forall c m, (0 < m <= n)%nat -> is_byte c -> Q m c) -> wp n SkipSpaceAndGetChar Q.
Proof. intros HQ. apply wp_bind, wp_SkipWhiteSpace. intros m Hm. apply wp_GetChar. auto. Qed.

Lemma wp_SkipSpaceAndGetCharAndAdv n (Q : nat -> Z -> Prop) : (forall c m, (m < n)%nat -> is_byte c -> Q m c) ->
  wp n SkipSpaceAndGetCharAndAdv Q.
Proof. intros HQ. apply wp_bind, wp_SkipWhiteSpace. intros m Hm. apply wp_CurrentAndAdv. intros c m' Hm'. apply HQ. lia. Qed.

(** Take the first call of a sequence, or end. *)
Ltac wp_step :=
  lazymatch goal with
  | |- wp _ (mret _) _ => apply wp_ret
  | |- wp _ (fail _) _ => apply wp_fail
  | |- wp _ (throw _) _ => apply wp_throw; done
  | |- wp _ (_ ≫= _) _ => apply wp_bind
  | |- wp _ GetChar _ => apply wp_GetChar; intros
  | |- wp _ GetCharAndAdv _ => apply wp_GetCharAndAdv; intros
  | |- wp _ IsEnd _ => apply wp_IsEnd; intros
  | |- wp _ SkipWhiteSpace _ => apply wp_SkipWhiteSpace; intros
  | |- wp _ SkipSpaceAndGetChar _ => apply wp_SkipSpaceAndGetChar; intros
  | |- wp _ SkipSpaceAndGetCharAndAdv _ => apply wp_SkipSpaceAndGetCharAndAdv; intros
  | |- wp _ (if ?b then _ else _) _ => let E := fresh "E" in destruct b eqn:E
  end.

Lemma wp_ExpChars n chs (Q : nat -> () -> Prop) : (forall m, (m <= n)%nat -> Q m ()) -> wp n (ExpChars chs) Q.
Proof.
  revert n. induction chs as [|c chs IH]; intros n HQ; cbn [ExpChars]; [apply wp_ret; auto|].
  repeat wp_step. apply IH. intros m' Hm'. apply HQ. lia.
Qed.

Lemma wp_NullParser n : wp n NullParser (fun m v => (m <= n)%nat /\ json_ok (fun _ => True) v /\ norm false v = v).
Proof. unfold NullParser. repeat wp_step. apply wp_ExpChars. intros. wp_step. split_and!; [lia|constructor|done]. Qed.

Lemma wp_BoolParser n : wp n BoolParser (fun m v => (m <= n)%nat /\ json_ok (fun _ => True) v /\ norm false v = v).
Proof. unfold BoolParser. repeat wp_step; apply wp_ExpChars; intros; wp_step; (split_and!; [lia|constructor|done]). Qed.

(** *** Numbers *)

Lemma wp_NumDigits_loop fuel len n : (n <= fuel)%nat -> wp n (ParseNumDigits_loop fuel len) (fun m _ => (m <= n)%nat).
Proof.
  revert len n. induction fuel as [|fuel IH]; intros len n Hn; cbn [ParseNumDigits_loop]; repeat wp_step;
    repeat match goal with Hx : false = false -> _ |- _ => specialize (Hx eq_refl) end; try lia.
  eapply wp_mono; [apply IH; lia|]. cbn beta. intros. wp_step. lia.
Qed.

Lemma wp_NumDigits n : wp n ParseNumDigits (fun m _ => (m <= n)%nat).
Proof. intros s Hb Hn. unfold ParseNumDigits. by apply wp_NumDigits_loop; [lia| |]. Qed.

Lemma wp_NumberParser n : wp n GenericNumberParser (fun m v => (m <= n)%nat /\ json_ok (fun _ => True) v /\ norm false v = v).
Proof.
  unfold GenericNumberParser, ParseNum. wp_step. wp_step. wp_step. wp_step.
  eapply (wp_mono _ _ (fun m' _ => (m' <= m)%nat)). { unfold ParseNSign. repeat wp_step; lia. }
  intros m1 pos Hm1. cbn beta. wp_step. eapply (wp_mono _ _ (fun m' _ => (m' <= m1)%nat)).
  { unfold ParseInt. repeat wp_step; try lia. eapply wp_mono; [apply wp_NumDigits|]. cbn beta. lia. }
  intros m2 i Hm2. cbn beta. wp_step. eapply (wp_mono _ _ (fun m' _ => (m' <= m2)%nat)).
  { unfold ParseFrac. repeat wp_step; try lia. eapply wp_mono; [apply wp_NumDigits|]. cbn beta. intros. wp_step. lia. }
  intros m3 f Hm3. cbn beta. wp_step. eapply (wp_mono _ _ (fun m' _ => (m' <= m3)%nat)).
  { unfold ParseExp, ParseNorPSign. repeat wp_step; try lia; (eapply wp_mono; [apply wp_NumDigits|]; cbn beta; intros; wp_step; lia). }
  intros m4 e Hm4. cbn beta. wp_step. destruct (f ++ e); [|wp_step; split_and!; [lia|by constructor|done]].
  unfold atoll. destruct ((_ <=? _) && _) eqn:E; [|by wp_step]. wp_step. apply andb_true_iff in E as [E1%Z.leb_le E2%Z.leb_le].
  split_and!; [lia|by constructor|done].
Qed.

(** *** Strings *)

Lemma utf8_string_app s t : utf8_string s -> utf8_string t -> utf8_string (s ++ t).
Proof.
  intros (cs & Hcs & ->) (ds & Hds & ->). exists (cs ++ ds). split; [by apply Forall_app_2|]. unfold utf8s. by rewrite map_app, concat_app.
Qed.

Lemma utf8_one c : valid c -> utf8_string (utf8 c).
Proof. intros Hc. exists [c]. split; [by constructor|]. cbn. by rewrite app_nil_r. Qed.

Lemma utf8_ascii c : 0 <= c < 128 -> utf8_string [c].
Proof.
  intros Hc. replace [c] with (utf8 c) by (unfold utf8; by rewrite (proj2 (Z.ltb_lt _ _)) by lia).
  apply utf8_one, valid_iff. lia.
Qed.

Lemma fits_lor w a b : 0 <= w -> fits w a -> fits w b -> fits w (Z.lor a b).
Proof.
  intros Hw [Ha1 Ha2] [Hb1 Hb2]. split; [by apply Z.lor_nonneg|].
  destruct (Z.eq_dec (Z.lor a b) 0) as [->|Hne]; [by apply Z.pow_pos_nonneg|].
  assert (0 <= Z.lor a b) by by apply Z.lor_nonneg. apply Z.log2_lt_cancel. rewrite Z.log2_pow2 by done.
  rewrite Z.log2_lor by done. assert (forall x, 0 <= x < 2 ^ w -> 0 < x -> Z.log2 x < w) as Hl
    by (intros x [? ?] ?; by apply Z.log2_lt_pow2).
  destruct (Z.eq_dec a 0) as [->|]; destruct (Z.eq_dec b 0) as [->|]; [by rewrite Z.lor_0_l in Hne|..].
  - specialize (Hl b). change (Z.log2 0) with 0. pose proof (Z.log2_nonneg b). lia.
  - specialize (Hl a). change (Z.log2 0) with 0. pose proof (Z.log2_nonneg a). lia.
  - pose proof (Hl a). pose proof (Hl b). lia.
Qed.

Lemma wp_UXXXX_loop k res n : fits 16 res -> wp n (ParseUXXXX_loop k res) (fun m v => (m <= n)%nat /\ fits 16 v).
Proof.
  revert res n. induction k as [|k IH]; intros res n Hr; cbn [ParseUXXXX_loop]; [by wp_step|].
  assert (forall b, fits 16 (Z.lor (u16 (Z.shiftl res 4)) (u8 b))) as Hl.
  { intros b. apply fits_lor; [lia|by apply wrap_fits|]. eapply (fits_mono 8); [lia|by apply wrap_fits]. }
  repeat wp_step; (eapply wp_mono; [by apply IH|]); cbn beta; intros ? ? [? ?]; split; done || lia.
Qed.

Lemma wp_TryUtf {A} n (r : result UtfError A) (Q : nat -> A -> Prop) : (forall a, r = Ok a -> Q n a) -> wp n (TryUtf r) Q.
Proof. intros HQ. unfold TryUtf. destruct r as [a|[]]; [apply wp_ret; auto|apply wp_fail|by apply wp_throw]. Qed.

Lemma Utf16ToUtf8_string us s : Forall (fits 16) us -> Utf16ToUtf8 us = Ok s -> utf8_string s.
Proof.
  intros Hu E. pose proof (utf16_laws 16 ltac:(lia)) as HL.
  apply (transcode_exact (HA := HL) (B := utf8_encoding)) in E as (cs & Hcs & _ & ->); [|done]. exists cs. split; [done|].
  unfold text, utf8s. f_equal. induction Hcs as [|c cs Hc _ IH]; [done|]. cbn [map encode utf8_encoding].
  rewrite CodePtToUtf8Once_valid by done. cbn [ok_or]. f_equal. exact IH.
Qed.

Lemma wp_Escape n : wp n ParseEscapeSomething (fun m s => (m <= n)%nat /\ utf8_string s).
Proof.
  unfold ParseEscapeSomething, ParseUXXXX. do 2 wp_step.
  assert (forall ch : Z, ch ∈ [34; 92; 47; 8; 12; 10; 13; 9] -> utf8_string [ch]) as Hch.
  { intros ch Hin. apply utf8_ascii. repeat (apply elem_of_cons in Hin as [-> |Hin]; [lia|]). by apply not_elem_of_nil in Hin. }
  repeat first [wp_step|split; [lia|apply Hch; set_solver]].
  eapply wp_mono; [by apply wp_UXXXX_loop; vm_compute|]. cbn beta. intros m1 u1 [Hm1 Hu1]. wp_step.
  eapply (wp_mono _ _ (fun m us => (m <= m1)%nat /\ Forall (fits 16) us)).
  - wp_step; [|wp_step; split; [lia|by apply Forall_singleton]]. unfold ParseEscapeUXXXX, ParseUXXXX. wp_step. wp_step. apply wp_ExpChars. intros m2 Hm2.
    eapply wp_mono; [by apply wp_UXXXX_loop; vm_compute|]. cbn beta. intros m3 u2 [Hm3 Hu2]. wp_step.
    split; [lia|]. by repeat apply Forall_cons_2.
  - cbn beta. intros m2 us [Hm2 Hus]. apply wp_TryUtf. intros s Es. split; [lia|]. by eapply Utf16ToUtf8_string.
Qed.

Lemma wp_GetChars k n : wp n (GetChars k) (fun m cs => (m <= n)%nat /\ all_bytes cs).
Proof.
  revert n. induction k as [|k IH]; intros n; cbn [GetChars]; [wp_step; split; [lia|constructor]|]. repeat wp_step.
  eapply wp_mono; [apply IH|]. cbn beta. intros m' cs [Hm Hcs]. wp_step. split; [lia|by apply all_bytes_cons].
Qed.

Lemma wp_Utf8Char ch n : is_byte ch -> wp n (ParseUtf8Char ch) (fun m s => (m <= n)%nat /\ utf8_string s).
Proof.
  intros Hch. unfold ParseUtf8Char. wp_step. apply wp_TryUtf. intros [k x] _. wp_step. eapply wp_mono; [apply wp_GetChars|]. cbn beta.
  intros m cs [Hm Hcs]. wp_step. apply wp_TryUtf. intros [out r] E. wp_step. split; [done|].
  unfold UtfConvertOnce in E. bind_ok E. destruct a as [c r']. bind_ok E. injection E as <- _.
  apply utf8_read in E0 as [Hv _]; [|by apply all_bytes_cons]. rewrite CodePtToUtf8Once_valid in E1 by done. injection E1 as <-.
  by apply utf8_one.
Qed.

Lemma wp_String_loop fuel n : (n < fuel)%nat -> wp n (StringParser_loop fuel) (fun m s => (m <= n)%nat /\ utf8_string s).
Proof.
  revert n. induction fuel as [|fuel IH]; intros n Hn; [lia|]. cbn [StringParser_loop]. do 3 wp_step.
  { wp_step. split; [lia|]. by exists []. }
  wp_step. eapply (wp_mono _ _ (fun m' s => (m' <= m)%nat /\ utf8_string s)).
  { wp_step; [apply wp_Escape|]. wp_step; [|by apply wp_Utf8Char]. wp_step. split; [done|]. apply utf8_ascii.
    rewrite IsAsciiFast_byte, Z.ltb_lt in E1 by done. widths. lia. }
  cbn beta. intros m1 out [Hm1 Hout]. wp_step. eapply wp_mono; [apply IH; lia|]. cbn beta. intros m2 rest [Hm2 Hrest]. wp_step.
  split; [lia|by apply utf8_string_app].
Qed.

Lemma wp_String n : wp n StringParser (fun m s => (m <= n)%nat /\ utf8_string s).
Proof.
  unfold StringParser. do 3 wp_step; [|wp_step]. intros s Hb Hn. cbv beta.
  pose proof (wp_String_loop (S (length (m_begin s))) m ltac:(lia) s Hb Hn) as Hw.
  destruct (StringParser_loop _ s) as [s' [a|e]]; [|done]. destruct Hw as (? & ? & ?). split_and!; [done|lia|done].
Qed.

(** *** Containers *)

Lemma wp_Items_loop {A} (item : A -> parser A) close (P : A -> Prop) fuel n l : (n <= fuel)%nat -> P l ->
  (forall m l, (m < n)%nat -> P l -> wp m (item l) (fun m' l' => (m' <= m)%nat /\ P l')) ->
  wp n (Items_loop item close fuel l) (fun m l' => (m <= n)%nat /\ P l').
Proof.
  revert n l. induction fuel as [|fuel IH]; intros n l Hn Hl Hi; cbn [Items_loop]; repeat wp_step; try lia; try (split; [lia|done]).
  eapply wp_mono; [apply Hi; [lia|done]|]. cbn beta. intros m1 l1 [Hm1 Hl1].
  eapply wp_mono; [apply IH; [lia|done|]|]; [intros; apply Hi; [lia|done]|]. cbn beta. intros ? ? [? ?]. split; [lia|done].
Qed.

Lemma wp_Items {A} (item : A -> parser A) close open (P : A -> Prop) fuel n l : (n <= fuel)%nat -> P l ->
  (forall m l, (m < n)%nat -> P l -> wp m (item l) (fun m' l' => (m' <= m)%nat /\ P l')) ->
  wp n (Items item close open fuel l) (fun m l' => (m <= n)%nat /\ P l').
Proof.
  intros Hn Hl Hi. unfold Items. repeat wp_step; [by split; [lia|]|].
  eapply wp_mono; [apply Hi; [lia|done]|]. cbn beta. intros m1 l1 [Hm1 Hl1].
  eapply wp_mono; [apply wp_Items_loop; [lia|done|]|]; [intros; apply Hi; [lia|done]|]. cbn beta. intros ? ? [? ?]. split; [lia|done].
Qed.

(** A value the parser returns. *)
Definition parsed (v : Json) : Prop := json_ok (fun _ => True) v /\ norm false v = v.

Definition parsed_dict (d : list (Hashable * Json)) : Prop := keys_distinct d /\ Forall (fun p => parsed p.2) d.

Lemma assign_parsed d s v : parsed_dict d -> utf8_string s -> parsed v -> parsed_dict (InsertOrAssign d (SString s) v).
Proof.
  intros [[Hk Hn] Hd] Hs Hv. assert (key_ok (SString s)) as Hks by by exists s.
  assert (forall d : list (Hashable * Json), Forall key_ok (map fst d) ->
    map fst (InsertOrAssign d (SString s) v) = map fst d \/
    SString s ∉ map fst d /\ InsertOrAssign d (SString s) v = d ++ [(SString s, v)]) as Hcases.
  { clear - Hks. intros d. induction d as [|[k x] d IH]; intros Hk; [right; split; [apply not_elem_of_nil|done]|].
    cbn [map fst] in Hk. apply Forall_cons in Hk as [Hk0 Hk]. cbn [InsertOrAssign]. rewrite obj_eqb_key by done.
    destruct (decide (k = SString s)) as [->|Hne]; [rewrite bool_decide_eq_true_2 by done; by left|].
    rewrite bool_decide_eq_false_2 by done. cbn [map fst]. destruct (IH Hk) as [E|[Hn E]]; [left; by rewrite E|right].
    rewrite E. split; [|done]. apply not_elem_of_cons. by split. }
  split.
  - unfold keys_distinct. destruct (Hcases d Hk) as [->|[Hni ->]]; [done|]. rewrite map_app. cbn [map fst]. split.
    + apply Forall_app_2; [done|]. by apply Forall_singleton.
    + apply NoDup_app. split_and!; [done| |apply NoDup_singleton]. by intros x Hx ->%list_elem_of_singleton.
  - clear - Hd Hv. induction Hd as [|[k x] d Hx Hd IH]; [by apply Forall_singleton|]. cbn [InsertOrAssign].
    destruct (obj_eqb k (SString s)); by apply Forall_cons_2.
Qed.

Lemma parsed_list l : Forall parsed l -> parsed (JList l).
Proof.
  intros Hl. split; [constructor; eapply Forall_impl; [exact Hl|]; by intros ? [? _]|]. cbn [norm]. f_equal.
  induction Hl as [|v l [_ E] _ IH]; [done|]. cbn [map]. by rewrite E, IH.
Qed.

Lemma dict_parsed d : parsed_dict d -> parsed (JDict d).
Proof.
  intros [Hk Hd]. split; [constructor; [done|]; eapply Forall_impl; [exact Hd|]; by intros ? [? _]|]. cbn [norm]. f_equal.
  clear Hk. induction Hd as [|[k v] d [_ E] _ IH]; [done|]. cbn [map fst snd] in *. by rewrite E, IH.
Qed.

Lemma wp_Parser fuel n : (n < fuel)%nat -> wp n (GenericObjectParser fuel) (fun m v => (m <= n)%nat /\ parsed v).
Proof.
  revert n. induction fuel as [|fuel IH]; intros n Hn; [lia|]. cbn [GenericObjectParser]. do 2 wp_step.
  assert (forall (p : parser Json), wp m p (fun m' v => (m' <= m)%nat /\ parsed v) ->
    wp m p (fun m' v => (m' <= n)%nat /\ parsed v)) as Hle.
  { intros p Hp. eapply wp_mono; [exact Hp|]. cbn beta. intros ? ? [? ?]. split; [lia|done]. }
  wp_step; [apply Hle, wp_NullParser|]. wp_step; [apply Hle, wp_BoolParser|]. wp_step; [apply Hle, wp_NumberParser|]. wp_step.
  { wp_step. eapply wp_mono; [apply wp_String|]. cbn beta. intros m1 s [Hm1 Hs]. wp_step. split; [lia|]. split; [by constructor|done]. }
  wp_step.
  { wp_step. eapply wp_mono; [apply (wp_Items _ 93 91 (Forall parsed)); [lia|constructor|]|].
    - intros m1 l Hm1 Hl. wp_step. eapply wp_mono; [apply IH; lia|]. cbn beta. intros m2 v [Hm2 Hv]. wp_step. split; [done|].
      apply Forall_app_2; [done|by apply Forall_singleton].
    - cbn beta. intros m1 l [Hm1 Hl]. wp_step. split; [lia|by apply parsed_list]. }
  wp_step; [|wp_step]. wp_step. eapply wp_mono; [apply (wp_Items _ 125 123 parsed_dict); [lia|by repeat constructor|]|].
  - intros m1 d Hm1 Hd. wp_step. eapply wp_mono; [apply wp_String|]. cbn beta. intros m2 s [Hm2 Hs]. wp_step.
    unfold ExpDelimiter. wp_step. wp_step. wp_step; [wp_step|]. wp_step. wp_step. eapply wp_mono; [apply IH; lia|]. cbn beta.
    intros m4 v [Hm4 Hv]. wp_step. split; [lia|by apply assign_parsed].
  - cbn beta. intros m1 d [Hm1 Hd]. wp_step. split; [lia|by apply dict_parsed].
Qed.

(** ** Theorems *)

Lemma LoadStr_read t v : reads (GenericObjectParser (S (length t))) t v -> t <> [] -> LoadStr t = Ok v.
Proof.
  intros Hp Hne. unfold LoadStr, ParseTillEnd, Create. destruct t as [|c r]; [done|]. cbn [mbind result_bind].
  destruct (Hp [] [] spaces_nil I (mkISM (c :: r) 0 0)) as (s' & E & Hs'); [cbn; by rewrite app_nil_r|].
  unfold mbind, stx_bind. rewrite E. unfold SkipWhiteSpace, IsEnd. rewrite Hs'. cbn [SkipSpaces]. by rewrite Hs'.
Qed.

(** What is written is read back, under every configuration whose indentation
    and line end are white space: the writer succeeds on a value whose strings
    are UTF-8 (as the string keys of its dictionaries, which are different) and
    whose integers are 64-bit, and the parser gives the value back, the
    dictionaries in the order they were written in. *)
Theorem json_roundtrip config v : spaces (m_indent config) /\ spaces (m_lineEnd config) -> json_ok real_written v ->
  exists t, DumpStr config v = Ok t /\ LoadStr t = Ok (norm (m_orderDict config) v).
Proof.
  intros Hc Hv. destruct (ok_read_back config Hc v Hv 0%nat) as (t & Ht & (c & r & -> & _) & Hp).
  exists (c :: r). split; [done|]. apply LoadStr_read; [|done]. apply Hp. lia.
Qed.

Lemma Parse_parsed s : all_bytes s ->
  match Parse s with Ok v => parsed v | Throw e => e <> JsonOutOfFuel end /\
  match LoadStr s with Ok v => Parse s = Ok v | Throw e => e <> JsonOutOfFuel end.
Proof.
  intros Hb. unfold Parse, LoadStr, ParseTillEnd, Create. destruct s as [|c r]; [done|]. cbn [mbind result_bind].
  pose proof (wp_Parser (S (length (c :: r))) (length (c :: r)) ltac:(lia) (mkISM (c :: r) 0 0) Hb eq_refl) as Hp.
  unfold mbind, stx_bind. destruct (GenericObjectParser _ _) as [s' [v|e]]; cbn [snd]; [|done].
  destruct Hp as (Hb' & _ & Hv). split; [done|]. unfold SkipWhiteSpace, IsEnd. by destruct (m_begin (SkipSpaces _ s')).
Qed.

(** C38. On every text the parser ends, with a parse error or another exception, or
    with a value; the strings of the value are UTF-8, its integers 64-bit and
    the keys of its dictionaries different strings.  [LoadStr] returns what
    [Parse] returns where it returns.  So the value, its real numbers apart, can
    be written, and is then read back as it is. *)
Theorem json_parse_total s : all_bytes s ->
  match Parse s with
  | Ok v => json_ok (fun _ => True) v /\
    (json_ok real_written v -> exists t, DumpStr DefaultConfig v = Ok t /\ LoadStr t = Ok v)
  | Throw e => e <> JsonOutOfFuel
  end /\
  match LoadStr s with Ok v => Parse s = Ok v | Throw e => e <> JsonOutOfFuel end.
Proof.
  intros Hb. destruct (Parse_parsed s Hb) as [H1 H2]. split; [|done]. destruct (Parse s) as [v|e]; [|done].
  destruct H1 as [Hv En]. split; [done|]. intros Hw.
  assert (spaces (m_indent DefaultConfig) /\ spaces (m_lineEnd DefaultConfig)) as Hc by by repeat constructor.
  destruct (ok_read_back DefaultConfig Hc v Hw 0%nat) as (t & Ht & (c & r & -> & _) & Hp).
  exists (c :: r). split; [done|]. rewrite <-En. apply LoadStr_read; [|done]. apply Hp. lia.
Qed.

(** A control character is written as it is, and read as it is, outside the
    grammar the code refers to, which wants it escaped. *)
Lemma control_characters : DumpStr DefaultConfig (JHash (SString [1])) = Ok [34; 1; 34] /\
  LoadStr [34; 1; 34] = Ok (JHash (SString [1])).
Proof. split; reflexivity. Qed.

(** [Parse] does not look at what follows the value. *)
Lemma trailing_data : Parse [110; 117; 108; 108; 120] = Ok (JHash SNull) /\
  LoadStr [110; 117; 108; 108; 120] = Throw (ParseError "Extra Data" 0 4).
Proof. split; reflexivity. Qed.

(** The writer reads past the end of a string that ends in the middle of a
    character. *)
Lemma truncated_character : DumpStr DefaultConfig (JHash (SString [0xC3])) = Throw (JsonUtf PastTheEnd).
Proof. reflexivity. Qed.

(** The key null is written as a string, and comes back as one. *)
Lemma null_key : exists t, DumpStr DefaultConfig (JDict [(SNull, JHash SNull)]) = Ok t /\
  LoadStr t = Ok (JDict [(SString WriteNull, JHash SNull)]).
Proof. eexists. split; reflexivity. Qed.
End values.

(** Real numbers that are their text. *)
#[local] Instance text_doubles : DoubleOps := {| Double := list Z; atof := fun t => t; dtoa := fun t => t |}.

Definition sample_json : Json :=
  JDict [(SString [98], JList [JHash (SInteger Int64 (-20)); JReal [49; 46; 53]; JHash (SString [34; 0xC3; 0xA9; 0xF0; 0x9F; 0x98; 0x80])]);
         (SString [97], JHash (SBool true)); (SString [], JDict [])].

Lemma sample_ok : json_ok real_written sample_json.
Proof.
  assert (utf8_string [98] /\ utf8_string [97] /\ utf8_string [] /\ utf8_string [34; 0xC3; 0xA9; 0xF0; 0x9F; 0x98; 0x80]) as (H1 & H2 & H3 & H4).
  { split_and!; [exists [98]|exists [97]|exists []|exists [34; 0xE9; 0x1F600]]; (split; [|reflexivity]);
      repeat apply Forall_cons_2; try apply Forall_nil_2; apply valid_iff; lia. }
  constructor.
  - split; [|by apply (bool_decide_unpack _); vm_compute].
    repeat apply Forall_cons_2; try apply Forall_nil_2; cbn; eexists; eauto.
  - repeat apply Forall_cons_2; try apply Forall_nil_2; cbn.
    + constructor. repeat apply Forall_cons_2; try apply Forall_nil_2; [constructor; by vm_compute| |by constructor].
      constructor. exists false, [49], [46; 53], []. split_and!; [done| | |by left|done|done].
      * right. split; [by repeat constructor|]. by exists 49, [].
      * right. exists [53]. split_and!; [done|done|by repeat constructor].
    + constructor.
    + constructor; [|constructor]. by split; constructor.
Qed.

Lemma json_roundtrip_witness : exists t, DumpStr (mkWriterConfig [9] [13; 10] true) sample_json = Ok t /\
  LoadStr t = Ok (norm true sample_json).
Proof. apply (json_roundtrip (mkWriterConfig [9] [13; 10] true) sample_json); [by repeat constructor|apply sample_ok]. Defined.

Lemma json_parse_total_witness :
  match Parse [91; 49; 44; 34; 97; 34; 93] with
  | Ok v => json_ok (fun _ => True) v /\
    (json_ok real_written v -> exists t, DumpStr DefaultConfig v = Ok t /\ LoadStr t = Ok v)
  | Throw e => e <> JsonOutOfFuel
  end /\
  match LoadStr [91; 49; 44; 34; 97; 34; 93] with
  | Ok v => Parse [91; 49; 44; 34; 97; 34; 93] = Ok v | Throw e => e <> JsonOutOfFuel end.
Proof. apply (json_parse_total [91; 49; 44; 34; 97; 34; 93]). byte_list. Defined.
