(* ===== verification/Keccak.v ===== *)
(** * Keccak-256

    [libs/EclipseMonitor/include/EclipseMonitor/Eth/Keccak256.hpp]: the
    Keccak-f[1600] permutation, the sponge, and [Keccak256]. *)

From S2P Require Import Prelude.

(** Array reads; the indices the code uses are in range. *)
Definition get (a : list Z) (i : nat) : Z := default 0 (a !! i).

(** ** Constants *)

Definition GetRho : list Z :=
  [1; 3; 6; 10; 15; 21; 28; 36; 45; 55; 2; 14; 27; 41; 56; 8; 25; 43; 62; 18; 39; 61; 20; 44].

Definition GetPi : list nat :=
  [10; 7; 11; 17; 18; 3; 5; 16; 8; 21; 24; 4; 15; 23; 19; 13; 12; 2; 20; 14; 22; 9; 6; 1]%nat.

Definition GetRC : list Z :=
  [1; 0x8082; 0x800000000000808a; 0x8000000080008000;
   0x808b; 0x80000001; 0x8000000080008081; 0x8000000000008009;
   0x8a; 0x88; 0x80008009; 0x8000000a;
   0x8000808b; 0x800000000000008b; 0x8000000000008089; 0x8000000000008003;
   0x8000000000008002; 0x8000000000000080; 0x800a; 0x800000008000000a;
   0x8000000080008081; 0x8000000000008080; 0x80000001; 0x8000000080008008].

(** [Rol] at [_XT = uint64_t]. *)
Definition Rol (x s : Z) : Z := Z.lor (u64 (Z.shiftl x s)) (Z.shiftr x (64 - s)).

(** [For5(v, s, e)]: [v] runs over [0, s, 2s, 3s, 4s]. *)
Definition For5 {St} (s : nat) (e : nat -> St -> St) (st : St) : St :=
  e (s + s + s + s)%nat (e (s + s + s)%nat (e (s + s)%nat (e s (e 0%nat st)))).

Definition Repeat24 {St} (e : St -> St) (st : St) : St := Nat.iter 24 e st.

(** ** Keccak-f[1600] *)

(** The lanes [a] and the scratch row [b]. *)
Definition lanes : Type := list Z * list Z.

Definition theta (st : lanes) : lanes :=
  let st := For5 1 (fun x '(a, b) =>
    For5 5 (fun y '(a, b) => (a, <[x := Z.lxor (get b x) (get a (x + y))]> b))
      (a, <[x := 0]> b)) st in
  For5 1 (fun x st => For5 5 (fun y '(a, b) =>
    (<[(y + x)%nat :=
        Z.lxor (get a (y + x))
          (Z.lxor (get b ((x + 4) mod 5)) (Rol (get b ((x + 1) mod 5)) 1))]> a, b)) st) st.

Definition rho_pi (st : lanes) : lanes :=
  let '(a, b) := st in
  let '(a, b, _, _) :=
    Repeat24 (fun '(a, b, t, x) =>
      let p := default 0%nat (GetPi !! x) in
      let b := <[0%nat := get a p]> b in
      let a := <[p := Rol t (get GetRho x)]> a in
      (a, b, get b 0, S x)) (a, b, get a 1, 0%nat) in
  (a, b).

Definition chi (st : lanes) : lanes :=
  For5 5 (fun y st =>
    let st := For5 1 (fun x '(a, b) => (a, <[x := get a (y + x)]> b)) st in
    For5 1 (fun x '(a, b) =>
      (<[(y + x)%nat :=
          Z.lxor (get b x)
            (Z.land (2 ^ 64 - 1 - get b ((x + 1) mod 5)) (get b ((x + 2) mod 5)))]> a, b)) st) st.

Definition iota (i : nat) (st : lanes) : lanes :=
  let '(a, b) := st in (<[0%nat := Z.lxor (get a 0) (get GetRC i)]> a, b).

Definition round (i : nat) (st : lanes) : lanes := iota i (chi (rho_pi (theta st))).

Definition Keccakf_lanes (a : list Z) : list Z :=
  fst (foldl (fun st i => round i st) (a, replicate 5 0) (seq 0 24)).

(** The byte array the permutation is cast from: little-endian 64-bit lanes. *)
Definition load_lane (s : bytes) (i : nat) : Z := be_val (rev (take 8 (drop (8 * i) s))).

Definition store_lane (v : Z) : bytes := rev (be_bytes 8 v).

Definition Keccakf (state : bytes) : bytes :=
  concat (map store_lane (Keccakf_lanes (map (load_lane state) (seq 0 25)))).

(** ** The sponge *)

Definition GetPlen : nat := 200.

(** [dst[i] ^= src[i]] for [i < len]. *)
Definition Xorin (dst src : bytes) (len : nat) : bytes :=
  foldl (fun dst i => <[i := Z.lxor (get dst i) (get src i)]> dst) dst (seq 0 len).

(** The absorbing [FoldP]: returns the state and the input left over. Each turn
    consumes [rate] bytes, so the input's length is enough fuel. *)
Fixpoint FoldP_absorb (fuel : nat) (a input : bytes) (rate : nat) : bytes * bytes :=
  match fuel with
  | O => (a, input)
  | S fuel =>
    if (length input <? rate)%nat then (a, input)
    else FoldP_absorb fuel (Keccakf (Xorin a input rate)) (drop rate input) rate
  end.

(** The squeezing [FoldP] followed by the last [Setout]. *)
Fixpoint squeeze (fuel : nat) (a : bytes) (outlen rate : nat) : bytes :=
  match fuel with
  | O => take outlen a
  | S fuel =>
    if (outlen <? rate)%nat then take outlen a
    else take rate a ++ squeeze fuel (Keccakf a) (outlen - rate) rate
  end.

Definition Hash (outlen : nat) (input : bytes) (rate : nat) (delim : Z) : bytes :=
  let a := replicate GetPlen 0 in
  let '(a, input) := FoldP_absorb (length input) a input rate in
  let inlen := length input in
  let a := <[inlen := Z.lxor (get a inlen) delim]> a in
  let a := <[(rate - 1)%nat := Z.lxor (get a (rate - 1)) 0x80]> a in
  let a := Xorin a input inlen in
  let a := Keccakf a in
  squeeze outlen a outlen rate.

Definition Keccak256 (input : bytes) : bytes :=
  Hash 32 input (200 - 256 / 4) 0x01.

(** ** Shapes *)

Lemma For5_inv {St} (P : St -> Prop) s e st :
  (forall v st, P st -> P (e v st)) -> P st -> P (For5 s e st).
Proof. intros He Hp. unfold For5. by repeat apply He. Qed.

Lemma Repeat24_inv {St} (P : St -> Prop) e st :
  (forall st, P st -> P (e st)) -> P st -> P (Repeat24 e st).
Proof. intros He Hp. unfold Repeat24. by apply Nat.iter_invariant. Qed.

Definition lanes_ok (st : lanes) : Prop := length (fst st) = 25%nat.

Lemma theta_ok st : lanes_ok st -> lanes_ok (theta st).
Proof.
  intros H. unfold theta.
  apply For5_inv; [intros x [a b] ?; apply For5_inv; [|done];
    intros y [a' b'] ?; unfold lanes_ok in *; simpl in *; by rewrite length_insert|].
  apply For5_inv; [|done]. intros x [a b] ?. by apply For5_inv; [intros y [? ?] ?|].
Qed.

Lemma rho_pi_ok st : lanes_ok st -> lanes_ok (rho_pi st).
Proof.
  destruct st as [a b]. intros H. unfold rho_pi.
  assert (forall s : list Z * list Z * Z * nat, length (fst (fst (fst s))) = 25%nat ->
     lanes_ok (let '(a, b, _, _) := s in (a, b))) as Hs by (by intros [[[? ?] ?] ?]).
  apply Hs. apply Repeat24_inv; [|done]. intros [[[? ?] ?] ?] ?. simpl in *. by rewrite length_insert.
Qed.

Lemma chi_ok st : lanes_ok st -> lanes_ok (chi st).
Proof.
  intros H. unfold chi. apply For5_inv; [|done]. intros y st' H'.
  apply For5_inv; [intros x [a b] ?; unfold lanes_ok in *; simpl in *; by rewrite length_insert|].
  apply For5_inv; [|done]. by intros x [a b] ?.
Qed.

Lemma round_ok i st : lanes_ok st -> lanes_ok (round i st).
Proof.
  intros H. unfold round, iota. pose proof (chi_ok _ (rho_pi_ok _ (theta_ok _ H))) as H'.
  destruct (chi _) as [a b]. unfold lanes_ok in *. simpl in *. by rewrite length_insert.
Qed.

Lemma Keccakf_lanes_length a : length a = 25%nat -> length (Keccakf_lanes a) = 25%nat.
Proof.
  intros H. unfold Keccakf_lanes.
  assert (forall l st, lanes_ok st -> lanes_ok (foldl (fun st i => round i st) st l)) as Hl.
  { induction l as [|i l IH]; intros st Hst; [done|]. simpl. by apply IH, round_ok. }
  by apply Hl.
Qed.

Lemma store_lanes_length l : length (concat (map store_lane l)) = (8 * length l)%nat.
Proof.
  induction l as [|x l IH]; [done|]. cbn [map concat length].
  rewrite length_app, IH. unfold store_lane. rewrite length_rev, length_be_bytes. lia.
Qed.

Lemma Keccakf_length s : length (Keccakf s) = GetPlen.
Proof.
  unfold Keccakf. rewrite store_lanes_length, Keccakf_lanes_length; [done|].
  by rewrite length_map, length_seq.
Qed.

Lemma Keccakf_bytes s : all_bytes (Keccakf s).
Proof.
  unfold Keccakf. generalize (Keccakf_lanes (map (load_lane s) (seq 0 25))) as l. intros l.
  induction l as [|x l IH]; [constructor|]. cbn [map concat]. apply all_bytes_app.
  split; [|done]. unfold store_lane. apply Forall_rev, all_bytes_be_bytes.
Qed.

#[export] Hint Resolve Keccakf_bytes : bytes.

(** The digest is 32 bytes. *)
Lemma Keccak256_length m : length (Keccak256 m) = 32%nat.
Proof.
  unfold Keccak256, Hash. destruct (FoldP_absorb _ _ _ _) as [a input].
  cbn [squeeze]. change (32 <? 200 - 256 / 4)%nat with true. cbn iota.
  rewrite length_take, Keccakf_length. done.
Qed.

Lemma Keccak256_bytes m : all_bytes (Keccak256 m).
Proof.
  unfold Keccak256, Hash. destruct (FoldP_absorb _ _ _ _) as [a input].
  cbn [squeeze]. change (32 <? 200 - 256 / 4)%nat with true. cbn iota.
  auto with bytes.
Qed.

(** ** Refinement: the in-place final block is the padded sponge *)

Lemma Xorin_lookup dst src len j : (len <= length dst)%nat ->
  Xorin dst src len !! j
  = if decide (j < len)%nat then Some (Z.lxor (get dst j) (get src j)) else dst !! j.
Proof.
  unfold Xorin. revert j. induction len as [|len IH]; intros j Hl; [done|].
  rewrite seq_S, foldl_app. cbn [foldl Nat.add].
  assert (Hlen : length (foldl (fun d i => <[i:=Z.lxor (get d i) (get src i)]> d) dst (seq 0 len))
                 = length dst).
  { clear. generalize (seq 0 len) as l. intros l. revert dst. induction l as [|i l IH]; intros dst; [done|].
    simpl. by rewrite IH, length_insert. }
  destruct (decide (j = len)) as [->|Hne].
  - rewrite list_lookup_insert_eq by (rewrite Hlen; lia). rewrite decide_True by lia.
    unfold get at 1. rewrite IH, decide_False by lia. done.
  - rewrite list_lookup_insert_ne, IH by lia. repeat case_decide; done || lia.
Qed.

Lemma Xorin_length dst src len : (len <= length dst)%nat -> length (Xorin dst src len) = length dst.
Proof.
  intros _. unfold Xorin. generalize (seq 0 len) as l. intros l. revert dst.
  induction l as [|i l IH]; intros dst; [done|]. simpl. by rewrite IH, length_insert.
Qed.

(** The multi-rate padding of a last, incomplete block. *)
Definition pad_block (rate : nat) (delim : Z) (m : bytes) : bytes :=
  let q := (rate - length m)%nat in
  m ++ (if decide (q = 1%nat) then [Z.lxor delim 0x80]
        else delim :: replicate (q - 2) 0 ++ [0x80]).

(** The message cut into blocks of [rate] bytes, the last one padded. *)
Fixpoint pad_message (fuel rate : nat) (delim : Z) (m : bytes) : list bytes :=
  match fuel with
  | O => [pad_block rate delim m]
  | S fuel =>
    if (length m <? rate)%nat then [pad_block rate delim m]
    else take rate m :: pad_message fuel rate delim (drop rate m)
  end.

(** The sponge on full blocks. *)
Definition absorb_blocks (rate : nat) (a : bytes) (blocks : list bytes) : bytes :=
  foldl (fun a b => Keccakf (Xorin a b rate)) a blocks.

Definition sponge (outlen rate : nat) (delim : Z) (m : bytes) : bytes :=
  squeeze outlen
    (absorb_blocks rate (replicate GetPlen 0) (pad_message (length m) rate delim m)) outlen rate.

Lemma pad_block_length rate delim m :
  (length m < rate)%nat -> length (pad_block rate delim m) = rate.
Proof.
  intros H. unfold pad_block. rewrite length_app. case_decide; cbn [length]; [lia|].
  rewrite length_app, length_replicate. simpl. lia.
Qed.

Lemma pad_block_get rate delim m j : (length m < rate)%nat -> (j < rate)%nat ->
  get (pad_block rate delim m) j
  = Z.lxor (Z.lxor (get m j) (if decide (j = length m) then delim else 0))
      (if decide (j = rate - 1)%nat then 0x80 else 0).
Proof.
  intros Hm Hj. unfold pad_block, get.
  destruct (decide (j < length m)%nat) as [Hlt|Hge].
  { rewrite lookup_app_l by done. rewrite !decide_False by lia. by rewrite !Z.lxor_0_r. }
  rewrite lookup_app_r by lia. rewrite (lookup_ge_None_2 m j) by lia. cbn [default].
  destruct (decide (j = length m)) as [->|Hne].
  - rewrite Nat.sub_diag, Z.lxor_0_l. destruct (decide (rate - length m = 1)%nat).
    + by rewrite decide_True by lia.
    + rewrite decide_False by lia. cbn. by rewrite Z.lxor_0_r.
  - rewrite decide_False by lia. rewrite !Z.lxor_0_l.
    destruct (j - length m)%nat as [|i] eqn:E; [lia|]. rewrite lookup_cons.
    destruct (decide (j = rate - 1)%nat).
    + rewrite lookup_app_r by (rewrite length_replicate; lia). rewrite length_replicate.
      replace (i - (rate - length m - 2))%nat with 0%nat by lia. done.
    + rewrite lookup_app_l by (rewrite length_replicate; lia).
      by rewrite lookup_replicate_2 by lia.
Qed.

Lemma get_insert (a : bytes) i j v : (i < length a)%nat ->
  get (<[i := v]> a) j = if decide (i = j) then v else get a j.
Proof.
  intros Hi. unfold get. case_decide; subst.
  - by rewrite list_lookup_insert_eq.
  - by rewrite list_lookup_insert_ne.
Qed.

(** Padding in place and xoring the rest in is xoring the padded block in. *)
Lemma final_block a m rate delim :
  length a = GetPlen -> (rate <= GetPlen)%nat -> (length m < rate)%nat ->
  let a1 := <[length m := Z.lxor (get a (length m)) delim]> a in
  let a2 := <[(rate - 1)%nat := Z.lxor (get a1 (rate - 1)) 0x80]> a1 in
  Xorin a2 m (length m) = Xorin a (pad_block rate delim m) rate.
Proof.
  intros Ha Hr Hm a1 a2.
  assert (length a1 = GetPlen) as H1 by (subst a1; by rewrite length_insert).
  assert (length a2 = GetPlen) as H2 by (subst a2; by rewrite length_insert).
  assert (Hget : forall j, get a2 j = Z.lxor (get a j)
    (Z.lxor (if decide (j = length m) then delim else 0) (if decide (j = rate - 1)%nat then 0x80 else 0))).
  { intros j. subst a2 a1. rewrite !get_insert by (rewrite ?length_insert; lia).
    repeat case_decide; try lia; rewrite ?Z.lxor_0_r, ?Z.lxor_0_l, ?Z.lxor_assoc; congruence. }
  apply list_eq. intros j. rewrite !Xorin_lookup by lia.
  destruct (decide (j < rate)%nat) as [Hj|Hj].
  - rewrite pad_block_get by done. case_decide.
    + f_equal. rewrite Hget. rewrite !decide_False by lia. by rewrite !Z.lxor_0_r.
    + assert (is_Some (a2 !! j)) as [v Hv] by (apply lookup_lt_is_Some; lia).
      rewrite Hv. f_equal. specialize (Hget j). unfold get at 1 in Hget. rewrite Hv in Hget.
      cbn in Hget. rewrite Hget. unfold get at 3. rewrite (lookup_ge_None_2 m j) by lia. cbn.
      by rewrite Z.lxor_0_l.
  - rewrite decide_False by lia. subst a2 a1. by rewrite !list_lookup_insert_ne by lia.
Qed.

Lemma absorb_refines fuel rate delim : (0 < rate <= GetPlen)%nat -> forall m a,
  (length m <= fuel)%nat -> length a = GetPlen ->
  let '(a', m') := FoldP_absorb fuel a m rate in
  length a' = GetPlen /\ (length m' < rate)%nat /\
  absorb_blocks rate a (pad_message fuel rate delim m)
  = Keccakf (Xorin a' (pad_block rate delim m') rate).
Proof.
  intros Hr. induction fuel as [|fuel IH]; intros m a Hm Ha; cbn [FoldP_absorb pad_message].
  { split_and!; [done|lia|done]. }
  destruct (Nat.ltb_spec (length m) rate); [done|].
  specialize (IH (drop rate m) (Keccakf (Xorin a m rate))).
  rewrite length_drop in IH. specialize (IH ltac:(lia) (Keccakf_length _)).
  destruct (FoldP_absorb _ _ _ _) as [a' m']. destruct IH as (? & ? & IH). split_and!; [done..|].
  cbn [absorb_blocks foldl]. fold (absorb_blocks rate).
  replace (Xorin a (take rate m) rate) with (Xorin a m rate); [exact IH|].
  apply list_eq. intros j. rewrite !Xorin_lookup by lia. case_decide; [|done].
  f_equal. f_equal. unfold get. by rewrite lookup_take_lt by done.
Qed.

(** C40. The hash is the sponge over the padded message: folding full blocks in
    place and patching the delimiter, the final bit and the tail into the state
    is the same as absorbing the multi-rate padding of the message block by
    block, for every rate and every message. *)
Theorem Hash_is_padded_sponge outlen m rate delim :
  (0 < rate <= GetPlen)%nat ->
  Hash outlen m rate delim = sponge outlen rate delim m.
Proof.
  intros Hr. unfold Hash, sponge.
  pose proof (absorb_refines (length m) rate delim Hr m (replicate GetPlen 0)
    (Nat.le_refl _) (length_replicate _ _)) as H.
  destruct (FoldP_absorb _ _ _ _) as [a' m']. destruct H as (Ha & Hm & ->).
  by rewrite (final_block a' m' rate delim) by (done || lia).
Qed.

Lemma Hash_is_padded_sponge_witness : Hash 32 [1; 2; 3] 136 1 = sponge 32 136 1 [1; 2; 3].
Proof. apply (Hash_is_padded_sponge 32 [1; 2; 3] 136 1). unfold GetPlen. lia. Defined.
