(* ===== verification/Bloom.v ===== *)
(** * Bloom filter

    [libs/EclipseMonitor/include/EclipseMonitor/Eth/BloomFilter.hpp]: the
    2048-bit logs bloom of a block header. *)

From stdpp Require Import strings.
From S2P Require Import Prelude Keccak.

(** Exceptions thrown by the monitor itself carry their message. *)
Inductive MonException := Exception (what : string).

#[export] Instance MonException_eq_dec : EqDecision MonException.
Proof. solve_decision. Defined.

Module BloomFilter.
Definition sk_bloomBitSize : Z := 2048.
Definition sk_bloomByteSize : Z := sk_bloomBitSize / 8.

(** The filter is the bytes [m_bloomBeginPtr] points at. *)
Definition CheckBloomBytes (bloomBytes : bytes) : result MonException bytes :=
  if negb (zlen bloomBytes =? sk_bloomByteSize) then
    Throw (Exception "Invalid bloom bytes size")
  else Ok bloomBytes.

(** Byte index and bit mask of one of the three probes: bytes [hi], [lo] of
    the hash. *)
Definition probe_mask (lo : Z) : Z := u8 (Z.shiftl 1 (Z.land lo 0x7)).
Definition probe_index (hi lo : Z) : Z :=
  let i := u16 (Z.lor (Z.shiftl hi 8) lo) in
  let i := u16 (Z.shiftr (Z.land i 0x7FF) 3) in
  u16 (256 - i - 1).

Definition CheckBloomBits (bloom hashedData : bytes) : bool :=
  let v1 := probe_mask (get hashedData 1) in
  let v2 := probe_mask (get hashedData 3) in
  let v3 := probe_mask (get hashedData 5) in
  let i1 := probe_index (get hashedData 0) (get hashedData 1) in
  let i2 := probe_index (get hashedData 2) (get hashedData 3) in
  let i3 := probe_index (get hashedData 4) (get hashedData 5) in
  negb (Z.land (get bloom (Z.to_nat i1)) v1 =? 0) &&
  negb (Z.land (get bloom (Z.to_nat i2)) v2 =? 0) &&
  negb (Z.land (get bloom (Z.to_nat i3)) v3 =? 0).

Fixpoint AreHashesInBloom (bloom : bytes) (hashes : list bytes) : bool :=
  match hashes with
  | [] => true
  | h :: rest => if negb (CheckBloomBits bloom h) then false else AreHashesInBloom bloom rest
  end.

Definition IsEventInBloom (bloom : bytes) (eventData : list bytes) : bool :=
  AreHashesInBloom bloom (map Keccak256 eventData).

Definition Count1BitsInByte (byte : Z) : Z :=
  let count := 0 in
  let count := count + Z.land byte 0x01 in
  let count := count + Z.shiftr (Z.land byte 0x02) 1 in
  let count := count + Z.shiftr (Z.land byte 0x04) 2 in
  let count := count + Z.shiftr (Z.land byte 0x08) 3 in
  let count := count + Z.shiftr (Z.land byte 0x10) 4 in
  let count := count + Z.shiftr (Z.land byte 0x20) 5 in
  let count := count + Z.shiftr (Z.land byte 0x40) 6 in
  let count := count + Z.shiftr (Z.land byte 0x80) 7 in
  count.

Definition Count1Bits (bloom : bytes) : Z :=
  foldl (fun count i => count + Count1BitsInByte (get bloom i)) 0
    (seq 0 (Z.to_nat sk_bloomByteSize)).

Definition Count0Bits (bloom : bytes) : Z := u64 (sk_bloomBitSize - Count1Bits bloom).
End BloomFilter.

(** ** The bloom as a 2048-bit integer *)

(** The bit number a hash probes: the low 11 bits of a big-endian pair. *)
Definition bloom_bit (h : bytes) (i : nat) : Z :=
  (get h i * 256 + get h (S i)) mod 2048.

Definition bloom_bits (h : bytes) : list Z := [bloom_bit h 0; bloom_bit h 2; bloom_bit h 4].

Lemma get_byte (l : bytes) i : all_bytes l -> is_byte (get l i).
Proof.
  intros Hl. unfold get. destruct (l !! i) as [x|] eqn:E; [|by split].
  by eapply Forall_lookup_1 in Hl.
Qed.

(** Bit [8k + j] of a big-endian string is bit [j] of the [k]th byte from the end. *)
Lemma be_val_testbit l k j : all_bytes l -> (k < length l)%nat -> 0 <= j < 8 ->
  Z.testbit (be_val l) (8 * Z.of_nat k + j) = Z.testbit (get l (length l - 1 - k)) j.
Proof.
  induction l as [|b l IH]; intros Hl Hk Hj; [cbn [length] in Hk; lia|].
  apply all_bytes_cons in Hl as [Hb Hl]. cbn [length] in *.
  assert (fits (8 * zlen l) (be_val l)) as Hv.
  { unfold fits. rewrite <-pow256_pow2. by apply be_val_bounds. }
  rewrite be_val_cons, pow256_pow2. destruct (decide (k = length l)) as [->|Hne].
  - rewrite testbit_split_high by (done || lia).
    by replace (S (length l) - 1 - length l)%nat with 0%nat by lia.
  - rewrite testbit_split_low, IH by (done || lia).
    by replace (S (length l) - 1 - k)%nat with (S (length l - 1 - k)) by lia.
Qed.

(** A probe reads exactly its bit of the big-endian bloom integer. *)
Lemma probe_spec bloom hi lo :
  all_bytes bloom -> length bloom = 256%nat -> is_byte hi -> is_byte lo ->
  negb (Z.land (get bloom (Z.to_nat (BloomFilter.probe_index hi lo))) (BloomFilter.probe_mask lo) =? 0)
  = Z.testbit (be_val bloom) ((hi * 256 + lo) mod 2048).
Proof.
  intros Hb Hlen Hhi Hlo. unfold BloomFilter.probe_index, BloomFilter.probe_mask.
  change 0x7FF with (Z.ones 11). change 0x7 with (Z.ones 3).
  rewrite lor_shiftl_add, !land_ones_mod by (done || word_lia).
  change (2 ^ 11) with 2048. change (2 ^ 3) with 8. change (2 ^ 8) with 256.
  rewrite shiftr_div_pow2, (Z.shiftl_mul_pow2 1 (lo mod 8)) by mod_lia. change (2 ^ 3) with 8.
  rewrite (wrap_small 16 (hi * 256 + lo)) by word_lia.
  set (n := (hi * 256 + lo) mod 2048).
  assert (0 <= n < 2048) as Hn by (subst n; mod_lia).
  assert (lo mod 8 = n mod 8) as -> by (subst n; mod_lia).
  rewrite (wrap_small 16 (n / 8)) by word_lia. rewrite (wrap_small 16) by word_lia.
  assert (is_byte (1 * 2 ^ (n mod 8))) as Hm.
  { rewrite Z.mul_1_l. split; [apply Z.pow_nonneg; lia|]. apply Z.pow_lt_mono_r; mod_lia. }
  rewrite (wrap_small 8) by done. rewrite Z.mul_1_l, land_pow2_test, negb_involutive by mod_lia.
  rewrite (Z.div_mod n 8) at 3 by lia. rewrite <-(Z2Nat.id (n / 8)) at 2 by mod_lia.
  rewrite be_val_testbit by (done || mod_lia). do 2 f_equal. mod_lia.
Qed.

Lemma check_bits bloom h :
  all_bytes bloom -> zlen bloom = BloomFilter.sk_bloomByteSize -> all_bytes h ->
  BloomFilter.CheckBloomBits bloom h = forallb (Z.testbit (be_val bloom)) (bloom_bits h).
Proof.
  intros Hb Hl Hh. change BloomFilter.sk_bloomByteSize with 256 in Hl.
  unfold BloomFilter.CheckBloomBits, bloom_bits, bloom_bit.
  rewrite !probe_spec by first [done | by apply get_byte | lia].
  cbn [forallb]. by rewrite andb_true_r, andb_assoc.
Qed.

(** [CheckBloomBits] is the Ethereum bloom test: the three 11-bit indices
    taken from the hash are set in the bloom read as a 2048-bit big-endian
    integer. *)
Theorem CheckBloomBits_spec bloom h :
  all_bytes bloom -> zlen bloom = BloomFilter.sk_bloomByteSize -> all_bytes h ->
  BloomFilter.CheckBloomBits bloom h = forallb (Z.testbit (be_val bloom)) (bloom_bits h).
Proof. apply check_bits. Qed.

Definition sample_hash : bytes :=
  be_bytes 32 0x0123456789abcdeffedcba98765432100011223344556677ffeeddccbbaa9988.
Definition sample_bloom : bytes := be_bytes 256 (2 ^ 5 + 2 ^ 2047).

Lemma sample_hash_bytes : all_bytes sample_hash.
Proof. apply all_bytes_be_bytes. Qed.

Lemma CheckBloomBits_spec_witness :
  BloomFilter.CheckBloomBits sample_bloom sample_hash
  = forallb (Z.testbit (be_val sample_bloom)) (bloom_bits sample_hash).
Proof.
  apply (CheckBloomBits_spec sample_bloom sample_hash);
    [apply all_bytes_be_bytes | reflexivity | apply sample_hash_bytes].
Defined.

(** ** No false negatives *)

Lemma AreHashesInBloom_forallb bloom hs :
  BloomFilter.AreHashesInBloom bloom hs = forallb (BloomFilter.CheckBloomBits bloom) hs.
Proof.
  induction hs as [|h hs IH]; [done|]. cbn. by destruct (BloomFilter.CheckBloomBits bloom h).
Qed.

(** Adding a hash to a bloom sets its three bits. *)
Definition bloom_add (v : Z) (h : bytes) : Z := foldl Z.setbit v (bloom_bits h).

(** The bloom integer of everything a block logged. *)
Definition bloom_of (hashes : list bytes) : Z := foldl bloom_add 0 hashes.

Lemma setbits_mono l v n : 0 <= n -> Forall (fun i => 0 <= i) l ->
  Z.testbit (foldl Z.setbit v l) n = Z.testbit v n || bool_decide (n ∈ l).
Proof.
  intros Hn. revert v. induction l as [|i l IH]; intros v Hl; [by rewrite orb_false_r|].
  apply Forall_cons in Hl as [Hi Hl]. cbn [foldl]. rewrite IH, Z.setbit_eqb by done.
  destruct (Z.testbit v n); [by rewrite orb_true_r|]. rewrite orb_false_r. cbn.
  apply eq_bool_prop_intro. rewrite orb_True, !bool_decide_spec, elem_of_cons.
  rewrite Is_true_true, Z.eqb_eq. naive_solver.
Qed.

Lemma bloom_bits_range h : Forall (fun i => 0 <= i) (bloom_bits h).
Proof. repeat constructor; apply Z.mod_pos_bound; lia. Qed.

Lemma bloom_of_testbit hs v n : 0 <= n ->
  Z.testbit (foldl bloom_add v hs) n
  = Z.testbit v n || existsb (fun h => bool_decide (n ∈ bloom_bits h)) hs.
Proof.
  intros Hn. revert v. induction hs as [|h hs IH]; intros v; [by rewrite orb_false_r|].
  cbn [foldl existsb]. rewrite IH. unfold bloom_add.
  rewrite setbits_mono by (done || apply bloom_bits_range). by rewrite orb_assoc.
Qed.

Lemma bloom_covered bloom logged query :
  all_bytes bloom -> zlen bloom = BloomFilter.sk_bloomByteSize ->
  be_val bloom = bloom_of logged ->
  Forall all_bytes query -> query ⊆ logged ->
  BloomFilter.AreHashesInBloom bloom query = true.
Proof.
  intros Hb Hl Hv Hq Hsub. rewrite AreHashesInBloom_forallb.
  apply forallb_forall. intros h Hin. apply list_elem_of_In in Hin.
  rewrite check_bits by (done || by eapply Forall_forall in Hin).
  apply forallb_forall. intros n Hn. apply list_elem_of_In in Hn.
  pose proof (bloom_bits_range h) as Hr. rewrite Forall_forall in Hr.
  rewrite Hv. unfold bloom_of. rewrite bloom_of_testbit by auto.
  apply orb_true_iff. right. apply existsb_exists. exists h.
  split; [apply list_elem_of_In; auto|]. by apply bool_decide_eq_true.
Qed.

(** A bloom filter has no false negatives: whatever a block logged, every
    query made only of logged hashes is answered positively, which is what the
    event manager relies on when it skips a block. *)
Theorem bloom_no_false_negative bloom logged query :
  all_bytes bloom -> zlen bloom = BloomFilter.sk_bloomByteSize ->
  be_val bloom = bloom_of logged ->
  Forall all_bytes query -> query ⊆ logged ->
  BloomFilter.AreHashesInBloom bloom query = true.
Proof. apply bloom_covered. Qed.

Lemma bloom_no_false_negative_witness :
  BloomFilter.AreHashesInBloom (be_bytes 256 (bloom_of [sample_hash; [1; 2; 3]])) [sample_hash] = true.
Proof.
  apply (bloom_no_false_negative (be_bytes 256 (bloom_of [sample_hash; [1; 2; 3]]))
           [sample_hash; [1; 2; 3]] [sample_hash]);
    [apply all_bytes_be_bytes | reflexivity | rewrite be_val_be_bytes; vm_compute; reflexivity
    | constructor; [apply sample_hash_bytes | constructor]
    | intros x Hx; apply list_elem_of_singleton in Hx; subst; left ].
Defined.

Lemma bloom_of_fits hs : fits 2048 (bloom_of hs).
Proof.
  assert (bloom_of hs = bloom_of hs mod 2 ^ 2048) as E; [|rewrite E; apply Z.mod_pos_bound; lia].
  apply Z.bits_inj'. intros n Hn. destruct (Z.lt_ge_cases n 2048).
  { by rewrite Z.mod_pow2_bits_low. }
  rewrite Z.mod_pow2_bits_high by lia. unfold bloom_of.
  rewrite bloom_of_testbit, Z.testbit_0_l by done. cbn [orb].
  apply not_true_is_false. intros (h & _ & Hb)%existsb_exists. apply bool_decide_eq_true in Hb.
  unfold bloom_bits, bloom_bit in Hb. set_unfold in Hb.
  destruct Hb as [->|[->|[->|[]]]]; mod_lia.
Qed.

(** The 256 bytes of the bloom of the hashes. *)
Lemma bloom_bytes_val hs : be_val (be_bytes 256 (bloom_of hs)) = bloom_of hs.
Proof.
  rewrite be_val_be_bytes, pow256_pow2. apply Z.mod_small.
  pose proof (bloom_of_fits hs) as H. exact H.
Qed.

(** ** Counting bits *)

Definition popcount (n : nat) (v : Z) : Z := sum_seq (fun i => Z.b2z (Z.testbit v (Z.of_nat i))) n.

Lemma Count1BitsInByte_spec b : is_byte b -> BloomFilter.Count1BitsInByte b = popcount 8 b.
Proof.
  intros Hb.
  assert (forallb (fun i => let b := Z.of_nat i in
            BloomFilter.Count1BitsInByte b =? popcount 8 b) (seq 0 256) = true) as H
    by (vm_compute; reflexivity).
  rewrite forallb_forall in H. specialize (H (Z.to_nat b)). cbn zeta in H.
  rewrite Z2Nat.id in H by word_lia. apply Z.eqb_eq, H, in_seq. word_lia.
Qed.

Lemma popcount_be_val l : all_bytes l ->
  popcount (8 * length l) (be_val l) = foldr (fun b s => BloomFilter.Count1BitsInByte b + s) 0 l.
Proof.
  induction l as [|b l IH]; intros Hl; [done|].
  apply all_bytes_cons in Hl as [Hb Hl]. cbn [foldr length]. rewrite <-IH by done.
  rewrite Count1BitsInByte_spec by done. unfold popcount.
  replace (8 * S (length l))%nat with (8 * length l + 8)%nat by lia.
  rewrite sum_seq_add, Z.add_comm, be_val_cons, pow256_pow2.
  assert (fits (8 * zlen l) (be_val l)) as Hv.
  { unfold fits. rewrite <-pow256_pow2. by apply be_val_bounds. }
  f_equal; apply sum_seq_ext; intros i Hi; f_equal.
  - rewrite Nat2Z.inj_add, Nat2Z.inj_mul. apply testbit_split_high; done || lia.
  - apply testbit_split_low; done || lia.
Qed.

Lemma Count1Bits_fold l : length l = Z.to_nat BloomFilter.sk_bloomByteSize ->
  BloomFilter.Count1Bits l = foldr (fun b s => BloomFilter.Count1BitsInByte b + s) 0 l.
Proof.
  intros Hl. unfold BloomFilter.Count1Bits. rewrite <-Hl. clear Hl.
  assert (forall n c, (n <= length l)%nat ->
    foldl (fun count i => count + BloomFilter.Count1BitsInByte (get l i)) c (seq 0 n)
    = c + foldr (fun b s => BloomFilter.Count1BitsInByte b + s) 0 (take n l)) as H.
  { induction n as [|n IH]; intros c Hn; [rewrite take_0; cbn; lia|].
    rewrite seq_S, foldl_app, IH by lia. cbn [foldl Nat.add].
    destruct (lookup_lt_is_Some_2 l n) as [x Hx]; [lia|].
    rewrite (take_S_r _ _ x), foldr_app by done. cbn [foldr].
    rewrite (sum_foldr_acc BloomFilter.Count1BitsInByte (take n l) (_ + 0)).
    unfold get. rewrite Hx. simpl. lia. }
  rewrite H, firstn_all by done. lia.
Qed.

(** [Count1Bits] is the number of bits set in the 2048-bit bloom, and
    [Count0Bits] the number of the others, without overflow. *)
Theorem Count1Bits_popcount bloom :
  all_bytes bloom -> zlen bloom = BloomFilter.sk_bloomByteSize ->
  BloomFilter.Count1Bits bloom = popcount 2048 (be_val bloom) /\
  BloomFilter.Count0Bits bloom = 2048 - popcount 2048 (be_val bloom).
Proof.
  intros Hb Hl.
  assert (BloomFilter.Count1Bits bloom = popcount 2048 (be_val bloom)) as E.
  { rewrite Count1Bits_fold by (rewrite <-Hl; lia). change BloomFilter.sk_bloomByteSize with 256 in Hl.
    rewrite <-popcount_be_val by done. f_equal. lia. }
  split; [done|]. unfold BloomFilter.Count0Bits. rewrite E.
  assert (forall n, 0 <= popcount n (be_val bloom) <= Z.of_nat n) as Hp.
  { unfold popcount. induction n as [|n IH]; [by cbn|]. rewrite sum_seq_S.
    destruct (Z.testbit _ _); cbn [Z.b2z]; lia. }
  specialize (Hp 2048%nat). apply wrap_small. unfold BloomFilter.sk_bloomBitSize. word_lia.
Qed.

Lemma Count1Bits_popcount_witness :
  BloomFilter.Count1Bits sample_bloom = popcount 2048 (be_val sample_bloom) /\
  BloomFilter.Count0Bits sample_bloom = 2048 - popcount 2048 (be_val sample_bloom).
Proof. apply (Count1Bits_popcount sample_bloom); [apply all_bytes_be_bytes | reflexivity]. Defined.
