(* ===== verification/EthHeader.v ===== *)
(** * Block headers

    The RLP dictionary of a header ([SimpleRlp/EthHeader.hpp]) with the static
    dict parser that reads it ([StaticDictParser.hpp]), the integer fields
    ([EclipseMonitor/Eth/DataTypes.hpp]) and the parsed header the monitor
    works with ([EclipseMonitor/Eth/HeaderMgr.hpp]). *)

From stdpp Require Import strings.
From S2P Require Import Prelude RlpEncoding RlpDecoding RlpTheorems Keccak Bloom.

(** ** The static dict parser *)

Module StaticDictParser.
Section parser.
(** [std::tuple_size<ParserTuple>], and the two template flags. *)
Context (numOfParsers : nat) (AllowMissingItem AllowExtraItem : bool).

(** The [while (size > 0)] loop over [BytesParser] items.  Each turn consumes
    at least a byte, so the fuel is one more than the bytes of the input. *)
Fixpoint ProcDictItems (fuel : nat) (ism : ISM.t) (size : Z) (numOfParsed : nat)
    (resTp : list bytes) : result RlpError (list bytes * ISM.t) :=
  match fuel with
  | O => Throw OutOfFuel
  | S fuel =>
    if size <=? 0 then
      if (numOfParsed <? numOfParsers)%nat && negb AllowMissingItem then
        Throw (ParseError "The static dict parser is expecting more items to parse"
          (ISM.GetBytesCount ism))
      else Ok (resTp, ism)
    else
      '(nextByte, ism) ← ISM.GetByteAndAdv ism;
      let size := size - 1 in
      '(nextType, nextVal) ← DecodeRlpLeadingByte 8 true nextByte (ISM.GetBytesCount ism);
      if (numOfParsers <=? numOfParsed)%nat then
        if AllowExtraItem then
          '(_, ism, size) ← GeneralParser.ParseTyped fuel ism nextType nextVal size;
          ProcDictItems fuel ism size (S numOfParsed) resTp
        else
          Throw (ParseError "The static dict parser encounters more items than expected"
            (ISM.GetBytesCount ism))
      else
        '(b, ism, size) ← BytesParser.Parse ism nextType nextVal size;
        ProcDictItems fuel ism size (S numOfParsed) (<[numOfParsed := b]> resTp)
  end.

Definition ParseTyped (fuel : nat) (ism : ISM.t) (rlpType : RlpEncodeType)
    (rlpVal byteLeft : Z) : result RlpError (list bytes * ISM.t * Z) :=
  '(size, ism, byteLeft) ← ParserBase.ProcRlpListHeader ism rlpType rlpVal byteLeft;
  byteLeft ← ParserBase.CheckByteLeft byteLeft size (ISM.GetBytesCount ism);
  '(res, ism) ← ProcDictItems fuel ism size 0 (replicate numOfParsers []);
  Ok (res, ism, byteLeft).

Definition Parse (ctn : bytes) (checkExtra : bool) : result RlpError (list bytes) :=
  ParserBase.Parse (ParseTyped (S (length ctn))) ctn checkExtra.
End parser.
End StaticDictParser.

(** ** The header dictionary *)

Module EthHeader.
Record t := mk {
  ParentHash : bytes; Sha3Uncles : bytes; Miner : bytes; StateRoot : bytes;
  TransactionsRoot : bytes; ReceiptsRoot : bytes; LogsBloom : bytes;
  Difficulty : bytes; Number : bytes; GasLimit : bytes; GasUsed : bytes;
  Timestamp : bytes; ExtraData : bytes; MixHash : bytes; Nonce : bytes;
  BaseFee : bytes; WithdrawalsHash : bytes; BlobGasUsed : bytes;
  ExcessBlobGas : bytes; ParentBeaconRoot : bytes }.

(** The items of the dict, in the order of the tuple. *)
Definition items (h : t) : list bytes :=
  [ParentHash h; Sha3Uncles h; Miner h; StateRoot h; TransactionsRoot h; ReceiptsRoot h;
   LogsBloom h; Difficulty h; Number h; GasLimit h; GasUsed h; Timestamp h; ExtraData h;
   MixHash h; Nonce h; BaseFee h; WithdrawalsHash h; BlobGasUsed h; ExcessBlobGas h;
   ParentBeaconRoot h].

Definition numOfItems : nat := 20.

(** The dict made of the tuple the parser filled. *)
Definition of_items (l : list bytes) : t :=
  let f i := default [] (l !! i) in
  mk (f 0%nat) (f 1%nat) (f 2%nat) (f 3%nat) (f 4%nat) (f 5%nat) (f 6%nat) (f 7%nat)
     (f 8%nat) (f 9%nat) (f 10%nat) (f 11%nat) (f 12%nat) (f 13%nat) (f 14%nat) (f 15%nat)
     (f 16%nat) (f 17%nat) (f 18%nat) (f 19%nat).

Definition Write (h : t) (skipLast : Z) : result RlpError bytes :=
  WriterStaticDict_Write WriterGeneric.Write (map OBytes (items h)) skipLast.

(** [EthHeaderParser]: missing items are allowed, extra ones are not. *)
Definition Parse (rawBinary : bytes) : result RlpError t :=
  l ← StaticDictParser.Parse numOfItems true false rawBinary true;
  Ok (of_items l).

Definition set_LogsBloom (h : t) (v : bytes) : t := of_items (<[6%nat := v]> (items h)).
Definition set_Number (h : t) (v : bytes) : t := of_items (<[8%nat := v]> (items h)).
Definition set_Timestamp (h : t) (v : bytes) : t := of_items (<[11%nat := v]> (items h)).
Definition set_Difficulty (h : t) (v : bytes) : t := of_items (<[7%nat := v]> (items h)).
Definition set_Sha3Uncles (h : t) (v : bytes) : t := of_items (<[1%nat := v]> (items h)).

Definition empty : t := of_items [].
End EthHeader.

(** ** Integer fields *)

Module PrimitiveTypeTrait.
(** [inFunc] of [FromBytes]: the lambda's captured index is its state. *)
Definition next (b : bytes) (i : nat) : result RlpError (Z * nat) := Ok (get b i, S i).

(** [sz] is [sizeof(_PrimitiveType)], 8 for every instance. *)
Definition FromBytes (sz : nat) (b : bytes) : result RlpError Z :=
  '(res, _) ← ParsePrimitiveIntValue.Parse (next b) sz true (zlen b) 0%nat;
  Ok res.

Definition ToBytes (sz : nat) (v : Z) : bytes := EncodePrimitiveIntValue.Encode sz v.
End PrimitiveTypeTrait.

(** [BlkNumTypeTrait], [TimeTypeTrait] and [DiffTypeTrait] are all [uint64_t]. *)
Definition U64_FromBytes : bytes -> result RlpError Z := PrimitiveTypeTrait.FromBytes 8.
Definition U64_ToBytes : Z -> bytes := PrimitiveTypeTrait.ToBytes 8.

(** ** The parsed header *)

(** The exceptions of SimpleObjects the monitor runs into: an object of
    another category than expected, a list index out of range. *)
Inductive ObjError :=
| TypeError (expected actual : string)
| IndexError (idx : Z).

#[export] Instance ObjError_eq_dec : EqDecision ObjError.
Proof. solve_decision. Defined.

(** What a call into the monitor can end with instead of a result: an
    exception of one of the libraries or of the monitor itself, or behaviour
    that the language leaves undefined. *)
Inductive Error :=
| FromRlp (e : RlpError)
| FromObj (e : ObjError)
| FromMonitor (e : MonException)
| FromStd (what : string)
| Undefined (what : string).

#[export] Instance Error_eq_dec : EqDecision Error.
Proof. solve_decision. Defined.

#[export] Instance error_from_rlp : FromRlpError Error := FromRlp.

Definition lift_rlp {A} (r : result RlpError A) : result Error A :=
  match r with Ok a => Ok a | Throw e => Throw (FromRlp e) end.
Definition lift_mon {A} (r : result MonException A) : result Error A :=
  match r with Ok a => Ok a | Throw e => Throw (FromMonitor e) end.

Module HeaderMgr.
(** [m_hash] is also [m_hashObj], its copy as an object: both are set when the header
    is made, and only then. *)
Record t := mk {
  m_rawHeader : EthHeader.t; m_trustedTime : Z; m_bloomFilter : bytes; m_hash : bytes;
  m_blkNum : Z; m_time : Z; m_diff : Z; m_hasUncle : bool }.

Definition GetEmptyUncleHash : bytes :=
  [0x1D; 0xCC; 0x4D; 0xE8; 0xDE; 0xC7; 0x5D; 0x7A; 0xAB; 0x85;
   0xB5; 0x67; 0xB6; 0xCC; 0xD4; 0x1A; 0xD3; 0x12; 0x45; 0x1B;
   0x94; 0x8A; 0x74; 0x13; 0xF0; 0xA1; 0x42; 0xFD; 0x40; 0xD4;
   0x93; 0x47].

(** The default constructor. *)
Definition init : t :=
  let bloom := replicate (Z.to_nat BloomFilter.sk_bloomByteSize) 0 in
  mk (EthHeader.set_LogsBloom EthHeader.empty bloom) 0 bloom (replicate 32 0) 0 0 0 false.

(** The members are initialised in their declaration order; the first that
    throws ends the construction. *)
Definition create (rawBinary : bytes) (trustedTime : Z) : result Error t :=
  rawHeader ← lift_rlp (EthHeader.Parse rawBinary);
  bloomFilter ← lift_mon (BloomFilter.CheckBloomBytes (EthHeader.LogsBloom rawHeader));
  let hash := Keccak256 rawBinary in
  blkNum ← lift_rlp (U64_FromBytes (EthHeader.Number rawHeader));
  time ← lift_rlp (U64_FromBytes (EthHeader.Timestamp rawHeader));
  diff ← lift_rlp (U64_FromBytes (EthHeader.Difficulty rawHeader));
  let hasUncle := negb (bool_decide (EthHeader.Sha3Uncles rawHeader = GetEmptyUncleHash)) in
  Ok (mk rawHeader trustedTime bloomFilter hash blkNum time diff hasUncle).

Definition SetNumber (h : t) (blkNum : Z) : t :=
  mk (EthHeader.set_Number (m_rawHeader h) (U64_ToBytes blkNum))
     (m_trustedTime h) (m_bloomFilter h) (m_hash h) blkNum (m_time h) (m_diff h) (m_hasUncle h).

Definition SetTime (h : t) (time : Z) : t :=
  mk (EthHeader.set_Timestamp (m_rawHeader h) (U64_ToBytes time))
     (m_trustedTime h) (m_bloomFilter h) (m_hash h) (m_blkNum h) time (m_diff h) (m_hasUncle h).

Definition SetDiff (h : t) (diff : Z) : t :=
  mk (EthHeader.set_Difficulty (m_rawHeader h) (U64_ToBytes diff))
     (m_trustedTime h) (m_bloomFilter h) (m_hash h) (m_blkNum h) (m_time h) diff (m_hasUncle h).

Definition SetUncleHash (h : t) (uncleHash : bytes) : t :=
  mk (EthHeader.set_Sha3Uncles (m_rawHeader h) uncleHash)
     (m_trustedTime h) (m_bloomFilter h) (m_hash h) (m_blkNum h) (m_time h) (m_diff h)
     (negb (bool_decide (uncleHash = GetEmptyUncleHash))).
End HeaderMgr.

(** ** Lemmas *)

Lemma items_of_items l : length l = EthHeader.numOfItems -> EthHeader.items (EthHeader.of_items l) = l.
Proof. intros H. unfold EthHeader.numOfItems in H. do 21 (destruct l as [|? l]; try done). Qed.

Lemma of_items_items h : EthHeader.of_items (EthHeader.items h) = h.
Proof. by destruct h. Qed.

(** The payload of a list of byte strings. *)
Definition payload (l : list bytes) : bytes := mjoin (map EncodeRlpBytes.SerializeBytes l).

Lemma write_bytes_list l : Forall all_bytes l ->
  WriterList_concat WriterGeneric.Write (map OBytes l) = Ok (payload l).
Proof.
  induction 1 as [|b l Hb _ IH]; [done|]. cbn [map WriterList_concat WriterGeneric.Write].
  unfold WriterBytes.Write. rewrite map_u8_id by done. cbn. by rewrite IH.
Qed.

Lemma payload_cons b l : payload (b :: l) = EncodeRlpBytes.SerializeBytes b ++ payload l.
Proof. done. Qed.

Lemma serialize_fits b n : fits 64 (zlen (EncodeRlpBytes.SerializeBytes b) + n) -> 0 <= n ->
  fits 64 (zlen b).
Proof.
  unfold EncodeRlpBytes.SerializeBytes. case_match; rewrite ?length_app; word_lia.
Qed.

(** One turn of the dict loop. *)
Lemma dict_step N b fuel c rest size k res :
  all_bytes b -> fits 64 (zlen (EncodeRlpBytes.SerializeBytes b)) ->
  zlen (EncodeRlpBytes.SerializeBytes b) <= size ->
  let enc := EncodeRlpBytes.SerializeBytes b in
  (0 < length enc)%nat /\
  StaticDictParser.ProcDictItems N true false (S fuel) (ISM.at_ c (enc ++ rest)) size k res
  = if (N <=? k)%nat then
      Throw (ParseError "The static dict parser encounters more items than expected" (u64 (c + 1)))
    else
      StaticDictParser.ProcDictItems N true false fuel
        (ISM.at_ (adv_count c (length enc)) rest) (size - zlen enc) (S k) (<[k := b]> res).
Proof.
  intros Hb Hfit Hs enc.
  assert (fits 64 (zlen b)) as Hn by (apply (serialize_fits b 0); [by rewrite Z.add_0_r|lia]).
  destruct (bytes_item b Hb Hn) as (b0 & tl & t & v & E & H0 & Htl & Ht & Hd & Hh).
  subst enc. rewrite E in *. cbn [length] in *. split; [lia|].
  cbn [StaticDictParser.ProcDictItems]. rewrite (proj2 (Z.leb_gt _ _)) by lia.
  rewrite <-app_comm_cons, ISM.adv_cons. cbn -[StaticDictParser.ProcDictItems Z.sub Nat.leb].
  rewrite Hd. cbn -[StaticDictParser.ProcDictItems Z.sub Nat.leb].
  destruct (N <=? k)%nat; [done|].
  specialize (Hh (u64 (c + 1)) rest (size - 1) ltac:(lia)). rewrite adv_count_S in Hh.
  rewrite Hh. cbn -[StaticDictParser.ProcDictItems Z.sub]. f_equal. lia.
Qed.

(** The dict loop on the payload of a list: the items land in their slots, or
    the first item too many is refused. *)
Lemma dict_items N l : Forall all_bytes l -> forall fuel c k res rest,
  fits 64 (zlen (payload l)) -> (length (payload l) < fuel)%nat -> (k <= N)%nat -> length res = N ->
  if decide (k + length l <= N)%nat then
    StaticDictParser.ProcDictItems N true false fuel (ISM.at_ c (payload l ++ rest)) (zlen (payload l)) k res
    = Ok (take k res ++ l ++ drop (k + length l) res, ISM.at_ (adv_count c (length (payload l))) rest)
  else exists pos,
    StaticDictParser.ProcDictItems N true false fuel (ISM.at_ c (payload l ++ rest)) (zlen (payload l)) k res
    = Throw (ParseError "The static dict parser encounters more items than expected" pos).
Proof.
  induction 1 as [|b l Hb Hl IH]; intros fuel c k res rest Hfit Hf Hk Hlen.
  { cbn [length]. rewrite decide_True by lia. destruct fuel; [cbn in Hf; lia|]. simpl.
    rewrite andb_false_r. by rewrite Nat.add_0_r, take_drop. }
  rewrite payload_cons in *. rewrite length_app, Nat2Z.inj_add in *. cbn [length].
  destruct fuel as [|fuel]; [lia|]. rewrite <-app_assoc.
  destruct (dict_step N b fuel c (payload l ++ rest)
    (zlen (EncodeRlpBytes.SerializeBytes b) + zlen (payload l)) k res) as [Hpos ->];
    [done|word_lia|lia|].
  destruct (Nat.leb_spec N k).
  { rewrite decide_False by lia. eauto. }
  replace (zlen (EncodeRlpBytes.SerializeBytes b) + zlen (payload l)
    - zlen (EncodeRlpBytes.SerializeBytes b)) with (zlen (payload l)) by lia.
  specialize (IH fuel (adv_count c (length (EncodeRlpBytes.SerializeBytes b))) (S k)
    (<[k := b]> res) rest ltac:(word_lia) ltac:(lia) ltac:(lia) ltac:(by rewrite length_insert)).
  replace (S k + length l)%nat with (k + S (length l))%nat in IH by lia.
  case_decide; [|done]. rewrite IH, adv_count_add.
  rewrite (take_S_r _ _ b) by (apply list_lookup_insert_eq; lia).
  rewrite take_insert_ge, drop_insert_lt by lia. by rewrite <-app_assoc.
Qed.

(** The header parser on any list of byte strings. *)
Lemma parse_bytes_list l : Forall all_bytes l ->
  let raw := EncodeRlpList.SerializeBytes (payload l) in
  fits 64 (zlen raw) ->
  if decide (length l <= EthHeader.numOfItems)%nat then
    EthHeader.Parse raw
    = Ok (EthHeader.of_items (l ++ replicate (EthHeader.numOfItems - length l) []))
  else exists pos, EthHeader.Parse raw
    = Throw (ParseError "The static dict parser encounters more items than expected" pos).
Proof.
  intros Hl raw Hfit. subst raw. unfold EncodeRlpList.SerializeBytes in *.
  rewrite length_app, Nat2Z.inj_add in Hfit.
  assert (fits 64 (zlen (payload l))) as Hn by word_lia.
  destruct (list_header _ Hn) as (b0 & tl & t & v & E & _ & _ & Ht & Hd & Hh).
  rewrite E. rewrite E in Hfit. cbn [length] in Hfit. rewrite <-app_comm_cons.
  unfold EthHeader.Parse, StaticDictParser.Parse, ParserBase.Parse, ParserBase.ParseRange.
  rewrite ISM.init_at. cbn -[StaticDictParser.ParseTyped Z.sub Z.of_nat ParserBase.ParseAt].
  unfold ParserBase.ParseAt, ParserBase.CheckByteLeft.
  rewrite (proj2 (Z.ltb_ge _ _)) by (cbn [length]; lia).
  cbn -[StaticDictParser.ParseTyped Z.sub Z.of_nat ISM.GetByteAndAdv].
  rewrite ISM.adv_cons. cbn -[StaticDictParser.ParseTyped Z.sub Z.of_nat]. rewrite Hd.
  cbn -[StaticDictParser.ParseTyped Z.sub Z.of_nat].
  unfold StaticDictParser.ParseTyped.
  specialize (Hh (u64 (0 + 1)) (payload l) (Z.of_nat (S (length (tl ++ payload l))) - 1)
    ltac:(rewrite length_app; lia)).
  rewrite Hh. cbn -[StaticDictParser.ProcDictItems Z.sub Z.of_nat EthHeader.numOfItems].
  unfold ParserBase.CheckByteLeft. rewrite length_app.
  rewrite (proj2 (Z.ltb_ge _ _)) by lia.
  cbn -[StaticDictParser.ProcDictItems Z.sub Z.of_nat EthHeader.numOfItems EthHeader.of_items].
  pose proof (dict_items EthHeader.numOfItems l Hl (S (S (length tl + length (payload l))))
    (adv_count (u64 (0 + 1)) (length tl)) 0 (replicate EthHeader.numOfItems []) []
    Hn ltac:(lia) ltac:(lia) ltac:(by rewrite length_replicate)) as HD.
  rewrite app_nil_r in HD. cbn [Nat.add] in HD. case_decide.
  - rewrite HD. cbn -[Z.sub Z.of_nat EthHeader.numOfItems EthHeader.of_items].
    rewrite (proj2 (Z.eqb_eq _ _)) by lia.
    cbn -[EthHeader.numOfItems EthHeader.of_items]. by rewrite drop_replicate.
  - destruct HD as [pos ->]. by eexists.
Qed.

(** ** Header round trip *)

Lemma static_concat_take f l n k : zlen l = n -> 0 <= k <= n ->
  WriterStaticDict_concat f n k l = WriterList_concat f (take (Z.to_nat (n - k)) l).
Proof.
  revert n. induction l as [|x l IH]; intros n Hn Hk; [by rewrite take_nil|].
  cbn [length] in Hn. cbn [WriterStaticDict_concat]. destruct (Z.leb_spec n k).
  { by replace (Z.to_nat (n - k)) with 0%nat by lia. }
  replace (Z.to_nat (n - k)) with (S (Z.to_nat (n - 1 - k))) by lia.
  cbn [take WriterList_concat]. by rewrite IH by lia.
Qed.

Lemma header_write h k : Forall all_bytes (EthHeader.items h) -> (k <= EthHeader.numOfItems)%nat ->
  EthHeader.Write h (Z.of_nat k)
  = Ok (EncodeRlpList.SerializeBytes
      (payload (take (EthHeader.numOfItems - k) (EthHeader.items h)))).
Proof.
  intros Hb Hk. unfold EthHeader.numOfItems in *.
  unfold EthHeader.Write, WriterStaticDict_Write.
  rewrite static_concat_take by (rewrite ?length_map; cbn; lia).
  replace (Z.to_nat _) with (20 - k)%nat by (rewrite length_map; cbn; lia).
  rewrite <-fmap_take, write_bytes_list by (by apply Forall_take). done.
Qed.

(** Header round trip: a header written without its last [k] items is
    parsed back with the first [20 - k] items unchanged and the others empty;
    with [k = 0] it is parsed back unchanged. *)
Theorem header_roundtrip h k :
  Forall all_bytes (EthHeader.items h) -> (k <= EthHeader.numOfItems)%nat ->
  exists raw, EthHeader.Write h (Z.of_nat k) = Ok raw /\
    (fits 64 (zlen raw) ->
     exists h', EthHeader.Parse raw = Ok h' /\
       EthHeader.items h'
       = take (EthHeader.numOfItems - k) (EthHeader.items h) ++ replicate k [] /\
       (k = 0%nat -> h' = h)).
Proof.
  intros Hb Hk. rewrite header_write by done. eexists; split; [done|]. intros Hfit.
  set (l := take (EthHeader.numOfItems - k) (EthHeader.items h)) in *.
  assert (length l = (EthHeader.numOfItems - k)%nat) as Hlen.
  { unfold l. rewrite length_take. unfold EthHeader.numOfItems. cbn [EthHeader.items length]. lia. }
  pose proof (parse_bytes_list l ltac:(by apply Forall_take) Hfit) as HP.
  rewrite decide_True in HP by lia. eexists; split; [exact HP|].
  replace (EthHeader.numOfItems - length l)%nat with k by lia.
  split.
  - apply items_of_items. rewrite length_app, length_replicate. lia.
  - intros ->. unfold l. rewrite Nat.sub_0_r, app_nil_r.
    change (take EthHeader.numOfItems (EthHeader.items h)) with (EthHeader.items h).
    apply of_items_items.
Qed.

Definition sample_header : EthHeader.t :=
  EthHeader.set_Sha3Uncles
    (EthHeader.set_LogsBloom
      (EthHeader.set_Number (EthHeader.set_Difficulty EthHeader.empty [0x02; 0x00]) [0x0D; 0xEA; 0xE8])
      (replicate 256 0)) HeaderMgr.GetEmptyUncleHash.

Lemma header_roundtrip_witness :
  exists raw, EthHeader.Write sample_header (Z.of_nat 5) = Ok raw /\
    (fits 64 (zlen raw) ->
     exists h', EthHeader.Parse raw = Ok h' /\
       EthHeader.items h' = take (EthHeader.numOfItems - 5) (EthHeader.items sample_header) ++ replicate 5 [] /\
       (5%nat = 0%nat -> h' = sample_header)).
Proof.
  apply (header_roundtrip sample_header 5).
  - repeat (apply Forall_cons_2; [byte_list|]); apply Forall_nil_2.
  - unfold EthHeader.numOfItems. lia.
Defined.

(** A header list with more than 20 items is refused, whatever the items
    are; the parser does not drop the fields it does not know. *)
Theorem header_extra_items_rejected l :
  Forall all_bytes l -> (EthHeader.numOfItems < length l)%nat ->
  exists raw, WriterList_Write WriterGeneric.Write (map OBytes l) = Ok raw /\
    (fits 64 (zlen raw) -> exists pos, EthHeader.Parse raw
      = Throw (ParseError "The static dict parser encounters more items than expected" pos)).
Proof.
  intros Hl Hlen. unfold WriterList_Write. rewrite write_bytes_list by done.
  eexists; split; [done|]. intros Hfit.
  pose proof (parse_bytes_list l Hl Hfit) as HP. by rewrite decide_False in HP by lia.
Qed.

Lemma header_extra_items_rejected_witness :
  exists raw, WriterList_Write WriterGeneric.Write (map OBytes (replicate 21 [1])) = Ok raw /\
    (fits 64 (zlen raw) -> exists pos, EthHeader.Parse raw
      = Throw (ParseError "The static dict parser encounters more items than expected" pos)).
Proof.
  apply (header_extra_items_rejected (replicate 21 [1])).
  - apply Forall_replicate. byte_list.
  - vm_compute. lia.
Defined.

(** ** Integer fields *)

Lemma next_reads b k : (k <= length b)%nat -> reads (PrimitiveTypeTrait.next b) k (drop k b) (length b).
Proof.
  intros Hk. remember (length b - k)%nat as n eqn:En. revert k Hk En.
  induction n as [|n IH]; intros k Hk En.
  - replace k with (length b) by lia. rewrite drop_all. constructor.
  - destruct (lookup_lt_is_Some_2 b k ltac:(lia)) as [x Ex].
    rewrite (drop_S _ x) by done.
    apply (reads_cons _ k x (S k)); [unfold PrimitiveTypeTrait.next, get; by rewrite Ex|].
    apply IH; lia.
Qed.

(** [FromBytes] reads any byte string of at most 8 bytes as a big-endian
    integer, leading zeros included, and refuses longer ones. *)
Lemma U64_FromBytes_spec b : all_bytes b ->
  U64_FromBytes b =
    if decide (length b <= 8)%nat then Ok (be_val b)
    else Throw (ParseError "The given byte size is larger than the target int type" 0).
Proof.
  intros Hb. unfold U64_FromBytes, PrimitiveTypeTrait.FromBytes. case_decide as Hlen.
  - pose proof (next_reads b 0 ltac:(lia)) as Hr. rewrite drop_0 in Hr.
    by rewrite (Parse_reads _ 8 _ _ _ Hr Hb Hlen).
  - unfold ParsePrimitiveIntValue.Parse. by rewrite (proj2 (Z.ltb_lt _ _)) by lia.
Qed.

Lemma U64_ToBytes_bytes v : all_bytes (U64_ToBytes v).
Proof. apply EncodePrimitiveIntValue.Encode_bytes. Qed.

Lemma U64_From_To v : fits 64 v -> U64_FromBytes (U64_ToBytes v) = Ok v.
Proof.
  intros Hv. rewrite U64_FromBytes_spec by apply U64_ToBytes_bytes.
  unfold U64_ToBytes, PrimitiveTypeTrait.ToBytes.
  rewrite decide_True, EncodePrimitiveIntValue.Encode_val; [done|exact Hv|].
  rewrite EncodePrimitiveIntValue.Encode_length. apply EncodePrimitiveIntValue.EncodedWidth_le.
Qed.

(** ** The parsed header *)

(** The cached numbers and the bloom are what the raw header says. *)
Definition consistent (h : HeaderMgr.t) : Prop :=
  let raw := HeaderMgr.m_rawHeader h in
  U64_FromBytes (EthHeader.Number raw) = Ok (HeaderMgr.m_blkNum h) /\
  U64_FromBytes (EthHeader.Timestamp raw) = Ok (HeaderMgr.m_time h) /\
  U64_FromBytes (EthHeader.Difficulty raw) = Ok (HeaderMgr.m_diff h) /\
  HeaderMgr.m_bloomFilter h = EthHeader.LogsBloom raw /\
  length (HeaderMgr.m_bloomFilter h) = 256%nat.

(** The two constructors. *)
Inductive origin := Default | Received (rawBinary : bytes) (trustedTime : Z).

Definition construct (o : origin) : result Error HeaderMgr.t :=
  match o with Default => Ok HeaderMgr.init | Received rawBinary trustedTime => HeaderMgr.create rawBinary trustedTime end.

(** The state-changing calls on a header. *)
Inductive setter :=
| DoSetNumber (v : Z) | DoSetTime (v : Z) | DoSetDiff (v : Z) | DoSetUncleHash (h : bytes).

Definition apply_setter (h : HeaderMgr.t) (s : setter) : HeaderMgr.t :=
  match s with
  | DoSetNumber v => HeaderMgr.SetNumber h v
  | DoSetTime v => HeaderMgr.SetTime h v
  | DoSetDiff v => HeaderMgr.SetDiff h v
  | DoSetUncleHash u => HeaderMgr.SetUncleHash h u
  end.

Definition setter_ok (s : setter) : Prop :=
  match s with
  | DoSetNumber v | DoSetTime v | DoSetDiff v => fits 64 v
  | DoSetUncleHash _ => True
  end.

(** What a setter sets: the value it caches, or the item of the raw header. *)
Definition number_set (s : setter) : option Z := match s with DoSetNumber v => Some v | _ => None end.
Definition time_set (s : setter) : option Z := match s with DoSetTime v => Some v | _ => None end.
Definition diff_set (s : setter) : option Z := match s with DoSetDiff v => Some v | _ => None end.
Definition uncle_set (s : setter) : option bytes := match s with DoSetUncleHash u => Some u | _ => None end.

Definition last_set {A} (f : setter -> option A) (ops : list setter) (v : A) : A := foldl (fun v s => default v (f s)) v ops.

(** The uncle flag looks at the hash only if a constructor or a setter did. *)
Definition uncle_known (o : origin) (ops : list setter) : bool :=
  match o with Received _ _ => true | Default => existsb (fun s => match uncle_set s with Some _ => true | None => false end) ops end.

(** Where the hash and the time of receipt come from. *)
Definition received_as (o : origin) (h0 h : HeaderMgr.t) : Prop :=
  match o with
  | Default => HeaderMgr.m_hash h = replicate 32 0 /\ HeaderMgr.m_trustedTime h = 0
  | Received raw trusted => EthHeader.Parse raw = Ok (HeaderMgr.m_rawHeader h0) /\
      HeaderMgr.m_hash h = Keccak256 raw /\ HeaderMgr.m_trustedTime h = trusted
  end.

Definition hash_differs (uncleHash : bytes) : bool := negb (bool_decide (uncleHash = HeaderMgr.GetEmptyUncleHash)).

Lemma create_ok raw trusted h : HeaderMgr.create raw trusted = Ok h -> consistent h /\
  received_as (Received raw trusted) h h /\ HeaderMgr.m_hasUncle h = hash_differs (EthHeader.Sha3Uncles (HeaderMgr.m_rawHeader h)).
Proof.
  intros H. unfold HeaderMgr.create in H. bind_ok H. bind_ok H. bind_ok H. bind_ok H. bind_ok H. injection H as <-.
  destruct (EthHeader.Parse raw) as [r|] eqn:Er; [|done]. injection E as ->.
  unfold BloomFilter.CheckBloomBytes in E0. destruct (Z.eqb_spec (zlen (EthHeader.LogsBloom a)) BloomFilter.sk_bloomByteSize) as [El|]; [|done].
  injection E0 as <-. change BloomFilter.sk_bloomByteSize with 256 in El.
  destruct (U64_FromBytes (EthHeader.Number a)) eqn:E4; [|done]. destruct (U64_FromBytes (EthHeader.Timestamp a)) eqn:E5; [|done].
  destruct (U64_FromBytes (EthHeader.Difficulty a)) eqn:E6; [|done].
  injection E1 as ->. injection E2 as ->. injection E3 as ->. unfold consistent. cbn -[U64_FromBytes Keccak256 Z.of_nat HeaderMgr.GetEmptyUncleHash].
  split_and!; try done. lia.
Qed.

Lemma construct_ok o h : construct o = Ok h -> consistent h /\ received_as o h h /\
  HeaderMgr.m_hasUncle h = uncle_known o [] && hash_differs (EthHeader.Sha3Uncles (HeaderMgr.m_rawHeader h)).
Proof. destruct o as [|raw trusted]; [|apply create_ok]. intros [= <-]. unfold consistent, received_as. split_and!; reflexivity. Qed.

Lemma setter_consistent h s : setter_ok s -> consistent h -> consistent (apply_setter h s).
Proof. intros Hs (H1 & H2 & H3 & H4 & H5). destruct s; cbn in Hs; split_and!; try done; by apply U64_From_To. Qed.

(** The items of the raw header that have no setter. *)
Lemma setter_items h s i : i ∉ [1; 7; 8; 11]%nat ->
  EthHeader.items (HeaderMgr.m_rawHeader (apply_setter h s)) !! i = EthHeader.items (HeaderMgr.m_rawHeader h) !! i.
Proof.
  rewrite !not_elem_of_cons. intros (H1 & H7 & H8 & H11 & _).
  destruct s; cbn [apply_setter HeaderMgr.m_rawHeader HeaderMgr.SetNumber HeaderMgr.SetTime HeaderMgr.SetDiff HeaderMgr.SetUncleHash];
    unfold EthHeader.set_Number, EthHeader.set_Timestamp, EthHeader.set_Difficulty, EthHeader.set_Sha3Uncles;
    rewrite items_of_items by done; by rewrite list_lookup_insert_ne.
Qed.

(** C39. What a header says of itself, however it was made, by default or from bytes
    that were received, and whatever setters ran since: the cached number, time and
    difficulty are those of the raw header and are the values last set; the bloom is
    its 256-byte [LogsBloom]; the items without a setter are those it was made with.
    The uncle flag compares the uncle hash with that of no uncles, but of a default
    header only once that hash was set, before which it is false.  The hash is that
    of the bytes the header was received as, or zero for a default header: no setter
    refreshes it. *)
Theorem HeaderMgr_consistent o h0 ops : construct o = Ok h0 -> Forall setter_ok ops ->
  let h := foldl apply_setter h0 ops in
  let raw := HeaderMgr.m_rawHeader h in
  consistent h /\
  (HeaderMgr.m_blkNum h = last_set number_set ops (HeaderMgr.m_blkNum h0) /\
   HeaderMgr.m_time h = last_set time_set ops (HeaderMgr.m_time h0) /\
   HeaderMgr.m_diff h = last_set diff_set ops (HeaderMgr.m_diff h0) /\
   EthHeader.Sha3Uncles raw = last_set uncle_set ops (EthHeader.Sha3Uncles (HeaderMgr.m_rawHeader h0))) /\
  (forall i, i ∉ [1; 7; 8; 11]%nat -> EthHeader.items raw !! i = EthHeader.items (HeaderMgr.m_rawHeader h0) !! i) /\
  HeaderMgr.m_hasUncle h = uncle_known o ops && hash_differs (EthHeader.Sha3Uncles raw) /\
  received_as o h0 h.
Proof.
  intros (Hc & Hr & Hu)%construct_ok Hops. cbv zeta. induction ops as [|s ops IH] using rev_ind; [by split_and!|].
  apply Forall_app in Hops as [Hops Hs]. rewrite Forall_singleton in Hs. destruct (IH Hops) as (I1 & (I2 & I3 & I4 & I5) & I6 & I7 & I8). clear IH Hc Hr Hu.
  unfold last_set in *. rewrite !foldl_app. cbn [foldl]. set (h := foldl apply_setter h0 ops) in *. clearbody h.
  split; [by apply setter_consistent|]. split; [by destruct s|]. split; [intros i Hi; rewrite setter_items by done; by apply I6|]. split.
  - unfold uncle_known in *. rewrite existsb_app. destruct s, o; cbn -[hash_differs] in *; rewrite ?orb_false_r, ?orb_true_r; done.
  - by destruct o, s.
Qed.

(** A header that was made by default says that it has no uncles, though its uncle
    hash is not that of no uncles. *)
Lemma default_uncle_flag : HeaderMgr.m_hasUncle HeaderMgr.init = false /\ hash_differs (EthHeader.Sha3Uncles (HeaderMgr.m_rawHeader HeaderMgr.init)) = true.
Proof. done. Qed.

(** A setter leaves the hash of the bytes that were received, which is not the hash of
    the header any more. *)
Lemma setter_keeps_hash h s : HeaderMgr.m_hash (apply_setter h s) = HeaderMgr.m_hash h.
Proof. by destruct s. Qed.

(** The serialisation of [sample_header] and the header it parses to. *)
Definition sample_raw : bytes :=
  match EthHeader.Write sample_header 4 with Ok raw => raw | Throw _ => [] end.
Definition sample_mgr : HeaderMgr.t :=
  ok_or HeaderMgr.init (HeaderMgr.create sample_raw 7).

(** The header the difficulty checker makes, and one that was received. *)
Lemma HeaderMgr_consistent_witness :
  (let h := foldl apply_setter HeaderMgr.init [DoSetNumber 15; DoSetTime 1700000000] in
   consistent h /\ HeaderMgr.m_blkNum h = 15 /\ HeaderMgr.m_time h = 1700000000 /\ HeaderMgr.m_diff h = 0 /\ HeaderMgr.m_hasUncle h = false) /\
  (let h := foldl apply_setter sample_mgr [DoSetNumber 5; DoSetUncleHash []; DoSetDiff 131072; DoSetTime (2 ^ 64 - 1)] in
   consistent h /\ HeaderMgr.m_hasUncle h = true /\ HeaderMgr.m_hash h = Keccak256 sample_raw).
Proof.
  split.
  - destruct (HeaderMgr_consistent Default HeaderMgr.init [DoSetNumber 15; DoSetTime 1700000000]) as (H1 & (H2 & H3 & H4 & _) & _ & H5 & _).
    + reflexivity.
    + repeat (apply Forall_cons_2; [split; vm_compute; congruence|]). apply Forall_nil_2.
    + split_and!; [exact H1|exact H2|exact H3|exact H4|exact H5].
  - destruct (HeaderMgr_consistent (Received sample_raw 7) sample_mgr [DoSetNumber 5; DoSetUncleHash []; DoSetDiff 131072; DoSetTime (2 ^ 64 - 1)])
      as (H1 & _ & _ & H2 & _ & H3 & _).
    + apply is_ok_or. lazy -[Keccak256]. reflexivity.
    + repeat (apply Forall_cons_2; [first [exact I | split; vm_compute; congruence]|]). apply Forall_nil_2.
    + split_and!; [exact H1|exact H2|exact H3].
Defined.

(** Construction from a raw header, on every branch: it succeeds exactly
    when the bloom has 256 bytes and the number, time and difficulty at most 8,
    with the hash of the very bytes received; else it throws the exception of
    the first member that fails, in declaration order. *)
Theorem HeaderMgr_create_spec raw r trusted :
  EthHeader.Parse raw = Ok r -> Forall all_bytes (EthHeader.items r) ->
  let too_large := FromRlp (ParseError "The given byte size is larger than the target int type" 0) in
  HeaderMgr.create raw trusted =
    if negb (zlen (EthHeader.LogsBloom r) =? 256) then
      Throw (FromMonitor (Exception "Invalid bloom bytes size"))
    else if negb (bool_decide (length (EthHeader.Number r) <= 8)%nat) then Throw too_large
    else if negb (bool_decide (length (EthHeader.Timestamp r) <= 8)%nat) then Throw too_large
    else if negb (bool_decide (length (EthHeader.Difficulty r) <= 8)%nat) then Throw too_large
    else Ok (HeaderMgr.mk r trusted (EthHeader.LogsBloom r) (Keccak256 raw)
      (be_val (EthHeader.Number r)) (be_val (EthHeader.Timestamp r)) (be_val (EthHeader.Difficulty r))
      (negb (bool_decide (EthHeader.Sha3Uncles r = HeaderMgr.GetEmptyUncleHash)))).
Proof.
  intros HP Hb too_large. unfold HeaderMgr.create. rewrite HP. cbn [lift_rlp mbind result_bind].
  assert (forall i b, EthHeader.items r !! i = Some b -> all_bytes b) as Hi
    by (intros; by eapply Forall_lookup_1).
  assert (forall b, all_bytes b -> U64_FromBytes b =
    if bool_decide (length b <= 8)%nat then Ok (be_val b)
    else Throw (ParseError "The given byte size is larger than the target int type" 0)) as Hu.
  { intros b Hall. rewrite U64_FromBytes_spec by done. case_decide; by case_bool_decide. }
  rewrite !Hu by first
    [apply (Hi 7%nat); done | apply (Hi 8%nat); done | apply (Hi 11%nat); done].
  unfold BloomFilter.CheckBloomBytes. change BloomFilter.sk_bloomByteSize with 256.
  destruct (zlen (EthHeader.LogsBloom r) =? 256); [|done].
  cbn [negb lift_mon mbind result_bind].
  destruct (bool_decide (length (EthHeader.Number r) <= 8)%nat); [|done].
  destruct (bool_decide (length (EthHeader.Timestamp r) <= 8)%nat); [|done].
  by destruct (bool_decide (length (EthHeader.Difficulty r) <= 8)%nat).
Qed.

Lemma HeaderMgr_create_spec_witness :
  HeaderMgr.create sample_raw 7 =
    Ok (HeaderMgr.mk sample_header 7 (replicate 256 0) (Keccak256 sample_raw) 912104 0 512 false).
Proof.
  pose proof (HeaderMgr_create_spec sample_raw sample_header 7
    ltac:(vm_compute; reflexivity)
    ltac:(repeat (apply Forall_cons_2; [byte_list|]); apply Forall_nil_2)) as H.
  etransitivity; [exact H|]. lazy -[Keccak256 sample_raw]. reflexivity.
Defined.

(** The empty-uncle constant is the Keccak-256 of the RLP of the empty
    list, so [HasUncle] is exactly "the uncle list of the block is not empty". *)
Theorem GetEmptyUncleHash_digest :
  exists raw, WriterGeneric.Write (OList []) = Ok raw /\
    Keccak256 raw = HeaderMgr.GetEmptyUncleHash.
Proof. exists [0xC0]. split; [reflexivity|]. vm_compute. reflexivity. Qed.
