(* ===== verification/Difficulty.v ===== *)
(** * Difficulty adjustment

    [EclipseMonitor/Eth/Params.hpp]: protocol constants and the fork numbers
    of the networks; [EclipseMonitor/Eth/DAA.hpp]: the difficulty a block must
    have given its parent, on [uint64_t] as the code computes it. *)

From stdpp Require Import strings.
From S2P Require Import Prelude Bloom EthHeader.

(** ** Protocol parameters *)

Module Params.
Definition GetDifficultyBoundDivisorBitShift : Z := 11.
Definition GetMinimumDifficulty : Z := 131072.
Definition GetDurationLimit : Z := 13.
End Params.

(** The fork numbers of a network; [None] is the null pointer. *)
Class ConfigDetails := {
  ParisBlkNum : option Z; GrayGlacierBlkNum : option Z; ArrowGlacierBlkNum : option Z;
  LondonBlkNum : option Z; MuirGlacierBlkNum : option Z; ConstantinopleBlkNum : option Z;
  ByzantiumBlkNum : option Z; HomesteadBlkNum : option Z }.

Definition MainnetConfigDetails : ConfigDetails := {|
  ParisBlkNum := Some 15537394; GrayGlacierBlkNum := Some 15050000;
  ArrowGlacierBlkNum := Some 13773000; LondonBlkNum := Some 12965000;
  MuirGlacierBlkNum := Some 9200000; ConstantinopleBlkNum := Some 7280000;
  ByzantiumBlkNum := Some 4370000; HomesteadBlkNum := Some 1150000 |}.

Definition GoerliConfigDetails : ConfigDetails := {|
  ParisBlkNum := Some 7382819; GrayGlacierBlkNum := None;
  ArrowGlacierBlkNum := None; LondonBlkNum := Some 5062605;
  MuirGlacierBlkNum := None; ConstantinopleBlkNum := Some 0;
  ByzantiumBlkNum := Some 0; HomesteadBlkNum := Some 0 |}.

Module NetworkConfig.
Definition IsBlockOf (forkBlkNum blkNum : option Z) : bool :=
  match forkBlkNum, blkNum with
  | Some forkBlkNum, Some blkNum => forkBlkNum <=? blkNum
  | _, _ => false
  end.

Section details.
Context `{Details : ConfigDetails}.

Definition IsBlockOfParis (blkNum : Z) := IsBlockOf ParisBlkNum (Some blkNum).
Definition IsBlockOfGrayGlacier (blkNum : Z) := IsBlockOf GrayGlacierBlkNum (Some blkNum).
Definition IsBlockOfArrowGlacier (blkNum : Z) := IsBlockOf ArrowGlacierBlkNum (Some blkNum).
Definition IsBlockOfLondon (blkNum : Z) := IsBlockOf LondonBlkNum (Some blkNum).
Definition IsBlockOfMuirGlacier (blkNum : Z) := IsBlockOf MuirGlacierBlkNum (Some blkNum).
Definition IsBlockOfConstantinople (blkNum : Z) := IsBlockOf ConstantinopleBlkNum (Some blkNum).
Definition IsBlockOfByzantium (blkNum : Z) := IsBlockOf ByzantiumBlkNum (Some blkNum).
Definition IsBlockOfHomestead (blkNum : Z) := IsBlockOf HomesteadBlkNum (Some blkNum).
End details.
End NetworkConfig.

(** ** Calculators *)

(** [DAABase]: what every calculator offers. *)
Definition DAA : Type := HeaderMgr.t -> HeaderMgr.t -> result MonException Z.

(** The loop multiplies [y] by [diffBig2], [exp] times. *)
Definition CalcBomb (periodCount blkNBig2 diffBig1 diffBig2 : Z) : Z :=
  if periodCount <=? blkNBig2 then diffBig1
  else
    let exp := u64 (periodCount - blkNBig2) in
    Nat.iter (Z.to_nat exp) (fun y => u64 (y * diffBig2)) diffBig1.

Module EthashDAACalculator.
Record t := mk {
  m_considerUncle : bool; m_deltaDivisor : Z; m_hasMaxCheck : bool; m_hasBombDelay : bool;
  m_bombDelay : Z; m_bombDelayFromParent : Z }.

(** The constructor. *)
Definition create (considerUncle : bool) (deltaDivisor : Z) (hasMaxCheck hasBombDelay : bool)
    (bombDelay : Z) : t :=
  mk considerUncle deltaDivisor hasMaxCheck hasBombDelay bombDelay (u64 (bombDelay - 1)).

Definition GetEip5133 : t := create true 9 true true 11400000.
Definition GetEip5133Estimated : t := create true 9 false true 11400000.
Definition GetEip4345 : t := create true 9 true true 10700000.
Definition GetEip3554 : t := create true 9 true true 9700000.
Definition GetEip2384 : t := create true 9 true true 9000000.
Definition GetConstantinople : t := create true 9 true true 5000000.
Definition GetByzantium : t := create true 9 true true 3000000.
Definition GetHomestead : t := create false 10 true false 0.

(** [big - x] as magnitude and sign: [(x, isReducing)]. *)
Definition sub_sign (big x : Z) : Z * bool :=
  if big <? x then (u64 (x - big), true) else (u64 (big - x), false).

(** The delay-bomb block number. *)
Definition fakeBlockNumber (c : t) (parentBlkNum : Z) : Z :=
  if m_hasBombDelay c then
    if m_bombDelayFromParent c <=? parentBlkNum then
      u64 (parentBlkNum - m_bombDelayFromParent c)
    else 0
  else u64 (parentBlkNum + 1).

(** The difficulty before the bomb. *)
Definition adjusted (c : t) (parentTime parentDiff : Z) (parentHasUncle : bool) (currTime : Z) : Z :=
  let x := u64 (currTime - parentTime) in
  let x := x / m_deltaDivisor c in
  let '(x, isReducing) := sub_sign (if m_considerUncle c && parentHasUncle then 2 else 1) x in
  let x := if m_hasMaxCheck c && isReducing && (99 <? x) then 99 else x in
  let y := Z.shiftr parentDiff Params.GetDifficultyBoundDivisorBitShift in
  let x := u64 (y * x) in
  let x :=
    if negb (m_hasMaxCheck c) && isReducing && (parentDiff <? x) then Params.GetMinimumDifficulty
    else if isReducing then u64 (parentDiff - x)
    else u64 (parentDiff + x) in
  if x <? Params.GetMinimumDifficulty then Params.GetMinimumDifficulty else x.

Definition calculate (c : t) (parentBlkNum parentTime parentDiff : Z) (parentHasUncle : bool)
    (currBlkNum currTime : Z) : Z :=
  let x := adjusted c parentTime parentDiff parentHasUncle currTime in
  let periodCount := fakeBlockNumber c parentBlkNum / 100000 in
  if 1 <? periodCount then u64 (x + CalcBomb periodCount 2 1 2) else x.

(** The overridden [operator()]. *)
Definition call (c : t) : DAA := fun parent current =>
  Ok (calculate c (HeaderMgr.m_blkNum parent) (HeaderMgr.m_time parent)
    (HeaderMgr.m_diff parent) (HeaderMgr.m_hasUncle parent)
    (HeaderMgr.m_blkNum current) (HeaderMgr.m_time current)).
End EthashDAACalculator.

Module EthashDAACalculatorFrontier.
Definition calculate (parentBlkNum parentTime parentDiff : Z) (parentHasUncle : bool)
    (currBlkNum currTime : Z) : Z :=
  let adjust := Z.shiftr parentDiff Params.GetDifficultyBoundDivisorBitShift in
  let delta := u64 (currTime - parentTime) in
  let diff := parentDiff in
  let diff :=
    if delta <? Params.GetDurationLimit then u64 (diff + adjust) else u64 (diff - adjust) in
  let diff := if diff <? Params.GetMinimumDifficulty then Params.GetMinimumDifficulty else diff in
  let fakeBlockNumber := u64 (parentBlkNum + 1) in
  let periodCount := fakeBlockNumber / 100000 in
  if 1 <? periodCount then u64 (diff + CalcBomb periodCount 2 1 2) else diff.

Definition call : DAA := fun parent current =>
  Ok (calculate (HeaderMgr.m_blkNum parent) (HeaderMgr.m_time parent)
    (HeaderMgr.m_diff parent) (HeaderMgr.m_hasUncle parent)
    (HeaderMgr.m_blkNum current) (HeaderMgr.m_time current)).
End EthashDAACalculatorFrontier.

(** The exception of every selector from the Paris fork on. *)
Definition paris_exception : MonException :=
  Exception "Blocks since Paris fork no longer use DAA".

Module EthashDAA.
Section details.
Context `{Details : ConfigDetails}.

Definition GetCalculator (blkNum : Z) : result MonException DAA :=
  if NetworkConfig.IsBlockOfParis blkNum then Throw paris_exception
  else if NetworkConfig.IsBlockOfGrayGlacier blkNum then
    Ok (EthashDAACalculator.call EthashDAACalculator.GetEip5133)
  else if NetworkConfig.IsBlockOfArrowGlacier blkNum then
    Ok (EthashDAACalculator.call EthashDAACalculator.GetEip4345)
  else if NetworkConfig.IsBlockOfLondon blkNum then
    Ok (EthashDAACalculator.call EthashDAACalculator.GetEip3554)
  else if NetworkConfig.IsBlockOfMuirGlacier blkNum then
    Ok (EthashDAACalculator.call EthashDAACalculator.GetEip2384)
  else if NetworkConfig.IsBlockOfConstantinople blkNum then
    Ok (EthashDAACalculator.call EthashDAACalculator.GetConstantinople)
  else if NetworkConfig.IsBlockOfByzantium blkNum then
    Ok (EthashDAACalculator.call EthashDAACalculator.GetByzantium)
  else if NetworkConfig.IsBlockOfHomestead blkNum then
    Ok (EthashDAACalculator.call EthashDAACalculator.GetHomestead)
  else Ok EthashDAACalculatorFrontier.call.

Definition call : DAA := fun parent current =>
  calculator ← GetCalculator (HeaderMgr.m_blkNum current);
  calculator parent current.
End details.
End EthashDAA.

Module EthashDAAEst.
Section details.
Context `{Details : ConfigDetails}.

Definition GetCalculator (blkNum : Z) : result MonException DAA :=
  if NetworkConfig.IsBlockOfParis blkNum then Throw paris_exception
  else if NetworkConfig.IsBlockOfGrayGlacier blkNum then
    Ok (EthashDAACalculator.call EthashDAACalculator.GetEip5133Estimated)
  else Throw (Exception "Estimating the difficulty value before EIP-5133 is not allowed.").

Definition call : DAA := fun parent current =>
  calculator ← GetCalculator (HeaderMgr.m_blkNum current);
  calculator parent current.
End details.
End EthashDAAEst.

Module TestnetDAA.
Section details.
Context `{Details : ConfigDetails}.

(** [TestnetDAACalculator]: the block's own claim. *)
Definition call : DAA := fun _ current =>
  if NetworkConfig.IsBlockOfParis (HeaderMgr.m_blkNum current) then Throw paris_exception
  else Ok (HeaderMgr.m_diff current).

(** [TestnetDAAEstCalculator]. *)
Definition call_est : DAA := fun _ current =>
  if NetworkConfig.IsBlockOfParis (HeaderMgr.m_blkNum current) then Throw paris_exception
  else Ok 2.
End details.
End TestnetDAA.

(** [DAASelector]: the calculators a network uses. *)
Class DAASelector (Details : ConfigDetails) := { Calculator : DAA; Estimator : DAA }.

#[export] Instance MainnetDAA : DAASelector MainnetConfigDetails := {|
  Calculator := @EthashDAA.call MainnetConfigDetails;
  Estimator := @EthashDAAEst.call MainnetConfigDetails |}.

#[export] Instance GoerliDAA : DAASelector GoerliConfigDetails := {|
  Calculator := @TestnetDAA.call GoerliConfigDetails;
  Estimator := @TestnetDAA.call_est GoerliConfigDetails |}.

(** ** The protocol's formulas, over the integers *)

(** The ice-age term of a block whose parent has number [parentNum]. *)
Definition ice_age (delay parentNum : Z) : Z :=
  let period := Z.max 0 (parentNum + 1 - delay) / 100000 in
  if 1 <? period then 2 ^ (period - 2) else 0.

(** Homestead and later: [big] is 2 when the parent has uncles and they count. *)
Definition homestead_formula (big divisor delay parentNum parentTime parentDiff time : Z) : Z :=
  Z.max 131072
    (parentDiff + parentDiff / 2048 * Z.max (big - (time - parentTime) / divisor) (-99))
  + ice_age delay parentNum.

Definition frontier_formula (parentNum parentTime parentDiff time : Z) : Z :=
  Z.max 131072
    (if time - parentTime <? 13 then parentDiff + parentDiff / 2048
     else parentDiff - parentDiff / 2048)
  + ice_age 0 parentNum.

(** The bomb delay in force on mainnet at block [n], from Byzantium on. *)
Definition mainnet_delay (n : Z) : Z :=
  if n <? 7280000 then 3000000 else if n <? 9200000 then 5000000
  else if n <? 12965000 then 9000000 else if n <? 13773000 then 9700000
  else if n <? 15050000 then 10700000 else 11400000.

Definition mainnet_formula (parentNum parentTime parentDiff : Z) (uncle : bool) (time : Z) : Z :=
  let n := parentNum + 1 in
  if n <? 1150000 then frontier_formula parentNum parentTime parentDiff time
  else if n <? 4370000 then homestead_formula 1 10 0 parentNum parentTime parentDiff time
  else homestead_formula (if uncle then 2 else 1) 9 (mainnet_delay n)
         parentNum parentTime parentDiff time.

(** ** The code computes them *)

Lemma doubling n : (n < 64)%nat -> Nat.iter n (fun y => u64 (y * 2)) 1 = 2 ^ Z.of_nat n.
Proof.
  induction n as [|n IH]; intros Hn; [done|]. rewrite Nat.iter_succ, IH by lia.
  rewrite Nat2Z.inj_succ, Z.pow_succ_r by lia. rewrite wrap_small; [lia|].
  pose proof (Z.pow_le_mono_r 2 (Z.succ (Z.of_nat n)) 63 ltac:(lia) ltac:(lia)) as H.
  rewrite Z.pow_succ_r in H by lia. split; [lia|]. change (2 ^ 64) with (2 * 2 ^ 63). lia.
Qed.

Lemma CalcBomb_spec p : 0 <= p < 66 -> CalcBomb p 2 1 2 = 2 ^ Z.max 0 (p - 2).
Proof.
  intros Hp. unfold CalcBomb. destruct (Z.leb_spec p 2).
  { by rewrite Z.max_l by lia. }
  rewrite Z.max_r, wrap_small by word_lia. rewrite doubling by lia. f_equal. lia.
Qed.

(** The bomb added to [x], when it is added. *)
Lemma bomb_spec (fake x : Z) : 0 <= fake < 6200000 -> 0 <= x < 2 ^ 64 - 2 ^ 60 ->
  (if 1 <? fake / 100000 then u64 (x + CalcBomb (fake / 100000) 2 1 2) else x)
  = x + (if 1 <? fake / 100000 then 2 ^ (fake / 100000 - 2) else 0) .
Proof.
  intros Hf Hx. assert (0 <= fake / 100000 < 62) as Hp by mod_lia.
  destruct (Z.ltb_spec 1 (fake / 100000)) as [H|H]; [|lia].
  rewrite CalcBomb_spec, Z.max_r by lia. apply wrap_small.
  pose proof (Z.pow_le_mono_r 2 (fake / 100000 - 2) 59 ltac:(lia) ltac:(lia)).
  pose proof (Z.pow_nonneg 2 (fake / 100000 - 2) ltac:(lia)).
  unfold fits. change (2 ^ 60) with (2 * 2 ^ 59) in Hx. lia.
Qed.

(** The quotient the reduction is built from. *)
Lemma reduction_bounds pd x : 0 <= pd < 2 ^ 63 -> 0 <= x <= 99 ->
  0 <= pd / 2048 <= 2 ^ 52 /\ 0 <= pd / 2048 * x <= pd.
Proof.
  intros Hpd Hx. change (2 ^ 63) with (2 ^ 52 * 2048) in Hpd.
  assert (0 <= pd / 2048 <= 2 ^ 52 /\ 2048 * (pd / 2048) <= pd) as [H1 H2] by mod_lia.
  split; [done|]. nia.
Qed.

Lemma shiftr_2048 pd : Z.shiftr pd Params.GetDifficultyBoundDivisorBitShift = pd / 2048.
Proof. apply Z.shiftr_div_pow2. done. Qed.

Lemma adjusted_spec u d hb delay pt pd uncle t :
  0 < d -> fits 64 pt -> fits 64 t -> pt <= t -> 0 <= pd < 2 ^ 63 ->
  EthashDAACalculator.adjusted (EthashDAACalculator.create u d true hb delay) pt pd uncle t
  = Z.max 131072 (pd + pd / 2048 * Z.max ((if u && uncle then 2 else 1) - (t - pt) / d) (-99)).
Proof.
  intros Hd Hpt Ht Hle Hpd. unfold EthashDAACalculator.adjusted. cbn -[Z.shiftr Z.max].
  rewrite shiftr_2048, (wrap_small 64 (t - pt)) by word_lia.
  set (big := if u && uncle then 2 else 1). assert (1 <= big <= 2) as Hbig by (unfold big; case_match; lia).
  clearbody big. assert (0 <= (t - pt) / d) as Hx by (apply Z.div_pos; lia).
  assert ((t - pt) / d <= t - pt) as Hx' by (apply Z.div_le_upper_bound; nia).
  set (x := (t - pt) / d) in *. clearbody x. unfold EthashDAACalculator.sub_sign.
  change Params.GetMinimumDifficulty with 131072.
  destruct (Z.ltb_spec big x).
  - rewrite (wrap_small 64 (x - big)) by word_lia. cbn [andb].
    set (m := if 99 <? x - big then 99 else x - big).
    assert (0 <= m <= 99 /\ Z.max (big - x) (-99) = - m) as [Hm ->].
    { unfold m. destruct (Z.ltb_spec 99 (x - big)); lia. }
    clearbody m. destruct (reduction_bounds pd m Hpd Hm) as [_ Hr].
    rewrite (wrap_small 64 (pd / 2048 * m)), wrap_small by word_lia.
    rewrite Z.mul_opp_r. destruct (Z.ltb_spec (pd - pd / 2048 * m) 131072); lia.
  - rewrite (wrap_small 64 (big - x)) by word_lia. cbn [andb].
    destruct (reduction_bounds pd (big - x) Hpd ltac:(lia)) as [_ Hr].
    rewrite (wrap_small 64 (pd / 2048 * (big - x))), wrap_small by word_lia.
    rewrite (Z.max_l (big - x)) by lia.
    destruct (Z.ltb_spec (pd + pd / 2048 * (big - x)) 131072); lia.
Qed.

Lemma adjusted_bound big d pt pd t : 0 < d -> pt <= t -> 0 <= pd < 2 ^ 63 -> 1 <= big <= 2 ->
  0 <= Z.max 131072 (pd + pd / 2048 * Z.max (big - (t - pt) / d) (-99)) < 2 ^ 64 - 2 ^ 60.
Proof.
  intros Hd Hle Hpd Hbig.
  assert (0 <= (t - pt) / d) as Hx by (apply Z.div_pos; lia).
  set (x := (t - pt) / d) in *. clearbody x.
  destruct (reduction_bounds pd 2 Hpd ltac:(lia)) as [H52 _].
  assert (pd / 2048 * Z.max (big - x) (-99) <= 2 * 2 ^ 52) as Hm by nia.
  change (2 ^ 63) with 9223372036854775808 in *. change (2 ^ 52) with 4503599627370496 in *.
  change (2 ^ 64) with 18446744073709551616. change (2 ^ 60) with 1152921504606846976. lia.
Qed.

(** A calculator of the Homestead family at work. *)
Lemma calculate_spec u d (hb : bool) delay pn pt pd uncle n t :
  0 < d -> (if hb then 1 <= delay < 2 ^ 64 else delay = 0) ->
  0 <= pn < 2 ^ 63 -> pn + 1 - delay < 6200000 ->
  fits 64 pt -> fits 64 t -> pt <= t -> 0 <= pd < 2 ^ 63 ->
  EthashDAACalculator.calculate (EthashDAACalculator.create u d true hb delay) pn pt pd uncle n t
  = homestead_formula (if u && uncle then 2 else 1) d delay pn pt pd t.
Proof.
  intros Hd Hdelay Hpn Hn Hpt Ht Hle Hpd. unfold EthashDAACalculator.calculate.
  rewrite adjusted_spec by done. unfold homestead_formula, ice_age.
  assert (EthashDAACalculator.fakeBlockNumber (EthashDAACalculator.create u d true hb delay) pn
    = Z.max 0 (pn + 1 - delay)) as ->.
  { unfold EthashDAACalculator.fakeBlockNumber. cbn. destruct hb.
    - rewrite (wrap_small 64 (delay - 1)) by word_lia.
      destruct (Z.leb_spec (delay - 1) pn); [|lia]. rewrite wrap_small by word_lia. lia.
    - subst delay. rewrite wrap_small by (change (2 ^ 63) with 9223372036854775808 in *; word_lia). lia. }
  apply bomb_spec; [lia|]. apply adjusted_bound; try done. destruct (u && uncle); lia.
Qed.

Lemma frontier_spec pn pt pd uncle n t :
  0 <= pn < 6000000 -> fits 64 pt -> fits 64 t -> pt <= t -> 0 <= pd < 2 ^ 63 ->
  EthashDAACalculatorFrontier.calculate pn pt pd uncle n t = frontier_formula pn pt pd t.
Proof.
  intros Hpn Hpt Ht Hle Hpd. unfold EthashDAACalculatorFrontier.calculate, frontier_formula, ice_age.
  rewrite shiftr_2048, (wrap_small 64 (t - pt)), (wrap_small 64 (pn + 1)) by word_lia.
  change Params.GetDurationLimit with 13. change Params.GetMinimumDifficulty with 131072.
  destruct (reduction_bounds pd 1 Hpd ltac:(lia)) as [H52 H1].
  assert (0 <= pd + pd / 2048 < 2 ^ 64 - 2 ^ 60 /\ 0 <= pd - pd / 2048 < 2 ^ 64 - 2 ^ 60) as [Ha Hs].
  { change (2 ^ 63) with 9223372036854775808 in *. change (2 ^ 52) with 4503599627370496 in *.
    change (2 ^ 64) with 18446744073709551616. change (2 ^ 60) with 1152921504606846976. lia. }
  rewrite (wrap_small 64 (pd + pd / 2048)), (wrap_small 64 (pd - pd / 2048)) by
    (unfold fits; change (2 ^ 60) with 1152921504606846976 in *; lia).
  set (base := if t - pt <? 13 then _ else _).
  assert (0 <= base < 2 ^ 64 - 2 ^ 60) as Hb by (unfold base; case_match; done).
  clearbody base. rewrite Z.sub_0_r, (Z.max_r 0) by lia.
  assert ((if base <? 131072 then 131072 else base) = Z.max 131072 base) as ->.
  { destruct (Z.ltb_spec base 131072); lia. }
  apply bomb_spec; [lia|].
  change (2 ^ 64) with 18446744073709551616 in *. change (2 ^ 60) with 1152921504606846976 in *. lia.
Qed.

(** ** Mainnet *)

(** A header and its parent as the validator hands them to the calculator. *)
Record child_of (parent current : HeaderMgr.t) : Prop := {
  child_num : HeaderMgr.m_blkNum current = HeaderMgr.m_blkNum parent + 1;
  parent_num : 0 <= HeaderMgr.m_blkNum parent < 2 ^ 63;
  parent_time : fits 64 (HeaderMgr.m_time parent);
  child_time : fits 64 (HeaderMgr.m_time current);
  parent_diff : 0 <= HeaderMgr.m_diff parent < 2 ^ 63 }.

Lemma mainnet_calculator parent current :
  child_of parent current -> HeaderMgr.m_time parent <= HeaderMgr.m_time current ->
  Calculator (Details := MainnetConfigDetails) parent current
  = if 15537394 <=? HeaderMgr.m_blkNum current then Throw paris_exception
    else Ok (mainnet_formula (HeaderMgr.m_blkNum parent) (HeaderMgr.m_time parent)
      (HeaderMgr.m_diff parent) (HeaderMgr.m_hasUncle parent) (HeaderMgr.m_time current)).
Proof.
  intros [Hn Hp Hpt Ht Hd] Hle. cbn [Calculator MainnetDAA].
  unfold EthashDAA.call, EthashDAA.GetCalculator, NetworkConfig.IsBlockOfParis,
    NetworkConfig.IsBlockOfGrayGlacier, NetworkConfig.IsBlockOfArrowGlacier,
    NetworkConfig.IsBlockOfLondon, NetworkConfig.IsBlockOfMuirGlacier,
    NetworkConfig.IsBlockOfConstantinople, NetworkConfig.IsBlockOfByzantium,
    NetworkConfig.IsBlockOfHomestead, NetworkConfig.IsBlockOf, mainnet_formula, mainnet_delay.
  cbn -[Z.leb Z.ltb EthashDAACalculator.call EthashDAACalculatorFrontier.call].
  rewrite <-Hn, !Z.ltb_antisym.
  repeat (match goal with |- context [Z.leb ?a ?b] => destruct (Z.leb_spec a b) end; try lia);
    cbn [negb mbind result_bind]; first [done | apply (f_equal Ok)];
    first [ apply frontier_spec; lia || done
          | apply (calculate_spec true 9 true); lia || done
          | apply (calculate_spec false 10 false 0); lia || done ].
Qed.

(** C17. On mainnet the calculator returns the difficulty of the Ethereum
    protocol, fork by fork, computed over the integers: no 64-bit operation
    wraps while the parent's difficulty is below 2^63 and time does not go
    backwards; from the Paris fork on it throws. *)
Theorem mainnet_difficulty parent current :
  child_of parent current -> HeaderMgr.m_time parent <= HeaderMgr.m_time current ->
  Calculator (Details := MainnetConfigDetails) parent current
  = if 15537394 <=? HeaderMgr.m_blkNum current then Throw paris_exception
    else Ok (mainnet_formula (HeaderMgr.m_blkNum parent) (HeaderMgr.m_time parent)
      (HeaderMgr.m_diff parent) (HeaderMgr.m_hasUncle parent) (HeaderMgr.m_time current)).
Proof. apply mainnet_calculator. Qed.

(** Two mainnet headers around block 15400000. *)
Definition sample_parent : HeaderMgr.t :=
  HeaderMgr.SetDiff (HeaderMgr.SetTime (HeaderMgr.SetNumber HeaderMgr.init 15399999)
    1661130096) 11971887016139811.
Definition sample_child : HeaderMgr.t :=
  HeaderMgr.SetTime (HeaderMgr.SetNumber HeaderMgr.init 15400000) 1661130108.

Lemma mainnet_difficulty_witness :
  child_of sample_parent sample_child /\
  Calculator (Details := MainnetConfigDetails) sample_parent sample_child = Ok (11971887016139811 + 2 ^ 38).
Proof.
  assert (child_of sample_parent sample_child) as H
    by (split; vm_compute; first [reflexivity | split; congruence]).
  split; [exact H|].
  etransitivity; [exact (mainnet_difficulty sample_parent sample_child H ltac:(vm_compute; congruence))|].
  vm_compute. reflexivity.
Defined.

(** ** The estimator *)

Lemma estimated_spec pn pt pd uncle n t :
  0 <= pn < 15537394 -> fits 64 pt -> fits 64 t -> pt <= t -> 0 <= pd < 2 ^ 63 ->
  pd / 2048 * ((t - pt) / 9) < 2 ^ 64 ->
  EthashDAACalculator.calculate EthashDAACalculator.GetEip5133Estimated pn pt pd uncle n t
  = Z.max 131072 (pd + pd / 2048 * ((if uncle then 2 else 1) - (t - pt) / 9))
    + ice_age 11400000 pn.
Proof.
  intros Hpn Hpt Ht Hle Hpd Hov. unfold EthashDAACalculator.calculate, ice_age.
  assert (EthashDAACalculator.fakeBlockNumber EthashDAACalculator.GetEip5133Estimated pn
    = Z.max 0 (pn + 1 - 11400000)) as ->.
  { unfold EthashDAACalculator.fakeBlockNumber. cbn -[Z.sub Z.leb].
    change (u64 (11400000 - 1)) with 11399999.
    destruct (Z.leb_spec 11399999 pn); [|lia]. rewrite wrap_small by word_lia. lia. }
  set (big := if uncle then 2 else 1). assert (1 <= big <= 2) as Hbig by (unfold big; case_match; lia).
  assert (0 <= (t - pt) / 9) as Hx by (apply Z.div_pos; lia).
  destruct (reduction_bounds pd 2 Hpd ltac:(lia)) as [H52 H2].
  assert (EthashDAACalculator.adjusted EthashDAACalculator.GetEip5133Estimated pt pd uncle t
    = Z.max 131072 (pd + pd / 2048 * (big - (t - pt) / 9))) as ->.
  - assert ((t - pt) / 9 <= t - pt) as Hx' by (apply Z.div_le_upper_bound; lia).
    unfold EthashDAACalculator.adjusted. cbn -[Z.shiftr Z.max]. fold big.
    rewrite shiftr_2048, (wrap_small 64 (t - pt)) by word_lia.
    set (x := (t - pt) / 9) in *. clearbody x big. unfold EthashDAACalculator.sub_sign.
    change Params.GetMinimumDifficulty with 131072.
    destruct (Z.ltb_spec big x); cbn [andb].
    + rewrite (wrap_small 64 (x - big)) by word_lia.
      assert (0 <= pd / 2048 * (x - big) < 2 ^ 64) as Hr by nia.
      rewrite (wrap_small 64 (_ * _)) by done.
      replace (big - x) with (- (x - big)) by lia. rewrite Z.mul_opp_r.
      destruct (Z.ltb_spec pd (pd / 2048 * (x - big))); [cbn; lia|].
      rewrite wrap_small by word_lia. destruct (Z.ltb_spec (pd - pd / 2048 * (x - big)) 131072); lia.
    + rewrite (wrap_small 64 (big - x)) by word_lia.
      assert (0 <= pd / 2048 * (big - x) <= pd) as Hr by (split; nia).
      rewrite (wrap_small 64 (_ * _)), wrap_small by word_lia.
      destruct (Z.ltb_spec (pd + pd / 2048 * (big - x)) 131072); lia.
  - apply bomb_spec; [lia|]. clearbody big.
    assert (pd / 2048 * (big - (t - pt) / 9) <= 2 * 2 ^ 52) by nia.
    change (2 ^ 63) with 9223372036854775808 in *. change (2 ^ 52) with 4503599627370496 in *.
    change (2 ^ 64) with 18446744073709551616. change (2 ^ 60) with 1152921504606846976. lia.
Qed.

(** The estimator is the EIP-5133 formula without the -99 cap: between the
    Gray Glacier and the Paris forks it returns
    [max 131072 (pd + pd / 2048 * (big - (t - pt) / 9))] plus the ice-age term,
    as long as the product fits 64 bits; before Gray Glacier and from Paris on
    it throws. *)
Theorem mainnet_estimate parent current :
  child_of parent current -> HeaderMgr.m_time parent <= HeaderMgr.m_time current ->
  HeaderMgr.m_diff parent / 2048
    * ((HeaderMgr.m_time current - HeaderMgr.m_time parent) / 9) < 2 ^ 64 ->
  Estimator (Details := MainnetConfigDetails) parent current
  = if 15537394 <=? HeaderMgr.m_blkNum current then Throw paris_exception
    else if HeaderMgr.m_blkNum current <? 15050000 then
      Throw (Exception "Estimating the difficulty value before EIP-5133 is not allowed.")
    else Ok (Z.max 131072 (HeaderMgr.m_diff parent + HeaderMgr.m_diff parent / 2048
        * ((if HeaderMgr.m_hasUncle parent then 2 else 1)
           - (HeaderMgr.m_time current - HeaderMgr.m_time parent) / 9))
      + ice_age 11400000 (HeaderMgr.m_blkNum parent)).
Proof.
  intros [Hn Hp Hpt Ht Hd] Hle Hov. cbn [Estimator MainnetDAA].
  unfold EthashDAAEst.call, EthashDAAEst.GetCalculator, NetworkConfig.IsBlockOfParis,
    NetworkConfig.IsBlockOfGrayGlacier, NetworkConfig.IsBlockOf.
  cbn -[Z.leb Z.ltb EthashDAACalculator.call]. rewrite Z.ltb_antisym.
  destruct (Z.leb_spec 15537394 (HeaderMgr.m_blkNum current)); [done|].
  destruct (Z.leb_spec 15050000 (HeaderMgr.m_blkNum current)); [|done].
  cbn [mbind result_bind negb]. apply (f_equal Ok). apply estimated_spec; lia || done.
Qed.

Lemma mainnet_estimate_witness :
  Estimator (Details := MainnetConfigDetails) sample_parent sample_child = Ok (11971887016139811 + 2 ^ 38).
Proof.
  etransitivity;
    [apply (mainnet_estimate sample_parent sample_child);
      [split; vm_compute; first [reflexivity | split; congruence]
      |vm_compute; congruence|vm_compute; congruence]|].
  vm_compute. reflexivity.
Defined.

(** A block whose timestamp is before its parent's is not told apart from
    one that is decades late: the 64-bit difference wraps, and the difficulty
    drops by the maximal 99/2048. *)
Theorem backwards_time_is_slowest c pt pd uncle t :
  In c [EthashDAACalculator.GetEip5133; EthashDAACalculator.GetEip4345;
        EthashDAACalculator.GetEip3554; EthashDAACalculator.GetEip2384;
        EthashDAACalculator.GetConstantinople; EthashDAACalculator.GetByzantium;
        EthashDAACalculator.GetHomestead] ->
  0 <= t < pt -> pt < 2 ^ 63 -> 0 <= pd < 2 ^ 63 ->
  EthashDAACalculator.adjusted c pt pd uncle t = Z.max 131072 (pd - 99 * (pd / 2048)).
Proof.
  intros Hc Ht Hpt Hpd.
  assert (exists u d hb delay, c = EthashDAACalculator.create u d true hb delay /\ 9 <= d <= 10)
    as (u & d & hb & delay & -> & Hd).
  { cbn in Hc. repeat destruct Hc as [<-|Hc]; try done; eexists _, _, _, _; split; [reflexivity|lia|..]; reflexivity || lia. }
  unfold EthashDAACalculator.adjusted. cbn -[Z.shiftr Z.max]. rewrite shiftr_2048.
  change (2 ^ 63) with 9223372036854775808 in Hpt.
  assert (u64 (t - pt) = t - pt + 2 ^ 64) as ->.
  { symmetry. apply Z.mod_unique with (-1); [left|]; change (2 ^ 64) with 18446744073709551616; lia. }
  assert (200 < (t - pt + 2 ^ 64) / d) as Hx.
  { apply Z.lt_le_trans with (2 ^ 63 / 10); [done|].
    apply Z.le_trans with (2 ^ 63 / d); [apply Z.div_le_compat_l; lia|].
    apply Z.div_le_mono; [lia|]. change (2 ^ 63) with 9223372036854775808.
    change (2 ^ 64) with 18446744073709551616. lia. }
  assert ((t - pt + 2 ^ 64) / d < 2 ^ 64) as Hx'.
  { apply Z.div_lt_upper_bound; [lia|]. change (2 ^ 64) with 18446744073709551616. lia. }
  set (x := (t - pt + 2 ^ 64) / d) in *. clearbody x. unfold EthashDAACalculator.sub_sign.
  set (big := if u && uncle then 2 else 1).
  assert (1 <= big <= 2) as Hbig by (unfold big; destruct (u && uncle); lia). clearbody big.
  rewrite (proj2 (Z.ltb_lt big x)), (wrap_small 64 (x - big)) by word_lia. cbn [andb].
  rewrite (proj2 (Z.ltb_lt 99 _)) by lia.
  destruct (reduction_bounds pd 99 Hpd ltac:(lia)) as [_ Hr].
  rewrite (wrap_small 64 (_ * 99)), wrap_small by word_lia.
  change Params.GetMinimumDifficulty with 131072. rewrite (Z.mul_comm 99).
  destruct (Z.ltb_spec (pd - pd / 2048 * 99) 131072); lia.
Qed.

Lemma backwards_time_is_slowest_witness :
  EthashDAACalculator.adjusted EthashDAACalculator.GetEip5133 1661130096 11971887016139811 true 1661130095
  = Z.max 131072 (11971887016139811 - 99 * (11971887016139811 / 2048)).
Proof.
  apply (backwards_time_is_slowest EthashDAACalculator.GetEip5133).
  - left. reflexivity.
  - lia.
  - reflexivity.
  - split; vm_compute; congruence.
Defined.
