(* ===== verification/Trie.v ===== *)
(** * The Merkle Patricia trie: nodes and insertion

    [EclipseMonitor/Eth/Trie]: nibbles and the hex-prefix encoding
    ([Nibbles.hpp]), the node types with the RLP list each is hashed as
    ([TrieNode.hpp], [LeafNode.hpp], [BranchNode.hpp], [ExtensionNode.hpp])
    and [PatriciaTrie] ([Trie.hpp]).  The theorems here are about [Put]; the
    ones about the root hash are in [TrieHash]. *)

From stdpp Require Import strings.
From S2P Require Import Prelude RlpEncoding Keccak.

(** What goes wrong in trie code: a read past the end of a vector, which is
    undefined in the code, or an exception. *)
Inductive TrieFault :=
| VectorOutOfRange
| RlpFault (e : RlpError)
| InvalidNodeType.

#[export] Instance TrieFault_eq_dec : EqDecision TrieFault.
Proof. solve_decision. Defined.

(** ** Nibbles *)

Module NibbleHelper.
Definition IsNibble (n : Z) : bool := n <=? 15.

Definition FromBytes (b : bytes) : list Z :=
  mjoin (map (fun byte => [Z.land (Z.shiftr byte 4) 0x0F; Z.land byte 0x0F]) b).

(** Reads [nibbles[i + 1]] for every even [i]. *)
Fixpoint ToBytes (nibbles : list Z) : result TrieFault bytes :=
  match nibbles with
  | [] => Ok []
  | [_] => Throw VectorOutOfRange
  | x :: y :: rest =>
    nibbleBytes ← ToBytes rest;
    Ok (u8 (Z.lor (u8 (Z.shiftl x 4)) y) :: nibbleBytes)
  end.

Definition ToPrefixed (nibbles : list Z) (isLeafNode : bool) : list Z :=
  let prefixed := if (length nibbles mod 2 =? 1)%nat then [1] else [0; 0] in
  let prefixed := prefixed ++ nibbles in
  if isLeafNode then <[0%nat := u8 (get prefixed 0 + 2)]> prefixed else prefixed.

(** [matchedLen] is a [uint8_t]. *)
Fixpoint PrefixMatchedLen_loop (matchedLen : Z) (nibbles1 nibbles2 : list Z) : Z :=
  match nibbles1, nibbles2 with
  | x :: nibbles1, y :: nibbles2 =>
    if x =? y then PrefixMatchedLen_loop (u8 (matchedLen + 1)) nibbles1 nibbles2 else matchedLen
  | _, _ => matchedLen
  end.

Definition PrefixMatchedLen (nibbles1 nibbles2 : list Z) : Z :=
  PrefixMatchedLen_loop 0 nibbles1 nibbles2.
End NibbleHelper.

(** ** Nodes *)

(** A [unique_ptr<Node>] is an [option node]; a [Node] always owns a
    [NodeBase].  The [m_next] of an extension is never null: both places that
    build an extension move a live node into it. *)
Inductive node : Type :=
| Leaf (m_path : list Z) (m_value : bytes)
| Branch (m_nodeHasValue : bool) (m_branches : list (option node)) (m_value : bytes)
| Extension (m_path : list Z) (m_next : node).

Section node_induction.
Variable P : node -> Prop.
Variable Q : option node -> Prop.
Hypothesis Hleaf : forall p v, P (Leaf p v).
Hypothesis Hbranch : forall hv bs v, Forall Q bs -> P (Branch hv bs v).
Hypothesis Hext : forall p n, P n -> P (Extension p n).
Hypothesis Hnull : Q None.
Hypothesis Hsome : forall n, P n -> Q (Some n).

(** Induction through the child vector. *)
Fixpoint node_nested_ind (n : node) : P n :=
  let opt (c : option node) : Q c :=
    match c with None => Hnull | Some c => Hsome c (node_nested_ind c) end in
  match n with
  | Leaf p v => Hleaf p v
  | Branch hv bs v =>
    Hbranch hv bs v ((fix all (l : list (option node)) : Forall Q l :=
      match l with
      | [] => Forall_nil_2 Q
      | c :: l' => Forall_cons_2 Q c l' (opt c) (all l')
      end) bs)
  | Extension p n => Hext p n (node_nested_ind n)
  end.
End node_induction.

Module NodeBase.
Definition GenSerialized (raw : list Obj) : result TrieFault bytes :=
  match WriterGeneric.Write (OList raw) with Ok b => Ok b | Throw e => Throw (RlpFault e) end.
Definition CalcSerializedSize (raw : list Obj) : result TrieFault Z :=
  match WriterGeneric.CalcSize (OList raw) with Ok n => Ok n | Throw e => Throw (RlpFault e) end.
Definition CalcHash (serialized : bytes) : bytes := Keccak256 serialized.
End NodeBase.

Definition sk_numNodes : nat := 16.

(** The item a parent holds for a child: its hash, or the child itself when
    it serialises to fewer than 32 bytes. *)
Definition child_ref (nodeBaseRaw : list Obj) : result TrieFault Obj :=
  serializedSize ← NodeBase.CalcSerializedSize nodeBaseRaw;
  if 32 <=? serializedSize then
    serialized ← NodeBase.GenSerialized nodeBaseRaw;
    Ok (OBytes (NodeBase.CalcHash serialized))
  else Ok (OList nodeBaseRaw).

Fixpoint Raw (n : node) : result TrieFault (list Obj) :=
  match n with
  | Leaf m_path m_value =>
    pathBytes ← NibbleHelper.ToBytes (NibbleHelper.ToPrefixed m_path true);
    Ok [OBytes pathBytes; OBytes m_value]
  | Branch _ m_branches m_value =>
    hashes ← mapM (fun c =>
      match c with
      | None => Ok (OBytes [])
      | Some c => nodeBaseRaw ← Raw c; child_ref nodeBaseRaw
      end) m_branches;
    Ok (hashes ++ [OBytes m_value])
  | Extension m_path m_next =>
    pathBytes ← NibbleHelper.ToBytes (NibbleHelper.ToPrefixed m_path false);
    nextBaseRaw ← Raw m_next;
    next ← child_ref nextBaseRaw;
    Ok [OBytes pathBytes; next]
  end.

Definition Serialize (n : node) : result TrieFault bytes :=
  raw ← Raw n; NodeBase.GenSerialized raw.

Definition NodeHash (n : node) : result TrieFault bytes :=
  serialized ← Serialize n; Ok (NodeBase.CalcHash serialized).

(** ** PatriciaTrie *)

Definition EmptyNodeHash : bytes :=
  [0x56; 0xe8; 0x1f; 0x17; 0x1b; 0xcc; 0x55; 0xa6;
   0xff; 0x83; 0x45; 0xe6; 0x92; 0xc0; 0xf8; 0x6e;
   0x5b; 0x48; 0xe0; 0x1b; 0x99; 0x6c; 0xad; 0xc0;
   0x01; 0x62; 0x2f; 0xb5; 0xe3; 0x63; 0xb4; 0x21].

Module BranchNode.
(** A branch under construction: [m_nodeHasValue], [m_branches], [m_value]. *)
Definition parts : Type := bool * list (option node) * bytes.
Definition create : parts := (false, replicate sk_numNodes None, []).
Definition SetBranch (b : parts) (nibble : Z) (other : node) : parts :=
  let '(hv, bs, v) := b in (hv, <[Z.to_nat nibble := Some other]> bs, v).
Definition SetValue (b : parts) (otherValue : bytes) : parts :=
  let '(_, bs, _) := b in (true, bs, otherValue).
Definition node_of (b : parts) : node := let '(hv, bs, v) := b in Branch hv bs v.
End BranchNode.

Module PatriciaTrie.
Definition PutKeyEmptyNode (nibbles : list Z) (value : bytes) : node := Leaf nibbles value.

Definition PutKeyLeafNode (leafPath : list Z) (leafValue : bytes) (nibbles : list Z)
    (value : bytes) : node :=
  let matched := NibbleHelper.PrefixMatchedLen nibbles leafPath in
  if (matched =? zlen nibbles) && (matched =? zlen leafPath) then Leaf leafPath value
  else
    let m := Z.to_nat matched in
    let b := BranchNode.create in
    let b := if matched =? zlen leafPath then BranchNode.SetValue b leafValue else b in
    let b := if matched =? zlen nibbles then BranchNode.SetValue b value else b in
    let b :=
      if matched <? zlen leafPath then
        BranchNode.SetBranch b (get leafPath m) (Leaf (drop (S m) leafPath) leafValue)
      else b in
    let b :=
      if matched <? zlen nibbles then
        BranchNode.SetBranch b (get nibbles m) (Leaf (drop (S m) nibbles) value)
      else b in
    let branch := BranchNode.node_of b in
    if 0 <? matched then Extension (take m leafPath) branch else branch.

(** The case [matched < extensionPath.size()]: split the extension.  When the
    key ends inside the extension, [nibbles[matched]] is out of range. *)
Definition SplitExtension (extensionPath : list Z) (nextNode : node) (nibbles : list Z)
    (value : bytes) (matched : nat) : result TrieFault node :=
  let sharedNibbles := take matched extensionPath in
  let branchNibble := get extensionPath matched in
  let remaining := drop (S matched) extensionPath in
  match nibbles !! matched with
  | None => Throw VectorOutOfRange
  | Some nodeBranchNibble =>
    let nodeLeafNibbles := drop (S matched) nibbles in
    let b := BranchNode.create in
    let b :=
      match remaining with
      | [] => BranchNode.SetBranch b branchNibble nextNode
      | _ => BranchNode.SetBranch b branchNibble (Extension remaining nextNode)
      end in
    let b := BranchNode.SetBranch b nodeBranchNibble (Leaf nodeLeafNibbles value) in
    let branch := BranchNode.node_of b in
    match sharedNibbles with
    | [] => Ok branch
    | _ => Ok (Extension sharedNibbles branch)
    end
  end.

(** Runs [f] on the child pointer at index [i]. *)
Definition at_branch (f : option node -> result TrieFault node)
  : list (option node) -> nat -> result TrieFault (list (option node)) :=
  fix go bs i {struct bs} :=
    match bs, i with
    | [], _ => Throw VectorOutOfRange
    | c :: bs', O => r ← f c; Ok (Some r :: bs')
    | c :: bs', S i' => r ← go bs' i'; Ok (c :: r)
    end.

(** [PutKey] on a live node. *)
Fixpoint PutKeyNode (n : node) (nibbles : list Z) (value : bytes) : result TrieFault node :=
  match n with
  | Leaf leafPath leafValue => Ok (PutKeyLeafNode leafPath leafValue nibbles value)
  | Branch hv bs v =>
    match nibbles with
    | [] => Ok (Branch true bs value)
    | branchNibble :: remaining =>
      bs ← at_branch (fun c =>
        match c with
        | None => Ok (PutKeyEmptyNode remaining value)
        | Some c => PutKeyNode c remaining value
        end) bs (Z.to_nat branchNibble);
      Ok (Branch hv bs v)
    end
  | Extension extensionPath m_next =>
    let matched := NibbleHelper.PrefixMatchedLen nibbles extensionPath in
    if matched <? zlen extensionPath then
      SplitExtension extensionPath m_next nibbles value (Z.to_nat matched)
    else
      next ← PutKeyNode m_next (drop (Z.to_nat matched) nibbles) value;
      Ok (Extension extensionPath next)
  end.

Definition PutKey (n : option node) (nibbles : list Z) (value : bytes) : result TrieFault node :=
  match n with
  | None => Ok (PutKeyEmptyNode nibbles value)
  | Some n => PutKeyNode n nibbles value
  end.

(** The state of a trie is [m_root]. *)
Definition t : Type := option node.
Definition create : t := None.
Definition Reset (_ : t) : t := None.

Definition Hash (m_root : t) : result TrieFault bytes :=
  match m_root with
  | None => Ok EmptyNodeHash
  | Some n => NodeHash n
  end.

Definition Put (m_root : t) (keyRlp value : bytes) : result TrieFault t :=
  root ← PutKey m_root (NibbleHelper.FromBytes keyRlp) value;
  Ok (Some root).
End PatriciaTrie.

(** The empty root is the digest of the RLP of the empty byte string. *)
Example empty_root_digest : Keccak256 [0x80] = EmptyNodeHash.
Proof. vm_compute. reflexivity. Qed.

(** ** What a trie stores *)

(** [k] without the prefix [p]. *)
Fixpoint strip_prefix (p k : list Z) : option (list Z) :=
  match p, k with
  | [], _ => Some k
  | x :: p, y :: k => if decide (x = y) then strip_prefix p k else None
  | _ :: _, [] => None
  end.

(** Runs [f] on the child at index [i], if there is one. *)
Definition child_at {A} (f : node -> option A) : list (option node) -> nat -> option A :=
  fix go bs i {struct bs} :=
    match bs, i with
    | [], _ => None
    | None :: _, O => None
    | Some c :: _, O => f c
    | _ :: bs', S i' => go bs' i'
    end.

(** The value stored under a path. *)
Fixpoint lookup_node (n : node) (k : list Z) : option bytes :=
  match n with
  | Leaf p v => if decide (k = p) then Some v else None
  | Branch hv bs v =>
    match k with
    | [] => if hv then Some v else None
    | x :: k' => child_at (fun c => lookup_node c k') bs (Z.to_nat x)
    end
  | Extension p n =>
    match strip_prefix p k with Some k' => lookup_node n k' | None => None end
  end.

Definition lookup_trie (t : PatriciaTrie.t) (k : list Z) : option bytes :=
  match t with None => None | Some n => lookup_node n k end.

Definition nibbles (l : list Z) : Prop := Forall (fits 4) l.

(** The tries that insertion builds: 16 children per branch, at least two ways
    to continue from it, and extensions that lead to a branch. *)
Inductive wf : node -> Prop :=
| wf_leaf p v : nibbles p -> all_bytes v -> wf (Leaf p v)
| wf_branch hv bs v :
    length bs = sk_numNodes -> Forall wf_opt bs -> all_bytes v -> (hv = false -> v = []) ->
    (exists i c, bs !! i = Some (Some c)) ->
    (forall j, hv = true \/ exists i c, i <> j /\ bs !! i = Some (Some c)) ->
    wf (Branch hv bs v)
| wf_ext p hv bs v : nibbles p -> p <> [] -> wf (Branch hv bs v) ->
    wf (Extension p (Branch hv bs v))
with wf_opt : option node -> Prop :=
| wf_null : wf_opt None
| wf_some n : wf n -> wf_opt (Some n).

Definition wf_trie (t : PatriciaTrie.t) : Prop := wf_opt t.

(** ** Lists *)

Lemma strip_prefix_app p k : strip_prefix p (p ++ k) = Some k.
Proof. induction p as [|x p IH]; [by destruct k|]. simpl. by rewrite decide_True. Qed.

Lemma strip_prefix_Some p k r : strip_prefix p k = Some r <-> k = p ++ r.
Proof.
  split; [|intros ->; apply strip_prefix_app].
  revert k. induction p as [|x p IH]; intros k; simpl; [destruct k; naive_solver|].
  destruct k as [|y k]; [done|]. case_decide; [|done]. intros Hs. subst. f_equal. by apply IH.
Qed.

Lemma strip_prefix_None p k : strip_prefix p k = None <-> forall r, k <> p ++ r.
Proof.
  destruct (strip_prefix p k) as [r|] eqn:E.
  - apply strip_prefix_Some in E as ->. split; [done|]. intros H. by destruct (H r).
  - split; [|done]. intros _ r ->. by rewrite strip_prefix_app in E.
Qed.

Lemma child_at_lookup {A} (f : node -> option A) bs i :
  child_at f bs i = match bs !! i with Some (Some c) => f c | _ => None end.
Proof.
  revert i. induction bs as [|c bs IH]; intros i; [done|].
  destruct i as [|i]; [by destruct c|]. simpl. destruct c; apply IH.
Qed.

Lemma at_branch_ok f bs i c r : bs !! i = Some c -> f c = Ok r ->
  PatriciaTrie.at_branch f bs i = Ok (<[i := Some r]> bs).
Proof.
  revert i. induction bs as [|c' bs IH]; intros i Hi Hf; [done|].
  destruct i as [|i]; simpl in Hi |- *.
  - injection Hi as ->. by rewrite Hf.
  - by rewrite (IH i).
Qed.

(** Two paths split at the end of their common prefix. *)
Fixpoint common_len (l k : list Z) : nat :=
  match l, k with
  | x :: l, y :: k => if x =? y then S (common_len l k) else O
  | _, _ => O
  end.

Lemma common_split l k : exists c l' k',
  l = c ++ l' /\ k = c ++ k' /\ length c = common_len l k /\
  match l', k' with x :: _, y :: _ => x <> y | _, _ => True end.
Proof.
  revert k. induction l as [|x l IH]; intros k; [by exists [], [], k|].
  destruct k as [|y k]; [by exists [], (x :: l), []|]. simpl.
  destruct (Z.eqb_spec x y) as [->|Hne]; [|by exists [], (x :: l), (y :: k)].
  destruct (IH k) as (c & l' & k' & -> & -> & Hc & H). exists (y :: c), l', k'.
  split_and!; [done|done|by simpl; rewrite Hc|done].
Qed.

Lemma common_len_le l k : (common_len l k <= length l)%nat.
Proof.
  revert k. induction l as [|x l IH]; intros [|y k]; simpl; [lia..|].
  case_match; [specialize (IH k)|]; lia.
Qed.

Lemma PrefixMatchedLen_spec l k : (length l < 256)%nat ->
  NibbleHelper.PrefixMatchedLen l k = Z.of_nat (common_len l k).
Proof.
  intros Hl. unfold NibbleHelper.PrefixMatchedLen.
  assert (forall a, 0 <= a -> a + zlen l < 256 ->
    NibbleHelper.PrefixMatchedLen_loop a l k = a + Z.of_nat (common_len l k)) as H; [|apply H; lia].
  clear Hl. revert k. induction l as [|x l IH]; intros k a Ha Hb; [simpl; destruct k; lia|].
  destruct k as [|y k]; simpl; [lia|]. destruct (x =? y); [|lia]. cbn [length] in Hb.
  rewrite wrap_small by word_lia. rewrite IH by lia. lia.
Qed.

(** A key that ends inside the stored key [k']. *)
Definition ends_inside (k k' : list Z) : Prop := exists r, r <> [] /\ k' = k ++ r.

(** No stored key continues [k]. *)
Definition fresh_key (n : node) (k : list Z) : Prop :=
  forall k' v, nibbles k' -> lookup_node n k' = Some v -> ~ ends_inside k k'.

(** Every live node stores something. *)
Lemma wf_inhabited n : wf n -> exists k v, nibbles k /\ lookup_node n k = Some v.
Proof.
  induction n as [p v|hv bs v IH|p n IH| |n IH] using node_nested_ind
    with (Q := fun c => match c with None => True | Some n =>
      wf n -> exists k v, nibbles k /\ lookup_node n k = Some v end); [..|done|done].
  - inversion 1; subst. exists p, v. split; [done|]. simpl. by rewrite decide_True.
  - inversion 1 as [|? ? ? Hlen Hbs _ _ (i & c & Hi) _|]; subst.
    assert ((i < 16)%nat) as Hlt by (apply lookup_lt_Some in Hi; unfold sk_numNodes in Hlen; lia).
    pose proof (Forall_lookup_1 _ _ _ _ Hbs Hi) as Hc. inversion Hc; subst.
    destruct (Forall_lookup_1 _ _ _ _ IH Hi) as (k & w & Hk & Hw); [done|].
    exists (Z.of_nat i :: k), w. split; [constructor; [split; simpl; lia|done]|].
    cbn [lookup_node]. by rewrite child_at_lookup, Nat2Z.id, Hi.
  - inversion 1; subst. destruct IH as (k & w & Hk & Hw); [done|].
    exists (p ++ k), w. split; [by apply Forall_app|]. cbn [lookup_node]. by rewrite strip_prefix_app.
Qed.

(** ** Insertion *)

(** A branch behind a shared path. *)
Definition wrap_ext (c : list Z) (b : node) : node :=
  match c with [] => b | _ => Extension c b end.

Lemma lookup_wrap c b k :
  lookup_node (wrap_ext c b) k
  = match strip_prefix c k with Some r => lookup_node b r | None => None end.
Proof. by destruct c, k. Qed.

Lemma wf_wrap c hv bs v : nibbles c -> wf (Branch hv bs v) -> wf (wrap_ext c (Branch hv bs v)).
Proof. intros Hc Hw. destruct c; [done|]. by constructor. Qed.

Definition nones : list (option node) := replicate sk_numNodes None.

(** The branch that replaces a leaf with path [ps] when [ks] is inserted. *)
Definition leaf_branch (ps : list Z) (lv : bytes) (ks : list Z) (v : bytes) : node :=
  match ps, ks with
  | [], [] => Branch true nones v
  | [], y :: ks' => Branch true (<[Z.to_nat y := Some (Leaf ks' v)]> nones) lv
  | x :: ps', [] => Branch true (<[Z.to_nat x := Some (Leaf ps' lv)]> nones) v
  | x :: ps', y :: ks' =>
    Branch false (<[Z.to_nat y := Some (Leaf ks' v)]> (<[Z.to_nat x := Some (Leaf ps' lv)]> nones)) []
  end.

Lemma get_app_r c x l : get (c ++ x :: l) (length c) = x.
Proof. unfold get. by rewrite list_lookup_middle. Qed.

Lemma drop_app_cons (c : list Z) x l : drop (S (length c)) (c ++ x :: l) = l.
Proof. rewrite drop_app_ge by lia. by replace (S (length c) - length c)%nat with 1%nat by lia. Qed.

Lemma common_len_app c l k :
  match l, k with x :: _, y :: _ => x <> y | _, _ => True end ->
  common_len (c ++ l) (c ++ k) = length c.
Proof.
  intros H. induction c as [|z c IH]; simpl; [|by rewrite Z.eqb_refl, IH].
  destruct l as [|x l], k as [|y k]; simpl; try done. by destruct (Z.eqb_spec x y).
Qed.

Lemma PutKeyLeafNode_split c ps lv ks v :
  (length (c ++ ks) < 256)%nat ->
  match ks, ps with y :: _, x :: _ => y <> x | [], [] => False | _, _ => True end ->
  PatriciaTrie.PutKeyLeafNode (c ++ ps) lv (c ++ ks) v = wrap_ext c (leaf_branch ps lv ks v).
Proof.
  intros Hlen Hd. unfold PatriciaTrie.PutKeyLeafNode.
  rewrite PrefixMatchedLen_spec, common_len_app by (done || by destruct ks, ps).
  rewrite !length_app, Nat2Z.id, !Nat2Z.inj_add.
  assert (forall n : list Z, (Z.of_nat (length c) =? zlen c + zlen n) = match n with [] => true | _ => false end) as E1.
  { intros [|? ?]; cbn [length]; [apply Z.eqb_eq; lia|apply Z.eqb_neq; lia]. }
  assert (forall n : list Z, (Z.of_nat (length c) <? zlen c + zlen n) = match n with [] => false | _ => true end) as E2.
  { intros [|? ?]; cbn [length]; [apply Z.ltb_ge; lia|apply Z.ltb_lt; lia]. }
  rewrite !E1, !E2, take_app_length.
  assert ((0 <? zlen c) = match c with [] => false | _ => true end) as E3 by (by destruct c).
  rewrite E3. unfold wrap_ext, leaf_branch.
  destruct ks as [|y ks], ps as [|x ps]; try done; cbn [andb];
    rewrite ?get_app_r, ?drop_app_cons; by destruct c.
Qed.

(** The two alternatives of a branch under construction. *)
Lemma wf_nones_insert i n : (i < 16)%nat -> wf n ->
  length (<[i := Some n]> nones) = sk_numNodes /\ Forall wf_opt (<[i := Some n]> nones) /\
  (exists j c, <[i := Some n]> nones !! j = Some (Some c)).
Proof.
  intros Hi Hn. split_and!.
  - by rewrite length_insert.
  - apply Forall_insert; [|by constructor]. apply Forall_replicate. constructor.
  - exists i, n. apply list_lookup_insert_eq. by unfold nones; rewrite length_replicate.
Qed.

Lemma nibble_nat x : fits 4 x -> (Z.to_nat x < 16)%nat.
Proof. unfold fits. change (2 ^ 4) with 16. lia. Qed.

Lemma nones_lookup i c : nones !! i = Some (Some c) -> False.
Proof. intros H. apply lookup_replicate in H as [H _]. done. Qed.

(** A branch with two different children, or with a value and a child. *)
Lemma wf_two_children i j n m : (i < 16)%nat -> (j < 16)%nat -> i <> j -> wf n -> wf m ->
  wf (Branch false (<[i := Some n]> (<[j := Some m]> nones)) []).
Proof.
  intros Hi Hj Hij Hn Hm. destruct (wf_nones_insert j m Hj Hm) as (Hlen & Hall & _).
  assert (<[i:=Some n]> (<[j:=Some m]> nones) !! i = Some (Some n)) as Li.
  { apply list_lookup_insert_eq. by rewrite Hlen. }
  assert (<[i:=Some n]> (<[j:=Some m]> nones) !! j = Some (Some m)) as Lj.
  { rewrite list_lookup_insert_ne by done. apply list_lookup_insert_eq. unfold nones.
    by rewrite length_replicate. }
  constructor.
  - by rewrite length_insert.
  - apply Forall_insert; [done|by constructor].
  - constructor.
  - done.
  - eauto.
  - intros k. right. destruct (decide (i = k)) as [->|]; eauto.
Qed.

Lemma wf_value_child i n v : (i < 16)%nat -> wf n -> all_bytes v ->
  wf (Branch true (<[i := Some n]> nones) v).
Proof.
  intros Hi Hn Hv. destruct (wf_nones_insert i n Hi Hn) as (Hlen & Hall & Hex).
  constructor; auto; done.
Qed.

Lemma nibbles_cons x l : nibbles (x :: l) <-> fits 4 x /\ nibbles l.
Proof. apply Forall_cons. Qed.

Lemma nibbles_app l k : nibbles (l ++ k) <-> nibbles l /\ nibbles k.
Proof. apply Forall_app. Qed.

Lemma nibble_inj x y : fits 4 x -> fits 4 y -> Z.to_nat x = Z.to_nat y -> x = y.
Proof. unfold fits. lia. Qed.

Lemma leaf_branch_wf ps lv ks v :
  nibbles ps -> nibbles ks -> all_bytes lv -> all_bytes v ->
  match ks, ps with y :: _, x :: _ => y <> x | [], [] => False | _, _ => True end ->
  exists hv bs w, leaf_branch ps lv ks v = Branch hv bs w /\ wf (Branch hv bs w).
Proof.
  intros Hps Hks Hlv Hv Hd. unfold leaf_branch.
  destruct ks as [|y ks], ps as [|x ps]; try done;
    repeat match goal with H : nibbles (_ :: _) |- _ => apply nibbles_cons in H as [? ?] end;
    eexists _, _, _; (split; [reflexivity|]).
  - apply wf_value_child; auto using nibble_nat. by constructor.
  - apply wf_value_child; auto using nibble_nat. by constructor.
  - apply wf_two_children; try (by constructor); auto using nibble_nat.
    intros E. by apply Hd, nibble_inj.
Qed.

Lemma child_at_insert {A} (f : node -> option A) bs i n j : (i < length bs)%nat ->
  child_at f (<[i := Some n]> bs) j = if decide (i = j) then f n else child_at f bs j.
Proof.
  intros Hi. rewrite !child_at_lookup. case_decide as E.
  - subst. by rewrite list_lookup_insert_eq.
  - by rewrite list_lookup_insert_ne.
Qed.

Lemma child_at_nones {A} (f : node -> option A) j : child_at f nones j = None.
Proof.
  rewrite child_at_lookup. destruct (nones !! j) as [[c|]|] eqn:E; try done.
  by apply nones_lookup in E.
Qed.

(** Looking a key [x :: k] up below a child inserted at the nibble [y]. *)
Lemma lookup_inserted x k y bs n : fits 4 x -> fits 4 y -> length bs = sk_numNodes ->
  child_at (fun c => lookup_node c k) (<[Z.to_nat y := Some n]> bs) (Z.to_nat x)
  = if decide (x = y) then lookup_node n k else child_at (fun c => lookup_node c k) bs (Z.to_nat x).
Proof.
  intros Hx Hy Hl. rewrite child_at_insert by (rewrite Hl; by apply nibble_nat).
  destruct (decide (x = y)) as [->|Hne]; [by rewrite decide_True|].
  rewrite decide_False; [done|]. intros E. by apply Hne, eq_sym, nibble_inj.
Qed.

Lemma decide_cons {A} `{EqDecision A} {B} (x y : A) (l k : list A) (a b : B) :
  (if decide (x :: l = y :: k) then a else b)
  = if decide (x = y) then if decide (l = k) then a else b else b.
Proof. repeat case_decide; congruence. Qed.

Lemma leaf_branch_lookup ps lv ks v r :
  nibbles ps -> nibbles ks -> nibbles r ->
  match ks, ps with y :: _, x :: _ => y <> x | [], [] => False | _, _ => True end ->
  lookup_node (leaf_branch ps lv ks v) r
  = if decide (r = ks) then Some v else if decide (r = ps) then Some lv else None.
Proof.
  intros Hps Hks Hr Hd. unfold leaf_branch.
  destruct ks as [|y ks], ps as [|x ps]; try done;
    repeat match goal with H : nibbles (_ :: _) |- _ => apply nibbles_cons in H as [? ?] end;
    destruct r as [|z r]; cbn [lookup_node]; try done;
    apply nibbles_cons in Hr as [Hz Hr]; rewrite ?(lookup_inserted z) by
      (rewrite ?length_insert; done); rewrite ?child_at_nones; cbn [lookup_node];
    rewrite !decide_cons; repeat case_decide; congruence.
Qed.

(** A key split at a prefix [c] of the stored path. *)
Lemma strip_decide {B} (c r k : list Z) (a b : B) : strip_prefix c k = Some r -> forall ks,
  (if decide (r = ks) then a else b) = if decide (k = c ++ ks) then a else b.
Proof.
  intros E ks. apply strip_prefix_Some in E as ->.
  destruct (decide (r = ks)) as [->|Hne]; [by rewrite decide_True|].
  rewrite decide_False; [done|]. by intros ?%app_inv_head.
Qed.

(** What an insertion has to achieve. *)
Definition put_ok (n : node) (k : list Z) (v : bytes) (n' : node) : Prop :=
  wf n' /\ forall k', nibbles k' ->
    lookup_node n' k' = if decide (k' = k) then Some v else lookup_node n k'.

Lemma put_leaf p lv k v : wf (Leaf p lv) -> nibbles k -> all_bytes v -> (length k < 256)%nat ->
  put_ok (Leaf p lv) k v (PatriciaTrie.PutKeyLeafNode p lv k v).
Proof.
  intros Hw Hk Hv Hlen. inversion Hw as [? ? Hp Hlv| |]; subst.
  destruct (common_split k p) as (c & ks & ps & -> & -> & Hc & Hd).
  apply nibbles_app in Hk as [Hnc Hks], Hp as [_ Hps].
  destruct (decide (ks = [] /\ ps = [])) as [[-> ->]|Hne].
  - rewrite app_nil_r in *. unfold PatriciaTrie.PutKeyLeafNode.
    rewrite PrefixMatchedLen_spec by done. rewrite <-Hc, !Z.eqb_refl. cbn [andb]. split; [by constructor|].
    intros k' Hk'. simpl. by case_decide.
  - assert (match ks, ps with y :: _, x :: _ => y <> x | [], [] => False | _, _ => True end) as Hd'
      by (destruct ks, ps; try done; by apply Hne).
    rewrite PutKeyLeafNode_split by done. split.
    + destruct (leaf_branch_wf ps lv ks v) as (hv & bs & w & -> & Hwf); try done. by apply wf_wrap.
    + intros k' Hk'. rewrite lookup_wrap. destruct (strip_prefix c k') as [r|] eqn:E.
      * pose proof (strip_prefix_Some c k' r) as [Hr _]. specialize (Hr E).
        assert (nibbles r) by (rewrite Hr in Hk'; by apply nibbles_app in Hk' as [_ ?]).
        rewrite leaf_branch_lookup by done.
        rewrite (strip_decide c r k' _ _ E ks). case_decide; [done|]. cbn [lookup_node].
        by rewrite (strip_decide c r k' _ _ E ps).
      * pose proof (proj1 (strip_prefix_None c k') E) as HN.
        rewrite decide_False by apply HN. cbn [lookup_node]. by rewrite decide_False by apply HN.
Qed.

(** Splitting an extension below a branch. *)
Lemma put_split c x es nx y ks v :
  wf nx -> nibbles (c ++ x :: es) -> nibbles (c ++ y :: ks) -> all_bytes v -> y <> x ->
  (exists hv bs w, nx = Branch hv bs w) ->
  exists n', PatriciaTrie.SplitExtension (c ++ x :: es) nx (c ++ y :: ks) v (length c) = Ok n' /\
    put_ok (Extension (c ++ x :: es) nx) (c ++ y :: ks) v n'.
Proof.
  intros Hnx Hp Hk Hv Hne (hv & bs & w & ->). unfold PatriciaTrie.SplitExtension.
  rewrite list_lookup_middle, get_app_r, !drop_app_cons, take_app_length by done.
  apply nibbles_app in Hp as [Hc Hp], Hk as [_ Hk]. apply nibbles_cons in Hp as [Hx Hes], Hk as [Hy Hks].
  set (b := PatriciaTrie.PutKeyLeafNode) in *. clear b.
  set (sub := wrap_ext es (Branch hv bs w)).
  exists (wrap_ext c (Branch false
    (<[Z.to_nat y := Some (Leaf ks v)]> (<[Z.to_nat x := Some sub]> nones)) [])).
  split; [by destruct c, es|]. split.
  - apply wf_wrap; [done|]. apply wf_two_children; auto using nibble_nat.
    + intros E. by apply Hne, nibble_inj.
    + by constructor.
    + by apply wf_wrap.
  - intros k' Hk'. rewrite lookup_wrap. cbn [lookup_node].
    assert (forall r, strip_prefix (c ++ r) k' =
      match strip_prefix c k' with Some l => strip_prefix r l | None => None end) as Hs.
    { clear. revert k'. induction c as [|z c IH]; intros k' r; [by destruct k'|].
      destruct k' as [|z' k']; [done|]. simpl. case_decide; [apply IH|done]. }
    rewrite Hs. destruct (strip_prefix c k') as [r|] eqn:E.
    + pose proof (proj1 (strip_prefix_Some c k' r) E) as Hr.
      rewrite <-(strip_decide c r k' _ _ E (y :: ks)).
      rewrite Hr in Hk'. apply nibbles_app in Hk' as [_ Hnr].
      destruct r as [|z r]; [done|]. apply nibbles_cons in Hnr as [Hz Hnr].
      cbn [lookup_node]. rewrite !lookup_inserted by (rewrite ?length_insert; done).
      rewrite child_at_nones, decide_cons. cbn [lookup_node strip_prefix].
      unfold sub. rewrite lookup_wrap.
      destruct (decide (z = y)) as [->|]; [by rewrite (decide_False (P := x = y)) by congruence|].
      destruct (decide (z = x)) as [->|]; [by rewrite decide_True|by rewrite decide_False by congruence].
    + rewrite decide_False; [done|]. apply (strip_prefix_None c k'); done.
Qed.

Definition is_branch (n : node) : Prop := match n with Branch _ _ _ => True | _ => False end.

(** [PutKey] on a live node whose keys do not continue the new one. *)
Definition put_spec (n : node) : Prop :=
  wf n -> forall k v, nibbles k -> all_bytes v -> (length k < 256)%nat -> fresh_key n k ->
  exists n', PatriciaTrie.PutKeyNode n k v = Ok n' /\ put_ok n k v n' /\
    (is_branch n -> is_branch n').

Lemma fresh_child hv bs v x k i c : fits 4 x -> Z.to_nat x = i -> bs !! i = Some (Some c) ->
  fresh_key (Branch hv bs v) (x :: k) -> fresh_key c k.
Proof.
  intros Hx <- Hi Hf k' w Hk' Hw (r & Hr & ->). eapply (Hf (x :: k ++ r) w).
  - by constructor.
  - cbn [lookup_node]. by rewrite child_at_lookup, Hi.
  - by exists r.
Qed.

(** Putting a new child at a nibble of a branch. *)
Lemma put_child hv bs v x k w n : wf (Branch hv bs v) -> fits 4 x -> all_bytes w -> wf n ->
  (forall k', nibbles k' -> lookup_node n k' = if decide (k' = k) then Some w
    else child_at (fun c => lookup_node c k') bs (Z.to_nat x)) ->
  put_ok (Branch hv bs v) (x :: k) w (Branch hv (<[Z.to_nat x := Some n]> bs) v).
Proof.
  intros Hwf Hx Hw Hn Hl. inversion Hwf as [|? ? ? Hlen Hbs Hv Hhv (i & c & Hi) Hdeg|]; subst.
  assert (Z.to_nat x < length bs)%nat as Hlt by (rewrite Hlen; by apply nibble_nat).
  split.
  - constructor; auto.
    + by rewrite length_insert.
    + apply Forall_insert; [done|by constructor].
    + exists (Z.to_nat x), n. by apply list_lookup_insert_eq.
    + intros j. destruct (Hdeg j) as [->|(l & d & Hne & Hld)]; [by left|right].
      destruct (decide (l = Z.to_nat x)) as [->|Hl'].
      * exists (Z.to_nat x), n. split; [done|]. by apply list_lookup_insert_eq.
      * exists l, d. split; [done|]. by rewrite list_lookup_insert_ne.
  - intros [|y k'] Hk'; [done|]. apply nibbles_cons in Hk' as [Hy Hk'].
    cbn [lookup_node]. rewrite lookup_inserted, decide_cons by done.
    case_decide as E; [|done]. subst. by apply Hl.
Qed.

Lemma put_branch hv bs v :
  Forall (fun c => match c with Some n => put_spec n | None => True end) bs ->
  put_spec (Branch hv bs v).
Proof.
  intros IH Hwf k w Hk Hw Hlen Hf. destruct k as [|x k].
  { exists (Branch true bs w). split_and!; [done| |done].
    inversion Hwf; subst. split; [constructor; auto; try done|].
    by intros [|y k'] Hk'. }
  apply nibbles_cons in Hk as [Hx Hk]. cbn [length] in Hlen.
  inversion Hwf as [|? ? ? Hl Hbs _ _ _ _|]; subst.
  destruct (lookup_lt_is_Some_2 bs (Z.to_nat x)) as [c Hc].
  { rewrite Hl. by apply nibble_nat. }
  cbn [PatriciaTrie.PutKeyNode]. destruct c as [c|].
  - pose proof (Forall_lookup_1 _ _ _ _ IH Hc) as IHc. cbn in IHc.
    pose proof (Forall_lookup_1 _ _ _ _ Hbs Hc) as Hwc. inversion Hwc; subst.
    destruct (IHc ltac:(done) k w Hk Hw ltac:(lia) (fresh_child hv bs v x k _ c Hx eq_refl Hc Hf))
      as (n' & E & [Hn' Hlk] & _).
    rewrite (at_branch_ok _ bs _ (Some c) n') by done. eexists; split_and!; [done| |done].
    apply put_child; try done. intros k' Hk'. rewrite Hlk by done.
    by rewrite child_at_lookup, Hc.
  - rewrite (at_branch_ok _ bs _ None (Leaf k w)) by done. eexists; split_and!; [done| |done].
    apply put_child; try done; [by constructor|]. intros k' Hk'. simpl.
    by rewrite child_at_lookup, Hc.
Qed.

Lemma lookup_ext_app p n k : lookup_node (Extension p n) (p ++ k) = lookup_node n k.
Proof. cbn [lookup_node]. by rewrite strip_prefix_app. Qed.

Lemma lookup_ext p n k : lookup_node (Extension p n) k
  = match strip_prefix p k with Some r => lookup_node n r | None => None end.
Proof. done. Qed.

Lemma put_extension p n : put_spec n -> put_spec (Extension p n).
Proof.
  intros IH Hwf k w Hk Hw Hlen Hf. inversion Hwf as [| |? hv bs v Hp Hne Hn]; subst.
  destruct (common_split k p) as (c & ks & ps & -> & -> & Hc & Hd).
  cbn [PatriciaTrie.PutKeyNode]. rewrite PrefixMatchedLen_spec, <-Hc, Nat2Z.id by done.
  destruct ps as [|x es].
  - rewrite app_nil_r in *. rewrite Z.ltb_irrefl, drop_app_length.
    apply nibbles_app in Hk as [_ Hks]. rewrite length_app in Hlen.
    destruct (IH Hn ks w Hks Hw ltac:(lia)) as (n' & E & [Hn' Hlk] & Hb).
    { intros k' u Hk' Hu (r & Hr & ->). apply (Hf (c ++ (ks ++ r)) u).
      - by apply nibbles_app.
      - by rewrite lookup_ext_app.
      - exists r. split; [done|]. by rewrite app_assoc. }
    cbn [PatriciaTrie.PutKeyNode] in E. rewrite E. eexists; split_and!; [done| |done].
    destruct n' as [| hv' bs' v'|]; try (destruct (Hb I)). split; [by constructor|].
    intros k' Hk'. rewrite !lookup_ext.
    destruct (strip_prefix c k') as [r|] eqn:Er.
    + pose proof (proj1 (strip_prefix_Some _ _ _) Er) as Hr.
      assert (nibbles r) by (rewrite Hr in Hk'; by apply nibbles_app in Hk' as [_ ?]).
      rewrite Hlk by done. by rewrite (strip_decide c r k' _ _ Er ks).
    + rewrite decide_False; [done|]. by apply (strip_prefix_None c k').
  - rewrite (proj2 (Z.ltb_lt _ _)) by (rewrite length_app; cbn [length]; lia).
    destruct ks as [|y ks].
    + exfalso. destruct (wf_inhabited _ Hn) as (k2 & u & Hk2 & Hu).
      apply (Hf ((c ++ x :: es) ++ k2) u); [by apply nibbles_app|by rewrite lookup_ext_app|].
      exists ((x :: es) ++ k2). split; [done|]. by rewrite app_nil_r, <-app_assoc.
    + destruct (put_split c x es (Branch hv bs v) y ks w) as (n' & E & Hok); eauto 10.
      by exists n'.
Qed.

Lemma put_node n : put_spec n.
Proof.
  induction n as [p lv|hv bs v IH|p n IH| |n IH] using node_nested_ind
    with (Q := fun c => match c with None => True | Some n => put_spec n end); try done.
  - intros Hwf k v Hk Hv Hlen _. eexists; split_and!; [done|by apply put_leaf|done].
  - by apply put_branch.
  - by apply put_extension.
Qed.

(** ** Tries and their contents *)

Definition trie_fresh (t : PatriciaTrie.t) (k : list Z) : Prop :=
  match t with None => True | Some n => fresh_key n k end.

Lemma FromBytes_nibbles b : nibbles (NibbleHelper.FromBytes b).
Proof.
  unfold NibbleHelper.FromBytes. induction b as [|x b IH]; [constructor|].
  cbn [map mjoin list_join]. repeat constructor; try apply IH;
    change 15 with (Z.ones 4); rewrite Z.land_ones by lia; apply Z.mod_pos_bound; done.
Qed.

Lemma FromBytes_length b : length (NibbleHelper.FromBytes b) = (2 * length b)%nat.
Proof. unfold NibbleHelper.FromBytes. induction b as [|x b IH]; simpl; lia. Qed.

Lemma put_trie t key v : wf_trie t -> (length key < 128)%nat -> all_bytes v ->
  trie_fresh t (NibbleHelper.FromBytes key) ->
  exists t', PatriciaTrie.Put t key v = Ok t' /\ wf_trie t' /\
    forall k, nibbles k -> lookup_trie t' k
      = if decide (k = NibbleHelper.FromBytes key) then Some v else lookup_trie t k.
Proof.
  intros Ht Hlen Hv Hf. pose proof (FromBytes_nibbles key) as Hk.
  assert (length (NibbleHelper.FromBytes key) < 256)%nat as Hl by (rewrite FromBytes_length; lia).
  unfold PatriciaTrie.Put. destruct t as [n|]; cbn [PatriciaTrie.PutKey].
  - inversion Ht; subst.
    destruct (put_node n ltac:(done) _ v Hk Hv Hl Hf) as (n' & -> & [Hn Hlk] & _).
    eexists; split_and!; [done|by constructor|]. apply Hlk.
  - eexists; split_and!; [done|by repeat constructor|]. done.
Qed.

(** ** Canonical form *)

Definition same_content (n m : node) : Prop :=
  forall k, nibbles k -> lookup_node n k = lookup_node m k.

(** A branch stores a key that does not start with [x]. *)
Lemma branch_other_key hv bs v x : wf (Branch hv bs v) -> fits 4 x ->
  exists k w, nibbles k /\ lookup_node (Branch hv bs v) k = Some w /\ forall r, k <> x :: r.
Proof.
  intros Hwf Hx. inversion Hwf as [|? ? ? Hlen Hbs _ _ _ Hdeg|]; subst.
  destruct (Hdeg (Z.to_nat x)) as [->|(i & c & Hne & Hi)]; [exists [], v; split_and!; [constructor|done|done]|].
  pose proof (Forall_lookup_1 _ _ _ _ Hbs Hi) as Hc. inversion Hc; subst.
  destruct (wf_inhabited c) as (k & w & Hk & Hw); [done|].
  assert (i < 16)%nat by (apply lookup_lt_Some in Hi; unfold sk_numNodes in Hlen; lia).
  exists (Z.of_nat i :: k), w. split_and!.
  - constructor; [split; simpl; lia|done].
  - cbn [lookup_node]. by rewrite child_at_lookup, Nat2Z.id, Hi.
  - intros r [= <- _]. by rewrite Nat2Z.id in Hne.
Qed.

Lemma branch_two_keys hv bs v : wf (Branch hv bs v) -> exists k1 k2 w1 w2,
  nibbles k1 /\ nibbles k2 /\ k1 <> k2 /\
  lookup_node (Branch hv bs v) k1 = Some w1 /\ lookup_node (Branch hv bs v) k2 = Some w2.
Proof.
  intros Hwf. destruct (branch_other_key hv bs v 0 Hwf ltac:(split; simpl; lia)) as (k & u & Hk & Hu & _).
  destruct k as [|x k].
  - inversion Hwf as [|? ? ? Hlen Hbs _ _ (i & c & Hi) _|]; subst.
    pose proof (Forall_lookup_1 _ _ _ _ Hbs Hi) as Hc. inversion Hc; subst.
    destruct (wf_inhabited c) as (k' & w' & Hk' & Hw'); [done|].
    assert (i < 16)%nat by (apply lookup_lt_Some in Hi; unfold sk_numNodes in Hlen; lia).
    exists [], (Z.of_nat i :: k'), u, w'. split_and!; [constructor| |done|done|].
    + constructor; [split; simpl; lia|done].
    + cbn [lookup_node]. by rewrite child_at_lookup, Nat2Z.id, Hi.
  - apply nibbles_cons in Hk as [Hx Hk].
    destruct (branch_other_key hv bs v x Hwf Hx) as (k' & u' & Hk' & Hu' & Hne).
    exists (x :: k), k', u, u'. split_and!; try done; by constructor.
Qed.

Lemma branch_not_leaf hv bs v p w : wf (Branch hv bs v) ->
  ~ same_content (Leaf p w) (Branch hv bs v).
Proof.
  intros Hwf Hs. destruct (branch_two_keys hv bs v Hwf) as (k1 & k2 & w1 & w2 & H1 & H2 & Hne & E1 & E2).
  pose proof (Hs k1 H1) as S1. pose proof (Hs k2 H2) as S2. rewrite E1 in S1. rewrite E2 in S2.
  simpl in S1, S2. repeat case_decide; congruence.
Qed.

(** Below an extension everything starts with its path. *)
Lemma ext_prefix p n k w : lookup_node (Extension p n) k = Some w -> exists r, k = p ++ r.
Proof.
  rewrite lookup_ext. destruct (strip_prefix p k) as [r|] eqn:E; [|done].
  apply strip_prefix_Some in E. eauto.
Qed.

Lemma same_content_ext p n1 n2 : nibbles p ->
  same_content (Extension p n1) (Extension p n2) -> same_content n1 n2.
Proof.
  intros Hp H k Hk. specialize (H (p ++ k) ltac:(by apply nibbles_app)).
  by rewrite !lookup_ext_app in H.
Qed.

(** Two extensions with the same content have the same path. *)
Lemma ext_path p1 h1 bs1 v1 p2 h2 bs2 v2 :
  wf (Extension p1 (Branch h1 bs1 v1)) -> wf (Extension p2 (Branch h2 bs2 v2)) ->
  same_content (Extension p1 (Branch h1 bs1 v1)) (Extension p2 (Branch h2 bs2 v2)) -> p1 = p2.
Proof.
  assert (forall p1 h1 bs1 v1 p2 h2 bs2 v2,
    wf (Extension p1 (Branch h1 bs1 v1)) -> wf (Extension p2 (Branch h2 bs2 v2)) ->
    same_content (Extension p1 (Branch h1 bs1 v1)) (Extension p2 (Branch h2 bs2 v2)) ->
    exists r, p1 = p2 ++ r) as H.
  { clear. intros p1 h1 bs1 v1 p2 h2 bs2 v2 W1 W2 Hs.
    inversion W1 as [| |? ? ? ? Hp1 _ Hb1]; subst. inversion W2 as [| |? ? ? ? Hp2 _ Hb2]; subst.
    destruct (common_split p1 p2) as (c & a & b & -> & -> & _ & Hd).
    destruct b as [|y b]; [exists a; by rewrite app_nil_r|]. exfalso.
    apply nibbles_app in Hp2 as [_ Hyb], Hp1 as [Hc Ha]. apply nibbles_cons in Hyb as [Hy _].
    destruct (branch_other_key _ _ _ y Hb1 Hy) as (k & w & Hk & Hw & Hne).
    specialize (Hs ((c ++ a) ++ k) ltac:(by rewrite !nibbles_app)).
    rewrite lookup_ext_app, Hw in Hs. symmetry in Hs. apply ext_prefix in Hs as [r Hr].
    rewrite <-!app_assoc in Hr. apply app_inv_head in Hr.
    destruct a as [|x a]; [by apply (Hne (b ++ r))|]. simpl in Hr. by injection Hr as -> _. }
  intros W1 W2 Hs. destruct (H _ _ _ _ _ _ _ _ W1 W2 Hs) as [r1 E1].
  destruct (H _ _ _ _ _ _ _ _ W2 W1 ltac:(intros k Hk; symmetry; by apply Hs)) as [r2 E2].
  rewrite E2 in E1. rewrite <-app_assoc in E1. symmetry in E1.
  rewrite <-(app_nil_r p1) in E1 at 2. apply app_inv_head in E1.
  apply app_nil in E1 as [-> _]. by rewrite app_nil_r in E2.
Qed.

Lemma branch_not_ext h bs v p n : wf (Branch h bs v) -> wf (Extension p n) ->
  ~ same_content (Branch h bs v) (Extension p n).
Proof.
  intros W1 W2 Hs. inversion W2 as [| |? ? ? ? Hp Hne _]; subst. destruct p as [|x p]; [done|].
  apply nibbles_cons in Hp as [Hx _].
  destruct (branch_other_key h bs v x W1 Hx) as (k & w & Hk & Hw & Hk').
  specialize (Hs k Hk). rewrite Hw in Hs. symmetry in Hs. apply ext_prefix in Hs as [r ->].
  by apply (Hk' (p ++ r)).
Qed.

Lemma leaf_not_ext p v q n : wf (Extension q n) -> ~ same_content (Leaf p v) (Extension q n).
Proof.
  intros W Hs. inversion W as [| |? h bs w Hq Hne Hb]; subst.
  destruct (branch_two_keys h bs w Hb) as (k1 & k2 & w1 & w2 & H1 & H2 & Hk & E1 & E2).
  pose proof (Hs (q ++ k1) ltac:(by apply nibbles_app)) as S1.
  pose proof (Hs (q ++ k2) ltac:(by apply nibbles_app)) as S2.
  rewrite lookup_ext_app, E1 in S1. rewrite lookup_ext_app, E2 in S2.
  simpl in S1, S2. repeat case_decide; try done. subst. by simplify_list_eq.
Qed.

Lemma same_content_sym n m : same_content n m -> same_content m n.
Proof. intros H k Hk. symmetry. by apply H. Qed.

(** The children of two branches with the same content. *)
Lemma same_children hv bs v hv' bs' v' i : (i < 16)%nat ->
  same_content (Branch hv bs v) (Branch hv' bs' v') ->
  forall k, nibbles k ->
    child_at (fun c => lookup_node c k) bs i = child_at (fun c => lookup_node c k) bs' i.
Proof.
  intros Hi Hs k Hk. specialize (Hs (Z.of_nat i :: k) ltac:(constructor; [split; simpl; lia|done])).
  cbn [lookup_node] in Hs. by rewrite Nat2Z.id in Hs.
Qed.

Lemma same_branch hv bs v hv' bs' v' :
  Forall (fun c => match c with Some n => wf n -> forall m, wf m -> same_content n m -> n = m | None => True end) bs ->
  wf (Branch hv bs v) -> wf (Branch hv' bs' v') ->
  same_content (Branch hv bs v) (Branch hv' bs' v') -> Branch hv bs v = Branch hv' bs' v'.
Proof.
  intros IH W1 W2 Hs. inversion W1 as [|? ? ? L1 F1 _ V1 _ _|]; subst.
  inversion W2 as [|? ? ? L2 F2 _ V2 _ _|]; subst.
  assert (hv = hv' /\ v = v') as [-> ->].
  { pose proof (Hs [] ltac:(constructor)) as H. simpl in H. destruct hv, hv'; try done.
    - split; congruence.
    - by rewrite V1, V2. }
  f_equal. apply list_eq. intros i. destruct (decide (i < 16)%nat) as [Hi|Hi].
  2:{ rewrite !lookup_ge_None_2; [done|rewrite L2; unfold sk_numNodes; lia|rewrite L1; unfold sk_numNodes; lia]. }
  pose proof (same_children _ _ _ _ _ _ i Hi Hs) as Hc.
  destruct (lookup_lt_is_Some_2 bs i) as [c1 E1]; [by rewrite L1|].
  destruct (lookup_lt_is_Some_2 bs' i) as [c2 E2]; [by rewrite L2|].
  pose proof (Forall_lookup_1 _ _ _ _ F1 E1) as Hw1. pose proof (Forall_lookup_1 _ _ _ _ F2 E2) as Hw2.
  pose proof (Forall_lookup_1 _ _ _ _ IH E1) as Hi1. rewrite E1, E2. f_equal.
  assert (forall k, nibbles k -> match c1 with Some c => lookup_node c k | None => None end
    = match c2 with Some c => lookup_node c k | None => None end) as Hk.
  { intros k Hk. specialize (Hc k Hk). rewrite !child_at_lookup, E1, E2 in Hc. by destruct c1, c2. }
  destruct c1 as [c1|], c2 as [c2|]; inversion Hw1; inversion Hw2; subst; try done.
  - f_equal. by apply Hi1.
  - destruct (wf_inhabited c1) as (k & w & Hnk & Hw); [done|]. specialize (Hk k Hnk). congruence.
  - destruct (wf_inhabited c2) as (k & w & Hnk & Hw); [done|]. specialize (Hk k Hnk). congruence.
Qed.

Lemma canonical n m : wf n -> wf m -> same_content n m -> n = m.
Proof.
  intros W1. revert W1 m. induction n as [p v|hv bs v IH|p n IH| |n IH] using node_nested_ind
    with (Q := fun c => match c with
      | Some n => wf n -> forall m, wf m -> same_content n m -> n = m | None => True end);
    try done; intros W1 m W2 Hs.
  - destruct m as [q w|h bs w|q m].
    + inversion W1; subst. pose proof (Hs p ltac:(done)) as H. simpl in H.
      rewrite decide_True in H by done. case_decide; congruence.
    + by apply branch_not_leaf in Hs.
    + by apply leaf_not_ext in Hs.
  - destruct m as [q w|h bs' w|q m].
    + by apply same_content_sym, branch_not_leaf in Hs.
    + by apply same_branch.
    + by apply branch_not_ext in Hs.
  - destruct m as [q w|h bs w|q m].
    + by apply same_content_sym, leaf_not_ext in Hs.
    + by apply same_content_sym, branch_not_ext in Hs.
    + inversion W1 as [| |? h1 bs1 v1 Hp1 _ B1]; subst. inversion W2 as [| |? h2 bs2 v2 Hp2 _ B2]; subst.
      pose proof (ext_path _ _ _ _ _ _ _ _ W1 W2 Hs) as ->. f_equal.
      apply IH; [done..|]. by eapply same_content_ext.
Qed.

(** ** Whole tries *)

(** The calls [trie.Put(key, value)] of a loop over key-value pairs. *)
Definition PutAll (kvs : list (bytes * bytes)) : result TrieFault PatriciaTrie.t :=
  foldl (fun r kv => t ← r; PatriciaTrie.Put t (fst kv) (snd kv)) (Ok PatriciaTrie.create) kvs.

(** Keys none of which starts another: what RLP-encoded indices are. *)
Definition prefix_free (ks : list bytes) : Prop :=
  NoDup ks /\ forall k1 k2, k1 ∈ ks -> k2 ∈ ks -> k1 `prefix_of` k2 -> k1 = k2.

Definition good_pairs (kvs : list (bytes * bytes)) : Prop :=
  prefix_free (map fst kvs) /\
  Forall (fun kv => all_bytes (fst kv) /\ (length (fst kv) < 128)%nat /\ all_bytes (snd kv)) kvs.

Lemma nibble_pair x y : is_byte x -> is_byte y ->
  Z.land (Z.shiftr x 4) 15 = Z.land (Z.shiftr y 4) 15 -> Z.land x 15 = Z.land y 15 -> x = y.
Proof.
  intros Hx Hy. change 15 with (Z.ones 4). rewrite !Z.land_ones, !Z.shiftr_div_pow2 by lia.
  change (2 ^ 4) with 16. widths. mod_lia.
Qed.

Lemma FromBytes_prefix b1 b2 r : all_bytes b1 -> all_bytes b2 ->
  NibbleHelper.FromBytes b2 = NibbleHelper.FromBytes b1 ++ r -> b1 `prefix_of` b2.
Proof.
  intros H1. revert b2. induction H1 as [|x b1 Hx _ IH]; intros b2 H2 E; [by exists b2|].
  destruct H2 as [|y b2 Hy H2]; [done|].
  change (NibbleHelper.FromBytes (y :: b2)) with
    (Z.land (Z.shiftr y 4) 15 :: Z.land y 15 :: NibbleHelper.FromBytes b2) in E.
  change (NibbleHelper.FromBytes (x :: b1)) with
    (Z.land (Z.shiftr x 4) 15 :: Z.land x 15 :: NibbleHelper.FromBytes b1) in E.
  rewrite <-!app_comm_cons in E. remember (NibbleHelper.FromBytes b2) as f2.
  injection E as Eh El Et. subst f2. rewrite (nibble_pair x y) by done.
  by apply prefix_cons, IH.
Qed.

Lemma FromBytes_inj b1 b2 : all_bytes b1 -> all_bytes b2 ->
  NibbleHelper.FromBytes b1 = NibbleHelper.FromBytes b2 -> b1 = b2.
Proof.
  intros H1 H2 E.
  assert (b1 `prefix_of` b2) as [s ->] by (apply (FromBytes_prefix b1 b2 []); rewrite ?app_nil_r; done).
  assert (length (NibbleHelper.FromBytes b1) = length (NibbleHelper.FromBytes (b1 ++ s))) as Hl by congruence.
  rewrite !FromBytes_length, length_app in Hl. destruct s; [by rewrite app_nil_r|]. simpl in Hl. lia.
Qed.

(** The trie built from [kvs] stores exactly [kvs]. *)
Definition stores (t : PatriciaTrie.t) (kvs : list (bytes * bytes)) : Prop :=
  forall k v, nibbles k -> lookup_trie t k = Some v <->
    exists key, k = NibbleHelper.FromBytes key /\ (key, v) ∈ kvs.

Lemma PutAll_snoc kvs kv :
  PutAll (kvs ++ [kv]) = (t ← PutAll kvs; PatriciaTrie.Put t (fst kv) (snd kv)).
Proof. unfold PutAll. by rewrite foldl_app. Qed.

Lemma good_pairs_snoc kvs kv : good_pairs (kvs ++ [kv]) -> good_pairs kvs /\
  all_bytes (fst kv) /\ (length (fst kv) < 128)%nat /\ all_bytes (snd kv) /\
  forall kv', kv' ∈ kvs -> ~ fst kv `prefix_of` fst kv' /\ fst kv' <> fst kv.
Proof.
  intros [[Hnd Hpf] Hall]. rewrite map_app in *. apply Forall_app in Hall as [Hall Hkv].
  apply Forall_cons in Hkv as [(H1 & H2 & H3) _].
  apply NoDup_app in Hnd as (Hnd & Hdis & _). split_and!; try done.
  - split; [|done]. split; [done|]. intros k1 k2 E1 E2. apply Hpf; apply elem_of_app; by left.
  - intros kv' Hin.
    assert (fst kv' ∈ map fst kvs) as Hin' by (apply list_elem_of_fmap; eauto).
    assert (fst kv' <> fst kv) as Hne.
    { intros E. apply (Hdis _ Hin'). rewrite E. by left. }
    split; [|done]. intros Hp. apply Hne. symmetry. apply Hpf; [..|done]; apply elem_of_app;
      [right; by left|by left].
Qed.

Lemma PutAll_ok kvs : good_pairs kvs ->
  exists t, PutAll kvs = Ok t /\ wf_trie t /\ stores t kvs.
Proof.
  induction kvs as [|kv kvs IH] using rev_ind; intros Hg.
  { exists None. split_and!; [done|constructor|]. intros k v _. simpl. split; [done|].
    by intros (key & _ & ?%not_elem_of_nil). }
  destruct (good_pairs_snoc kvs kv Hg) as (Hg' & Hb & Hlen & Hv & Hfr).
  destruct (IH Hg') as (t & E & Ht & Hst).
  destruct (put_trie t (fst kv) (snd kv) Ht Hlen Hv) as (t' & E' & Ht' & Hlk).
  { destruct t as [n|]; [|done]. intros k' v' Hk' Hv' (r & Hr & ->).
    apply (Hst _ _ Hk') in Hv' as (key & Ek & Hin).
    destruct (Hfr _ Hin) as [Hnp _]. apply Hnp. simpl.
    assert (all_bytes key) as Hkey.
    { destruct Hg' as [_ Hall]. by apply (proj1 (Forall_forall _ _) Hall) in Hin as (? & _). }
    by apply (FromBytes_prefix _ _ r). }
  exists t'. rewrite PutAll_snoc, E. split_and!; [done|done|].
  intros k v Hk. rewrite (Hlk k Hk). case_decide as Ek.
  - split.
    + intros [= <-]. exists (fst kv). split; [done|]. apply elem_of_app. right. destruct kv. by left.
    + intros (key & -> & Hin). apply elem_of_app in Hin as [Hin|Hin%list_elem_of_singleton].
      * exfalso. destruct (Hfr _ Hin) as [_ Hne]. apply Hne. simpl. apply FromBytes_inj; try done.
        destruct Hg' as [_ Hall]. by apply (proj1 (Forall_forall _ _) Hall) in Hin as (? & _).
      * by rewrite <-Hin.
  - rewrite (Hst k v Hk). split; intros (key & -> & Hin); exists key; (split; [done|]).
    + apply elem_of_app. by left.
    + apply elem_of_app in Hin as [Hin|Hin%list_elem_of_singleton]; [done|]. by rewrite <-Hin in Ek.
Qed.

Lemma stores_same t1 t2 kvs1 kvs2 : stores t1 kvs1 -> stores t2 kvs2 ->
  (forall kv, kv ∈ kvs1 <-> kv ∈ kvs2) ->
  forall k, nibbles k -> lookup_trie t1 k = lookup_trie t2 k.
Proof.
  intros S1 S2 Heq k Hk. apply option_eq. intros v. rewrite (S1 k v Hk), (S2 k v Hk).
  by setoid_rewrite Heq.
Qed.

Lemma canonical_trie t1 t2 : wf_trie t1 -> wf_trie t2 ->
  (forall k, nibbles k -> lookup_trie t1 k = lookup_trie t2 k) -> t1 = t2.
Proof.
  intros W1 W2 Hs. destruct t1 as [n|], t2 as [m|]; inversion W1; inversion W2; subst; try done.
  - f_equal. by apply canonical.
  - destruct (wf_inhabited n) as (k & v & Hk & Hv); [done|]. specialize (Hs k Hk). simpl in Hs. congruence.
  - destruct (wf_inhabited m) as (k & v & Hk & Hv); [done|]. specialize (Hs k Hk). simpl in Hs. congruence.
Qed.

(** ** Properties of insertion *)

(** [Put] implements insertion into a finite map: on a well-formed trie, a
    key that no stored key continues is inserted without fault, the result is
    well formed, the key now maps to the value and every other path maps to
    what it mapped to before. *)
Theorem Put_refines_insert t key v :
  wf_trie t -> (length key < 128)%nat -> all_bytes v -> trie_fresh t (NibbleHelper.FromBytes key) ->
  exists t', PatriciaTrie.Put t key v = Ok t' /\ wf_trie t' /\
    lookup_trie t' (NibbleHelper.FromBytes key) = Some v /\
    forall k, nibbles k -> k <> NibbleHelper.FromBytes key -> lookup_trie t' k = lookup_trie t k.
Proof.
  intros Ht Hlen Hv Hf. destruct (put_trie t key v Ht Hlen Hv Hf) as (t' & E & Hw & Hl).
  exists t'. split_and!; [done|done| |].
  - rewrite Hl by apply FromBytes_nibbles. by rewrite decide_True.
  - intros k Hk Hne. rewrite Hl by done. by rewrite decide_False.
Qed.

Definition sample_trie : PatriciaTrie.t := Some (Leaf [1; 2; 3; 4] [5]).

Lemma Put_refines_insert_witness :
  exists t', PatriciaTrie.Put sample_trie [0x12; 0x56] [7] = Ok t' /\ wf_trie t' /\
    lookup_trie t' (NibbleHelper.FromBytes [0x12; 0x56]) = Some [7] /\
    forall k, nibbles k -> k <> NibbleHelper.FromBytes [0x12; 0x56] ->
      lookup_trie t' k = lookup_trie sample_trie k.
Proof.
  apply (Put_refines_insert sample_trie [0x12; 0x56] [7]).
  - constructor. constructor; [|byte_list].
    repeat (apply Forall_cons_2; [split; vm_compute; congruence|]). apply Forall_nil_2.
  - vm_compute. lia.
  - byte_list.
  - intros k' v' _ H (r & Hr & ->). cbn in H. case_decide as E; [|done].
    vm_compute in E. discriminate.
Defined.

(** The trie does not depend on the order of insertion: for pairs whose
    keys are distinct and none of which starts another, any two orders of
    insertion succeed and build the very same trie, hence the same root hash;
    and it stores exactly the pairs. *)
Theorem trie_order_independent kvs kvs' :
  good_pairs kvs -> kvs ≡ₚ kvs' ->
  exists t, PutAll kvs = Ok t /\ PutAll kvs' = Ok t /\ stores t kvs.
Proof.
  intros Hg Hp. assert (good_pairs kvs') as Hg'.
  { destruct Hg as [[Hnd Hpf] Hall]. assert (map fst kvs ≡ₚ map fst kvs') as Hm by (by apply fmap_Permutation).
    split; [|by rewrite <-Hp]. split; [by rewrite <-Hm|]. intros k1 k2. rewrite <-Hm. apply Hpf. }
  destruct (PutAll_ok kvs Hg) as (t & E & Ht & Hst). destruct (PutAll_ok kvs' Hg') as (t' & E' & Ht' & Hst').
  exists t. rewrite E, E'. split_and!; [done| |done]. f_equal. apply canonical_trie; try done.
  apply (stores_same t' t kvs' kvs); try done. intros kv. by rewrite Hp.
Qed.

Definition sample_pairs : list (bytes * bytes) :=
  [([0x80], [1; 2]); ([0x01], [3]); ([0x81; 0x80], replicate 40 9)].

Lemma sample_pairs_good : good_pairs sample_pairs.
Proof.
  split.
  - split; [apply (bool_decide_unpack _); vm_compute; exact I|].
    intros k1 k2 H1 H2. cbn in H1, H2.
    repeat (apply elem_of_cons in H1 as [->|H1]); try (by apply not_elem_of_nil in H1);
      repeat (apply elem_of_cons in H2 as [->|H2]); try (by apply not_elem_of_nil in H2);
      try done; intros [s Hs]; discriminate.
  - repeat (apply Forall_cons_2; [split_and!; [byte_list|cbn; lia|byte_list]|]). apply Forall_nil_2.
Qed.

Lemma trie_order_independent_witness :
  exists t, PutAll sample_pairs = Ok t /\ PutAll (rev sample_pairs) = Ok t /\ stores t sample_pairs.
Proof.
  apply (trie_order_independent sample_pairs (rev sample_pairs)).
  - exact sample_pairs_good.
  - apply (bool_decide_unpack _). vm_compute. exact I.
Defined.

(** A key that ends strictly inside the path of an extension reads past the
    end of its nibble vector: the code indexes [nibbles[matched]] with
    [matched = nibbles.size()]. *)
Theorem put_inside_extension_faults k r n v : (length k < 256)%nat -> r <> [] ->
  PatriciaTrie.PutKeyNode (Extension (k ++ r) n) k v = Throw VectorOutOfRange.
Proof.
  intros Hlen Hr. cbn [PatriciaTrie.PutKeyNode]. rewrite PrefixMatchedLen_spec by done.
  pose proof (common_len_app k [] r I) as Hc. rewrite app_nil_r in Hc. rewrite Hc, Nat2Z.id.
  rewrite (proj2 (Z.ltb_lt _ _)) by (rewrite length_app; destruct r; [done|cbn [length]; lia]).
  unfold PatriciaTrie.SplitExtension. by rewrite lookup_ge_None_2.
Qed.

Lemma put_inside_extension_faults_witness :
  PatriciaTrie.PutKeyNode (Extension ([1; 2] ++ [3]) (Branch false nones [])) [1; 2] [9]
  = Throw VectorOutOfRange.
Proof. apply put_inside_extension_faults; [cbn; lia|discriminate]. Defined.
