(* ===== verification/TrieHash.v ===== *)
(** * The Merkle Patricia trie: the root hash

    What the hash of a trie ([NodeBase::Hash], [PatriciaTrie::Hash]) commits
    to.  Every well-formed trie can be hashed, and two tries with the same root
    either store the same pairs or exhibit two different messages with the same
    Keccak-256 digest among the serialisations of their nodes. *)

From stdpp Require Import strings.
From S2P Require Import Prelude RlpEncoding RlpDecoding RlpTheorems Keccak Trie.

(** ** The hex-prefix encoding *)

Lemma ToBytes_app2 x y l b : NibbleHelper.ToBytes (x :: y :: l) = Ok b ->
  exists c b', b = c :: b' /\ c = u8 (Z.lor (u8 (Z.shiftl x 4)) y) /\ NibbleHelper.ToBytes l = Ok b'.
Proof. intros H. cbn [NibbleHelper.ToBytes] in H. bind_ok H. injection H as <-. eauto. Qed.

Lemma nibble_byte x y : fits 4 x -> fits 4 y ->
  u8 (Z.lor (u8 (Z.shiftl x 4)) y) = x * 16 + y.
Proof.
  intros Hx Hy. unfold fits in *. change (2 ^ 4) with 16 in *.
  assert (u8 (Z.shiftl x 4) = Z.shiftl x 4) as ->.
  { apply wrap_small. rewrite Z.shiftl_mul_pow2 by lia. change (2 ^ 4) with 16. word_lia. }
  rewrite lor_shiftl_add by (unfold fits; change (2 ^ 4) with 16; lia). change (2 ^ 4) with 16.
  apply wrap_small. word_lia.
Qed.

Lemma ToBytes_ok l : nibbles l -> Nat.Even (length l) ->
  exists b, NibbleHelper.ToBytes l = Ok b /\ all_bytes b.
Proof.
  intros Hl [n Hn]. revert l Hl Hn. induction n as [|n IH]; intros l Hl Hn.
  { destruct l; [|simpl in Hn; lia]. exists []. split; [done|constructor]. }
  destruct l as [|x [|y l]]; simpl in Hn; try lia.
  apply nibbles_cons in Hl as [Hx Hl]. apply nibbles_cons in Hl as [Hy Hl].
  destruct (IH l Hl ltac:(lia)) as (b & E & Hb). cbn [NibbleHelper.ToBytes]. rewrite E.
  eexists. split; [done|]. apply all_bytes_cons. split; [|done]. by apply wrap_fits.
Qed.

Lemma ToBytes_inj l k b : nibbles l -> nibbles k ->
  NibbleHelper.ToBytes l = Ok b -> NibbleHelper.ToBytes k = Ok b -> l = k.
Proof.
  revert l k. induction b as [|c b IH]; intros l k Hl Hk E1 E2.
  - destruct l as [|? [|? ?]]; [|done|by apply ToBytes_app2 in E1 as (? & ? & ? & _)].
    by destruct k as [|? [|? ?]]; [|done|apply ToBytes_app2 in E2 as (? & ? & ? & _)].
  - destruct l as [|x [|y l]]; [done..|]. destruct k as [|z [|w k]]; [done..|].
    apply ToBytes_app2 in E1 as (c1 & b1 & [= <- <-] & Ec1 & E1).
    apply ToBytes_app2 in E2 as (c2 & b2 & [= <- <-] & Ec2 & E2).
    do 2 (apply nibbles_cons in Hl as [? Hl]). do 2 (apply nibbles_cons in Hk as [? Hk]).
    rewrite nibble_byte in Ec1, Ec2 by done. unfold fits in *. change (2 ^ 4) with 16 in *.
    assert (x = z /\ y = w) as [-> ->] by lia. by rewrite (IH l k).
Qed.

(** The hex-prefix nibbles of a path and a leaf flag. *)
Lemma ToPrefixed_spec p leaf : nibbles p ->
  NibbleHelper.ToPrefixed p leaf
  = (if (length p mod 2 =? 1)%nat then [if leaf then 3 else 1] else [if leaf then 2 else 0; 0]) ++ p.
Proof. intros Hp. unfold NibbleHelper.ToPrefixed. by destruct (length p mod 2 =? 1)%nat, leaf. Qed.

Lemma ToPrefixed_nibbles p leaf : nibbles p -> nibbles (NibbleHelper.ToPrefixed p leaf).
Proof.
  intros Hp. rewrite ToPrefixed_spec by done. apply nibbles_app. split; [|done].
  destruct (_ =? _)%nat, leaf; repeat (constructor; [split; simpl; lia|]); constructor.
Qed.

Lemma ToPrefixed_even p leaf : nibbles p -> Nat.Even (length (NibbleHelper.ToPrefixed p leaf)).
Proof.
  intros Hp. rewrite ToPrefixed_spec, length_app by done.
  pose proof (Nat.div_mod (length p) 2 ltac:(lia)) as Hd.
  destruct (Nat.eqb_spec (length p mod 2) 1) as [E|E]; cbn [length].
  - exists (S (length p / 2)). lia.
  - exists (S (length p / 2)). pose proof (Nat.mod_upper_bound (length p) 2). lia.
Qed.

Lemma ToPrefixed_inj p q a b : nibbles p -> nibbles q ->
  NibbleHelper.ToPrefixed p a = NibbleHelper.ToPrefixed q b -> a = b /\ p = q.
Proof.
  intros Hp Hq. rewrite !ToPrefixed_spec by done.
  destruct (length p mod 2 =? 1)%nat, (length q mod 2 =? 1)%nat, a, b; intros E; by simplify_eq/=.
Qed.

(** The path item of a leaf or an extension. *)
Lemma path_item p leaf : nibbles p ->
  exists b, NibbleHelper.ToBytes (NibbleHelper.ToPrefixed p leaf) = Ok b /\ all_bytes b.
Proof. intros Hp. apply ToBytes_ok; auto using ToPrefixed_nibbles, ToPrefixed_even. Qed.

Lemma path_item_inj p q a b l : nibbles p -> nibbles q ->
  NibbleHelper.ToBytes (NibbleHelper.ToPrefixed p a) = Ok l ->
  NibbleHelper.ToBytes (NibbleHelper.ToPrefixed q b) = Ok l -> a = b /\ p = q.
Proof.
  intros Hp Hq E1 E2. apply ToPrefixed_inj; try done.
  apply (ToBytes_inj _ _ l); auto using ToPrefixed_nibbles.
Qed.

(** ** Every well-formed node can be serialised *)

Lemma raw_serializes raw : Forall plain raw ->
  exists m n, NodeBase.GenSerialized raw = Ok m /\ NodeBase.CalcSerializedSize raw = Ok n /\
    (fits 64 (zlen m) -> n = zlen m).
Proof.
  intros Hp. assert (plain (OList raw)) as Hpl by by constructor.
  destruct (Write_plain _ Hpl) as [m Hm]. pose proof (wf_size_ok _ (plain_wf_obj _ Hpl)) as Hs.
  unfold size_ok in Hs. rewrite Hm in Hs. destruct Hs as (n & Hn & Hz).
  unfold NodeBase.GenSerialized, NodeBase.CalcSerializedSize. rewrite Hm, Hn. by exists m, n.
Qed.

Lemma child_ref_ok raw : Forall plain raw -> exists o, child_ref raw = Ok o /\ plain o.
Proof.
  intros Hp. destruct (raw_serializes raw Hp) as (m & n & Em & En & _).
  unfold child_ref. rewrite Em, En. cbn. case_match; eexists; (split; [done|]); constructor; [|done].
  apply Keccak256_bytes.
Qed.

Definition child_item (c : option node) : result TrieFault Obj :=
  match c with
  | None => Ok (OBytes [])
  | Some c => nodeBaseRaw ← Raw c; child_ref nodeBaseRaw
  end.

Lemma Raw_branch hv bs v :
  Raw (Branch hv bs v) = (hashes ← mapM child_item bs; Ok (hashes ++ [OBytes v])).
Proof. done. Qed.

Lemma mapM_ok {A B E} (f : A -> result E B) (P : B -> Prop) l :
  Forall (fun x => exists y, f x = Ok y /\ P y) l -> exists ys, mapM f l = Ok ys /\ Forall P ys.
Proof.
  induction 1 as [|x l (y & Ey & Py) _ (ys & Eys & Pys)]; [by exists []|].
  exists (y :: ys). simpl. rewrite Ey. simpl. rewrite Eys. split; [done|by constructor].
Qed.

Lemma mapM_length {A B E} (f : A -> result E B) l ys : mapM f l = Ok ys -> length ys = length l.
Proof.
  revert ys. induction l as [|x l IH]; intros ys H; [by injection H as <-|]. simpl in H.
  bind_ok H. bind_ok H. injection H as <-. cbn [length]. f_equal. by apply IH.
Qed.

Lemma mapM_lookup {A B E} (f : A -> result E B) l ys i x :
  mapM f l = Ok ys -> l !! i = Some x -> exists y, f x = Ok y /\ ys !! i = Some y.
Proof.
  revert ys i. induction l as [|z l IH]; intros ys i H Hi; [done|]. simpl in H.
  bind_ok H. bind_ok H. injection H as <-. destruct i as [|i]; simpl in Hi |- *.
  - injection Hi as ->. eauto.
  - by apply IH.
Qed.

Lemma Raw_ok n : wf n -> exists raw, Raw n = Ok raw /\ Forall plain raw.
Proof.
  induction n as [p v|hv bs v IH|p n IH| |n IH] using node_nested_ind
    with (Q := fun c => match c with None => True | Some n =>
      wf n -> exists raw, Raw n = Ok raw /\ Forall plain raw end); try done;
    intros Hw; inversion Hw as [? ? Hp Hv|? ? ? Hlen Hbs Hv _ _ _|? h b w Hp _ Hb]; subst.
  - destruct (path_item p true Hp) as (b & E & Hb). cbn [Raw]. rewrite E.
    eexists. split; [done|]. by repeat constructor.
  - rewrite Raw_branch. destruct (mapM_ok child_item plain bs) as (ys & -> & Hys).
    { apply Forall_forall. intros c Hc.
      pose proof (proj1 (Forall_forall _ _) Hbs _ Hc) as Hwc.
      pose proof (proj1 (Forall_forall _ _) IH _ Hc) as IHc.
      destruct c as [c|]; [|eexists; split; [done|by repeat constructor]].
      inversion Hwc; subst. destruct (IHc ltac:(done)) as (raw & E & Hraw).
      unfold child_item. rewrite E. by apply child_ref_ok. }
    eexists. split; [done|]. apply Forall_app. split; [done|]. by repeat constructor.
  - destruct (path_item p false Hp) as (b' & E & Hb'). destruct (IH Hb) as (raw & Er & Hraw).
    destruct (child_ref_ok raw Hraw) as (o & Eo & Ho).
    assert (Raw (Extension p (Branch h b w)) = Ok [OBytes b'; o]) as ->.
    { change (Raw (Extension p (Branch h b w))) with
        (pathBytes ← NibbleHelper.ToBytes (NibbleHelper.ToPrefixed p false);
         nextBaseRaw ← Raw (Branch h b w); next ← child_ref nextBaseRaw;
         Ok [OBytes pathBytes; next]). rewrite E, Er. cbn. by rewrite Eo. }
    eexists. split; [done|]. by repeat constructor.
Qed.

(** ** What the hash commits to *)

(** A node and everything below it. *)
Fixpoint subnodes (n : node) : list node :=
  n :: match n with
       | Leaf _ _ => []
       | Branch _ bs _ => mjoin (map (fun c => match c with Some c => subnodes c | None => [] end) bs)
       | Extension _ n => subnodes n
       end.

(** The serialisation of every node fits the address space. *)
Definition serial_fits (n : node) : Prop :=
  match Serialize n with Ok m => fits 64 (zlen m) | Throw _ => False end.

Definition sizes_ok (n : node) : Prop := Forall serial_fits (subnodes n).

Definition values_nonempty (n : node) : Prop :=
  forall k v, nibbles k -> lookup_node n k = Some v -> v <> [].

(** Two nodes whose serialisations differ and have the same digest. *)
Definition collides (a b : node) : Prop :=
  match Serialize a, Serialize b with
  | Ok m1, Ok m2 => m1 <> m2 /\ Keccak256 m1 = Keccak256 m2
  | _, _ => False
  end.

#[export] Instance collides_dec a b : Decision (collides a b).
Proof. unfold collides. destruct (Serialize a), (Serialize b); apply _. Defined.

Definition no_collision (n m : node) : Prop :=
  forall a b, a ∈ subnodes n -> b ∈ subnodes m -> ~ collides a b.

Lemma self_subnode n : n ∈ subnodes n.
Proof. destruct n; left. Qed.

Lemma child_subnodes hv bs v c a : Some c ∈ bs -> a ∈ subnodes c -> a ∈ subnodes (Branch hv bs v).
Proof.
  intros Hc Ha. cbn [subnodes]. right. apply list_elem_of_join.
  exists (subnodes c). split; [done|].
  apply (list_elem_of_fmap_2 (fun c => match c with Some c => subnodes c | None => [] end) bs (Some c) Hc).
Qed.

Lemma child_sizes hv bs v c : Some c ∈ bs -> sizes_ok (Branch hv bs v) -> sizes_ok c.
Proof.
  intros Hc Hs. apply Forall_forall. intros a Ha. apply (proj1 (Forall_forall _ _) Hs).
  by apply (child_subnodes hv bs v c).
Qed.

Lemma next_sizes p n : sizes_ok (Extension p n) -> sizes_ok n.
Proof. intros H. by inversion H. Qed.

Lemma child_values hv bs v i c : length bs = sk_numNodes -> bs !! i = Some (Some c) ->
  values_nonempty (Branch hv bs v) -> values_nonempty c.
Proof.
  intros Hlen Hi Hv k w Hk Hw. assert (i < 16)%nat by (apply lookup_lt_Some in Hi; unfold sk_numNodes in Hlen; lia).
  apply (Hv (Z.of_nat i :: k) w).
  - constructor; [split; simpl; lia|done].
  - cbn [lookup_node]. by rewrite child_at_lookup, Nat2Z.id, Hi.
Qed.

Lemma next_values p n : nibbles p -> values_nonempty (Extension p n) -> values_nonempty n.
Proof.
  intros Hp Hv k w Hk Hw. apply (Hv (p ++ k) w); [by apply nibbles_app|by rewrite lookup_ext_app].
Qed.

(** The serialisation of a well-formed node, and the size the code compares
    with 32. *)
Lemma serialize_ok n : wf n -> serial_fits n ->
  exists raw m, Raw n = Ok raw /\ Forall plain raw /\ NodeBase.GenSerialized raw = Ok m /\
    NodeBase.CalcSerializedSize raw = Ok (zlen m) /\ Serialize n = Ok m /\ fits 64 (zlen m).
Proof.
  intros Hw Hf. destruct (Raw_ok n Hw) as (raw & Er & Hp).
  destruct (raw_serializes raw Hp) as (m & s & Em & Es & Hz).
  unfold serial_fits, Serialize in Hf. rewrite Er in Hf. cbn in Hf. rewrite Em in Hf.
  exists raw, m. rewrite Es, Hz by done. unfold Serialize. rewrite Er. cbn. by rewrite Em.
Qed.

Lemma sizes_self n : sizes_ok n -> serial_fits n.
Proof. intros H. apply (proj1 (Forall_forall _ _) H), self_subnode. Qed.

(** Equal serialisations come from equal RLP lists. *)
Lemma serialize_raw n m : wf n -> wf m -> sizes_ok n -> sizes_ok m ->
  Serialize n = Serialize m -> Raw n = Raw m.
Proof.
  intros Wn Wm Sn Sm E.
  destruct (serialize_ok n Wn (sizes_self n Sn)) as (r1 & b1 & R1 & P1 & G1 & _ & S1 & F1).
  destruct (serialize_ok m Wm (sizes_self m Sm)) as (r2 & b2 & R2 & P2 & G2 & _ & S2 & F2).
  rewrite S1, S2 in E. injection E as ->. rewrite R1, R2. f_equal.
  unfold NodeBase.GenSerialized in G1, G2.
  destruct (WriterGeneric.Write (OList r1)) eqn:W1; [|done]. injection G1 as ->.
  destruct (WriterGeneric.Write (OList r2)) eqn:W2; [|done]. injection G2 as ->.
  assert (OList r1 = OList r2) as H by (apply (write_inj _ _ b2); try done; by constructor).
  by injection H.
Qed.

(** Equal references to children come from equal serialisations, or else from
    a collision. *)
Lemma child_ref_inj n m o : wf n -> wf m -> sizes_ok n -> sizes_ok m -> ~ collides n m ->
  child_item (Some n) = Ok o -> child_item (Some m) = Ok o -> Serialize n = Serialize m.
Proof.
  intros Wn Wm Sn Sm Hc E1 E2.
  destruct (serialize_ok n Wn (sizes_self n Sn)) as (r1 & b1 & R1 & P1 & G1 & C1 & S1 & F1).
  destruct (serialize_ok m Wm (sizes_self m Sm)) as (r2 & b2 & R2 & P2 & G2 & C2 & S2 & F2).
  unfold child_item, child_ref in E1, E2. rewrite R1 in E1. rewrite R2 in E2.
  cbn in E1, E2. rewrite C1, G1 in E1. rewrite C2, G2 in E2.
  unfold collides in Hc. rewrite S1, S2 in Hc |- *. f_equal. cbn -[Z.leb] in E1, E2.
  destruct (32 <=? zlen b1), (32 <=? zlen b2); rewrite <-E2 in E1; cbn in E1; injection E1 as E1; try done.
  - destruct (decide (b1 = b2)); [done|]. exfalso. by apply Hc.
  - subst. rewrite G1 in G2. by injection G2.
Qed.

Lemma child_item_null n : wf n -> sizes_ok n -> child_item (Some n) <> Ok (OBytes []).
Proof.
  intros Wn Sn E. destruct (serialize_ok n Wn (sizes_self n Sn)) as (r1 & b1 & R1 & P1 & G1 & C1 & S1 & F1).
  unfold child_item, child_ref in E. rewrite R1 in E. cbn in E. rewrite C1, G1 in E. cbn -[Z.leb] in E.
  destruct (32 <=? zlen b1); [|done]. injection E as E.
  pose proof (Keccak256_length b1) as Hl. unfold NodeBase.CalcHash in E. by rewrite E in Hl.
Qed.

(** ** Equal serialisations come from equal nodes *)

Definition commits (n : node) : Prop := forall m,
  wf n -> wf m -> sizes_ok n -> sizes_ok m -> values_nonempty n -> values_nonempty m ->
  no_collision n m -> Serialize n = Serialize m -> n = m.

(** The raw lists of the three kinds of nodes. *)
Lemma raw_leaf p v raw : Raw (Leaf p v) = Ok raw ->
  exists b, NibbleHelper.ToBytes (NibbleHelper.ToPrefixed p true) = Ok b /\ raw = [OBytes b; OBytes v].
Proof. intros H. cbn [Raw] in H. bind_ok H. injection H as <-. eauto. Qed.

Lemma raw_ext p n raw : Raw (Extension p n) = Ok raw ->
  exists b o, NibbleHelper.ToBytes (NibbleHelper.ToPrefixed p false) = Ok b /\
    child_item (Some n) = Ok o /\ raw = [OBytes b; o].
Proof.
  intros H. cbn [Raw] in H. bind_ok H. bind_ok H. bind_ok H. injection H as <-.
  exists a, a1. unfold child_item. by rewrite E0.
Qed.

Lemma raw_branch hv bs v raw : Raw (Branch hv bs v) = Ok raw ->
  exists ys, mapM child_item bs = Ok ys /\ length ys = length bs /\ raw = ys ++ [OBytes v].
Proof.
  rewrite Raw_branch. intros H. bind_ok H. injection H as <-. exists a.
  split_and!; [done|by eapply mapM_length|done].
Qed.

Lemma branch_raw_not_pair hv bs v x y : wf (Branch hv bs v) ->
  Raw (Branch hv bs v) <> Ok [x; y].
Proof.
  intros Hw H. apply raw_branch in H as (ys & _ & Hl & E).
  inversion Hw as [|? ? ? Hlen _ _ _ _ _|]; subst. apply (f_equal length) in E.
  rewrite length_app, Hl, Hlen in E. done.
Qed.

(** Children at the same index of two branches with the same raw list. *)
Lemma same_refs bs bs' ys i c c' : mapM child_item bs = Ok ys -> mapM child_item bs' = Ok ys ->
  bs !! i = Some c -> bs' !! i = Some c' ->
  exists o, child_item c = Ok o /\ child_item c' = Ok o.
Proof.
  intros E1 E2 H1 H2. destruct (mapM_lookup _ _ _ _ _ E1 H1) as (o & Ho & Hy).
  destruct (mapM_lookup _ _ _ _ _ E2 H2) as (o' & Ho' & Hy'). rewrite Hy in Hy'.
  injection Hy' as <-. by exists o.
Qed.

Lemma no_collision_child hv bs v hv' bs' v' c c' : Some c ∈ bs -> Some c' ∈ bs' ->
  no_collision (Branch hv bs v) (Branch hv' bs' v') -> no_collision c c'.
Proof.
  intros H1 H2 Hn a b Ha Hb. apply Hn; by eapply child_subnodes.
Qed.

Lemma commits_children hv bs v hv' bs' v' ys i :
  Forall (fun c => match c with Some n => commits n | None => True end) bs ->
  wf (Branch hv bs v) -> wf (Branch hv' bs' v') ->
  sizes_ok (Branch hv bs v) -> sizes_ok (Branch hv' bs' v') ->
  values_nonempty (Branch hv bs v) -> values_nonempty (Branch hv' bs' v') ->
  no_collision (Branch hv bs v) (Branch hv' bs' v') ->
  mapM child_item bs = Ok ys -> mapM child_item bs' = Ok ys -> bs !! i = bs' !! i.
Proof.
  intros IH W1 W2 S1 S2 V1 V2 Hn E1 E2.
  inversion W1 as [|? ? ? L1 F1 _ _ _ _|]; subst. inversion W2 as [|? ? ? L2 F2 _ _ _ _|]; subst.
  destruct (bs !! i) as [c|] eqn:Hc.
  2:{ apply lookup_ge_None in Hc. symmetry. apply lookup_ge_None. lia. }
  destruct (lookup_lt_is_Some_2 bs' i) as [c' Hc'].
  { apply lookup_lt_Some in Hc. lia. }
  rewrite Hc'. f_equal. destruct (same_refs _ _ _ _ _ _ E1 E2 Hc Hc') as (o & Ho & Ho').
  pose proof (Forall_lookup_1 _ _ _ _ F1 Hc) as Wc. pose proof (Forall_lookup_1 _ _ _ _ F2 Hc') as Wc'.
  pose proof (Forall_lookup_1 _ _ _ _ IH Hc) as Ic.
  pose proof (list_elem_of_lookup_2 _ _ _ Hc) as In1. pose proof (list_elem_of_lookup_2 _ _ _ Hc') as In2.
  destruct c as [c|], c' as [c'|]; [|..|done].
  - inversion Wc; inversion Wc'; subst. f_equal.
    pose proof (child_sizes _ _ _ _ In1 S1) as Sc. pose proof (child_sizes _ _ _ _ In2 S2) as Sc'.
    pose proof (no_collision_child _ _ _ _ _ _ _ _ In1 In2 Hn) as Hnc.
    apply Ic; try done.
    + by apply (child_values hv bs v i c).
    + by apply (child_values hv' bs' v' i c').
    + apply (child_ref_inj c c' o); try done. apply Hnc; apply self_subnode.
  - inversion Wc; subst. exfalso. cbn in Ho'. injection Ho' as <-.
    revert Ho. apply child_item_null; [done|]. by apply (child_sizes hv bs v).
  - inversion Wc'; subst. exfalso. cbn in Ho. injection Ho as <-.
    revert Ho'. apply child_item_null; [done|]. by apply (child_sizes hv' bs' v').
Qed.

Lemma commits_branch hv bs v :
  Forall (fun c => match c with Some n => commits n | None => True end) bs ->
  commits (Branch hv bs v).
Proof.
  intros IH m W1 W2 S1 S2 V1 V2 Hn E. pose proof (serialize_raw _ _ W1 W2 S1 S2 E) as ER.
  destruct (Raw_ok _ W1) as (raw & R1 & _). rewrite R1 in ER. symmetry in ER.
  destruct m as [q w|hv' bs' v'|q m].
  - apply raw_leaf in ER as (b & _ & ->). by apply branch_raw_not_pair in R1.
  - apply raw_branch in R1 as (ys & M1 & L1 & ->), ER as (ys' & M2 & L2 & Ea).
    inversion W1 as [|? ? ? N1 _ _ H1 _ _|]; subst. inversion W2 as [|? ? ? N2 _ _ H2 _ _|]; subst.
    apply app_inj_2 in Ea as [<- Ev]; [|done]. injection Ev as <-.
    assert (bs = bs') as <-.
    { apply list_eq. intros i. by apply (commits_children hv bs v hv' bs' v ys). }
    f_equal. destruct hv, hv'; try done.
    + exfalso. by apply (V1 [] v); [constructor| |apply H2].
    + exfalso. by apply (V2 [] v); [constructor| |apply H1].
  - apply raw_ext in ER as (b & o & _ & _ & ->). by apply branch_raw_not_pair in R1.
Qed.

Lemma commits_node n : commits n.
Proof.
  induction n as [p v|hv bs v IH|p n IH| |n IH] using node_nested_ind
    with (Q := fun c => match c with Some n => commits n | None => True end); try done.
  - intros m W1 W2 S1 S2 V1 V2 Hn E. pose proof (serialize_raw _ _ W1 W2 S1 S2 E) as ER.
    destruct (Raw_ok _ W1) as (raw & R1 & _). rewrite R1 in ER. symmetry in ER.
    apply raw_leaf in R1 as (b & Eb & ->). inversion W1; subst. destruct m as [q w|hv' bs' v'|q m].
    + apply raw_leaf in ER as (b' & Eb' & [= <- <-]). inversion W2; subst.
      by destruct (path_item_inj p q true true b) as [_ ->].
    + by apply branch_raw_not_pair in ER.
    + apply raw_ext in ER as (b' & o & Eb' & _ & [= <- _]). inversion W2; subst.
      by destruct (path_item_inj p q true false b) as [? _].
  - by apply commits_branch.
  - intros m W1 W2 S1 S2 V1 V2 Hn E. pose proof (serialize_raw _ _ W1 W2 S1 S2 E) as ER.
    destruct (Raw_ok _ W1) as (raw & R1 & _). rewrite R1 in ER. symmetry in ER.
    apply raw_ext in R1 as (b & o & Eb & Eo & ->).
    inversion W1 as [| |? h1 b1 w1 Hp _ Wn]; subst. destruct m as [q w|hv' bs' v'|q m].
    + apply raw_leaf in ER as (b' & Eb' & [= <- _]). inversion W2; subst.
      by destruct (path_item_inj p q false true b) as [? _].
    + by apply branch_raw_not_pair in ER.
    + apply raw_ext in ER as (b' & o' & Eb' & Eo' & [= <- <-]).
      inversion W2 as [| |? h2 b2 w2 Hq _ Wm]; subst.
      destruct (path_item_inj p q false false b) as [_ ->]; try done. f_equal.
      assert (no_collision (Branch h1 b1 w1) (Branch h2 b2 w2)) as Hn'.
      { intros x y Hx Hy. apply Hn; cbn [subnodes]; by right. }
      apply IH; try done; [by eapply next_sizes..| | |].
      * by apply (next_values q).
      * by apply (next_values q).
      * apply (child_ref_inj _ _ o); try done; [by eapply next_sizes..|].
        apply Hn'; apply self_subnode.
Qed.

(** ** Whole tries *)

#[export] Instance serial_fits_dec n : Decision (serial_fits n).
Proof. unfold serial_fits. destruct (Serialize n); apply _. Defined.

(** The messages whose digests make up the root hash: the serialisations of
    the nodes, and [0x80], the RLP of the empty string, for the empty trie. *)
Definition messages (t : PatriciaTrie.t) : list (result TrieFault bytes) :=
  match t with None => [Ok [0x80]] | Some n => map Serialize (subnodes n) end.

Definition trie_sizes_ok (t : PatriciaTrie.t) : Prop :=
  match t with None => True | Some n => sizes_ok n end.

Definition trie_nonempty (t : PatriciaTrie.t) : Prop :=
  match t with None => True | Some n => values_nonempty n end.

(** Two different messages, one hashed in each trie, with the same digest. *)
Definition trie_collision (t1 t2 : PatriciaTrie.t) : Prop :=
  exists m1 m2, Ok m1 ∈ messages t1 /\ Ok m2 ∈ messages t2 /\ m1 <> m2 /\
    Keccak256 m1 = Keccak256 m2.

Lemma trie_collision_sym t1 t2 : trie_collision t1 t2 -> trie_collision t2 t1.
Proof. intros (m1 & m2 & H1 & H2 & Hne & E). by exists m2, m1. Qed.

Lemma collides_messages n m a b : a ∈ subnodes n -> b ∈ subnodes m -> collides a b ->
  trie_collision (Some n) (Some m).
Proof.
  intros Ha Hb Hc. unfold collides in Hc.
  destruct (Serialize a) as [m1|] eqn:E1; [|done]. destruct (Serialize b) as [m2|] eqn:E2; [|done].
  exists m1, m2. split_and!; try apply Hc.
  - rewrite <-E1. by apply list_elem_of_fmap_2.
  - rewrite <-E2. by apply list_elem_of_fmap_2.
Qed.

(** Hashing never faults on a well-formed trie. *)
Lemma hash_ok n : wf n -> serial_fits n -> exists m,
  Serialize n = Ok m /\ PatriciaTrie.Hash (Some n) = Ok (Keccak256 m).
Proof.
  intros Hw Hf. destruct (serialize_ok n Hw Hf) as (raw & m & _ & _ & _ & _ & E & _).
  exists m. split; [done|]. cbn [PatriciaTrie.Hash]. unfold NodeHash. by rewrite E.
Qed.

Lemma empty_hash_binding n h : wf n -> sizes_ok n ->
  PatriciaTrie.Hash None = Ok h -> PatriciaTrie.Hash (Some n) = Ok h -> trie_collision None (Some n).
Proof.
  intros Hw Hs E1 E2. destruct (serialize_ok n Hw (sizes_self n Hs)) as (raw & m & _ & Hp & G & _ & E & F).
  destruct (hash_ok n Hw (sizes_self n Hs)) as (m' & E' & Eh). assert (m' = m) as -> by congruence.
  exists [0x80], m. split_and!.
  - by left.
  - rewrite <-E. apply list_elem_of_fmap_2, self_subnode.
  - intros <-. unfold NodeBase.GenSerialized in G.
    destruct (WriterGeneric.Write (OList raw)) eqn:W; [|done]. injection G as ->.
    assert (OList raw = OBytes []) as H; [|done].
    apply (write_inj _ _ [0x80]); try done; repeat constructor. done.
  - cbn in E1. rewrite Eh in E2. rewrite empty_root_digest. congruence.
Qed.

Lemma hash_binding t1 t2 h : wf_trie t1 -> wf_trie t2 -> trie_sizes_ok t1 -> trie_sizes_ok t2 ->
  trie_nonempty t1 -> trie_nonempty t2 ->
  PatriciaTrie.Hash t1 = Ok h -> PatriciaTrie.Hash t2 = Ok h -> t1 = t2 \/ trie_collision t1 t2.
Proof.
  intros W1 W2 S1 S2 V1 V2 H1 H2.
  destruct t1 as [n|], t2 as [m|]; inversion W1; inversion W2; subst; [|right..|by left].
  2: by apply trie_collision_sym, (empty_hash_binding n h).
  2: by apply (empty_hash_binding m h).
  destruct (decide (Exists (fun a => Exists (collides a) (subnodes m)) (subnodes n))) as [Hc|Hn].
  - right. apply Exists_exists in Hc as (a & Ha & Hc). apply Exists_exists in Hc as (b & Hb & Hc).
    by apply (collides_messages n m a b).
  - assert (no_collision n m) as Hnc.
    { intros a b Ha Hb Hc. apply Hn, Exists_exists. exists a. split; [done|].
      apply Exists_exists. by exists b. }
    left. f_equal. apply commits_node; try done.
    destruct (hash_ok n ltac:(done) (sizes_self n S1)) as (m1 & E1 & G1).
    destruct (hash_ok m ltac:(done) (sizes_self m S2)) as (m2 & E2 & G2).
    rewrite E1, E2. f_equal. destruct (decide (m1 = m2)); [done|]. exfalso.
    apply (Hnc n m (self_subnode n) (self_subnode m)). unfold collides. rewrite E1, E2.
    split; [done|]. congruence.
Qed.

Lemma stores_nonempty t kvs : stores t kvs -> Forall (fun kv => snd kv <> []) kvs -> trie_nonempty t.
Proof.
  intros Hst Hne. destruct t as [n|]; [|done]. intros k v Hk Hv.
  apply (Hst k v Hk) in Hv as (key & _ & Hin). by apply (proj1 (Forall_forall _ _) Hne) in Hin.
Qed.

Lemma stores_pairs kvs1 kvs2 t : good_pairs kvs1 -> good_pairs kvs2 ->
  stores t kvs1 -> stores t kvs2 -> forall kv, kv ∈ kvs1 -> kv ∈ kvs2.
Proof.
  intros [_ G1] [_ G2] S1 S2 [key v] Hin.
  assert (lookup_trie t (NibbleHelper.FromBytes key) = Some v) as Hl.
  { apply (S1 _ _ (FromBytes_nibbles key)). by exists key. }
  apply (S2 _ _ (FromBytes_nibbles key)) in Hl as (key' & E & Hin').
  apply (proj1 (Forall_forall _ _) G1) in Hin as (Hb & _).
  pose proof (proj1 (Forall_forall _ _) G2 _ Hin') as (Hb' & _).
  by apply FromBytes_inj in E as ->.
Qed.

(** C12. The root hash commits to the contents: two tries built from pairs with
    prefix-free keys and non-empty values that have the same root hash store
    the same pairs, or else their nodes contain two different messages with
    the same Keccak-256 digest.  Hashing itself never faults. *)
Theorem root_commits_to_pairs kvs1 kvs2 t1 t2 :
  good_pairs kvs1 -> good_pairs kvs2 ->
  Forall (fun kv => snd kv <> []) kvs1 -> Forall (fun kv => snd kv <> []) kvs2 ->
  PutAll kvs1 = Ok t1 -> PutAll kvs2 = Ok t2 -> trie_sizes_ok t1 -> trie_sizes_ok t2 ->
  exists h1 h2, PatriciaTrie.Hash t1 = Ok h1 /\ PatriciaTrie.Hash t2 = Ok h2 /\
    (h1 = h2 -> (forall kv, kv ∈ kvs1 <-> kv ∈ kvs2) \/ trie_collision t1 t2).
Proof.
  intros G1 G2 N1 N2 E1 E2 Z1 Z2.
  destruct (PutAll_ok kvs1 G1) as (t1' & E1' & W1 & S1). destruct (PutAll_ok kvs2 G2) as (t2' & E2' & W2 & S2).
  assert (t1' = t1) as -> by congruence. assert (t2' = t2) as -> by congruence.
  assert (forall t, wf_trie t -> trie_sizes_ok t -> exists h, PatriciaTrie.Hash t = Ok h) as Hh.
  { intros [n|] Hw Hs; [|by eexists]. inversion Hw; subst.
    destruct (hash_ok n ltac:(done) (sizes_self n Hs)) as (m & _ & E). by eexists. }
  destruct (Hh t1 W1 Z1) as [h1 H1], (Hh t2 W2 Z2) as [h2 H2]. exists h1, h2.
  split_and!; [done|done|]. intros <-.
  destruct (hash_binding t1 t2 h1) as [->|Hc]; try done; [by eapply stores_nonempty..| |by right].
  left. intros kv. split; by apply (stores_pairs _ _ t2).
Qed.

Lemma root_commits_to_pairs_witness :
  exists t h1 h2, PatriciaTrie.Hash t = Ok h1 /\ PatriciaTrie.Hash t = Ok h2 /\
    (h1 = h2 -> (forall kv, kv ∈ sample_pairs <-> kv ∈ sample_pairs) \/ trie_collision t t).
Proof.
  assert (PutAll sample_pairs = Ok (match PutAll sample_pairs with Ok t => t | Throw _ => None end)) as E
    by (vm_compute; reflexivity).
  exists (match PutAll sample_pairs with Ok t => t | Throw _ => None end).
  apply (root_commits_to_pairs sample_pairs sample_pairs _ _ sample_pairs_good sample_pairs_good);
    try exact E;
    first [ apply (bool_decide_unpack _); vm_compute; exact I
          | repeat (apply Forall_cons_2; [discriminate|]); apply Forall_nil_2 ].
Defined.
