(* ===== verification/Receipts.v ===== *)
(** * Receipts and transactions of a block

    [EclipseMonitor/Eth/Receipt.hpp], [ReceiptsMgr.hpp], [Transaction.hpp] and
    [TransactionsMgr.hpp]: the RLP items an untrusted host delivers are parsed
    and put into a Merkle trie whose root the monitor compares with the header.
    The theorems say what that comparison is worth. *)

From stdpp Require Import strings.
From S2P Require Import Prelude RlpEncoding RlpDecoding RlpTheorems Keccak Bloom EthHeader Trie TrieHash.

(** ** Objects by category *)

(** [GetCategoryName()]. *)
Definition category (o : Obj) : string :=
  match o with
  | OBytes _ => "Bytes"
  | OList _ => "List"
  | OStaticDict _ => "StaticDict"
  | OOther c => c
  end.

Definition AsList (o : Obj) : result Error (list Obj) :=
  match o with OList l => Ok l | _ => Throw (FromObj (TypeError "List" (category o))) end.

Definition AsBytes (o : Obj) : result Error bytes :=
  match o with OBytes b => Ok b | _ => Throw (FromObj (TypeError "Bytes" (category o))) end.

(** [operator[]] of a list. *)
Definition at_list (l : list Obj) (idx : nat) : result Error Obj :=
  match l !! idx with Some o => Ok o | None => Throw (FromObj (IndexError (Z.of_nat idx))) end.

(** [operator[]] of a byte string. *)
Definition at_bytes (b : bytes) (idx : nat) : result Error Z :=
  match b !! idx with Some x => Ok x | None => Throw (FromObj (IndexError (Z.of_nat idx))) end.

Definition lift_trie {A} (r : result TrieFault A) : result Error A :=
  match r with
  | Ok a => Ok a
  | Throw VectorOutOfRange => Throw (Undefined "vector index out of range")
  | Throw (RlpFault e) => Throw (FromRlp e)
  | Throw InvalidNodeType => Throw (FromMonitor (Exception "Invalid node type"))
  end.

(** ** Log entries *)

Module ReceiptLogEntry.
Record t := mk { m_contractAddr : bytes; m_topics : list bytes; m_logData : bytes }.

(** The loop that fills [m_topics]. *)
Fixpoint read_topics (logTopics : list Obj) : result Error (list bytes) :=
  match logTopics with
  | [] => Ok []
  | topic :: rest =>
    topicBytes ← AsBytes topic;
    if negb (zlen topicBytes =? 32) then
      Throw (FromMonitor (Exception "The topic found in log entry has invalid length"))
    else
      topics ← read_topics rest;
      Ok (topicBytes :: topics)
  end.

Definition create (logEntry : list Obj) : result Error t :=
  addr ← at_list logEntry 0;
  addrBytes ← AsBytes addr;
  if negb (zlen addrBytes =? 20) then
    Throw (FromMonitor (Exception "The contract address found in log entry has invalid length"))
  else
    topics ← at_list logEntry 1;
    logTopics ← AsList topics;
    m_topics ← read_topics logTopics;
    data ← at_list logEntry 2;
    logDataBytes ← AsBytes data;
    Ok (mk addrBytes m_topics logDataBytes).

(** The loop over the requested topics and [m_topics] in step. *)
Fixpoint topics_match (inTopics m_topics : list bytes) : bool :=
  match inTopics with
  | [] => true
  | it :: inTopics =>
    match m_topics with
    | [] => false
    | tpIt :: m_topics => if bool_decide (it <> tpIt) then false else topics_match inTopics m_topics
    end
  end.

Definition IsEventEmitted (e : t) (addr : bytes) (inTopics : list bytes) : bool :=
  if bool_decide (m_contractAddr e <> addr) then false else topics_match inTopics (m_topics e).
End ReceiptLogEntry.

#[export] Instance ReceiptLogEntry_eq_dec : EqDecision ReceiptLogEntry.t.
Proof. solve_decision. Defined.

(** ** Receipts *)

Module Receipt.
(** A receipt is its [m_logEntries]. *)
Definition t : Type := list ReceiptLogEntry.t.

(** Typed receipts carry a type byte in front of the RLP list. *)
Definition ParseReceipt (rlpBytes : bytes) : result Error Obj :=
  firstByte ← at_bytes rlpBytes 0;
  let '(range, size) :=
    if (firstByte =? 0x01) || (firstByte =? 0x02) || (firstByte =? 0x03) then
      (drop 1 rlpBytes, zlen rlpBytes - 1)
    else (rlpBytes, zlen rlpBytes) in
  lift_rlp (GeneralParser.ParseRange range size).

Fixpoint read_logs (receiptLogs : list Obj) : result Error t :=
  match receiptLogs with
  | [] => Ok []
  | logEntry :: rest =>
    l ← AsList logEntry;
    entry ← ReceiptLogEntry.create l;
    entries ← read_logs rest;
    Ok (entry :: entries)
  end.

Definition create (receiptObj : Obj) : result Error t :=
  receiptBody ← AsList receiptObj;
  logs ← at_list receiptBody 3;
  receiptLogs ← AsList logs;
  read_logs receiptLogs.

Definition FromBytes (rlpBytes : bytes) : result Error t :=
  receiptObj ← ParseReceipt rlpBytes;
  create receiptObj.

Definition SearchEvents (r : t) (addr : bytes) (topics : list bytes) : list ReceiptLogEntry.t :=
  base.filter (fun e => ReceiptLogEntry.IsEventEmitted e addr topics) r.
End Receipt.

(** The trie key of the item with index [i]. *)
Definition keyRlp (i : Z) : bytes := WriterBytes.Write (EncodePrimitiveIntValue.Encode 8 i).

Module ReceiptsMgr.
Record t := mk { m_receipts : list Receipt.t; m_rootHashBytes : bytes }.

(** The loop of the constructor from index [i] on. *)
Fixpoint build (i : Z) (trie : PatriciaTrie.t) (receipts : list Obj)
  : result Error (PatriciaTrie.t * list Receipt.t) :=
  match receipts with
  | [] => Ok (trie, [])
  | receipt :: rest =>
    receiptBytes ← AsBytes receipt;
    trie ← lift_trie (PatriciaTrie.Put trie (keyRlp i) receiptBytes);
    r ← Receipt.FromBytes receiptBytes;
    '(trie, rs) ← build (u64 (i + 1)) trie rest;
    Ok (trie, r :: rs)
  end.

Definition create (receipts : list Obj) : result Error t :=
  '(trie, rs) ← build 0 PatriciaTrie.create receipts;
  root ← lift_trie (PatriciaTrie.Hash trie);
  Ok (mk rs root).

Fixpoint SearchEvents_loop (rs : list Receipt.t) (addr : bytes) (topics : list bytes)
  : list ReceiptLogEntry.t :=
  match rs with
  | [] => []
  | r :: rs => Receipt.SearchEvents r addr topics ++ SearchEvents_loop rs addr topics
  end.

Definition SearchEvents (m : t) (addr : bytes) (topics : list bytes) : list ReceiptLogEntry.t :=
  SearchEvents_loop (m_receipts m) addr topics.
End ReceiptsMgr.

(** ** Transactions *)

Inductive TxnVersion := Legacy | AccessList | DynamicFee.

Module Transaction.
Record t := mk { m_version : TxnVersion; m_txnBody : list Obj; m_contractAddr : bytes; m_data : bytes }.

Definition GetContractAddrRef (version : TxnVersion) (txnBody : list Obj) : result Error bytes :=
  o ← at_list txnBody (match version with Legacy => 3 | AccessList => 4 | DynamicFee => 5 end);
  AsBytes o.

Definition GetContractParamRef (version : TxnVersion) (txnBody : list Obj) : result Error bytes :=
  o ← at_list txnBody (match version with Legacy => 5 | AccessList => 6 | DynamicFee => 7 end);
  AsBytes o.

Definition create (version : TxnVersion) (txnObj : Obj) : result Error t :=
  txnBody ← AsList txnObj;
  contractAddr ← GetContractAddrRef version txnBody;
  data ← GetContractParamRef version txnBody;
  Ok (mk version txnBody contractAddr data).

(** [*itBegin] of an empty byte string dereferences the end iterator. *)
Definition FromBytes (rlpBytes : bytes) : result Error t :=
  match rlpBytes with
  | [] => Throw (Undefined "end iterator dereferenced")
  | firstByte :: rest =>
    let '(version, range, size) :=
      if firstByte =? 0x01 then (AccessList, rest, zlen rlpBytes - 1)
      else if firstByte =? 0x02 then (DynamicFee, rest, zlen rlpBytes - 1)
      else (Legacy, rlpBytes, zlen rlpBytes) in
    txObj ← lift_rlp (GeneralParser.ParseRange range size);
    create version txObj
  end.
End Transaction.

Module TransactionsMgr.
Record t := mk { m_transactions : list Transaction.t; m_rootHashBytes : bytes }.

Fixpoint build (i : Z) (trie : PatriciaTrie.t) (transactions : list Obj)
  : result Error (PatriciaTrie.t * list Transaction.t) :=
  match transactions with
  | [] => Ok (trie, [])
  | transaction :: rest =>
    transactionBytes ← AsBytes transaction;
    trie ← lift_trie (PatriciaTrie.Put trie (keyRlp i) transactionBytes);
    x ← Transaction.FromBytes transactionBytes;
    '(trie, xs) ← build (u64 (i + 1)) trie rest;
    Ok (trie, x :: xs)
  end.

Definition create (transactions : list Obj) : result Error t :=
  '(trie, xs) ← build 0 PatriciaTrie.create transactions;
  root ← lift_trie (PatriciaTrie.Hash trie);
  Ok (mk xs root).
End TransactionsMgr.

(** ** Index keys *)

Lemma keyRlp_write i : WriterGeneric.Write (OBytes (EncodePrimitiveIntValue.Encode 8 i)) = Ok (keyRlp i).
Proof. done. Qed.

Lemma keyRlp_plain i : plain (OBytes (EncodePrimitiveIntValue.Encode 8 i)).
Proof. constructor. apply EncodePrimitiveIntValue.Encode_bytes. Qed.

Lemma serialize_bytes_bound b : all_bytes b -> (length b <= 8)%nat ->
  (length (EncodeRlpBytes.SerializeBytes b) <= 9)%nat /\ all_bytes (EncodeRlpBytes.SerializeBytes b).
Proof.
  intros Hb Hl. unfold EncodeRlpBytes.SerializeBytes. case_match; [split; [lia|done]|].
  unfold EncodeRlpBytes.GenLeadingBytes. rewrite (proj2 (Z.leb_le _ _)) by lia. cbn [length app].
  split; [lia|]. apply all_bytes_cons. split; [by apply wrap_fits|done].
Qed.

Lemma keyRlp_bound i : (length (keyRlp i) <= 9)%nat /\ all_bytes (keyRlp i).
Proof.
  unfold keyRlp, WriterBytes.Write. pose proof (EncodePrimitiveIntValue.Encode_bytes 8 i) as Hb.
  rewrite map_u8_id by done. apply serialize_bytes_bound; [done|].
  rewrite EncodePrimitiveIntValue.Encode_length. apply EncodePrimitiveIntValue.EncodedWidth_le.
Qed.

Lemma keyRlp_prefix i j : fits 64 i -> fits 64 j -> keyRlp i `prefix_of` keyRlp j -> i = j.
Proof.
  intros Hi Hj [k Hk].
  assert (forall n, fits 64 (zlen (keyRlp n))) as Hf.
  { intros n. destruct (keyRlp_bound n) as [Hn _]. word_lia. }
  destruct (write_no_prefix _ _ _ _ k (keyRlp_plain i) (keyRlp_plain j) (keyRlp_write i)
    (keyRlp_write j) (Hf i) (Hf j) Hk) as [E _].
  injection E as E. apply (f_equal be_val) in E.
  by rewrite !EncodePrimitiveIntValue.Encode_val in E by done.
Qed.

(** ** The pairs a block's items are stored under *)

Fixpoint index_pairs (i : Z) (rs : list bytes) : list (bytes * bytes) :=
  match rs with
  | [] => []
  | r :: rs => (keyRlp i, r) :: index_pairs (u64 (i + 1)) rs
  end.

Lemma index_pairs_elem i rs kv : 0 <= i -> i + zlen rs <= 2 ^ 64 ->
  kv ∈ index_pairs i rs <-> exists n, rs !! n = Some (snd kv) /\ fst kv = keyRlp (i + Z.of_nat n).
Proof.
  revert i. induction rs as [|r rs IH]; intros i Hi Hb.
  { split; [by intros ?%not_elem_of_nil|by intros (n & Hn & _)]. }
  cbn [index_pairs]. rewrite elem_of_cons. cbn [length] in Hb. destruct rs as [|r' rs'].
  { cbn [index_pairs]. split.
    - intros [->|H%not_elem_of_nil]; [|done]. exists 0%nat. by rewrite Z.add_0_r.
    - intros ([|n] & Hn & Hk); [|by destruct n]. left. simpl in Hn. destruct kv; simpl in *.
      rewrite Z.add_0_r in Hk. congruence. }
  cbn [length] in Hb. rewrite wrap_small by (unfold fits; lia).
  rewrite IH by (cbn [length]; lia). split.
  - intros [->|(n & Hn & Hk)].
    + exists 0%nat. by rewrite Z.add_0_r.
    + exists (S n). split; [done|]. rewrite Hk. f_equal. lia.
  - intros ([|n] & Hn & Hk).
    + left. simpl in Hn. rewrite Z.add_0_r in Hk. destruct kv; simpl in *. congruence.
    + right. exists n. split; [done|]. rewrite Hk. f_equal. lia.
Qed.

Lemma index_pairs_nodup i rs : 0 <= i -> i + zlen rs <= 2 ^ 64 -> NoDup (map fst (index_pairs i rs)).
Proof.
  revert i. induction rs as [|r rs IH]; intros i Hi Hb; [constructor|].
  cbn [index_pairs map fst length] in *. constructor.
  - intros (kv & Hk & Hin)%list_elem_of_fmap. destruct rs as [|r' rs']; [by apply not_elem_of_nil in Hin|].
    cbn [length] in Hb. rewrite wrap_small in Hin by (unfold fits; lia).
    apply index_pairs_elem in Hin as (n & Hn & Hk'); [|lia|cbn [length]; lia].
    rewrite Hk' in Hk. apply lookup_lt_Some in Hn. cbn [length] in Hn.
    assert (i = i + 1 + Z.of_nat n) as E; [|lia].
    apply keyRlp_prefix; [unfold fits; lia..|by rewrite Hk].
  - destruct rs as [|r' rs']; [constructor|]. cbn [length] in Hb.
    rewrite wrap_small by (unfold fits; lia). apply IH; cbn [length]; lia.
Qed.

Lemma index_pairs_good rs : zlen rs < 2 ^ 64 -> Forall all_bytes rs -> good_pairs (index_pairs 0 rs).
Proof.
  intros Hlen Hb. split; [split|].
  - apply index_pairs_nodup; lia.
  - intros k1 k2 (kv1 & -> & H1)%list_elem_of_fmap (kv2 & -> & H2)%list_elem_of_fmap.
    apply index_pairs_elem in H1 as (n1 & L1 & ->); [|lia..].
    apply index_pairs_elem in H2 as (n2 & L2 & ->); [|lia..].
    apply lookup_lt_Some in L1, L2. intros Hp. f_equal.
    apply keyRlp_prefix in Hp; [done|unfold fits; lia..].
  - apply Forall_forall. intros kv H. apply index_pairs_elem in H as (n & Hn & Hk); [|lia..].
    rewrite Hk. destruct (keyRlp_bound (0 + Z.of_nat n)) as [Hl Hkb].
    split_and!; [done|lia|]. by apply (Forall_lookup_1 _ _ _ _ Hb Hn).
Qed.

Lemma index_pairs_inj rs1 rs2 : zlen rs1 < 2 ^ 64 -> zlen rs2 < 2 ^ 64 ->
  (forall kv, kv ∈ index_pairs 0 rs1 <-> kv ∈ index_pairs 0 rs2) -> rs1 = rs2.
Proof.
  intros H1 H2 Heq. apply list_eq. intros i. apply option_eq. intros r.
  assert (forall rs rs' n, zlen rs < 2 ^ 64 -> zlen rs' < 2 ^ 64 ->
    (forall kv, kv ∈ index_pairs 0 rs -> kv ∈ index_pairs 0 rs') ->
    rs !! n = Some r -> rs' !! n = Some r) as Hd.
  { intros rs rs' n Hl Hl' Hsub Hn.
    assert ((keyRlp (Z.of_nat n), r) ∈ index_pairs 0 rs) as Hin.
    { apply index_pairs_elem; [lia..|]. by exists n. }
    apply Hsub, index_pairs_elem in Hin as (m & Hm & Hk); [|lia..]. simpl in Hk.
    apply lookup_lt_Some in Hn. pose proof (lookup_lt_Some _ _ _ Hm).
    assert (Z.of_nat n = 0 + Z.of_nat m) as E by (apply keyRlp_prefix; [unfold fits; lia..|by rewrite Hk]).
    by replace n with m by lia. }
  split; apply Hd; try done; intros kv; apply Heq.
Qed.

(** ** The constructors build the trie of the pairs *)

Section build.
Context {A : Type} (parse : bytes -> result Error A).

(** The loop the two managers share. *)
Fixpoint build_with (i : Z) (trie : PatriciaTrie.t) (items : list Obj)
  : result Error (PatriciaTrie.t * list A) :=
  match items with
  | [] => Ok (trie, [])
  | item :: rest =>
    itemBytes ← AsBytes item;
    trie ← lift_trie (PatriciaTrie.Put trie (keyRlp i) itemBytes);
    x ← parse itemBytes;
    '(trie, xs) ← build_with (u64 (i + 1)) trie rest;
    Ok (trie, x :: xs)
  end.

Definition put_fold (t : result TrieFault PatriciaTrie.t) (kvs : list (bytes * bytes)) :=
  foldl (fun r kv => t ← r; PatriciaTrie.Put t (fst kv) (snd kv)) t kvs.

Lemma lift_trie_ok {B} (r : result TrieFault B) b : lift_trie r = Ok b <-> r = Ok b.
Proof. destruct r as [|[| |]]; simpl; naive_solver. Qed.

Lemma put_fold_throw e kvs : put_fold (Throw e) kvs = Throw e.
Proof. unfold put_fold. induction kvs; [done|]. simpl. done. Qed.

(** A successful run: the items are byte strings, each parsed, and the trie is
    the one [Put] builds. *)
Lemma build_with_ok i trie items trie' xs : build_with i trie items = Ok (trie', xs) ->
  exists rs, items = map OBytes rs /\ put_fold (Ok trie) (index_pairs i rs) = Ok trie' /\
    Forall2 (fun r x => parse r = Ok x) rs xs.
Proof.
  revert i trie xs. induction items as [|o items IH]; intros i trie xs H; cbn [build_with] in H.
  { injection H as -> <-. exists []. split_and!; [done|done|constructor]. }
  bind_ok H. bind_ok H. bind_ok H. bind_ok H. destruct a2 as [t2 ys]. injection H as -> <-.
  apply IH in E2 as (rs & -> & Hp & Hf). destruct o as [b| | |]; try done. injection E as <-.
  exists (b :: rs). apply lift_trie_ok in E0. split_and!; [done| |by constructor].
  cbn [index_pairs]. unfold put_fold in *. cbn [foldl fst snd]. cbn. by rewrite E0.
Qed.

(** Running on byte strings whose insertions succeed: the outcome is decided by
    the parser alone. *)
Lemma build_with_total i trie rs trie' : put_fold (Ok trie) (index_pairs i rs) = Ok trie' ->
  build_with i trie (map OBytes rs) = (xs ← mapM parse rs; Ok (trie', xs)).
Proof.
  revert i trie. induction rs as [|r rs IH]; intros i trie H.
  { by injection H as ->. }
  cbn [index_pairs] in H. unfold put_fold in H. cbn in H.
  destruct (PatriciaTrie.Put trie (keyRlp i) r) as [t|e] eqn:E.
  2:{ fold (put_fold (Throw e) (index_pairs (u64 (i + 1)) rs)) in H. by rewrite put_fold_throw in H. }
  cbn [map build_with mapM]. cbn. rewrite E. cbn. destruct (parse r) as [x|]; [|done]. cbn.
  rewrite (IH _ _ H). by destruct (mapM parse rs).
Qed.
End build.

Lemma receipts_build i t l : ReceiptsMgr.build i t l = build_with Receipt.FromBytes i t l.
Proof.
  revert i t. induction l as [|o l IH]; intros i t; [done|].
  cbn [ReceiptsMgr.build build_with]. destruct (AsBytes o) as [b|]; [|done]. cbn.
  destruct (lift_trie _) as [t'|]; [|done]. cbn. destruct (Receipt.FromBytes b); [|done]. cbn.
  by rewrite IH.
Qed.

Lemma transactions_build i t l : TransactionsMgr.build i t l = build_with Transaction.FromBytes i t l.
Proof.
  revert i t. induction l as [|o l IH]; intros i t; [done|].
  cbn [TransactionsMgr.build build_with]. destruct (AsBytes o) as [b|]; [|done]. cbn.
  destruct (lift_trie _) as [t'|]; [|done]. cbn. destruct (Transaction.FromBytes b); [|done]. cbn.
  by rewrite IH.
Qed.

Lemma put_fold_PutAll kvs : put_fold (Ok PatriciaTrie.create) kvs = PutAll kvs.
Proof. done. Qed.

(** The serialisations that make up the trie of the items fit 64 bits. *)
Definition items_sizes_ok (rs : list bytes) : Prop :=
  forall t, PutAll (index_pairs 0 rs) = Ok t -> trie_sizes_ok t.

#[export] Instance trie_sizes_ok_dec t : Decision (trie_sizes_ok t).
Proof. unfold trie_sizes_ok, sizes_ok. destruct t; apply _. Defined.

(** Two different node serialisations of the two tries with one digest. *)
Definition items_collision (rs1 rs2 : list bytes) : Prop :=
  exists t1 t2, PutAll (index_pairs 0 rs1) = Ok t1 /\ PutAll (index_pairs 0 rs2) = Ok t2 /\
    trie_collision t1 t2.

Lemma index_pairs_nonempty rs : zlen rs < 2 ^ 64 -> Forall (fun r => r <> []) rs ->
  Forall (fun kv => snd kv <> []) (index_pairs 0 rs).
Proof.
  intros Hl H. apply Forall_forall. intros kv Hin.
  apply index_pairs_elem in Hin as (n & Hn & _); [|lia..]. by apply (Forall_lookup_1 _ _ _ _ H Hn).
Qed.

(** Equal roots come from equal lists, or from a collision. *)
Lemma items_binding rs1 rs2 t1 t2 h :
  zlen rs1 < 2 ^ 64 -> zlen rs2 < 2 ^ 64 -> Forall all_bytes rs1 -> Forall all_bytes rs2 ->
  Forall (fun r => r <> []) rs1 -> Forall (fun r => r <> []) rs2 ->
  items_sizes_ok rs1 -> items_sizes_ok rs2 ->
  PutAll (index_pairs 0 rs1) = Ok t1 -> PutAll (index_pairs 0 rs2) = Ok t2 ->
  PatriciaTrie.Hash t1 = Ok h -> PatriciaTrie.Hash t2 = Ok h -> rs1 = rs2 \/ items_collision rs1 rs2.
Proof.
  intros L1 L2 B1 B2 N1 N2 Z1 Z2 E1 E2 H1 H2.
  pose proof (index_pairs_good rs1 L1 B1) as G1. pose proof (index_pairs_good rs2 L2 B2) as G2.
  destruct (PutAll_ok _ G1) as (t1' & E1' & W1 & S1). assert (t1' = t1) as -> by congruence.
  destruct (PutAll_ok _ G2) as (t2' & E2' & W2 & S2). assert (t2' = t2) as -> by congruence.
  destruct (hash_binding t1 t2 h) as [->|Hc]; auto.
  - eapply stores_nonempty; [done|]. by apply index_pairs_nonempty.
  - eapply stores_nonempty; [done|]. by apply index_pairs_nonempty.
  - left. apply index_pairs_inj; try done. intros kv. split; by apply (stores_pairs _ _ t2).
  - right. by exists t1, t2.
Qed.

Lemma receipt_nonempty r x : Receipt.FromBytes r = Ok x -> r <> [].
Proof. by intros H ->. Qed.

Lemma transaction_nonempty r x : Transaction.FromBytes r = Ok x -> r <> [].
Proof. by intros H ->. Qed.

(** A manager that was constructed. *)
Lemma receipts_create_ok l m : ReceiptsMgr.create l = Ok m ->
  exists rs t, l = map OBytes rs /\ PutAll (index_pairs 0 rs) = Ok t /\
    PatriciaTrie.Hash t = Ok (ReceiptsMgr.m_rootHashBytes m) /\
    Forall2 (fun r x => Receipt.FromBytes r = Ok x) rs (ReceiptsMgr.m_receipts m).
Proof.
  unfold ReceiptsMgr.create. intros H. rewrite receipts_build in H. bind_ok H. destruct a as [t xs].
  bind_ok H. injection H as <-. apply lift_trie_ok in E0.
  apply build_with_ok in E as (rs & -> & Hp & Hf). by exists rs, t.
Qed.

Lemma transactions_create_ok l m : TransactionsMgr.create l = Ok m ->
  exists rs t, l = map OBytes rs /\ PutAll (index_pairs 0 rs) = Ok t /\
    PatriciaTrie.Hash t = Ok (TransactionsMgr.m_rootHashBytes m) /\
    Forall2 (fun r x => Transaction.FromBytes r = Ok x) rs (TransactionsMgr.m_transactions m).
Proof.
  unfold TransactionsMgr.create. intros H. rewrite transactions_build in H. bind_ok H. destruct a as [t xs].
  bind_ok H. injection H as <-. apply lift_trie_ok in E0.
  apply build_with_ok in E as (rs & -> & Hp & Hf). by exists rs, t.
Qed.

Lemma parsed_nonempty {A} (parse : bytes -> result Error A) rs xs :
  (forall r x, parse r = Ok x -> r <> []) ->
  Forall2 (fun r x => parse r = Ok x) rs xs -> Forall (fun r => r <> []) rs.
Proof. intros Hp. induction 1; constructor; eauto. Qed.

Lemma map_OBytes_inj rs1 rs2 : map OBytes rs1 = map OBytes rs2 -> rs1 = rs2.
Proof. revert rs2. induction rs1 as [|x l IH]; intros [|y k] H; try done. injection H as -> H. f_equal. auto. Qed.

(** ** What the root check is worth *)

(** The same lists, or a collision. *)
Lemma receipts_same_root rs1 rs2 m1 m2 :
  zlen rs1 < 2 ^ 64 -> zlen rs2 < 2 ^ 64 -> Forall all_bytes rs1 -> Forall all_bytes rs2 ->
  items_sizes_ok rs1 -> items_sizes_ok rs2 ->
  ReceiptsMgr.create (map OBytes rs1) = Ok m1 -> ReceiptsMgr.create (map OBytes rs2) = Ok m2 ->
  ReceiptsMgr.m_rootHashBytes m1 = ReceiptsMgr.m_rootHashBytes m2 ->
  rs1 = rs2 \/ items_collision rs1 rs2.
Proof.
  intros L1 L2 B1 B2 Z1 Z2 C1 C2 Hr.
  destruct (receipts_create_ok _ _ C1) as (r1 & t1 & ->%map_OBytes_inj & P1 & H1 & F1).
  destruct (receipts_create_ok _ _ C2) as (r2 & t2 & ->%map_OBytes_inj & P2 & H2 & F2).
  pose proof (parsed_nonempty _ _ _ receipt_nonempty F1) as N1.
  pose proof (parsed_nonempty _ _ _ receipt_nonempty F2) as N2.
  rewrite <-Hr in H2. by apply (items_binding r1 r2 t1 t2 _ L1 L2 B1 B2 N1 N2 Z1 Z2 P1 P2 H1 H2).
Qed.

(** C5. Two lists of receipts that both build and have the same root hash are
    the same list, byte for byte, and parse to the same log entries; or else
    the nodes of their tries contain two different messages with the same
    Keccak-256 digest.  So a host that passes the root check has delivered the
    receipts of the block. *)
Theorem receipts_root_binding rs1 rs2 m1 m2 :
  zlen rs1 < 2 ^ 64 -> zlen rs2 < 2 ^ 64 -> Forall all_bytes rs1 -> Forall all_bytes rs2 ->
  items_sizes_ok rs1 -> items_sizes_ok rs2 ->
  ReceiptsMgr.create (map OBytes rs1) = Ok m1 -> ReceiptsMgr.create (map OBytes rs2) = Ok m2 ->
  ReceiptsMgr.m_rootHashBytes m1 = ReceiptsMgr.m_rootHashBytes m2 ->
  (rs1 = rs2 /\ m1 = m2) \/ items_collision rs1 rs2.
Proof.
  intros L1 L2 B1 B2 Z1 Z2 C1 C2 Hr.
  destruct (receipts_same_root rs1 rs2 m1 m2) as [->|Hc]; try done; [left|by right].
  split; [done|congruence].
Qed.

(** A receipt with one log, as the RLP writer produces it. *)
Definition sample_log : ReceiptLogEntry.t :=
  ReceiptLogEntry.mk (replicate 20 0xAA) [replicate 32 1; replicate 32 2] [1; 2; 3].

(** The RLP value of a log entry and of a receipt. *)
Definition log_obj (e : ReceiptLogEntry.t) : Obj :=
  OList [OBytes (ReceiptLogEntry.m_contractAddr e); OList (map OBytes (ReceiptLogEntry.m_topics e));
         OBytes (ReceiptLogEntry.m_logData e)].
Definition receipt_obj (status gas bloom : bytes) (logs : list ReceiptLogEntry.t) : Obj :=
  OList [OBytes status; OBytes gas; OBytes bloom; OList (map log_obj logs)].

Definition sample_receipt : bytes :=
  ok_or [] (WriterGeneric.Write (receipt_obj [1] [0x52; 0x08] (replicate 256 0) [sample_log])).
(** A receipt short enough to be embedded in its parent. *)
Definition short_receipt : bytes := ok_or [] (WriterGeneric.Write (receipt_obj [1] [] [] [])).
Definition sample_receipts : list bytes := [short_receipt; 2 :: short_receipt; 1 :: short_receipt].
Definition sample_mgr_of (rs : list bytes) : ReceiptsMgr.t :=
  ok_or (ReceiptsMgr.mk [] []) (ReceiptsMgr.create (map OBytes rs)).

Lemma items_sizes_decided rs :
  match PutAll (index_pairs 0 rs) with Ok t => trie_sizes_ok t | Throw _ => True end -> items_sizes_ok rs.
Proof. intros H t E. by rewrite E in H. Qed.

Lemma receipts_root_binding_witness :
  (sample_receipts = sample_receipts /\
   sample_mgr_of sample_receipts = sample_mgr_of sample_receipts)
  \/ items_collision sample_receipts sample_receipts.
Proof.
  apply (receipts_root_binding sample_receipts sample_receipts);
    [ vm_compute; reflexivity | vm_compute; reflexivity
    | apply (bool_decide_unpack _); vm_compute; exact I
    | apply (bool_decide_unpack _); vm_compute; exact I
    | apply items_sizes_decided; apply (bool_decide_unpack _); vm_compute; exact I
    | apply items_sizes_decided; apply (bool_decide_unpack _); vm_compute; exact I
    | apply is_ok_or; lazy -[Keccak256]; reflexivity | apply is_ok_or; lazy -[Keccak256]; reflexivity
    | reflexivity ].
Defined.

(** The same for the transactions of a block. *)
Theorem transactions_root_binding rs1 rs2 m1 m2 :
  zlen rs1 < 2 ^ 64 -> zlen rs2 < 2 ^ 64 -> Forall all_bytes rs1 -> Forall all_bytes rs2 ->
  items_sizes_ok rs1 -> items_sizes_ok rs2 ->
  TransactionsMgr.create (map OBytes rs1) = Ok m1 -> TransactionsMgr.create (map OBytes rs2) = Ok m2 ->
  TransactionsMgr.m_rootHashBytes m1 = TransactionsMgr.m_rootHashBytes m2 ->
  rs1 = rs2 \/ items_collision rs1 rs2.
Proof.
  intros L1 L2 B1 B2 Z1 Z2 C1 C2 Hr.
  destruct (transactions_create_ok _ _ C1) as (r1 & t1 & ->%map_OBytes_inj & P1 & H1 & F1).
  destruct (transactions_create_ok _ _ C2) as (r2 & t2 & ->%map_OBytes_inj & P2 & H2 & F2).
  pose proof (parsed_nonempty _ _ _ transaction_nonempty F1) as N1.
  pose proof (parsed_nonempty _ _ _ transaction_nonempty F2) as N2.
  rewrite <-Hr in H2. by apply (items_binding r1 r2 t1 t2 (TransactionsMgr.m_rootHashBytes m1)).
Qed.

Definition sample_txn : bytes :=
  ok_or [] (WriterGeneric.Write (OList (map OBytes [[1]; [2]; [3]; [4]; []; [0xA9; 0x05]]))).
Definition sample_txns_of (rs : list bytes) : TransactionsMgr.t :=
  ok_or (TransactionsMgr.mk [] []) (TransactionsMgr.create (map OBytes rs)).

Lemma transactions_root_binding_witness :
  [sample_txn; sample_txn] = [sample_txn; sample_txn] \/
  items_collision [sample_txn; sample_txn] [sample_txn; sample_txn].
Proof.
  apply (transactions_root_binding [sample_txn; sample_txn] [sample_txn; sample_txn]
    (sample_txns_of [sample_txn; sample_txn]) (sample_txns_of [sample_txn; sample_txn]));
    [ vm_compute; reflexivity | vm_compute; reflexivity
    | apply (bool_decide_unpack _); vm_compute; exact I
    | apply (bool_decide_unpack _); vm_compute; exact I
    | apply items_sizes_decided; apply (bool_decide_unpack _); vm_compute; exact I
    | apply items_sizes_decided; apply (bool_decide_unpack _); vm_compute; exact I
    | apply is_ok_or; lazy -[Keccak256]; reflexivity | apply is_ok_or; lazy -[Keccak256]; reflexivity
    | reflexivity ].
Defined.

(** ** Construction and parsing *)

(** Construction of the receipts of a block, on every list of byte strings:
    no insertion and no hash faults, and the outcome is decided by the receipts
    alone - the root of the trie of all items with the parsed receipts, or the
    exception of the first receipt that does not parse. *)
Theorem ReceiptsMgr_create_spec rs :
  zlen rs < 2 ^ 64 -> Forall all_bytes rs -> items_sizes_ok rs ->
  exists t root, PutAll (index_pairs 0 rs) = Ok t /\ stores t (index_pairs 0 rs) /\
    PatriciaTrie.Hash t = Ok root /\
    ReceiptsMgr.create (map OBytes rs)
    = match mapM Receipt.FromBytes rs with
      | Ok xs => Ok (ReceiptsMgr.mk xs root)
      | Throw e => Throw e
      end.
Proof.
  intros Hl Hb Hz. destruct (PutAll_ok _ (index_pairs_good rs Hl Hb)) as (t & E & Hw & Hst).
  assert (exists root, PatriciaTrie.Hash t = Ok root) as [root Hr].
  { destruct t as [n|]; [|by eexists]. inversion Hw; subst. specialize (Hz _ E).
    destruct (hash_ok n ltac:(done) (sizes_self n Hz)) as (m & _ & ->). by eexists. }
  exists t, root. split_and!; try done. unfold ReceiptsMgr.create.
  rewrite receipts_build, (build_with_total _ 0 _ rs t E).
  destruct (mapM Receipt.FromBytes rs) as [xs|e]; [|done]. cbn. by rewrite Hr.
Qed.

Lemma ReceiptsMgr_create_spec_witness :
  exists t root, PutAll (index_pairs 0 sample_receipts) = Ok t /\
    stores t (index_pairs 0 sample_receipts) /\ PatriciaTrie.Hash t = Ok root /\
    ReceiptsMgr.create (map OBytes sample_receipts)
    = match mapM Receipt.FromBytes sample_receipts with
      | Ok xs => Ok (ReceiptsMgr.mk xs root)
      | Throw e => Throw e
      end.
Proof.
  apply (ReceiptsMgr_create_spec sample_receipts);
    [ vm_compute; reflexivity
    | apply (bool_decide_unpack _); vm_compute; exact I
    | apply items_sizes_decided; apply (bool_decide_unpack _); vm_compute; exact I ].
Defined.

(** A log entry with a 20-byte address and 32-byte topics. *)
Definition log_ok (e : ReceiptLogEntry.t) : Prop :=
  all_bytes (ReceiptLogEntry.m_contractAddr e) /\ length (ReceiptLogEntry.m_contractAddr e) = 20%nat /\
  Forall (fun t => all_bytes t /\ length t = 32%nat) (ReceiptLogEntry.m_topics e) /\
  all_bytes (ReceiptLogEntry.m_logData e).

Lemma topics_read tps : Forall (fun t => all_bytes t /\ length t = 32%nat) tps ->
  ReceiptLogEntry.read_topics (map OBytes tps) = Ok tps /\ Forall plain (map OBytes tps).
Proof.
  induction 1 as [|t tps [Hb Hl] _ [IH IHp]]; [by split|].
  cbn [map ReceiptLogEntry.read_topics]. cbn. rewrite Hl. cbn. rewrite IH. cbn.
  split; [done|]. constructor; [by constructor|done].
Qed.

Lemma log_read e : log_ok e ->
  plain (log_obj e) /\ exists l, log_obj e = OList l /\ ReceiptLogEntry.create l = Ok e.
Proof.
  intros (Ha & Hl & Ht & Hd). destruct (topics_read _ Ht) as [Htr Htp]. unfold log_obj. split.
  - constructor. repeat constructor; done.
  - eexists. split; [done|]. unfold ReceiptLogEntry.create. cbn. rewrite Hl. cbn. rewrite Htr. cbn.
    by destruct e.
Qed.

Lemma logs_read logs : Forall log_ok logs ->
  Forall plain (map log_obj logs) /\ Receipt.read_logs (map log_obj logs) = Ok logs.
Proof.
  induction 1 as [|e logs He _ [IHp IH]]; [by split|].
  destruct (log_read e He) as (Hp & l & El & Ec). cbn [map Receipt.read_logs].
  split; [by constructor|]. rewrite El. cbn. by rewrite Ec; cbn; rewrite IH.
Qed.

(** The serialisation of a list does not start with a receipt type byte. *)
Lemma list_first_byte l bs : Forall plain l -> WriterGeneric.Write (OList l) = Ok bs ->
  fits 64 (zlen bs) -> exists b tl, bs = b :: tl /\ 3 < b.
Proof.
  intros Hl Hw Hf. apply WriterList_Write_inv in Hw as (p & _ & ->).
  rewrite length_app, Nat2Z.inj_add in Hf.
  destruct (list_header (zlen p) ltac:(word_lia)) as (b0 & tl & t & v & -> & Hb & _ & Ht & Hd & _).
  eexists _, _. split; [by rewrite <-app_comm_cons|].
  destruct (Z.le_gt_cases b0 3); [|lia]. exfalso. specialize (Hd 0). unfold DecodeRlpLeadingByte in Hd.
  rewrite (proj2 (Z.leb_le b0 0x7F)) in Hd by lia. destruct Ht; subst; by injection Hd.
Qed.

(** Round trip of receipts: a receipt serialised by the RLP writer, bare or
    behind one of the type bytes 1, 2 and 3, is parsed to exactly its log
    entries. *)
Theorem receipt_roundtrip status gas bloom logs :
  all_bytes status -> all_bytes gas -> all_bytes bloom -> Forall log_ok logs ->
  exists raw, WriterGeneric.Write (receipt_obj status gas bloom logs) = Ok raw /\
    (fits 64 (zlen raw) -> Receipt.FromBytes raw = Ok logs /\
     forall ty, In ty [1; 2; 3] -> Receipt.FromBytes (ty :: raw) = Ok logs).
Proof.
  intros Hs Hg Hb Hl. destruct (logs_read logs Hl) as [Hp Hr].
  assert (Forall plain [OBytes status; OBytes gas; OBytes bloom; OList (map log_obj logs)]) as Hpl
    by (repeat constructor; done).
  destruct (Write_plain (receipt_obj status gas bloom logs)) as [raw Hw]; [by constructor|].
  exists raw. split; [done|]. intros Hf.
  pose proof (ParseRange_written (receipt_obj status gas bloom logs) raw ltac:(by constructor) Hw Hf) as HP.
  destruct (list_first_byte _ _ Hpl Hw Hf) as (b & tl & -> & Hb3).
  assert (Receipt.create (receipt_obj status gas bloom logs) = Ok logs) as Hc
    by (unfold Receipt.create; cbn; exact Hr).
  split; [|intros ty Hty]; unfold Receipt.FromBytes, Receipt.ParseReceipt; cbn [at_bytes lookup list_lookup mbind result_bind].
  - rewrite !(proj2 (Z.eqb_neq b _)) by lia. cbn [orb]. by rewrite HP.
  - assert (((ty =? 1) || (ty =? 2) || (ty =? 3)) = true) as ->.
    { cbn in Hty. repeat destruct Hty as [<-|Hty]; done. }
    replace (zlen (ty :: b :: tl) - 1) with (zlen (b :: tl)) by (cbn [length]; lia).
    cbn [drop]. by rewrite HP.
Qed.

Lemma receipt_roundtrip_witness :
  exists raw, WriterGeneric.Write (receipt_obj [1] [0x52; 0x08] (replicate 256 0) [sample_log]) = Ok raw /\
    (fits 64 (zlen raw) -> Receipt.FromBytes raw = Ok [sample_log] /\
     forall ty, In ty [1; 2; 3] -> Receipt.FromBytes (ty :: raw) = Ok [sample_log]).
Proof.
  apply (receipt_roundtrip [1] [0x52; 0x08] (replicate 256 0) [sample_log]);
    [byte_list | byte_list | apply Forall_replicate; split; vm_compute; congruence |].
  constructor; [|constructor]. split_and!; [| reflexivity | |byte_list].
  - apply Forall_replicate; split; vm_compute; congruence.
  - repeat (apply Forall_cons_2; [split; [apply Forall_replicate; split; vm_compute; congruence|reflexivity]|]).
    apply Forall_nil_2.
Defined.
