(* ===== verification/Events.v ===== *)
(** * Event subscriptions and the sync handshake

    [EclipseMonitor/Eth/EventDescription.hpp] and [EventManager.hpp]: listeners
    for contract events and the check of a header against them;
    [SyncMsgMgrBase.hpp] and [Eth/SyncMsgMgr.hpp]: the sync message the monitor
    waits for on the chain. *)

From stdpp Require Import strings gmap.
From S2P Require Import Prelude RlpEncoding Keccak Bloom EthHeader Trie Receipts.

(** ** Event descriptions *)

Module EventDescription.
Record t (Cb : Type) := mk {
  m_contractAddr : bytes; m_topics : list bytes; m_hashes : list bytes; m_notifyCallback : Cb }.
Arguments mk {Cb}.
Arguments m_contractAddr {Cb}.
Arguments m_topics {Cb}.
Arguments m_hashes {Cb}.
Arguments m_notifyCallback {Cb}.

Definition create {Cb} (contractAddr : bytes) (topics : list bytes) (notifyCallback : Cb) : t Cb :=
  mk contractAddr topics (Keccak256 contractAddr :: map Keccak256 topics) notifyCallback.
End EventDescription.

(** ** The event manager *)

Module EventManager.
(** [m_eventDescMap]: the key is the address of the description. *)
Abbreviation t Cb := (gmap Z (EventDescription.t Cb)).

Section manager.
(** A listener's callback is a value of [Cb]; what running it does is up to the
    owner of the callbacks. *)
Context {Cb : Type}.

Definition create : t Cb := ∅.

(** [id] is the address [make_unique] returns for the new description. *)
Definition Listen (m : t Cb) (id : Z) (subDesc : EventDescription.t Cb) : t Cb * Z :=
  (match m !! id with None => <[id := subDesc]> m | Some _ => m end, id).

Definition Cancel (m : t Cb) (id : Z) : t Cb :=
  match m !! id with Some _ => delete id m | None => m end.

Definition GetNumOfListeners (m : t Cb) : nat := size m.

(** The entries in the order the map is iterated; the order is the container's. *)
Definition entries (m : t Cb) : list (Z * EventDescription.t Cb) :=
  map_to_list m.

Definition BloomEventDesc_Locked (m : t Cb) (bloom : bytes) : list (Z * EventDescription.t Cb) :=
  base.filter (fun e => BloomFilter.AreHashesInBloom bloom (EventDescription.m_hashes (snd e))) (entries m).

(** A planned callback: the listener's id and callback, and the logs to hand it. *)
Definition CallbackPlan : Type := Z * Cb * list ReceiptLogEntry.t.

Fixpoint GenCallbackPlan_Locked (receiptsMgr : ReceiptsMgr.t)
    (bloomedEvents : list (Z * EventDescription.t Cb)) : list CallbackPlan :=
  match bloomedEvents with
  | [] => []
  | (id, e) :: rest =>
    let logKRefs := ReceiptsMgr.SearchEvents receiptsMgr
      (EventDescription.m_contractAddr e) (EventDescription.m_topics e) in
    let plans := GenCallbackPlan_Locked receiptsMgr rest in
    match logKRefs with
    | [] => plans
    | _ => (id, EventDescription.m_notifyCallback e, logKRefs) :: plans
    end
  end.

Definition root_mismatch : Error := FromMonitor (Exception "Receipts root mismatch").

(** [CheckEvents] up to the point where the map is unlocked and the callbacks
    are made. *)
Definition PlanEvents (m : t Cb) (headerMgr : HeaderMgr.t)
    (receiptsMgrGetter : Z -> result Error ReceiptsMgr.t) : result Error (list CallbackPlan) :=
  match BloomEventDesc_Locked m (HeaderMgr.m_bloomFilter headerMgr) with
  | [] => Ok []
  | bloomedEvents =>
    receiptsMgr ← receiptsMgrGetter (HeaderMgr.m_blkNum headerMgr);
    if bool_decide (ReceiptsMgr.m_rootHashBytes receiptsMgr
         <> EthHeader.ReceiptsRoot (HeaderMgr.m_rawHeader headerMgr)) then
      Throw root_mismatch
    else Ok (GenCallbackPlan_Locked receiptsMgr bloomedEvents)
  end.

Section conduct.
(** The state the callbacks act on, and what a callback does. *)
Context {W : Type} (run : Cb -> HeaderMgr.t -> ReceiptLogEntry.t -> Z -> stx W Error unit).

Fixpoint run_logs (hdr : HeaderMgr.t) (id : Z) (callback : Cb) (logs : list ReceiptLogEntry.t)
  : stx W Error unit :=
  match logs with
  | [] => mret tt
  | log :: logs => run callback hdr log id ;; run_logs hdr id callback logs
  end.

Fixpoint ConductCallbackPlan (hdr : HeaderMgr.t) (plans : list CallbackPlan) : stx W Error unit :=
  match plans with
  | [] => mret tt
  | (id, callback, logs) :: plans => run_logs hdr id callback logs ;; ConductCallbackPlan hdr plans
  end.

Definition CheckEvents (m : t Cb) (headerMgr : HeaderMgr.t)
    (receiptsMgrGetter : Z -> result Error ReceiptsMgr.t) : stx W Error unit := fun w =>
  match PlanEvents m headerMgr receiptsMgrGetter with
  | Ok plans => ConductCallbackPlan headerMgr plans w
  | Throw e => (w, Throw e)
  end.
End conduct.
End manager.
End EventManager.

(** ** The sync state *)

Module SyncState.
Record t := mk { m_maxWaitTime : Z; m_genTime : Z; m_nonce : bytes; m_isSynced : bool }.

Definition GetDevNonce : bytes :=
  [0x95; 0x66; 0xC7; 0x4D; 0x10; 0x03; 0x7C; 0x4D;
   0x7B; 0xBB; 0x04; 0x07; 0xD1; 0xE2; 0xC6; 0x49;
   0x81; 0x85; 0x5A; 0xD8; 0x68; 0x1D; 0x0D; 0x86;
   0xD1; 0xE9; 0x1E; 0x00; 0x16; 0x79; 0x39; 0xCB].

Definition GetDevSyncState : t := mk (2 ^ 64 - 1) 0 GetDevNonce true.

(** [now] and [nonce] come from the platform. *)
Definition create (maxWaitTime now : Z) (nonce : bytes) : t := mk maxWaitTime now nonce false.

Definition SetSynced (s : t) (recvTime : Z) : t :=
  let deltaT := u64 (recvTime - m_genTime s) in
  if deltaT <=? m_maxWaitTime s then mk (m_maxWaitTime s) (m_genTime s) (m_nonce s) true else s.
End SyncState.

(** ** The sync message manager *)

(** The callbacks of the subscription services of [Ethereum/]: the closures of
    [SubscriberService] and the ones of a subscriber, which capture its queue. *)
Inductive UserCallback :=
| DeployEvent
| RegEvent
| NotifyPastEvent
| NotifyEvent (queue : nat)
| SubscribedReceipt (queue : nat).

(** The callbacks the monitor's event manager holds: the sync handler, which
    captures its sync state, and the ones of its other users. *)
Inductive Callback :=
| OnSync (syncState : nat)
| OnUser (user : UserCallback).

(** The objects the handlers share: the sync states, by reference, the event
    manager, and what the users' callbacks work on. *)
Record World (X : Type) := mkWorld {
  w_states : gmap nat SyncState.t; w_events : EventManager.t Callback; w_owner : X }.
Arguments mkWorld {X}.
Arguments w_states {X}.
Arguments w_events {X}.
Arguments w_owner {X}.

(** What the users' callbacks do with a log. *)
Class UserHandler (X : Type) :=
  user_run : UserCallback -> HeaderMgr.t -> ReceiptLogEntry.t -> Z -> stx (World X) Error unit.

(** A listener of a user. *)
Definition user_listener (e : EventDescription.t Callback) : Prop :=
  exists addr topics user, e = EventDescription.create addr topics (OnUser user).

(** They leave the sync states alone, and add no sync listener. *)
Class UserHandlerLaws (X : Type) `{UserHandler X} :=
  user_frame : forall user hdr log id w w' r, user_run user hdr log id w = (w', r) ->
    w_states w' = w_states w /\
    forall i e, w_events w' !! i = Some e -> w_events w !! i = Some e \/ user_listener e.

Module SyncMsgMgr.
Record t := mk {
  m_maxWaitTime : Z; m_sessId : bytes; m_lastSyncState : nat;
  m_syncContractAddr : bytes; m_eventSign : bytes; m_syncEventCallbackId : Z }.

Definition GetSessIdFromVec (sessIdVec : bytes) : result Error bytes :=
  if negb (zlen sessIdVec =? 16) then Throw (FromMonitor (Exception "Invalid session ID size"))
  else Ok sessIdVec.

Section world.
Context {X : Type}.

(** The callback of [RegisterSyncEvent_Locked], and the ones of other users. *)
Definition handler `{UserHandler X} (cb : Callback) (headerMgr : HeaderMgr.t) (log : ReceiptLogEntry.t)
    (cbID : Z) : stx (World X) Error unit := fun w =>
  match cb with
  | OnUser user => user_run user headerMgr log cbID w
  | OnSync ref =>
    match w_states w !! ref with
    | None => (w, Throw (Undefined "dangling sync state"))
    | Some s =>
      let states :=
        if SyncState.m_isSynced s then w_states w
        else <[ref := SyncState.SetSynced s (HeaderMgr.m_trustedTime headerMgr)]> (w_states w) in
      (mkWorld states (EventManager.Cancel (w_events w) cbID) (w_owner w), Ok tt)
    end
  end.

(** The session ID, padded with zeros to the 32 bytes of a topic. *)
Definition session_topic (sessId : bytes) : bytes := sessId ++ replicate (32 - length sessId) 0.

Definition sync_topics (m : t) (s : SyncState.t) : list bytes :=
  [m_eventSign m; session_topic (m_sessId m); SyncState.m_nonce s].

(** [newId] is the address of the new event description. *)
Definition RegisterSyncEvent_Locked (m : t) (w : World X) (ref : nat) (s : SyncState.t) (newId : Z)
  : World X * Z :=
  let eventDesc := EventDescription.create (m_syncContractAddr m) (sync_topics m s) (OnSync ref) in
  let '(events, id) := EventManager.Listen (w_events w) newId eventDesc in
  (mkWorld (w_states w) events (w_owner w), id).

(** [newRef] is the new sync state; [now] and [nonce] come from the platform.
    [disableRefresh]: [ECLIPSEMONITOR_DEV_DISABLE_REFRESH_SYNC], which
    [ECLIPSEMONITOR_DEV_MODE] defines; the first sync state is then the only one. *)
Definition NewSyncState (disableRefresh : bool) (m : t) (w : World X) (now : Z) (nonce : bytes) (newRef : nat) (newId : Z)
  : World X * t :=
  if disableRefresh then (w, m)
  else
    let w := mkWorld (w_states w) (EventManager.Cancel (w_events w) (m_syncEventCallbackId m)) (w_owner w) in
    let s := SyncState.create (m_maxWaitTime m) now nonce in
    let w := mkWorld (<[newRef := s]> (w_states w)) (w_events w) (w_owner w) in
    let '(w, id) := RegisterSyncEvent_Locked m w newRef s newId in
    (w, mk (m_maxWaitTime m) (m_sessId m) newRef (m_syncContractAddr m) (m_eventSign m) id).

(** The constructor: the base builds the first sync state, then the event is
    registered. *)
Definition create (maxWaitTime : Z) (sessionID syncContractAddr eventSign : bytes) (w : World X)
    (now : Z) (nonce : bytes) (newRef : nat) (newId : Z) : result Error (World X * t) :=
  sessId ← GetSessIdFromVec sessionID;
  let s := SyncState.create maxWaitTime now nonce in
  let w := mkWorld (<[newRef := s]> (w_states w)) (w_events w) (w_owner w) in
  let m := mk maxWaitTime sessId newRef syncContractAddr eventSign 0 in
  let '(w, id) := RegisterSyncEvent_Locked m w newRef s newId in
  Ok (w, mk maxWaitTime sessId newRef syncContractAddr eventSign id).
End world.
End SyncMsgMgr.

(** ** What a plan contains *)

(** Listeners are made by [EventDescription]'s constructor. *)
Definition described {Cb} (m : EventManager.t Cb) : Prop :=
  forall id e, m !! id = Some e -> e = EventDescription.create (EventDescription.m_contractAddr e)
    (EventDescription.m_topics e) (EventDescription.m_notifyCallback e).

(** The logs of a block a listener asks for. *)
Definition emitted {Cb} (e : EventDescription.t Cb) (logs : list ReceiptLogEntry.t) : list ReceiptLogEntry.t :=
  base.filter (fun l => ReceiptLogEntry.IsEventEmitted l (EventDescription.m_contractAddr e)
    (EventDescription.m_topics e)) logs.

Definition block_logs (r : ReceiptsMgr.t) : list ReceiptLogEntry.t := concat (ReceiptsMgr.m_receipts r).

(** What a log puts into the bloom of its block. *)
Definition log_hashes (l : ReceiptLogEntry.t) : list bytes :=
  Keccak256 (ReceiptLogEntry.m_contractAddr l) :: map Keccak256 (ReceiptLogEntry.m_topics l).

(** The header's bloom is the bloom of the logs. *)
Definition bloom_covers (hdr : HeaderMgr.t) (logs : list ReceiptLogEntry.t) : Prop :=
  all_bytes (HeaderMgr.m_bloomFilter hdr) /\
  zlen (HeaderMgr.m_bloomFilter hdr) = BloomFilter.sk_bloomByteSize /\
  be_val (HeaderMgr.m_bloomFilter hdr) = bloom_of (concat (map log_hashes logs)).

(** The plan for exactly the listeners that have logs, one entry each. *)
Definition exact_plan {Cb} (m : EventManager.t Cb) (logs : list ReceiptLogEntry.t)
    (plans : list (Z * Cb * list ReceiptLogEntry.t)) : Prop :=
  NoDup (map (fun p => fst (fst p)) plans) /\
  forall id cb ls, (id, cb, ls) ∈ plans <->
    exists e, m !! id = Some e /\ cb = EventDescription.m_notifyCallback e /\
      ls = emitted e logs /\ ls <> [].

Lemma topics_match_prefix inTopics topics :
  ReceiptLogEntry.topics_match inTopics topics = true <-> inTopics `prefix_of` topics.
Proof.
  revert topics. induction inTopics as [|t ts IH]; intros [|u us]; cbn.
  - split; [intros _; apply prefix_nil|done].
  - split; [intros _; apply prefix_nil|done].
  - split; [done|]. by intros ?%prefix_nil_not.
  - case_bool_decide as Hd.
    + split; [done|]. intros Hp. by apply prefix_cons_inv_1 in Hp.
    + destruct (decide (t = u)) as [->|]; [|done]. rewrite IH. split.
      * apply prefix_cons.
      * apply prefix_cons_inv_2.
Qed.

Lemma IsEventEmitted_spec l addr topics : ReceiptLogEntry.IsEventEmitted l addr topics = true <->
  ReceiptLogEntry.m_contractAddr l = addr /\ topics `prefix_of` ReceiptLogEntry.m_topics l.
Proof.
  unfold ReceiptLogEntry.IsEventEmitted. rewrite <-topics_match_prefix. case_bool_decide as Hd.
  - by split; [|intros [? _]].
  - destruct (decide (ReceiptLogEntry.m_contractAddr l = addr)); tauto.
Qed.

Lemma SearchEvents_emitted {Cb} r (e : EventDescription.t Cb) :
  ReceiptsMgr.SearchEvents r (EventDescription.m_contractAddr e) (EventDescription.m_topics e)
  = emitted e (block_logs r).
Proof.
  unfold ReceiptsMgr.SearchEvents, emitted, block_logs.
  induction (ReceiptsMgr.m_receipts r) as [|x xs IH]; [done|].
  cbn [ReceiptsMgr.SearchEvents_loop concat]. by rewrite IH, filter_app.
Qed.

Section plans.
Context {Cb : Type}.
Implicit Types (m : EventManager.t Cb) (es : list (Z * EventDescription.t Cb)).

(** [GenCallbackPlan_Locked] as a list function. *)
Lemma gen_plan_elem r es id cb ls : (id, cb, ls) ∈ EventManager.GenCallbackPlan_Locked r es <->
  exists e, (id, e) ∈ es /\ cb = EventDescription.m_notifyCallback e /\
    ls = emitted e (block_logs r) /\ ls <> [].
Proof.
  induction es as [|[i e] es IH]; cbn [EventManager.GenCallbackPlan_Locked].
  - split; [by intros ?%not_elem_of_nil|by intros (e & ?%not_elem_of_nil & _)].
  - rewrite SearchEvents_emitted. destruct (emitted e (block_logs r)) as [|l ll] eqn:E.
    + rewrite IH. split; [intros (f & ? & ?); exists f; by rewrite elem_of_cons; auto|].
      intros (f & [[= -> ->]|Hf]%elem_of_cons & -> & -> & Hne); [by rewrite E in Hne|by exists f].
    + rewrite elem_of_cons, IH. split.
      * intros [[= -> -> ->]|(f & ? & ?)]; [exists e; by rewrite E; split; [left|]|].
        exists f. by rewrite elem_of_cons; auto.
      * intros (f & [[= -> ->]|Hf]%elem_of_cons & -> & -> & Hne); [left; by rewrite E|].
        right. by exists f.
Qed.

Lemma gen_plan_ids r es : NoDup (map fst es) ->
  NoDup (map (fun p => fst (fst p)) (EventManager.GenCallbackPlan_Locked r es)).
Proof.
  induction es as [|[i e] es IH]; cbn; [done|]. intros [Hi Hn]%NoDup_cons.
  case_match; [by apply IH|]. cbn. constructor; [|by apply IH].
  intros ([[j cb] ls] & Hj & Hin)%list_elem_of_fmap. cbn in Hj. subst j.
  apply gen_plan_elem in Hin as (e' & Hin & _). apply Hi.
  apply list_elem_of_fmap. by exists (i, e').
Qed.

Lemma bloomed_elem m bloom id e : (id, e) ∈ EventManager.BloomEventDesc_Locked m bloom <->
  m !! id = Some e /\ BloomFilter.AreHashesInBloom bloom (EventDescription.m_hashes e) = true.
Proof.
  unfold EventManager.BloomEventDesc_Locked, EventManager.entries.
  rewrite list_elem_of_filter, elem_of_map_to_list, Is_true_true. cbn. tauto.
Qed.

Lemma bloomed_ids m bloom : NoDup (map fst (EventManager.BloomEventDesc_Locked m bloom)).
Proof.
  unfold EventManager.BloomEventDesc_Locked, EventManager.entries.
  eapply sublist_NoDup; [apply (NoDup_fst_map_to_list m)|].
  apply (fmap_sublist fst), sublist_filter.
Qed.

(** A listener with a log in the block is found through the bloom. *)
Lemma emitted_in_bloom m hdr logs id e : described m -> bloom_covers hdr logs ->
  m !! id = Some e -> emitted e logs <> [] ->
  BloomFilter.AreHashesInBloom (HeaderMgr.m_bloomFilter hdr) (EventDescription.m_hashes e) = true.
Proof.
  intros Hd (Hb & Hl & Hv) Hm Hne. rewrite (Hd _ _ Hm).
  destruct (emitted e logs) as [|l ll] eqn:E; [done|].
  assert (l ∈ emitted e logs) as Hin by (rewrite E; left).
  apply list_elem_of_filter in Hin as [He Hin]. apply Is_true_true, IsEventEmitted_spec in He as [Ha Ht].
  eapply bloom_covered; [done..| |].
  - apply Forall_cons_2; [apply Keccak256_bytes|]. apply Forall_fmap, Forall_true. intros t. apply Keccak256_bytes.
  - cbn [EventDescription.create EventDescription.m_hashes]. intros h Hh.
    apply list_elem_of_In, in_concat. exists (log_hashes l).
    split; [by apply in_map, list_elem_of_In|]. apply list_elem_of_In.
    unfold log_hashes. rewrite Ha. apply elem_of_cons in Hh as [->|Hh]; [left|right].
    destruct Ht as [k ->]. rewrite map_app. apply elem_of_app. by left.
Qed.

(** With the root check passed, the plan is exact for the receipts fetched. *)
Lemma plan_exact m hdr getter r :
  described m -> bloom_covers hdr (block_logs r) ->
  getter (HeaderMgr.m_blkNum hdr) = Ok r ->
  ReceiptsMgr.m_rootHashBytes r = EthHeader.ReceiptsRoot (HeaderMgr.m_rawHeader hdr) ->
  exists plans, EventManager.PlanEvents m hdr getter = Ok plans /\ exact_plan m (block_logs r) plans.
Proof.
  intros Hd Hc Hg Hr. unfold EventManager.PlanEvents.
  set (es := EventManager.BloomEventDesc_Locked m (HeaderMgr.m_bloomFilter hdr)).
  exists (EventManager.GenCallbackPlan_Locked r es). split.
  - destruct es; [done|]. rewrite Hg. cbn. by rewrite bool_decide_eq_false_2 by (intros H; by apply H).
  - split; [apply gen_plan_ids, bloomed_ids|]. intros id cb ls. rewrite gen_plan_elem. subst es.
    split; intros (e & Hin & -> & -> & Hne); exists e; split_and!; try done.
    + by apply bloomed_elem in Hin as [? _].
    + apply bloomed_elem. split; [done|]. by apply (emitted_in_bloom m hdr (block_logs r) id).
Qed.

(** A plan is made from nothing, or from receipts that passed the root check. *)
Lemma PlanEvents_inv m hdr getter plans : EventManager.PlanEvents m hdr getter = Ok plans ->
  plans = [] \/ exists r, getter (HeaderMgr.m_blkNum hdr) = Ok r /\
    ReceiptsMgr.m_rootHashBytes r = EthHeader.ReceiptsRoot (HeaderMgr.m_rawHeader hdr) /\
    plans = EventManager.GenCallbackPlan_Locked r
      (EventManager.BloomEventDesc_Locked m (HeaderMgr.m_bloomFilter hdr)).
Proof.
  unfold EventManager.PlanEvents. destruct (EventManager.BloomEventDesc_Locked _ _) as [|e es].
  { intros [= <-]. by left. }
  intros H. bind_ok H. case_bool_decide as Hr; [done|]. injection H as <-. right.
  exists a. by split_and!.
Qed.
End plans.

(** ** No event of a block is missed or forged *)

(** C6. Let [rs] be the receipts of a block, whose trie has the header's
    receipts root and whose logs the header's bloom covers, and let the host
    deliver the receipts [rs'].  Either the events are planned exactly: every
    listener that has logs in the block gets all of them, once and in order, and
    no other listener gets any; or the host did not deliver [rs] and the check
    throws or a digest collision is exhibited. *)
Theorem no_event_missed {Cb} (m : EventManager.t Cb) hdr rs rs' r :
  described m ->
  zlen rs < 2 ^ 64 -> zlen rs' < 2 ^ 64 -> Forall all_bytes rs -> Forall all_bytes rs' ->
  items_sizes_ok rs -> items_sizes_ok rs' ->
  ReceiptsMgr.create (map OBytes rs) = Ok r ->
  ReceiptsMgr.m_rootHashBytes r = EthHeader.ReceiptsRoot (HeaderMgr.m_rawHeader hdr) ->
  bloom_covers hdr (block_logs r) ->
  let planned := EventManager.PlanEvents m hdr (fun _ => ReceiptsMgr.create (map OBytes rs')) in
  (exists plans, planned = Ok plans /\ exact_plan m (block_logs r) plans) \/
  (rs' <> rs /\ ((exists e, planned = Throw e) \/ items_collision rs' rs)).
Proof.
  intros Hd L L' B B' Z Z' C Hroot Hbl planned.
  destruct (decide (rs' = rs)) as [->|Hne]; [left; by apply plan_exact|].
  destruct (plan_exact m hdr (fun _ => Ok r) r Hd Hbl eq_refl Hroot) as (pl & Hpl & Hex).
  subst planned. unfold EventManager.PlanEvents in *.
  destruct (EventManager.BloomEventDesc_Locked _ _) as [|e0 es]; [left; by exists pl|].
  right. split; [done|]. destruct (ReceiptsMgr.create (map OBytes rs')) as [r'|e] eqn:C'; [|left; by exists e].
  cbn. case_bool_decide as Hr'; [left; by eexists|].
  right. destruct (receipts_same_root rs' rs r' r) as [->|Hc]; try done.
  by rewrite Hroot.
Qed.

(** A listener for the sample log and one for nothing in the block. *)
Definition sample_listener (queue : nat) (topics : list bytes) : EventDescription.t Callback :=
  EventDescription.create (replicate 20 0xAA) topics (OnUser (NotifyEvent queue)).
Definition sample_listeners : EventManager.t Callback :=
  <[16 := sample_listener 1 [replicate 32 1]]> (<[32 := sample_listener 2 [replicate 32 9]]> ∅).
Definition sample_block : list bytes := [sample_receipt].
Definition sample_block_header : HeaderMgr.t :=
  HeaderMgr.mk (EthHeader.of_items (<[5%nat := ReceiptsMgr.m_rootHashBytes (sample_mgr_of sample_block)]>
      (EthHeader.items sample_header)))
    100 (be_bytes 256 (bloom_of (concat (map log_hashes [sample_log])))) [] 912104 0 512 false.

Lemma sample_listeners_described : described sample_listeners.
Proof.
  intros id e. unfold sample_listeners. intros [[_ <-]|[_ H]]%lookup_insert_Some; [done|].
  apply lookup_insert_Some in H as [[_ <-]|[_ H]]; [done|]. by apply lookup_empty_Some in H.
Qed.

Lemma no_event_missed_witness :
  let planned := EventManager.PlanEvents sample_listeners sample_block_header
    (fun _ => ReceiptsMgr.create (map OBytes sample_block)) in
  (exists plans, planned = Ok plans /\ exact_plan sample_listeners (block_logs (sample_mgr_of sample_block)) plans)
  \/ (sample_block <> sample_block /\ ((exists e, planned = Throw e) \/ items_collision sample_block sample_block)).
Proof.
  apply (no_event_missed sample_listeners sample_block_header sample_block sample_block (sample_mgr_of sample_block));
    [ apply sample_listeners_described | vm_compute; reflexivity | vm_compute; reflexivity
    | apply (bool_decide_unpack _); vm_compute; exact I
    | apply (bool_decide_unpack _); vm_compute; exact I
    | apply items_sizes_decided; apply (bool_decide_unpack _); vm_compute; exact I
    | apply items_sizes_decided; apply (bool_decide_unpack _); vm_compute; exact I
    | apply is_ok_or; lazy -[Keccak256]; reflexivity
    | lazy -[sample_mgr_of ReceiptsMgr.m_rootHashBytes]; reflexivity | ].
  split_and!; [apply all_bytes_be_bytes|by cbn [sample_block_header HeaderMgr.m_bloomFilter]; rewrite length_be_bytes|].
  replace (block_logs (sample_mgr_of sample_block)) with [sample_log]
    by (lazy -[Keccak256]; reflexivity).
  apply bloom_bytes_val.
Defined.

(** ** Reachable worlds of a monitor *)

(** One call of [CheckEvents]: the header, and where the receipts come from. *)
Definition check : Type := HeaderMgr.t * (Z -> result Error ReceiptsMgr.t).

Section sync.
Context {X : Type} `{Handler : UserHandler X, Laws : !UserHandlerLaws X}.
Local Abbreviation World := (World X).
Context (maxWaitTime : Z) (sessionID syncContractAddr eventSign : bytes).

(** The events the monitor and its users can cause, with the headers checked so
    far, the last first.  Fresh references and addresses are not in use. *)
Inductive reach : list check -> World -> SyncMsgMgr.t -> Prop :=
| reach_create now nonce ref id owner w m :
    SyncMsgMgr.create maxWaitTime sessionID syncContractAddr eventSign
      (mkWorld ∅ EventManager.create owner) now nonce ref id = Ok (w, m) ->
    reach [] w m
| reach_new h w m dev now nonce ref id w' m' :
    reach h w m -> w_states w !! ref = None ->
    EventManager.Cancel (w_events w) (SyncMsgMgr.m_syncEventCallbackId m) !! id = None ->
    SyncMsgMgr.NewSyncState dev m w now nonce ref id = (w', m') ->
    reach h w' m'
| reach_listen h w m user addr topics id :
    reach h w m -> w_events w !! id = None ->
    reach h (mkWorld (w_states w) (fst (EventManager.Listen (w_events w) id
      (EventDescription.create addr topics (OnUser user)))) (w_owner w)) m
| reach_cancel h w m id :
    reach h w m -> reach h (mkWorld (w_states w) (EventManager.Cancel (w_events w) id) (w_owner w)) m
| reach_owner h w m owner :
    reach h w m -> reach h (mkWorld (w_states w) (w_events w) owner) m
| reach_check h w m hdr getter w' r :
    reach h w m ->
    EventManager.CheckEvents SyncMsgMgr.handler (w_events w) hdr getter w = (w', r) ->
    (forall what, r <> Throw (Undefined what)) ->
    reach ((hdr, getter) :: h) w' m.

(** The topics of the sync message for a state. *)
Definition message_topics (s : SyncState.t) : list bytes :=
  [eventSign; SyncMsgMgr.session_topic sessionID; SyncState.m_nonce s].

(** A log is the sync message for a state. *)
Definition is_message (log : ReceiptLogEntry.t) (s : SyncState.t) : Prop :=
  ReceiptLogEntry.m_contractAddr log = syncContractAddr /\
  message_topics s `prefix_of` ReceiptLogEntry.m_topics log.

(** Some header that was checked carries the message of the state, in receipts
    that passed the root check, and in time. *)
Definition synced_by (h : list check) (s : SyncState.t) : Prop :=
  exists hdr getter r log, (hdr, getter) ∈ h /\ getter (HeaderMgr.m_blkNum hdr) = Ok r /\
    ReceiptsMgr.m_rootHashBytes r = EthHeader.ReceiptsRoot (HeaderMgr.m_rawHeader hdr) /\
    log ∈ block_logs r /\ is_message log s /\
    u64 (HeaderMgr.m_trustedTime hdr - SyncState.m_genTime s) <= maxWaitTime.

(** The listener for a state. *)
Definition sync_listener (s : SyncState.t) (ref : nat) : EventDescription.t Callback :=
  EventDescription.create syncContractAddr (message_topics s) (OnSync ref).

Definition states_ok (h : list check) (states : gmap nat SyncState.t) : Prop :=
  forall ref s, states !! ref = Some s -> SyncState.m_maxWaitTime s = maxWaitTime /\
    (SyncState.m_isSynced s = true -> synced_by h s).

Definition events_ok (w : World) : Prop :=
  forall id e ref, w_events w !! id = Some e -> EventDescription.m_notifyCallback e = OnSync ref ->
    exists s, w_states w !! ref = Some s /\ e = sync_listener s ref.

Definition mgr_ok (w : World) (m : SyncMsgMgr.t) : Prop :=
  SyncMsgMgr.m_maxWaitTime m = maxWaitTime /\ SyncMsgMgr.m_sessId m = sessionID /\
  SyncMsgMgr.m_syncContractAddr m = syncContractAddr /\ SyncMsgMgr.m_eventSign m = eventSign /\
  is_Some (w_states w !! SyncMsgMgr.m_lastSyncState m).

(** A sync state only ever becomes synced. *)
Definition states_grow (st st' : gmap nat SyncState.t) : Prop :=
  forall ref s, st !! ref = Some s -> exists b, st' !! ref
    = Some (SyncState.mk (SyncState.m_maxWaitTime s) (SyncState.m_genTime s) (SyncState.m_nonce s) b) /\
      (SyncState.m_isSynced s = true -> b = true).

Lemma Cancel_lookup {Cb} (m : EventManager.t Cb) id id' e :
  EventManager.Cancel m id !! id' = Some e -> m !! id' = Some e.
Proof. unfold EventManager.Cancel. case_match; [|done]. by intros [_ ?]%lookup_delete_Some. Qed.

Lemma Listen_lookup {Cb} (m : EventManager.t Cb) id d id' e :
  fst (EventManager.Listen m id d) !! id' = Some e -> m !! id' = Some e \/ (id' = id /\ e = d).
Proof.
  cbn. case_match; [by left|]. intros [[-> ->]|[_ ?]]%lookup_insert_Some; [by right|by left].
Qed.

Lemma states_grow_refl st : states_grow st st.
Proof. intros ref s Hs. exists (SyncState.m_isSynced s). by destruct s. Qed.

Lemma states_grow_trans w1 w2 w3 : states_grow w1 w2 -> states_grow w2 w3 -> states_grow w1 w3.
Proof. intros H1 H2 ref s Hs. 
  destruct (H1 _ _ Hs) as (b & Hb & Hi). destruct (H2 _ _ Hb) as (b' & Hb' & Hi'). exists b'. auto.
Qed.

(** What a callback does to a world: states grow, and the listeners that are
    there after it were there or are of a user. *)
Definition progress (w w' : World) : Prop :=
  states_grow (w_states w) (w_states w') /\
  forall id e, w_events w' !! id = Some e -> w_events w !! id = Some e \/ user_listener e.

Lemma events_ok_mono w w' : events_ok w -> progress w w' -> events_ok w'.
Proof.
  intros Hw [Hg Hsub] id e ref He Hcb. apply Hsub in He as [He|(addr & topics & user & ->)]; [|done].
  destruct (Hw id e ref He Hcb) as (s & Hs & ->). destruct (Hg _ _ Hs) as (b & Hb & _). by eexists.
Qed.

Lemma progress_refl w : progress w w.
Proof. split; [apply states_grow_refl|by left]. Qed.

Lemma progress_trans w1 w2 w3 : progress w1 w2 -> progress w2 w3 -> progress w1 w3.
Proof.
  intros [G1 E1] [G2 E2]. split; [by eapply states_grow_trans|].
  intros id e [He|?]%E2; [by apply E1|by right].
Qed.

(** A callback may run: if it is a sync handler, its state exists, and a
    receipt in time is a receipt of the message. *)
Definition may_run (h : list check) (hdr : HeaderMgr.t) (cb : Callback) (w : World) : Prop :=
  forall ref, cb = OnSync ref -> exists s, w_states w !! ref = Some s /\
    (u64 (HeaderMgr.m_trustedTime hdr - SyncState.m_genTime s) <= maxWaitTime -> synced_by h s).

Lemma may_run_grow h hdr cb w w' : states_grow (w_states w) (w_states w') -> may_run h hdr cb w -> may_run h hdr cb w'.
Proof. intros Hg Hm ref Hr. destruct (Hm ref Hr) as (s & Hs & Hj). destruct (Hg _ _ Hs) as (b & Hb & _). by eexists. Qed.

Lemma handler_run h hdr cb log id w :
  states_ok h (w_states w) -> may_run h hdr cb w ->
  let w' := (SyncMsgMgr.handler cb hdr log id w).1 in states_ok h (w_states w') /\ progress w w'.
Proof using Laws.
  intros Hst Hm. destruct cb as [ref|user]; cbn.
  2:{ destruct (user_run user hdr log id w) as [w' r] eqn:E. destruct (user_frame _ _ _ _ _ _ _ E) as [Es He].
      cbn. rewrite Es. split; [done|]. split; [rewrite Es; apply states_grow_refl|done]. }
  destruct (Hm ref eq_refl) as (s & Hs & Hj). rewrite Hs. cbn [fst w_states w_events].
  destruct (Hst _ _ Hs) as [Hmax Hsy].
  assert (forall id' e, EventManager.Cancel (w_events w) id !! id' = Some e ->
    w_events w !! id' = Some e \/ user_listener e) as Hsub by (intros; left; by eapply Cancel_lookup).
  destruct (SyncState.m_isSynced s) eqn:Es.
  { split; [done|]. split; [apply states_grow_refl|done]. }
  set (s' := SyncState.SetSynced s (HeaderMgr.m_trustedTime hdr)).
  assert (s' = s \/ s' = SyncState.mk (SyncState.m_maxWaitTime s) (SyncState.m_genTime s) (SyncState.m_nonce s) true
    /\ synced_by h s') as Hs'.
  { subst s'. unfold SyncState.SetSynced. rewrite Hmax. case_match eqn:Ht; [|by left].
    apply Z.leb_le in Ht. right. split; [done|]. by apply Hj. }
  split; [|split; [|done]].
  - intros r t [[<- <-]|[_ Ht]]%lookup_insert_Some; [|exact (Hst _ _ Ht)].
    destruct Hs' as [->|[E Hsb]]; [exact (Hst _ _ Hs)|]. split; [|done]. by rewrite E.
  - intros r t Ht. cbn [w_states]. destruct (decide (r = ref)) as [->|Hne].
    + rewrite lookup_insert_eq. assert (t = s) as -> by congruence.
      destruct Hs' as [->|[-> _]]; [exists (SyncState.m_isSynced s); by destruct s|by exists true].
    + rewrite lookup_insert_ne by done. exists (SyncState.m_isSynced t). rewrite Ht. by destruct t.
Qed.

(** A call keeps the states and makes progress, whatever it returns. *)
Definition keeps (h : list check) (w w' : World) : Prop :=
  states_ok h (w_states w) -> states_ok h (w_states w') /\ progress w w'.

Lemma keeps_trans h w1 w2 w3 : keeps h w1 w2 -> keeps h w2 w3 -> keeps h w1 w3.
Proof.
  intros H1 H2 Hst. destruct (H1 Hst) as [Hst2 Hp1]. destruct (H2 Hst2) as [Hst3 Hp2].
  split; [done|by eapply progress_trans].
Qed.

Lemma run_logs_run h hdr cb id logs w :
  states_ok h (w_states w) -> may_run h hdr cb w ->
  let w' := (EventManager.run_logs SyncMsgMgr.handler hdr id cb logs w).1 in
  states_ok h (w_states w') /\ progress w w'.
Proof using Laws.
  intros Hst. revert w Hst. induction logs as [|l ls IH]; intros w Hst Hm; cbn [EventManager.run_logs].
  { split; [done|apply progress_refl]. }
  pose proof (handler_run h hdr cb l id w Hst Hm) as Hr.
  apply (stx_bind_inv (keeps h)); [apply keeps_trans|by intros _| |done].
  intros [] w1 E _. rewrite E in Hr. destruct Hr as [Hst1 [Hg _]]. by apply IH, (may_run_grow _ _ _ w).
Qed.

Lemma conduct_run h hdr plans w :
  states_ok h (w_states w) -> Forall (fun p => may_run h hdr (snd (fst p)) w) plans ->
  let w' := (EventManager.ConductCallbackPlan SyncMsgMgr.handler hdr plans w).1 in
  states_ok h (w_states w') /\ progress w w'.
Proof using Laws.
  intros Hst. revert w Hst. induction plans as [|[[id cb] ls] ps IH]; intros w Hst Hm;
    cbn [EventManager.ConductCallbackPlan].
  { split; [done|apply progress_refl]. }
  apply Forall_cons in Hm as [Hcb Hm]. pose proof (run_logs_run h hdr cb id ls w Hst Hcb) as Hr.
  apply (stx_bind_inv (keeps h)); [apply keeps_trans|by intros _| |done].
  intros [] w1 E _. rewrite E in Hr. destruct Hr as [Hst1 [Hg _]]. apply IH; [done|].
  eapply Forall_impl; [exact Hm|]. intros p. by apply may_run_grow.
Qed.

(** The callbacks of a plan may run once the header is in the history. *)
Lemma plan_may_run h w hdr getter plans : events_ok w ->
  EventManager.PlanEvents (w_events w) hdr getter = Ok plans ->
  Forall (fun p => may_run ((hdr, getter) :: h) hdr (snd (fst p)) w) plans.
Proof.
  intros He [->|(r & Hg & Hr & ->)]%PlanEvents_inv; [constructor|].
  apply Forall_forall. intros [[id cb] ls] (e & Hin & -> & -> & Hne)%gen_plan_elem ref Hcb. cbn in Hcb.
  apply bloomed_elem in Hin as [Hm _]. destruct (He _ _ _ Hm Hcb) as (s & Hs & ->).
  exists s. split; [done|]. intros Ht.
  destruct (emitted _ _) as [|l ll] eqn:El; [done|].
  assert (l ∈ emitted (sync_listener s ref) (block_logs r)) as Hl by (rewrite El; left).
  apply list_elem_of_filter in Hl as [Hev Hl]. apply Is_true_true, IsEventEmitted_spec in Hev.
  exists hdr, getter, r, l. split_and!; try done. left.
Qed.

(** The exception is one a user's callback has thrown. *)
Definition user_throws (e : Error) : Prop :=
  exists user hdr log id w w', user_run user hdr log id w = (w', Throw e).

(** Callbacks that may run return, unless a user's throws. *)
Definition returns {A} (r : result Error A) : Prop :=
  match r with Ok _ => True | Throw e => user_throws e end.

Lemma handler_returns h hdr cb log id w : may_run h hdr cb w ->
  returns (SyncMsgMgr.handler cb hdr log id w).2.
Proof.
  intros Hm. destruct cb as [ref|user]; cbn.
  - destruct (Hm ref eq_refl) as (s & -> & _). done.
  - destruct (user_run user hdr log id w) as [w' [[]|e]] eqn:E; [done|]. by exists user, hdr, log, id, w, w'.
Qed.

Lemma stx_bind_returns {S A B} (m : stx S Error A) (f : A -> stx S Error B) s :
  returns (m s).2 -> (forall a s1, m s = (s1, Ok a) -> returns (f a s1).2) -> returns ((m ≫= f) s).2.
Proof. unfold mbind, stx_bind. destruct (m s) as [s1 [a|e]]; cbn; auto. Qed.

Lemma run_logs_returns h hdr cb id logs w :
  states_ok h (w_states w) -> may_run h hdr cb w ->
  returns (EventManager.run_logs SyncMsgMgr.handler hdr id cb logs w).2.
Proof using Laws.
  intros Hst. revert w Hst. induction logs as [|l ls IH]; intros w Hst Hm; [done|].
  apply stx_bind_returns; [by apply (handler_returns h)|]. intros [] w1 E.
  pose proof (handler_run h hdr cb l id w Hst Hm) as Hr. rewrite E in Hr. destruct Hr as [Hst1 [Hg _]].
  by apply IH, (may_run_grow _ _ _ w).
Qed.

Lemma conduct_returns h hdr plans w :
  states_ok h (w_states w) -> Forall (fun p => may_run h hdr (snd (fst p)) w) plans ->
  returns (EventManager.ConductCallbackPlan SyncMsgMgr.handler hdr plans w).2.
Proof using Laws.
  intros Hst. revert w Hst. induction plans as [|[[id cb] ls] ps IH]; intros w Hst Hm; [done|].
  apply Forall_cons in Hm as [Hcb Hm]. apply stx_bind_returns; [by apply (run_logs_returns h)|]. intros [] w1 E.
  pose proof (run_logs_run h hdr cb id ls w Hst Hcb) as Hr. rewrite E in Hr. destruct Hr as [Hst1 [Hg _]].
  apply IH; [done|]. eapply Forall_impl; [exact Hm|]. intros p. by apply may_run_grow.
Qed.

(** The state is there, generated at [g], and synced once [b] is. *)
Definition has_state (w : World) (ref : nat) (g : Z) (b : bool) : Prop :=
  exists s, w_states w !! ref = Some s /\ SyncState.m_genTime s = g /\
    (b = true -> SyncState.m_isSynced s = true).

Lemma has_state_progress w w' ref g b : progress w w' -> has_state w ref g b -> has_state w' ref g b.
Proof.
  intros [Hg _] (s & Hs & Hgen & Hb). destruct (Hg _ _ Hs) as (b' & Hs' & Hi).
  eexists. split; [exact Hs'|]. split; [done|]. intros E. auto.
Qed.

(** The sync handler, on a message in time. *)
Lemma handler_syncs h hdr ref log id w g : states_ok h (w_states w) ->
  u64 (HeaderMgr.m_trustedTime hdr - g) <= maxWaitTime -> has_state w ref g false ->
  has_state (SyncMsgMgr.handler (OnSync ref) hdr log id w).1 ref g true.
Proof.
  intros Hst Ht (s & Hs & Hg & _). destruct (Hst _ _ Hs) as [Hmax _]. cbn. rewrite Hs.
  unfold has_state. cbn [fst w_states].
  destruct (SyncState.m_isSynced s) eqn:Ei; [by exists s|].
  unfold SyncState.SetSynced. rewrite Hg, Hmax, (proj2 (Z.leb_le _ _)) by done.
  rewrite lookup_insert_eq. eexists. split; [done|]. by split.
Qed.

Lemma conduct_syncs h hdr plans w w' ref id ls g :
  states_ok h (w_states w) -> Forall (fun p => may_run h hdr (snd (fst p)) w) plans ->
  EventManager.ConductCallbackPlan SyncMsgMgr.handler hdr plans w = (w', Ok tt) ->
  u64 (HeaderMgr.m_trustedTime hdr - g) <= maxWaitTime -> has_state w ref g false ->
  (id, OnSync ref, ls) ∈ plans -> ls <> [] -> has_state w' ref g true.
Proof using Laws.
  intros Hst Hm H Ht Hs Hin Hne. revert w Hst Hm H Hs.
  induction plans as [|[[i cb] l0] ps IH]; intros w Hst Hm H Hs; [by apply not_elem_of_nil in Hin|].
  apply Forall_cons in Hm as [Hcb Hm]. cbn [EventManager.ConductCallbackPlan] in H.
  apply stx_bind_ok in H as ([] & a & E & H).
  pose proof (run_logs_run h hdr cb i l0 w Hst Hcb) as Hr. rewrite E in Hr. destruct Hr as [Hst' Hp].
  assert (Forall (fun p => may_run h hdr (snd (fst p)) a) ps) as Hm'.
  { eapply Forall_impl; [exact Hm|]. intros p. apply may_run_grow, Hp. }
  pose proof (conduct_run h hdr ps a Hst' Hm') as Hr. rewrite H in Hr. destruct Hr as [_ Hp'].
  apply elem_of_cons in Hin as [Heq|Hin].
  2:{ apply (IH Hin a); try done. by eapply has_state_progress. }
  injection Heq as <- <- <-. apply (has_state_progress a w' ref g true Hp').
  destruct ls as [|l ls]; [done|]. cbn [EventManager.run_logs] in E. apply stx_bind_ok in E as ([] & a0 & E0 & E).
  pose proof (handler_run h hdr (OnSync ref) l id w Hst Hcb) as Hr.
  pose proof (handler_syncs h hdr ref l id w g Hst Ht Hs) as Hsy. rewrite E0 in Hr, Hsy. destruct Hr as [Hst0 [Hg0 He0]].
  pose proof (run_logs_run h hdr (OnSync ref) id ls a0 Hst0 ltac:(by eapply may_run_grow)) as Hr.
  rewrite E in Hr. destruct Hr as [_ Hp1]. by apply (has_state_progress a0 a ref g true Hp1).
Qed.

Lemma synced_by_weaken h c s : synced_by h s -> synced_by (c :: h) s.
Proof.
  intros (hdr & g & r & l & Hin & Hrest). exists hdr, g, r, l. split; [by right|done].
Qed.

Lemma states_ok_weaken h c st : states_ok h st -> states_ok (c :: h) st.
Proof.
  intros H ref s Hs. destruct (H _ _ Hs) as [? Hsy]. split; [done|].
  intros Hi. by apply synced_by_weaken, Hsy.
Qed.

(** The invariant of reachable worlds. *)
Definition world_ok (h : list check) (w : World) (m : SyncMsgMgr.t) : Prop :=
  states_ok h (w_states w) /\ events_ok w /\ mgr_ok w m.

(** A new state and its listener keep the invariant. *)
Lemma register_ok h w m ref id now nonce w' id' m' :
  states_ok h (w_states w) -> events_ok w -> w_states w !! ref = None -> w_events w !! id = None ->
  SyncMsgMgr.m_sessId m = sessionID -> SyncMsgMgr.m_syncContractAddr m = syncContractAddr ->
  SyncMsgMgr.m_eventSign m = eventSign ->
  SyncMsgMgr.RegisterSyncEvent_Locked m
    (mkWorld (<[ref := SyncState.create maxWaitTime now nonce]> (w_states w)) (w_events w) (w_owner w)) ref
    (SyncState.create maxWaitTime now nonce) id = (w', id') ->
  m' = SyncMsgMgr.mk maxWaitTime sessionID ref syncContractAddr eventSign id' ->
  world_ok h w' m' /\ id' = id /\
  w_events w' !! id = Some (sync_listener (SyncState.create maxWaitTime now nonce) ref).
Proof.
  intros Hst He Hr Hid Es Ea Eg. unfold SyncMsgMgr.RegisterSyncEvent_Locked, EventManager.Listen.
  cbn [w_events w_states]. rewrite Hid. intros [= <- <-] ->. cbn [w_events].
  rewrite lookup_insert_eq. split; [|split; [done|]].
  2:{ unfold sync_listener, SyncMsgMgr.sync_topics, message_topics. by rewrite Es, Ea, Eg. }
  split; [|split].
  - intros r t. cbn [w_states]. intros [[<- <-]|[_ Ht]]%lookup_insert_Some; [|exact (Hst _ _ Ht)]. by split.
  - intros i e r. cbn [w_states w_events]. intros [[<- <-]|[_ Hi]]%lookup_insert_Some.
    + intros [= ->]. eexists. rewrite lookup_insert_eq. split; [done|].
      unfold sync_listener, SyncMsgMgr.sync_topics, message_topics. by rewrite Es, Ea, Eg.
    + intros Hcb. destruct (He _ _ _ Hi Hcb) as (s & Hs & ->). exists s.
      rewrite lookup_insert_ne by congruence. done.
  - split_and!; try done. cbn. rewrite lookup_insert_eq. by eexists.
Qed.

(** Listeners that go away, and what belongs to the owner, do not matter. *)
Lemma events_ok_sub (w : World) ev owner : events_ok w ->
  (forall i e, ev !! i = Some e -> w_events w !! i = Some e \/ user_listener e) ->
  events_ok (mkWorld (w_states w) ev owner).
Proof. intros He Hs. eapply events_ok_mono; [exact He|]. split; [apply states_grow_refl|done]. Qed.

Lemma reach_ok h w m : reach h w m -> world_ok h w m.
Proof using Laws.
  induction 1 as [now nonce ref id owner w m HC|h w m dev now nonce ref id w' m' _ (Hst & He & Hm) Hr Hid HC
    |h w m user addr topics id _ (Hst & He & Hm) Hid|h w m id _ (Hst & He & Hm)|h w m owner _ (Hst & He & Hm)
    |h w m hdr getter w' r _ (Hst & He & Hm) HC _].
  - unfold SyncMsgMgr.create in HC. bind_ok HC. unfold SyncMsgMgr.GetSessIdFromVec in E.
    destruct (negb _); [done|]. injection E as <-.
    destruct (SyncMsgMgr.RegisterSyncEvent_Locked _ _ _ _ _) as [w0 id0] eqn:E. injection HC as <- <-.
    by eapply (register_ok [] (mkWorld ∅ EventManager.create owner)) in E as [? _].
  - unfold SyncMsgMgr.NewSyncState in HC. destruct dev; [by injection HC as <- <-|]. destruct Hm as (E1 & E2 & E3 & E4 & _). cbn [w_states w_events w_owner] in HC.
    rewrite E1, E2, E3, E4 in HC.
    destruct (SyncMsgMgr.RegisterSyncEvent_Locked _ _ _ _ _) as [w0 id0] eqn:E. injection HC as <- <-.
    eapply (register_ok h (mkWorld (w_states w) (EventManager.Cancel (w_events w) _) (w_owner w))) in E as [? _]; try done.
    apply events_ok_sub; [done|]. intros i e Hi%Cancel_lookup. by left.
  - split; [done|]. split; [|done]. apply events_ok_sub; [done|]. intros i e.
    intros [Hi|[-> ->]]%Listen_lookup; [by left|right; by eexists _, _, _].
  - split; [done|]. split; [|done]. apply events_ok_sub; [done|]. intros i e Hi%Cancel_lookup. by left.
  - split; [done|]. split; [|done]. apply events_ok_sub; [done|]. by left.
  - unfold EventManager.CheckEvents in HC. destruct (EventManager.PlanEvents _ _ _) as [a|e] eqn:E.
    2:{ injection HC as <- <-. split; [by apply states_ok_weaken|done]. }
    pose proof (conduct_run ((hdr, getter) :: h) hdr a w) as Hr. rewrite HC in Hr.
    destruct Hr as [Hst' [Hg Hs]]; [by apply states_ok_weaken|by apply plan_may_run|].
    split; [done|]. split; [by eapply events_ok_mono|].
    destruct Hm as (? & ? & ? & ? & s & Hls). split_and!; try done.
    destruct (Hg _ _ Hls) as (b & Hb & _). cbn [fst] in *. rewrite Hb. by eexists.
Qed.

(** C7. Safety of the sync handshake: in every world the monitor can reach -
    through fresh sync states, any user listeners and cancellations, and checks
    of any headers with any receipts the host delivers, in which the callbacks of
    users may do what they like with their own state and listeners and may
    throw - a sync state is synced
    only if a header that was checked carries a log of the sync contract with
    the event signature, the session ID and the nonce of that very state, in
    receipts with the header's root, within the maximal wait after the nonce
    was generated. *)
Theorem synced_only_by_message h w m ref s :
  reach h w m -> w_states w !! ref = Some s -> SyncState.m_isSynced s = true -> synced_by h s.
Proof using Laws. intros (Hst & _)%reach_ok Hs. by apply (Hst _ _ Hs). Qed.

(** The check of a block leaves the state synced, unless a user's callback throws. *)
Definition syncs (getter : Z -> result Error ReceiptsMgr.t) (hdr : HeaderMgr.t) (w : World) (ref : nat) : Prop :=
  exists w' r, EventManager.CheckEvents SyncMsgMgr.handler (w_events w) hdr getter w = (w', r) /\
    match r with
    | Ok _ => exists s', w_states w' !! ref = Some s' /\ SyncState.m_isSynced s' = true
    | Throw e => user_throws e
    end.

(** A message in time syncs the state it is for. *)
Lemma message_run h w m hdr getter r id ref s log :
  reach h w m -> described (w_events w) ->
  w_events w !! id = Some (sync_listener s ref) -> w_states w !! ref = Some s ->
  getter (HeaderMgr.m_blkNum hdr) = Ok r ->
  ReceiptsMgr.m_rootHashBytes r = EthHeader.ReceiptsRoot (HeaderMgr.m_rawHeader hdr) ->
  bloom_covers hdr (block_logs r) -> log ∈ block_logs r -> is_message log s ->
  u64 (HeaderMgr.m_trustedTime hdr - SyncState.m_genTime s) <= maxWaitTime ->
  syncs getter hdr w ref.
Proof using Laws.
  intros (Hst & He & _)%reach_ok Hd Hid Hs Hg Hr Hbl Hlog Hmsg Ht.
  destruct (plan_exact _ _ _ _ Hd Hbl Hg Hr) as (plans & Hp & _ & Hex).
  pose proof (plan_may_run h w hdr getter plans He Hp) as Hmay.
  pose proof (states_ok_weaken h (hdr, getter) _ Hst) as Hst'.
  pose proof (conduct_returns _ _ _ _ Hst' Hmay) as Hret.
  unfold syncs, EventManager.CheckEvents. rewrite Hp.
  destruct (EventManager.ConductCallbackPlan _ _ _ _) as [w' [[]|e]] eqn:Hw'; eexists _, _; (split; [done|]); [|done].
  assert (log ∈ emitted (sync_listener s ref) (block_logs r)) as Hl.
  { apply list_elem_of_filter. split; [|done]. by apply Is_true_true, IsEventEmitted_spec. }
  destruct (conduct_syncs _ _ _ _ _ ref id (emitted (sync_listener s ref) (block_logs r))
    (SyncState.m_genTime s) Hst' Hmay Hw' Ht) as (s' & Hs' & _ & Hsy).
  - by exists s.
  - apply Hex. exists (sync_listener s ref). split_and!; try done. intros E. rewrite E in Hl. by apply not_elem_of_nil in Hl.
  - intros E. rewrite E in Hl. by apply not_elem_of_nil in Hl.
  - exists s'. auto.
Qed.

Lemma listen_described {Cb} (m : EventManager.t Cb) id addr topics cb :
  described m -> described (fst (EventManager.Listen m id (EventDescription.create addr topics cb))).
Proof. intros Hd i e [Hi|[-> ->]]%Listen_lookup; [by apply (Hd i)|done]. Qed.

Lemma cancel_described {Cb} (m : EventManager.t Cb) id : described m -> described (EventManager.Cancel m id).
Proof. intros Hd i e Hi%Cancel_lookup. by apply (Hd i). Qed.

Lemma progress_described w w' : progress w w' -> described (w_events w) -> described (w_events w').
Proof. intros [_ Hs] Hd i e [Hi|(? & ? & ? & ->)]%Hs; [by apply (Hd i)|done]. Qed.

(** Listeners of reachable worlds come from the constructor. *)
Lemma reach_described h w m : reach h w m -> described (w_events w).
Proof using Laws.
  induction 1 as [now nonce ref id owner w m HC|h w m dev now nonce ref id w' m' Hre IH Hr Hid HC
    |h w m user addr topics id _ IH Hid|h w m id _ IH|h w m owner _ IH|h w m hdr getter w' r Hre IH HC _].
  - unfold SyncMsgMgr.create in HC. bind_ok HC. cbn in HC. injection HC as <- <-. by apply listen_described.
  - unfold SyncMsgMgr.NewSyncState, SyncMsgMgr.RegisterSyncEvent_Locked in HC. destruct dev; [by injection HC as <- _|].
    destruct (EventManager.Listen _ _ _) as [ev i] eqn:E. injection HC as <- _. cbn.
    apply (f_equal fst) in E. cbn [fst] in E. rewrite <-E. by apply listen_described, cancel_described.
  - by apply listen_described.
  - by apply cancel_described.
  - done.
  - pose proof (reach_ok _ _ _ Hre) as (Hst & He & _). unfold EventManager.CheckEvents in HC.
    destruct (EventManager.PlanEvents _ _ _) as [a|e] eqn:E; [|by injection HC as <- _].
    pose proof (conduct_run ((hdr, getter) :: h) hdr a w) as Hc. rewrite HC in Hc.
    destruct Hc as [_ Hp]; [by apply states_ok_weaken|by apply plan_may_run|]. by eapply progress_described.
Qed.

(** C26. The handshake completes: in a reachable world whose event manager holds
    the listener of a sync state, checking a header in time whose block has the
    message, with the block's receipts delivered, leaves that state synced,
    whatever other listeners there are; only the exception of a user's callback
    can end the check before. *)
Theorem message_syncs h w m hdr getter r id ref s log :
  reach h w m -> w_events w !! id = Some (sync_listener s ref) -> w_states w !! ref = Some s ->
  getter (HeaderMgr.m_blkNum hdr) = Ok r ->
  ReceiptsMgr.m_rootHashBytes r = EthHeader.ReceiptsRoot (HeaderMgr.m_rawHeader hdr) ->
  bloom_covers hdr (block_logs r) -> log ∈ block_logs r -> is_message log s ->
  u64 (HeaderMgr.m_trustedTime hdr - SyncState.m_genTime s) <= maxWaitTime ->
  syncs getter hdr w ref.
Proof using Laws. intros Hre. by apply (message_run _ _ _ _ _ _ _ _ _ _ Hre), (reach_described _ _ _ Hre). Qed.
End sync.

(** *** A handshake, concretely *)

Definition sample_session : bytes := replicate 16 7.
Definition sample_sync_addr : bytes := replicate 20 3.
Definition sample_sign : bytes := replicate 32 4.
Definition sample_nonce : bytes := replicate 32 5.
Definition sample_sync : World unit * SyncMsgMgr.t :=
  ok_or (mkWorld ∅ ∅ tt, SyncMsgMgr.mk 0 [] 0 [] [] 0)
    (SyncMsgMgr.create 600 sample_session sample_sync_addr sample_sign
      (mkWorld ∅ EventManager.create tt) 1000 sample_nonce 0 16).

(** An application without callbacks of its own. *)
Definition no_users : UserHandler unit := fun _ _ _ _ w => (w, Ok tt).
#[local] Existing Instance no_users.
Lemma no_users_laws : UserHandlerLaws unit.
Proof. intros u hdr log id w w' r [= <- <-]. split; [done|]. by left. Qed.
#[local] Existing Instance no_users_laws.

Definition sample_state : SyncState.t := SyncState.create 600 1000 sample_nonce.
Definition sample_message : ReceiptLogEntry.t :=
  ReceiptLogEntry.mk sample_sync_addr
    [sample_sign; SyncMsgMgr.session_topic sample_session; sample_nonce] [].
Definition sample_message_receipts : ReceiptsMgr.t := ReceiptsMgr.mk [[sample_log]; [sample_message]] [1; 2].
Definition sample_message_header : HeaderMgr.t :=
  HeaderMgr.mk (EthHeader.of_items (<[5%nat := [1; 2]]> (EthHeader.items sample_header)))
    1600 (be_bytes 256 (bloom_of (concat (map log_hashes [sample_log; sample_message])))) [] 912104 0 512 false.

Lemma sample_reach : reach 600 sample_session sample_sync_addr sample_sign [] (fst sample_sync) (snd sample_sync).
Proof.
  apply (reach_create _ _ _ _ 1000 sample_nonce 0 16 tt). rewrite <-surjective_pairing.
  apply is_ok_or. reflexivity.
Qed.

Lemma sample_covers : bloom_covers sample_message_header (block_logs sample_message_receipts).
Proof.
  split_and!; [apply all_bytes_be_bytes| |apply bloom_bytes_val].
  cbn [sample_message_header HeaderMgr.m_bloomFilter]. by rewrite length_be_bytes.
Qed.

Lemma message_syncs_witness :
  syncs (fun _ => Ok sample_message_receipts) sample_message_header (fst sample_sync) 0.
Proof.
  exact (message_syncs 600 sample_session sample_sync_addr sample_sign [] (fst sample_sync) (snd sample_sync)
    sample_message_header (fun _ => Ok sample_message_receipts) sample_message_receipts 16 0 sample_state sample_message
    sample_reach ltac:(lazy -[Keccak256]; reflexivity) ltac:(lazy -[Keccak256]; reflexivity) eq_refl eq_refl
    sample_covers ltac:(right; left) ltac:(split; [reflexivity|exists []; reflexivity])
    ltac:(vm_compute; congruence)).
Defined.

Lemma synced_only_by_message_witness :
  exists (w' : World unit) s', w_states w' !! 0%nat = Some s' /\ SyncState.m_isSynced s' = true /\
    synced_by 600 sample_session sample_sync_addr sample_sign
      [(sample_message_header, fun _ => Ok sample_message_receipts)] s'.
Proof.
  destruct (message_run 600 sample_session sample_sync_addr sample_sign [] (fst sample_sync) (snd sample_sync)
    sample_message_header (fun _ => Ok sample_message_receipts) sample_message_receipts 16 0 sample_state sample_message
    sample_reach (reach_described _ _ _ _ _ _ _ sample_reach)
    ltac:(lazy -[Keccak256]; reflexivity) ltac:(lazy -[Keccak256]; reflexivity) eq_refl eq_refl sample_covers
    ltac:(right; left) ltac:(split; [reflexivity|exists []; reflexivity]) ltac:(vm_compute; congruence))
    as (w' & r & Hc & Hr).
  destruct r as [[]|e].
  - destruct Hr as (s' & Hs & Hi). exists w', s'. split; [exact Hs|]. split; [exact Hi|].
    refine (synced_only_by_message 600 sample_session sample_sync_addr sample_sign _ w' (snd sample_sync) 0 s'
      (reach_check _ _ _ _ _ _ _ _ _ _ _ sample_reach Hc _) Hs Hi). discriminate.
  - destruct Hr as (u & hdr & l & id & v & v' & Hu). discriminate Hu.
Defined.

(** ** A freed listener address *)

(** Once the message has arrived, its handler has cancelled the listener, but
    the manager keeps the ID.  The ID is the address of a freed object: if the
    allocator hands it to the next listener, the next [NewSyncState] cancels
    that listener. *)
Lemma freed_id_cancels_other_listener {X} `{Handler : UserHandler X} maxWaitTime sessionID addr sign h
    (w : World X) m user uaddr topics :
  reach maxWaitTime sessionID addr sign h w m ->
  w_events w !! SyncMsgMgr.m_syncEventCallbackId m = None ->
  exists w1, reach maxWaitTime sessionID addr sign h w1 m /\
    w_events w1 !! SyncMsgMgr.m_syncEventCallbackId m
    = Some (EventDescription.create uaddr topics (OnUser user)) /\
    forall now nonce ref id, id <> SyncMsgMgr.m_syncEventCallbackId m ->
      w_events (fst (SyncMsgMgr.NewSyncState false m w1 now nonce ref id)) !! SyncMsgMgr.m_syncEventCallbackId m = None.
Proof.
  intros Hre Hid. eexists. split; [by apply (reach_listen _ _ _ _ h w m user uaddr topics _ Hre Hid)|].
  cbn [w_events]. unfold EventManager.Listen. rewrite Hid. cbn [fst]. rewrite lookup_insert_eq. split; [done|].
  intros now nonce ref id Hne. unfold SyncMsgMgr.NewSyncState, EventManager.Cancel. cbn [w_events w_states].
  rewrite lookup_insert_eq. unfold SyncMsgMgr.RegisterSyncEvent_Locked, EventManager.Listen. cbn [w_events w_states].
  destruct (delete _ _ !! id); cbn [fst w_events]; rewrite ?lookup_insert_ne by done; apply lookup_delete_eq.
Qed.
