(* ===== verification/Checkpoint.v ===== *)
(** * Header nodes, checkpoints and the checks on headers

    [EclipseMonitor/Eth/HeaderNode.hpp]: the tree of the headers after the last
    confirmed one; [CheckpointMgr.hpp]: the windows of confirmed headers;
    [DiffChecker.hpp] and [Validator.hpp]: what a header is checked for. *)

From stdpp Require Import strings sorting.
From S2P Require Import Prelude Bloom EthHeader Difficulty.

(** ** The header tree *)

Module HeaderNode.
(** A node owns its children, each with its number of descendants; [addr] is
    the address of the node.  [m_parent] is the position in the tree: a node
    that is not a child has none.  The sync state is a reference. *)
Inductive t := mk (addr : nat) (m_header : HeaderMgr.t) (m_syncState : nat) (m_children : list (Z * t)).

Definition addr (n : t) : nat := let '(mk a _ _ _) := n in a.
Definition GetHeader (n : t) : HeaderMgr.t := let '(mk _ h _ _) := n in h.
Definition m_children (n : t) : list (Z * t) := let '(mk _ _ _ l) := n in l.

Definition create (a : nat) (header : HeaderMgr.t) (syncState : nat) : t := mk a header syncState [].

(** The node a pointer refers to, if it is in the tree. *)
Fixpoint find (n : t) (p : nat) : option t :=
  match n with
  | mk a _ _ l =>
    if Nat.eqb a p then Some n
    else (fix go (l : list (Z * t)) : option t :=
            match l with
            | [] => None
            | (_, c) :: rest => match find c p with Some m => Some m | None => go rest end
            end) l
  end.

(** [AddChild] called on the node at [p]: the child is appended with count 0,
    then [AddDescCount] walks up from [p] and increments, in each ancestor, the
    count of the child it came from. *)
Fixpoint AddChild (n : t) (p : nat) (child : t) : option t :=
  match n with
  | mk a h s l =>
    if Nat.eqb a p then Some (mk a h s (l ++ [(0, child)]))
    else
      let children := (fix go (l : list (Z * t)) : option (list (Z * t)) :=
        match l with
        | [] => None
        | (numOfDesc, c) :: rest =>
          match AddChild c p child with
          | Some c => Some ((u64 (numOfDesc + 1), c) :: rest)
          | None => match go rest with Some rest => Some ((numOfDesc, c) :: rest) | None => None end
          end
        end) l in
      match children with Some l => Some (mk a h s l) | None => None end
  end.

(** The first child with the count, and the others. *)
Fixpoint take_child (l : list (Z * t)) (numOfDesc : Z) : option (list (Z * t) * t) :=
  match l with
  | [] => None
  | (d, c) :: rest =>
    if numOfDesc <=? d then Some (rest, c)
    else match take_child rest numOfDesc with
         | Some (rest, m) => Some ((d, c) :: rest, m)
         | None => None
         end
  end.

(** The node without the child, and the child. *)
Definition ReleaseChildHasNDesc (n : t) (numOfDesc : Z) : option (t * t) :=
  let '(mk a h s l) := n in
  match take_child l numOfDesc with Some (l, c) => Some (mk a h s l, c) | None => None end.

Definition GetNumOfChildren (n : t) : Z := zlen (m_children n).
End HeaderNode.

(** ** Checkpoint windows *)

Module CheckpointMgr.
Record t := mk {
  m_chkptSize : Z; m_currWindow : list HeaderMgr.t; m_candidate : list HeaderMgr.t;
  m_lastNode : option HeaderNode.t; m_isLastNodeCandidate : bool }.

(** [m_isLastNodeCandidate] is not initialised, and not read before
    [m_lastNode] is set. *)
Definition create (checkpointSize : Z) : t := mk checkpointSize [] [] None false.

Definition throw {A} (what : string) : result Error A := Throw (FromMonitor (Exception what)).

Definition GetNumOfCandidates (c : t) : Z :=
  zlen (m_candidate c) + match m_lastNode c with
                         | Some _ => if m_isLastNodeCandidate c then 1 else 0
                         | None => 0
                         end.

(** The new state, and whether the completion callback is called, which is the
    last thing the function does. *)
Definition AddNode (c : t) (node : option HeaderNode.t) : result Error (t * bool) :=
  match node with
  | None => throw "The given node is null"
  | Some node =>
    if m_chkptSize c <=? GetNumOfCandidates c + 1 then
      let candidate := match m_lastNode c with
                       | Some n => m_candidate c ++ [HeaderNode.GetHeader n]
                       | None => m_candidate c
                       end in
      Ok (mk (m_chkptSize c) candidate [] (Some node) false, true)
    else
      let '(window, candidate) := match m_lastNode c with
        | Some n => if m_isLastNodeCandidate c then (m_currWindow c, m_candidate c ++ [HeaderNode.GetHeader n])
                    else (m_currWindow c ++ [HeaderNode.GetHeader n], m_candidate c)
        | None => (m_currWindow c, m_candidate c)
        end in
      Ok (mk (m_chkptSize c) window candidate (Some node) true, false)
  end.

Definition AddHeader (c : t) (header : option HeaderMgr.t) : result Error (t * bool) :=
  match header with
  | None => throw "The given header is null"
  | Some header =>
    match m_lastNode c with
    | Some _ => throw "Checkpoint manager can only accept nodes during runtime phase"
    | None =>
      let c := mk (m_chkptSize c) (m_currWindow c) (m_candidate c ++ [header]) None (m_isLastNodeCandidate c) in
      if m_chkptSize c <=? GetNumOfCandidates c then
        Ok (mk (m_chkptSize c) (m_candidate c) [] None (m_isLastNodeCandidate c), true)
      else Ok (c, false)
    end
  end.

(** The headers [IterateCurrWindow] calls back on. *)
Definition IterateCurrWindow (c : t) : list HeaderMgr.t :=
  m_currWindow c ++ match m_lastNode c with
                    | Some n => if m_isLastNodeCandidate c then [] else [HeaderNode.GetHeader n]
                    | None => []
                    end.

(** [std::nth_element] puts at [mit] the element a full sort would put there. *)
Definition GetDiffMedian (c : t) : result Error Z :=
  let diffs := map HeaderMgr.m_diff (IterateCurrWindow c) in
  match merge_sort Z.le diffs !! (length diffs / 2)%nat with
  | Some d => Ok d
  | None => Throw (Undefined "end iterator dereferenced")
  end.

(** [a] is the address of the new node. *)
Definition EndBootstrapPhase (c : t) (syncState a : nat) : result Error t :=
  match m_lastNode c with
  | Some _ => throw "Checkpoint manager is already in runtime phase"
  | None =>
    if negb (zlen (m_candidate c) =? 0) then throw "There are still headers in candidate window"
    else match last (m_currWindow c) with
         | None => Throw (Undefined "back of an empty vector")
         | Some header =>
           Ok (mk (m_chkptSize c) (removelast (m_currWindow c)) (m_candidate c)
                 (Some (HeaderNode.create a header syncState)) false)
         end
  end.

Definition GetLastNodePtr (c : t) : result Error HeaderNode.t :=
  match m_lastNode c with
  | None => throw "No header has been added to this checkpoint"
  | Some n => Ok n
  end.

Definition GetLastHeader (c : t) : result Error HeaderMgr.t :=
  match m_lastNode c with
  | Some n => Ok (HeaderNode.GetHeader n)
  | None =>
    match last (m_candidate c) with
    | Some h => Ok h
    | None =>
      match last (m_currWindow c) with
      | Some h => Ok h
      | None => throw "No header has been added to this checkpoint"
      end
    end
  end.

Definition IsEmpty (c : t) : bool :=
  match m_lastNode c with Some _ => false | None => true end &&
  (zlen (m_candidate c) =? 0) && (zlen (m_currWindow c) =? 0).

Definition GetCheckpointBlkNumRange (c : t) : result Error (Z * Z) :=
  match m_currWindow c with
  | [] => throw "There is no header in the checkpoint"
  | h :: _ => let begin := HeaderMgr.m_blkNum h in Ok (begin, u64 (begin + m_chkptSize c - 1))
  end.
End CheckpointMgr.

(** ** Difficulty checks *)

(** The members of [MonitorConfig] the monitor uses. *)
Record MonitorConfig := mkConfig {
  checkpointSize : Z; minDiffPercent : Z; maxWaitTime : Z; syncMaxWaitTime : Z }.

(** [DiffCheckerBase]. *)
Class DiffChecker (D : Type) := {
  OnChkptUpd : D -> CheckpointMgr.t -> result Error D;
  CheckDifficulty : D -> HeaderMgr.t -> HeaderMgr.t -> result Error bool;
  CheckEstDifficulty : D -> HeaderMgr.t -> Z -> result Error bool }.

Module PoWDiffChecker.
(** [m_minDiff] is not initialised by the constructor. *)
Record t := mk { m_minDiffPercent : Z; m_minDiff : option Z; m_maxWaitTime : Z; m_diffEstimator : DAA }.

Definition create (mConf : MonitorConfig) (diffEstimator : DAA) : t :=
  mk (minDiffPercent mConf) None (maxWaitTime mConf) diffEstimator.

Definition OnChkptUpd (c : t) (chkpt : CheckpointMgr.t) : result Error t :=
  median ← CheckpointMgr.GetDiffMedian chkpt;
  Ok (mk (m_minDiffPercent c) (Some (u64 (Z.shiftr median 7 * m_minDiffPercent c))) (m_maxWaitTime c)
        (m_diffEstimator c)).

Definition minDiff (c : t) : result Error Z :=
  match m_minDiff c with Some d => Ok d | None => Throw (Undefined "m_minDiff is not initialised") end.

Definition CheckDifficulty (c : t) (parentHdr currentHdr : HeaderMgr.t) : result Error bool :=
  if negb (HeaderMgr.m_trustedTime parentHdr <? HeaderMgr.m_trustedTime currentHdr) then Ok false
  else if negb (u64 (HeaderMgr.m_trustedTime currentHdr - HeaderMgr.m_trustedTime parentHdr) <=? m_maxWaitTime c)
  then Ok false
  else
    d ← minDiff c;
    Ok (d <=? HeaderMgr.m_diff currentHdr).

Definition CheckEstDifficulty (c : t) (parentHdr : HeaderMgr.t) (currentTime : Z) : result Error bool :=
  let estNextHdr := HeaderMgr.SetNumber HeaderMgr.init (u64 (HeaderMgr.m_blkNum parentHdr + 1)) in
  let estNextHdr := HeaderMgr.SetTime estNextHdr currentTime in
  estDiff ← lift_mon (m_diffEstimator c parentHdr estNextHdr);
  let deltaTime := u64 (currentTime - HeaderMgr.m_trustedTime parentHdr) in
  if negb (deltaTime <=? m_maxWaitTime c) then Ok false
  else
    d ← minDiff c;
    Ok (d <=? estDiff).
End PoWDiffChecker.

#[export] Instance PoW_checker : DiffChecker PoWDiffChecker.t := {|
  OnChkptUpd := PoWDiffChecker.OnChkptUpd;
  CheckDifficulty := PoWDiffChecker.CheckDifficulty;
  CheckEstDifficulty := PoWDiffChecker.CheckEstDifficulty |}.

Module PoSDiffChecker.
Definition t : Type := unit.
Definition create (mConf : MonitorConfig) : t := tt.
Definition OnChkptUpd (c : t) (chkpt : CheckpointMgr.t) : result Error t := Ok c.
Definition CheckDifficulty (c : t) (parentHdr currentHdr : HeaderMgr.t) : result Error bool := Ok true.
Definition CheckEstDifficulty (c : t) (parentHdr : HeaderMgr.t) (currentTime : Z) : result Error bool := Ok true.
End PoSDiffChecker.

#[export] Instance PoS_checker : DiffChecker PoSDiffChecker.t := {|
  OnChkptUpd := PoSDiffChecker.OnChkptUpd;
  CheckDifficulty := PoSDiffChecker.CheckDifficulty;
  CheckEstDifficulty := PoSDiffChecker.CheckEstDifficulty |}.

Module GenericDiffCheckerImpl.
Record t := mk { m_powChecker : PoWDiffChecker.t; m_posChecker : PoSDiffChecker.t }.

Definition create (mConf : MonitorConfig) (diffEstimator : DAA) : t :=
  mk (PoWDiffChecker.create mConf diffEstimator) (PoSDiffChecker.create mConf).

Section details.
Context `{Details : ConfigDetails}.

Definition OnChkptUpd (c : t) (chkpt : CheckpointMgr.t) : result Error t :=
  blkNumRange ← CheckpointMgr.GetCheckpointBlkNumRange chkpt;
  if NetworkConfig.IsBlockOfParis (snd blkNumRange) then
    pos ← PoSDiffChecker.OnChkptUpd (m_posChecker c) chkpt;
    Ok (mk (m_powChecker c) pos)
  else
    pow ← PoWDiffChecker.OnChkptUpd (m_powChecker c) chkpt;
    Ok (mk pow (m_posChecker c)).

Definition CheckDifficulty (c : t) (parentHdr currentHdr : HeaderMgr.t) : result Error bool :=
  if NetworkConfig.IsBlockOfParis (HeaderMgr.m_blkNum currentHdr) then
    PoSDiffChecker.CheckDifficulty (m_posChecker c) parentHdr currentHdr
  else PoWDiffChecker.CheckDifficulty (m_powChecker c) parentHdr currentHdr.

Definition CheckEstDifficulty (c : t) (parentHdr : HeaderMgr.t) (currentTime : Z) : result Error bool :=
  if NetworkConfig.IsBlockOfParis (u64 (HeaderMgr.m_blkNum parentHdr + 1)) then
    PoSDiffChecker.CheckEstDifficulty (m_posChecker c) parentHdr currentTime
  else PoWDiffChecker.CheckEstDifficulty (m_powChecker c) parentHdr currentTime.
End details.
End GenericDiffCheckerImpl.

#[export] Instance Generic_checker (Details : ConfigDetails) : DiffChecker GenericDiffCheckerImpl.t := {|
  OnChkptUpd := GenericDiffCheckerImpl.OnChkptUpd;
  CheckDifficulty := GenericDiffCheckerImpl.CheckDifficulty;
  CheckEstDifficulty := GenericDiffCheckerImpl.CheckEstDifficulty |}.

(** ** Validation *)

(** [ValidatorBase]: parent, whether it is live, current, whether it is live. *)
Class ValidatorBase (V : Type) := {
  CommonValidate : V -> HeaderMgr.t -> bool -> HeaderMgr.t -> bool -> result Error bool }.

Module Validator.
Record t := mk { m_diffCalculator : DAA }.

Section details.
Context `{Details : ConfigDetails}.

Definition CommonValidate (v : t) (parent : HeaderMgr.t) (isParentLive : bool) (current : HeaderMgr.t)
    (isCurrLive : bool) : result Error bool :=
  if negb (HeaderMgr.m_blkNum current =? u64 (HeaderMgr.m_blkNum parent + 1)) then Ok false
  else
    let parentHash := EthHeader.ParentHash (HeaderMgr.m_rawHeader current) in
    if negb (zlen parentHash =? zlen (HeaderMgr.m_hash parent)) ||
       negb (bool_decide (HeaderMgr.m_hash parent = parentHash)) then Ok false
    else if NetworkConfig.IsBlockOfParis (HeaderMgr.m_blkNum current) then
      if negb (HeaderMgr.m_diff current =? 0) then Ok false else Ok true
    else
      expDiff ← lift_mon (m_diffCalculator v parent current);
      if negb (HeaderMgr.m_diff current =? expDiff) then Ok false else Ok true.
End details.
End Validator.

#[export] Instance Network_validator (Details : ConfigDetails) : ValidatorBase Validator.t := {|
  CommonValidate := Validator.CommonValidate |}.

(** ** The tree: induction and measures *)

Section tree_ind.
Context (P : HeaderNode.t -> Prop).
Context (step : forall a h s l, Forall (fun dc => P (snd dc)) l -> P (HeaderNode.mk a h s l)).

(** Induction with the hypothesis for every child. *)
Fixpoint tree_ind (n : HeaderNode.t) : P n :=
  match n with
  | HeaderNode.mk a h s l =>
    step a h s l ((fix go (l : list (Z * HeaderNode.t)) : Forall (fun dc => P (snd dc)) l :=
      match l with
      | [] => Forall_nil_2 _
      | dc :: rest => Forall_cons_2 _ dc rest (tree_ind (snd dc)) (go rest)
      end) l)
  end.
End tree_ind.

(** The number of descendants of a node. *)
Fixpoint ndesc (n : HeaderNode.t) : Z :=
  match n with
  | HeaderNode.mk _ _ _ l =>
    (fix go (l : list (Z * HeaderNode.t)) : Z :=
       match l with [] => 0 | (_, c) :: rest => 1 + ndesc c + go rest end) l
  end.

Definition ndescs (l : list (Z * HeaderNode.t)) : Z := foldr (fun dc s => 1 + ndesc (snd dc) + s) 0 l.

Lemma ndesc_mk a h s l : ndesc (HeaderNode.mk a h s l) = ndescs l.
Proof. cbn. induction l as [|[d c] l IH]; [done|]. cbn. by rewrite IH. Qed.

Lemma ndescs_app l k : ndescs (l ++ k) = ndescs l + ndescs k.
Proof. unfold ndescs. induction l as [|dc l IH]; [done|]. cbn [app foldr]. rewrite IH. lia. Qed.

Lemma ndesc_nonneg n : 0 <= ndesc n.
Proof.
  induction n as [a h s l IH] using tree_ind. rewrite ndesc_mk.
  induction IH as [|dc l Hc _ IHl]; [done|]. unfold ndescs in *. cbn [foldr]. lia.
Qed.

(** A property of every edge of the tree: the count the parent keeps, the
    parent's header and the child. *)
Section edges.
Context (R : Z -> HeaderMgr.t -> HeaderNode.t -> Prop).

Fixpoint edges (n : HeaderNode.t) : Prop :=
  match n with
  | HeaderNode.mk _ h _ l =>
    (fix go (l : list (Z * HeaderNode.t)) : Prop :=
       match l with [] => True | (d, c) :: rest => R d h c /\ edges c /\ go rest end) l
  end.

Lemma edges_mk a h s l : edges (HeaderNode.mk a h s l)
  <-> Forall (fun dc => R (fst dc) h (snd dc) /\ edges (snd dc)) l.
Proof.
  cbn. induction l as [|[d c] l IH]; [by split|]. rewrite Forall_cons, IH. cbn. tauto.
Qed.
End edges.

(** The counts are the numbers of descendants. *)
Definition counted : HeaderNode.t -> Prop := edges (fun d _ c => d = ndesc c).

(** Every child passed a check against its parent. *)
Definition linked (valid : HeaderMgr.t -> HeaderMgr.t -> Prop) : HeaderNode.t -> Prop :=
  edges (fun _ h c => valid h (HeaderNode.GetHeader c)).

(** [AddChild] as a relation: the node at [p], with header [hp], gets the child,
    the counts on the path to it go up. *)
Inductive added (p : nat) (hp : HeaderMgr.t) (child : HeaderNode.t) : HeaderNode.t -> HeaderNode.t -> Prop :=
| added_here s l :
    added p hp child (HeaderNode.mk p hp s l) (HeaderNode.mk p hp s (l ++ [(0, child)]))
| added_below a h s l1 d c c' l2 : added p hp child c c' ->
    added p hp child (HeaderNode.mk a h s (l1 ++ (d, c) :: l2))
      (HeaderNode.mk a h s (l1 ++ (u64 (d + 1), c') :: l2)).

(** [AddChild] succeeds exactly on the nodes [find] finds. *)
Lemma AddChild_added p child n :
  match HeaderNode.find n p with
  | Some m => exists n', HeaderNode.AddChild n p child = Some n' /\ added p (HeaderNode.GetHeader m) child n n'
  | None => HeaderNode.AddChild n p child = None
  end.
Proof.
  induction n as [a h s l IH] using tree_ind. cbn [HeaderNode.AddChild HeaderNode.find].
  destruct (Nat.eqb_spec a p) as [->|Hne]; [eexists; split; [done|constructor]|].
  match goal with |- match ?g l with _ => _ end => set (look := g) end.
  match goal with |- context [match ?g l with Some _ => Some (HeaderNode.mk a h s _) | None => None end] => set (go := g) end.
  assert (match look l with
    | Some m => exists l1 d c c' l2, l = l1 ++ (d, c) :: l2 /\ go l = Some (l1 ++ (u64 (d + 1), c') :: l2) /\
        added p (HeaderNode.GetHeader m) child c c'
    | None => go l = None
    end) as Hgo.
  { induction IH as [|[d c] l Hc _ IHl]; [done|]. cbn [snd] in Hc.
    change (look ((d, c) :: l)) with (match HeaderNode.find c p with Some m => Some m | None => look l end).
    change (go ((d, c) :: l)) with (match HeaderNode.AddChild c p child with
      | Some c0 => Some ((u64 (d + 1), c0) :: l)
      | None => match go l with Some rest => Some ((d, c) :: rest) | None => None end end).
    destruct (HeaderNode.find c p) as [m|].
    - destruct Hc as (c' & -> & Ha). by exists [], d, c, c', l.
    - rewrite Hc. destruct (look l) as [m|]; [|by rewrite IHl].
      destruct IHl as (l1 & d1 & c1 & c1' & l2 & -> & -> & Ha).
      by exists ((d, c) :: l1), d1, c1, c1', l2. }
  destruct (look l) as [m|]; [|by rewrite Hgo].
  destruct Hgo as (l1 & d & c & c' & l2 & -> & -> & Ha). eexists. split; [done|]. by constructor.
Qed.

Section added_tree.
Context (p : nat) (hp : HeaderMgr.t) (child : HeaderNode.t).

Lemma added_ndesc n n' : added p hp child n n' -> ndesc n' = ndesc n + 1 + ndesc child.
Proof.
  induction 1 as [s l|a h s l1 d c c' l2 _ IH]; rewrite !ndesc_mk, !ndescs_app; unfold ndescs; cbn; lia.
Qed.

Lemma added_header n n' : added p hp child n n' -> HeaderNode.GetHeader n' = HeaderNode.GetHeader n.
Proof. by destruct 1. Qed.

(** Adding a leaf keeps the counts right. *)
Lemma added_counted n n' : added p hp child n n' -> ndesc child = 0 -> counted child ->
  counted n -> ndesc n + 1 < 2 ^ 64 -> counted n'.
Proof.
  intros Ha Hz Hc. unfold counted in *.
  induction Ha as [s l|a h s l1 d c c' l2 Ha IH]; rewrite !edges_mk, ndesc_mk, ?ndescs_app.
  - intros Hl Hb. apply Forall_app. split; [done|]. repeat constructor; [by cbn; rewrite Hz|done].
  - rewrite !Forall_app, !Forall_cons. cbn [fst snd]. intros (H1 & [-> Hec] & H2) Hb.
    unfold ndescs in Hb. cbn [foldr snd] in Hb. fold (ndescs l1) (ndescs l2) in Hb.
    assert (0 <= ndescs l1 /\ 0 <= ndescs l2) as [Hl1 Hl2].
    { rewrite <-!(ndesc_mk a h s). split; apply ndesc_nonneg. }
    pose proof (ndesc_nonneg c). split_and!; try done.
    + rewrite (added_ndesc _ _ Ha), wrap_small by (unfold fits; lia). lia.
    + apply IH; [done|lia].
Qed.

(** A valid child keeps the tree linked. *)
Lemma added_linked valid n n' : added p hp child n n' -> linked valid child ->
  valid hp (HeaderNode.GetHeader child) -> linked valid n -> linked valid n'.
Proof.
  intros Ha Hc Hv. unfold linked in *.
  induction Ha as [s l|a h s l1 d c c' l2 Ha IH]; rewrite !edges_mk, !Forall_app, !Forall_cons; cbn [fst snd].
  - intros Hl. by split_and!.
  - intros (H1 & [Hh Hl] & H2). rewrite (added_header _ _ Ha). auto.
Qed.
End added_tree.

(** Taking a child out: it is the first with the count, and the others stay. *)
Lemma take_child_spec l k :
  match HeaderNode.take_child l k with
  | Some (rest, c) => exists l1 d l2, l = l1 ++ (d, c) :: l2 /\ rest = l1 ++ l2 /\ k <= d /\
      Forall (fun dc => fst dc < k) l1
  | None => Forall (fun dc => fst dc < k) l
  end.
Proof.
  induction l as [|[d c] l IH]; cbn; [constructor|]. destruct (Z.leb_spec k d).
  { by exists [], d, l. }
  destruct (HeaderNode.take_child l k) as [[rest m]|]; [|by constructor].
  destruct IH as (l1 & d1 & l2 & -> & -> & Hk & Hall). exists ((d, c) :: l1), d1, l2.
  split_and!; try done. by constructor.
Qed.

Lemma release_edges R n k n' c : HeaderNode.ReleaseChildHasNDesc n k = Some (n', c) ->
  edges R n -> edges R n' /\ edges R c /\ exists d, k <= d /\ R d (HeaderNode.GetHeader n) c.
Proof.
  destruct n as [a h s l]. cbn [HeaderNode.ReleaseChildHasNDesc]. pose proof (take_child_spec l k) as Ht.
  destruct (HeaderNode.take_child l k) as [[rest m]|]; [|done]. intros [= <- <-].
  destruct Ht as (l1 & d & l2 & -> & -> & Hk & _). rewrite !edges_mk, !Forall_app, Forall_cons.
  cbn [fst snd]. intros (H1 & [Hd Hc] & H2). split_and!; try done. by exists d.
Qed.

(** Nodes added under pointers one after the other; a pointer that is not in the
    tree adds nothing. *)
Record addition := mkAddition { to_ptr : nat; new_addr : nat; new_header : HeaderMgr.t; new_sync : nat }.

Definition grow (n : HeaderNode.t) (ops : list addition) : HeaderNode.t :=
  foldl (fun n op => match HeaderNode.AddChild n (to_ptr op)
      (HeaderNode.create (new_addr op) (new_header op) (new_sync op)) with
    | Some n => n
    | None => n
    end) n ops.

Lemma grow_counted n ops : counted n -> ndesc n + zlen ops < 2 ^ 64 ->
  counted (grow n ops) /\ ndesc (grow n ops) <= ndesc n + zlen ops.
Proof.
  revert n. induction ops as [|op ops IH]; intros n Hn Hb; [cbn; split; [done|lia]|].
  cbn [length] in Hb. unfold grow. cbn [foldl]. fold (grow).
  pose proof (AddChild_added (to_ptr op) (HeaderNode.create (new_addr op) (new_header op) (new_sync op)) n) as Ha.
  destruct (HeaderNode.find n (to_ptr op)) as [m|].
  - destruct Ha as (n' & -> & Ha). pose proof (added_ndesc _ _ _ _ _ Ha) as Hs. cbn in Hs.
    destruct (IH n') as [Hc Hd]; [|lia|].
    + eapply added_counted; [exact Ha|done|done|done|lia].
    + split; [done|]. unfold grow in Hd. cbn [length]. lia.
  - rewrite Ha. destruct (IH n) as [Hc Hd]; [done|lia|]. split; [done|]. unfold grow in Hd. cbn [length]. lia.
Qed.

(** C16. Confirmation by descendants: however a tree grows from its root, and
    whatever forks it has, a child is released exactly when at least [k] headers
    were added below it - in one branch or in several -, the first such child is
    the one released, and all its siblings stay behind with the root. *)
Theorem release_by_depth a h s ops k : zlen ops < 2 ^ 64 ->
  let n := grow (HeaderNode.create a h s) ops in
  match HeaderNode.ReleaseChildHasNDesc n k with
  | Some (n', c) => exists l1 d l2, HeaderNode.m_children n = l1 ++ (d, c) :: l2 /\
      HeaderNode.m_children n' = l1 ++ l2 /\ k <= ndesc c /\
      Forall (fun dc => ndesc (snd dc) < k) l1
  | None => Forall (fun dc => ndesc (snd dc) < k) (HeaderNode.m_children n)
  end.
Proof.
  intros Hb n. destruct (grow_counted (HeaderNode.create a h s) ops) as [Hc _]; [done|cbn; lia|].
  fold n in Hc. destruct n as [a' h' s' l]. unfold counted in Hc. rewrite edges_mk in Hc.
  cbn [HeaderNode.ReleaseChildHasNDesc HeaderNode.m_children].
  assert (forall l0, Forall (fun dc => fst dc = ndesc (snd dc) /\ edges (fun d _ c => d = ndesc c) (snd dc)) l0 ->
    Forall (fun dc => fst dc < k) l0 -> Forall (fun dc => ndesc (snd dc) < k) l0) as Hconv.
  { intros l0. induction 1 as [|dc l0 [E _] _ IH]; [done|]. intros [Hk H]%Forall_cons.
    constructor; [lia|auto]. }
  pose proof (take_child_spec l k) as Ht.
  destruct (HeaderNode.take_child l k) as [[rest m]|]; [|by apply Hconv].
  destruct Ht as (l1 & d & l2 & -> & -> & Hk & Hlt).
  apply Forall_app in Hc as [Hc1 [[Hd _] _]%Forall_cons]. cbn [fst snd] in Hd.
  exists l1, d, l2. split_and!; try done; [lia|by apply Hconv].
Qed.

(** Two forks; the longer one has two descendants. *)
Definition sample_growth : list addition :=
  [mkAddition 1 2 sample_parent 0; mkAddition 1 3 sample_parent 0;
   mkAddition 3 4 sample_parent 0; mkAddition 4 5 sample_parent 0; mkAddition 9 6 sample_parent 0].

Lemma release_by_depth_witness :
  exists n' c, HeaderNode.ReleaseChildHasNDesc
      (grow (HeaderNode.create 1 sample_parent 0) sample_growth) 2 = Some (n', c) /\
    HeaderNode.addr c = 3%nat /\ 2 <= ndesc c.
Proof.
  pose proof (release_by_depth 1 sample_parent 0 sample_growth 2 ltac:(vm_compute; reflexivity)) as H.
  cbv zeta in H. destruct (HeaderNode.ReleaseChildHasNDesc _ _) as [[n' c]|] eqn:E.
  - exists n', c. destruct H as (l1 & d & l2 & _ & _ & Hk & _). split; [reflexivity|]. split; [|exact Hk].
    vm_compute in E. injection E as _ <-. reflexivity.
  - vm_compute in E. discriminate E.
Defined.

(** ** Windows as a stream *)

(** What a checkpoint manager promises: headers queue up in [q_pending] until
    there are [k] of them, which then are the window. *)
Record Queue := mkQueue { q_window : list HeaderMgr.t; q_pending : list HeaderMgr.t }.

Definition push (k : Z) (q : Queue) (h : HeaderMgr.t) : Queue * bool :=
  if k <=? zlen (q_pending q) + 1 then (mkQueue (q_pending q ++ [h]) [], true)
  else (mkQueue (q_window q) (q_pending q ++ [h]), false).

(** The queue a checkpoint manager implements, in both phases. *)
Definition pending (c : CheckpointMgr.t) : list HeaderMgr.t :=
  CheckpointMgr.m_candidate c ++ match CheckpointMgr.m_lastNode c with
                                 | Some n => if CheckpointMgr.m_isLastNodeCandidate c then [HeaderNode.GetHeader n] else []
                                 | None => []
                                 end.
Definition queue_of (c : CheckpointMgr.t) : Queue := mkQueue (CheckpointMgr.IterateCurrWindow c) (pending c).

(** A node that is not a candidate completed a window, so nothing is pending. *)
Definition windows_ok (c : CheckpointMgr.t) : Prop :=
  match CheckpointMgr.m_lastNode c with
  | Some _ => CheckpointMgr.m_isLastNodeCandidate c = false -> CheckpointMgr.m_candidate c = []
  | None => True
  end.

Lemma candidates_pending c : CheckpointMgr.GetNumOfCandidates c = zlen (pending c).
Proof.
  unfold CheckpointMgr.GetNumOfCandidates, pending. rewrite length_app.
  destruct (CheckpointMgr.m_lastNode c); [destruct (CheckpointMgr.m_isLastNodeCandidate c)|]; cbn; lia.
Qed.

Lemma AddHeader_push c h : CheckpointMgr.m_lastNode c = None -> exists c',
  CheckpointMgr.AddHeader c (Some h) = Ok (c', snd (push (CheckpointMgr.m_chkptSize c) (queue_of c) h)) /\
  queue_of c' = fst (push (CheckpointMgr.m_chkptSize c) (queue_of c) h) /\
  CheckpointMgr.m_lastNode c' = None /\ CheckpointMgr.m_chkptSize c' = CheckpointMgr.m_chkptSize c.
Proof.
  intros Hn. unfold CheckpointMgr.AddHeader. rewrite Hn. cbn zeta.
  rewrite candidates_pending. unfold push, queue_of, pending, CheckpointMgr.IterateCurrWindow. rewrite Hn.
  cbn -[Z.leb]. rewrite !app_nil_r, length_app, Nat2Z.inj_add. change (Z.of_nat (length [h])) with 1.
  destruct (_ <=? _); eexists; split_and!; try done; cbn; rewrite ?app_nil_r; done.
Qed.

Lemma AddNode_push c n : 2 <= CheckpointMgr.m_chkptSize c -> is_Some (CheckpointMgr.m_lastNode c) ->
  windows_ok c -> exists c',
  CheckpointMgr.AddNode c (Some n)
    = Ok (c', snd (push (CheckpointMgr.m_chkptSize c) (queue_of c) (HeaderNode.GetHeader n))) /\
  queue_of c' = fst (push (CheckpointMgr.m_chkptSize c) (queue_of c) (HeaderNode.GetHeader n)) /\
  CheckpointMgr.m_lastNode c' = Some n /\ windows_ok c' /\ CheckpointMgr.m_chkptSize c' = CheckpointMgr.m_chkptSize c.
Proof.
  intros Hk [last Hn] Hw. unfold CheckpointMgr.AddNode. rewrite candidates_pending.
  unfold windows_ok, push, queue_of, pending, CheckpointMgr.IterateCurrWindow in *. rewrite Hn in *.
  cbn [q_pending q_window]. destruct (CheckpointMgr.m_isLastNodeCandidate c).
  - destruct (_ <=? _); eexists; split_and!; try done; cbn; by rewrite ?app_nil_r.
  - rewrite Hw in * by done. rewrite app_nil_r. cbn [length]. rewrite (proj2 (Z.leb_gt _ _)) by lia.
    eexists; split_and!; try done; cbn. by rewrite ?app_nil_r.
Qed.

Lemma EndBootstrapPhase_queue c s a : CheckpointMgr.m_lastNode c = None ->
  CheckpointMgr.m_candidate c = [] -> CheckpointMgr.m_currWindow c <> [] -> exists c' n,
  CheckpointMgr.EndBootstrapPhase c s a = Ok c' /\ queue_of c' = queue_of c /\ windows_ok c' /\
  CheckpointMgr.m_lastNode c' = Some n /\ CheckpointMgr.m_chkptSize c' = CheckpointMgr.m_chkptSize c /\
  CheckpointMgr.GetLastHeader c = Ok (HeaderNode.GetHeader n) /\ n = HeaderNode.create a (HeaderNode.GetHeader n) s.
Proof.
  intros Hn Hc Hw. unfold CheckpointMgr.EndBootstrapPhase, CheckpointMgr.GetLastHeader. rewrite Hn, Hc. cbn [length last].
  destruct (exists_last Hw) as (l & x & E). rewrite E, last_snoc, removelast_last. cbn.
  eexists _, _. split_and!; try done.
  unfold queue_of, pending, CheckpointMgr.IterateCurrWindow. cbn. rewrite Hn, Hc, E. by rewrite ?app_nil_r.
Qed.

(** *** The confirmed stream *)

(** The windows a sequence of pushes completes, and the queue it leaves. *)
Fixpoint pushes (k : Z) (q : Queue) (hs : list HeaderMgr.t) : list (list HeaderMgr.t) * Queue :=
  match hs with
  | [] => ([], q)
  | h :: hs =>
    let '(q, full) := push k q h in
    let '(ws, q') := pushes k q hs in
    (if full then q_window q :: ws else ws, q')
  end.

Lemma last_cons_default {A} (l : list A) x d : List.last (x :: l) d = List.last l x.
Proof. revert x d. induction l as [|y l IH]; intros x d; [done|].
  change (List.last (y :: l) d = List.last (y :: l) x). by rewrite !IH.
Qed.

Lemma pushes_stream k q hs : zlen (q_pending q) < Z.max 1 k ->
  let '(ws, q') := pushes k q hs in
  concat ws ++ q_pending q' = q_pending q ++ hs /\
  Forall (fun w => zlen w = Z.max 1 k) ws /\ zlen (q_pending q') < Z.max 1 k /\
  q_window q' = List.last ws (q_window q).
Proof.
  revert q. induction hs as [|h hs IH]; intros q Hq; cbn [pushes].
  { rewrite app_nil_r. by split_and!. }
  unfold push. destruct (Z.leb_spec k (zlen (q_pending q) + 1)) as [Hk|Hk].
  - specialize (IH (mkQueue (q_pending q ++ [h]) []) ltac:(cbn; lia)).
    destruct (pushes k _ hs) as [ws q']. cbn [q_window q_pending app] in *.
    destruct IH as (Hc & Hf & Hl & Hw). split_and!; [|constructor; [|done]|done|].
    + cbn [concat]. rewrite <-!app_assoc, Hc. done.
    + rewrite length_app. cbn [length]. lia.
    + by rewrite last_cons_default.
  - specialize (IH (mkQueue (q_window q) (q_pending q ++ [h]))).
    destruct (pushes k _ hs) as [ws q']. cbn [q_window q_pending] in *.
    destruct IH as (Hc & Hf & Hl & Hw); [rewrite length_app; cbn [length]; lia|].
    split_and!; try done. by rewrite Hc, <-app_assoc.
Qed.

(** The headers of the bootstrap phase, then the nodes of the runtime phase. *)
Fixpoint add_headers (c : CheckpointMgr.t) (hs : list HeaderMgr.t)
  : result Error (list (list HeaderMgr.t) * CheckpointMgr.t) :=
  match hs with
  | [] => Ok ([], c)
  | h :: hs =>
    '(c, completed) ← CheckpointMgr.AddHeader c (Some h);
    '(ws, c') ← add_headers c hs;
    Ok (if (completed : bool) then CheckpointMgr.IterateCurrWindow c :: ws else ws, c')
  end.

Fixpoint add_nodes (c : CheckpointMgr.t) (ns : list HeaderNode.t)
  : result Error (list (list HeaderMgr.t) * CheckpointMgr.t) :=
  match ns with
  | [] => Ok ([], c)
  | n :: ns =>
    '(c, completed) ← CheckpointMgr.AddNode c (Some n);
    '(ws, c') ← add_nodes c ns;
    Ok (if (completed : bool) then CheckpointMgr.IterateCurrWindow c :: ws else ws, c')
  end.

Lemma add_headers_pushes c hs : CheckpointMgr.m_lastNode c = None -> exists c',
  add_headers c hs = Ok (fst (pushes (CheckpointMgr.m_chkptSize c) (queue_of c) hs), c') /\
  queue_of c' = snd (pushes (CheckpointMgr.m_chkptSize c) (queue_of c) hs) /\
  CheckpointMgr.m_lastNode c' = None /\ CheckpointMgr.m_chkptSize c' = CheckpointMgr.m_chkptSize c.
Proof.
  revert c. induction hs as [|h hs IH]; intros c Hn; cbn [add_headers pushes]; [by exists c|].
  destruct (AddHeader_push c h Hn) as (c1 & -> & Hq & Hn1 & Hk). cbn [mbind result_bind].
  destruct (push _ _ h) as [q full]. cbn [fst snd] in *. subst q.
  destruct (IH c1 Hn1) as (c2 & -> & Hq2 & Hn2 & Hk2). cbn [mbind result_bind]. rewrite Hk in *.
  destruct (pushes _ (queue_of c1) hs) as [ws q']. cbn [fst snd] in *. by exists c2.
Qed.

Lemma add_nodes_pushes c ns : 2 <= CheckpointMgr.m_chkptSize c -> is_Some (CheckpointMgr.m_lastNode c) ->
  windows_ok c -> exists c',
  add_nodes c ns = Ok (fst (pushes (CheckpointMgr.m_chkptSize c) (queue_of c) (map HeaderNode.GetHeader ns)), c') /\
  queue_of c' = snd (pushes (CheckpointMgr.m_chkptSize c) (queue_of c) (map HeaderNode.GetHeader ns)).
Proof.
  revert c. induction ns as [|n ns IH]; intros c H2 Hn Hw; cbn [add_nodes pushes map]; [by exists c|].
  destruct (AddNode_push c n H2 Hn Hw) as (c1 & -> & Hq & Hn1 & Hw1 & Hk). cbn [mbind result_bind].
  destruct (push _ _ _) as [q full]. cbn [fst snd] in *. subst q.
  destruct (IH c1) as (c2 & -> & Hq2); [lia|by eexists|done|]. cbn [mbind result_bind]. rewrite Hk in *.
  destruct (pushes _ (queue_of c1) _) as [ws q']. cbn [fst snd] in *. by exists c2.
Qed.

Lemma pushes_app k q hs hs' :
  let '(ws, q1) := pushes k q hs in let '(ws', q2) := pushes k q1 hs' in
  pushes k q (hs ++ hs') = (ws ++ ws', q2).
Proof.
  revert q. induction hs as [|h hs IH]; intros q; cbn [pushes app].
  { by destruct (pushes k q hs'). }
  destruct (push k q h) as [q0 full]. specialize (IH q0). destruct (pushes k q0 hs) as [ws q1].
  destruct (pushes k q1 hs') as [ws' q2]. rewrite IH. by destruct full.
Qed.

(** After a positive multiple of [k] headers nothing is pending. *)
Lemma full_windows k hs ws c : 2 <= k -> CheckpointMgr.m_lastNode c = None ->
  pushes k (mkQueue [] []) hs = (ws, queue_of c) -> hs <> [] -> zlen hs mod k = 0 ->
  CheckpointMgr.m_candidate c = [] /\ CheckpointMgr.m_currWindow c <> [].
Proof.
  intros Hk Hn P1 Hne Hmod. pose proof (pushes_stream k (mkQueue [] []) hs ltac:(cbn; lia)) as S1. rewrite P1 in S1.
  destruct S1 as (Hc & Hf & Hl & Hw). rewrite Z.max_r in * by lia. cbn [q_pending q_window app] in *.
  unfold queue_of, pending, CheckpointMgr.IterateCurrWindow in Hc, Hl, Hw. cbn [q_pending q_window] in Hc, Hl, Hw.
  rewrite Hn in Hc, Hl, Hw. rewrite app_nil_r in Hc, Hl, Hw.
  assert (CheckpointMgr.m_candidate c = []) as Hp.
  { apply (f_equal length) in Hc. rewrite length_app in Hc. assert (zlen (concat ws) = k * zlen ws) as Hcw.
    { clear -Hf. induction Hf as [|w ws Hw _ IH]; [cbn; lia|]. cbn [concat length]. rewrite length_app. lia. }
    destruct (CheckpointMgr.m_candidate c) as [|x l]; [done|]. exfalso.
    assert (zlen hs = k * zlen ws + zlen (x :: l)) as Hlen by lia.
    rewrite Hlen, Z.add_comm, Z.mul_comm, Z.mod_add, Z.mod_small in Hmod by lia. cbn [length] in Hmod. lia. }
  split; [done|]. intros E. rewrite E in Hw.
  assert (ws <> []) as Hw1 by (intros ->; rewrite Hp in Hc; by subst hs).
  destruct (exists_last Hw1) as (l & w & ->). rewrite last_last in Hw.
  apply Forall_app in Hf as [_ [Hwl _]%Forall_cons]. rewrite <-Hw in Hwl. cbn in Hwl. lia.
Qed.

(** C15. The checkpoint manager confirms every header exactly once, in order: for
    [k >= 2], after any headers added in the bootstrap phase - a positive
    multiple of [k] - its end, and any nodes added in the runtime phase, no
    call throws, every window reported complete has exactly [k] headers, and
    the windows one after the other, followed by fewer than [k] headers that
    are pending, are the headers that were added. *)
Theorem checkpoint_stream k hs s a ns :
  2 <= k -> hs <> [] -> zlen hs mod k = 0 ->
  exists ws1 c1 c2 ws2 c3,
    add_headers (CheckpointMgr.create k) hs = Ok (ws1, c1) /\
    CheckpointMgr.EndBootstrapPhase c1 s a = Ok c2 /\
    add_nodes c2 ns = Ok (ws2, c3) /\
    concat (ws1 ++ ws2) ++ pending c3 = hs ++ map HeaderNode.GetHeader ns /\
    Forall (fun w => zlen w = k) (ws1 ++ ws2) /\ zlen (pending c3) < k /\
    CheckpointMgr.IterateCurrWindow c3 = List.last (ws1 ++ ws2) [].
Proof.
  intros Hk Hne Hmod.
  destruct (add_headers_pushes (CheckpointMgr.create k) hs eq_refl) as (c1 & E1 & Q1 & N1 & K1).
  change (queue_of (CheckpointMgr.create k)) with (mkQueue [] []) in *.
  change (CheckpointMgr.m_chkptSize (CheckpointMgr.create k)) with k in *.
  pose proof (pushes_stream k (mkQueue [] []) hs ltac:(cbn; lia)) as S1.
  destruct (pushes k (mkQueue [] []) hs) as [ws1 q1] eqn:P1. cbn [fst snd q_pending q_window app] in *.
  destruct S1 as (Hc & Hf & Hl & Hw). subst q1. rewrite Z.max_r in * by lia.
  destruct (full_windows k hs ws1 c1) as [Hcand Hcw]; try done.
  destruct (EndBootstrapPhase_queue c1 s a N1 Hcand Hcw) as (c2 & n & E2 & Q2 & W2 & N2 & K2 & _).
  destruct (add_nodes_pushes c2 ns) as (c3 & E3 & Q3); [lia|by eexists|done|].
  rewrite K2, K1, Q2 in *. pose proof (pushes_stream k (queue_of c1) (map HeaderNode.GetHeader ns)) as S2.
  destruct (pushes k (queue_of c1) _) as [ws2 q3] eqn:P2. cbn [fst snd] in *. subst q3.
  rewrite Z.max_r in S2 by lia. destruct S2 as (Hc2 & Hf2 & Hl2 & Hw2); [done|].
  exists ws1, c1, c2, ws2, c3. split_and!; try done.
  - change (pending c3) with (q_pending (queue_of c3)). rewrite concat_app, <-app_assoc, Hc2, app_assoc. by rewrite Hc.
  - by apply Forall_app.
  - change (CheckpointMgr.IterateCurrWindow c3) with (q_window (queue_of c3)). rewrite Hw2, Hw.
    clear. revert ws1. induction ws2 as [|w ws IH] using rev_ind; intros ws1; [by rewrite app_nil_r|].
    by rewrite app_assoc, !last_last.
Qed.

Lemma checkpoint_stream_witness :
  exists ws1 c1 c2 ws2 c3,
    add_headers (CheckpointMgr.create 2) [sample_parent; sample_child] = Ok (ws1, c1) /\
    CheckpointMgr.EndBootstrapPhase c1 0 1 = Ok c2 /\
    add_nodes c2 (map (fun a => HeaderNode.create a sample_child 0) [2; 3; 4]%nat) = Ok (ws2, c3) /\
    concat (ws1 ++ ws2) ++ pending c3 = [sample_parent; sample_child; sample_child; sample_child; sample_child] /\
    Forall (fun w => zlen w = 2) (ws1 ++ ws2) /\ zlen (pending c3) < 2 /\
    CheckpointMgr.IterateCurrWindow c3 = List.last (ws1 ++ ws2) [].
Proof.
  apply (checkpoint_stream 2 [sample_parent; sample_child] 0 1
    (map (fun a => HeaderNode.create a sample_child 0) [2; 3; 4]%nat)); [lia|discriminate|reflexivity].
Defined.

(** ** The difficulty floor *)

Definition count (P : Z -> bool) (l : list Z) : Z := zlen (List.filter P l).

Lemma count_perm P l l' : l ≡ₚ l' -> count P l = count P l'.
Proof.
  unfold count. induction 1 as [|x l l' _ IH|x y l|l1 l2 l3 _ IH1 _ IH2]; cbn.
  - done.
  - destruct (P x); cbn [length]; lia.
  - destruct (P x), (P y); done.
  - lia.
Qed.

Lemma count_bound P l : count P l <= zlen l.
Proof. unfold count. induction l as [|x l IH]; cbn; [lia|]. destruct (P x); cbn [length]; lia. Qed.

Lemma count_none P l : Forall (fun x => P x = false) l -> count P l = 0.
Proof. unfold count. induction 1 as [|x l Hx _ IH]; [done|]. cbn. by rewrite Hx. Qed.

Lemma count_app P l k : count P (l ++ k) = count P l + count P k.
Proof. unfold count. rewrite List.filter_app, length_app. lia. Qed.

(** [d] splits the list: at most half of it is smaller, less than half larger. *)
Definition is_median (d : Z) (l : list Z) : Prop :=
  d ∈ l /\ 2 * count (fun x => x <? d) l <= zlen l /\ 2 * count (fun x => d <? x) l < zlen l.

Lemma sorted_split l1 d l2 : StronglySorted Z.le (l1 ++ d :: l2) ->
  Forall (fun x => x <= d) l1 /\ Forall (fun x => d <= x) l2.
Proof.
  induction l1 as [|x l1 IH]; cbn; intros [Hf Hs]%StronglySorted_cons.
  - by split.
  - destruct (IH Hs) as [H1 H2]. split; [|done]. constructor; [|done].
    rewrite Forall_app, Forall_cons in Hf. tauto.
Qed.

Lemma median_of_sort l : l <> [] -> exists d, merge_sort Z.le l !! (length l / 2)%nat = Some d /\ is_median d l.
Proof.
  intros Hne. pose proof (merge_sort_Permutation Z.le l) as Hp.
  assert (length (merge_sort Z.le l) = length l) as Hl by (by rewrite Hp).
  assert (0 < length l)%nat as Hpos by (destruct l; [done|cbn; lia]).
  assert (length l / 2 < length l)%nat as Hlt by (apply Nat.div_lt; lia).
  destruct (lookup_lt_is_Some_2 (merge_sort Z.le l) (length l / 2)) as [d Hd]; [lia|].
  exists d. split; [done|].
  assert (StronglySorted Z.le (merge_sort Z.le l)) as Hs.
  { apply StronglySorted_merge_sort; [intros ???; lia|intros x y; lia]. }
  apply list_elem_of_split_length in Hd as (l1 & l2 & E & Hl1). rewrite E in Hs.
  destruct (sorted_split _ _ _ Hs) as [H1 H2].
  assert (zlen l1 + 1 + zlen l2 = zlen l) as Hsum.
  { rewrite <-Hl, E, length_app. cbn [length]. lia. }
  assert (2 * zlen l1 <= zlen l /\ zlen l <= 2 * zlen l1 + 1) as [Hh1 Hh2].
  { rewrite <-Hl1. pose proof (Nat.div_mod (length l) 2). pose proof (Nat.mod_upper_bound (length l) 2). lia. }
  split; [rewrite <-Hp, E; set_solver|].
  rewrite <-!(count_perm _ _ _ Hp), E, !count_app.
  assert (forall P, count P (d :: l2) = count P [d] + count P l2) as Hcons by (intros P; apply (count_app P [d])).
  rewrite !Hcons. pose proof (count_bound (fun x => x <? d) l1). pose proof (count_bound (fun x => d <? x) l2).
  rewrite (count_none (fun x => d <? x) l1), (count_none (fun x => x <? d) l2).
  - assert (count (fun x => x <? d) [d] = 0 /\ count (fun x => d <? x) [d] = 0) as [-> ->]; [|lia].
    unfold count. cbn. by rewrite Z.ltb_irrefl.
  - eapply Forall_impl; [exact H2|]. cbn. intros x Hx. lia.
  - eapply Forall_impl; [exact H1|]. cbn. intros x Hx. lia.
Qed.

(** C18. The difficulty floor: completing a window of headers with difficulties
    below 2^63 sets the floor to [percent / 128] of a median [d] of the window,
    rounded down, without overflow; from then on a proof-of-work header is
    accepted exactly when it was received after its parent, within the maximal
    wait, and with at least the floor as difficulty. *)
Theorem difficulty_floor c chkpt :
  let diffs := map HeaderMgr.m_diff (CheckpointMgr.IterateCurrWindow chkpt) in
  diffs <> [] -> Forall (fun d => 0 <= d < 2 ^ 63) diffs ->
  0 <= PoWDiffChecker.m_minDiffPercent c < 256 ->
  exists d c', is_median d diffs /\ OnChkptUpd c chkpt = Ok c' /\
    forall parent current, fits 64 (HeaderMgr.m_trustedTime parent) ->
      fits 64 (HeaderMgr.m_trustedTime current) ->
      let wait := HeaderMgr.m_trustedTime current - HeaderMgr.m_trustedTime parent in
      CheckDifficulty c' parent current
      = Ok ((0 <? wait) && (wait <=? PoWDiffChecker.m_maxWaitTime c) &&
            (d / 128 * PoWDiffChecker.m_minDiffPercent c <=? HeaderMgr.m_diff current)).
Proof.
  intros diffs Hne Hall Hp. destruct (median_of_sort diffs Hne) as (d & Hd & Hm).
  exists d. eexists. split; [done|]. split.
  { cbn [OnChkptUpd PoW_checker]. unfold PoWDiffChecker.OnChkptUpd, CheckpointMgr.GetDiffMedian.
    fold diffs. rewrite Hd. reflexivity. }
  assert (0 <= d < 2 ^ 63) as Hdb by (eapply Forall_forall in Hall; [done|apply Hm]).
  intros parent current Ht1 Ht2. cbn [CheckDifficulty PoW_checker]. unfold PoWDiffChecker.CheckDifficulty.
  cbn [PoWDiffChecker.m_maxWaitTime PoWDiffChecker.minDiff PoWDiffChecker.m_minDiff mbind result_bind].
  rewrite Z.shiftr_div_pow2 by lia. change (2 ^ 7) with 128.
  assert (0 <= d / 128 < 2 ^ 56) as Hq.
  { split; [apply Z.div_pos; lia|]. apply Z.div_lt_upper_bound; [lia|]. exact (proj2 Hdb). }
  rewrite (wrap_small 64 (d / 128 * _)).
  2:{ split; [nia|]. change (2 ^ 64) with (2 ^ 56 * 256). nia. }
  destruct (Z.ltb_spec (HeaderMgr.m_trustedTime parent) (HeaderMgr.m_trustedTime current)) as [Hlt|Hge].
  - cbn [negb]. rewrite (wrap_small 64) by word_lia. rewrite (proj2 (Z.ltb_lt 0 _)) by lia. cbn [andb].
    by destruct (_ <=? PoWDiffChecker.m_maxWaitTime c).
  - cbn [negb]. by rewrite (proj2 (Z.ltb_ge 0 _)) by lia.
Qed.

(** A checkpoint of three headers; half of their median is the floor. *)
Definition sample_checkpoint : CheckpointMgr.t :=
  CheckpointMgr.mk 3 (map (fun d => HeaderMgr.SetDiff sample_parent d) [5000; 131072; 4000]) [] None false.
Definition sample_checker : PoWDiffChecker.t :=
  PoWDiffChecker.create (mkConfig 3 64 600 600) (fun _ _ => Ok 0).

Lemma difficulty_floor_witness :
  exists d c', is_median d [5000; 131072; 4000] /\ OnChkptUpd sample_checker sample_checkpoint = Ok c' /\
    CheckDifficulty c' (HeaderMgr.mk EthHeader.empty 100 [] [] 1 0 0 false)
      (HeaderMgr.mk EthHeader.empty 110 [] [] 2 0 2496 false) = Ok (d / 128 * 64 <=? 2496).
Proof.
  destruct (difficulty_floor sample_checker sample_checkpoint) as (d & c' & Hm & Hc & H);
    [discriminate|repeat (apply Forall_cons_2; [split; vm_compute; congruence|]); apply Forall_nil_2
    |split; vm_compute; congruence|].
  exists d, c'. split; [exact Hm|]. split; [exact Hc|].
  apply (H (HeaderMgr.mk EthHeader.empty 100 [] [] 1 0 0 false)
    (HeaderMgr.mk EthHeader.empty 110 [] [] 2 0 2496 false)); split; vm_compute; congruence.
Defined.

(** ** Validation on mainnet *)

(** C13. What mainnet validation accepts: for a parent and a header whose time is
    not before the parent's, [CommonValidate] returns normally, and returns true
    exactly when the header has the next number, names the parent's hash, and
    claims the protocol's difficulty - 0 from the Paris fork on. *)
Theorem mainnet_validation parent current live live' :
  0 <= HeaderMgr.m_blkNum parent < 2 ^ 63 -> fits 64 (HeaderMgr.m_time parent) ->
  fits 64 (HeaderMgr.m_time current) -> 0 <= HeaderMgr.m_diff parent < 2 ^ 63 ->
  HeaderMgr.m_time parent <= HeaderMgr.m_time current ->
  CommonValidate (ValidatorBase := Network_validator MainnetConfigDetails) (Validator.mk (Calculator (Details := MainnetConfigDetails)))
    parent live current live'
  = Ok ((HeaderMgr.m_blkNum current =? HeaderMgr.m_blkNum parent + 1) &&
        bool_decide (EthHeader.ParentHash (HeaderMgr.m_rawHeader current) = HeaderMgr.m_hash parent) &&
        (HeaderMgr.m_diff current =?
         if 15537394 <=? HeaderMgr.m_blkNum current then 0
         else mainnet_formula (HeaderMgr.m_blkNum parent) (HeaderMgr.m_time parent)
                (HeaderMgr.m_diff parent) (HeaderMgr.m_hasUncle parent) (HeaderMgr.m_time current))).
Proof.
  intros Hn Ht Ht' Hd Hle. cbn [CommonValidate Network_validator]. unfold Validator.CommonValidate.
  rewrite (wrap_small 64 (HeaderMgr.m_blkNum parent + 1)) by
    (change (2 ^ 63) with 9223372036854775808 in *; word_lia).
  destruct (Z.eqb_spec (HeaderMgr.m_blkNum current) (HeaderMgr.m_blkNum parent + 1)) as [En|]; [|done].
  cbn [negb andb].
  destruct (decide (EthHeader.ParentHash (HeaderMgr.m_rawHeader current) = HeaderMgr.m_hash parent)) as [Eh|Eh].
  2:{ rewrite !bool_decide_eq_false_2 by congruence. by rewrite orb_true_r. }
  rewrite Eh, !bool_decide_eq_true_2, Z.eqb_refl by done. cbn [negb orb andb].
  unfold NetworkConfig.IsBlockOfParis, NetworkConfig.IsBlockOf. cbn [ParisBlkNum MainnetConfigDetails].
  destruct (Z.leb_spec 15537394 (HeaderMgr.m_blkNum current)) as [Hp|Hp].
  { by destruct (HeaderMgr.m_diff current =? 0). }
  cbn [Validator.m_diffCalculator].
  rewrite mainnet_calculator by (done || by constructor). rewrite (proj2 (Z.leb_gt _ _)) by lia.
  cbn [lift_mon mbind result_bind]. by destruct (_ =? _).
Qed.

(** A child of the sample parent that names its hash and the right difficulty. *)
Definition sample_valid_child : HeaderMgr.t :=
  HeaderMgr.mk (EthHeader.of_items (<[0%nat := replicate 32 0]> (EthHeader.items (HeaderMgr.m_rawHeader sample_child))))
    0 [] [] 15400000 1661130108 (11971887016139811 + 2 ^ 38) false.

Lemma mainnet_validation_witness :
  CommonValidate (ValidatorBase := Network_validator MainnetConfigDetails) (Validator.mk (Calculator (Details := MainnetConfigDetails)))
    sample_parent false sample_valid_child false = Ok true.
Proof.
  etransitivity; [apply (mainnet_validation sample_parent sample_valid_child false false);
    repeat split; vm_compute; congruence|]. vm_compute. reflexivity.
Defined.
