(* ===== verification/Monitor.v ===== *)
(** * The eclipse monitor

    [EclipseMonitor/EclipseMonitorBase.hpp] and [EclipseMonitor/Eth/EclipseMonitor.hpp]:
    the phases, the update of the monitor with the raw headers an untrusted host
    delivers, the release of confirmed headers to the checkpoints, and the
    security state. *)

From stdpp Require Import strings gmap.
From S2P Require Import Prelude Keccak Bloom EthHeader Difficulty Events Checkpoint.

Inductive Phases := BootstrapI | BootstrapII | Sync | Runtime.

#[export] Instance Phases_eq_dec : EqDecision Phases.
Proof. solve_decision. Defined.

(** The members of [MonitorSecState] the monitor sets. *)
Record MonitorSecState := mkSecState {
  genesisHash : bytes; checkpointIter : Z; checkpointHash : bytes; checkpointNum : bytes }.

(** A call of one of the two header callbacks. *)
Inductive Notice := Validated (h : HeaderMgr.t) | Confirmed (h : HeaderMgr.t).

(** What the header callbacks see of the monitor through its getters. *)
Record Visible := mkVisible { vis_conf : MonitorConfig; vis_secState : MonitorSecState; vis_phase : Phases }.

(** What they can change: the objects behind the event manager, their own state,
    and the bootstrap plan through [RefreshBootstrapPlan]. *)
Record Shared (X : Type) := mkShared {
  sh_world : World X; m_startBlockNum : Z; m_bootstrapIEndBlkNum : Z; m_planedSyncBlkNum : Z }.
Arguments mkShared {X}.
Arguments sh_world {X}.
Arguments m_startBlockNum {X}.
Arguments m_bootstrapIEndBlkNum {X}.
Arguments m_planedSyncBlkNum {X}.

(** [m_onHeaderValidated] and [m_onHeaderConfirmed]. *)
Class HeaderCallbacks (X : Type) := OnHeader : Visible -> Notice -> stx (Shared X) Error unit.

(** The callback for confirmed headers does not throw. *)
Class HeaderCallbacksLaws (X : Type) `{HeaderCallbacks X} :=
  OnHeaderConfirmed_ok : forall vis h sh, exists sh', OnHeader vis (Confirmed h) sh = (sh', Ok tt).

(** What one call of the monitor takes from its environment: three readings of
    the clock, random bytes, and the addresses of the objects it may allocate; and
    whether the build refreshes the sync message. *)
Record Env := mkEnv {
  env_recvTime : Z; env_maintTime : Z; env_syncTime : Z; env_nonce : bytes;
  env_nodeAddr : nat; env_rootAddr : nat; env_stateRef : nat; env_listenerAddr : Z;
  env_disableRefresh : bool }.

Module EclipseMonitor.
Section monitor.
Context {D V X : Type} `{Checker : DiffChecker D} `{Valid : ValidatorBase V} `{Callbacks : HeaderCallbacks X}.

(** [notices]: the calls of the header callbacks so far. *)
Record t := mk {
  m_mConfig : MonitorConfig; m_mSecState : MonitorSecState; m_phase : Phases;
  m_checkpoint : CheckpointMgr.t; m_validator : V; m_diffChecker : D;
  m_shared : Shared X; m_syncMsgMgr : SyncMsgMgr.t;
  m_offlineNodes : gmap bytes nat; m_activeNodes : gmap bytes nat;
  notices : list Notice }.

Definition m_world (st : t) : World X := sh_world (m_shared st).

(** A call returns a value or throws; what it changed before it threw stays. *)
Definition M (A : Type) : Type := stx t Error A.

Definition lift {A} (r : result Error A) : M A := fun st => (st, r).
Definition gets {A} (f : t -> A) : M A := fun st => (st, Ok (f st)).
Definition modify (f : t -> t) : M unit := fun st => (f st, Ok tt).
Definition throw {A} (what : string) : M A := lift (Throw (FromMonitor (Exception what))).

Definition set_secState (s : MonitorSecState) : M unit := modify (fun st =>
  mk (m_mConfig st) s (m_phase st) (m_checkpoint st) (m_validator st) (m_diffChecker st) (m_shared st)
    (m_syncMsgMgr st) (m_offlineNodes st) (m_activeNodes st) (notices st)).
Definition set_phase (p : Phases) : M unit := modify (fun st =>
  mk (m_mConfig st) (m_mSecState st) p (m_checkpoint st) (m_validator st) (m_diffChecker st) (m_shared st)
    (m_syncMsgMgr st) (m_offlineNodes st) (m_activeNodes st) (notices st)).
Definition set_checkpoint (c : CheckpointMgr.t) : M unit := modify (fun st =>
  mk (m_mConfig st) (m_mSecState st) (m_phase st) c (m_validator st) (m_diffChecker st) (m_shared st)
    (m_syncMsgMgr st) (m_offlineNodes st) (m_activeNodes st) (notices st)).
Definition set_diffChecker (d : D) : M unit := modify (fun st =>
  mk (m_mConfig st) (m_mSecState st) (m_phase st) (m_checkpoint st) (m_validator st) d (m_shared st)
    (m_syncMsgMgr st) (m_offlineNodes st) (m_activeNodes st) (notices st)).
Definition set_nodes (off act : gmap bytes nat) : M unit := modify (fun st =>
  mk (m_mConfig st) (m_mSecState st) (m_phase st) (m_checkpoint st) (m_validator st) (m_diffChecker st)
    (m_shared st) (m_syncMsgMgr st) off act (notices st)).
Definition put_shared (sh : Shared X) (st : t) : t :=
  mk (m_mConfig st) (m_mSecState st) (m_phase st) (m_checkpoint st) (m_validator st) (m_diffChecker st)
    sh (m_syncMsgMgr st) (m_offlineNodes st) (m_activeNodes st) (notices st).
Definition set_world (w : World X) : M unit := modify (fun st =>
  put_shared (mkShared w (m_startBlockNum (m_shared st)) (m_bootstrapIEndBlkNum (m_shared st))
    (m_planedSyncBlkNum (m_shared st))) st).
Definition set_syncMsgMgr (m : SyncMsgMgr.t) : M unit := modify (fun st =>
  mk (m_mConfig st) (m_mSecState st) (m_phase st) (m_checkpoint st) (m_validator st) (m_diffChecker st)
    (m_shared st) m (m_offlineNodes st) (m_activeNodes st) (notices st)).
Definition add_notice (n : Notice) : M unit := modify (fun st =>
  mk (m_mConfig st) (m_mSecState st) (m_phase st) (m_checkpoint st) (m_validator st) (m_diffChecker st)
    (m_shared st) (m_syncMsgMgr st) (m_offlineNodes st) (m_activeNodes st) (notices st ++ [n])).

Definition visible (st : t) : Visible := mkVisible (m_mConfig st) (m_mSecState st) (m_phase st).

(** A call that works on what the monitor shares. *)
Definition on_shared {A} (f : Visible -> stx (Shared X) Error A) : M A := fun st =>
  let '(sh, r) := f (visible st) (m_shared st) in (put_shared sh st, r).

(** [m_onHeaderValidated(header)] and [m_onHeaderConfirmed(header)]. *)
Definition notify (n : Notice) : M unit := add_notice n ;; on_shared (fun vis => OnHeader vis n).

Fixpoint notify_all (ns : list Notice) : M unit :=
  match ns with
  | [] => mret tt
  | n :: ns => notify n ;; notify_all ns
  end.

(** The constructor; [-1] is converted to an unsigned 64-bit number. *)
Definition create (conf : MonitorConfig) (sessionID : bytes) (owner : X) (validator : V) (diffChecker : D)
    (syncContractAddr syncEventSign : bytes) (env : Env) : result Error t :=
  '(w, m) ← SyncMsgMgr.create (syncMaxWaitTime conf) sessionID syncContractAddr syncEventSign
    (mkWorld ∅ EventManager.create owner) (env_syncTime env) (env_nonce env) (env_stateRef env) (env_listenerAddr env);
  Ok (mk conf (mkSecState [] 0 [] []) BootstrapI (CheckpointMgr.create (checkpointSize conf)) validator
    diffChecker (mkShared w 0 (u64 (-1)) (u64 (-1))) m ∅ ∅ []).

(** [CalcBootstrapIEndBlkNum]. *)
Definition CalcBootstrapIEndBlkNum (latestBlk startBlk chkptSize : Z) : result Error Z :=
  let numOfBlocks := u64 (latestBlk - startBlk + 1) in
  if chkptSize =? 0 then Throw (Undefined "division by zero")
  else
    let numOfInterval := numOfBlocks / chkptSize in
    let numOfInterval := if 2 <? numOfInterval then numOfInterval - 2 else 0 in
    let endBlkNum := u64 (startBlk + u64 (numOfInterval * chkptSize)) in
    Ok (u64 (endBlkNum - 1)).

(** [RefreshBootstrapPlan], on what it works on. *)
Definition RefreshPlan (latestBlkNum : Z) (startBlkNum : option Z) (vis : Visible) : stx (Shared X) Error unit := fun sh =>
  let start := default (m_startBlockNum sh) startBlkNum in
  let sh := mkShared (sh_world sh) start (m_bootstrapIEndBlkNum sh) (m_planedSyncBlkNum sh) in
  match vis_phase vis with
  | BootstrapI =>
    match CalcBootstrapIEndBlkNum latestBlkNum start (checkpointSize (vis_conf vis)) with
    | Ok e => (mkShared (sh_world sh) start e latestBlkNum, Ok tt)
    | Throw e => (sh, Throw e)
    end
  | BootstrapII => (mkShared (sh_world sh) start (m_bootstrapIEndBlkNum sh) latestBlkNum, Ok tt)
  | _ => (sh, Ok tt)
  end.

Definition RefreshBootstrapPlan (latestBlkNum : Z) (startBlkNum : option Z) : M unit :=
  on_shared (RefreshPlan latestBlkNum startBlkNum).

(** The completion callback of the checkpoint manager. *)
Definition OnCheckpointComplete : M unit :=
  st ← gets id;
  lastHeader ← lift (CheckpointMgr.GetLastHeader (m_checkpoint st));
  set_secState (mkSecState (genesisHash (m_mSecState st)) (u64 (checkpointIter (m_mSecState st) + 1))
    (HeaderMgr.m_hash lastHeader) (EthHeader.Number (HeaderMgr.m_rawHeader lastHeader))) ;;
  d ← lift (OnChkptUpd (m_diffChecker st) (m_checkpoint st));
  set_diffChecker d ;;
  notify_all (map Confirmed (CheckpointMgr.IterateCurrWindow (m_checkpoint st))).

(** A call of the checkpoint manager that may complete a window. *)
Definition run_checkpoint (call : CheckpointMgr.t -> result Error (CheckpointMgr.t * bool)) : M unit :=
  st ← gets id;
  r ← lift (call (m_checkpoint st));
  set_checkpoint (fst r) ;;
  if (snd r : bool) then OnCheckpointComplete else mret tt.

Definition UpdateOnBootstrapI (hdrBinary : bytes) : M Z :=
  header ← lift (HeaderMgr.create hdrBinary 0);
  st ← gets id;
  (if CheckpointMgr.IsEmpty (m_checkpoint st) then
     let s := m_mSecState st in
     set_secState (mkSecState (HeaderMgr.m_hash header) (checkpointIter s) (checkpointHash s) (checkpointNum s))
   else
     parent ← lift (CheckpointMgr.GetLastHeader (m_checkpoint st));
     valid ← lift (CommonValidate (m_validator st) parent false header false);
     if negb valid then throw "The given block failed common validation" else mret tt) ;;
  notify (Validated header) ;;
  run_checkpoint (fun c => CheckpointMgr.AddHeader c (Some header)) ;;
  mret (HeaderMgr.m_blkNum header).

(** The node a raw pointer refers to. *)
Definition deref (st : t) (ptr : nat) : result Error HeaderNode.t :=
  match CheckpointMgr.m_lastNode (m_checkpoint st) with
  | Some root => match HeaderNode.find root ptr with
                 | Some n => Ok n
                 | None => Throw (Undefined "dangling header node")
                 end
  | None => Throw (Undefined "dangling header node")
  end.

(** [insert] of an unordered map keeps an entry that is there. *)
Definition insert_node (m : gmap bytes nat) (hash : bytes) (ptr : nat) : gmap bytes nat :=
  match m !! hash with Some _ => m | None => <[hash := ptr]> m end.

(** [parentNode->AddChild]. *)
Definition add_child (ptr : nat) (child : HeaderNode.t) : M unit :=
  st ← gets id;
  let c := m_checkpoint st in
  match CheckpointMgr.m_lastNode c with
  | Some root =>
    match HeaderNode.AddChild root ptr child with
    | Some root => set_checkpoint (CheckpointMgr.mk (CheckpointMgr.m_chkptSize c) (CheckpointMgr.m_currWindow c)
        (CheckpointMgr.m_candidate c) (Some root) (CheckpointMgr.m_isLastNodeCandidate c))
    | None => lift (Throw (Undefined "dangling header node"))
    end
  | None => lift (Throw (Undefined "dangling header node"))
  end.

(** [GetLastSyncState], dereferenced. *)
Definition GetLastSyncState (st : t) : result Error SyncState.t :=
  match w_states (m_world st) !! SyncMsgMgr.m_lastSyncState (m_syncMsgMgr st) with
  | Some s => Ok s
  | None => Throw (Undefined "dangling sync state")
  end.

Definition UpdateOnRuntimeAddChild (parentNode : nat) (isParentNodeLive : bool) (header : HeaderMgr.t)
    (nodeAddr : nat) : M unit :=
  st ← gets id;
  syncState ← lift (GetLastSyncState st);
  let isNewNodeLive := SyncState.m_isSynced syncState in
  parent ← lift (deref st parentNode);
  validateRes ← lift (CommonValidate (m_validator st) (HeaderNode.GetHeader parent) isParentNodeLive
    header isNewNodeLive);
  diffRes ← (if validateRes then lift (CheckDifficulty (m_diffChecker st) (HeaderNode.GetHeader parent) header)
             else mret false);
  if validateRes && diffRes then
    notify (Validated header) ;;
    add_child parentNode (HeaderNode.create nodeAddr header (SyncMsgMgr.m_lastSyncState (m_syncMsgMgr st))) ;;
    let hashObj := HeaderMgr.m_hash header in
    if isNewNodeLive then set_nodes (m_offlineNodes st) (insert_node (m_activeNodes st) hashObj nodeAddr)
    else set_nodes (insert_node (m_offlineNodes st) hashObj nodeAddr) (m_activeNodes st)
  else mret tt.

Definition UpdateOnRuntime (hdrBinary : bytes) (env : Env) : M Z :=
  header ← lift (HeaderMgr.create hdrBinary (env_recvTime env));
  st ← gets id;
  let parentHash := EthHeader.ParentHash (HeaderMgr.m_rawHeader header) in
  match m_offlineNodes st !! parentHash with
  | Some parentNode => UpdateOnRuntimeAddChild parentNode false header (env_nodeAddr env)
  | None =>
    match m_activeNodes st !! parentHash with
    | Some parentNode => UpdateOnRuntimeAddChild parentNode true header (env_nodeAddr env)
    | None => mret tt
    end
  end ;;
  mret (HeaderMgr.m_blkNum header).

(** The loop over [m_activeNodes]: erasing the entry the loop is at leaves its
    iterator invalid. *)
Fixpoint CheckExpired (nodes : list (bytes * nat)) (now : Z) : M unit :=
  match nodes with
  | [] => mret tt
  | (hash, ptr) :: rest =>
    st ← gets id;
    node ← lift (deref st ptr);
    alive ← lift (CheckEstDifficulty (m_diffChecker st) (HeaderNode.GetHeader node) now);
    if negb alive then
      set_nodes (m_offlineNodes st) (delete hash (m_activeNodes st)) ;;
      lift (Throw (Undefined "iterator of an erased element"))
    else CheckExpired rest now
  end.

Definition ReleaseConfirmed : M unit :=
  st ← gets id;
  let c := m_checkpoint st in
  lastChptNode ← lift (CheckpointMgr.GetLastNodePtr c);
  match HeaderNode.ReleaseChildHasNDesc lastChptNode (checkpointSize (m_mConfig st)) with
  | None => mret tt
  | Some (lastChptNode, confirmedChild) =>
    let hash := HeaderMgr.m_hash (HeaderNode.GetHeader lastChptNode) in
    let hash' := HeaderMgr.m_hash (HeaderNode.GetHeader confirmedChild) in
    set_nodes (delete hash' (delete hash (m_offlineNodes st))) (delete hash' (delete hash (m_activeNodes st))) ;;
    set_checkpoint (CheckpointMgr.mk (CheckpointMgr.m_chkptSize c) (CheckpointMgr.m_currWindow c)
      (CheckpointMgr.m_candidate c) (Some lastChptNode) (CheckpointMgr.m_isLastNodeCandidate c)) ;;
    run_checkpoint (fun c => CheckpointMgr.AddNode c (Some confirmedChild))
  end.

Definition RuntimeMaintenance (env : Env) : M unit :=
  ReleaseConfirmed ;;
  st ← gets id;
  CheckExpired (map_to_list (m_activeNodes st)) (env_maintTime env).

Definition EndBootstrapI (env : Env) : M unit :=
  st ← gets id;
  syncState ← lift (GetLastSyncState st);
  c ← lift (CheckpointMgr.EndBootstrapPhase (m_checkpoint st) (SyncMsgMgr.m_lastSyncState (m_syncMsgMgr st))
    (env_rootAddr env));
  set_checkpoint c ;;
  lastNode ← lift (CheckpointMgr.GetLastNodePtr c);
  set_nodes (<[HeaderMgr.m_hash (HeaderNode.GetHeader lastNode) := HeaderNode.addr lastNode]> (m_offlineNodes st))
    (m_activeNodes st) ;;
  set_phase BootstrapII.

Definition RefreshSyncMsg (env : Env) : M unit :=
  set_phase Sync ;;
  st ← gets id;
  let '(w, m) := SyncMsgMgr.NewSyncState (env_disableRefresh env) (m_syncMsgMgr st) (m_world st) (env_syncTime env) (env_nonce env)
    (env_stateRef env) (env_listenerAddr env) in
  set_world w ;;
  set_syncMsgMgr m.

Definition PhaseChangeCheck (currBlkNum : Z) (env : Env) : M unit :=
  st ← gets id;
  match m_phase st with
  | BootstrapI => if currBlkNum =? m_bootstrapIEndBlkNum (m_shared st) then EndBootstrapI env else mret tt
  | BootstrapII => if currBlkNum =? m_planedSyncBlkNum (m_shared st) then RefreshSyncMsg env else mret tt
  | _ => mret tt
  end.

Definition Update (hdrBinary : bytes) (env : Env) : M unit :=
  st ← gets id;
  blkNum ← (if decide (m_phase st = BootstrapI) then UpdateOnBootstrapI hdrBinary
            else UpdateOnRuntime hdrBinary env);
  PhaseChangeCheck blkNum env ;;
  st ← gets id;
  if decide (m_phase st = BootstrapI) then mret tt else RuntimeMaintenance env.
End monitor.
End EclipseMonitor.
Arguments EclipseMonitor.t : clear implicits.

(** ** Chains *)

(** [b] passed the common validation with [a] as its parent. *)
Definition validated {V} `{ValidatorBase V} (v : V) (a b : HeaderMgr.t) : Prop :=
  exists live live', CommonValidate v a live b live' = Ok true.

(** Every header is valid with its predecessor as the parent. *)
Definition chain (R : HeaderMgr.t -> HeaderMgr.t -> Prop) (hs : list HeaderMgr.t) : Prop :=
  forall i a b, hs !! i = Some a -> hs !! S i = Some b -> R a b.

Lemma chain_snoc R hs b : chain R hs -> (forall a, last hs = Some a -> R a b) -> chain R (hs ++ [b]).
Proof.
  intros Hc Hl i x y Hx Hy. apply lookup_lt_Some in Hy as Hlt. rewrite length_app in Hlt. cbn in Hlt.
  rewrite lookup_app_l in Hx by lia. destruct (decide (S i < length hs)%nat).
  - rewrite lookup_app_l in Hy by lia. by eapply Hc.
  - rewrite lookup_app_r in Hy by lia. replace (S i - length hs)%nat with 0%nat in Hy by lia.
    injection Hy as <-. apply Hl. rewrite last_lookup. by replace (pred (length hs)) with i by lia.
Qed.

(** The confirmed headers, in the order of the callbacks. *)
Definition confirmed_of (ns : list Notice) : list HeaderMgr.t :=
  omap (fun n => match n with Confirmed h => Some h | Validated _ => None end) ns.

Lemma confirmed_app ns ns' : confirmed_of (ns ++ ns') = confirmed_of ns ++ confirmed_of ns'.
Proof. apply omap_app. Qed.

Lemma confirmed_map hs : confirmed_of (map Confirmed hs) = hs.
Proof. induction hs as [|h hs IH]; [done|]. cbn. by f_equal. Qed.

(** ** What the monitor relies on in a difficulty checker *)

(** A checkpoint with a window can be taken over. *)
Class DiffCheckerLaws (D : Type) `{DiffChecker D} :=
  OnChkptUpd_ok : forall d c, CheckpointMgr.m_currWindow c <> [] -> exists d', OnChkptUpd d c = Ok d'.

Lemma median_ok c : CheckpointMgr.m_currWindow c <> [] -> exists d, CheckpointMgr.GetDiffMedian c = Ok d.
Proof.
  intros Hw. unfold CheckpointMgr.GetDiffMedian.
  destruct (median_of_sort (map HeaderMgr.m_diff (CheckpointMgr.IterateCurrWindow c))) as (d & -> & _); [|by exists d].
  unfold CheckpointMgr.IterateCurrWindow. by destruct (CheckpointMgr.m_currWindow c).
Qed.

#[export] Instance PoW_laws : DiffCheckerLaws PoWDiffChecker.t.
Proof.
  intros d c Hw. cbn. unfold PoWDiffChecker.OnChkptUpd.
  destruct (median_ok c Hw) as [x ->]. by eexists.
Qed.

#[export] Instance PoS_laws : DiffCheckerLaws PoSDiffChecker.t.
Proof. intros d c Hw. by eexists. Qed.

#[export] Instance Generic_laws (Details : ConfigDetails) : DiffCheckerLaws GenericDiffCheckerImpl.t.
Proof.
  intros d c Hw. cbn. unfold GenericDiffCheckerImpl.OnChkptUpd, CheckpointMgr.GetCheckpointBlkNumRange.
  destruct (CheckpointMgr.m_currWindow c) as [|h hs] eqn:E; [done|]. cbn [mbind result_bind].
  destruct (NetworkConfig.IsBlockOfParis _); [by eexists|].
  unfold PoWDiffChecker.OnChkptUpd. destruct (median_ok c) as [x ->]; [by rewrite E|]. by eexists.
Qed.

(** Runs a call of the monitor on a state. *)
Ltac run_m :=
  unfold EclipseMonitor.throw, EclipseMonitor.set_secState, EclipseMonitor.set_phase, EclipseMonitor.set_checkpoint,
    EclipseMonitor.set_diffChecker, EclipseMonitor.set_world, EclipseMonitor.set_syncMsgMgr, EclipseMonitor.set_nodes,
    EclipseMonitor.add_notice, EclipseMonitor.put_shared, EclipseMonitor.m_world,
    EclipseMonitor.gets, EclipseMonitor.modify, EclipseMonitor.lift, mbind, mret, stx_bind, stx_ret;
  cbn [fst snd id EclipseMonitor.m_mConfig EclipseMonitor.m_mSecState EclipseMonitor.m_phase
    EclipseMonitor.m_checkpoint EclipseMonitor.m_validator EclipseMonitor.m_diffChecker EclipseMonitor.m_shared
    EclipseMonitor.m_syncMsgMgr EclipseMonitor.m_offlineNodes EclipseMonitor.m_activeNodes
    EclipseMonitor.notices genesisHash checkpointIter checkpointHash checkpointNum
    sh_world m_startBlockNum m_bootstrapIEndBlkNum m_planedSyncBlkNum].

(** ** The callbacks *)

Section callbacks.
Context {D V X : Type} `{Callbacks : HeaderCallbacks X}.
Implicit Types st : EclipseMonitor.t D V X.

(** The state after callbacks: the notices are added, and what is shared may
    have changed. *)
Definition noted (ns : list Notice) (sh : Shared X) st : EclipseMonitor.t D V X :=
  EclipseMonitor.mk (EclipseMonitor.m_mConfig st) (EclipseMonitor.m_mSecState st) (EclipseMonitor.m_phase st)
    (EclipseMonitor.m_checkpoint st) (EclipseMonitor.m_validator st) (EclipseMonitor.m_diffChecker st) sh
    (EclipseMonitor.m_syncMsgMgr st) (EclipseMonitor.m_offlineNodes st) (EclipseMonitor.m_activeNodes st)
    (EclipseMonitor.notices st ++ ns).

Lemma notify_noted n st : exists sh r, EclipseMonitor.notify n st = (noted [n] sh st, r) /\
  OnHeader (EclipseMonitor.visible st) n (EclipseMonitor.m_shared st) = (sh, r).
Proof.
  unfold EclipseMonitor.notify, EclipseMonitor.on_shared. run_m.
  change (EclipseMonitor.visible (EclipseMonitor.mk _ _ _ _ _ _ _ _ _ _ _)) with (EclipseMonitor.visible st).
  destruct (OnHeader _ _ _) as [sh r]. by exists sh, r.
Qed.

Lemma notify_confirmed `{Laws : !HeaderCallbacksLaws X} hs st :
  exists sh, EclipseMonitor.notify_all (map Confirmed hs) st = (noted (map Confirmed hs) sh st, Ok tt).
Proof.
  revert st. induction hs as [|h hs IH]; intros st; cbn [map EclipseMonitor.notify_all].
  { exists (EclipseMonitor.m_shared st). unfold noted. rewrite app_nil_r. by destruct st. }
  destruct (notify_noted (Confirmed h) st) as (sh & r & E & Ho).
  destruct (OnHeaderConfirmed_ok (EclipseMonitor.visible st) h (EclipseMonitor.m_shared st)) as [sh' Ho'].
  rewrite Ho in Ho'. injection Ho' as -> ->. unfold mbind, stx_bind. rewrite E.
  destruct (IH (noted [Confirmed h] sh' st)) as [sh2 ->]. exists sh2. unfold noted. cbn. by rewrite <-app_assoc.
Qed.
End callbacks.

(** ** The invariant *)

Section invariant.
Context {D V X : Type} `{Laws : DiffCheckerLaws D} `{Valid : ValidatorBase V} `{Calls : HeaderCallbacksLaws X}.
Local Abbreviation st_t := (EclipseMonitor.t D V X).
Local Abbreviation M := (EclipseMonitor.M (D := D) (V := V) (X := X)).
Context (conf : MonitorConfig) (v : V).
Context (Hk : 2 <= checkpointSize conf).
Local Abbreviation k := (checkpointSize conf).

(** [hs]: the headers handed to the checkpoints so far; [ws]: the windows
    completed. *)
Record history (hs : list HeaderMgr.t) (ws : list (list HeaderMgr.t)) (st : st_t) : Prop := {
  h_conf : EclipseMonitor.m_mConfig st = conf;
  h_valid : EclipseMonitor.m_validator st = v;
  h_size : CheckpointMgr.m_chkptSize (EclipseMonitor.m_checkpoint st) = k;
  h_windows : windows_ok (EclipseMonitor.m_checkpoint st);
  h_queue : pushes k (mkQueue [] []) hs = (ws, queue_of (EclipseMonitor.m_checkpoint st));
  h_chain : chain (validated v) hs;
  h_last : match last hs with
           | Some h => CheckpointMgr.GetLastHeader (EclipseMonitor.m_checkpoint st) = Ok h
           | None => CheckpointMgr.IsEmpty (EclipseMonitor.m_checkpoint st) = true
           end;
  h_tree : match CheckpointMgr.m_lastNode (EclipseMonitor.m_checkpoint st) with
           | Some root => linked (validated v) root
           | None => True
           end;
  h_boot : EclipseMonitor.m_phase st = BootstrapI ->
           CheckpointMgr.m_lastNode (EclipseMonitor.m_checkpoint st) = None }.

(** What the security state and the notices say. *)
Record reported (hs : list HeaderMgr.t) (ws : list (list HeaderMgr.t)) (st : st_t) : Prop := {
  r_notices : confirmed_of (EclipseMonitor.notices st) = concat ws;
  r_genesis : forall h, head hs = Some h ->
              genesisHash (EclipseMonitor.m_mSecState st) = HeaderMgr.m_hash h;
  r_iter : checkpointIter (EclipseMonitor.m_mSecState st) = u64 (zlen ws);
  r_last : forall h, last (concat ws) = Some h ->
           checkpointHash (EclipseMonitor.m_mSecState st) = HeaderMgr.m_hash h /\
           checkpointNum (EclipseMonitor.m_mSecState st) = EthHeader.Number (HeaderMgr.m_rawHeader h) }.

Definition good (st : st_t) : Prop := exists hs ws, history hs ws st /\ reported hs ws st.

(** A call is safe if it ends in a good state, whether it returns or throws, or
    is undefined. *)
Definition safe {A} (r : st_t * result Error A) : Prop :=
  match r with
  | (_, Throw (Undefined _)) => True
  | (st, _) => good st
  end.

Lemma safe_bind {A B} (m : M A) (f : A -> M B) st :
  safe (m st) -> (forall a st', m st = (st', Ok a) -> good st' -> safe (f a st')) ->
  safe (stx_bind _ _ _ _ f m st).
Proof.
  intros Hm Hf. unfold stx_bind. destruct (m st) as [st' [a|e]]; [by apply Hf|done].
Qed.

Lemma safe_lift {A B} (r : result Error A) (f : A -> M B) st :
  good st -> (forall a, r = Ok a -> safe (f a st)) ->
  safe (stx_bind _ _ _ _ f (EclipseMonitor.lift r) st).
Proof. intros Hst Hf. unfold stx_bind, EclipseMonitor.lift. destruct r as [a|e]; [by apply Hf|by destruct e]. Qed.

Lemma safe_throw {A} (r : result Error A) st : good st -> safe (EclipseMonitor.lift r st).
Proof. intros Hst. unfold EclipseMonitor.lift. destruct r as [a|e]; [done|by destruct e]. Qed.

(** The parts of the state the invariant is about. *)
Definition core (st : st_t) :=
  (EclipseMonitor.m_mConfig st, EclipseMonitor.m_validator st, EclipseMonitor.m_checkpoint st,
   EclipseMonitor.m_phase st, EclipseMonitor.m_mSecState st, confirmed_of (EclipseMonitor.notices st)).

Lemma core_noted h sh st : core st = core (noted [Validated h] sh st).
Proof. unfold core, noted. run_m. by rewrite confirmed_app, app_nil_r. Qed.

Lemma good_core st st' : core st = core st' -> good st -> good st'.
Proof.
  intros E (hs & ws & [] & []). unfold core in E. injection E as E1 E2 E3 E4 E5 E6.
  rewrite ?E1, ?E2, ?E3, ?E4, ?E5, ?E6 in *. exists hs, ws. by split; split.
Qed.

(** Leaving the first phase does not hurt. *)
Lemma good_phase st st' : EclipseMonitor.m_phase st' <> BootstrapI -> core st =
    (EclipseMonitor.m_mConfig st', EclipseMonitor.m_validator st', EclipseMonitor.m_checkpoint st',
     EclipseMonitor.m_phase st, EclipseMonitor.m_mSecState st', confirmed_of (EclipseMonitor.notices st')) ->
  good st -> good st'.
Proof.
  intros Hp E (hs & ws & [] & []). unfold core in E. injection E as E1 E2 E3 E5 E6.
  rewrite ?E1, ?E2, ?E3, ?E5, ?E6 in *. exists hs, ws. by split; split.
Qed.

(** The window of a completed checkpoint is not empty. *)
Lemma window_nonempty c : 2 <= zlen (CheckpointMgr.IterateCurrWindow c) -> CheckpointMgr.m_currWindow c <> [].
Proof.
  unfold CheckpointMgr.IterateCurrWindow. intros Hl E. rewrite E in Hl. cbn in Hl.
  destruct (CheckpointMgr.m_lastNode c); [destruct (CheckpointMgr.m_isLastNodeCandidate c)|]; cbn in Hl; lia.
Qed.

(** A header is handed to the checkpoints: if the call is a push on the queue,
    the header is valid after the last one, and the genesis hash is its own if
    it is the first, the monitor stays good. *)
Lemma run_checkpoint_safe hs ws st call h c' :
  history hs ws st -> reported hs ws st ->
  (forall a, last hs = Some a -> validated v a h) ->
  (hs = [] -> genesisHash (EclipseMonitor.m_mSecState st) = HeaderMgr.m_hash h) ->
  call (EclipseMonitor.m_checkpoint st)
    = Ok (c', snd (push k (queue_of (EclipseMonitor.m_checkpoint st)) h)) ->
  queue_of c' = fst (push k (queue_of (EclipseMonitor.m_checkpoint st)) h) ->
  CheckpointMgr.m_chkptSize c' = k -> windows_ok c' -> CheckpointMgr.GetLastHeader c' = Ok h ->
  match CheckpointMgr.m_lastNode c' with Some root => linked (validated v) root | None => True end ->
  (EclipseMonitor.m_phase st = BootstrapI -> CheckpointMgr.m_lastNode c' = None) ->
  safe (EclipseMonitor.run_checkpoint call st).
Proof using Hk Laws Calls.
  intros [] [] Hv Hg Hcall Hq Hs Hw Hlast Htree Hboot.
  pose proof (pushes_app k (mkQueue [] []) hs [h]) as Happ. rewrite h_queue0 in Happ. cbn [pushes] in Happ.
  pose proof (pushes_stream k (mkQueue [] []) (hs ++ [h]) ltac:(cbn; lia)) as Hst.
  destruct (push k (queue_of (EclipseMonitor.m_checkpoint st)) h) as [q full] eqn:Ep. cbn [fst snd] in *. subst q.
  rewrite Happ in Hst.
  assert (chain (validated v) (hs ++ [h])) as Hchain by (by apply chain_snoc).
  assert (forall x, head (hs ++ [h]) = Some x -> genesisHash (EclipseMonitor.m_mSecState st) = HeaderMgr.m_hash x) as Hgen.
  { intros x Hx. destruct hs as [|y l]; [injection Hx as <-; auto|by apply r_genesis0]. }
  unfold EclipseMonitor.run_checkpoint. run_m. rewrite Hcall. run_m. destruct full.
  - destruct Hst as (Hcat & Hall & Hlen & Hwin). rewrite last_last in Hwin. clear Hwin.
    apply Forall_app in Hall as [Hall [Hwl _]%Forall_cons]. rewrite Z.max_r in Hwl by lia.
    unfold EclipseMonitor.OnCheckpointComplete. run_m. rewrite Hlast. run_m.
    destruct (OnChkptUpd_ok (EclipseMonitor.m_diffChecker st) c') as [d' ->].
    { apply window_nonempty. change (q_window (queue_of c')) with (CheckpointMgr.IterateCurrWindow c') in Hwl. lia. }
    run_m. match goal with |- safe (EclipseMonitor.notify_all (map Confirmed ?l) ?st) =>
      destruct (notify_confirmed l st) as [sh ->] end.
    exists (hs ++ [h]), (ws ++ [q_window (queue_of c')]). split; split; unfold noted; run_m; try done.
    + by rewrite last_snoc.
    + rewrite confirmed_app, confirmed_map, r_notices0, concat_app. cbn [concat]. by rewrite app_nil_r.
    + rewrite r_iter0, length_app, wrap_add_l. do 2 f_equal. cbn [length]. lia.
    + assert (q_pending (queue_of c') = []) as Hp.
      { unfold push in Ep. destruct (_ <=? _); [|done]. apply (f_equal fst) in Ep. cbn [fst] in Ep. by rewrite <-Ep. }
      rewrite Hp, app_nil_r in Hcat. cbn [q_pending app] in Hcat.
      intros x Hx. rewrite Hcat, last_snoc in Hx. by injection Hx as <-.
  - rewrite app_nil_r in *. run_m. exists (hs ++ [h]), ws. split; split; run_m; try done. by rewrite last_snoc.
Qed.

(** The checkpoint with another root. *)
Definition with_root (c : CheckpointMgr.t) (root : HeaderNode.t) : CheckpointMgr.t :=
  CheckpointMgr.mk (CheckpointMgr.m_chkptSize c) (CheckpointMgr.m_currWindow c)
    (CheckpointMgr.m_candidate c) (Some root) (CheckpointMgr.m_isLastNodeCandidate c).

(** The subtree of the root may change. *)
Lemma history_root hs ws st st' root root' :
  history hs ws st -> CheckpointMgr.m_lastNode (EclipseMonitor.m_checkpoint st) = Some root ->
  HeaderNode.GetHeader root' = HeaderNode.GetHeader root -> linked (validated v) root' ->
  EclipseMonitor.m_mConfig st' = EclipseMonitor.m_mConfig st ->
  EclipseMonitor.m_validator st' = EclipseMonitor.m_validator st ->
  EclipseMonitor.m_phase st' = EclipseMonitor.m_phase st ->
  EclipseMonitor.m_checkpoint st' = with_root (EclipseMonitor.m_checkpoint st) root' -> history hs ws st'.
Proof.
  intros [] En Hhd Hl E1 E2 E3 E4.
  split; rewrite ?E1, ?E2, ?E3, ?E4; cbn [with_root CheckpointMgr.m_chkptSize CheckpointMgr.m_lastNode]; try done.
  - unfold windows_ok in *. cbn. by rewrite En in h_windows0.
  - rewrite h_queue0. f_equal. unfold queue_of, pending, CheckpointMgr.IterateCurrWindow. cbn. by rewrite En, Hhd.
  - unfold CheckpointMgr.GetLastHeader, CheckpointMgr.IsEmpty in *. rewrite En in h_last0. cbn in *.
    destruct (last hs); [by rewrite Hhd|done].
  - intros Hp. specialize (h_boot0 Hp). congruence.
Qed.

Lemma add_child_safe st ptr child m :
  good st -> EclipseMonitor.deref st ptr = Ok m -> HeaderNode.m_children child = [] ->
  validated v (HeaderNode.GetHeader m) (HeaderNode.GetHeader child) ->
  safe (EclipseMonitor.add_child ptr child st).
Proof.
  intros (hs & ws & Hh & Hrep) Hd Hch Hv. unfold EclipseMonitor.deref in Hd. unfold EclipseMonitor.add_child. run_m.
  destruct (CheckpointMgr.m_lastNode (EclipseMonitor.m_checkpoint st)) as [root|] eqn:En; [|done].
  pose proof (AddChild_added ptr child root) as Ha.
  destruct (HeaderNode.find root ptr) as [m'|]; [|done]. injection Hd as ->. destruct Ha as (root' & -> & Ha).
  run_m. exists hs, ws. split; [|destruct Hrep; by split].
  eapply (history_root hs ws st _ root root'); try done; [by eapply added_header|].
  destruct child as [ca chd cs cl]. cbn [HeaderNode.m_children] in Hch. subst cl.
  eapply (added_linked ptr _ (HeaderNode.mk ca chd cs [])); try done.
  pose proof (h_tree _ _ _ Hh) as Ht. by rewrite En in Ht.
Qed.

Lemma good_safe {A} (a : A) st st' : core st = core st' -> good st -> safe (st', Ok a).
Proof. intros E Hg. by apply (good_core st). Qed.

Lemma UpdateOnRuntimeAddChild_safe st ptr live header addr :
  good st -> safe (EclipseMonitor.UpdateOnRuntimeAddChild ptr live header addr st).
Proof.
  intros Hg. unfold EclipseMonitor.UpdateOnRuntimeAddChild. run_m.
  destruct (EclipseMonitor.GetLastSyncState st) as [s|e]; [|by destruct e].
  destruct (EclipseMonitor.deref st ptr) as [parent|e] eqn:Ed; [|by destruct e].
  destruct (CommonValidate _ _ _ _ _) as [b|e] eqn:Ev; [|by destruct e].
  destruct b; [|run_m; done].
  destruct (CheckDifficulty _ _ _) as [b|e]; [|by destruct e]. destruct b; [|run_m; done]. cbn [andb]. run_m.
  destruct (notify_noted (Validated header) st) as (sh & r & -> & _).
  set (st1 := noted [Validated header] sh st).
  assert (core st = core st1) as Ec by apply core_noted.
  destruct r as [[]|e]; [|destruct e; try done; by apply (good_core st)].
  pose proof (add_child_safe st1 ptr (HeaderNode.create addr header (SyncMsgMgr.m_lastSyncState (EclipseMonitor.m_syncMsgMgr st)))
    parent) as Hadd.
  destruct (EclipseMonitor.add_child ptr _ st1) as [st2 [[]|e]]; [|apply Hadd; try done].
  - assert (good st2) as Hg2.
    { apply Hadd; try done; [by apply (good_core st)|]. exists live, (SyncState.m_isSynced s).
      destruct Hg as (hs & ws & [] & _). by rewrite h_valid0 in Ev. }
    destruct (SyncState.m_isSynced s); run_m; by apply (good_core st2).
  - by apply (good_core st).
  - exists live, (SyncState.m_isSynced s). destruct Hg as (hs & ws & [] & _). by rewrite h_valid0 in Ev.
Qed.

Lemma UpdateOnRuntime_safe st hdrBinary env : good st -> safe (EclipseMonitor.UpdateOnRuntime hdrBinary env st).
Proof.
  intros Hg. unfold EclipseMonitor.UpdateOnRuntime. run_m.
  destruct (HeaderMgr.create _ _) as [header|e]; [|by destruct e].
  destruct (EclipseMonitor.m_offlineNodes st !! _) as [p|].
  { pose proof (UpdateOnRuntimeAddChild_safe st p false header (env_nodeAddr env) Hg) as Hs.
    by destruct (EclipseMonitor.UpdateOnRuntimeAddChild _ _ _ _ _) as [st' [[]|e]]. }
  destruct (EclipseMonitor.m_activeNodes st !! _) as [p|]; [|done].
  pose proof (UpdateOnRuntimeAddChild_safe st p true header (env_nodeAddr env) Hg) as Hs.
  by destruct (EclipseMonitor.UpdateOnRuntimeAddChild _ _ _ _ _) as [st' [[]|e]].
Qed.

Lemma CheckExpired_safe nodes now st : good st -> safe (EclipseMonitor.CheckExpired nodes now st).
Proof.
  intros Hg. revert st Hg. induction nodes as [|[hash ptr] rest IH]; intros st Hg; cbn [EclipseMonitor.CheckExpired]; run_m; [done|].
  destruct (EclipseMonitor.deref st ptr) as [n|e]; [|by destruct e].
  destruct (CheckEstDifficulty _ _ _) as [b|e]; [|by destruct e]. destruct b; [by apply IH|run_m; done].
Qed.

Lemma ReleaseConfirmed_safe st : good st -> safe (EclipseMonitor.ReleaseConfirmed st).
Proof using Hk Laws Calls.
  intros (hs & ws & Hh & Hrep). pose proof Hh as Hh0. destruct Hh0. unfold EclipseMonitor.ReleaseConfirmed. run_m.
  unfold CheckpointMgr.GetLastNodePtr.
  destruct (CheckpointMgr.m_lastNode (EclipseMonitor.m_checkpoint st)) as [root|] eqn:En.
  2:{ by exists hs, ws. }
  rewrite h_conf0. destruct (HeaderNode.ReleaseChildHasNDesc root k) as [[root' child]|] eqn:Er.
  2:{ run_m. by exists hs, ws. }
  destruct (release_edges _ _ _ _ _ Er h_tree0) as (Hr' & Hc & d & _ & Hv).
  assert (HeaderNode.GetHeader root' = HeaderNode.GetHeader root) as Hhd.
  { destruct root as [a h s l]. cbn in Er. destruct (HeaderNode.take_child l k) as [[? ?]|]; [|done]. by injection Er as <- _. }
  run_m. set (st1 := EclipseMonitor.mk _ _ _ _ _ _ _ _ _ _ _).
  assert (history hs ws st1) as Hh1 by (by apply (history_root hs ws st st1 root root')).
  assert (reported hs ws st1) as Hrep1 by (destruct Hrep; by split).
  assert (last hs = Some (HeaderNode.GetHeader root)) as Hlast.
  { unfold CheckpointMgr.GetLastHeader, CheckpointMgr.IsEmpty in h_last0. rewrite En in h_last0. cbn in h_last0.
    destruct (last hs); [by injection h_last0 as ->|done]. }
  destruct (AddNode_push (EclipseMonitor.m_checkpoint st1) child) as (c' & Hadd & Hq & Hn & Hw & Hs).
  - by rewrite (h_size _ _ _ Hh1).
  - by exists root'.
  - apply (h_windows _ _ _ Hh1).
  - rewrite (h_size _ _ _ Hh1) in *. eapply (run_checkpoint_safe hs ws st1 _ (HeaderNode.GetHeader child) c'); try done.
    + intros a. rewrite Hlast. by intros [= <-].
    + intros ->. done.
    + unfold CheckpointMgr.GetLastHeader. by rewrite Hn.
    + by rewrite Hn.
    + intros Hp. specialize (h_boot0 Hp). congruence.
Qed.

Lemma RuntimeMaintenance_safe st env : good st -> safe (EclipseMonitor.RuntimeMaintenance env st).
Proof using Hk Laws Calls.
  intros Hg. unfold EclipseMonitor.RuntimeMaintenance. apply safe_bind; [by apply ReleaseConfirmed_safe|].
  intros _ st' _ Hg'. run_m. by apply CheckExpired_safe.
Qed.

Lemma RefreshSyncMsg_safe st env : good st -> safe (EclipseMonitor.RefreshSyncMsg env st).
Proof.
  intros Hg. unfold EclipseMonitor.RefreshSyncMsg. run_m.
  destruct (SyncMsgMgr.NewSyncState _ _ _ _ _ _ _) as [w m]. run_m. by apply (good_phase st).
Qed.

Lemma EndBootstrapI_safe st env : good st -> safe (EclipseMonitor.EndBootstrapI env st).
Proof.
  intros Hg. pose proof Hg as (hs & ws & Hh & Hrep). pose proof Hh as Hh0. destruct Hh0.
  unfold EclipseMonitor.EndBootstrapI. run_m.
  destruct (EclipseMonitor.GetLastSyncState st) as [s|e]; [|by destruct e].
  destruct (CheckpointMgr.EndBootstrapPhase _ _ _) as [c|e] eqn:Ee; [|by destruct e].
  assert (CheckpointMgr.m_lastNode (EclipseMonitor.m_checkpoint st) = None /\
    CheckpointMgr.m_candidate (EclipseMonitor.m_checkpoint st) = [] /\
    CheckpointMgr.m_currWindow (EclipseMonitor.m_checkpoint st) <> []) as (Hn & Hc & Hw).
  { unfold CheckpointMgr.EndBootstrapPhase in Ee.
    destruct (CheckpointMgr.m_lastNode _); [done|]. split; [done|].
    destruct (CheckpointMgr.m_candidate _) as [|x l]; [split; [done|]|done].
    intros E. by rewrite E in Ee. }
  destruct (EndBootstrapPhase_queue _ (SyncMsgMgr.m_lastSyncState (EclipseMonitor.m_syncMsgMgr st)) (env_rootAddr env) Hn Hc Hw)
    as (c' & n & E' & Q & W & N & S & L & Hcr). rewrite Ee in E'. injection E' as <-. run_m.
  unfold CheckpointMgr.GetLastNodePtr. rewrite N. run_m.
  exists hs, ws. split; [|destruct Hrep; by split]. split; run_m; try done.
  - by rewrite S.
  - by rewrite Q.
  - unfold CheckpointMgr.GetLastHeader in *. rewrite N.
    destruct (last hs); [congruence|]. unfold CheckpointMgr.IsEmpty in h_last0.
    rewrite Hn, Hc in h_last0. by destruct (CheckpointMgr.m_currWindow _).
  - rewrite N, Hcr. by apply edges_mk.
Qed.

(** The last header after a push in the bootstrap phase. *)
Lemma pushed_last c q h : CheckpointMgr.m_lastNode c = None -> queue_of c = fst (push k q h) ->
  CheckpointMgr.GetLastHeader c = Ok h.
Proof.
  intros Hn. unfold queue_of, pending, CheckpointMgr.IterateCurrWindow, CheckpointMgr.GetLastHeader. rewrite Hn.
  rewrite !app_nil_r. unfold push. destruct (_ <=? _); cbn [fst]; intros [= -> ->]; [cbn|]; by rewrite last_snoc.
Qed.

Lemma empty_history hs ws st : history hs ws st ->
  CheckpointMgr.IsEmpty (EclipseMonitor.m_checkpoint st) = true <-> hs = [].
Proof.
  intros []. destruct (last hs) as [h|] eqn:El.
  - split; [|by intros ->]. intros E. unfold CheckpointMgr.IsEmpty, CheckpointMgr.GetLastHeader in *.
    destruct (CheckpointMgr.m_lastNode _); [done|].
    destruct (CheckpointMgr.m_candidate _); [|done]. by destruct (CheckpointMgr.m_currWindow _).
  - split; [|done]. by apply last_None in El.
Qed.

(** The checkpoint part of the bootstrap update. *)
Lemma bootstrap_push_safe hs ws st header :
  history hs ws st -> reported hs ws st -> EclipseMonitor.m_phase st = BootstrapI ->
  (forall a, last hs = Some a -> validated v a header) ->
  (hs = [] -> genesisHash (EclipseMonitor.m_mSecState st) = HeaderMgr.m_hash header) ->
  safe (EclipseMonitor.run_checkpoint (fun c => CheckpointMgr.AddHeader c (Some header)) st).
Proof using Hk Laws Calls.
  intros Hh Hrep Hp Hv Hgen. pose proof Hh as Hh0. destruct Hh0.
  destruct (AddHeader_push (EclipseMonitor.m_checkpoint st) header) as (c' & Hadd & Hq & Hn & Hs); [auto|].
  rewrite h_size0 in *. eapply (run_checkpoint_safe hs ws st _ header c'); try done.
  - unfold windows_ok. by rewrite Hn.
  - by eapply pushed_last.
  - by rewrite Hn.
Qed.

Lemma UpdateOnBootstrapI_safe st hdrBinary :
  good st -> EclipseMonitor.m_phase st = BootstrapI -> safe (EclipseMonitor.UpdateOnBootstrapI hdrBinary st).
Proof using Hk Laws Calls.
  intros Hg Hp. pose proof Hg as (hs & ws & Hh & Hrep). pose proof (empty_history _ _ _ Hh) as He.
  unfold EclipseMonitor.UpdateOnBootstrapI. run_m.
  destruct (HeaderMgr.create hdrBinary 0) as [header|e]; [|by destruct e].
  assert (forall st1, history hs ws st1 -> reported hs ws st1 -> EclipseMonitor.m_phase st1 = BootstrapI ->
    (forall a, last hs = Some a -> validated v a header) ->
    (hs = [] -> genesisHash (EclipseMonitor.m_mSecState st1) = HeaderMgr.m_hash header) ->
    safe ((EclipseMonitor.notify (Validated header) ;;
           EclipseMonitor.run_checkpoint (fun c => CheckpointMgr.AddHeader c (Some header)) ;;
           mret (HeaderMgr.m_blkNum header) : M Z) st1)) as Hgo.
  { intros st1 H1 H2 H3 H4 H5. unfold mbind, stx_bind at 1.
    destruct (notify_noted (Validated header) st1) as (sh & r & -> & _).
    destruct r as [[]|e].
    2:{ destruct e; try done; (eapply good_core; [apply core_noted|by exists hs, ws]). }
    apply safe_bind; [|by intros _ st2 _ Hg2]. eapply bootstrap_push_safe; try done.
    - by destruct H1; split.
    - destruct H2. split; unfold noted; run_m; try done. by rewrite confirmed_app, app_nil_r. }
  destruct (CheckpointMgr.IsEmpty (EclipseMonitor.m_checkpoint st)) eqn:Ee; run_m.
  - pose proof (proj1 He eq_refl) as ->.
    assert (ws = []) as -> by (pose proof (h_queue _ _ _ Hh) as Hq; by injection Hq as <- _).
    apply Hgo; try done.
    + by destruct Hh; split.
    + destruct Hrep. by split; run_m.
  - destruct (CheckpointMgr.GetLastHeader (EclipseMonitor.m_checkpoint st)) as [parent|e] eqn:El; [|by destruct e].
    destruct (CommonValidate _ _ _ _ _) as [b|e] eqn:Ev; [|by destruct e].
    destruct b; run_m; [|done]. apply Hgo; try done.
    + intros a Ha. pose proof (h_last _ _ _ Hh) as Hl. rewrite Ha, El in Hl. injection Hl as ->.
      exists false, false. by rewrite <-(h_valid _ _ _ Hh).
    + intros E. by apply He in E.
Qed.

Lemma Update_safe st hdrBinary env : good st -> safe (EclipseMonitor.Update hdrBinary env st).
Proof using Hk Laws Calls.
  intros Hg. unfold EclipseMonitor.Update, mbind.
  apply safe_bind; [done|]. intros st0 st1 [= <- <-] _.
  apply safe_bind.
  { destruct (decide _); [by apply UpdateOnBootstrapI_safe|by apply UpdateOnRuntime_safe]. }
  intros blkNum st2 _ Hg2. apply safe_bind.
  { unfold EclipseMonitor.PhaseChangeCheck. run_m. destruct (EclipseMonitor.m_phase st2); try done.
    - destruct (_ =? _); [by apply EndBootstrapI_safe|done].
    - destruct (_ =? _); [by apply RefreshSyncMsg_safe|done]. }
  intros _ st3 _ Hg3. run_m. destruct (decide _); [done|]. by apply RuntimeMaintenance_safe.
Qed.

Lemma RefreshBootstrapPlan_safe st latest start : good st ->
  safe (EclipseMonitor.RefreshBootstrapPlan latest start st).
Proof.
  intros Hg. unfold EclipseMonitor.RefreshBootstrapPlan, EclipseMonitor.on_shared.
  destruct (EclipseMonitor.RefreshPlan _ _ _ _) as [sh [[]|e]]; [|destruct e; try done]; by apply (good_core st).
Qed.
End invariant.

(** ** Runs of the monitor *)

(** The public operations, and what the owners of the event manager and the
    sync states may do in between. *)
Inductive call (X : Type) :=
| DoUpdate (hdrBinary : bytes) (env : Env)
| DoRefreshBootstrapPlan (latestBlkNum : Z) (startBlkNum : option Z)
| DoRefreshSyncMsg (env : Env)
| DoEndBootstrapI (env : Env)
| DoEvents (w : World X).
Arguments DoUpdate {X}.
Arguments DoRefreshBootstrapPlan {X}.
Arguments DoRefreshSyncMsg {X}.
Arguments DoEndBootstrapI {X}.
Arguments DoEvents {X}.

Section runs.
Context {D V X : Type} `{Laws : DiffCheckerLaws D} `{Valid : ValidatorBase V} `{Calls : HeaderCallbacksLaws X}.
Local Abbreviation st_t := (EclipseMonitor.t D V X).

Definition exec (c : call X) (st : st_t) : st_t * result Error unit :=
  match c with
  | DoUpdate hdrBinary env => EclipseMonitor.Update hdrBinary env st
  | DoRefreshBootstrapPlan latest start => EclipseMonitor.RefreshBootstrapPlan latest start st
  | DoRefreshSyncMsg env => EclipseMonitor.RefreshSyncMsg env st
  | DoEndBootstrapI env => EclipseMonitor.EndBootstrapI env st
  | DoEvents w => EclipseMonitor.set_world w st
  end.

(** A run goes on after exceptions, and stops at undefined behaviour. *)
Inductive reachable (st0 : st_t) : st_t -> Prop :=
| reachable_start : reachable st0 st0
| reachable_return st c st' : reachable st0 st -> exec c st = (st', Ok tt) -> reachable st0 st'
| reachable_throw st c st' e : reachable st0 st -> exec c st = (st', Throw e) ->
    (forall what, e <> Undefined what) -> reachable st0 st'.

Lemma exec_safe conf (v : V) (st : st_t) c : 2 <= checkpointSize conf -> good conf v st -> safe conf v (exec c st).
Proof using Laws Calls.
  intros Hk Hg. destruct c; cbn [exec].
  - by apply Update_safe.
  - by apply RefreshBootstrapPlan_safe.
  - by apply RefreshSyncMsg_safe.
  - by apply EndBootstrapI_safe.
  - by apply (good_core conf v st).
Qed.

Lemma create_good conf sessionID (owner : X) (v : V) (d : D) addr sign env (st : st_t) : 2 <= checkpointSize conf ->
  EclipseMonitor.create conf sessionID owner v d addr sign env = Ok st -> good conf v st.
Proof.
  intros Hk Hc. unfold EclipseMonitor.create in Hc. bind_ok Hc. destruct a as [w m]. injection Hc as <-.
  exists [], []. split; split; try done.
Qed.

Lemma reachable_good conf (v : V) (st0 st : st_t) : 2 <= checkpointSize conf -> good conf v st0 -> reachable st0 st ->
  good conf v st.
Proof using Laws Calls.
  intros Hk Hst0. induction 1 as [|st c st' _ IH He|st c st' e _ IH He Hu]; [done| |].
  - pose proof (exec_safe conf v st c Hk IH) as Hs. by rewrite He in Hs.
  - pose proof (exec_safe conf v st c Hk IH) as Hs. rewrite He in Hs. destruct e; try done. by destruct (Hu what).
Qed.

(** The history behind what a monitor has reported: the chain [hs], of which the
    windows [ws] are confirmed. *)
Definition chain_report (conf : MonitorConfig) (v : V) (st : st_t) : Prop :=
  exists hs ws,
    chain (validated v) hs /\
    concat ws ++ pending (EclipseMonitor.m_checkpoint st) = hs /\
    confirmed_of (EclipseMonitor.notices st) = concat ws /\
    Forall (fun w => zlen w = checkpointSize conf) ws /\
    zlen (pending (EclipseMonitor.m_checkpoint st)) < checkpointSize conf /\
    (forall h, head hs = Some h -> genesisHash (EclipseMonitor.m_mSecState st) = HeaderMgr.m_hash h) /\
    checkpointIter (EclipseMonitor.m_mSecState st) = u64 (zlen ws) /\
    (forall h, last (concat ws) = Some h ->
       checkpointHash (EclipseMonitor.m_mSecState st) = HeaderMgr.m_hash h /\
       checkpointNum (EclipseMonitor.m_mSecState st) = EthHeader.Number (HeaderMgr.m_rawHeader h)).

(** C1. Safety of the monitor: whatever headers the host delivers, in whatever
    order and with whatever forks, and whatever calls throw, until a call is
    undefined, the headers reported as confirmed are, window by window of the
    configured size and each exactly once, a prefix of one chain [hs] in which
    every header passed the common validation against its predecessor; the
    genesis hash is the hash of the first header of the chain, the checkpoint
    hash and number are those of the last confirmed header, and the iteration
    counts the windows.  This holds whatever the callbacks do with the shared
    objects, and if the one for validated headers throws.  The headers not yet confirmed are fewer than a
    window. *)
Theorem confirmed_chain conf sessionID (owner : X) (v : V) (d : D) addr sign env st0 st :
  2 <= checkpointSize conf ->
  EclipseMonitor.create conf sessionID owner v d addr sign env = Ok st0 -> reachable st0 st ->
  chain_report conf v st.
Proof using Laws Calls.
  intros Hk Hc Hr. destruct (reachable_good conf v st0 st Hk (create_good _ _ _ _ _ _ _ _ _ Hk Hc) Hr)
    as (hs & ws & [] & []).
  pose proof (pushes_stream (checkpointSize conf) (mkQueue [] []) hs ltac:(cbn; lia)) as Hs.
  rewrite h_queue0 in Hs. rewrite Z.max_r in Hs by lia. destruct Hs as (H1 & H2 & H3 & _).
  exists hs, ws. by split_and!.
Qed.

(** ** The end of the first phase *)

Lemma plan_spec latest start k : 0 < k -> fits 64 latest -> fits 64 start -> start <= latest ->
  latest - start + 1 < 2 ^ 64 ->
  EclipseMonitor.CalcBootstrapIEndBlkNum latest start k
  = Ok (u64 (start + Z.max 0 ((latest - start + 1) / k - 2) * k - 1)).
Proof.
  intros Hk Hl Hs Hle Hn. unfold EclipseMonitor.CalcBootstrapIEndBlkNum.
  rewrite (proj2 (Z.eqb_neq k 0)) by lia. rewrite (wrap_small 64 (latest - start + 1)) by (split; lia).
  assert (0 <= (latest - start + 1) / k) as Hq by (apply Z.div_pos; lia).
  assert ((latest - start + 1) / k * k <= latest - start + 1) as Hm by (rewrite Z.mul_comm; apply Z.mul_div_le; lia).
  set (n := (latest - start + 1) / k) in *. clearbody n.
  assert ((if 2 <? n then n - 2 else 0) = Z.max 0 (n - 2)) as -> by (destruct (Z.ltb_spec 2 n); lia).
  rewrite wrap_add_r. rewrite <-Z.add_opp_r, wrap_add_l, Z.add_opp_r. done.
Qed.

(** The plan for the first phase: while the chain to be loaded has at least
    three windows the phase ends at a block that completes a window, so that at
    least one window is confirmed, and between two and three windows of blocks
    are left for the second phase.  With less the planned end is the block
    before the first one - block 2^64 - 1 if the chain starts at 0 - and is
    never reached. *)
Theorem bootstrap_plan latest start k :
  0 < k -> fits 64 latest -> fits 64 start -> start <= latest -> latest - start + 1 < 2 ^ 64 ->
  exists e, EclipseMonitor.CalcBootstrapIEndBlkNum latest start k = Ok e /\
    if 3 * k <=? latest - start + 1 then
      (e + 1 - start) mod k = 0 /\ start + k <= e + 1 /\ 2 * k <= latest - e < 3 * k
    else e = u64 (start - 1).
Proof.
  intros Hk Hl Hs Hle Hn. rewrite plan_spec by done. eexists. split; [done|].
  pose proof (Z.div_mod (latest - start + 1) k ltac:(lia)) as Hdm.
  pose proof (Z.mod_pos_bound (latest - start + 1) k Hk) as Hb.
  set (n := (latest - start + 1) / k) in *. set (r := (latest - start + 1) mod k) in *. clearbody n r.
  destruct (Z.leb_spec (3 * k) (latest - start + 1)) as [H3|H3].
  - assert (3 <= n) by nia. rewrite Z.max_r by lia.
    replace (start + (n - 2) * k - 1) with (start + n * k - 2 * k - 1) by ring.
    assert (3 * k <= n * k /\ n * k = k * n) as [Hnk Hcomm] by (split; [nia|ring]).
    rewrite wrap_small by (unfold fits in *; lia). split_and!; [|lia..].
    replace (start + n * k - 2 * k - 1 + 1 - start) with ((n - 2) * k) by ring. apply Z.mod_mul. lia.
  - assert (n <= 2) by nia. rewrite Z.max_l by lia. f_equal. lia.
Qed.

Lemma bootstrap_plan_witness :
  exists e, EclipseMonitor.CalcBootstrapIEndBlkNum 8620000 8600000 430 = Ok e /\
    (e + 1 - 8600000) mod 430 = 0 /\ 8600000 + 430 <= e + 1 /\ 2 * 430 <= 8620000 - e < 3 * 430.
Proof.
  apply (bootstrap_plan 8620000 8600000 430); [lia|split; vm_compute; congruence|split; vm_compute; congruence|lia|].
  vm_compute. reflexivity.
Defined.

(** The first phase can be ended whenever the headers handed in fill windows. *)
Lemma EndBootstrapI_ok conf (v : V) hs ws (st : st_t) env s : 2 <= checkpointSize conf ->
  history conf v hs ws st -> EclipseMonitor.m_phase st = BootstrapI ->
  EclipseMonitor.GetLastSyncState st = Ok s -> hs <> [] -> zlen hs mod checkpointSize conf = 0 ->
  exists st' h, EclipseMonitor.EndBootstrapI env st = (st', Ok tt) /\ last hs = Some h /\
    EclipseMonitor.m_phase st' = BootstrapII /\
    EclipseMonitor.m_offlineNodes st' !! HeaderMgr.m_hash h = Some (env_rootAddr env) /\
    EclipseMonitor.deref st' (env_rootAddr env)
    = Ok (HeaderNode.create (env_rootAddr env) h (SyncMsgMgr.m_lastSyncState (EclipseMonitor.m_syncMsgMgr st))).
Proof.
  intros Hk [] Hp Hsync Hne Hmod. pose proof (h_boot0 Hp) as Hn.
  destruct (full_windows (checkpointSize conf) hs ws (EclipseMonitor.m_checkpoint st)) as [Hc Hw]; try done.
  destruct (EndBootstrapPhase_queue _ (SyncMsgMgr.m_lastSyncState (EclipseMonitor.m_syncMsgMgr st)) (env_rootAddr env) Hn Hc Hw)
    as (c' & n & E' & Q & W & N & S & L & Hcr).
  destruct (last hs) as [h|] eqn:El; [|by apply last_None in El].
  assert (HeaderNode.GetHeader n = h) as Hnh by congruence.
  unfold EclipseMonitor.EndBootstrapI. run_m. rewrite Hsync, E'. run_m. unfold CheckpointMgr.GetLastNodePtr. rewrite N. run_m.
  eexists _, h. split_and!; [done|done|done| |]; run_m; rewrite Hcr, Hnh; cbn [HeaderNode.GetHeader HeaderNode.create HeaderNode.addr].
  - apply lookup_insert_eq.
  - unfold EclipseMonitor.deref. run_m. rewrite N, Hcr, Hnh. cbn. by rewrite Nat.eqb_refl.
Qed.

(** ** Pointers into freed forks *)

(** The estimate of a checker is always computed. *)
Definition estimates : Prop := forall d h now, exists b, CheckEstDifficulty (D := D) d h now = Ok b.

Lemma CheckExpired_undefined nodes now (st : st_t) hash ptr : estimates -> (hash, ptr) ∈ nodes ->
  (forall n, EclipseMonitor.deref st ptr = Ok n ->
    CheckEstDifficulty (EclipseMonitor.m_diffChecker st) (HeaderNode.GetHeader n) now = Ok false) ->
  exists st' what, EclipseMonitor.CheckExpired nodes now st = (st', Throw (Undefined what)).
Proof.
  intros He Hin Hbad. induction nodes as [|[hash' ptr'] rest IH]; [by apply not_elem_of_nil in Hin|].
  cbn [EclipseMonitor.CheckExpired]. run_m.
  assert (forall e, EclipseMonitor.deref st ptr' = Throw e -> exists what, e = Undefined what) as Hund.
  { intros e. unfold EclipseMonitor.deref. repeat case_match; intros [= <-]; by eexists. }
  destruct (EclipseMonitor.deref st ptr') as [n|e] eqn:Ed.
  2:{ destruct (Hund e eq_refl) as [what ->]. by eexists _, _. }
  destruct (He (EclipseMonitor.m_diffChecker st) (HeaderNode.GetHeader n) now) as [b Eb]. rewrite Eb.
  destruct b; cbn [negb]; run_m; [|by eexists _, _].
  apply IH. apply elem_of_cons in Hin as [[= -> ->]|Hin]; [|done].
  specialize (Hbad _ Ed). congruence.
Qed.

Lemma run_checkpoint_ok call (st : st_t) c' full h :
  call (EclipseMonitor.m_checkpoint st) = Ok (c', full) -> CheckpointMgr.GetLastHeader c' = Ok h ->
  (full = true -> CheckpointMgr.m_currWindow c' <> []) ->
  exists st', EclipseMonitor.run_checkpoint call st = (st', Ok tt) /\
    EclipseMonitor.m_checkpoint st' = c' /\ EclipseMonitor.m_activeNodes st' = EclipseMonitor.m_activeNodes st.
Proof using Laws Calls.
  intros Hc Hl Hw. unfold EclipseMonitor.run_checkpoint. run_m. rewrite Hc. run_m. destruct full; [|by eexists].
  unfold EclipseMonitor.OnCheckpointComplete. run_m. rewrite Hl. run_m.
  destruct (OnChkptUpd_ok (EclipseMonitor.m_diffChecker st) c' (Hw eq_refl)) as [d ->]. run_m.
  match goal with |- context[EclipseMonitor.notify_all (map Confirmed ?l) ?st] =>
    destruct (notify_confirmed l st) as [sh ->] end. by eexists.
Qed.

(** What [ReleaseConfirmed] leaves when it confirms a child. *)
Lemma ReleaseConfirmed_root (st : st_t) root root' child :
  CheckpointMgr.m_lastNode (EclipseMonitor.m_checkpoint st) = Some root ->
  2 <= CheckpointMgr.m_chkptSize (EclipseMonitor.m_checkpoint st) ->
  windows_ok (EclipseMonitor.m_checkpoint st) ->
  HeaderNode.ReleaseChildHasNDesc root (checkpointSize (EclipseMonitor.m_mConfig st)) = Some (root', child) ->
  exists st', EclipseMonitor.ReleaseConfirmed st = (st', Ok tt) /\
    CheckpointMgr.m_lastNode (EclipseMonitor.m_checkpoint st') = Some child /\
    EclipseMonitor.m_activeNodes st' = delete (HeaderMgr.m_hash (HeaderNode.GetHeader child))
      (delete (HeaderMgr.m_hash (HeaderNode.GetHeader root')) (EclipseMonitor.m_activeNodes st)).
Proof using Laws Calls.
  intros En Hk Hw Er. unfold EclipseMonitor.ReleaseConfirmed. run_m. unfold CheckpointMgr.GetLastNodePtr.
  rewrite En, Er. run_m. set (st1 := EclipseMonitor.mk _ _ _ _ _ _ _ _ _ _ _).
  destruct (AddNode_push (EclipseMonitor.m_checkpoint st1) child) as (c' & Hadd & Hq & Hn & _ & _).
  - done.
  - by exists root'.
  - unfold windows_ok in *. by rewrite En in Hw.
  - destruct (run_checkpoint_ok (fun c => CheckpointMgr.AddNode c (Some child)) st1 c' _ (HeaderNode.GetHeader child) Hadd)
      as (st' & Hrun & Hc & Ha).
    + unfold CheckpointMgr.GetLastHeader. by rewrite Hn.
    + intros Hf. unfold push in Hq, Hf. cbn [queue_of q_pending] in Hq, Hf.
      destruct (Z.leb_spec (CheckpointMgr.m_chkptSize (EclipseMonitor.m_checkpoint st1))
        (zlen (pending (EclipseMonitor.m_checkpoint st1)) + 1)) as [Hle|]; [|done].
      apply window_nonempty. apply (f_equal q_window) in Hq. cbn [fst q_window queue_of] in Hq. rewrite Hq, length_app.
      change (CheckpointMgr.m_chkptSize (EclipseMonitor.m_checkpoint st1)) with
        (CheckpointMgr.m_chkptSize (EclipseMonitor.m_checkpoint st)) in Hle. cbn [length]. lia.
    + exists st'. rewrite Hrun, Hc, Ha. by split_and!.
Qed.

(** A pruned fork is used after it was freed: when a child is confirmed
    while a live header of another fork is registered under an address that is
    not in the confirmed subtree, the maintenance that follows dereferences a
    dangling pointer - the maps keep the pointers into the forks that the
    checkpoint manager destroys with the old root - and the call is undefined,
    whatever the estimates say. *)
Theorem pruned_fork_dereferenced (st : st_t) env root root' child hash ptr : estimates ->
  CheckpointMgr.m_lastNode (EclipseMonitor.m_checkpoint st) = Some root ->
  2 <= CheckpointMgr.m_chkptSize (EclipseMonitor.m_checkpoint st) ->
  windows_ok (EclipseMonitor.m_checkpoint st) ->
  HeaderNode.ReleaseChildHasNDesc root (checkpointSize (EclipseMonitor.m_mConfig st)) = Some (root', child) ->
  EclipseMonitor.m_activeNodes st !! hash = Some ptr -> HeaderNode.find child ptr = None ->
  hash <> HeaderMgr.m_hash (HeaderNode.GetHeader root') -> hash <> HeaderMgr.m_hash (HeaderNode.GetHeader child) ->
  exists st' what, EclipseMonitor.RuntimeMaintenance env st = (st', Throw (Undefined what)).
Proof using Laws Calls.
  intros He En Hk Hw Er Ha Hf H1 H2. unfold EclipseMonitor.RuntimeMaintenance. run_m.
  destruct (ReleaseConfirmed_root st root root' child En Hk Hw Er) as (st' & -> & Hn & Hact).
  eapply (CheckExpired_undefined _ _ st' hash ptr He).
  - apply elem_of_map_to_list. by rewrite Hact, !lookup_delete_ne by done.
  - intros n. unfold EclipseMonitor.deref. by rewrite Hn, Hf.
Qed.

(** An expired live header makes the maintenance undefined as well: the loop
    erases the entry its iterator is at. *)
Lemma expired_node_undefined (st : st_t) env root hash ptr n : estimates ->
  CheckpointMgr.m_lastNode (EclipseMonitor.m_checkpoint st) = Some root ->
  HeaderNode.ReleaseChildHasNDesc root (checkpointSize (EclipseMonitor.m_mConfig st)) = None ->
  EclipseMonitor.m_activeNodes st !! hash = Some ptr -> HeaderNode.find root ptr = Some n ->
  CheckEstDifficulty (EclipseMonitor.m_diffChecker st) (HeaderNode.GetHeader n) (env_maintTime env) = Ok false ->
  exists st' what, EclipseMonitor.RuntimeMaintenance env st = (st', Throw (Undefined what)).
Proof.
  intros He En Er Ha Hf Hest. unfold EclipseMonitor.RuntimeMaintenance, EclipseMonitor.ReleaseConfirmed. run_m.
  unfold CheckpointMgr.GetLastNodePtr. rewrite En, Er. run_m.
  eapply (CheckExpired_undefined _ _ st hash ptr He); [by apply elem_of_map_to_list|].
  intros m. unfold EclipseMonitor.deref. rewrite En, Hf. by intros [= ->].
Qed.
End runs.

(** ** Concrete monitors *)

Definition sample_conf : MonitorConfig := mkConfig 2 64 600 600.
Definition sample_env : Env := mkEnv 100 101 102 sample_nonce 2 1 0 16 false.
Definition sample_validator : Validator.t := Validator.mk (Calculator (Details := MainnetConfigDetails)).
Definition blank_monitor : EclipseMonitor.t PoSDiffChecker.t Validator.t unit :=
  EclipseMonitor.mk sample_conf (mkSecState [] 0 [] []) BootstrapI (CheckpointMgr.create 2) sample_validator tt
    (mkShared (fst sample_sync) 0 0 0) (snd sample_sync) ∅ ∅ [].
Definition sample_monitor : EclipseMonitor.t PoSDiffChecker.t Validator.t unit :=
  ok_or blank_monitor (EclipseMonitor.create sample_conf sample_session tt sample_validator tt
    sample_sync_addr sample_sign sample_env).
(** Header callbacks that do nothing. *)
Definition no_callbacks : HeaderCallbacks unit := fun _ _ sh => (sh, Ok tt).
#[local] Existing Instance no_callbacks.
Lemma no_callbacks_laws : HeaderCallbacksLaws unit.
Proof. intros vis h sh. by exists sh. Qed.
#[local] Existing Instance no_callbacks_laws.
#[local] Existing Instance MainnetDAA.
#[local] Instance sample_network : ValidatorBase Validator.t := Network_validator MainnetConfigDetails.

Lemma confirmed_chain_witness :
  chain_report sample_conf sample_validator
    (fst (exec (DoUpdate sample_raw sample_env) (fst (exec (DoRefreshBootstrapPlan 912200 (Some 912104)) sample_monitor)))).
Proof.
  apply (confirmed_chain sample_conf sample_session tt sample_validator tt sample_sync_addr sample_sign sample_env
    sample_monitor); [vm_compute; congruence|apply is_ok_or; lazy -[Keccak256]; reflexivity|].
  eapply (reachable_return _ _ (DoUpdate sample_raw sample_env));
    [eapply (reachable_return _ _ (DoRefreshBootstrapPlan 912200 (Some 912104))); [apply reachable_start|]|];
    rewrite (surjective_pairing (exec _ _)) at 1; f_equal; lazy -[Keccak256]; reflexivity.
Defined.

(** A root with two forks: the first has two descendants, the second is live. *)
Definition fork_node (a : nat) (hash : Z) (l : list (Z * HeaderNode.t)) : HeaderNode.t :=
  HeaderNode.mk a (HeaderMgr.mk EthHeader.empty 0 [] [hash] 0 0 0 false) 0 l.
Definition forked_root : HeaderNode.t :=
  fork_node 1 1 [(2, fork_node 2 2 [(1, fork_node 4 4 [(0, fork_node 5 5 [])])]); (0, fork_node 3 3 [])].
Definition forked_monitor : EclipseMonitor.t PoSDiffChecker.t Validator.t unit :=
  EclipseMonitor.mk sample_conf (mkSecState [] 1 [] []) Sync
    (CheckpointMgr.mk 2 [HeaderNode.GetHeader (fork_node 0 0 [])] [] (Some forked_root) false) sample_validator tt
    (mkShared (fst sample_sync) 0 0 0) (snd sample_sync) ∅ {[ [3] := 3%nat ]} [].

Lemma pruned_fork_dereferenced_witness :
  exists st' what, EclipseMonitor.RuntimeMaintenance sample_env forked_monitor = (st', Throw (Undefined what)).
Proof.
  apply (pruned_fork_dereferenced forked_monitor sample_env forked_root
    (fork_node 1 1 [(0, fork_node 3 3 [])]) (fork_node 2 2 [(1, fork_node 4 4 [(0, fork_node 5 5 [])])]) [3] 3);
    [intros d h now; exists true; reflexivity | reflexivity | vm_compute; congruence | intros _; reflexivity
    | reflexivity | reflexivity | reflexivity | discriminate | discriminate].
Defined.
