(* ===== verification/Base64.v ===== *)
(** * Base64

    [libs/mbedtls/library/base64.c], with the constant-time digit conversions of
    [constant_time.c] it uses.  A [size_t] is a 64-bit integer, an [unsigned] a
    32-bit one. *)

From S2P Require Import Prelude.

(** ** Digits without branches *)

(** [mbedtls_ct_uchar_mask_of_range]: 0xff in the range, 0 outside. *)
Definition mbedtls_ct_uchar_mask_of_range (low high c : Z) : Z :=
  let low_mask := Z.shiftr (u32 (c - low)) 8 in
  let high_mask := Z.shiftr (u32 (high - c)) 8 in
  Z.land (Z.lnot (Z.lor low_mask high_mask)) 0xff.

Definition mbedtls_ct_base64_enc_char (value : Z) : Z :=
  let digit := 0 in
  let digit := u8 (Z.lor digit (Z.land (mbedtls_ct_uchar_mask_of_range 0 25 value) (65 + value))) in
  let digit := u8 (Z.lor digit (Z.land (mbedtls_ct_uchar_mask_of_range 26 51 value) (97 + value - 26))) in
  let digit := u8 (Z.lor digit (Z.land (mbedtls_ct_uchar_mask_of_range 52 61 value) (48 + value - 52))) in
  let digit := u8 (Z.lor digit (Z.land (mbedtls_ct_uchar_mask_of_range 62 62 value) 43)) in
  let digit := u8 (Z.lor digit (Z.land (mbedtls_ct_uchar_mask_of_range 63 63 value) 47)) in
  digit.

(** The result is a signed char, -1 for what is not a digit. *)
Definition mbedtls_ct_base64_dec_value (c : Z) : Z :=
  let val := 0 in
  let val := u8 (Z.lor val (Z.land (mbedtls_ct_uchar_mask_of_range 65 90 c) (c - 65 + 0 + 1))) in
  let val := u8 (Z.lor val (Z.land (mbedtls_ct_uchar_mask_of_range 97 122 c) (c - 97 + 26 + 1))) in
  let val := u8 (Z.lor val (Z.land (mbedtls_ct_uchar_mask_of_range 48 57 c) (c - 48 + 52 + 1))) in
  let val := u8 (Z.lor val (Z.land (mbedtls_ct_uchar_mask_of_range 43 43 c) (c - 43 + 62 + 1))) in
  let val := u8 (Z.lor val (Z.land (mbedtls_ct_uchar_mask_of_range 47 47 c) (c - 47 + 63 + 1))) in
  val - 1.

Definition MBEDTLS_ERR_BASE64_BUFFER_TOO_SMALL : Z := -0x002A.
Definition MBEDTLS_ERR_BASE64_INVALID_CHARACTER : Z := -0x002C.

(** [MBEDTLS_BYTE_0] to [MBEDTLS_BYTE_3]. *)
Definition MBEDTLS_BYTE (n x : Z) : Z := u8 (Z.land (Z.shiftr x (8 * n)) 0xff).

(** What a call returns, what it stores in [*olen], and the bytes it writes from
    [dst] on. *)
Record outcome := mkOutcome { ret : Z; olen : option Z; written : bytes }.

(** ** Encoding *)

Definition BASE64_SIZE_T_MAX : Z := u64 (-1).

(** The loop over the groups of three bytes and what follows it. *)
Fixpoint encode_loop (src : bytes) : bytes :=
  match src with
  | C1 :: C2 :: C3 :: rest =>
    mbedtls_ct_base64_enc_char (Z.land (Z.shiftr C1 2) 0x3F) ::
    mbedtls_ct_base64_enc_char (Z.land (Z.shiftl (Z.land C1 3) 4 + Z.shiftr C2 4) 0x3F) ::
    mbedtls_ct_base64_enc_char (Z.land (Z.shiftl (Z.land C2 15) 2 + Z.shiftr C3 6) 0x3F) ::
    mbedtls_ct_base64_enc_char (Z.land C3 0x3F) :: encode_loop rest
  | [C1; C2] =>
    [mbedtls_ct_base64_enc_char (Z.land (Z.shiftr C1 2) 0x3F);
     mbedtls_ct_base64_enc_char (Z.land (Z.shiftl (Z.land C1 3) 4 + Z.shiftr C2 4) 0x3F);
     mbedtls_ct_base64_enc_char (Z.land (Z.shiftl (Z.land C2 15) 2) 0x3F); 61]
  | [C1] =>
    let C2 := 0 in
    [mbedtls_ct_base64_enc_char (Z.land (Z.shiftr C1 2) 0x3F);
     mbedtls_ct_base64_enc_char (Z.land (Z.shiftl (Z.land C1 3) 4 + Z.shiftr C2 4) 0x3F); 61; 61]
  | [] => []
  end.

(** [dst] is the null pointer if [null]. *)
Definition mbedtls_base64_encode (null : bool) (dlen : Z) (src : bytes) : outcome :=
  let slen := zlen src in
  if slen =? 0 then mkOutcome 0 (Some 0) []
  else
    let n := u64 (slen / 3 + (if negb (slen mod 3 =? 0) then 1 else 0)) in
    if (BASE64_SIZE_T_MAX - 1) / 4 <? n then
      mkOutcome MBEDTLS_ERR_BASE64_BUFFER_TOO_SMALL (Some BASE64_SIZE_T_MAX) []
    else
      let n := u64 (n * 4) in
      if (dlen <? u64 (n + 1)) || null then
        mkOutcome MBEDTLS_ERR_BASE64_BUFFER_TOO_SMALL (Some (u64 (n + 1))) []
      else mkOutcome 0 (Some (zlen (encode_loop src))) (encode_loop src ++ [0]).

(** ** Decoding *)

(** The first pass: [n] digits and [equals] signs so far; [spaces_present] when
    the inner loop has skipped spaces.  A space is what the inner loop skips. *)
Fixpoint scan (src : bytes) (spaces_present : bool) (n equals : Z) : Z + Z * Z :=
  match src with
  | [] => inr (n, equals)
  | c :: rest =>
    if c =? 32 then scan rest true n equals
    else if (c =? 13) && match rest with c' :: _ => c' =? 10 | [] => false end then scan rest false n equals
    else if c =? 10 then scan rest false n equals
    else if spaces_present then inl MBEDTLS_ERR_BASE64_INVALID_CHARACTER
    else if 127 <? c then inl MBEDTLS_ERR_BASE64_INVALID_CHARACTER
    else if c =? 61 then
      if 2 <? equals + 1 then inl MBEDTLS_ERR_BASE64_INVALID_CHARACTER
      else scan rest false (u64 (n + 1)) (equals + 1)
    else if negb (equals =? 0) then inl MBEDTLS_ERR_BASE64_INVALID_CHARACTER
    else if mbedtls_ct_base64_dec_value c <? 0 then inl MBEDTLS_ERR_BASE64_INVALID_CHARACTER
    else scan rest false (u64 (n + 1)) equals
  end.

(** The second pass: the accumulator, the digits in it and the signs so far. *)
Fixpoint decode_loop (src : bytes) (x accumulated_digits equals : Z) : bytes :=
  match src with
  | [] => []
  | c :: rest =>
    if (c =? 13) || (c =? 10) || (c =? 32) then decode_loop rest x accumulated_digits equals
    else
      let x := u32 (Z.shiftl x 6) in
      let '(x, equals) :=
        if c =? 61 then (x, equals + 1) else (Z.lor x (u32 (mbedtls_ct_base64_dec_value c)), equals) in
      if accumulated_digits + 1 =? 4 then
        MBEDTLS_BYTE 2 x ::
        (if equals <=? 1 then [MBEDTLS_BYTE 1 x] else []) ++
        (if equals <=? 0 then [MBEDTLS_BYTE 0 x] else []) ++ decode_loop rest x 0 equals
      else decode_loop rest x (accumulated_digits + 1) equals
  end.

(** The number of bytes the digits decode to. *)
Definition decoded_size (n equals : Z) : Z :=
  let n := u64 (u64 (6 * Z.shiftr n 3) + Z.shiftr (u64 (6 * Z.land n 0x7 + 7)) 3) in
  u64 (n - equals).

Definition mbedtls_base64_decode (null : bool) (dlen : Z) (src : bytes) : outcome :=
  match scan src false 0 0 with
  | inl err => mkOutcome err None []
  | inr (n, equals) =>
    if n =? 0 then mkOutcome 0 (Some 0) []
    else
      let n := decoded_size n equals in
      if null || (dlen <? n) then mkOutcome MBEDTLS_ERR_BASE64_BUFFER_TOO_SMALL (Some n) []
      else let out := decode_loop src 0 0 0 in mkOutcome 0 (Some (zlen out)) out
  end.

(** ** The digits *)

(** [c] is a base64 digit. *)
Definition is_digit (c : Z) : Prop :=
  0 <= mbedtls_ct_base64_dec_value c < 64 /\ c <> 61 /\ c <> 32 /\ c <> 13 /\ c <> 10 /\ 0 <= c <= 127.

#[export] Instance is_digit_dec c : Decision (is_digit c).
Proof. unfold is_digit. apply _. Defined.

(** The characters the second pass skips. *)
Definition skipped (c : Z) : bool := (c =? 13) || (c =? 10) || (c =? 32).
Definition symbols (src : bytes) : bytes := List.filter (fun c => negb (skipped c)) src.

Lemma all_below (P : Z -> bool) (n : nat) : forallb (fun i => P (Z.of_nat i)) (seq 0 n) = true ->
  forall v, 0 <= v < Z.of_nat n -> P v = true.
Proof.
  rewrite forallb_forall. intros H v Hv. specialize (H (Z.to_nat v)). rewrite Z2Nat.id in H by lia.
  apply H, in_seq. lia.
Qed.

Lemma enc_digit v : 0 <= v < 64 ->
  is_digit (mbedtls_ct_base64_enc_char v) /\ mbedtls_ct_base64_dec_value (mbedtls_ct_base64_enc_char v) = v.
Proof.
  revert v.
  assert (forall v, 0 <= v < 64 -> bool_decide (is_digit (mbedtls_ct_base64_enc_char v)
    /\ mbedtls_ct_base64_dec_value (mbedtls_ct_base64_enc_char v) = v) = true) as H
    by (apply (all_below _ 64); vm_compute; reflexivity).
  intros v Hv. specialize (H v Hv). by apply bool_decide_eq_true in H.
Qed.

Lemma dec_range c : 0 <= c <= 127 -> -1 <= mbedtls_ct_base64_dec_value c < 64.
Proof.
  assert (forall c, 0 <= c < 128 -> bool_decide (-1 <= mbedtls_ct_base64_dec_value c < 64) = true) as H
    by (apply (all_below _ 128); vm_compute; reflexivity).
  intros Hc. specialize (H c ltac:(lia)). by apply bool_decide_eq_true in H.
Qed.

Lemma dec_special : mbedtls_ct_base64_dec_value 13 = -1 /\ mbedtls_ct_base64_dec_value 32 = -1 /\
  mbedtls_ct_base64_dec_value 10 = -1.
Proof. by vm_compute. Qed.

(** ** The first pass *)

Lemma scan_symbols src sp n e n' e' : all_bytes src -> 0 <= n -> 0 <= e <= 2 -> n + zlen src < 2 ^ 64 ->
  scan src sp n e = inr (n', e') ->
  exists ds k, symbols src = ds ++ repeat 61 k /\ Forall is_digit ds /\ (e <> 0 -> ds = []) /\
    n' = n + zlen ds + Z.of_nat k /\ e' = e + Z.of_nat k /\ e' <= 2.
Proof.
  revert sp n e. induction src as [|c src IH]; intros sp n e Hb Hn He Hl H.
  { injection H as <- <-. exists [], 0%nat. cbn. split_and!; [done|constructor|done|lia..]. }
  apply all_bytes_cons in Hb as [Hc Hb]. cbn [length] in Hl. cbn [scan] in H.
  destruct (Z.eqb_spec c 32) as [->|H32]; [by apply (IH true n e); try done; lia|].
  destruct ((c =? 13) && _) eqn:E13.
  { apply andb_true_iff in E13 as [->%Z.eqb_eq _]. by apply (IH false n e); try done; lia. }
  destruct (Z.eqb_spec c 10) as [->|H10]; [by apply (IH false n e); try done; lia|].
  destruct sp; [done|]. destruct (Z.ltb_spec 127 c) as [|H127]; [done|].
  assert (n + 1 < 2 ^ 64) as Hn1 by lia.
  destruct (Z.eqb_spec c 61) as [->|H61].
  - destruct (Z.ltb_spec 2 (e + 1)) as [|He2]; [done|]. rewrite wrap_small in H by (unfold fits; lia).
    destruct (IH false (n + 1) (e + 1)) as (ds & k & Hs & Hd & Hz & -> & -> & Hle); try done; try lia.
    rewrite (Hz ltac:(lia)) in *. exists [], (S k). cbn [symbols List.filter app repeat].
    change (negb (skipped 61)) with true. cbn [app] in Hs. fold (symbols src). rewrite Hs.
    cbn [length]. split_and!; [done|done|done|lia..].
  - destruct (Z.eqb_spec e 0) as [->|]; [|done]. cbn [negb] in H.
    destruct (Z.ltb_spec (mbedtls_ct_base64_dec_value c) 0) as [|Hv]; [done|].
    rewrite wrap_small in H by (unfold fits; lia).
    assert (is_digit c) as Hdig.
    { destruct (dec_range c) as [_ Hr]; [unfold fits in Hc; lia|]. repeat split; try done; try (unfold fits in Hc; lia).
      intros ->. destruct dec_special as [E _]. lia. }
    destruct (IH false (n + 1) 0) as (ds & k & Hs & Hd & _ & -> & -> & Hle); try done; try lia.
    exists (c :: ds), k. unfold symbols. cbn [List.filter].
    assert (skipped c = false) as ->.
    { unfold skipped. destruct Hdig as (_ & _ & ? & ? & ? & _).
      by rewrite !(proj2 (Z.eqb_neq _ _)). }
    cbn [negb]. fold (symbols src). rewrite Hs. cbn [length]. split_and!; [done|by constructor|done|lia..].
Qed.

Lemma scan_error src sp n e err : scan src sp n e = inl err -> err = MBEDTLS_ERR_BASE64_INVALID_CHARACTER.
Proof.
  revert sp n e. induction src as [|c src IH]; intros sp n e; cbn [scan]; [done|].
  destruct (c =? 32); [apply IH|]. destruct ((c =? 13) && _); [apply IH|]. destruct (c =? 10); [apply IH|].
  destruct sp; [by intros [= <-]|]. destruct (127 <? c); [by intros [= <-]|].
  destruct (c =? 61); [destruct (2 <? e + 1); [by intros [= <-]|apply IH]|].
  destruct (negb _); [by intros [= <-]|]. destruct (_ <? 0); [by intros [= <-]|apply IH].
Qed.

(** ** The second pass *)

Lemma decode_symbols src x a e : decode_loop src x a e = decode_loop (symbols src) x a e.
Proof.
  revert x a e. induction src as [|c src IH]; intros x a e; [done|].
  unfold symbols. cbn [List.filter decode_loop]. fold (symbols src).
  destruct (skipped c) eqn:Es; unfold skipped in Es; rewrite Es; cbn [negb]; [apply IH|].
  cbn [decode_loop]. rewrite Es.
  destruct (c =? 61); destruct (a + 1 =? 4); rewrite ?IH; try done.
Qed.

(** One digit. *)
Definition push_digit (x v : Z) : Z := (x mod 2 ^ 26) * 64 + v.

Lemma decode_digit c rest x a : is_digit c ->
  let x' := push_digit x (mbedtls_ct_base64_dec_value c) in
  decode_loop (c :: rest) x a 0 =
    if a + 1 =? 4 then MBEDTLS_BYTE 2 x' :: MBEDTLS_BYTE 1 x' :: MBEDTLS_BYTE 0 x' :: decode_loop rest x' 0 0
    else decode_loop rest x' (a + 1) 0.
Proof.
  intros (Hv & H61 & H32 & H13 & H10 & _) x'. cbn [decode_loop].
  rewrite !(proj2 (Z.eqb_neq c _)) by done. cbn [orb].
  assert (Z.lor (u32 (Z.shiftl x 6)) (u32 (mbedtls_ct_base64_dec_value c)) = x') as ->; [|done].
  rewrite (wrap_small 32 (mbedtls_ct_base64_dec_value c)) by (unfold fits; lia).
  assert (u32 (Z.shiftl x 6) = Z.shiftl (x mod 2 ^ 26) 6) as ->.
  { rewrite !Z.shiftl_mul_pow2 by lia. change (2 ^ 6) with 64. change (2 ^ 26) with 67108864. word_lia. }
  rewrite lor_shiftl_add; [done|exact Hv|lia].
Qed.

(** The digits before the signs: three bytes for every four digits. *)
Lemma decode_digits ds tl x a : Forall is_digit ds -> 0 <= a < 4 -> exists pre x',
  decode_loop (ds ++ tl) x a 0 = pre ++ decode_loop tl x' ((a + zlen ds) mod 4) 0 /\
  zlen pre = 3 * ((a + zlen ds) / 4).
Proof.
  intros Hd. revert x a. induction Hd as [|c ds Hc _ IH]; intros x a Ha.
  { exists [], x. cbn [app length]. rewrite Z.add_0_r, Z.mod_small, Z.div_small by lia. done. }
  rewrite <-app_comm_cons. rewrite decode_digit by done. cbn zeta. cbn [length].
  destruct (Z.eqb_spec (a + 1) 4) as [E|E].
  - destruct (IH (push_digit x (mbedtls_ct_base64_dec_value c)) 0 ltac:(lia)) as (pre & x' & -> & Hl).
    eexists (_ :: _ :: _ :: pre), x'. split.
    + cbn [app]. do 5 f_equal. rewrite Z.add_0_l.
      replace (a + Z.of_nat (S (length ds))) with (zlen ds + 1 * 4) by lia. by rewrite Z.mod_add.
    + cbn [length]. replace (a + Z.of_nat (S (length ds))) with (zlen ds + 1 * 4) by lia.
      rewrite Z.div_add by lia. rewrite Z.add_0_l in Hl. lia.
  - destruct (IH (push_digit x (mbedtls_ct_base64_dec_value c)) (a + 1) ltac:(lia)) as (pre & x' & -> & Hl).
    exists pre, x'. replace (a + Z.of_nat (S (length ds))) with (a + 1 + zlen ds) by lia. by split.
Qed.

(** The signs: never more than the size computed from the counts. *)
Lemma decode_signs k a x : (k <= 2)%nat -> 0 <= a < 4 ->
  8 * zlen (decode_loop (repeat 61 k) x a 0) <= 6 * (a + Z.of_nat k) + 7 - 8 * Z.of_nat k.
Proof.
  intros Hk Ha. assert (a = 0 \/ a = 1 \/ a = 2 \/ a = 3) as Hcases by lia.
  destruct k as [|[|[|k]]]; [| | |lia]; destruct Hcases as [->|[->|[->| ->]]];
    cbv -[MBEDTLS_BYTE wrap Z.shiftl Z.le]; lia.
Qed.

Lemma decode_loop_bytes src x a e : all_bytes (decode_loop src x a e).
Proof.
  revert x a e. induction src as [|c src IH]; intros x a e; cbn [decode_loop]; [constructor|].
  assert (forall n x, is_byte (MBEDTLS_BYTE n x)) as Hbyte by (intros; by apply wrap_fits).
  assert (forall (b : bool) n x, all_bytes (if b then [MBEDTLS_BYTE n x] else [])) as Hif.
  { intros [] ??; repeat constructor; apply Hbyte. }
  destruct (_ || _); [apply IH|]. destruct (c =? 61); destruct (a + 1 =? 4); try apply IH;
    rewrite all_bytes_cons, !all_bytes_app; auto.
Qed.

(** The size computed from the counts, over the integers. *)
Lemma decoded_size_spec n e : 0 <= n < 2 ^ 64 -> 0 <= e <= 2 -> e <= n ->
  decoded_size n e = (6 * n + 7) / 8 - e.
Proof.
  intros Hn He Hen. unfold decoded_size. change (Z.land n 0x7) with (Z.land n (Z.ones 3)).
  rewrite land_ones_mod, !shiftr_div_pow2 by lia. change (2 ^ 3) with 8.
  pose proof (Z.div_mod n 8 ltac:(lia)) as Hdm. pose proof (Z.mod_pos_bound n 8 ltac:(lia)) as Hr.
  set (q := n / 8) in *. set (r := n mod 8) in *. clearbody q r. subst n. widths.
  rewrite (Z.mod_small (6 * q)), (Z.mod_small (6 * r + 7)) by lia.
  assert (0 <= (6 * r + 7) / 8 <= 7) as Hd by mod_lia.
  rewrite (Z.mod_small (6 * q + _)) by lia.
  assert ((6 * (8 * q + r) + 7) / 8 = 6 * q + (6 * r + 7) / 8) as -> by mod_lia.
  assert (e <= 6 * q + (6 * r + 7) / 8) by mod_lia. apply Z.mod_small. lia.
Qed.

(** Memory safety of the decoder: whatever the input, a call that returns 0
    has written at most [dlen] bytes, all of them bytes, and [*olen] is their
    number; a call that returns an error has written nothing. *)
Theorem base64_decode_bounds null dlen src :
  all_bytes src -> zlen src < 2 ^ 64 -> 0 <= dlen ->
  let o := mbedtls_base64_decode null dlen src in
  zlen (written o) <= dlen /\ all_bytes (written o) /\
  (ret o = 0 -> olen o = Some (zlen (written o))) /\ (ret o <> 0 -> written o = []).
Proof.
  intros Hb Hl Hd. unfold mbedtls_base64_decode.
  assert (forall r o, (r = 0 -> o = Some 0) -> let x := mkOutcome r o [] in zlen (written x) <= dlen /\
    all_bytes (written x) /\ (ret x = 0 -> olen x = Some (zlen (written x))) /\ (ret x <> 0 -> written x = [])) as Hnone.
  { intros r o Hr. cbn. split_and!; [lia|constructor|done|done]. }
  destruct (scan src false 0 0) as [err|[n e]] eqn:Es; [apply scan_error in Es as ->; by apply Hnone|].
  destruct (Z.eqb_spec n 0) as [|Hn]; [by apply Hnone|].
  destruct (scan_symbols src false 0 0 n e Hb ltac:(lia) ltac:(lia) ltac:(lia) Es)
    as (ds & k & Hsym & Hdig & _ & En & Ee & He2).
  assert (zlen (symbols src) <= zlen src) as Hsl.
  { clear. unfold symbols. induction src as [|c l IH]; cbn; [lia|]. destruct (skipped c); cbn [negb length]; lia. }
  rewrite Hsym, length_app, repeat_length in Hsl.
  rewrite decoded_size_spec by lia.
  destruct null; [by apply Hnone|]. cbn [orb].
  destruct (Z.ltb_spec dlen ((6 * n + 7) / 8 - e)) as [|Hle]; [by apply Hnone|].
  cbn [ret olen written]. split_and!; [|apply decode_loop_bytes|done|done].
  rewrite decode_symbols, Hsym.
  destruct (decode_digits ds (repeat 61 k) 0 0 Hdig ltac:(lia)) as (pre & x' & -> & Hp).
  rewrite Z.add_0_l in *. rewrite length_app, Nat2Z.inj_add, Hp.
  pose proof (decode_signs k (zlen ds mod 4) x' ltac:(lia) ltac:(mod_lia)) as Hs.
  set (t := zlen (decode_loop _ _ _ _)) in *. clearbody t. subst n e. mod_lia.
Qed.

(** ** Round trip *)

Lemma triples_ind (P : bytes -> Prop) : P [] -> (forall a, P [a]) -> (forall a b, P [a; b]) ->
  (forall a b c l, P l -> P (a :: b :: c :: l)) -> forall l, P l.
Proof.
  intros H0 H1 H2 H3. fix F 1. intros [|a [|b [|c l]]]; [done|done|done|]. apply H3, F.
Qed.

(** The four digits of three bytes. *)
Definition d1 (a : Z) : Z := a / 4.
Definition d2 (a b : Z) : Z := (a mod 4) * 16 + b / 16.
Definition d3 (b c : Z) : Z := (b mod 16) * 4 + c / 64.
Definition d4 (c : Z) : Z := c mod 64.

Lemma digits_range a b c : is_byte a -> is_byte b -> is_byte c ->
  0 <= d1 a < 64 /\ 0 <= d2 a b < 64 /\ 0 <= d3 b c < 64 /\ 0 <= d4 c < 64.
Proof. intros Ha Hb Hc. unfold d1, d2, d3, d4. widths. split_and!; mod_lia. Qed.

Lemma digits_bits a b c : is_byte a -> is_byte b -> is_byte c ->
  Z.land (Z.shiftr a 2) 0x3F = d1 a /\
  Z.land (Z.shiftl (Z.land a 3) 4 + Z.shiftr b 4) 0x3F = d2 a b /\
  Z.land (Z.shiftl (Z.land b 15) 2 + Z.shiftr c 6) 0x3F = d3 b c /\
  Z.land (Z.shiftl (Z.land b 15) 2) 0x3F = d3 b 0 /\
  Z.land c 0x3F = d4 c.
Proof.
  intros Ha Hb Hc. change 0x3F with (Z.ones 6).
  change (Z.land a 3) with (Z.land a (Z.ones 2)). change (Z.land b 15) with (Z.land b (Z.ones 4)).
  rewrite !land_ones_mod, !Z.shiftl_mul_pow2, !shiftr_div_pow2 by lia.
  change (2 ^ 2) with 4. change (2 ^ 4) with 16. change (2 ^ 6) with 64.
  unfold d1, d2, d3, d4. widths. split_and!; mod_lia.
Qed.

Lemma encode_group a b c rest : is_byte a -> is_byte b -> is_byte c ->
  encode_loop (a :: b :: c :: rest) =
    mbedtls_ct_base64_enc_char (d1 a) :: mbedtls_ct_base64_enc_char (d2 a b) ::
    mbedtls_ct_base64_enc_char (d3 b c) :: mbedtls_ct_base64_enc_char (d4 c) :: encode_loop rest.
Proof. intros Ha Hb Hc. destruct (digits_bits a b c Ha Hb Hc) as (E1 & E2 & E3 & _ & E4). cbn [encode_loop]. by rewrite E1, E2, E3, E4. Qed.

Lemma encode_two a b : is_byte a -> is_byte b ->
  encode_loop [a; b] = [mbedtls_ct_base64_enc_char (d1 a); mbedtls_ct_base64_enc_char (d2 a b);
    mbedtls_ct_base64_enc_char (d3 b 0); 61].
Proof. intros Ha Hb. destruct (digits_bits a b 0 Ha Hb ltac:(by split)) as (E1 & E2 & _ & E3 & _). cbn [encode_loop]. by rewrite E1, E2, E3. Qed.

Lemma encode_one a : is_byte a ->
  encode_loop [a] = [mbedtls_ct_base64_enc_char (d1 a); mbedtls_ct_base64_enc_char (d2 a 0); 61; 61].
Proof. intros Ha. destruct (digits_bits a 0 0 Ha ltac:(by split) ltac:(by split)) as (E1 & E2 & _). cbn [encode_loop]. by rewrite E1, E2. Qed.

Lemma scan_digit v rest n : 0 <= v < 64 -> 0 <= n -> n + 1 < 2 ^ 64 ->
  scan (mbedtls_ct_base64_enc_char v :: rest) false n 0 = scan rest false (n + 1) 0.
Proof.
  intros Hv Hn Hl. destruct (enc_digit v Hv) as [(Hd & H61 & H32 & H13 & H10 & Hc) _]. cbn [scan].
  rewrite !(proj2 (Z.eqb_neq _ _)) by done. cbn [andb].
  rewrite (proj2 (Z.ltb_ge 127 _)), (proj2 (Z.ltb_ge _ 0)) by lia. cbn [negb].
  rewrite (proj2 (Z.eqb_eq 0 0)) by done. cbn [negb]. by rewrite wrap_small by (unfold fits; lia).
Qed.

(** The signs at the end of an encoding. *)
Definition pad (src : bytes) : Z := (3 - zlen src mod 3) mod 3.

Lemma scan_sign rest n e : 0 <= n -> n + 1 < 2 ^ 64 -> 0 <= e < 2 ->
  scan (61 :: rest) false n e = scan rest false (n + 1) (e + 1).
Proof.
  intros Hn Hl He. cbn [scan]. rewrite (proj2 (Z.ltb_ge 2 _)) by lia.
  rewrite wrap_small by (unfold fits; lia). reflexivity.
Qed.

Lemma scan_encoded src n : all_bytes src -> 0 <= n -> n + 4 * ((zlen src + 2) / 3) < 2 ^ 64 ->
  scan (encode_loop src) false n 0 = inr (n + 4 * ((zlen src + 2) / 3), pad src).
Proof.
  intros Hb. revert n. induction src as [|a|a b|a b c l IH] using triples_ind; intros n Hn Hl.
  - cbn [encode_loop scan length]. do 2 f_equal. mod_lia.
  - apply all_bytes_cons in Hb as [Ha _]. destruct (digits_range a 0 0) as (R1 & R2 & _); try done.
    change (zlen [a]) with 1 in *. assert (n + 4 < 2 ^ 64) by exact Hl.
    rewrite encode_one by done. rewrite !scan_digit, !scan_sign by (try done; lia).
    cbn [scan]. do 2 f_equal. change ((1 + 2) / 3) with 1. lia.
  - apply all_bytes_cons in Hb as [Ha [Hb _]%all_bytes_cons]. destruct (digits_range a b 0) as (R1 & R2 & R3 & _); try done.
    change (zlen [a; b]) with 2 in *. assert (n + 4 < 2 ^ 64) by exact Hl.
    rewrite encode_two by done. rewrite !scan_digit, !scan_sign by (try done; lia).
    cbn [scan]. do 2 f_equal. change ((2 + 2) / 3) with 1. lia.
  - apply all_bytes_cons in Hb as [Ha [Hb [Hc Hl']%all_bytes_cons]%all_bytes_cons].
    destruct (digits_range a b c) as (R1 & R2 & R3 & R4); try done.
    assert (zlen (a :: b :: c :: l) = zlen l + 1 * 3) as El by (cbn [length]; lia). unfold pad. rewrite El in *.
    replace (zlen l + 1 * 3 + 2) with (zlen l + 2 + 1 * 3) in * by lia. rewrite Z.div_add, Z.mod_add in * by lia.
    assert (0 <= (zlen l + 2) / 3) by (apply Z.div_pos; lia).
    rewrite encode_group by done. rewrite !scan_digit by (try done; lia).
    rewrite IH by (try done; lia). unfold pad. do 2 f_equal; lia.
Qed.

(** ** The bytes come back *)

Lemma push_mod j x v : 0 <= v < 64 -> 0 <= j <= 26 -> push_digit x v mod 2 ^ (j + 6) = (x mod 2 ^ j) * 64 + v.
Proof.
  intros Hv Hj. unfold push_digit. rewrite Z.pow_add_r by lia. change (2 ^ 6) with 64.
  assert (0 < 2 ^ j) as Hp by lia.
  replace (2 ^ 26) with (2 ^ j * 2 ^ (26 - j)) by (rewrite <-Z.pow_add_r by lia; f_equal; lia).
  assert (0 < 2 ^ (26 - j)) as Hq by lia.
  set (y := x mod (2 ^ j * 2 ^ (26 - j))).
  assert (y mod 2 ^ j = x mod 2 ^ j) as <-.
  { unfold y. apply Z.mod_mod_divide; by exists (2 ^ (26 - j)); ring. }
  clearbody y. pose proof (Z.div_mod y (2 ^ j) ltac:(lia)) as Hdm. pose proof (Z.mod_pos_bound y (2 ^ j) Hp) as Hb.
  symmetry. apply (Z.mod_unique _ _ (y / 2 ^ j)); [left; nia|]. rewrite Hdm at 1. ring.
Qed.

(** The accumulator after the four digits of a group, and its bytes. *)
Lemma group_bytes x a b c : is_byte a -> is_byte b -> is_byte c ->
  let y := push_digit (push_digit (push_digit (push_digit x (d1 a)) (d2 a b)) (d3 b c)) (d4 c) in
  MBEDTLS_BYTE 2 y = a /\ MBEDTLS_BYTE 1 y = b /\ MBEDTLS_BYTE 0 y = c.
Proof.
  intros Ha Hb Hc y. destruct (digits_range a b c Ha Hb Hc) as (R1 & R2 & R3 & R4).
  assert (y mod 2 ^ (18 + 6) = a * 65536 + b * 256 + c) as Hy.
  { unfold y. rewrite (push_mod 18) by (done || lia). change 18 with (12 + 6) at 1.
    rewrite (push_mod 12) by (done || lia). change 12 with (6 + 6) at 1.
    rewrite (push_mod 6) by (done || lia). change 6 with (0 + 6) at 1.
    rewrite (push_mod 0) by (done || lia). change (2 ^ 0) with 1. rewrite Z.mod_1_r.
    unfold d1, d2, d3, d4. widths. mod_lia. }
  clearbody y. change (2 ^ (18 + 6)) with 16777216 in Hy. unfold MBEDTLS_BYTE. change 0xff with (Z.ones 8).
  rewrite !land_ones_mod, !shiftr_div_pow2 by lia.
  change (2 ^ (8 * 2)) with 65536. change (2 ^ (8 * 1)) with 256. change (2 ^ (8 * 0)) with 1. change (2 ^ 8) with 256.
  widths. split_and!; mod_lia.
Qed.

Lemma decode_enc v rest x n : 0 <= v < 64 ->
  decode_loop (mbedtls_ct_base64_enc_char v :: rest) x n 0 =
    if n + 1 =? 4 then MBEDTLS_BYTE 2 (push_digit x v) :: MBEDTLS_BYTE 1 (push_digit x v) ::
      MBEDTLS_BYTE 0 (push_digit x v) :: decode_loop rest (push_digit x v) 0 0
    else decode_loop rest (push_digit x v) (n + 1) 0.
Proof. intros Hv. destruct (enc_digit v Hv) as [Hd E]. rewrite decode_digit by done. by rewrite E. Qed.

Lemma shift_digit x : u32 (Z.shiftl x 6) = push_digit x 0.
Proof.
  unfold push_digit. rewrite !Z.shiftl_mul_pow2 by lia. change (2 ^ 6) with 64. change (2 ^ 26) with 67108864. word_lia.
Qed.

(** The tests on literals and the lists they select. *)
Ltac eval_tests :=
  cbv beta iota zeta delta [Z.add Z.eqb Pos.eqb Pos.add Pos.succ orb app Z.leb Z.compare Pos.compare Pos.compare_cont].

Lemma decode_encoded src x : all_bytes src -> decode_loop (encode_loop src) x 0 0 = src.
Proof.
  intros Hb. revert x. induction src as [|a|a b|a b c l IH] using triples_ind; intros x; [done|..].
  - apply all_bytes_cons in Hb as [Ha _]. assert (is_byte 0) as H0 by (by split).
    destruct (digits_range a 0 0) as (R1 & R2 & _); try done.
    rewrite encode_one by done. rewrite !decode_enc by done. cbn [decode_loop].
    rewrite !shift_digit. pose proof (group_bytes x a 0 0 Ha H0 H0) as (E & _ & _).
    change (d3 0 0) with 0 in E. change (d4 0) with 0 in E.
    eval_tests. by rewrite shift_digit, E.
  - apply all_bytes_cons in Hb as [Ha [Hb _]%all_bytes_cons]. assert (is_byte 0) as H0 by (by split).
    destruct (digits_range a b 0) as (R1 & R2 & R3 & _); try done.
    rewrite encode_two by done. rewrite !decode_enc by done. cbn [decode_loop].
    rewrite !shift_digit. pose proof (group_bytes x a b 0 Ha Hb H0) as (E1 & E2 & _).
    change (d4 0) with 0 in E1, E2.
    eval_tests. by rewrite E1, E2.
  - apply all_bytes_cons in Hb as [Ha [Hb [Hc Hl]%all_bytes_cons]%all_bytes_cons].
    destruct (digits_range a b c) as (R1 & R2 & R3 & R4); try done.
    rewrite encode_group by done. rewrite !decode_enc by done.
    pose proof (group_bytes x a b c Ha Hb Hc) as (E1 & E2 & E3). cbn -[MBEDTLS_BYTE push_digit encode_loop].
    by rewrite E1, E2, E3, IH.
Qed.

Lemma encode_loop_length src : zlen (encode_loop src) = 4 * ((zlen src + 2) / 3).
Proof.
  induction src as [|a|a b|a b c l IH] using triples_ind; try done.
  cbn [encode_loop length]. replace (Z.of_nat (S (S (S (length l)))) + 2) with (zlen l + 2 + 1 * 3) by lia.
  rewrite Z.div_add by lia. lia.
Qed.

(** Round trip: encoding any bytes into a buffer with room for the digits and
    the final zero succeeds with four digits for every three bytes begun, and
    decoding these digits into a buffer of the original size gives the bytes
    back; with less room the encoder reports the size it needs and writes
    nothing. *)
Theorem base64_roundtrip src dlen :
  all_bytes src -> src <> [] -> zlen src < 2 ^ 61 ->
  let n := 4 * ((zlen src + 2) / 3) in
  if dlen <? n + 1 then
    mbedtls_base64_encode false dlen src = mkOutcome MBEDTLS_ERR_BASE64_BUFFER_TOO_SMALL (Some (n + 1)) []
  else exists digits, mbedtls_base64_encode false dlen src = mkOutcome 0 (Some n) (digits ++ [0]) /\
    zlen digits = n /\ mbedtls_base64_decode false (zlen src) digits = mkOutcome 0 (Some (zlen src)) src.
Proof.
  intros Hb Hne Hl n. assert (0 < zlen src) as Hpos by (destruct src; [done|cbn [length]; lia]).
  change (2 ^ 61) with 2305843009213693952 in Hl.
  assert (0 < n < 2 ^ 62) as Hn by (change (2 ^ 62) with 4611686018427387904; unfold n; mod_lia).
  unfold mbedtls_base64_encode. rewrite (proj2 (Z.eqb_neq _ 0)) by lia.
  assert (zlen src / 3 + (if negb (zlen src mod 3 =? 0) then 1 else 0) = (zlen src + 2) / 3) as ->.
  { destruct (Z.eqb_spec (zlen src mod 3) 0); cbn [negb]; mod_lia. }
  rewrite (wrap_small 64 ((zlen src + 2) / 3)) by (split; [unfold n in Hn; lia|unfold n in Hn; lia]).
  rewrite (proj2 (Z.ltb_ge ((BASE64_SIZE_T_MAX - 1) / 4) _)) by (change ((BASE64_SIZE_T_MAX - 1) / 4) with 4611686018427387903; unfold n in Hn; lia).
  replace ((zlen src + 2) / 3 * 4) with n by (unfold n; lia).
  rewrite !(wrap_small 64 n), (wrap_small 64 (n + 1)) by (split; lia). rewrite orb_false_r.
  destruct (dlen <? n + 1); [done|]. exists (encode_loop src). rewrite encode_loop_length. fold n.
  split_and!; [done|done|]. unfold mbedtls_base64_decode.
  rewrite scan_encoded by (try done; fold n; lia). rewrite Z.add_0_l. fold n.
  rewrite (proj2 (Z.eqb_neq n 0)) by lia.
  assert (0 <= pad src <= 2) as Hp by (unfold pad; mod_lia).
  rewrite decoded_size_spec by lia.
  assert ((6 * n + 7) / 8 - pad src = zlen src) as -> by (unfold n, pad; mod_lia).
  cbn [orb]. rewrite Z.ltb_irrefl, decode_encoded by done. done.
Qed.

Lemma base64_roundtrip_witness :
  exists digits, mbedtls_base64_encode false 9 [0x24; 0x48; 0x6E; 0x56] = mkOutcome 0 (Some 8) (digits ++ [0]) /\
    zlen digits = 8 /\ mbedtls_base64_decode false 4 digits = mkOutcome 0 (Some 4) [0x24; 0x48; 0x6E; 0x56].
Proof. apply (base64_roundtrip [0x24; 0x48; 0x6E; 0x56] 9); [byte_list|discriminate|vm_compute; reflexivity]. Defined.

Lemma base64_decode_bounds_witness :
  let o := mbedtls_base64_decode false 2 [74; 69; 104; 117; 86; 61; 61] in
  zlen (written o) <= 2 /\ all_bytes (written o) /\
  (ret o = 0 -> olen o = Some (zlen (written o))) /\ (ret o <> 0 -> written o = []).
Proof. apply (base64_decode_bounds false 2 [74; 69; 104; 117; 86; 61; 61]); [byte_list|vm_compute; reflexivity|lia]. Defined.
