(* ===== verification/Codec.v ===== *)
(** * Base64 and hexadecimal text

    The codecs of [libs/SimpleObjects/include/SimpleObjects/Codec]: [Base64.hpp]
    and [Hex.hpp] with the files they include.  A [char] is its eight bits and
    an output iterator is what is written through it.  The attestation reports
    and the JSON requests carry binary data in these two encodings. *)

From stdpp Require Import strings.
From S2P Require Import Prelude Utf Base64.

(** [std::invalid_argument]; a signed overflow, which the language leaves
    undefined; and a loop that the fuel stopped, which never happens. *)
Inductive CodecError := invalid_argument (what : string) | SignedOverflow | CodecOutOfFuel.

#[export] Instance CodecError_eq_dec : EqDecision CodecError.
Proof. solve_decision. Defined.

Definition chars (s : string) : list Z := map (fun c => Z.of_N (Ascii.N_of_ascii c)) (String.list_ascii_of_string s).

(** ** Base64 *)

Module Base64C.

Definition Alphabet : list Z := chars "ABCDEFGHIJKLMNOPQRSTUVWXYZabcdefghijklmnopqrstuvwxyz0123456789+/".
Definition Padding : Z := 61.

(** *** [Base64Sizes] *)

Definition EstNumGroupsByBytes (inputSize : Z) : Z := u64 (inputSize + (3 - 1)) / 3.
Definition EstEncodedSize (inputSize : Z) : Z := u64 (EstNumGroupsByBytes inputSize * 4).
Definition EstNumGroupsByChar (strLen : Z) : Z := u64 (strLen + (4 - 1)) / 4.
Definition EstDecodedSize (strLen : Z) : Z := u64 (EstNumGroupsByChar strLen * 3).

(** *** Encoding *)

Section encode.
(** [_AddPadding]. *)
Context (addPadding : bool).

Definition Pad : list Z := if addPadding then [Padding] else [].
Definition sk_lut (i : Z) : Z := Alphabet !!! Z.to_nat i.

(** The three overloads of [Encode3]. *)
Definition Encode3_1 (byte1 : Z) : list Z :=
  [sk_lut (Z.land (Z.shiftr byte1 2) 0x3F); sk_lut (Z.land (Z.shiftl byte1 4) 0x30)] ++ Pad ++ Pad.
Definition Encode3_2 (byte1 byte2 : Z) : list Z :=
  [sk_lut (Z.land (Z.shiftr byte1 2) 0x3F);
   sk_lut (Z.lor (Z.land (Z.shiftl byte1 4) 0x30) (Z.land (Z.shiftr byte2 4) 0x0F));
   sk_lut (Z.land (Z.shiftl byte2 2) 0x3C)] ++ Pad.
Definition Encode3_3 (byte1 byte2 byte3 : Z) : list Z :=
  [sk_lut (Z.land (Z.shiftr byte1 2) 0x3F);
   sk_lut (Z.lor (Z.land (Z.shiftl byte1 4) 0x30) (Z.land (Z.shiftr byte2 4) 0x0F));
   sk_lut (Z.lor (Z.land (Z.shiftl byte2 2) 0x3C) (Z.land (Z.shiftr byte3 6) 0x03));
   sk_lut (Z.land byte3 0x3F)].

Fixpoint Encode (src : bytes) : list Z :=
  match src with
  | [] => []
  | [byte1] => Encode3_1 byte1
  | [byte1; byte2] => Encode3_2 byte1 byte2
  | byte1 :: byte2 :: byte3 :: src => Encode3_3 byte1 byte2 byte3 ++ Encode src
  end.
End encode.

(** *** Decoding *)

Inductive Base64DecodeChType := ChEnd | ChPad | ChValid.

Definition sk_iVal : Z := 64.
Definition sk_startCh : Z := 43.
Definition sk_endCh : Z := 122.

(** From ['+'] to ['z']. *)
Definition GetLut : list Z :=
  [62] ++ replicate 3 sk_iVal ++ [63] ++ seqZ 52 10 ++ replicate 6 sk_iVal ++ [sk_iVal] ++
  seqZ 0 13 ++ seqZ 13 13 ++ replicate 5 sk_iVal ++ [sk_iVal] ++ seqZ 26 13 ++ seqZ 39 13.

Section decode.
(** [_isRestricted]: what [_throwOnInvalid], [_checkTrailing] and [_Padding] are. *)
Context (restricted : bool).

Definition CheckChar (ch : Z) : result CodecError Z :=
  if (sk_startCh <=? ch) && (ch <=? sk_endCh) then Ok ch
  else if restricted then Throw (invalid_argument "Invalid base64 character")
  else Ok sk_iVal.

Definition CheckLutValue (val : Z) : result CodecError Z :=
  if restricted && (val =? sk_iVal) then Throw (invalid_argument "Invalid base64 character") else Ok val.

Definition GetValue (ch : Z) : result CodecError Z :=
  ch ← CheckChar ch;
  CheckLutValue (GetLut !!! Z.to_nat (ch - sk_startCh)).

Fixpoint GetNextValue (begin : list Z) : result CodecError (Base64DecodeChType * Z * list Z) :=
  match begin with
  | [] => Ok (ChEnd, 0, [])
  | ch :: begin =>
    if ch =? Padding then Ok (ChPad, 0, begin)
    else
      val ← GetValue ch;
      if restricted || negb (val =? sk_iVal) then Ok (ChValid, val, begin) else GetNextValue begin
  end.

(** [Base64TrailingChecker]. *)
Definition CheckLast (mask val : Z) : result CodecError () :=
  if restricted && negb (Z.land val mask =? 0) then Throw (invalid_argument "Invalid base64 trailing") else Ok ().

(** The three overloads of [Assemble]. *)
Definition Assemble2 (val1 val2 : Z) : result CodecError bytes :=
  _ ← CheckLast 0x0F val2;
  Ok [u8 (Z.lor (Z.shiftl val1 2) (Z.shiftr val2 4))].
Definition Assemble3 (val1 val2 val3 : Z) : result CodecError bytes :=
  _ ← CheckLast 0x03 val3;
  Ok [u8 (Z.lor (Z.shiftl val1 2) (Z.shiftr val2 4));
      u8 (Z.lor (Z.shiftl (Z.land val2 0x0F) 4) (Z.shiftr val3 2))].
Definition Assemble4 (val1 val2 val3 val4 : Z) : bytes :=
  [u8 (Z.lor (Z.shiftl val1 2) (Z.shiftr val2 4));
   u8 (Z.lor (Z.shiftl (Z.land val2 0x0F) 4) (Z.shiftr val3 2));
   u8 (Z.lor (Z.shiftl (Z.land val3 0x03) 6) val4)].

Definition ReqPadding : result CodecError () :=
  if restricted then Throw (invalid_argument "Invalid base64 padding") else Ok ().

(** A turn of the loop after its first character; [next] are the turns that
    follow it. *)
Definition Decode_turn (next : list Z -> result CodecError bytes) (val1 : Z) (begin : list Z) : result CodecError bytes :=
  '(chType, val2, begin) ← GetNextValue begin;
  match chType with
  | ChEnd | ChPad =>
    Throw (invalid_argument "The length of the Base64 input cannot be 1 char more than a multiple of 4")
  | ChValid =>
    '(chType, val3, begin) ← GetNextValue begin;
    match chType with
    | ChPad =>
      '(chType, val4, begin) ← GetNextValue begin;
      match chType with
      | ChPad => Assemble2 val1 val2
      | _ => Throw (invalid_argument "Invalid base64 padding")
      end
    | ChEnd => _ ← ReqPadding; Assemble2 val1 val2
    | ChValid =>
      '(chType, val4, begin) ← GetNextValue begin;
      match chType with
      | ChPad => Assemble3 val1 val2 val3
      | ChEnd => _ ← ReqPadding; Assemble3 val1 val2 val3
      | ChValid =>
        rest ← next begin;
        Ok (Assemble4 val1 val2 val3 val4 ++ rest)
      end
    end
  end.

(** Every turn of the loop takes a character, so the length of the range is fuel
    enough. *)
Fixpoint Decode_loop (fuel : nat) (begin : list Z) : result CodecError bytes :=
  match begin, fuel with
  | [], _ => Ok []
  | _, O => Throw CodecOutOfFuel
  | _, S fuel =>
    '(chType, val1, begin) ← GetNextValue begin;
    match chType with
    | ChEnd => Ok []
    | ChPad => Throw (invalid_argument "Invalid base64 padding")
    | ChValid => Decode_turn (Decode_loop fuel) val1 begin
    end
  end.

Definition Decode (src : list Z) : result CodecError bytes := Decode_loop (length src) src.
End decode.
End Base64C.

(** ** Base64: the strict decoder inverts the encoder *)

Section base64_theory.
Import Base64C.

Lemma sk_lut_enc v : 0 <= v < 64 -> sk_lut v = mbedtls_ct_base64_enc_char v.
Proof.
  intros Hv. apply (bool_decide_eq_true_1 _). revert v Hv. apply (all_below _ 64). vm_compute. reflexivity.
Qed.

Lemma sk_lut_char v : 0 <= v < 64 -> sk_startCh <= sk_lut v <= sk_endCh /\ sk_lut v <> Padding /\
  GetLut !!! Z.to_nat (sk_lut v - sk_startCh) = v.
Proof.
  intros Hv. apply (bool_decide_eq_true_1 _). revert v Hv. apply (all_below _ 64). vm_compute. reflexivity.
Qed.

Lemma lut_range i : 0 <= i < 80 -> GetLut !!! Z.to_nat i = sk_iVal \/
  0 <= GetLut !!! Z.to_nat i < 64 /\ sk_lut (GetLut !!! Z.to_nat i) = i + sk_startCh.
Proof.
  intros Hi. apply (bool_decide_eq_true_1 _). revert i Hi. apply (all_below _ 80). vm_compute. reflexivity.
Qed.

Lemma GetValue_lut r v : 0 <= v < 64 -> GetValue r (sk_lut v) = Ok v.
Proof.
  intros Hv. destruct (sk_lut_char v Hv) as ([H1 H2] & _ & E). unfold GetValue, CheckChar.
  rewrite (proj2 (Z.leb_le _ _) H1), (proj2 (Z.leb_le _ _) H2). cbn [andb mbind result_bind]. rewrite E.
  unfold CheckLutValue, sk_iVal. rewrite (proj2 (Z.eqb_neq _ _)) by lia. by rewrite andb_false_r.
Qed.

Lemma GetValue_ok ch v : GetValue true ch = Ok v -> 0 <= v < 64 /\ ch = sk_lut v.
Proof.
  unfold GetValue, CheckChar. destruct ((sk_startCh <=? ch) && (ch <=? sk_endCh)) eqn:E; [|done].
  apply andb_true_iff in E as [H1%Z.leb_le H2%Z.leb_le]. cbn [mbind result_bind]. unfold CheckLutValue. cbn [andb].
  destruct (lut_range (ch - sk_startCh)) as [->|[Hv El]]; [unfold sk_startCh, sk_endCh in *; lia|done|].
  rewrite (proj2 (Z.eqb_neq _ _)) by (unfold sk_iVal; lia). intros [= <-]. split; [done|lia].
Qed.

Lemma Next_lut r v s : 0 <= v < 64 -> GetNextValue r (sk_lut v :: s) = Ok (ChValid, v, s).
Proof.
  intros Hv. destruct (sk_lut_char v Hv) as (_ & Hp & _). cbn [GetNextValue].
  rewrite (proj2 (Z.eqb_neq _ _)), GetValue_lut by done. cbn [mbind result_bind].
  rewrite (proj2 (Z.eqb_neq v sk_iVal)) by (unfold sk_iVal; lia). by rewrite orb_true_r.
Qed.

Lemma Next_pad r s : GetNextValue r (Padding :: s) = Ok (ChPad, 0, s).
Proof. done. Qed.

(** What the strict decoder read, from what it got. *)
Lemma Next_inv s t v s' : GetNextValue true s = Ok (t, v, s') ->
  match t with
  | ChEnd => s = [] /\ s' = []
  | ChPad => s = Padding :: s'
  | ChValid => 0 <= v < 64 /\ s = sk_lut v :: s'
  end.
Proof.
  destruct s as [|ch s]; cbn [GetNextValue]; [by intros [= <- <- <-]|].
  destruct (Z.eqb_spec ch Padding) as [->|Hp]; [by intros [= <- <- <-]|]. intros H. bind_ok H.
  apply GetValue_ok in E as [Hv ->]. cbn [orb] in H. by injection H as <- <- <-.
Qed.

(** The bytes of four digits, as numbers. *)
Lemma assemble_bytes v1 v2 v3 v4 : 0 <= v1 < 64 -> 0 <= v2 < 64 -> 0 <= v3 < 64 -> 0 <= v4 < 64 ->
  Assemble4 v1 v2 v3 v4 = [v1 * 4 + v2 / 16; v2 mod 16 * 16 + v3 / 4; v3 mod 4 * 64 + v4].
Proof.
  intros H1 H2 H3 H4. unfold Assemble4. change 0x0F with (Z.ones 4). change 0x03 with (Z.ones 2).
  rewrite !land_ones_mod, !(shiftr_div_pow2 _ _) by lia.
  rewrite !lor_shiftl_add by (unfold fits; change (2 ^ 2) with 4; change (2 ^ 4) with 16; change (2 ^ 6) with 64; lia || mod_lia).
  change (2 ^ 2) with 4. change (2 ^ 4) with 16. change (2 ^ 6) with 64.
  rewrite !wrap_small by (widths; mod_lia). done.
Qed.

(** The digits of a group and the group of four digits. *)
Lemma group_digits v1 v2 v3 v4 : 0 <= v1 < 64 -> 0 <= v2 < 64 -> 0 <= v3 < 64 -> 0 <= v4 < 64 ->
  let a := v1 * 4 + v2 / 16 in let b := v2 mod 16 * 16 + v3 / 4 in let c := v3 mod 4 * 64 + v4 in
  is_byte a /\ is_byte b /\ is_byte c /\ d1 a = v1 /\ d2 a b = v2 /\ d3 b c = v3 /\ d4 c = v4.
Proof. intros H1 H2 H3 H4. cbv zeta. unfold d1, d2, d3, d4. widths. split_and!; mod_lia. Qed.

Lemma digits_group a b c : is_byte a -> is_byte b -> is_byte c ->
  d1 a * 4 + d2 a b / 16 = a /\ d2 a b mod 16 * 16 + d3 b c / 4 = b /\ d3 b c mod 4 * 64 + d4 c = c.
Proof. intros Ha Hb Hc. unfold d1, d2, d3, d4. widths. split_and!; mod_lia. Qed.

Lemma encode_bits a b c : is_byte a -> is_byte b -> is_byte c ->
  Z.land (Z.shiftr a 2) 0x3F = d1 a /\ Z.land (Z.shiftl a 4) 0x30 = d2 a 0 /\
  Z.lor (Z.land (Z.shiftl a 4) 0x30) (Z.land (Z.shiftr b 4) 0x0F) = d2 a b /\
  Z.land (Z.shiftl b 2) 0x3C = d3 b 0 /\
  Z.lor (Z.land (Z.shiftl b 2) 0x3C) (Z.land (Z.shiftr c 6) 0x03) = d3 b c /\ Z.land c 0x3F = d4 c.
Proof.
  intros Ha Hb Hc.
  assert (forall x, is_byte x -> Z.land (Z.shiftr x 2) 0x3F = d1 x) as E1 by (intros x; by_byte).
  assert (forall x, is_byte x -> Z.land (Z.shiftl x 4) 0x30 = x mod 4 * 2 ^ 4) as E2 by (intros x; by_byte).
  assert (forall x, is_byte x -> Z.land (Z.shiftr x 4) 0x0F = x / 16) as E3 by (intros x; by_byte).
  assert (forall x, is_byte x -> Z.land (Z.shiftl x 2) 0x3C = x mod 16 * 2 ^ 2) as E4 by (intros x; by_byte).
  assert (forall x, is_byte x -> Z.land (Z.shiftr x 6) 0x03 = x / 64) as E5 by (intros x; by_byte).
  assert (forall x, is_byte x -> Z.land x 0x3F = d4 x) as E6 by (intros x; by_byte).
  rewrite E1, !E2, !E3, !E4, !E5, E6 by done.
  rewrite !lor_add by (lia || (widths; change (2 ^ 4) with 16; change (2 ^ 2) with 4; mod_lia)).
  unfold d2, d3. change (2 ^ 4) with 16. change (2 ^ 2) with 4. rewrite !Z.div_0_l, !Z.add_0_r by lia. done.
Qed.

(** The encoder is that of mbedtls. *)
Lemma Encode_encode_loop src : all_bytes src -> Encode true src = encode_loop src.
Proof.
  assert (is_byte 0) as H0 by by split.
  induction src as [|a|a b|a b c l IH] using triples_ind; intros Hb; [done|..].
  - apply all_bytes_cons in Hb as [Ha _]. rewrite encode_one by done.
    destruct (encode_bits a 0 0 Ha H0 H0) as (E1 & E2 & _), (digits_range a 0 0 Ha H0 H0) as (R1 & R2 & _).
    cbn [Encode]. unfold Encode3_1. by rewrite E1, E2, !sk_lut_enc.
  - apply all_bytes_cons in Hb as [Ha [Hb _]%all_bytes_cons]. rewrite encode_two by done.
    destruct (encode_bits a b 0 Ha Hb H0) as (E1 & _ & E2 & E3 & _), (digits_range a b 0 Ha Hb H0) as (R1 & R2 & R3 & _).
    cbn [Encode]. unfold Encode3_2. by rewrite E1, E2, E3, !sk_lut_enc.
  - apply all_bytes_cons in Hb as [Ha [Hb [Hc Hl]%all_bytes_cons]%all_bytes_cons]. rewrite encode_group by done.
    destruct (encode_bits a b c Ha Hb Hc) as (E1 & _ & E2 & _ & E3 & E4), (digits_range a b c Ha Hb Hc) as (R1 & R2 & R3 & R4).
    cbn [Encode]. unfold Encode3_3. rewrite E1, E2, E3, E4, !sk_lut_enc, IH by done. done.
Qed.

(** *** The loop *)

(** Read the digits at the head of the range. *)
Ltac next_digits := repeat (first [rewrite Next_lut by done|rewrite Next_pad]; cbn [mbind result_bind]).

(** Four digits and what follows. *)
Lemma Decode_four r fuel v1 v2 v3 v4 s : 0 <= v1 < 64 -> 0 <= v2 < 64 -> 0 <= v3 < 64 -> 0 <= v4 < 64 ->
  Decode_loop r (S fuel) (sk_lut v1 :: sk_lut v2 :: sk_lut v3 :: sk_lut v4 :: s) =
    rest ← Decode_loop r fuel s; Ok (Assemble4 v1 v2 v3 v4 ++ rest).
Proof. intros H1 H2 H3 H4. cbn [Decode_loop]. unfold Decode_turn. by next_digits. Qed.

Lemma Encode_cons3 p a b c l : is_byte a -> is_byte b -> is_byte c ->
  Encode p (a :: b :: c :: l) = sk_lut (d1 a) :: sk_lut (d2 a b) :: sk_lut (d3 b c) :: sk_lut (d4 c) :: Encode p l.
Proof.
  intros Ha Hb Hc. destruct (encode_bits a b c Ha Hb Hc) as (E1 & _ & E2 & _ & E3 & E4).
  cbn [Encode]. unfold Encode3_3. by rewrite E1, E2, E3, E4.
Qed.

Lemma Encode_two p a b : is_byte a -> is_byte b ->
  Encode p [a; b] = [sk_lut (d1 a); sk_lut (d2 a b); sk_lut (d3 b 0)] ++ Pad p.
Proof.
  intros Ha Hb. destruct (encode_bits a b 0 Ha Hb ltac:(by split)) as (E1 & _ & E2 & E3 & _).
  cbn [Encode]. unfold Encode3_2. by rewrite E1, E2, E3.
Qed.

Lemma Encode_one p a : is_byte a -> Encode p [a] = [sk_lut (d1 a); sk_lut (d2 a 0)] ++ Pad p ++ Pad p.
Proof.
  intros Ha. destruct (encode_bits a 0 0 Ha ltac:(by split) ltac:(by split)) as (E1 & E2 & _).
  cbn [Encode]. unfold Encode3_1. by rewrite E1, E2.
Qed.

(** An incomplete group. *)
Lemma Assemble3_ok r v1 v2 v3 : 0 <= v1 < 64 -> 0 <= v2 < 64 -> 0 <= v3 < 64 ->
  Assemble3 r v1 v2 v3 = if r && negb (v3 mod 4 =? 0) then Throw (invalid_argument "Invalid base64 trailing")
    else Ok [v1 * 4 + v2 / 16; v2 mod 16 * 16 + v3 / 4].
Proof.
  intros H1 H2 H3. unfold Assemble3, CheckLast. change 0x03 with (Z.ones 2). rewrite land_ones_mod by lia. change (2 ^ 2) with 4.
  destruct (r && _); [done|]. cbn [mbind result_bind]. pose proof (assemble_bytes v1 v2 v3 0 H1 H2 H3 ltac:(lia)) as E.
  unfold Assemble4 in E. by injection E as -> -> _.
Qed.

Lemma Assemble2_ok r v1 v2 : 0 <= v1 < 64 -> 0 <= v2 < 64 ->
  Assemble2 r v1 v2 = if r && negb (v2 mod 16 =? 0) then Throw (invalid_argument "Invalid base64 trailing")
    else Ok [v1 * 4 + v2 / 16].
Proof.
  intros H1 H2. unfold Assemble2, CheckLast. change 0x0F with (Z.ones 4). rewrite land_ones_mod by lia. change (2 ^ 4) with 16.
  destruct (r && _); [done|]. cbn [mbind result_bind]. pose proof (assemble_bytes v1 v2 0 0 H1 H2 ltac:(lia) ltac:(lia)) as E.
  unfold Assemble4 in E. by injection E as -> _.
Qed.

(** A whole number of groups. *)
Definition aligned (b : bytes) : Prop := (3 | zlen b).

Lemma aligned_cons3 a b c l : aligned (a :: b :: c :: l) <-> aligned l.
Proof.
  unfold aligned. cbn [length]. replace (Z.of_nat (S (S (S (length l))))) with (1 * 3 + zlen l) by lia.
  split; intros [k Hk]; [exists (k - 1)|exists (k + 1)]; lia.
Qed.

Lemma not_aligned a b : ~ aligned [a] /\ ~ aligned [a; b].
Proof. split; intros [k Hk]; cbn in Hk; lia. Qed.

(** Encoded text is decoded; what follows the padding of an incomplete group is
    not looked at, and without padding nothing may follow. *)
Lemma Decode_Encode r p b tail fuel : all_bytes b -> (length (Encode p b ++ tail) <= fuel)%nat ->
  tail = [] \/ ~ aligned b /\ p = true -> (r = true -> p = true) -> Decode_loop r fuel (Encode p b ++ tail) = Ok b.
Proof.
  intros Hb Hf Ht Hp. revert fuel Hf Ht. induction b as [|a|a b|a b c l IH] using triples_ind; intros fuel Hf Ht.
  - destruct Ht as [->|[Hn _]]; [by destruct fuel|]. destruct Hn. by exists 0.
  - apply all_bytes_cons in Hb as [Ha _]. assert (is_byte 0) as H0 by by split.
    destruct (digits_range a 0 0 Ha H0 H0) as (R1 & R2 & _), (digits_group a 0 0 Ha H0 H0) as (G1 & _ & _).
    assert (d2 a 0 mod 16 = 0) as Hz by (unfold d2; mod_lia). rewrite Encode_one in * by done.
    destruct fuel as [|fuel]; [destruct p; cbn in Hf; lia|]. cbn [Decode_loop app]. unfold Decode_turn. next_digits.
    destruct p; cbn [Pad app].
    + next_digits. rewrite Assemble2_ok, Hz, G1, andb_false_r by done. done.
    + destruct Ht as [->|[_ ?]]; [|done]. destruct r; [by specialize (Hp eq_refl)|]. cbn [app GetNextValue mbind result_bind ReqPadding]. by rewrite Assemble2_ok, G1 by done.
  - apply all_bytes_cons in Hb as [Ha [Hb _]%all_bytes_cons]. assert (is_byte 0) as H0 by by split.
    destruct (digits_range a b 0 Ha Hb H0) as (R1 & R2 & R3 & _), (digits_group a b 0 Ha Hb H0) as (G1 & G2 & _).
    assert (d3 b 0 mod 4 = 0) as Hz by (unfold d3; mod_lia). rewrite Encode_two in * by done.
    destruct fuel as [|fuel]; [destruct p; cbn in Hf; lia|]. cbn [Decode_loop app]. unfold Decode_turn. next_digits.
    destruct p; cbn [Pad app].
    + next_digits. rewrite Assemble3_ok, Hz, G1, G2, andb_false_r by done. done.
    + destruct Ht as [->|[_ ?]]; [|done]. destruct r; [by specialize (Hp eq_refl)|]. cbn [app GetNextValue mbind result_bind ReqPadding]. by rewrite Assemble3_ok, G1, G2 by done.
  - apply all_bytes_cons in Hb as [Ha [Hb [Hc Hl]%all_bytes_cons]%all_bytes_cons].
    destruct (digits_range a b c Ha Hb Hc) as (R1 & R2 & R3 & R4), (digits_group a b c Ha Hb Hc) as (G1 & G2 & G3).
    rewrite Encode_cons3 in * by done. destruct fuel as [|fuel]; [cbn in Hf; lia|]. cbn [app] in *.
    rewrite Decode_four, IH by (done || cbn in Hf; rewrite ?aligned_cons3 in Ht; done || lia).
    cbn [mbind result_bind]. rewrite assemble_bytes, G1, G2, G3 by done. done.
Qed.

(** One turn; the loop ends before it on the empty range, and in it. *)
Lemma Decode_loop_S r fuel s : Decode_loop r (S fuel) s =
  '(chType, val1, begin) ← GetNextValue r s;
  match chType with
  | ChEnd => Ok []
  | ChPad => Throw (invalid_argument "Invalid base64 padding")
  | ChValid => Decode_turn r (Decode_loop r fuel) val1 begin
  end.
Proof. by destruct s. Qed.

(** What the strict decoder accepts is encoded text. *)
Lemma Decode_inv fuel s b : Decode_loop true fuel s = Ok b ->
  all_bytes b /\ exists tail, s = Encode true b ++ tail /\ (tail = [] \/ ~ aligned b).
Proof.
  assert (is_byte 0) as H0 by by split.
  revert s b. induction fuel as [|fuel IH]; intros s b H; [destruct s; [injection H as <-; split; [constructor|by exists []; auto]|done]|].
  rewrite Decode_loop_S in H.
  bind_ok H. destruct a as [[t1 v1] s1]. apply Next_inv in E. destruct t1; [by destruct E as [-> ->]; injection H as <-; split; [constructor|exists []; auto]|done|].
  destruct E as [R1 ->]. bind_ok H. destruct a as [[t2 v2] s2]. apply Next_inv in E. destruct t2; [done|done|].
  destruct E as [R2 ->]. bind_ok H. destruct a as [[t3 v3] s3]. apply Next_inv in E. destruct t3; [done| |].
  - subst. bind_ok H. destruct a as [[t4 v4] s4]. apply Next_inv in E. destruct t4; [done| |done]. subst.
    rewrite Assemble2_ok in H by done. destruct (Z.eqb_spec (v2 mod 16) 0) as [Hz|]; [|done]. injection H as <-.
    destruct (group_digits v1 v2 0 0) as (Ba & _ & _ & G1 & G2 & _); try done.
    split; [by constructor|]. exists s4. rewrite Encode_one by done. rewrite G1.
    replace (d2 (v1 * 4 + v2 / 16) 0) with v2 by (rewrite <-G2 at 1; unfold d2; rewrite Hz; mod_lia).
    split; [done|right; apply not_aligned; exact 0].
  - destruct E as [R3 ->]. bind_ok H. destruct a as [[t4 v4] s4]. apply Next_inv in E. destruct t4; [done| |].
    + subst. rewrite Assemble3_ok in H by done. destruct (Z.eqb_spec (v3 mod 4) 0) as [Hz|]; [|done]. injection H as <-.
      destruct (group_digits v1 v2 v3 0) as (Ba & Bb & _ & G1 & G2 & G3 & _); try done.
      split; [rewrite ?all_bytes_cons; auto using all_bytes_nil|]. exists s4. rewrite Encode_two, G1, G2 by done.
      replace (d3 (v2 mod 16 * 16 + v3 / 4) 0) with v3 by (rewrite <-G3 at 1; unfold d3; rewrite Hz; mod_lia).
      split; [done|right; apply not_aligned].
    + destruct E as [R4 ->]. bind_ok H. rewrite assemble_bytes in H by done. injection H as <-.
      apply IH in E as (Hb & tail & -> & Ht). destruct (group_digits v1 v2 v3 v4) as (Ba & Bb & Bc & G1 & G2 & G3 & G4); try done.
      split; [rewrite ?all_bytes_cons; auto|]. exists tail. cbn [app]. rewrite Encode_cons3, G1, G2, G3, G4 by done.
      split; [done|]. by rewrite aligned_cons3.
Qed.

(** *** The lenient decoder *)

(** The characters the lenient decoder reads; it passes over the others. *)
Definition relevant (ch : Z) : bool :=
  (ch =? Padding) || negb (match GetValue false ch with Ok v => v =? sk_iVal | Throw _ => true end).

Lemma GetValue_false ch : exists v, GetValue false ch = Ok v.
Proof. unfold GetValue, CheckChar. destruct (_ && _); cbn [mbind result_bind]; eexists; reflexivity. Qed.

Lemma Next_filter s : exists t v s', GetNextValue false s = Ok (t, v, s') /\
  GetNextValue false (List.filter relevant s) = Ok (t, v, List.filter relevant s') /\
  (length s' <= length s)%nat /\ (t <> ChEnd -> (length s' < length s)%nat).
Proof.
  induction s as [|ch s (t & v & s' & E1 & E2 & L1 & L2)]; [by exists ChEnd, 0, []|]. cbn [List.filter GetNextValue].
  destruct (GetValue_false ch) as [v0 E]. unfold relevant at 1. rewrite E.
  destruct (Z.eqb_spec ch Padding) as [->|Hp]; cbn [orb].
  { exists ChPad, 0, s. cbn. split_and!; [done|done|lia|lia]. }
  cbn [mbind result_bind]. destruct (v0 =? sk_iVal) eqn:Ev; cbn [negb].
  - exists t, v, s'. cbn [length]. split_and!; [done|done|lia|]. intros Ht. specialize (L2 Ht). lia.
  - exists ChValid, v0, s. cbn [GetNextValue]. rewrite (proj2 (Z.eqb_neq _ _)), E by done. cbn [mbind result_bind orb].
    rewrite Ev. cbn [negb length]. split_and!; [done|done|lia|lia].
Qed.

(** Read the next value of both ranges. *)
Ltac next_filter :=
  match goal with |- context [GetNextValue false ?s] =>
    let t := fresh "t" in let v := fresh "v" in let s' := fresh "s" in
    let E1 := fresh in let E2 := fresh in
    destruct (Next_filter s) as (t & v & s' & E1 & E2 & ? & ?); rewrite E1, E2; clear E1 E2; cbn [mbind result_bind];
    destruct t; try done
  end.

Lemma Decode_filter fuel s : (length s <= fuel)%nat ->
  Decode_loop false fuel s = Decode_loop false fuel (List.filter relevant s).
Proof.
  revert s. induction fuel as [|fuel IH]; intros s Hf; [by destruct s; [|cbn in Hf; lia]|].
  rewrite !Decode_loop_S. next_filter. unfold Decode_turn. next_filter. next_filter; [next_filter|]. next_filter.
  rewrite IH; [done|]. naive_solver lia.
Qed.

(** *** Theorems *)

(** The restricted base64 decoder accepts exactly the padded encodings: when it
    returns bytes they are bytes whose encoding is the text, up to characters
    that may follow the padding of an incomplete group and are not looked at;
    and it returns them for every such text.  So a text without padding has at
    most one decoding and a decoding only one text. *)
Theorem base64_strict src b : Decode true src = Ok b <->
  all_bytes b /\ exists tail, src = Encode true b ++ tail /\ (tail = [] \/ ~ (3 | zlen b)).
Proof.
  split; [apply Decode_inv|]. intros (Hb & tail & -> & Ht). apply Decode_Encode; [done|done| |done].
  destruct Ht; auto.
Qed.

(** The unrestricted decoder reads the encoding of any bytes, padded or not, with
    any other characters between. *)
Theorem base64_lenient p src b : all_bytes b -> List.filter relevant src = Encode p b -> Decode false src = Ok b.
Proof.
  intros Hb E. unfold Decode. rewrite Decode_filter, E by done. rewrite <-(app_nil_r (Encode p b)) at 1.
  apply Decode_Encode; [done| |by left|done]. rewrite app_nil_r, <-E. apply List.filter_length_le.
Qed.

(** The two base64 implementations agree: for any bytes and a buffer with room,
    mbedtls writes the characters the encoder returns, as many as
    [EstEncodedSize] says, and a final zero; and both decoders give the bytes
    back, no more than [EstDecodedSize] says. *)
Theorem base64_encoders_agree src dlen : all_bytes src -> src <> [] -> zlen src < 2 ^ 61 ->
  EstEncodedSize (zlen src) < dlen ->
  mbedtls_base64_encode false dlen src = mkOutcome 0 (Some (EstEncodedSize (zlen src))) (Encode true src ++ [0]) /\
  mbedtls_base64_decode false (zlen src) (Encode true src) = mkOutcome 0 (Some (zlen src)) src /\
  Decode true (Encode true src) = Ok src /\
  zlen (Encode true src) = EstEncodedSize (zlen src) /\ zlen src <= EstDecodedSize (zlen (Encode true src)).
Proof.
  intros Hb Hne Hl Hd. pose proof (base64_roundtrip src dlen Hb Hne Hl) as H. cbv zeta in H.
  change (2 ^ 61) with 2305843009213693952 in Hl.
  assert (EstEncodedSize (zlen src) = 4 * ((zlen src + 2) / 3)) as En.
  { unfold EstEncodedSize, EstNumGroupsByBytes. rewrite (wrap_small 64 (zlen src + _)) by (widths; lia).
    change (3 - 1) with 2. rewrite wrap_small by (widths; mod_lia). lia. }
  rewrite En in *. rewrite (proj2 (Z.ltb_ge _ _)) in H by lia. destruct H as (digits & E1 & E2 & E3).
  pose proof (encode_loop_length src) as El. rewrite <-Encode_encode_loop in El by done.
  assert (digits = Encode true src) as ->.
  { revert E1. unfold mbedtls_base64_encode. repeat case_match; intros [= _ E]; try by destruct digits.
    all: apply app_inj_2 in E as [E _]; [|done]; rewrite Encode_encode_loop by done; congruence. }
  split_and!; [done|done| |done|].
  - rewrite <-(app_nil_r (Encode true src)). by apply Decode_Encode; [| |left|].
  - rewrite El. unfold EstDecodedSize, EstNumGroupsByChar. rewrite (wrap_small 64 (_ + (4 - 1))) by (widths; mod_lia).
    rewrite wrap_small by (widths; mod_lia). mod_lia.
Qed.
End base64_theory.

(** ** Hexadecimal *)

Module Hex.

(** [HexUpperCaseAlphabet] and [HexLowerCaseAlphabet]. *)
Definition UpperAlphabet : list Z := chars "0123456789ABCDEF".
Definition LowerAlphabet : list Z := chars "0123456789abcdef".

Inductive HexPad := PadDisabled | PadFront.
Inductive HexZero := Keep | AtLeastOne | SkipAll.

(** The character ['0']. *)
Definition ch0 : Z := 48.

(** *** Encoding *)

Section encode.
Context (alphabet : list Z).

Definition hex_lut (nibble : Z) : Z := alphabet !!! Z.to_nat nibble.

(** [HexEncodeSingleImpl]. *)
Definition HexEncodeSingle (keepLeadingZero : bool) (nibble1 nibble2 : Z) : list Z :=
  if keepLeadingZero then [hex_lut nibble1; hex_lut nibble2]
  else if negb (nibble1 =? 0) then [hex_lut nibble1; hex_lut nibble2]
  else if negb (nibble2 =? 0) then [hex_lut nibble2]
  else [].

Definition EncodeSingle (keepLeadingZero : bool) (val : Z) (prefix : list Z) : list Z :=
  prefix ++ HexEncodeSingle keepLeadingZero (Z.land (Z.shiftr val 4) 0x0F) (Z.land val 0x0F).

(** [HexEncodeSkipZerosImpl]. *)
Fixpoint SkipZeros (begin : bytes) : bytes :=
  match begin with b :: rest => if b =? 0 then SkipZeros rest else begin | [] => [] end.

(** [BytesToHexImpl::Encode]. *)
Definition Encode (keepLeadingZero : bool) (src : bytes) (prefix : list Z) : list Z :=
  match (if keepLeadingZero then src else SkipZeros src) with
  | [] => []
  | val :: rest => EncodeSingle keepLeadingZero val prefix ++ concat (map (fun v => EncodeSingle true v []) rest)
  end.

(** *** Encoding of integers *)

(** [IntegerToHexEncodeValImpl<_, Keep>], with [n] nibbles to go. *)
Fixpoint EncodeVal_keep (n : nat) (val : Z) : list Z :=
  match n with
  | O => []
  | S n' => hex_lut (Z.land (Z.shiftr val (4 * Z.of_nat n')) 0x0F) :: EncodeVal_keep n' val
  end.

(** The same for the options that skip the leading zeros. *)
Fixpoint EncodeVal_skip (opt : HexZero) (n : nat) (val : Z) : list Z :=
  match n with
  | O => match opt with AtLeastOne => [ch0] | _ => [] end
  | S n' =>
    if negb (Z.land (Z.shiftr val (4 * Z.of_nat n')) 0x0F =? 0) then EncodeVal_keep (S n') val
    else EncodeVal_skip opt n' val
  end.

Definition EncodeVal (opt : HexZero) (n : nat) (val : Z) : list Z :=
  match opt with Keep => EncodeVal_keep n val | _ => EncodeVal_skip opt n val end.

(** [IntegerToHexEncodeSignedImpl], for a type of [size] bytes.  The negation of
    a value of a type narrower than [int] is an [int], and the unsigned encoder
    is that of its type. *)
Definition EncodeSigned (opt : HexZero) (signed : bool) (size : nat) (val : Z) : result CodecError (list Z) :=
  if signed && (val <? 0) then
    if (4 <=? size)%nat && (val =? - 2 ^ (8 * Z.of_nat size - 1)) then Throw SignedOverflow
    else Ok (EncodeVal opt (2 * Nat.max size 4) (- val))
  else Ok (EncodeVal opt (2 * size) val).

(** [IntegerToHexImpl::Encode]. *)
Definition EncodeInteger (opt : HexZero) (ignoreSign signed : bool) (size : nat) (val : Z) (prefix : list Z)
  : result CodecError (list Z) :=
  let sign := if signed && negb ignoreSign && (val <? 0) then [45] else [] in
  digits ← EncodeSigned opt signed size val;
  Ok (sign ++ prefix ++ digits).
End encode.

(** *** Decoding *)

(** [HexValueLut]. *)
Definition GetValue (ch : Z) : result CodecError Z :=
  if (48 <=? ch) && (ch <=? 57) then Ok (ch - 48)
  else if (65 <=? ch) && (ch <=? 70) then Ok (ch - 65 + 10)
  else if (97 <=? ch) && (ch <=? 102) then Ok (ch - 97 + 10)
  else Throw (invalid_argument "Invalid hex character").

Definition DecodeSingle (nibbleCh1 nibbleCh2 : Z) : result CodecError Z :=
  nibble1 ← GetValue nibbleCh1;
  nibble2 ← GetValue nibbleCh2;
  Ok (u8 (Z.lor (Z.shiftl nibble1 4) nibble2)).

(** [HexDecodeCheckKeepLeadingZeroBytesImpl<false>::SkipZeros]: the first byte
    that is not zero, decoded, and what follows it. *)
Fixpoint SkipZeroChars (begin : list Z) : result CodecError (bytes * list Z) :=
  match begin with
  | [] => Ok ([], [])
  | [ch1] => if negb (ch1 =? ch0) then b ← DecodeSingle ch1 ch0; Ok ([b], []) else Ok ([], [])
  | ch1 :: ch2 :: rest =>
    if negb (ch1 =? ch0) || negb (ch2 =? ch0) then b ← DecodeSingle ch1 ch2; Ok ([b], rest)
    else SkipZeroChars rest
  end.

Fixpoint DecodeBytes (begin : list Z) : result CodecError bytes :=
  match begin with
  | [] => Ok []
  | [ch1] => b ← DecodeSingle ch1 ch0; Ok [b]
  | ch1 :: ch2 :: rest => b ← DecodeSingle ch1 ch2; bs ← DecodeBytes rest; Ok (b :: bs)
  end.

(** [HexToBytesImpl::Decode] with an input iterator. *)
Definition Decode_input (keepLeadingZeroBytes : bool) (begin : list Z) : result CodecError bytes :=
  '(dest, begin) ← (if keepLeadingZeroBytes then Ok ([], begin) else SkipZeroChars begin);
  rest ← DecodeBytes begin;
  Ok (dest ++ rest).

(** [HexDecodeCheckKeepLeadingZeroBytesImpl::DecodeZeros]. *)
Definition DecodeZeros (keepLeadingZeroBytes : bool) (nibbleCh2 : Z) : result CodecError bytes :=
  if keepLeadingZeroBytes || negb (nibbleCh2 =? ch0) then b ← DecodeSingle ch0 nibbleCh2; Ok [b] else Ok [].

(** [HexToBytesImpl::Decode] with a random access iterator. *)
Definition Decode_random (keepLeadingZeroBytes : bool) (padOpt : HexPad) (begin : list Z) : result CodecError bytes :=
  match begin with
  | ch :: rest =>
    if Nat.odd (length begin) then
      match padOpt with
      | PadDisabled => Throw (invalid_argument "Odd number of characters in input string")
      | PadFront =>
        dest ← DecodeZeros keepLeadingZeroBytes ch;
        bs ← Decode_input keepLeadingZeroBytes rest;
        Ok (dest ++ bs)
      end
    else Decode_input keepLeadingZeroBytes begin
  | [] => Decode_input keepLeadingZeroBytes begin
  end.

(** [BitWiseShiftBytesRight] by four bits. *)
Fixpoint ShiftRight4 (shiftedBits : Z) (l : bytes) : bytes :=
  match l with
  | [] => []
  | currVal :: l => u8 (Z.lor (Z.shiftr currVal 4) shiftedBits) :: ShiftRight4 (u8 (Z.shiftl currVal 4)) l
  end.

Definition ThrowIfOdd (padOpt : HexPad) (size : nat) : result CodecError () :=
  match padOpt with
  | PadDisabled => if Nat.odd size then Throw (invalid_argument "Odd number of hex digits") else Ok ()
  | PadFront => Ok ()
  end.

(** [Hex::Decode] of a container, whose iterators are of random access or not. *)
Definition Decode (random keepLeadingZero : bool) (padOpt : HexPad) (src : list Z) : result CodecError bytes :=
  _ ← ThrowIfOdd padOpt (length src);
  if random then Decode_random keepLeadingZero padOpt src
  else
    dest ← Decode_input keepLeadingZero src;
    Ok (if Nat.odd (length src) then ShiftRight4 0 dest else dest).

(** [Hex::Decode] of a range. *)
Definition Decode_range (random keepLeadingZero : bool) (padOpt : HexPad) (begin : list Z) : result CodecError bytes :=
  if random then Decode_random keepLeadingZero padOpt begin
  else
    dest ← Decode_input keepLeadingZero begin;
    _ ← ThrowIfOdd padOpt (length begin);
    Ok (match padOpt with PadFront => if Nat.odd (length begin) then ShiftRight4 0 dest else dest | PadDisabled => dest end).
End Hex.

Section hex_theory.
Import Hex.

(** A hexadecimal letter in lower case. *)
Definition lower (ch : Z) : Z := if (65 <=? ch) && (ch <=? 70) then ch + 32 else ch.

Lemma lower_lut v : 0 <= v < 16 -> hex_lut LowerAlphabet v = (if v <? 10 then 48 + v else 87 + v).
Proof. intros Hv. apply (bool_decide_eq_true_1 _). revert v Hv. apply (all_below _ 16). vm_compute. reflexivity. Qed.

Lemma upper_lut v : 0 <= v < 16 -> lower (hex_lut UpperAlphabet v) = hex_lut LowerAlphabet v.
Proof. intros Hv. apply (bool_decide_eq_true_1 _). revert v Hv. apply (all_below _ 16). vm_compute. reflexivity. Qed.

Lemma lower_lower v : 0 <= v < 16 -> lower (hex_lut LowerAlphabet v) = hex_lut LowerAlphabet v.
Proof. intros Hv. apply (bool_decide_eq_true_1 _). revert v Hv. apply (all_below _ 16). vm_compute. reflexivity. Qed.

Lemma hex_GetValue_ok ch v : GetValue ch = Ok v <-> 0 <= v < 16 /\ lower ch = hex_lut LowerAlphabet v.
Proof.
  unfold GetValue, lower. split.
  - intros H. assert (0 <= v < 16) as Hv by (repeat case_match; simplify_eq; lia). split; [done|]. rewrite lower_lut by done.
    repeat case_match; simplify_eq; lia.
  - intros [Hv E]. rewrite lower_lut in E by done. repeat case_match; try (f_equal; lia); exfalso; lia.
Qed.

Lemma GetValue_range ch v : GetValue ch = Ok v -> 0 <= v < 16.
Proof. by intros [? _]%hex_GetValue_ok. Qed.

(** The byte of two nibbles. *)
Lemma nibbles_byte n1 n2 : 0 <= n1 < 16 -> 0 <= n2 < 16 -> u8 (Z.lor (Z.shiftl n1 4) n2) = n1 * 16 + n2.
Proof. intros H1 H2. rewrite lor_shiftl_add by (unfold fits; change (2 ^ 4) with 16; lia). apply wrap_small. widths. lia. Qed.

Lemma byte_nibbles b : is_byte b -> Z.land (Z.shiftr b 4) 0x0F = b / 16 /\ Z.land b 0x0F = b mod 16.
Proof. intros Hb. split; revert Hb; by_byte. Qed.

Lemma DecodeSingle_ok c1 c2 b : DecodeSingle c1 c2 = Ok b <->
  is_byte b /\ [lower c1; lower c2] = EncodeSingle LowerAlphabet true b [].
Proof.
  unfold DecodeSingle, EncodeSingle. cbn [app HexEncodeSingle]. rewrite result_bind_ok. split.
  - intros (n1 & [H1 E1]%hex_GetValue_ok & H). apply result_bind_ok in H as (n2 & [H2 E2]%hex_GetValue_ok & [= <-]).
    rewrite nibbles_byte by done. assert (is_byte (n1 * 16 + n2)) as Hb by (widths; lia). split; [done|].
    destruct (byte_nibbles _ Hb) as [-> ->]. rewrite E1, E2. do 2 f_equal; [|f_equal]; f_equal; mod_lia.
  - intros [Hb E]. destruct (byte_nibbles b Hb) as [N1 N2]. rewrite N1, N2 in E. injection E as E1 E2.
    exists (b / 16). assert (0 <= b / 16 < 16 /\ 0 <= b mod 16 < 16) as [R1 R2] by (widths; split; mod_lia).
    split; [by apply hex_GetValue_ok|]. apply result_bind_ok. exists (b mod 16). split; [by apply hex_GetValue_ok|].
    f_equal. rewrite nibbles_byte by done. mod_lia.
Qed.

Lemma Encode_keep alphabet src : Encode alphabet true src [] = concat (map (fun v => EncodeSingle alphabet true v []) src).
Proof. by destruct src. Qed.

(** Two characters for every byte. *)
Lemma length_hex alphabet src : length (Encode alphabet true src []) = (2 * length src)%nat.
Proof. rewrite Encode_keep. induction src as [|b src IH]; [done|]. cbn [map concat]. rewrite length_app, IH. cbn. lia. Qed.

Lemma pairs_ind (P : list Z -> Prop) : P [] -> (forall a, P [a]) -> (forall a b l, P l -> P (a :: b :: l)) -> forall l, P l.
Proof. intros H0 H1 H2. fix F 1. intros [|a [|b l]]; [done|done|]. apply H2, F. Qed.

Lemma odd_length_2 {A} (a b : A) l : Nat.odd (length (a :: b :: l)) = Nat.odd (length l).
Proof. done. Qed.

Lemma DecodeBytes_ok s b : Nat.odd (length s) = false ->
  DecodeBytes s = Ok b <-> all_bytes b /\ map lower s = Encode LowerAlphabet true b [].
Proof.
  revert b. induction s as [|c|c1 c2 s IH] using pairs_ind; intros b Hs; [|done|].
  - split; [intros [= <-]; by split; [constructor|]|]. intros [_ E]. apply (f_equal length) in E. rewrite length_hex in E. destruct b; [done|cbn in E; lia].
  - rewrite odd_length_2 in Hs. cbn [DecodeBytes map]. rewrite Encode_keep, result_bind_ok. split.
    + intros (x & [Hx E]%DecodeSingle_ok & H). bind_ok H. injection H as <-. apply IH in E0 as [Ha E0]; [|done].
      rewrite Encode_keep in E0. split; [by apply all_bytes_cons|]. cbn [map concat]. by rewrite <-E, <-E0.
    + intros [Hb E]. destruct b as [|x b]; [done|]. apply all_bytes_cons in Hb as [Hx Hb]. cbn [map concat] in E.
      exists x. change (lower c1 :: lower c2 :: map lower s) with ([lower c1; lower c2] ++ map lower s) in E.
      apply app_inj_1 in E as [E1 E2]; [|done]. split; [by apply DecodeSingle_ok|].
      rewrite (proj2 (IH b Hs)); [done|]. by rewrite Encode_keep.
Qed.

(** *** Padding *)

Lemma GetValue_ch0 : GetValue ch0 = Ok 0.
Proof. done. Qed.

Lemma DecodeBytes_bytes s b : DecodeBytes s = Ok b -> all_bytes b.
Proof.
  revert b. induction s as [|c|c1 c2 s IH] using pairs_ind; intros b H; cbn [DecodeBytes] in H.
  - injection H as <-. constructor.
  - bind_ok H. injection H as <-. apply all_bytes_cons. split; [|constructor]. by apply DecodeSingle_ok in E as [? _].
  - bind_ok H. bind_ok H. injection H as <-. apply all_bytes_cons. split; [by apply DecodeSingle_ok in E as [? _]|eauto].
Qed.

Lemma shift_byte x v : is_byte x -> 0 <= v < 16 -> u8 (Z.lor (Z.shiftr x 4) (v * 16)) = v * 16 + x / 16.
Proof.
  intros Hx Hv. rewrite shiftr_div_pow2, Z.lor_comm by lia. change (2 ^ 4) with 16.
  change (v * 16) with (v * 2 ^ 4) at 1. rewrite <-Z.shiftl_mul_pow2 by lia. apply nibbles_byte; widths; mod_lia.
Qed.

(** The shift that an input iterator needs does what a zero in front does. *)
Lemma shift_padded c s : Nat.odd (length s) = true -> forall v, GetValue c = Ok v ->
  (b ← DecodeBytes s; Ok (ShiftRight4 (v * 16) b)) = DecodeBytes (c :: s).
Proof.
  revert c. induction s as [|c1|c1 c2 s IH] using pairs_ind; intros c Hs v Ev; [done| |].
  - cbn [DecodeBytes]. unfold DecodeSingle. rewrite Ev, GetValue_ch0. destruct (GetValue c1) as [n|] eqn:E1; [|done].
    cbn [mbind result_bind ShiftRight4]. apply GetValue_range in Ev, E1. rewrite !nibbles_byte by lia.
    rewrite shift_byte by (widths; lia). do 2 f_equal. mod_lia.
  - rewrite odd_length_2 in Hs. change (DecodeBytes (c :: c1 :: c2 :: s)) with
      (b ← DecodeSingle c c1; bs ← DecodeBytes (c2 :: s); Ok (b :: bs)).
    change (DecodeBytes (c1 :: c2 :: s)) with (b ← DecodeSingle c1 c2; bs ← DecodeBytes s; Ok (b :: bs)).
    unfold DecodeSingle. rewrite Ev. destruct (GetValue c1) as [n1|] eqn:E1; [|done].
    destruct (GetValue c2) as [n2|] eqn:E2; cbn [mbind result_bind].
    + rewrite <-(IH c2 Hs n2 E2). destruct (DecodeBytes s) as [bs|]; [|done]. cbn [mbind result_bind ShiftRight4].
      apply GetValue_range in Ev, E1, E2. rewrite !nibbles_byte, shift_byte by (widths; lia).
      rewrite Z.shiftl_mul_pow2 by lia. change (2 ^ 4) with 16.
      replace (u8 ((n1 * 16 + n2) * 16)) with (n2 * 16) by (widths; mod_lia). do 2 f_equal. mod_lia.
    + destruct s as [|c3 s]; [done|]. cbn [DecodeBytes]. destruct s; unfold DecodeSingle; rewrite E2; done.
Qed.

(** Of even length the options make no difference. *)
Lemma Decode_even random pad s : Nat.odd (length s) = false -> Decode random true pad s = DecodeBytes s.
Proof.
  intros Hs. unfold Decode, ThrowIfOdd, Decode_random, Decode_input. rewrite Hs.
  destruct s as [|c s]; [by destruct random, pad|]. by destruct random, pad; cbn [mbind result_bind app]; destruct (DecodeBytes (c :: s)).
Qed.

Lemma Decode_disabled random s b :
  Decode random true PadDisabled s = Ok b <-> all_bytes b /\ map lower s = Encode LowerAlphabet true b [].
Proof.
  destruct (Nat.odd (length s)) eqn:Es; [|by rewrite Decode_even, DecodeBytes_ok].
  unfold Decode, ThrowIfOdd. rewrite Es. split; [done|]. intros [_ E]. apply (f_equal length) in E.
  rewrite length_map, length_hex in E. by rewrite E, Nat.odd_mul in Es.
Qed.

Lemma Decode_front random s : Decode random true PadFront s =
  Decode random true PadDisabled (if Nat.odd (length s) then ch0 :: s else s).
Proof.
  destruct (Nat.odd (length s)) eqn:Es; [|by rewrite !Decode_even].
  rewrite (Decode_even _ _ (ch0 :: s)) by (cbn [length]; by rewrite Nat.odd_succ, <-Nat.negb_odd, Es).
  unfold Decode, ThrowIfOdd, Decode_random, Decode_input. destruct random.
  - destruct s as [|c s]; [done|]. rewrite Es. unfold DecodeZeros. cbn [mbind result_bind orb].
    change (DecodeBytes (ch0 :: c :: s)) with (b ← DecodeSingle ch0 c; bs ← DecodeBytes s; Ok (b :: bs)).
    destruct (DecodeSingle ch0 c); [|done]. cbn. by destruct (DecodeBytes s).
  - rewrite <-(shift_padded ch0 s Es 0 GetValue_ch0), Es. cbn. by destruct (DecodeBytes s).
Qed.

(** Hex text is decoded to the bytes whose text it is, in either case of its
    letters and whatever the iterators are; text of odd length is refused, or
    decoded as if it began with a zero. *)
Theorem hex_decode random s b :
  (Decode random true PadDisabled s = Ok b <-> all_bytes b /\ map lower s = Encode LowerAlphabet true b []) /\
  Decode random true PadFront s =
    Decode random true PadDisabled (if Nat.odd (length s) then ch0 :: s else s).
Proof. split; [apply Decode_disabled|apply Decode_front]. Qed.

(** *** Integers *)

Lemma nibble_at val i : 0 <= val -> Z.land (Z.shiftr val (4 * Z.of_nat i)) 0x0F = (val / 16 ^ Z.of_nat i) mod 16.
Proof.
  intros Hv. change 0x0F with (Z.ones 4). rewrite land_ones_mod, shiftr_div_pow2 by lia.
  by rewrite Z.pow_mul_r by lia.
Qed.

(** All the nibbles are the text of the big-endian bytes. *)
Lemma keep_be_bytes k val : 0 <= val ->
  EncodeVal_keep LowerAlphabet (2 * k) val = Encode LowerAlphabet true (be_bytes k val) [].
Proof.
  intros Hv. rewrite Encode_keep. induction k as [|k IH]; [done|]. replace (2 * S k)%nat with (S (S (2 * k))) by lia.
  cbn [EncodeVal_keep be_bytes map concat]. rewrite IH, !nibble_at by done. unfold EncodeSingle. cbn [app HexEncodeSingle].
  destruct (byte_nibbles ((val / 256 ^ Z.of_nat k) mod 256) (is_byte_mod _)) as [-> ->].
  rewrite Nat2Z.inj_succ, Z.pow_succ_r by lia. replace (16 ^ Z.of_nat (2 * k)) with (256 ^ Z.of_nat k)
    by (rewrite Nat2Z.inj_mul, Z.pow_mul_r by lia; done).
  pose proof (pow256_pos k). rewrite (Z.mul_comm 16), <-Z.div_div by lia. generalize (val / 256 ^ Z.of_nat k). intros q.
  cbn [app]. f_equal; [|f_equal]; f_equal; mod_lia.
Qed.

Lemma skip_keep opt n val : 0 <= val < 16 ^ Z.of_nat n -> opt <> Keep -> exists m,
  EncodeVal_skip LowerAlphabet opt n val = EncodeVal_keep LowerAlphabet m val /\ val < 16 ^ Z.of_nat m /\
  (0 < val -> (m <= n)%nat /\ exists m', m = S m' /\ 16 ^ Z.of_nat m' <= val) /\
  (val = 0 -> m = match opt with AtLeastOne => 1%nat | _ => 0%nat end).
Proof.
  intros Hv Ho. induction n as [|n IH].
  { cbn in Hv. assert (val = 0) as -> by lia. destruct opt; [done|exists 1%nat|exists 0%nat]; cbn; split_and!; done || lia. }
  cbn [EncodeVal_skip]. rewrite nibble_at by lia. rewrite Nat2Z.inj_succ, Z.pow_succ_r in Hv by lia.
  pose proof (Z.pow_pos_nonneg 16 (Z.of_nat n) ltac:(lia) ltac:(lia)) as Hp.
  assert (val / 16 ^ Z.of_nat n < 16) as Hlt by (apply Z.div_lt_upper_bound; lia).
  pose proof (Z.div_pos val (16 ^ Z.of_nat n) ltac:(lia) Hp) as Hd. rewrite Z.mod_small by lia.
  destruct (Z.eqb_spec (val / 16 ^ Z.of_nat n) 0) as [Hz|Hnz]; cbn [negb].
  - apply Z.div_small_iff in Hz; [|lia]. destruct IH as (m & E & Hm & H1 & H2); [lia|].
    exists m. split_and!; [done|done| |done]. intros H0. destruct (H1 H0) as [? ?]. split; [lia|done].
  - assert (16 ^ Z.of_nat n <= val) as Hge.
    { apply Z.nlt_ge. intros Hc. apply Hnz, Z.div_small. lia. }
    exists (S n). rewrite Nat2Z.inj_succ, Z.pow_succ_r by lia. cbn [EncodeVal_keep]. split_and!; [done|lia|eauto|lia].
Qed.

(** Every option writes digits that decode to the integer. *)
Lemma keep_decode n val : 0 <= val < 16 ^ Z.of_nat n -> exists b,
  Decode true true PadFront (EncodeVal_keep LowerAlphabet n val) = Ok b /\ be_val b = val.
Proof.
  intros Hv. assert (forall n, length (EncodeVal_keep LowerAlphabet n val) = n) as Hl.
  { intros m. induction m as [|m IH]; [done|]. cbn [EncodeVal_keep length]. by rewrite IH. }
  assert (exists k, (if Nat.odd n then ch0 :: EncodeVal_keep LowerAlphabet n val else EncodeVal_keep LowerAlphabet n val) =
    EncodeVal_keep LowerAlphabet (2 * k) val /\ val < 256 ^ Z.of_nat k) as (k & E & Hk).
  { destruct (Nat.odd n) eqn:En.
    - apply Nat.odd_spec in En as [k ->]. exists (S k). replace (2 * S k)%nat with (S (2 * k + 1)) by lia.
      cbn [EncodeVal_keep]. rewrite nibble_at, Z.div_small, Z.mod_0_l by lia. split; [done|].
      rewrite Nat2Z.inj_succ, Z.pow_succ_r by lia. pose proof (pow256_pos k).
      replace (Z.of_nat (2 * k + 1)) with (2 * Z.of_nat k + 1) in Hv by lia. rewrite Z.pow_add_r, Z.pow_mul_r in Hv by lia.
      change (16 ^ 2) with 256 in Hv. lia.
    - rewrite <-Nat.negb_even in En. apply negb_false_iff, Nat.even_spec in En as [k ->]. exists k. split; [done|].
      rewrite Nat2Z.inj_mul, Z.pow_mul_r in Hv by lia. change (16 ^ Z.of_nat 2) with 256 in Hv. lia. }
  exists (be_bytes k val). rewrite be_val_be_bytes, Z.mod_small by lia. split; [|done].
  rewrite Decode_front, Hl, E. apply Decode_disabled. split; [apply all_bytes_be_bytes|]. rewrite keep_be_bytes by lia.
  rewrite Encode_keep. generalize (all_bytes_be_bytes k val). generalize (be_bytes k val). intros b Hb.
  induction b as [|x b IH]; [done|]. apply all_bytes_cons in Hb as [Hx Hb]. cbn [map concat]. rewrite map_app, IH by done.
  f_equal. unfold EncodeSingle. cbn [app HexEncodeSingle map]. destruct (byte_nibbles x Hx) as [-> ->].
  rewrite !lower_lower by (widths; mod_lia). done.
Qed.

(** An unsigned integer is written, after the prefix, as digits that decode to
    it: all of them, or none in front of the first that is not zero. *)
Theorem hex_integer opt ignoreSign size val prefix : (0 < size)%nat -> fits (8 * Z.of_nat size) val ->
  exists ds b, EncodeInteger LowerAlphabet opt ignoreSign false size val prefix = Ok (prefix ++ ds) /\
    Decode true true PadFront ds = Ok b /\ be_val b = val /\
    match opt with
    | Keep => length ds = (2 * size)%nat
    | AtLeastOne => ds = [ch0] \/ exists d ds', ds = d :: ds' /\ d <> ch0
    | SkipAll => ds = [] \/ exists d ds', ds = d :: ds' /\ d <> ch0
    end.
Proof.
  intros Hs Hv. assert (0 <= val < 16 ^ Z.of_nat (2 * size)) as Hv'.
  { unfold fits in Hv. replace (8 * Z.of_nat size) with (4 * Z.of_nat (2 * size)) in Hv by lia. by rewrite Z.pow_mul_r in Hv by lia. }
  unfold EncodeInteger, EncodeSigned. cbn [andb mbind result_bind app].
  assert (forall m, 0 < val < 16 ^ Z.of_nat (S m) -> 16 ^ Z.of_nat m <= val ->
    exists d ds', EncodeVal_keep LowerAlphabet (S m) val = d :: ds' /\ d <> ch0) as Hfirst.
  { intros m H1 H2. eexists _, _. split; [reflexivity|]. rewrite nibble_at by lia.
    pose proof (Z.pow_pos_nonneg 16 (Z.of_nat m) ltac:(lia) ltac:(lia)).
    rewrite Nat2Z.inj_succ, Z.pow_succ_r in H1 by lia.
    assert (1 <= val / 16 ^ Z.of_nat m < 16) by (split; [apply Z.div_le_lower_bound; lia|apply Z.div_lt_upper_bound; lia]).
    rewrite Z.mod_small, lower_lut by lia. unfold ch0. case_match; lia. }
  destruct opt.
  - destruct (keep_decode _ _ Hv') as (b & E & Eb). eexists _, b. split_and!; [reflexivity|done|done|].
    generalize (2 * size)%nat. intros n. cbn [EncodeVal]. induction n as [|n IH]; [done|]. cbn [EncodeVal_keep length]. by rewrite IH.
  - destruct (skip_keep AtLeastOne _ _ Hv' ltac:(done)) as (m & Em & Hm & H1 & H2). cbn [EncodeVal]. rewrite Em.
    destruct (keep_decode m val ltac:(lia)) as (b & E & Eb). eexists _, b. split_and!; [reflexivity|done|done|].
    destruct (Z.eq_dec val 0) as [->|Hz]; [left; by rewrite (H2 eq_refl)|right].
    destruct H1 as (_ & m' & -> & Hge); [lia|]. apply Hfirst; [lia|done].
  - destruct (skip_keep SkipAll _ _ Hv' ltac:(done)) as (m & Em & Hm & H1 & H2). cbn [EncodeVal]. rewrite Em.
    destruct (keep_decode m val ltac:(lia)) as (b & E & Eb). eexists _, b. split_and!; [reflexivity|done|done|].
    destruct (Z.eq_dec val 0) as [->|Hz]; [left; by rewrite (H2 eq_refl)|right].
    destruct H1 as (_ & m' & -> & Hge); [lia|]. apply Hfirst; [lia|done].
Qed.

Lemma hex_integer_witness :
  exists ds b, EncodeInteger LowerAlphabet AtLeastOne false false 8 0x1b4 (chars "0x") = Ok (chars "0x" ++ ds) /\
    Decode true true PadFront ds = Ok b /\ be_val b = 0x1b4 /\
    (ds = [ch0] \/ exists d ds', ds = d :: ds' /\ d <> ch0).
Proof. apply (hex_integer AtLeastOne false 8 0x1b4 (chars "0x")); [lia|vm_compute; split; congruence]. Defined.

(** Without the leading zero bytes, text of odd length loses the zero bytes that
    follow its first digit; an input iterator keeps them. *)
Lemma hex_odd_zeros :
  Decode true false PadFront (chars "100") = Ok [1] /\ Decode false false PadFront (chars "100") = Ok [1; 0].
Proof. split; vm_compute; reflexivity. Qed.

(** A negative [int8_t] is written with the digits of an [int]. *)
Lemma hex_negative_width :
  EncodeInteger LowerAlphabet Keep false true 1 1 [] = Ok (chars "01") /\
  EncodeInteger LowerAlphabet Keep false true 1 (-1) [] = Ok (chars "-00000001").
Proof. split; vm_compute; reflexivity. Qed.
End hex_theory.
