(* ===== verification/TKeyExchange.v ===== *)
(** * Key exchange of the remote attestation

    [DE/SgxEdgeSources/decent_tkey_exchange.cpp]: the enclave's table of key
    exchanges, the functions that the host calls on it
    ([decent_ra_get_ga], [decent_ra_proc_msg2_trusted],
    [decent_ra_get_msg3_trusted]) and those the enclave itself calls
    ([decent_ra_init], [decent_ra_get_keys], [decent_ra_close]).  The host calls in
    any order and from any number of threads, so a call is a sequence of regions,
    each run under a lock or on local data, and calls interleave between them.  The
    SGX SDK is a parameter. *)

From stdpp Require Import gmap strings.
From S2P Require Import Prelude.

(** ** The SDK *)

Inductive sgx_status_t :=
| SGX_SUCCESS | SGX_ERROR_UNEXPECTED | SGX_ERROR_INVALID_PARAMETER | SGX_ERROR_OUT_OF_MEMORY
| SGX_ERROR_INVALID_STATE | SGX_ERROR_INVALID_SIGNATURE | SGX_ERROR_MAC_MISMATCH
| SGX_ERROR_KDF_MISMATCH | sgx_status_other (code : Z).

#[export] Instance sgx_status_eq_dec : EqDecision sgx_status_t.
Proof. solve_decision. Defined.

(** [sgx_target_info_t] and [sgx_report_t]: what the code compares, and the rest. *)
Record sgx_target_info_t := mkTarget { tgt_mr_enclave : bytes; tgt_attributes : bytes; tgt_rest : bytes }.
Record sgx_report_t := mkReport { rep_mr_enclave : bytes; rep_attributes : bytes; rep_report_data : bytes; rep_rest : bytes }.

(** The four keys of an exchange. *)
Record Keys := mkKeys { smk : bytes; sk : bytes; mk : bytes; vk : bytes }.

(** What the functions of the SDK compute: the public key of a private one, the
    check of a point, the shared secret (none for a point that is not on the curve),
    signatures, [derive_key], the MAC, the hash, reports; where memory is; and the
    function behind a pointer to a key derivation. *)
Class SgxSdk := {
  ecc_pub : bytes -> bytes;
  ecc_check_point : bytes -> bool;
  ecc_shared : bytes -> bytes -> option bytes;
  ecdsa_verify : bytes -> bytes -> bytes -> bool;
  derive_key : bytes -> string -> bytes;
  cmac : bytes -> bytes -> bytes;
  sha256 : bytes -> bytes;
  create_report : sgx_target_info_t -> bytes -> sgx_report_t;
  verify_report : sgx_report_t -> bool;
  is_within_enclave : Z -> Z -> bool;
  is_outside_enclave : Z -> Z -> bool;
  kdf_at : Z -> bytes -> Z -> sgx_status_t * Keys }.

(** A hash has 32 bytes. *)
Class SgxSdkLaws `{SgxSdk} := { sha256_length : forall m, length (sha256 m) = 32%nat }.

(** Every function of the SDK can also fail; the calls a function makes. *)
Inductive SdkCall :=
| Ecc256OpenContext | Ecc256CheckPoint | Ecc256CreateKeyPair | Ecc256ComputeSharedDhkey | EcdsaVerify
| DeriveKey (label : string) | CmacMsg | ReadRand | Sha256Msg | CreateReport | VerifyReport
| Sha256Init | Sha256Update (turn : nat) | Sha256GetHash | Cmac128Init | Cmac128Update (turn : nat) | Cmac128Final
| VectorPushBack.

(** What the SDK does during a region: the status of each call, the private key and
    the nonce it draws, the cookies it draws until it fails, and the memory it
    finds for an item. *)
Record Sdk := mkSdk {
  sdk_status : SdkCall -> sgx_status_t; sdk_key : bytes; sdk_nonce : bytes;
  sdk_cookies : list Z; sdk_malloc : option Z }.

(** [if (SGX_SUCCESS != se_ret) { if (SGX_ERROR_OUT_OF_MEMORY != se_ret) se_ret =
    SGX_ERROR_UNEXPECTED; ... }]. *)
Definition allow (allowed : list sgx_status_t) (st : sgx_status_t) : result sgx_status_t () :=
  if decide (st = SGX_SUCCESS) then Ok ()
  else if decide (st ∈ allowed) then Throw st else Throw SGX_ERROR_UNEXPECTED.
Definition call (sdk : Sdk) (c : SdkCall) : result sgx_status_t () := allow [SGX_ERROR_OUT_OF_MEMORY] (sdk_status sdk c).

(** ** [simple_vector] *)

(** A vector of pointers, of the SDK; 0 is the null pointer. *)
Class SimpleVector (V : Type) := {
  vector_zero : V;
  vector_size : V -> Z;
  vector_get : V -> Z -> option Z;
  vector_set : V -> Z -> Z -> option V;
  vector_push_back : V -> Z -> option V }.

(** What [simple_vector.h] documents. *)
Class SimpleVectorLaws V `{SimpleVector V} := {
  vector_size_zero : vector_size vector_zero = 0;
  vector_size_pos : forall v, 0 <= vector_size v;
  vector_get_ok : forall v i, is_Some (vector_get v i) <-> 0 <= i < vector_size v;
  vector_set_ok : forall v i x, 0 <= i < vector_size v -> exists v', vector_set v i x = Some v';
  vector_set_get : forall v i x v', vector_set v i x = Some v' ->
    vector_size v' = vector_size v /\ forall j, vector_get v' j = if j =? i then Some x else vector_get v j;
  vector_push_get : forall v x v', vector_push_back v x = Some v' ->
    vector_size v' = vector_size v + 1 /\ forall j, vector_get v' j = if j =? vector_size v then Some x else vector_get v j }.

(** ** The table of exchanges *)

Inductive ra_state := ra_inited | ra_get_gaed | ra_proc_msg2ed.

#[export] Instance ra_state_eq_dec : EqDecision ra_state.
Proof. solve_decision. Defined.

(** [SgxReportDataGenerator]: the standard report data and the buffer of the final
    one; whether it succeeded, and the buffer after. *)
Definition SgxReportDataGenerator : Type := bytes -> bytes -> bool * bytes.

Record ra_db_item_t := mkItem {
  g_a : bytes; g_b : bytes; vk_key : bytes; sp_pubkey : bytes; priv_a : bytes; ps_sec_prop : bytes;
  mk_key : bytes; sk_key : bytes; smk_key : bytes; quote_nonce : bytes; qe_target : sgx_target_info_t;
  state : ra_state; derive_key_cb : Z; report_data_gener : SgxReportDataGenerator }.

(** The vector, the items allocated, by address, and the cookie. *)
Record RaDb (V : Type) := mkDb { g_ra_db : V; heap : gmap Z ra_db_item_t; g_kdf_cookie : Z }.
Arguments mkDb {V}.
Arguments g_ra_db {V}.
Arguments heap {V}.
Arguments g_kdf_cookie {V}.

Definition ENC_KDF_POINTER (cookie x : Z) : Z := Z.lxor x cookie.
Definition DEC_KDF_POINTER (cookie x : Z) : Z := Z.lxor x cookie.

(** [sgx_ra_msg2_t] without the revocation list; [maced] is its part in front of
    the MAC. *)
Record sgx_ra_msg2_t := mkMsg2 {
  m2_g_b : bytes; m2_spid : bytes; m2_quote_type : Z; m2_kdf_id : Z; m2_sign_gb_ga : bytes; m2_mac : bytes }.
Definition le16 (n : Z) : bytes := rev (be_bytes 2 n).
Definition maced (m : sgx_ra_msg2_t) : bytes :=
  m2_g_b m ++ m2_spid m ++ le16 (m2_quote_type m) ++ le16 (m2_kdf_id m) ++ m2_sign_gb_ga m.

(** [sizeof(sgx_ra_msg3_t)], without the quote. *)
Definition sizeof_msg3 : Z := 16 + 64 + 256.

(** ** Calls *)

Inductive sgx_ra_key_type_t := SGX_RA_KEY_SK | SGX_RA_KEY_MK | SGX_RA_KEY_other (code : Z).

(** The exported functions with their arguments.  Pointers are addresses where the
    code looks at them; [quote_mem] is the quote in the memory of the host, which
    can change from one read of it to the next. *)
Inductive ra_call :=
| decent_ra_get_ga (context p_g_a : Z)
| decent_ra_proc_msg2_trusted (context p_msg2 : Z) (msg2 : sgx_ra_msg2_t) (p_qe_target : Z) (target : sgx_target_info_t)
    (p_report p_nonce : Z)
| decent_ra_get_msg3_trusted (context quote_size p_qe_report : Z) (qe_report : sgx_report_t) (emp_msg3 msg3_size : Z)
    (quote_mem : nat -> Z -> Z)
| decent_ra_init_ex (p_pub_key : Z) (pub_key : bytes) (derive_cb : Z) (func : SgxReportDataGenerator) (p_context : Z)
| decent_ra_get_keys (context : Z) (type : sgx_ra_key_type_t) (p_key : Z)
| decent_ra_close (context : Z).

Definition decent_ra_init (p_pub_key : Z) (pub_key : bytes) (func : SgxReportDataGenerator) (p_context : Z) : ra_call :=
  decent_ra_init_ex p_pub_key pub_key 0 func p_context.

(** What a call returns: a status, and with [SGX_SUCCESS] what it wrote through its
    pointers. *)
Inductive ra_ret :=
| Status (st : sgx_status_t)
| GaWritten (g_a : bytes)
| ReportWritten (report : sgx_report_t) (nonce : bytes)
| Msg3Written (mac g_a ps_sec_prop quote : bytes)
| ContextWritten (context : Z)
| KeyWritten (type : sgx_ra_key_type_t) (key : bytes).

(** A thread: a call that has not begun, a call between two regions with its local
    variables, or a call that returned; or one that used an item that was freed. *)
Inductive thread :=
| Start (c : ra_call)
| GetGa_locked (item : Z)
| Msg2_snapshot (item : Z) (msg2 : sgx_ra_msg2_t) (target : sgx_target_info_t)
| Msg2_commit (item : Z) (msg2 : sgx_ra_msg2_t) (target : sgx_target_info_t) (keys : Keys) (nonce : bytes)
| Msg3_snapshot (item : Z) (quote_size : Z) (qe_report : sgx_report_t) (quote_mem : nat -> Z -> Z)
| Msg3_hash (item : Z) (quote_size : Z) (qe_report : sgx_report_t) (quote_mem : nat -> Z -> Z) (g_a ps_sec_prop smk_key : bytes)
| Init_insert (new_item : ra_db_item_t)
| GetKeys_locked (item : Z) (type : sgx_ra_key_type_t)
| Returned (r : ra_ret)
| UsedAfterFree.

(** ** The regions of the calls *)

Section regions.
Context `{SDK : SgxSdk} {V : Type} `{SV : SimpleVector V}.
Implicit Types (db : RaDb V) (sdk : Sdk).

Definition set_item db (p : Z) (it : ra_db_item_t) : RaDb V :=
  mkDb (g_ra_db db) (<[p := it]> (heap db)) (g_kdf_cookie db).

(** What a region did: returned, or went on. *)
Definition ret {A : Type} (db : A) (st : sgx_status_t) : A * thread := (db, Returned (Status st)).
Definition ret_or {A B : Type} (db : A) (r : result sgx_status_t B) (k : B -> A * thread) : A * thread :=
  match r with Ok b => k b | Throw st => ret db st end.

(** The lookup of a context, under the lock of the table. *)
Definition find_item db (context : Z) : option Z :=
  if vector_size (g_ra_db db) <=? context then None
  else match vector_get (g_ra_db db) context with Some p => if p =? 0 then None else Some p | None => None end.
Definition with_context db (context : Z) (k : Z -> RaDb V * thread) : RaDb V * thread :=
  match find_item db context with Some p => k p | None => ret db SGX_ERROR_INVALID_PARAMETER end.

(** The item at an address, used after the lock of the table was released. *)
Definition with_item db (item : Z) (k : ra_db_item_t -> RaDb V * thread) : RaDb V * thread :=
  match heap db !! item with Some it => k it | None => (db, UsedAfterFree) end.

Definition null (p : Z) : bool := p =? 0.

(** *** [decent_ra_get_ga], under the lock of the item *)
Definition get_ga_locked sdk (item : Z) db : RaDb V * thread :=
  with_item db item (fun it =>
  if negb (bool_decide (state it = ra_inited)) then ret db SGX_ERROR_INVALID_STATE
  else
    ret_or db (_ ← call sdk Ecc256OpenContext; call sdk Ecc256CreateKeyPair) (fun _ =>
    let pub_key := ecc_pub (sdk_key sdk) in
    let it := mkItem pub_key (g_b it) (vk_key it) (sp_pubkey it) (sdk_key sdk) (ps_sec_prop it) (mk_key it) (sk_key it)
      (smk_key it) (quote_nonce it) (qe_target it) ra_get_gaed (derive_key_cb it) (report_data_gener it) in
    (set_item db item it, Returned (GaWritten pub_key)))).

(** *** [decent_ra_proc_msg2_trusted] *)

(** The derivation of the keys: by the callback, or the standard one. *)
Definition derive_keys sdk (ra_key_cb : Z) (dh_key : bytes) (kdf_id : Z) : result sgx_status_t Keys :=
  if negb (null ra_key_cb) then
    let '(st, keys) := kdf_at ra_key_cb dh_key kdf_id in
    _ ← allow [SGX_ERROR_OUT_OF_MEMORY; SGX_ERROR_INVALID_PARAMETER; SGX_ERROR_KDF_MISMATCH] st;
    Ok keys
  else if kdf_id =? 1 then
    _ ← call sdk (DeriveKey "SMK");
    _ ← call sdk (DeriveKey "SK");
    _ ← call sdk (DeriveKey "MK");
    _ ← call sdk (DeriveKey "VK");
    Ok (mkKeys (derive_key dh_key "SMK") (derive_key dh_key "SK") (derive_key dh_key "MK") (derive_key dh_key "VK"))
  else Throw SGX_ERROR_KDF_MISMATCH.

(** From the copies of the private key, of the two public keys and of the callback
    to the keys and the nonce; nothing shared is used. *)
Definition proc_msg2_keys sdk (a g_a sp_pubkey : bytes) (ra_key_cb : Z) (msg2 : sgx_ra_msg2_t)
  : result sgx_status_t (Keys * bytes) :=
  let gb_ga := m2_g_b msg2 ++ g_a in
  _ ← call sdk Ecc256OpenContext;
  _ ← call sdk Ecc256ComputeSharedDhkey;
  dh_key ← (match ecc_shared a (m2_g_b msg2) with Some s => Ok s | None => Throw SGX_ERROR_UNEXPECTED end);
  _ ← call sdk EcdsaVerify;
  if negb (ecdsa_verify gb_ga sp_pubkey (m2_sign_gb_ga msg2)) then Throw SGX_ERROR_INVALID_SIGNATURE
  else
    keys ← derive_keys sdk ra_key_cb dh_key (m2_kdf_id msg2);
    _ ← call sdk CmacMsg;
    if negb (bool_decide (cmac (smk keys) (maced msg2) = m2_mac msg2)) then Throw SGX_ERROR_MAC_MISMATCH
    else
      _ ← call sdk ReadRand;
      Ok (keys, sdk_nonce sdk).

Definition proc_msg2_snapshot sdk (item : Z) (msg2 : sgx_ra_msg2_t) (target : sgx_target_info_t) db : RaDb V * thread :=
  with_item db item (fun it =>
  if negb (bool_decide (state it = ra_get_gaed)) then ret db SGX_ERROR_INVALID_STATE
  else
    let ra_key_cb := DEC_KDF_POINTER (g_kdf_cookie db) (derive_key_cb it) in
    ret_or db (proc_msg2_keys sdk (priv_a it) (g_a it) (sp_pubkey it) ra_key_cb msg2) (fun '(keys, nonce) =>
    (db, Msg2_commit item msg2 target keys nonce))).

(** A hash in the first half of the report data, the rest of which is zero. *)
Definition hash_report_data (h : bytes) : bytes := h ++ drop (length h) (replicate 64 0).

(** The second part under the lock of the item: the item has the keys before the
    report, and the state after it. *)
Definition proc_msg2_commit sdk (item : Z) (msg2 : sgx_ra_msg2_t) (target : sgx_target_info_t) (keys : Keys) (nonce : bytes) db
  : RaDb V * thread :=
  with_item db item (fun it =>
  if negb (bool_decide (state it = ra_get_gaed)) then ret db SGX_ERROR_INVALID_STATE
  else
    let filled st := mkItem (g_a it) (m2_g_b msg2) (vk keys) (sp_pubkey it) (priv_a it) (ps_sec_prop it) (mk keys) (sk keys)
      (smk keys) nonce target st (derive_key_cb it) (report_data_gener it) in
    let db := set_item db item (filled (state it)) in
    ret_or db (call sdk Sha256Msg) (fun _ =>
    let report_data := hash_report_data (sha256 (g_a it ++ m2_g_b msg2 ++ vk keys)) in
    let '(ok, decent_report_data) := report_data_gener it report_data (replicate 64 0) in
    if negb ok then ret db SGX_ERROR_UNEXPECTED
    else
      ret_or db (call sdk CreateReport) (fun _ =>
      (set_item db item (filled ra_proc_msg2ed), Returned (ReportWritten (create_report target decent_report_data) nonce))))).

(** *** [decent_ra_get_msg3_trusted] *)

(** The sizes and the memory of message 3. *)
Definition msg3_range_ok (quote_size emp_msg3 msg3_size : Z) : bool :=
  negb ((2 ^ 64 - 1 - emp_msg3 <? msg3_size) || (2 ^ 32 - 1 - quote_size <? sizeof_msg3) ||
        negb (sizeof_msg3 + quote_size =? msg3_size)) &&
  is_outside_enclave emp_msg3 msg3_size.

Definition msg3_snapshot (item quote_size : Z) (qe_report : sgx_report_t) (quote_mem : nat -> Z -> Z) db : RaDb V * thread :=
  with_item db item (fun it =>
  if negb (bool_decide (state it = ra_proc_msg2ed)) then ret db SGX_ERROR_INVALID_STATE
  else if negb (bool_decide (rep_attributes qe_report = tgt_attributes (qe_target it))) ||
          negb (bool_decide (rep_mr_enclave qe_report = tgt_mr_enclave (qe_target it)))
  then ret db SGX_ERROR_INVALID_PARAMETER
  else (db, Msg3_hash item quote_size qe_report quote_mem (g_a it) (ps_sec_prop it) (smk_key it))).

(** The quote is copied from the memory of the host in pieces of 32 bytes, and the
    hash and the MAC are fed with the copies. *)
Definition read_quote (quote_mem : nat -> Z -> Z) (turn : nat) (pos n : Z) : bytes := map (quote_mem turn) (seqZ pos n).

Fixpoint quote_pieces sdk (quote_mem : nat -> Z -> Z) (quote_size : Z) (fuel turn : nat) (pos : Z) : result sgx_status_t bytes :=
  match fuel with
  | O => Ok []
  | S fuel =>
    if pos <? quote_size then
      let quote_piece := read_quote quote_mem turn pos (if quote_size - pos <? 32 then quote_size - pos else 32) in
      _ ← call sdk (Sha256Update (1 + turn));
      _ ← call sdk (Cmac128Update (2 + turn));
      rest ← quote_pieces sdk quote_mem quote_size fuel (S turn) (pos + 32);
      Ok (quote_piece ++ rest)
    else Ok []
  end.

(** After the locked part; the nonce is read from the item. *)
Definition msg3_hash sdk (item quote_size : Z) (qe_report : sgx_report_t) (quote_mem : nat -> Z -> Z)
    (g_a ps_sec_prop smk_key : bytes) db : RaDb V * thread :=
  with_item db item (fun it =>
  ret_or db (_ ← call sdk Sha256Init; _ ← call sdk (Sha256Update 0);
    _ ← call sdk Cmac128Init; _ ← call sdk (Cmac128Update 0); _ ← call sdk (Cmac128Update 1);
    quote ← quote_pieces sdk quote_mem quote_size (S (Z.to_nat quote_size)) 0 0;
    _ ← call sdk Sha256GetHash; _ ← call sdk Cmac128Final; Ok quote) (fun quote =>
  if negb (bool_decide (take 32 (rep_report_data qe_report) = sha256 (quote_nonce it ++ quote))) then ret db SGX_ERROR_MAC_MISMATCH
  else (db, Returned (Msg3Written (cmac smk_key (g_a ++ ps_sec_prop ++ quote)) g_a ps_sec_prop quote)))).

(** *** [decent_ra_init_ex] *)

(** The cookie: a number that is not zero, read once; [None] if it cannot be read. *)
Definition init_cookie sdk db : option (RaDb V) :=
  if g_kdf_cookie db =? 0 then
    rand ← list_find (fun r => r <> 0) (sdk_cookies sdk);
    Some (mkDb (g_ra_db db) (heap db) rand.2)
  else Some db.

Definition zero_item : ra_db_item_t :=
  mkItem (replicate 64 0) (replicate 64 0) (replicate 16 0) (replicate 64 0) (replicate 32 0) (replicate 256 0)
    (replicate 16 0) (replicate 16 0) (replicate 16 0) (replicate 16 0) (mkTarget (replicate 32 0) (replicate 16 0) [])
    ra_inited 0 (fun _ f => (true, f)).

Definition init_checked sdk (p_pub_key : Z) (pub_key : bytes) (derive_cb : Z) (func : SgxReportDataGenerator) (p_context : Z) db
  : RaDb V * thread :=
  match init_cookie sdk db with
  | None => ret db SGX_ERROR_UNEXPECTED
  | Some db =>
    if null p_pub_key || null p_context || negb (is_within_enclave p_pub_key 64) ||
       negb (null derive_cb) && negb (is_within_enclave derive_cb 0)
    then ret db SGX_ERROR_INVALID_PARAMETER
    else
      ret_or db (_ ← call sdk Ecc256OpenContext; call sdk Ecc256CheckPoint) (fun _ =>
      if negb (ecc_check_point pub_key) then ret db SGX_ERROR_INVALID_PARAMETER
      else
        let z := zero_item in
        (db, Init_insert (mkItem (g_a z) (g_b z) (vk_key z) pub_key (priv_a z) (ps_sec_prop z) (mk_key z) (sk_key z) (smk_key z)
          (quote_nonce z) (qe_target z) ra_inited (ENC_KDF_POINTER (g_kdf_cookie db) derive_cb) func)))
  end.

(** The first slot that is empty, from [i] on. *)
Fixpoint first_empty (v : V) (n : nat) (i : Z) : result sgx_status_t (option Z) :=
  match n with
  | O => Ok None
  | S n =>
    match vector_get v i with
    | None => Throw SGX_ERROR_UNEXPECTED
    | Some item => if null item then Ok (Some i) else first_empty v n (i + 1)
    end
  end.

(** The item gets its memory and, under the lock of the table, its slot. *)
Definition init_insert sdk (new_item : ra_db_item_t) db : RaDb V * thread :=
  match sdk_malloc sdk with
  | None => ret db SGX_ERROR_OUT_OF_MEMORY
  | Some p =>
    let v := g_ra_db db in
    ret_or db (first_empty v (Z.to_nat (vector_size v)) 0) (fun slot =>
    match slot with
    | Some i =>
      (mkDb (default v (vector_set v i p)) (<[p := new_item]> (heap db)) (g_kdf_cookie db), Returned (ContextWritten i))
    | None =>
      if 2 ^ 31 - 1 <=? vector_size v then ret db SGX_ERROR_OUT_OF_MEMORY
      else
        match (if decide (sdk_status sdk VectorPushBack = SGX_SUCCESS) then vector_push_back v p else None) with
        | Some v' => (mkDb v' (<[p := new_item]> (heap db)) (g_kdf_cookie db), Returned (ContextWritten (vector_size v)))
        | None => ret db SGX_ERROR_OUT_OF_MEMORY
        end
    end)
  end.

(** *** [decent_ra_get_keys] and [decent_ra_close] *)

Definition get_keys_locked (item : Z) (type : sgx_ra_key_type_t) db : RaDb V * thread :=
  with_item db item (fun it =>
  if negb (bool_decide (state it = ra_proc_msg2ed)) then ret db SGX_ERROR_INVALID_STATE
  else match type with
  | SGX_RA_KEY_MK => (db, Returned (KeyWritten type (mk_key it)))
  | SGX_RA_KEY_SK => (db, Returned (KeyWritten type (sk_key it)))
  | SGX_RA_KEY_other _ => ret db SGX_ERROR_INVALID_PARAMETER
  end).

(** The item is cleared and freed and its slot emptied, under the lock of the table
    and not that of the item. *)
Definition close_locked (context item : Z) db : RaDb V * thread :=
  with_item db item (fun _ =>
  let v := default (g_ra_db db) (vector_set (g_ra_db db) context 0) in
  ret (mkDb v (delete item (heap db)) (g_kdf_cookie db)) SGX_SUCCESS).

(** ** The beginning of a call, and a step of a thread *)

Definition start sdk (c : ra_call) db : RaDb V * thread :=
  match c with
  | decent_ra_get_ga context p_g_a =>
    if null p_g_a then ret db SGX_ERROR_INVALID_PARAMETER
    else with_context db context (fun item => (db, GetGa_locked item))
  | decent_ra_proc_msg2_trusted context p_msg2 msg2 p_qe_target target p_report p_nonce =>
    if null p_msg2 || null p_qe_target || null p_report || null p_nonce then ret db SGX_ERROR_INVALID_PARAMETER
    else with_context db context (fun item => (db, Msg2_snapshot item msg2 target))
  | decent_ra_get_msg3_trusted context quote_size p_qe_report qe_report emp_msg3 msg3_size quote_mem =>
    if null quote_size || null p_qe_report || null emp_msg3 then ret db SGX_ERROR_INVALID_PARAMETER
    else with_context db context (fun item =>
      if negb (msg3_range_ok quote_size emp_msg3 msg3_size) then ret db SGX_ERROR_INVALID_PARAMETER
      else
        ret_or db (_ ← allow [SGX_ERROR_MAC_MISMATCH; SGX_ERROR_OUT_OF_MEMORY] (sdk_status sdk VerifyReport);
                   if verify_report qe_report then Ok () else Throw SGX_ERROR_MAC_MISMATCH) (fun _ =>
        (db, Msg3_snapshot item quote_size qe_report quote_mem)))
  | decent_ra_init_ex p_pub_key pub_key derive_cb func p_context => init_checked sdk p_pub_key pub_key derive_cb func p_context db
  | decent_ra_get_keys context type p_key =>
    if null p_key then ret db SGX_ERROR_INVALID_PARAMETER
    else with_context db context (fun item =>
      if negb (is_within_enclave p_key 16) then ret db SGX_ERROR_INVALID_PARAMETER
      else (db, GetKeys_locked item type))
  | decent_ra_close context => with_context db context (fun item => close_locked context item db)
  end.

Definition step sdk (t : thread) db : RaDb V * thread :=
  match t with
  | Start c => start sdk c db
  | GetGa_locked item => get_ga_locked sdk item db
  | Msg2_snapshot item msg2 target => proc_msg2_snapshot sdk item msg2 target db
  | Msg2_commit item msg2 target keys nonce => proc_msg2_commit sdk item msg2 target keys nonce db
  | Msg3_snapshot item quote_size qe_report quote_mem => msg3_snapshot item quote_size qe_report quote_mem db
  | Msg3_hash item quote_size qe_report quote_mem g_a ps smk => msg3_hash sdk item quote_size qe_report quote_mem g_a ps smk db
  | Init_insert new_item => init_insert sdk new_item db
  | GetKeys_locked item type => get_keys_locked item type db
  | Returned _ | UsedAfterFree => (db, t)
  end.

(** A call that runs alone; three regions are the most a call has. *)
Definition run_call sdk (c : ra_call) db : RaDb V * thread :=
  let '(db, t) := step sdk (Start c) db in
  let '(db, t) := step sdk t db in
  step sdk t db.

(** ** Threads together *)

Record Sys := mkSys { sys_db : RaDb V; threads : list thread }.

Definition sys_init : Sys := mkSys (mkDb vector_zero ∅ 0) [].

(** The item a thread will use without looking it up again. *)
Definition held (t : thread) : option Z :=
  match t with
  | GetGa_locked item | Msg2_snapshot item _ _ | Msg2_commit item _ _ _ _ | Msg3_snapshot item _ _ _
  | Msg3_hash item _ _ _ _ _ _ | GetKeys_locked item _ => Some item
  | Start _ | Init_insert _ | Returned _ | UsedAfterFree => None
  end.

(** No thread but [i] holds the item of a context. *)
Definition unused (s : Sys) (i : nat) (context : Z) : Prop :=
  forall j t, threads s !! j = Some t -> j <> i -> forall p, held t = Some p -> find_item (sys_db s) context <> Some p.

(** A call begins, or a thread runs its next region.  Memory that [malloc] finds is
    not in use.  With [guarded], an exchange is closed only while no other thread is
    using it, which nothing in the code enforces. *)
Inductive sys_step (guarded : bool) : Sys -> Sys -> Prop :=
| Spawn s c : sys_step guarded s (mkSys (sys_db s) (threads s ++ [Start c]))
| Run s sdk i t db t' :
  threads s !! i = Some t ->
  (forall p, sdk_malloc sdk = Some p -> 0 < p /\ heap (sys_db s) !! p = None) ->
  (guarded = true -> forall context, t = Start (decent_ra_close context) -> unused s i context) ->
  step sdk t (sys_db s) = (db, t') ->
  sys_step guarded s (mkSys db (<[i := t']> (threads s))).

Definition reachable (guarded : bool) : Sys -> Prop := rtc (sys_step guarded) sys_init.
End regions.

(** ** What an exchange is worth *)

Section exchange.
Context `{SDK : SgxSdk} {V : Type} `{SV : SimpleVector V}.
Implicit Types (db : RaDb V) (sdk : Sdk) (it : ra_db_item_t).

Definition standard_keys (dh_key : bytes) : Keys :=
  mkKeys (derive_key dh_key "SMK") (derive_key dh_key "SK") (derive_key dh_key "MK") (derive_key dh_key "VK").

(** The keys that a callback, or none, derives. *)
Definition derived (ra_key_cb : Z) (dh_key : bytes) (kdf_id : Z) (keys : Keys) : Prop :=
  if null ra_key_cb then kdf_id = 1 /\ keys = standard_keys dh_key else kdf_at ra_key_cb dh_key kdf_id = (SGX_SUCCESS, keys).

(** A message 2 that the owner of [sp_pubkey] signed for these two public keys and
    authenticated with the keys of the secret they share. *)
Definition msg2_keys (a g_a sp_pubkey : bytes) (ra_key_cb : Z) (msg2 : sgx_ra_msg2_t) (keys : Keys) : Prop :=
  exists dh_key, ecc_shared a (m2_g_b msg2) = Some dh_key /\
    ecdsa_verify (m2_g_b msg2 ++ g_a) sp_pubkey (m2_sign_gb_ga msg2) = true /\
    derived ra_key_cb dh_key (m2_kdf_id msg2) keys /\
    cmac (smk keys) (maced msg2) = m2_mac msg2.

Definition item_keys it : Keys := mkKeys (smk_key it) (sk_key it) (mk_key it) (vk_key it).

(** An item with keys: they are those of its key pair and of such a message. *)
Definition exchange_ok (cookie : Z) it : Prop :=
  g_a it = ecc_pub (priv_a it) /\
  exists msg2, m2_g_b msg2 = g_b it /\
    msg2_keys (priv_a it) (g_a it) (sp_pubkey it) (DEC_KDF_POINTER cookie (derive_key_cb it)) msg2 (item_keys it).

Definition item_ok (cookie : Z) it : Prop :=
  match state it with
  | ra_inited => True
  | ra_get_gaed => g_a it = ecc_pub (priv_a it)
  | ra_proc_msg2ed => exchange_ok cookie it
  end.

(** The report data of an exchange. *)
Definition report_data_of it : bool * bytes :=
  report_data_gener it (hash_report_data (sha256 (g_a it ++ g_b it ++ vk_key it))) (replicate 64 0).

(** A report by the quoting enclave that the exchange was made for. *)
Definition qe_report_of it (r : sgx_report_t) : Prop :=
  verify_report r = true /\ rep_attributes r = tgt_attributes (qe_target it) /\ rep_mr_enclave r = tgt_mr_enclave (qe_target it).

(** What a call that returned gave away, of an exchange with keys. *)
Definition of_exchange (cookie : Z) (P : ra_db_item_t -> Prop) : Prop :=
  cookie <> 0 /\ exists it, exchange_ok cookie it /\ P it.
Definition returned_ok (cookie : Z) (r : ra_ret) : Prop :=
  match r with
  | Status _ | GaWritten _ | ContextWritten _ => True
  | ReportWritten report nonce => of_exchange cookie (fun it => exists data,
      report_data_of it = (true, data) /\ report = create_report (qe_target it) data /\ nonce = quote_nonce it)
  | Msg3Written mac g ps quote => of_exchange cookie (fun it => g = g_a it /\ mac = cmac (smk_key it) (g ++ ps ++ quote) /\
      exists qe_report, qe_report_of it qe_report /\ take 32 (rep_report_data qe_report) = sha256 (quote_nonce it ++ quote))
  | KeyWritten type key => of_exchange cookie (fun it =>
      type = SGX_RA_KEY_SK /\ key = sk_key it \/ type = SGX_RA_KEY_MK /\ key = mk_key it)
  end.

(** ** Invariant *)

Record Inv db : Prop := {
  inv_items : forall p it, heap db !! p = Some it -> item_ok (g_kdf_cookie db) it;
  inv_cookie : forall p it, heap db !! p = Some it -> g_kdf_cookie db <> 0;
  inv_live : forall i p, vector_get (g_ra_db db) i = Some p -> p <> 0 -> is_Some (heap db !! p);
  inv_slot : forall i j p, vector_get (g_ra_db db) i = Some p -> vector_get (g_ra_db db) j = Some p -> p <> 0 -> i = j;
  inv_null : heap db !! 0 = None }.

(** What cannot change about an item. *)
Definition item_le it it' : Prop :=
  sp_pubkey it' = sp_pubkey it /\ derive_key_cb it' = derive_key_cb it /\
  report_data_gener it' = report_data_gener it /\ ps_sec_prop it' = ps_sec_prop it /\
  (state it <> ra_inited -> state it' <> ra_inited /\ priv_a it' = priv_a it /\ g_a it' = g_a it) /\
  (state it = ra_proc_msg2ed -> it' = it).

(** What a step may do: an item stays, or is freed, and a context keeps its item. *)
Record evolves (freed : option Z) db db' : Prop := {
  ev_items : forall p it, heap db !! p = Some it -> freed <> Some p -> exists it', heap db' !! p = Some it' /\ item_le it it';
  ev_cookie : g_kdf_cookie db <> 0 -> g_kdf_cookie db' = g_kdf_cookie db;
  ev_context : forall context p, find_item db context = Some p -> freed <> Some p -> find_item db' context = Some p }.

(** What holds of a thread between two regions. *)
Definition thread_ok db (t : thread) : Prop :=
  match t with
  | Start _ => True
  | GetGa_locked item | Msg2_snapshot item _ _ | GetKeys_locked item _ => is_Some (heap db !! item)
  | Msg3_snapshot item _ qe_report _ => is_Some (heap db !! item) /\ verify_report qe_report = true
  | Msg2_commit item msg2 _ keys _ => exists it, heap db !! item = Some it /\ state it <> ra_inited /\
      msg2_keys (priv_a it) (g_a it) (sp_pubkey it) (DEC_KDF_POINTER (g_kdf_cookie db) (derive_key_cb it)) msg2 keys
  | Msg3_hash item _ qe_report _ g ps k => exists it, heap db !! item = Some it /\ state it = ra_proc_msg2ed /\
      qe_report_of it qe_report /\ g = g_a it /\ ps = ps_sec_prop it /\ k = smk_key it
  | Init_insert new_item => state new_item = ra_inited /\ g_kdf_cookie db <> 0
  | Returned r => returned_ok (g_kdf_cookie db) r
  | UsedAfterFree => False
  end.

(** *** Regions keep the invariant *)

(** What a region has to show. *)
Definition region_ok (freed : option Z) db (r : RaDb V * thread) : Prop :=
  Inv r.1 /\ evolves freed db r.1 /\ thread_ok r.1 r.2.

Lemma item_le_refl it : item_le it it.
Proof. unfold item_le. tauto. Qed.

Lemma evolves_refl freed db : evolves freed db db.
Proof. constructor; eauto using item_le_refl. Qed.

Lemma item_ok_ready cookie it : item_ok cookie it -> state it <> ra_inited -> g_a it = ecc_pub (priv_a it).
Proof. unfold item_ok. destruct (state it); [done|done|]. by intros [? _]. Qed.

(** The table without its items changed. *)
Lemma set_item_ok db p it it' : Inv db -> heap db !! p = Some it -> item_le it it' -> item_ok (g_kdf_cookie db) it' ->
  Inv (set_item db p it') /\ evolves None db (set_item db p it') /\ heap (set_item db p it') !! p = Some it'.
Proof.
  intros Hi Hp Hle Hok. split_and!; [constructor|constructor|]; unfold set_item; cbn [heap g_kdf_cookie g_ra_db].
  - intros q x [[<- <-]|[_ Hq]]%lookup_insert_Some; [done|by apply (inv_items _ Hi q)].
  - intros q x _. by apply (inv_cookie _ Hi p it).
  - intros i q Hq Hn. apply lookup_insert_is_Some'. right. by apply (inv_live _ Hi i).
  - apply (inv_slot _ Hi).
  - rewrite lookup_insert_ne; [apply (inv_null _ Hi)|]. intros ->. by rewrite (inv_null _ Hi) in Hp.
  - intros q x Hq _. destruct (decide (p = q)) as [<-|Hpq].
    + assert (x = it) as -> by congruence. exists it'. by rewrite lookup_insert_eq.
    + exists x. rewrite lookup_insert_ne by done. by split; [|apply item_le_refl].
  - done.
  - intros c q Hq _. exact Hq.
  - apply lookup_insert_eq.
Qed.

Lemma ret_ok freed db db0 st : Inv db -> evolves freed db0 db -> region_ok freed db0 (ret db st).
Proof. intros Hi He. split_and!; done. Qed.

Lemma ret_or_ok {B} freed db db0 (r : result sgx_status_t B) k : Inv db -> evolves freed db0 db ->
  (forall b, r = Ok b -> region_ok freed db0 (k b)) -> region_ok freed db0 (ret_or db r k).
Proof. intros Hi He Hk. destruct r; [by apply Hk|by apply ret_ok]. Qed.

Lemma derive_keys_derived sdk cb dh kdf keys : derive_keys sdk cb dh kdf = Ok keys -> derived cb dh kdf keys.
Proof.
  unfold derive_keys, derived. destruct (null cb); cbn [negb].
  - destruct (Z.eqb_spec kdf 1) as [->|]; [|done]. intros H. do 4 bind_ok H. by injection H as <-.
  - destruct (kdf_at cb dh kdf) as [st ks]. intros H. bind_ok H. injection H as <-. revert E. unfold allow.
    destruct (decide (st = SGX_SUCCESS)) as [->|]; [done|]. by destruct (decide _).
Qed.

Lemma proc_msg2_keys_ok sdk a g sp cb msg2 keys nonce :
  proc_msg2_keys sdk a g sp cb msg2 = Ok (keys, nonce) -> msg2_keys a g sp cb msg2 keys.
Proof.
  unfold proc_msg2_keys. intros H. do 4 bind_ok H. destruct (ecdsa_verify _ _ _) eqn:Ev; [|done]. cbn [negb] in H.
  do 2 bind_ok H. case_bool_decide as Hm; [|done]. cbn [negb] in H. bind_ok H. injection H as <- <-.
  destruct (ecc_shared a (m2_g_b msg2)) as [dh|] eqn:Es; [|done]. injection E1 as <-.
  exists dh. split_and!; try done. by eapply derive_keys_derived.
Qed.

Lemma get_ga_ok sdk db item : Inv db -> is_Some (heap db !! item) -> region_ok None db (get_ga_locked sdk item db).
Proof.
  intros Hi [it Hit]. unfold get_ga_locked, with_item. rewrite Hit.
  case_bool_decide as Hs; cbn [negb]; [|apply ret_ok; [done|apply evolves_refl]].
  apply ret_or_ok; [done|apply evolves_refl|]. intros _ _.
  edestruct (set_item_ok db item it) as (H1 & H2 & _); [done|exact Hit| | |split_and!; [exact H1|exact H2|done]].
  - unfold item_le. cbn. rewrite Hs. split_and!; done.
  - done.
Qed.

Lemma snapshot_ok sdk db item msg2 target : Inv db -> is_Some (heap db !! item) ->
  region_ok None db (proc_msg2_snapshot sdk item msg2 target db).
Proof.
  intros Hi [it Hit]. unfold proc_msg2_snapshot, with_item. rewrite Hit.
  case_bool_decide as Hs; cbn [negb]; [|apply ret_ok; [done|apply evolves_refl]].
  apply ret_or_ok; [done|apply evolves_refl|]. intros [keys nonce] Hk. split_and!; [done|apply evolves_refl|].
  exists it. rewrite Hs. split_and!; [done|done|]. by eapply proc_msg2_keys_ok.
Qed.

Lemma evolves_trans db1 db2 db3 : evolves None db1 db2 -> evolves None db2 db3 -> evolves None db1 db3.
Proof.
  intros H1 H2. constructor.
  - intros p it Hp _. destruct (ev_items _ _ _ H1 p it Hp ltac:(done)) as (it1 & Hp1 & L1).
    destruct (ev_items _ _ _ H2 p it1 Hp1 ltac:(done)) as (it2 & Hp2 & L2). exists it2. split; [done|].
    destruct L1 as (? & ? & ? & ? & La & Lb), L2 as (? & ? & ? & ? & Lc & Ld). unfold item_le.
    split_and!; [congruence..| |].
    + intros Hs. destruct (La Hs) as (Hs1 & ? & ?), (Lc Hs1) as (? & ? & ?). split_and!; [done|congruence..].
    + intros Hs. pose proof (Lb Hs) as ->. by apply Ld.
  - intros Hc. pose proof (ev_cookie _ _ _ H1 Hc) as E. rewrite <-E in Hc |- *. by apply (ev_cookie _ _ _ H2).
  - intros c p Hp _. apply (ev_context _ _ _ H2); [|done]. by apply (ev_context _ _ _ H1).
Qed.

Lemma commit_ok sdk db item msg2 target keys nonce : Inv db -> thread_ok db (Msg2_commit item msg2 target keys nonce) ->
  region_ok None db (proc_msg2_commit sdk item msg2 target keys nonce db).
Proof.
  intros Hi (it & Hit & Hs & Hk). unfold proc_msg2_commit, with_item. rewrite Hit.
  case_bool_decide as Hg; cbn [negb]; [|apply ret_ok; [done|apply evolves_refl]].
  pose proof (item_ok_ready _ _ (inv_items _ Hi _ _ Hit) Hs) as Hpub.
  match goal with |- context [set_item db item ?x] => set (it1 := x) end.
  match goal with |- context [set_item (set_item _ _ _) item ?x] => set (it2 := x) end.
  edestruct (set_item_ok db item it it1) as (H1 & H2 & H3); [done|exact Hit| | |].
  { unfold item_le. cbn. rewrite Hg. split_and!; done. }
  { unfold item_ok, it1. cbn. by rewrite Hg. }
  apply ret_or_ok; [done|done|]. intros _ _.
  destruct (report_data_gener _ _ _) as [[] data] eqn:Ed; cbn [negb]; [|by apply ret_ok].
  apply ret_or_ok; [done|done|]. intros _ _.
  assert (exchange_ok (g_kdf_cookie db) it2) as Hx.
  { split; [exact Hpub|]. exists msg2. split; [done|]. by destruct keys. }
  edestruct (set_item_ok (set_item db item it1) item it1 it2) as (H4 & H5 & _); [done|done| | |].
  { unfold item_le. cbn. rewrite Hg. split_and!; done. }
  { exact Hx. }
  split_and!; [done|by eapply evolves_trans|]. cbn. split; [by apply (inv_cookie _ Hi item it)|].
  exists it2. split; [done|]. exists data. done.
Qed.

Lemma msg3_snapshot_ok db item n r q : Inv db -> thread_ok db (Msg3_snapshot item n r q) ->
  region_ok None db (msg3_snapshot item n r q db).
Proof.
  intros Hi [[it Hit] Hr]. unfold msg3_snapshot, with_item. rewrite Hit.
  case_bool_decide as Hs; cbn [negb]; [|apply ret_ok; [done|apply evolves_refl]].
  case_bool_decide as Ha; [|apply ret_ok; [done|apply evolves_refl]].
  case_bool_decide as Hm; [|apply ret_ok; [done|apply evolves_refl]].
  split_and!; [done|apply evolves_refl|]. by exists it.
Qed.

Lemma msg3_hash_ok sdk db item n r q g ps k : Inv db -> thread_ok db (Msg3_hash item n r q g ps k) ->
  region_ok None db (msg3_hash sdk item n r q g ps k db).
Proof.
  intros Hi (it & Hit & Hs & Hq & -> & -> & ->). unfold msg3_hash, with_item. rewrite Hit.
  apply ret_or_ok; [done|apply evolves_refl|]. intros quote _.
  case_bool_decide as Hh; [|apply ret_ok; [done|apply evolves_refl]]. split_and!; [done|apply evolves_refl|].
  split; [by apply (inv_cookie _ Hi item it)|]. exists it. split; [|split_and!; eauto].
  pose proof (inv_items _ Hi _ _ Hit) as Ho. unfold item_ok in Ho. by rewrite Hs in Ho.
Qed.

Lemma get_keys_ok db item ty : Inv db -> is_Some (heap db !! item) -> region_ok None db (get_keys_locked item ty db).
Proof.
  intros Hi [it Hit]. unfold get_keys_locked, with_item. rewrite Hit.
  case_bool_decide as Hs; cbn [negb]; [|apply ret_ok; [done|apply evolves_refl]].
  pose proof (inv_items _ Hi _ _ Hit) as Ho. unfold item_ok in Ho. rewrite Hs in Ho.
  destruct ty; [| |apply ret_ok; [done|apply evolves_refl]]; (split_and!; [done|apply evolves_refl|]);
    (split; [by apply (inv_cookie _ Hi item it)|]); exists it; eauto.
Qed.


(** The calls of the enclave change the vector; here its laws are used. *)
#[local] Set Default Proof Using "Type*".
Context `{!SimpleVectorLaws V}.

Lemma find_item_get db c p : find_item db c = Some p <-> vector_get (g_ra_db db) c = Some p /\ p <> 0.
Proof.
  unfold find_item. split.
  - destruct (_ <=? c); [done|]. destruct (vector_get _ c) as [q|]; [|done]. destruct (Z.eqb_spec q 0); [done|]. by intros [= ->].
  - intros [Hg Hp]. pose proof (proj1 (vector_get_ok (g_ra_db db) c) ltac:(eauto)) as Hr.
    rewrite (proj2 (Z.leb_gt _ _)), Hg by lia. by rewrite (proj2 (Z.eqb_neq _ _)).
Qed.

Lemma find_item_live db c p : Inv db -> find_item db c = Some p -> is_Some (heap db !! p).
Proof. intros Hi [Hg Hp]%find_item_get. by eapply inv_live. Qed.

Lemma with_context_ok db c k : Inv db -> (forall p, find_item db c = Some p -> region_ok None db (k p)) ->
  region_ok None db (with_context db c k).
Proof.
  intros Hi Hk. unfold with_context. destruct (find_item db c) as [p|]; [by apply Hk|]. apply ret_ok; [done|apply evolves_refl].
Qed.

(** An item with a new address gets a slot that was empty, or a new one. *)
Lemma insert_slot_ok db p new v' i : Inv db -> 0 < p -> heap db !! p = None -> g_kdf_cookie db <> 0 ->
  state new = ra_inited ->
  (forall j, vector_get v' j = if j =? i then Some p else vector_get (g_ra_db db) j) ->
  (forall q, vector_get (g_ra_db db) i = Some q -> q = 0) ->
  region_ok None db (mkDb v' (<[p := new]> (heap db)) (g_kdf_cookie db), Returned (ContextWritten i)).
Proof.
  intros Hi Hp Hfree Hc Hs Hget Hempty. split_and!; [constructor|constructor|done]; cbn [heap g_kdf_cookie g_ra_db fst].
  - intros q x [[<- <-]|[_ Hq]]%lookup_insert_Some; [by unfold item_ok; rewrite Hs|by apply (inv_items _ Hi q)].
  - done.
  - intros j q. rewrite Hget. destruct (Z.eqb_spec j i) as [->|]; intros Hq Hn; apply lookup_insert_is_Some'.
    + left. congruence.
    + right. by apply (inv_live _ Hi j).
  - intros j k q. rewrite !Hget. destruct (Z.eqb_spec j i) as [->|], (Z.eqb_spec k i) as [->|]; [done| | |apply (inv_slot _ Hi)].
    + intros [= <-] Hk Hn. destruct (inv_live _ Hi _ _ Hk Hn). congruence.
    + intros Hk [= <-] Hn. destruct (inv_live _ Hi _ _ Hk Hn). congruence.
  - rewrite lookup_insert_ne by lia. apply (inv_null _ Hi).
  - intros q x Hq _. exists x. rewrite lookup_insert_ne by congruence. by split; [|apply item_le_refl].
  - done.
  - intros c q [Hg Hn]%find_item_get _. apply find_item_get. cbn [g_ra_db]. rewrite Hget. split; [|done].
    destruct (Z.eqb_spec c i) as [->|]; [|done]. by apply Hempty in Hg.
Qed.

Lemma first_empty_ok v n i slot : first_empty v n i = Ok slot -> forall j, slot = Some j -> vector_get v j = Some 0.
Proof.
  revert i. induction n as [|n IH]; intros i; cbn [first_empty]; [by intros [= <-]|].
  destruct (vector_get v i) as [q|] eqn:E; [|done]. unfold null. destruct (Z.eqb_spec q 0) as [->|]; [|apply IH].
  intros [= <-] j [= <-]. exact E.
Qed.

Lemma init_insert_ok sdk db new : Inv db -> thread_ok db (Init_insert new) ->
  (forall p, sdk_malloc sdk = Some p -> 0 < p /\ heap db !! p = None) -> region_ok None db (init_insert sdk new db).
Proof.
  intros Hi [Hs Hc] Hm. unfold init_insert. destruct (sdk_malloc sdk) as [p|]; [|apply ret_ok; [done|apply evolves_refl]].
  destruct (Hm p eq_refl) as [Hp Hf]. apply ret_or_ok; [done|apply evolves_refl|]. intros [i|] Hslot.
  - pose proof (first_empty_ok _ _ _ _ Hslot i eq_refl) as Hg.
    destruct (vector_set_ok (g_ra_db db) i p) as [v' Hv]; [apply vector_get_ok; eauto|]. rewrite Hv. cbn [default from_option].
    destruct (vector_set_get _ _ _ _ Hv) as [_ Hget]. apply insert_slot_ok; try done. intros q Hq. congruence.
  - destruct (_ <=? _); [apply ret_ok; [done|apply evolves_refl]|]. destruct (decide _); [|apply ret_ok; [done|apply evolves_refl]].
    destruct (vector_push_back (g_ra_db db) p) as [v'|] eqn:Hv; [|apply ret_ok; [done|apply evolves_refl]].
    destruct (vector_push_get _ _ _ Hv) as [_ Hget]. apply insert_slot_ok; try done.
    intros q Hq. pose proof (proj1 (vector_get_ok _ _) (ex_intro _ q Hq)). lia.
Qed.

Lemma init_cookie_ok sdk db db' : Inv db -> init_cookie sdk db = Some db' ->
  Inv db' /\ evolves None db db' /\ g_kdf_cookie db' <> 0 /\ g_ra_db db' = g_ra_db db /\ heap db' = heap db.
Proof.
  intros Hi. unfold init_cookie. destruct (Z.eqb_spec (g_kdf_cookie db) 0) as [Hz|Hz].
  - destruct (list_find _ _) as [[k r]|] eqn:E; [|done]. apply list_find_Some in E as (_ & Hr & _). intros [= <-].
    assert (forall p it, heap db !! p <> Some it) as Hno by (intros p it Hp; by apply (inv_cookie _ Hi p it)).
    split_and!; [constructor|constructor|..]; cbn [heap g_kdf_cookie g_ra_db snd]; try done; try (apply Hi).
    + intros p it Hp. by apply Hno in Hp.
    + intros p it Hp. by apply Hno in Hp.
  - intros [= <-]. split_and!; [done|apply evolves_refl|done..].
Qed.

Lemma init_checked_ok sdk db pp pk cb f pc : Inv db -> region_ok None db (init_checked sdk pp pk cb f pc db).
Proof.
  intros Hi. unfold init_checked. destruct (init_cookie sdk db) as [db'|] eqn:Ec; [|apply ret_ok; [done|apply evolves_refl]].
  destruct (init_cookie_ok _ _ _ Hi Ec) as (Hi' & He & Hc & _). destruct (_ || _); [by apply ret_ok|].
  apply ret_or_ok; [done|done|]. intros _ _. destruct (negb _); [by apply ret_ok|]. split_and!; done.
Qed.

(** Closing frees the item of the context and no other. *)
Lemma close_ok db c item : Inv db -> find_item db c = Some item ->
  region_ok (Some item) db (close_locked c item db).
Proof.
  intros Hi Hf. pose proof (find_item_live _ _ _ Hi Hf) as [it Hit]. apply find_item_get in Hf as [Hg Hn].
  unfold close_locked, with_item. rewrite Hit. destruct (vector_set_ok (g_ra_db db) c 0) as [v' Hv]; [apply vector_get_ok; eauto|].
  rewrite Hv. cbn [default from_option]. destruct (vector_set_get _ _ _ _ Hv) as [_ Hget].
  assert (forall j q, vector_get v' j = Some q -> q <> 0 -> vector_get (g_ra_db db) j = Some q /\ q <> item) as Hold.
  { intros j q. rewrite Hget. destruct (Z.eqb_spec j c) as [->|Hj]; [congruence|]. intros Hq Hq0. split; [done|].
    intros ->. apply Hj. by eapply inv_slot. }
  split_and!; [constructor|constructor|done]; cbn [heap g_kdf_cookie g_ra_db fst ret].
  - intros q x [_ Hq]%lookup_delete_Some. by apply (inv_items _ Hi q).
  - intros q x [_ Hq]%lookup_delete_Some. by apply (inv_cookie _ Hi q x).
  - intros j q Hq Hq0. destruct (Hold j q Hq Hq0) as [Hq' Hne]. rewrite lookup_delete_ne by done. by eapply inv_live.
  - intros j k q Hj Hk Hq0. eapply inv_slot; [done|apply (Hold j q)|apply (Hold k q)|]; done.
  - rewrite lookup_delete_ne by done. apply (inv_null _ Hi).
  - intros q x Hq Hne. exists x. rewrite lookup_delete_ne by congruence. by split; [|apply item_le_refl].
  - done.
  - intros j q [Hj Hq]%find_item_get Hne. apply find_item_get. cbn [g_ra_db]. rewrite Hget.
    destruct (Z.eqb_spec j c) as [->|]; [congruence|done].
Qed.

(** What a step of a thread frees. *)
Definition frees db (t : thread) : option Z :=
  match t with Start (decent_ra_close context) => find_item db context | _ => None end.

Lemma region_held freed db c (k : Z -> thread) : Inv db -> freed = None ->
  (forall p, is_Some (heap db !! p) -> thread_ok db (k p)) -> region_ok freed db (with_context db c (fun p => (db, k p))).
Proof.
  intros Hi -> Hk. apply with_context_ok; [done|]. intros p Hp. split_and!; [done|apply evolves_refl|].
  by apply Hk, (find_item_live _ c).
Qed.

Lemma start_call_ok sdk c db : Inv db -> region_ok (frees db (Start c)) db (start sdk c db).
Proof.
  intros Hi. assert (forall freed st, region_ok freed db (ret db st)) as Hret by (intros; apply ret_ok; [done|apply evolves_refl]).
  destruct c; cbn [start frees].
  - destruct (null _); [done|]. by apply region_held.
  - destruct (_ || _); [done|]. by apply region_held.
  - destruct (_ || _); [done|]. apply with_context_ok; [done|]. intros p Hp. destruct (negb _); [done|].
    apply ret_or_ok; [done|apply evolves_refl|]. intros u Hu. bind_ok Hu. split_and!; [done|apply evolves_refl|].
    split; [by apply (find_item_live _ context)|]. by destruct (verify_report qe_report).
  - by apply init_checked_ok.
  - destruct (null _); [done|]. apply with_context_ok; [done|]. intros p Hp. destruct (negb _); [done|].
    split_and!; [done|apply evolves_refl|]. by apply (find_item_live _ context).
  - unfold with_context. destruct (find_item db context) as [p|] eqn:E; [|done]. by apply close_ok.
Qed.

Lemma step_ok sdk t db : Inv db -> thread_ok db t ->
  (forall p, sdk_malloc sdk = Some p -> 0 < p /\ heap db !! p = None) ->
  region_ok (frees db t) db (step sdk t db).
Proof.
  intros Hi Ht Hm. destruct t; cbn [step]; [by apply start_call_ok|..]; cbn [frees].
  - by apply get_ga_ok.
  - by apply snapshot_ok.
  - by apply commit_ok.
  - by apply msg3_snapshot_ok.
  - by apply msg3_hash_ok.
  - by apply init_insert_ok.
  - by apply get_keys_ok.
  - split_and!; [done|apply evolves_refl|done].
  - done.
Qed.

(** *** All threads *)

Definition sys_ok (s : Sys (V := V)) : Prop := Inv (sys_db s) /\ Forall (thread_ok (sys_db s)) (threads s).

(** What a thread relies on stays while its item does. *)
Lemma thread_ok_evolves freed db db' t : Inv db -> evolves freed db db' -> thread_ok db t ->
  (forall p, held t = Some p -> freed <> Some p) -> thread_ok db' t.
Proof.
  intros Hi He Ht Hh.
  assert (forall p, freed <> Some p -> is_Some (heap db !! p) -> is_Some (heap db' !! p)) as Hlive.
  { intros p Hf [it Hp]. destruct (ev_items _ _ _ He p it Hp Hf) as (it' & ? & _). eauto. }
  destruct t; cbn [thread_ok held] in *; auto.
  - destruct Ht as (it & Hp & Hs & Hk). destruct (ev_items _ _ _ He _ _ Hp ltac:(auto)) as (it' & Hp' & L).
    destruct L as (Esp & Ecb & _ & _ & La & _). destruct (La Hs) as (Hs' & Ea & Eg). exists it'. split_and!; [done|done|].
    rewrite (ev_cookie _ _ _ He) by (by eapply inv_cookie). by rewrite Ea, Eg, Esp, Ecb.
  - destruct Ht as [Hp Hr]. auto.
  - destruct Ht as (it & Hp & Hs & Hq & -> & -> & ->). destruct (ev_items _ _ _ He _ _ Hp ltac:(auto)) as (it' & Hp' & L).
    destruct L as (_ & _ & _ & _ & _ & Lb). pose proof (Lb Hs) as ->. by exists it.
  - destruct Ht as [Hs Hc]. split; [done|]. by rewrite (ev_cookie _ _ _ He).
  - destruct r; cbn [returned_ok] in *; try done; destruct Ht as [Hc Ht]; (split; [by rewrite (ev_cookie _ _ _ He)|]);
      by rewrite (ev_cookie _ _ _ He).
Qed.

Lemma held_frees db t : held t <> None -> frees db t = None.
Proof. by destruct t. Qed.

(** A step of the threads, and what it frees. *)
Lemma sys_step_ok s s' : sys_ok s -> sys_step true s s' ->
  sys_ok s' /\ exists freed, evolves freed (sys_db s) (sys_db s') /\ forall p, freed = Some p -> heap (sys_db s') !! p = None.
Proof.
  intros [Hi Ht] Hs. destruct Hs as [s c|s sdk i t db t' Hti Hm Hg Hstep].
  - split; [split; [done|]|exists None; split; [apply evolves_refl|done]]. cbn. apply Forall_app. split; [done|]. by repeat constructor.
  - destruct (step_ok sdk t (sys_db s) Hi) as (H1 & H2 & H3).
    { by eapply Forall_lookup_1. } { done. } rewrite Hstep in H1, H2, H3. cbn [fst snd] in *.
    split; [split; [done|]|].
    + cbn. apply Forall_lookup_2. intros j u Hj. destruct (decide (i = j)) as [<-|Hij].
      * rewrite list_lookup_insert_eq in Hj by (by eapply lookup_lt_Some). injection Hj as <-. done.
      * rewrite list_lookup_insert_ne in Hj by done. eapply thread_ok_evolves; [exact Hi|exact H2|by eapply Forall_lookup_1|].
        intros p Hp Hf. destruct t as [c| | | | | | | | |]; try done. destruct c; try done.
        eapply (Hg eq_refl); eauto.
    + exists (frees (sys_db s) t). split; [done|]. intros p Hf. destruct t as [c| | | | | | | | |]; try done. destruct c; try done.
      cbn [frees sys_db] in *. cbn [step start] in Hstep. unfold with_context in Hstep. rewrite Hf in Hstep.
      unfold close_locked, with_item in Hstep. destruct (find_item_live _ _ _ Hi Hf) as [it Hit]. rewrite Hit in Hstep.
      injection Hstep as <- <-. apply lookup_delete_eq.
Qed.

Lemma sys_ok_init : sys_ok sys_init.
Proof.
  assert (forall i p, vector_get vector_zero i <> Some p) as Hno.
  { intros i p Hp. pose proof (proj1 (vector_get_ok _ _) (ex_intro _ p Hp)). rewrite vector_size_zero in *. lia. }
  split; [|constructor]. constructor; cbn [heap g_ra_db g_kdf_cookie sys_db sys_init]; try done.
  - intros i p Hp. by apply Hno in Hp.
  - intros i j p Hp. by apply Hno in Hp.
Qed.

Lemma reachable_ok s : reachable true s -> sys_ok s.
Proof.
  intros Hr. pose proof sys_ok_init as H0. induction Hr as [|x y z Hs _ IH]; [done|]. apply IH. by apply (sys_step_ok x y H0).
Qed.

(** Steps while an address stays allocated. *)
Definition step_alive (p : Z) (s s' : Sys (V := V)) : Prop := sys_step true s s' /\ is_Some (heap (sys_db s') !! p).

Lemma keyed_item_fixed p s s' it : sys_ok s -> rtc (step_alive p) s s' ->
  heap (sys_db s) !! p = Some it -> state it = ra_proc_msg2ed ->
  sys_ok s' /\ heap (sys_db s') !! p = Some it /\ forall c, find_item (sys_db s) c = Some p -> find_item (sys_db s') c = Some p.
Proof.
  intros Hok Hr Hp Hs. induction Hr as [s|s s1 s2 [Hstep Hlive] _ IH]; [done|].
  destruct (sys_step_ok _ _ Hok Hstep) as (Hok1 & freed & He & Hf).
  assert (freed <> Some p) as Hne by (intros ->; rewrite (Hf p eq_refl) in Hlive; by destruct Hlive).
  destruct (ev_items _ _ _ He p it Hp Hne) as (it' & Hp' & L). destruct L as (_ & _ & _ & _ & _ & Lb). rewrite (Lb Hs) in Hp'.
  destruct (IH Hok1 Hp') as (H1 & H2 & H3). split_and!; [done|done|]. intros c Hc. by apply H3, (ev_context _ _ _ He).
Qed.

(** *** Theorems *)

(** C20. Whatever the host calls, in any order and from any number of threads, if an
    exchange is closed only while no other thread is using it: no thread uses an item
    that was freed; an item has keys only if they come from the secret that its own
    key pair shares with the key in a message 2, which the owner of its public key
    has signed together with that of the item, and which is authenticated with the
    keys; and every report, message 3 or key that a call returns belongs to such an
    exchange. *)
Theorem exchange_sound s : reachable true s ->
  (forall p it, heap (sys_db s) !! p = Some it -> state it = ra_proc_msg2ed -> exchange_ok (g_kdf_cookie (sys_db s)) it) /\
  UsedAfterFree ∉ threads s /\
  forall r, Returned r ∈ threads s -> returned_ok (g_kdf_cookie (sys_db s)) r.
Proof.
  intros [Hi Ht]%reachable_ok. split_and!.
  - intros p it Hp Hs. pose proof (inv_items _ Hi p it Hp) as Ho. unfold item_ok in Ho. by rewrite Hs in Ho.
  - intros Hin. exact (proj1 (Forall_forall _ _) Ht _ Hin).
  - intros r Hin. exact (proj1 (Forall_forall _ _) Ht _ Hin).
Qed.

(** C21. The keys the enclave gets are those the quote vouches for: from the call that
    returned the report of an exchange, as long as it is not closed, every call for
    a key returns the key of the same four, whose [vk] is hashed into the report
    together with the two public keys. *)
Theorem report_and_keys_agree s i p msg2 target keys nonce sdk db report n s' sdk' ty db' key :
  reachable true s -> threads s !! i = Some (Msg2_commit p msg2 target keys nonce) ->
  step sdk (Msg2_commit p msg2 target keys nonce) (sys_db s) = (db, Returned (ReportWritten report n)) ->
  rtc (step_alive p) (mkSys db (<[i := Returned (ReportWritten report n)]> (threads s))) s' ->
  step sdk' (GetKeys_locked p ty) (sys_db s') = (db', Returned (KeyWritten ty key)) ->
  exists it data, exchange_ok (g_kdf_cookie db) it /\ item_keys it = keys /\ g_b it = m2_g_b msg2 /\
    report_data_gener it (hash_report_data (sha256 (g_a it ++ g_b it ++ vk keys))) (replicate 64 0) = (true, data) /\
    report = create_report target data /\
    (ty = SGX_RA_KEY_SK /\ key = sk keys \/ ty = SGX_RA_KEY_MK /\ key = mk keys).
Proof.
  intros Hr Hi Hc Hpath Hk. pose proof (reachable_ok _ Hr) as Hok. pose proof Hok as [Hinv Ht].
  pose proof (Forall_lookup_1 _ _ _ _ Ht Hi) as Hti.
  assert (sys_ok (mkSys db (<[i := Returned (ReportWritten report n)]> (threads s)))) as Hok1.
  { eapply (sys_step_ok s _ Hok).
    apply (Run true s (mkSdk (sdk_status sdk) (sdk_key sdk) (sdk_nonce sdk) (sdk_cookies sdk) None) i _ _ _ Hi); [done|done|exact Hc]. }
  cbn [step] in Hc, Hk. unfold proc_msg2_commit, with_item in Hc. destruct Hti as (it0 & Hp & _ & _). rewrite Hp in Hc.
  case_bool_decide; [|done]. cbn [negb] in Hc. unfold ret_or, ret in Hc. destruct (call sdk Sha256Msg); [|done].
  destruct (report_data_gener it0 _ _) as [[] data] eqn:Ed; [|done]. cbn [negb] in Hc. destruct (call sdk CreateReport); [|done].
  injection Hc as Edb <- <-.
  match type of Edb with set_item _ p ?x = _ => set (it := x) in Edb end.
  assert (heap db !! p = Some it) as Hpd by (rewrite <-Edb; apply lookup_insert_eq).
  destruct (keyed_item_fixed p _ s' it Hok1 Hpath Hpd eq_refl) as ([Hinv' _] & Hp' & _).
  exists it, data. destruct Hok1 as [Hinv1 _]. pose proof (inv_items _ Hinv1 p it Hpd) as Hx. cbn in Hx.
  unfold get_keys_locked, with_item in Hk. rewrite Hp' in Hk.
  change (state it) with ra_proc_msg2ed in Hk. rewrite bool_decide_true in Hk by done. cbn [negb] in Hk.
  split_and!; [exact Hx|by destruct keys|done|exact Ed|done|]. destruct ty; [| |done]; injection Hk as _ <-; auto.
Qed.
End exchange.

(** *** The quote in pieces *)

Section quote.
(** Every byte of the quote is read once, so that what is hashed is what is
    authenticated, and is the quote where the host leaves its memory alone. *)
Lemma quote_pieces_whole sdk quote_mem n fuel turn pos quote : 0 <= pos ->
  n <= pos + 32 * Z.of_nat fuel -> quote_pieces sdk quote_mem n fuel turn pos = Ok quote ->
  length quote = Z.to_nat (n - pos) /\
  forall mem, (forall t, quote_mem t = mem) -> quote = map mem (seqZ pos (n - pos)).
Proof.
  revert turn pos quote. induction fuel as [|fuel IH]; intros turn pos quote Hp Hn; cbn [quote_pieces].
  - intros [= <-]. replace (Z.to_nat (n - pos)) with 0%nat by lia. split; [done|]. intros mem _. by rewrite seqZ_nil by lia.
  - destruct (Z.ltb_spec pos n) as [Hlt|Hge].
    + intros H. do 3 bind_ok H. injection H as <-. apply IH in E1 as [Hl Hm]; [|lia|lia].
      rewrite length_app, Hl. unfold read_quote. rewrite length_map, length_seqZ. destruct (Z.ltb_spec (n - pos) 32) as [Hs|Hs].
      * split; [lia|]. intros mem H. rewrite (Hm mem H), H, seqZ_nil with (n := n - (pos + 32)) by lia. by rewrite app_nil_r.
      * split; [lia|]. intros mem H. rewrite (Hm mem H), H, <-map_app. f_equal.
        rewrite <-seqZ_app by lia. f_equal. lia.
    + intros [= <-]. replace (Z.to_nat (n - pos)) with 0%nat by lia. split; [done|]. intros mem _. by rewrite seqZ_nil by lia.
Qed.
End quote.

(** ** Concrete runs *)

Section runs.
Context `{SDK : SgxSdk} {V : Type} `{SV : SimpleVector V}.

(** A schedule: a call begins, or a thread runs a region. *)
Inductive action := Do (c : ra_call) | At (i : nat) (sdk : Sdk).

Definition malloc_ok (sdk : Sdk) (db : RaDb V) : bool :=
  match sdk_malloc sdk with Some p => (0 <? p) && bool_decide (heap db !! p = None) | None => true end.
Definition is_close (t : thread) : bool := match t with Start (decent_ra_close _) => true | _ => false end.

Fixpoint schedule (guarded : bool) (l : list action) (s : Sys (V := V)) : option Sys :=
  match l with
  | [] => Some s
  | Do c :: l => schedule guarded l (mkSys (sys_db s) (threads s ++ [Start c]))
  | At i sdk :: l =>
    t ← threads s !! i;
    if malloc_ok sdk (sys_db s) && negb (guarded && is_close t) then
      let '(db, t') := step sdk t (sys_db s) in schedule guarded l (mkSys db (<[i := t']> (threads s)))
    else None
  end.

Lemma schedule_steps guarded l s s' : schedule guarded l s = Some s' -> rtc (sys_step guarded) s s'.
Proof.
  revert s. induction l as [|[c|i sdk] l IH]; intros s; cbn [schedule].
  - intros [= <-]. constructor.
  - intros H. eapply rtc_l; [apply Spawn|by apply IH].
  - destruct (threads s !! i) as [t|] eqn:Ht; [|done]. cbn [mbind option_bind].
    destruct (malloc_ok sdk (sys_db s) && negb (guarded && is_close t)) eqn:E; [|done].
    apply andb_true_iff in E as [Hm Hc]. destruct (step sdk t (sys_db s)) as [db t'] eqn:Es. intros H.
    eapply rtc_l; [|by apply IH]. eapply Run; [exact Ht| | |exact Es].
    + intros p Hp. unfold malloc_ok in Hm. rewrite Hp in Hm. apply andb_true_iff in Hm as [?%Z.ltb_lt ?%bool_decide_eq_true_1]. done.
    + intros -> c ->. done.
Qed.
End runs.

(** An SDK and a vector to compute with. *)
Definition toy_sdk : SgxSdk := {|
  ecc_pub := fun a => a; ecc_check_point := fun _ => true;
  ecc_shared := fun a b => Some (zip_with Z.lxor a b);
  ecdsa_verify := fun d pk s => bool_decide (s = pk ++ d);
  derive_key := fun dh l => Z.of_nat (String.length l) :: dh; cmac := fun k m => k ++ m;
  sha256 := fun m => take 32 (m ++ replicate 32 0);
  create_report := fun t d => mkReport (tgt_mr_enclave t) (tgt_attributes t) d [];
  verify_report := fun _ => true; is_within_enclave := fun _ _ => true; is_outside_enclave := fun _ _ => true;
  kdf_at := fun _ _ _ => (SGX_SUCCESS, mkKeys [] [] [] []) |}.

Definition toy_vector : SimpleVector (list Z) := {|
  vector_zero := []; vector_size := fun v => zlen v;
  vector_get := fun v i => if i <? 0 then None else v !! Z.to_nat i;
  vector_set := fun v i x => if (0 <=? i) && (i <? zlen v) then Some (<[Z.to_nat i := x]> v) else None;
  vector_push_back := fun v x => Some (v ++ [x]) |}.

#[local] Existing Instances toy_sdk toy_vector.

#[local] Instance toy_vector_laws : SimpleVectorLaws (list Z).
Proof.
  split; cbn.
  - done.
  - lia.
  - intros v i. destruct (Z.ltb_spec i 0); [split; [by intros []|lia]|]. rewrite lookup_lt_is_Some. lia.
  - intros v i x Hi. rewrite (proj2 (Z.leb_le _ _)), (proj2 (Z.ltb_lt _ _)) by lia. eauto.
  - intros v i x v'. destruct (Z.leb_spec 0 i), (Z.ltb_spec i (zlen v)); [|done..]. intros [= <-].
    rewrite length_insert. split; [done|]. intros j. destruct (Z.ltb_spec j 0), (Z.eqb_spec j i) as [->|]; try lia; try done.
    + apply list_lookup_insert_eq. lia.
    + apply list_lookup_insert_ne. lia.
  - intros v x v' [= <-]. rewrite length_app. split; [cbn; lia|]. intros j.
    destruct (Z.ltb_spec j 0), (Z.eqb_spec j (zlen v)) as [->|]; try lia; try done.
    + rewrite Nat2Z.id. apply list_lookup_middle. done.
    + destruct (decide (j < zlen v)); [apply lookup_app_l; lia|]. rewrite lookup_app_r by lia.
      rewrite (lookup_ge_None_2 v), lookup_ge_None_2 by (cbn; lia). done.
Qed.

(** All calls of the SDK succeed, with these random bytes and this memory. *)
Definition well (key nonce : bytes) (p : option Z) : Sdk := mkSdk (fun _ => SGX_SUCCESS) key nonce [7] p.

(** A message 2 of the owner of [pub], made for the public key [ga]. *)
Definition toy_msg2 (b pub ga : bytes) : sgx_ra_msg2_t :=
  let keys := standard_keys (zip_with Z.lxor b ga) in
  let m mac := mkMsg2 b [5] 1 1 (pub ++ b ++ ga) mac in
  m (cmac (smk keys) (maced (m []))).

Definition toy_gener : SgxReportDataGenerator := fun std _ => (true, std).
Definition toy_target : sgx_target_info_t := mkTarget [9] [8] [].
Definition toy_qe_report (nonce quote : bytes) : sgx_report_t := mkReport [9] [8] (sha256 (nonce ++ quote)) [].

(** Two exchanges; the first has its keys, its message 3 and the key that the
    enclave asks for. *)
Definition toy_run : list action :=
  let s := well [1; 2] [3] None in
  [Do (decent_ra_init 1 [4] toy_gener 1); At 0 s; At 0 (well [] [] (Some 100));
   Do (decent_ra_init 1 [6] toy_gener 1); At 1 s; At 1 (well [] [] (Some 200));
   Do (decent_ra_get_ga 0 1); At 2 s; At 2 s;
   Do (decent_ra_proc_msg2_trusted 0 1 (toy_msg2 [5; 6] [4] [1; 2]) 1 toy_target 1 1); At 3 s; At 3 s].

Definition toy_run_keys : list action :=
  let s := well [] [] None in
  [Do (decent_ra_get_keys 0 SGX_RA_KEY_SK 1); At 4 s; At 4 s;
   Do (decent_ra_get_msg3_trusted 0 40 1 (toy_qe_report [3] (seqZ 0 40)) 1 376 (fun _ i => i)); At 5 s; At 5 s; At 5 s].

Definition toy_state (l : list action) : Sys (V := list Z) := default sys_init (schedule true l sys_init).

Lemma toy_reachable l : is_Some (schedule (V := list Z) true l sys_init) -> reachable true (toy_state l).
Proof. intros [s Hs]. unfold toy_state. rewrite Hs. by eapply schedule_steps. Qed.

Definition toy_keys : Keys := standard_keys [4; 4].
Definition toy_final : Sys (V := list Z) := toy_state (toy_run ++ [At 3 (well [] [] None)] ++ toy_run_keys).

Lemma exchange_sound_witness :
  (exists it, heap (sys_db toy_final) !! 100 = Some it /\ exchange_ok 7 it /\ item_keys it = toy_keys) /\
  Returned (KeyWritten SGX_RA_KEY_SK (sk toy_keys)) ∈ threads toy_final /\
  UsedAfterFree ∉ threads toy_final /\
  returned_ok 7 (KeyWritten SGX_RA_KEY_SK (sk toy_keys)) /\
  exists mac, returned_ok 7 (Msg3Written mac [1; 2] (replicate 256 0) (seqZ 0 40)).
Proof.
  assert (reachable true toy_final) as Hr by (apply toy_reachable; vm_compute; eauto).
  destruct (exchange_sound toy_final Hr) as (H1 & H2 & H3).
  assert (g_kdf_cookie (sys_db toy_final) = 7) as Hc by (vm_compute; reflexivity). rewrite Hc in H1, H3.
  assert (threads toy_final !! 4%nat = Some (Returned (KeyWritten SGX_RA_KEY_SK (sk toy_keys)))) as Hk by (vm_compute; reflexivity).
  assert (exists mac, threads toy_final !! 5%nat = Some (Returned (Msg3Written mac [1; 2] (replicate 256 0) (seqZ 0 40)))) as [mac Hm]
    by (eexists; vm_compute; reflexivity).
  split_and!.
  - destruct (heap (sys_db toy_final) !! 100) as [it|] eqn:E; [|vm_compute in E; congruence]. exists it.
    split; [reflexivity|]. split; [apply (H1 100 it E)|]; vm_compute in E; injection E as <-; reflexivity.
  - eapply list_elem_of_lookup_2, Hk.
  - exact H2.
  - eapply H3, list_elem_of_lookup_2, Hk.
  - exists mac. eapply H3, list_elem_of_lookup_2, Hm.
Defined.

Definition toy_report : sgx_report_t :=
  create_report toy_target (hash_report_data (sha256 ([1; 2] ++ [5; 6] ++ vk toy_keys))).

Lemma report_and_keys_agree_witness :
  step (well [] [] None) (Msg2_commit 100 (toy_msg2 [5; 6] [4] [1; 2]) toy_target toy_keys [3]) (sys_db (toy_state toy_run)) =
    (sys_db (toy_state (toy_run ++ [At 3 (well [] [] None)])), Returned (ReportWritten toy_report [3])) /\
  exists it data, exchange_ok 7 it /\ item_keys it = toy_keys /\ g_b it = [5; 6] /\
    report_data_gener it (hash_report_data (sha256 (g_a it ++ g_b it ++ vk toy_keys))) (replicate 64 0) = (true, data) /\
    toy_report = create_report toy_target data /\ sk_key it = sk toy_keys.
Proof.
  split; [vm_compute; reflexivity|].
  edestruct (report_and_keys_agree (toy_state toy_run) 3 100 (toy_msg2 [5; 6] [4] [1; 2]) toy_target toy_keys [3]
    (well [] [] None) (sys_db (toy_state (toy_run ++ [At 3 (well [] [] None)]))) toy_report [3]
    (toy_state (toy_run ++ [At 3 (well [] [] None)])) (well [] [] None) SGX_RA_KEY_SK
    (sys_db (toy_state (toy_run ++ [At 3 (well [] [] None)]))) (sk toy_keys))
    as (it & data & H1 & H2 & H3 & H4 & H5 & H6).
  - apply toy_reachable. vm_compute. eauto.
  - vm_compute. reflexivity.
  - vm_compute. reflexivity.
  - constructor.
  - vm_compute. reflexivity.
  - exists it, data. split_and!; [exact H1|exact H2|exact H3|exact H4|exact H5|].
    rewrite <-H2. reflexivity.
Defined.

(** ** Closing an exchange that is in use *)

(** Nothing keeps the host's threads away from an exchange that the enclave closes.
    A call that has looked its item up uses it after it was freed; and when the
    memory has become the item of a new exchange, the second half of
    [proc_msg2_trusted] gives it the keys of the old one, which the key pair of the
    new one does not have. *)
Lemma close_race :
  (exists s : Sys (V := list Z), reachable false s /\ UsedAfterFree ∈ threads s) /\
  exists (s : Sys (V := list Z)) it, reachable false s /\ heap (sys_db s) !! 100 = Some it /\
    state it = ra_proc_msg2ed /\ ~ exchange_ok (g_kdf_cookie (sys_db s)) it.
Proof.
  set (w := well [] [] None).
  assert (forall l s, schedule (V := list Z) false l sys_init = Some s -> reachable false s) as Hr
    by (intros l s H; by eapply schedule_steps).
  split.
  - destruct (schedule (V := list Z) false (toy_run ++ [Do (decent_ra_close 0); At 4 w; At 3 w]) sys_init) as [s|] eqn:E.
    + exists s. split; [by eapply Hr|]. vm_compute in E. injection E as <-. do 3 apply list_elem_of_further. apply list_elem_of_here.
    + vm_compute in E. congruence.
  - destruct (schedule (V := list Z) false (toy_run ++ [Do (decent_ra_close 0); At 4 w;
      Do (decent_ra_init 1 [6] toy_gener 1); At 5 w; At 5 (well [] [] (Some 100));
      Do (decent_ra_get_ga 0 1); At 6 w; At 6 (well [3; 3] [] None); At 3 w]) sys_init) as [s|] eqn:E.
    + exists s. destruct (heap (sys_db s) !! 100) as [it|] eqn:Eit; [|vm_compute in E; injection E as <-; vm_compute in Eit; congruence].
      exists it. split; [by eapply Hr|]. split; [done|].
      vm_compute in E. injection E as <-. vm_compute in Eit. injection Eit as <-. split; [done|].
      intros (_ & msg2 & Hb & dh & Hs & _ & Hd & _). cbn in Hb. rewrite Hb in Hs. vm_compute in Hs. injection Hs as <-.
      vm_compute in Hd. destruct Hd as [_ Hd]. congruence.
    + vm_compute in E. congruence.
Qed.
