(* ===== verification/IasReport.v ===== *)
(** * Attestation reports

    The check of a report of Intel's attestation service:
    [DE/Common/Sgx/IasReportVerifier.hpp] with the report set of
    [DE/Common/Sgx/EpidRaMessages.hpp], and the certificate chains it walks
    ([libs/mbedTLScpp/include/mbedTLScpp/X509Cert.hpp]).  The report is JSON and the
    quote in it base64.  Certificates, signatures and the hash are mbedtls's and are
    parameters. *)

From stdpp Require Import strings.
From S2P Require Import Prelude AdvRlp Codec Json.

(** ** Exceptions

    Those of DecentEnclave, of mbedTLScpp ([mbedTLSRuntimeError] for a call that
    failed, [RuntimeException], [InvalidObjectException]), of the JSON parser, of the
    objects, and of the codecs. *)
Inductive RaError :=
| DecentException (what : string) | SgxRuntimeError (call : string)
| mbedTLSRuntimeError | mbedRuntimeException (what : string) | mbedInvalidObject
| RaJson (e : JsonError) | RaObj (e : AdvError) | RaCodec (e : CodecError).

#[export] Instance RaError_eq_dec : EqDecision RaError.
Proof. solve_decision. Defined.

(** What [catch(const Exception&)] of namespace [DecentEnclave::Common] catches. *)
Definition is_Exception (e : RaError) : bool :=
  match e with DecentException _ | SgxRuntimeError _ => true | _ => false end.

Definition ra_json {A} (r : result JsonError A) : result RaError A := match r with Ok a => Ok a | Throw e => Throw (RaJson e) end.
Definition ra_obj {A} (r : result AdvError A) : result RaError A := match r with Ok a => Ok a | Throw e => Throw (RaObj e) end.
Definition ra_codec {A} (r : result CodecError A) : result RaError A := match r with Ok a => Ok a | Throw e => Throw (RaCodec e) end.

(** ** Certificates *)

(** mbedtls: a certificate, its DER text, whether it is an empty object, the parser,
    the verification of a chain against a CA (the return value and the flags), and
    of a signature of a hash; and the CA of the attestation service. *)
Class X509Ops := {
  Cert : Type;
  raw : Cert -> bytes;
  blank : Cert;
  is_blank : Cert -> bool;
  parse_der : bytes -> option Cert;
  verify_with_profile : list Cert -> Cert -> Z * Z;
  pk_verify : Cert -> bytes -> bytes -> bool;
  md_sha256 : bytes -> bytes;
  RootCaCert : Cert }.

(** What mbedtls documents: the verification succeeds exactly without flags, the
    parser keeps the text and its result is no empty object, whose text is none, and
    a hash has 32 bytes. *)
Class X509Laws `{X509Ops} := {
  verify_flags : forall chain ca, (verify_with_profile chain ca).1 = 0 <-> (verify_with_profile chain ca).2 = 0;
  parse_der_raw : forall der c, parse_der der = Some c -> raw c = der /\ is_blank c = false;
  blank_blank : is_blank blank = true;
  parse_blank : parse_der (raw blank) = None;
  md_sha256_length : forall m, length (md_sha256 m) = 32%nat }.

(** A chain and the current certificate; an object without a certificate is null. *)
Module X509Cert.
Section x509.
Context `{X509Ops}.

Record t := mk { certs : list Cert; m_curr : nat }.

Definition Empty : t := mk [blank] 0.

(** [mbedtls_x509_crt_parse_der]: into the first empty object, or at the end. *)
Fixpoint append (l : list Cert) (c : Cert) : list Cert :=
  match l with
  | [] => [c]
  | x :: l => if is_blank x then c :: l else x :: append l c
  end.
Definition AppendDER (crt : t) (der : bytes) : result RaError t :=
  match parse_der der with
  | Some c => Ok (mk (append (certs crt) c) (m_curr crt))
  | None => Throw mbedTLSRuntimeError
  end.

Definition NullCheck (crt : t) : result RaError Cert :=
  match certs crt !! m_curr crt with Some c => Ok c | None => Throw mbedInvalidObject end.
Definition HasNext (crt : t) : result RaError bool :=
  _ ← NullCheck crt;
  Ok (S (m_curr crt) <? length (certs crt))%nat.
Definition NextCert (crt : t) : result RaError t :=
  next ← HasNext crt;
  if (next : bool) then Ok (mk (certs crt) (S (m_curr crt)))
  else Throw (mbedRuntimeException "There is no next certificate in the chain.").
Definition GoToFirstCert (crt : t) : t := mk (certs crt) 0.
Definition GetDer (crt : t) : result RaError bytes := raw <$> NullCheck crt.

(** The certificates that are the CA's are taken out of the chain. *)
Definition ShrinkChain (crt : t) (ca : list Cert) : result RaError t :=
  _ ← NullCheck crt;
  Ok (GoToFirstCert (mk (List.filter (fun c => negb (existsb (fun a => bool_decide (raw c = raw a)) ca)) (certs crt)) 0)).

Definition VerifyChainWithCa (crt : t) (ca : Cert) : result RaError Z :=
  _ ← NullCheck crt;
  let '(ret, flags) := verify_with_profile (certs crt) ca in
  if ret =? 0 then Ok flags else Throw mbedTLSRuntimeError.

(** [BorrowPublicKey().VerifyDerSign]. *)
Definition VerifyDerSign (crt : t) (hash sign : bytes) : result RaError () :=
  c ← NullCheck crt;
  if pk_verify c hash sign then Ok () else Throw mbedTLSRuntimeError.
End x509.
End X509Cert.

(** ** The report set *)

Record IasReportSet := mkReportSet { IasCert : list bytes; Report : bytes; ReportSign : bytes }.

(** From the current certificate to the end of the chain; [fuel] bounds its length. *)
Fixpoint X509Cert2DERList `{X509Ops} (fuel : nat) (derList : list bytes) (cert : X509Cert.t) : result RaError (list bytes) :=
  match fuel with
  | O => Ok derList
  | S fuel =>
    der ← X509Cert.GetDer cert;
    let derList := derList ++ [der] in
    hasNext ← X509Cert.HasNext cert;
    if (hasNext : bool) then cert ← X509Cert.NextCert cert; X509Cert2DERList fuel derList cert
    else Ok derList
  end.

Fixpoint append_all `{X509Ops} (derList : list bytes) (cert : X509Cert.t) : result RaError X509Cert.t :=
  match derList with
  | [] => Ok cert
  | der :: derList => cert ← X509Cert.AppendDER cert der; append_all derList cert
  end.
Definition X509CertFromDERList `{X509Ops} (derList : list bytes) : result RaError X509Cert.t :=
  append_all derList X509Cert.Empty.

(** ** The quote *)

(** The parts of [sgx_quote_t] that are looked at, where [sgx_quote.h] has them. *)
Record sgx_quote_t := mkQuote { q_mr_enclave : bytes; q_report_data : bytes }.
Definition sizeof_sgx_quote : Z := 436.
Definition quote_of (body : bytes) : sgx_quote_t :=
  mkQuote (take 32 (drop 112 body)) (take 64 (drop 368 body)).

(** A hash, and zeros behind it. *)
Definition ReportDataFromHash (hash : bytes) : bytes := hash ++ drop (length hash) (replicate 64 0).

Module EpidQuoteVerifier.
Record t := mk { m_authEnclaves : list bytes; m_addReportData : bytes; m_stdReportData : bytes }.

Definition SetStdReportData (v : t) (data : bytes) : t := mk (m_authEnclaves v) (m_addReportData v) data.
Definition SetAddReportData (v : t) (data : bytes) : t := mk (m_authEnclaves v) data (m_stdReportData v).
Definition SetAuthorizedEnclave (v : t) (idList : list bytes) : t := mk idList (m_addReportData v) (m_stdReportData v).

Definition ParseQuoteFromB64 (b64Str : bytes) : result RaError sgx_quote_t :=
  decoded ← ra_codec (Base64C.Decode true b64Str);
  if negb (zlen decoded =? sizeof_sgx_quote - 4) then Throw (DecentException "Failed to decode the quote body")
  else Ok (quote_of decoded).

Fixpoint VerifyMrEnclave (authEnclaves : list bytes) (mrEnclave : bytes) : result RaError () :=
  match authEnclaves with
  | [] => Throw (DecentException "The enclave being verified is not authorized.")
  | authId :: l => if bool_decide (authId = mrEnclave) then Ok () else VerifyMrEnclave l mrEnclave
  end.

Section verify.
Context `{X509Ops}.

Definition expData (v : t) : bytes :=
  if zlen (m_addReportData v) =? 0 then m_stdReportData v
  else ReportDataFromHash (md_sha256 (m_stdReportData v ++ m_addReportData v)).

Definition VerifyReportData (v : t) (reportData : bytes) : result RaError () :=
  if bool_decide (reportData = expData v) then Ok ()
  else Throw (DecentException "The report data does not match the expected one").

Definition VerifyReportBody (v : t) (mr_enclave report_data : bytes) : result RaError () :=
  _ ← VerifyMrEnclave (m_authEnclaves v) mr_enclave;
  VerifyReportData v report_data.

Definition Verify (v : t) (quote : sgx_quote_t) : result RaError () :=
  VerifyReportBody v (q_mr_enclave quote) (q_report_data quote).
End verify.
End EpidQuoteVerifier.

(** ** The verifier *)

Definition label (s : string) : Hashable := SString (chars s).

Module IasEpidReportVerifier.
Section verifier.
Context `{X509Ops} `{DoubleOps}.

(** [AsString] and [AsDict]. *)
Definition JsonTypeName (v : Json) : string :=
  match v with
  | JHash h => GetCategoryName (SHashable h) | JReal _ => "Real" | JList _ => "List" | JDict _ => "Dict"
  | JStaticDict _ => "StaticDict"
  end.
Definition AsString (v : Json) : result RaError bytes :=
  match v with JHash (SString s) => Ok s | _ => Throw (RaObj (AdvTypeError "String" (JsonTypeName v))) end.
Definition AsDict (v : Json) : result RaError (list (Hashable * Json)) :=
  match v with JDict d => Ok d | _ => Throw (RaObj (AdvTypeError "Dict" (JsonTypeName v))) end.

(** The list is replaced by that of the chain without the CA; it is empty while the
    new one is written. *)
Definition ShrinkCertChain : stx IasReportSet RaError () := fun reportSet =>
  match (certChain ← X509CertFromDERList (IasCert reportSet); X509Cert.ShrinkChain certChain [RootCaCert]) with
  | Throw e => (reportSet, Throw e)
  | Ok certChain =>
    let set l := mkReportSet l (Report reportSet) (ReportSign reportSet) in
    match X509Cert2DERList (length (X509Cert.certs certChain) + 1) [] certChain with
    | Ok l => (set l, Ok ())
    | Throw e => (set [], Throw e)
    end
  end.

Definition VerifyCert (parsedCertChain : X509Cert.t) : result RaError () :=
  vrfyFlags ← X509Cert.VerifyChainWithCa parsedCertChain RootCaCert;
  if negb (vrfyFlags =? 0) then Throw (DecentException "IAS certificate verification failed") else Ok ().

(** The turns of the loop; a chain has no more than [fuel] certificates. *)
Fixpoint VerifySign_loop (fuel : nat) (hash sign : bytes) (parsedCertChain : X509Cert.t) : result RaError () :=
  match fuel with
  | O => Throw (DecentException "IAS report signature verification failed")
  | S fuel =>
    match X509Cert.VerifyDerSign parsedCertChain hash sign with
    | Ok _ => Ok ()
    | Throw mbedTLSRuntimeError =>
      parsedCertChain ← X509Cert.NextCert parsedCertChain;
      next ← X509Cert.HasNext parsedCertChain;
      if (next : bool) then VerifySign_loop fuel hash sign parsedCertChain
      else Throw (DecentException "IAS report signature verification failed")
    | Throw e => Throw e
    end
  end.
Definition VerifySign (reportSet : IasReportSet) (parsedCertChain : X509Cert.t) : result RaError () :=
  let hash := md_sha256 (Report reportSet) in
  VerifySign_loop (length (X509Cert.certs parsedCertChain)) hash (ReportSign reportSet) (X509Cert.GoToFirstCert parsedCertChain).

(** The statuses that are accepted. *)
Definition allowed_status : list bytes :=
  map chars ["OK"; "GROUP_OUT_OF_DATE"; "CONFIGURATION_NEEDED"; "SW_HARDENING_NEEDED"; "CONFIGURATION_AND_SW_HARDENING_NEEDED"].
Definition VerifyEncQuoteStatus (statusStr : bytes) : result RaError () :=
  if bool_decide (statusStr ∈ allowed_status) then Ok () else Throw (DecentException "Enclave quote status is not allowed").

Definition VerifyReport (parsedReport : list (Hashable * Json)) (nonce : option bytes) : result RaError () :=
  _ ← (match nonce with
       | None => Ok ()
       | Some nonce =>
         match FindVal parsedReport (label "nonce") with
         | None => Throw (DecentException "nonce field is missing from IAS report")
         | Some it =>
           s ← AsString it;
           if bool_decide (s = nonce) then Ok () else Throw (DecentException "IAS report nonce does not match")
         end
       end);
  match FindVal parsedReport (label "isvEnclaveQuoteStatus") with
  | None => Throw (DecentException "Enclave quote status field is missing from IAS report")
  | Some it => s ← AsString it; VerifyEncQuoteStatus s
  end.

Definition VerifyEncQuote (parsedReport : list (Hashable * Json)) (quoteVerifier : EpidQuoteVerifier.t) : result RaError () :=
  match FindVal parsedReport (label "isvEnclaveQuoteBody") with
  | None => Throw (DecentException "Enclave quote body field is missing from IAS report")
  | Some it =>
    s ← AsString it;
    quote ← EpidQuoteVerifier.ParseQuoteFromB64 s;
    EpidQuoteVerifier.Verify quoteVerifier quote
  end.

(** The checks that follow on a report set whose chain was shrunk. *)
Definition VerifyReduced (reportSet : IasReportSet) (quoteVerifier : EpidQuoteVerifier.t) (nonce : option bytes) : result RaError () :=
  certChain ← X509CertFromDERList (IasCert reportSet);
  _ ← VerifyCert certChain;
  _ ← VerifySign reportSet certChain;
  report ← ra_json (Parse (Report reportSet));
  reportDict ← AsDict report;
  _ ← VerifyReport reportDict nonce;
  VerifyEncQuote reportDict quoteVerifier.

Definition VerifyAndReduceReportSet (quoteVerifier : EpidQuoteVerifier.t) (nonce : option bytes) : stx IasReportSet RaError () :=
  _ ← ShrinkCertChain;
  (fun reportSet => (reportSet, VerifyReduced reportSet quoteVerifier nonce)) : stx IasReportSet RaError ().
End verifier.
End IasEpidReportVerifier.

(** ** What is accepted *)

Section accepted.
Context `{X509Ops} `{DoubleOps}.
Import IasEpidReportVerifier.

(** The chain without the CA. *)
Definition reduced (l : list Cert) : list Cert := List.filter (fun c => negb (bool_decide (raw c = raw RootCaCert))) l.

(** The signature is good under one of the certificates that are tried: all but the
    last one, and the first. *)
Definition signed_by_chain (chain : list Cert) (hash sign : bytes) : Prop :=
  exists i c, chain !! i = Some c /\ pk_verify c hash sign = true /\ (i = 0%nat \/ (S i < length chain)%nat).

(** The fields of a report that is accepted. *)
Definition fields_ok (d : list (Hashable * Json)) (v : EpidQuoteVerifier.t) (nonce : option bytes) : Prop :=
  (forall n, nonce = Some n -> FindVal d (label "nonce") = Some (JHash (SString n))) /\
  (exists st, FindVal d (label "isvEnclaveQuoteStatus") = Some (JHash (SString st)) /\ st ∈ allowed_status) /\
  exists b64 body, FindVal d (label "isvEnclaveQuoteBody") = Some (JHash (SString b64)) /\
    Base64C.Decode true b64 = Ok body /\ zlen body = 432 /\
    q_mr_enclave (quote_of body) ∈ EpidQuoteVerifier.m_authEnclaves v /\
    q_report_data (quote_of body) = EpidQuoteVerifier.expData v.

Definition report_accepted (rs : IasReportSet) (chain : list Cert) (v : EpidQuoteVerifier.t) (nonce : option bytes) : Prop :=
  verify_with_profile chain RootCaCert = (0, 0) /\
  signed_by_chain chain (md_sha256 (Report rs)) (ReportSign rs) /\
  exists d, Parse (Report rs) = Ok (JDict d) /\ fields_ok d v nonce.
End accepted.

Section accepted_theory.
Context `{X509Laws} `{DoubleOps}.
Import IasEpidReportVerifier.
#[local] Set Default Proof Using "Type*".

Definition parses (ders : list bytes) (l : list Cert) : Prop := Forall2 (fun der c => parse_der der = Some c) ders l.

Lemma append_nonblank l c : Forall (fun x => is_blank x = false) l -> X509Cert.append l c = l ++ [c].
Proof. induction 1 as [|x l Hx _ IH]; [done|]. cbn [X509Cert.append]. by rewrite Hx, IH. Qed.

Lemma parses_nonblank ders l : parses ders l -> Forall (fun x => is_blank x = false) l.
Proof. induction 1 as [|der c ders l Hp _ IH]; constructor; [by apply parse_der_raw in Hp as [_ ?]|done]. Qed.

Lemma append_all_ok ders t t' : Forall (fun x => is_blank x = false) (X509Cert.certs t) ->
  append_all ders t = Ok t' <-> exists l, parses ders l /\ t' = X509Cert.mk (X509Cert.certs t ++ l) (X509Cert.m_curr t).
Proof.
  revert t. induction ders as [|der ders IH]; intros t Ht; cbn [append_all].
  - split.
    + intros [= <-]. exists []. rewrite app_nil_r. split; [constructor|by destruct t].
    + intros (l & Hl & ->). inversion Hl. rewrite app_nil_r. by destruct t.
  - unfold X509Cert.AppendDER. destruct (parse_der der) as [c|] eqn:Ec; cbn [mbind result_bind].
    + assert (is_blank c = false) as Hb by (by apply parse_der_raw in Ec as [_ ?]).
      rewrite append_nonblank by done. rewrite IH by (cbn; apply Forall_app; by repeat constructor).
      cbn [X509Cert.certs X509Cert.m_curr]. split.
      * intros (l & Hl & ->). exists (c :: l). rewrite <-app_assoc. by split; [constructor|].
      * intros (l & Hl & ->). inversion Hl as [|? c' ? l' Hc Hl']; subst. rewrite Ec in Hc. injection Hc as <-. exists l'. by rewrite <-app_assoc.
    + split; [done|]. intros (l & Hl & _). inversion Hl. congruence.
Qed.

(** A list of texts that is not empty gives the chain of its certificates. *)
Lemma FromDERList_ok ders t : ders <> [] ->
  X509CertFromDERList ders = Ok t <-> exists l, parses ders l /\ t = X509Cert.mk l 0.
Proof.
  intros Hne. destruct ders as [|der ders]; [done|]. unfold X509CertFromDERList. cbn [append_all].
  unfold X509Cert.AppendDER, X509Cert.Empty. cbn [X509Cert.certs X509Cert.append X509Cert.m_curr]. rewrite blank_blank.
  destruct (parse_der der) as [c|] eqn:Ec; cbn [mbind result_bind].
  - rewrite append_all_ok by (constructor; [by apply parse_der_raw in Ec as [_ ?]|done]). cbn [X509Cert.certs X509Cert.m_curr app]. split.
    + intros (l & Hl & ->). exists (c :: l). by split; [constructor|].
    + intros (l & Hl & ->). inversion Hl as [|? c' ? l' Hc Hl']; subst. rewrite Ec in Hc. injection Hc as <-. by exists l'.
  - split; [done|]. intros (l & Hl & _). inversion Hl. congruence.
Qed.

Lemma parses_raw ders l : parses ders l -> map raw l = ders.
Proof. induction 1 as [|der c ders l Hp _ IH]; [done|]. cbn. apply parse_der_raw in Hp as [-> _]. by rewrite IH. Qed.

Lemma parses_filter ders l f : parses ders l -> parses (map raw (List.filter f l)) (List.filter f l).
Proof.
  induction 1 as [|der c ders l Hp _ IH]; [constructor|]. cbn. destruct (f c); [|done]. cbn. constructor; [|done].
  by rewrite (proj1 (parse_der_raw _ _ Hp)).
Qed.

(** The texts of the chain from a position on. *)
Lemma DERList_ok chain fuel i l : (i < length chain)%nat -> (length chain <= i + fuel)%nat ->
  X509Cert2DERList fuel l (X509Cert.mk chain i) = Ok (l ++ map raw (drop i chain)).
Proof.
  revert i l. induction fuel as [|fuel IH]; intros i l Hi Hf; [lia|]. cbn [X509Cert2DERList].
  destruct (lookup_lt_is_Some_2 chain i Hi) as [c Hc].
  unfold X509Cert.GetDer, X509Cert.NextCert, X509Cert.HasNext, X509Cert.NullCheck. cbn [X509Cert.certs X509Cert.m_curr].
  rewrite Hc. cbn [mbind result_bind fmap result_fmap]. rewrite (drop_S _ _ _ Hc). cbn [map].
  destruct (Nat.ltb_spec (S i) (length chain)) as [Hn|Hn]; cbn [mbind result_bind].
  - rewrite IH by lia. by rewrite <-app_assoc.
  - by rewrite drop_ge by lia.
Qed.

Lemma reduced_filter l : List.filter (fun c => negb (existsb (fun a => bool_decide (raw c = raw a)) [RootCaCert])) l = reduced l.
Proof. apply List.filter_ext. intros c. cbn [existsb]. by rewrite orb_false_r. Qed.

Lemma ShrinkCertChain_ok rs rs' : IasCert rs <> [] ->
  ShrinkCertChain rs = (rs', Ok ()) <->
  exists l, parses (IasCert rs) l /\ reduced l <> [] /\ rs' = mkReportSet (map raw (reduced l)) (Report rs) (ReportSign rs).
Proof.
  intros Hne. unfold ShrinkCertChain. destruct (X509CertFromDERList (IasCert rs)) as [t|e] eqn:Et; cbn [mbind result_bind].
  - apply FromDERList_ok in Et as (l & Hl & ->); [|done].
    assert (exists c, l !! 0%nat = Some c) as [c Hc] by (destruct Hl; [done|cbn; eauto]).
    unfold X509Cert.ShrinkChain, X509Cert.NullCheck. cbn [X509Cert.certs X509Cert.m_curr]. rewrite Hc. cbn [mbind result_bind].
    rewrite reduced_filter. unfold X509Cert.GoToFirstCert. cbn [X509Cert.certs].
    assert (forall l', parses (IasCert rs) l' -> l' = l) as Huniq.
    { clear -Hl. intros l' Hl'. revert l' Hl'. induction Hl as [|der x ders l Hx _ IH]; intros l' Hl'; inversion Hl'; subst; [done|].
      f_equal; [congruence|by apply IH]. }
    destruct (reduced l) as [|x r] eqn:Er.
    + cbn [length Nat.add X509Cert2DERList]. split; [done|]. intros (l' & Hl' & Hn & _). rewrite (Huniq l' Hl') in Hn. congruence.
    + rewrite DERList_ok by (cbn; lia). cbn [app drop]. rewrite <-Er. split.
      * intros [= <-]. exists l. split_and!; [done|congruence|done].
      * intros (l' & Hl' & _ & ->). by rewrite (Huniq l' Hl').
  - split; [done|]. intros (l & Hl & _). enough (X509CertFromDERList (IasCert rs) = Ok (X509Cert.mk l 0)) by congruence.
    apply FromDERList_ok; eauto.
Qed.

(** Without a certificate nothing is accepted. *)
Lemma ShrinkCertChain_nil rs : IasCert rs = [] ->
  match ShrinkCertChain rs with (rs', Ok _) => X509CertFromDERList (IasCert rs') = Throw mbedTLSRuntimeError | _ => True end.
Proof.
  intros E. unfold ShrinkCertChain. rewrite E. cbn [X509CertFromDERList append_all mbind result_bind].
  unfold X509Cert.Empty, X509Cert.ShrinkChain, X509Cert.NullCheck. cbn [X509Cert.certs X509Cert.m_curr lookup list_lookup mbind result_bind].
  rewrite reduced_filter. unfold reduced, X509Cert.GoToFirstCert. cbn [List.filter X509Cert.certs].
  destruct (negb _); cbn; [|done]. unfold X509Cert.AppendDER. by rewrite parse_blank.
Qed.

(** *** The checks of the reduced set *)

Lemma VerifySign_loop_ok chain hash sign fuel p : (p < length chain)%nat -> (length chain <= p + fuel)%nat ->
  VerifySign_loop fuel hash sign (X509Cert.mk chain p) = Ok () <->
  exists i c, chain !! i = Some c /\ pk_verify c hash sign = true /\ (i = p \/ (p < i)%nat /\ (S i < length chain)%nat).
Proof.
  revert p. induction fuel as [|fuel IH]; intros p Hp Hf; [lia|]. cbn [VerifySign_loop].
  destruct (lookup_lt_is_Some_2 chain p Hp) as [c Hc].
  unfold X509Cert.VerifyDerSign, X509Cert.NextCert, X509Cert.HasNext, X509Cert.NullCheck. cbn [X509Cert.certs X509Cert.m_curr].
  rewrite Hc. cbn [mbind result_bind]. destruct (pk_verify c hash sign) eqn:Ev.
  { split; [intros _; exists p, c; auto|done]. }
  assert (forall i c', chain !! i = Some c' -> pk_verify c' hash sign = true -> i <> p) as Hnp by (intros i c' Hi Hv ->; congruence).
  destruct (Nat.ltb_spec (S p) (length chain)) as [Hn|Hn]; cbn [mbind result_bind].
  - destruct (lookup_lt_is_Some_2 chain (S p) Hn) as [c2 Hc2]. unfold X509Cert.NullCheck. cbn [X509Cert.certs X509Cert.m_curr].
    rewrite Hc2. cbn [mbind result_bind]. destruct (Nat.ltb_spec (S (S p)) (length chain)) as [Hn2|Hn2].
    + rewrite IH by lia. split; intros (i & c' & Hi & Hv & Hl); exists i, c'; split_and!; try done.
      * right. destruct Hl as [-> | ?]; lia.
      * destruct Hl as [-> | Hl]; [by destruct (Hnp p c')|]. destruct (decide (i = S p)); [auto|right; lia].
    + split; [done|]. intros (i & c' & Hi & Hv & [-> | Hl]); [by destruct (Hnp p c')|lia].
  - split; [done|]. intros (i & c' & Hi & Hv & [-> | Hl]); [by destruct (Hnp p c')|lia].
Qed.

Lemma VerifySign_ok rs chain : chain <> [] ->
  VerifySign rs (X509Cert.mk chain 0) = Ok () <-> signed_by_chain chain (md_sha256 (Report rs)) (ReportSign rs).
Proof.
  intros Hne. unfold VerifySign, X509Cert.GoToFirstCert. cbn [X509Cert.certs].
  rewrite VerifySign_loop_ok by (destruct chain; [done|cbn; lia]). unfold signed_by_chain.
  split; intros (i & c & Hi & Hv & Hl); exists i, c; split_and!; try done; [naive_solver lia|].
  destruct (decide (i = 0%nat)); [auto|right; naive_solver lia].
Qed.

Lemma VerifyCert_ok chain : chain <> [] ->
  VerifyCert (X509Cert.mk chain 0) = Ok () <-> verify_with_profile chain RootCaCert = (0, 0).
Proof.
  intros Hne. unfold VerifyCert, X509Cert.VerifyChainWithCa, X509Cert.NullCheck. cbn [X509Cert.certs X509Cert.m_curr].
  destruct chain as [|c l]; [done|]. cbn [lookup list_lookup mbind result_bind].
  destruct (verify_with_profile (c :: l) RootCaCert) as [ret flags]. destruct (Z.eqb_spec ret 0) as [->|]; cbn [mbind result_bind].
  - destruct (Z.eqb_spec flags 0) as [->|]; cbn [negb]; [done|]. split; [done|congruence].
  - split; [done|congruence].
Qed.

Lemma AsString_ok v s : AsString v = Ok s <-> v = JHash (SString s).
Proof. destruct v as [[]| | | |]; cbn; split; congruence. Qed.

Lemma VerifyReport_ok d nonce : VerifyReport d nonce = Ok () <->
  (forall n, nonce = Some n -> FindVal d (label "nonce") = Some (JHash (SString n))) /\
  exists st, FindVal d (label "isvEnclaveQuoteStatus") = Some (JHash (SString st)) /\ st ∈ allowed_status.
Proof.
  unfold VerifyReport. rewrite result_bind_ok.
  assert (match FindVal d (label "isvEnclaveQuoteStatus") with
    | None => Throw (DecentException "Enclave quote status field is missing from IAS report")
    | Some it => s ← AsString it; VerifyEncQuoteStatus s end = Ok () <->
    exists st, FindVal d (label "isvEnclaveQuoteStatus") = Some (JHash (SString st)) /\ st ∈ allowed_status) as Hst.
  { destruct (FindVal d (label "isvEnclaveQuoteStatus")) as [it|]; [|naive_solver]. rewrite result_bind_ok.
    setoid_rewrite AsString_ok. unfold VerifyEncQuoteStatus. split.
    - intros (s & -> & Hs). exists s. split; [done|]. by case_bool_decide.
    - intros (s & [= ->] & Hs). exists s. split; [done|]. by rewrite bool_decide_true. }
  split.
  - intros ([] & Hn & Hs%Hst). split; [|done]. intros n ->. destruct (FindVal d (label "nonce")) as [it|]; [|done].
    apply result_bind_ok in Hn as (s & ->%AsString_ok & Hs'). case_bool_decide; [by subst|done].
  - intros [Hn Hs%Hst]. exists (). split; [|exact Hs]. destruct nonce as [n|]; [|done]. rewrite (Hn n eq_refl).
    cbn [AsString mbind result_bind]. by rewrite bool_decide_true.
Qed.

Lemma VerifyMrEnclave_ok l m : EpidQuoteVerifier.VerifyMrEnclave l m = Ok () <-> m ∈ l.
Proof.
  induction l as [|x l IH]; cbn [EpidQuoteVerifier.VerifyMrEnclave]; [split; [done|by intros ?%not_elem_of_nil]|].
  rewrite elem_of_cons. case_bool_decide as Hx; [split; auto|]. rewrite IH. naive_solver.
Qed.

Lemma VerifyEncQuote_ok d v : VerifyEncQuote d v = Ok () <->
  exists b64 body, FindVal d (label "isvEnclaveQuoteBody") = Some (JHash (SString b64)) /\
    Base64C.Decode true b64 = Ok body /\ zlen body = 432 /\
    q_mr_enclave (quote_of body) ∈ EpidQuoteVerifier.m_authEnclaves v /\
    q_report_data (quote_of body) = EpidQuoteVerifier.expData v.
Proof.
  unfold VerifyEncQuote. destruct (FindVal d (label "isvEnclaveQuoteBody")) as [it|]; [|naive_solver].
  unfold EpidQuoteVerifier.ParseQuoteFromB64, EpidQuoteVerifier.Verify, EpidQuoteVerifier.VerifyReportBody, EpidQuoteVerifier.VerifyReportData.
  split.
  - intros (s & ->%AsString_ok & Hq)%result_bind_ok. apply result_bind_ok in Hq as (q & Hq & Hv).
    apply result_bind_ok in Hq as (body & Hd & Hq). destruct (Base64C.Decode true s) as [b|] eqn:Eb; [|done]. injection Hd as ->.
    destruct (Z.eqb_spec (zlen body) (sizeof_sgx_quote - 4)) as [Hl|]; [|done]. cbn [negb] in Hq. injection Hq as <-.
    apply result_bind_ok in Hv as ([] & Hm%VerifyMrEnclave_ok & Hr). exists s, body. split_and!; try done. by case_bool_decide.
  - intros (b64 & body & [= ->] & Hd & Hl & Hm & Hr). cbn [AsString mbind result_bind]. rewrite Hd. cbn [ra_codec mbind result_bind].
    rewrite Hl. change (432 =? sizeof_sgx_quote - 4) with true. cbn [negb mbind result_bind].
    rewrite (proj2 (VerifyMrEnclave_ok _ _) Hm). cbn [mbind result_bind]. by rewrite bool_decide_true.
Qed.

Lemma VerifyReduced_ok rs v nonce chain : chain <> [] -> parses (IasCert rs) chain ->
  VerifyReduced rs v nonce = Ok () <-> report_accepted rs chain v nonce.
Proof.
  intros Hne Hp. unfold VerifyReduced, report_accepted, fields_ok.
  assert (X509CertFromDERList (IasCert rs) = Ok (X509Cert.mk chain 0)) as ->.
  { apply FromDERList_ok; [by destruct Hp|eauto]. }
  cbn [mbind result_bind]. rewrite result_bind_ok. split.
  - intros ([] & Hc%VerifyCert_ok & Hrest); [|done]. apply result_bind_ok in Hrest as ([] & Hs%VerifySign_ok & Hrest); [|done].
    apply result_bind_ok in Hrest as (report & Hr & Hrest). destruct (Parse (Report rs)) as [j|] eqn:Ej; [|done]. injection Hr as ->.
    apply result_bind_ok in Hrest as (d & Hd & Hrest). destruct report as [| | |d'|]; try done. injection Hd as ->.
    apply result_bind_ok in Hrest as ([] & [Hn Hst]%VerifyReport_ok & Hq%VerifyEncQuote_ok). split_and!; [done|done|]. exists d. done.
  - intros (Hc & Hs & d & Ej & Hn & Hst & Hq). exists (). split; [by apply VerifyCert_ok|].
    apply result_bind_ok. exists (). split; [by apply VerifySign_ok|]. rewrite Ej. cbn [ra_json mbind result_bind AsDict].
    rewrite (proj2 (VerifyReport_ok d nonce)) by done. cbn [mbind result_bind]. by apply VerifyEncQuote_ok.
Qed.

(** What is left after the checks is what was checked. *)
Lemma VerifyAndReduce_accepted rs rs' v nonce : VerifyAndReduceReportSet v nonce rs = (rs', Ok ()) ->
  exists chain, parses (IasCert rs') chain /\ report_accepted rs' chain v nonce.
Proof.
  intros Hv. stx_ok Hv. injection Hv as <- Hr. destruct a, (decide (IasCert rs = [])) as [Hnil|Hne].
  - pose proof (ShrinkCertChain_nil rs Hnil) as Hn. rewrite E in Hn. unfold VerifyReduced in Hr. by rewrite Hn in Hr.
  - apply ShrinkCertChain_ok in E as (l & Hl & Hn & ->); [|done]. exists (reduced l).
    assert (parses (map raw (reduced l)) (reduced l)) as Hp by (by apply (parses_filter (IasCert rs))).
    split; [done|]. by apply (VerifyReduced_ok _ _ _ (reduced l)) in Hr.
Qed.

(** C24. The verifier accepts a report set exactly if its texts are certificates of which
    some are not the CA's; mbedtls verifies the chain of these; the signature of the
    report is good under the first of them, or another but the last; and the report
    is a JSON object with the nonce that was asked for, a status of the list, and a
    quote whose enclave is authorised and whose report data is the expected one.
    The set it leaves has the chain without the CA. *)
Theorem ias_report_exact rs rs' v nonce :
  VerifyAndReduceReportSet v nonce rs = (rs', Ok ()) <->
  exists certs, parses (IasCert rs) certs /\ reduced certs <> [] /\
    rs' = mkReportSet (map raw (reduced certs)) (Report rs) (ReportSign rs) /\
    report_accepted rs (reduced certs) v nonce.
Proof.
  unfold VerifyAndReduceReportSet. rewrite stx_bind_ok.
  assert (forall l, report_accepted (mkReportSet l (Report rs) (ReportSign rs)) = report_accepted rs) as Hsame by done.
  destruct (decide (IasCert rs = [])) as [Hnil|Hne].
  - split.
    + intros ([] & s1 & E1 & E2). pose proof (ShrinkCertChain_nil rs Hnil) as Hn. rewrite E1 in Hn.
      unfold VerifyReduced in E2. injection E2 as -> E2. by rewrite Hn in E2.
    + intros (certs & Hp & Hr & _). rewrite Hnil in Hp. inversion Hp; subst. done.
  - split.
    + intros ([] & s1 & E1 & E2). apply ShrinkCertChain_ok in E1 as (l & Hl & Hr & ->); [|done]. injection E2 as <- E2.
      exists l. split_and!; [done|done|done|]. apply (VerifyReduced_ok _ _ _ (reduced l)) in E2; [done|done|].
      cbn. by apply (parses_filter (IasCert rs)).
    + intros (l & Hl & Hr & -> & Ha). exists (), (mkReportSet (map raw (reduced l)) (Report rs) (ReportSign rs)).
      split; [by apply ShrinkCertChain_ok; [|exists l]|]. f_equal. apply (VerifyReduced_ok _ _ _ (reduced l)); [done| |done].
      cbn. by apply (parses_filter (IasCert rs)).
Qed.

(** A chain that mbedtls does not verify, and a bad signature under the only
    certificate, end in an exception of mbedTLScpp, not in one of DecentEnclave. *)
Lemma escaping_errors :
  (forall chain, chain <> [] -> (verify_with_profile chain RootCaCert).2 <> 0 ->
    VerifyCert (X509Cert.mk chain 0) = Throw mbedTLSRuntimeError) /\
  (forall c rs, pk_verify c (md_sha256 (Report rs)) (ReportSign rs) = false ->
    VerifySign rs (X509Cert.mk [c] 0) = Throw (mbedRuntimeException "There is no next certificate in the chain.")) /\
  is_Exception mbedTLSRuntimeError = false /\ forall what, is_Exception (mbedRuntimeException what) = false.
Proof.
  split_and!; [| |done|done].
  - intros chain Hne Hf. unfold VerifyCert, X509Cert.VerifyChainWithCa, X509Cert.NullCheck. cbn [X509Cert.certs X509Cert.m_curr].
    destruct chain as [|c l]; [done|]. cbn [lookup list_lookup mbind result_bind].
    pose proof (verify_flags (c :: l) RootCaCert) as Hv. destruct (verify_with_profile (c :: l) RootCaCert) as [ret flags]. cbn [fst snd] in *.
    destruct (Z.eqb_spec ret 0); [tauto|done].
  - intros c rs Hv. unfold VerifySign. cbn [X509Cert.certs length VerifySign_loop].
    unfold X509Cert.VerifyDerSign, X509Cert.NullCheck, X509Cert.GoToFirstCert. cbn [X509Cert.certs X509Cert.m_curr lookup list_lookup mbind result_bind].
    by rewrite Hv.
Qed.
End accepted_theory.

(** ** A certificate service to compute with *)

(** A certificate is its text; the first byte of it is that of the text of the one
    that signed it, and the last certificates of a chain are not looked at when the
    first is signed by the CA.  A signature is the text and the hash. *)
Definition toy_x509 : X509Ops := {|
  Cert := bytes; raw := fun c => c; blank := []; is_blank := fun c => bool_decide (c = []);
  parse_der := fun d => match d with [] => None | _ => Some d end;
  verify_with_profile := fun chain ca =>
    match chain, ca with (b :: _) :: _, b' :: _ => if b =? b' then (0, 0) else (-9984, 8) | _, _ => (-9984, 8) end;
  pk_verify := fun c h s => bool_decide (s = c ++ h);
  md_sha256 := fun m => take 32 (m ++ replicate 32 0);
  RootCaCert := [1] |}.

#[export] Instance toy_x509_laws : @X509Laws toy_x509.
Proof.
  split.
  - intros chain ca. cbn. repeat case_match; cbn; done.
  - intros der c. cbn. destruct der; [done|]. by intros [= <-].
  - done.
  - done.
  - intros m. cbn -[replicate app take length]. rewrite length_take, length_app. cbn [length replicate]. lia.
Qed.

Definition toy_double : DoubleOps := {| Double := bytes; atof := fun s => s; dtoa := fun d => d |}.

Section toy_reports.
#[local] Existing Instances toy_x509 toy_double.

Definition toy_body (mr_enclave report_data : bytes) : bytes :=
  replicate 112 0 ++ mr_enclave ++ replicate 224 0 ++ report_data.
Definition toy_report_text (nonce : string) (body : bytes) : bytes :=
  chars "{'nonce':'" ++ chars nonce ++ chars "','isvEnclaveQuoteStatus':'OK','isvEnclaveQuoteBody':'" ++
  Base64C.Encode true body ++ chars "'}".
(** With the quotation marks of JSON. *)
Definition dquote (s : bytes) : bytes := map (fun c => if c =? 39 then 34 else c) s.

Definition toy_verifier : EpidQuoteVerifier.t := EpidQuoteVerifier.mk [replicate 32 5] [] (replicate 64 6).
Definition toy_text : bytes := dquote (toy_report_text "n1" (toy_body (replicate 32 5) (replicate 64 6))).
Definition toy_sign (c : bytes) : bytes := c ++ take 32 toy_text.
(** The service's certificate, and the CA's behind it. *)
Definition toy_set : IasReportSet := mkReportSet [[1; 7]; [1]] toy_text (toy_sign [1; 7]).

Lemma ias_report_exact_witness :
  (exists rs', IasEpidReportVerifier.VerifyAndReduceReportSet toy_verifier (Some (chars "n1")) toy_set = (rs', Ok ())) /\
  exists certs, parses (IasCert toy_set) certs /\ reduced certs = [[1; 7]] /\
    report_accepted toy_set (reduced certs) toy_verifier (Some (chars "n1")).
Proof.
  assert (IasEpidReportVerifier.VerifyAndReduceReportSet toy_verifier (Some (chars "n1")) toy_set =
    (mkReportSet [[1; 7]] toy_text (toy_sign [1; 7]), Ok ())) as E by (vm_compute; reflexivity).
  split; [eauto|]. destruct (proj1 (ias_report_exact toy_set _ toy_verifier (Some (chars "n1"))) E) as (certs & H1 & H2 & H3 & H4).
  exists certs. split; [exact H1|]. split; [|exact H4].
  assert (IasCert (mkReportSet [[1; 7]] toy_text (toy_sign [1; 7])) = map raw (reduced certs)) as Er by (rewrite H3; reflexivity).
  cbn [IasCert] in Er. rewrite map_id in Er. symmetry. exact Er.
Defined.

(** mbedtls verifies a path from the first certificate.  A set with the service's
    certificate, a certificate of anyone, and one more behind it, is accepted with a
    signature of the second: whoever hands the set over can write the report. *)
Lemma unverified_signer :
  let rs := mkReportSet [[1; 7]; [9; 9]; [9; 8]] toy_text (toy_sign [9; 9]) in
  (IasEpidReportVerifier.VerifyAndReduceReportSet toy_verifier (Some (chars "n1")) rs).2 = Ok () /\
  (verify_with_profile [[9; 9] : Cert] RootCaCert).2 = 8 /\
  pk_verify ([1; 7] : Cert) (md_sha256 (Report rs)) (ReportSign rs) = false.
Proof. split_and!; vm_compute; reflexivity. Qed.
End toy_reports.
