(* ===== verification/EpidRa.v ===== *)
(** * Remote attestation with EPID

    The two sides of the handshake: the service provider
    ([DE/Common/Sgx/EpidRaSvcProv.hpp]) and the enclave
    ([DE/Trusted/Sgx/EpidRaClient.hpp]), with the messages of
    [DE/Common/Sgx/EpidRaMessages.hpp] and the key derivation of
    [DE/Common/Sgx/Crypto.hpp].  The enclave's keys are in the table of
    [TKeyExchange], the report is checked by [IasReport].  A method changes its object
    and can throw; what it changed before it threw stays changed. *)

From stdpp Require Import gmap strings.
From S2P Require Import Prelude RlpEncoding RlpDecoding AdvRlp Codec Json TKeyExchange IasReport.

(** ** mbedtls, on the side of the provider

    The public key and the shared secret of a private key as the bytes
    [ImportEcKey] writes, the signature in the two numbers of [SignInBigNum], with
    the random bytes it takes, and the MAC.  [None] is an [mbedTLSRuntimeError]. *)
Class MbedOps := {
  ec_public : bytes -> bytes;
  DeriveSharedKey : bytes -> bytes -> option bytes;
  SignInBigNum : bytes -> bytes -> bytes -> option bytes;
  Cmacer : bytes -> bytes -> bytes }.

Definition mbed {A} (o : option A) : result RaError A := match o with Some a => Ok a | None => Throw mbedTLSRuntimeError end.

(** [Ckdf] with keys of 128 bits. *)
Definition Ckdf `{MbedOps} (inKey : bytes) (lbl : string) : bytes :=
  let cmacKey := replicate 16 0 in
  let deriveKey := Cmacer cmacKey inKey in
  Cmacer deriveKey ([1] ++ chars lbl ++ [0] ++ le16 128).

(** ** Messages *)

Record sgx_ra_msg1_t := mkMsg1 { m1_g_a : bytes; m1_gid : bytes }.

Definition le32 (n : Z) : bytes := rev (be_bytes 4 n).

(** Message 2 and message 3 in memory; the structures are packed. *)
Definition msg2_bytes (m : sgx_ra_msg2_t) (sigRL : bytes) : bytes :=
  maced m ++ m2_mac m ++ le32 (u32 (zlen sigRL)) ++ sigRL.
Definition slice (b : bytes) (pos n : nat) : bytes := take n (drop pos b).
Definition msg2_of (b : bytes) : sgx_ra_msg2_t :=
  mkMsg2 (slice b 0 64) (slice b 64 16) (be_val (rev (slice b 80 2))) (be_val (rev (slice b 82 2))) (slice b 84 64) (slice b 148 16).
Definition sizeof_msg2 : Z := 168.

Record sgx_ra_msg3_t := mkMsg3 { m3_mac : bytes; m3_g_a : bytes; m3_ps_sec_prop : bytes }.
Definition msg3_of (b : bytes) : sgx_ra_msg3_t := mkMsg3 (slice b 0 16) (slice b 16 64) (slice b 80 256).
Definition msg3_bytes (mac g_a ps_sec_prop quote : bytes) : bytes := mac ++ g_a ++ ps_sec_prop ++ quote.

(** ** The report set as bytes *)

(** [WriterGeneric::Write] of the static dictionary. *)
Definition report_set_obj (rs : IasReportSet) : Obj :=
  OStaticDict [OList (map OBytes (IasCert rs)); OBytes (Report rs); OBytes (ReportSign rs)].

Module IasReportSetParser.

(** [ListParserT<BytesParser, FailingParserBytes, ListT<Bytes>>]: the loop takes a
    byte in every turn. *)
Fixpoint cert_items (fuel : nat) (ism : ISM.t) (size : Z) (obj : list bytes) : result RlpError (list bytes * ISM.t) :=
  match fuel with
  | O => Throw OutOfFuel
  | S fuel =>
    if size <=? 0 then Ok (obj, ism)
    else
      '(nextByte, ism) ← ISM.GetByteAndAdv ism;
      let size := size - 1 in
      '(nextType, nextVal) ← DecodeRlpLeadingByte 8 true nextByte (ISM.GetBytesCount ism);
      match nextType with
      | Byte | BytesShort | BytesLong =>
        '(b, ism, size) ← BytesParser.Parse ism nextType nextVal size;
        cert_items fuel ism size (obj ++ [b])
      | ListShort | ListLong => Throw (RlpEncoding.ParseError "RLP list is not allowed in current context" (ISM.GetBytesCount ism))
      end
  end.
Definition CertListParser (fuel : nat) (ism : ISM.t) (rlpType : RlpEncodeType) (rlpVal byteLeft : Z)
  : result RlpError (list bytes * ISM.t * Z) :=
  '(size, ism, byteLeft) ← ParserBase.ProcRlpListHeader ism rlpType rlpVal byteLeft;
  byteLeft ← ParserBase.CheckByteLeft byteLeft size (ISM.GetBytesCount ism);
  '(obj, ism) ← cert_items fuel ism size [];
  Ok (obj, ism, byteLeft).

(** [StaticDictParserImpl::ProcDictItems] for the three parsers of the set; neither
    missing nor extra items are allowed. *)
Fixpoint ProcDictItems (fuel : nat) (ism : ISM.t) (size : Z) (numOfParsed : nat) (resTp : IasReportSet)
  : result RlpError (IasReportSet * ISM.t) :=
  match fuel with
  | O => Throw OutOfFuel
  | S fuel =>
    if size <=? 0 then
      if (numOfParsed <? 3)%nat then
        Throw (RlpEncoding.ParseError "The static dict parser is expecting more items to parse" (ISM.GetBytesCount ism))
      else Ok (resTp, ism)
    else
      '(nextByte, ism) ← ISM.GetByteAndAdv ism;
      let size := size - 1 in
      '(nextType, nextVal) ← DecodeRlpLeadingByte 8 true nextByte (ISM.GetBytesCount ism);
      match numOfParsed with
      | 0%nat =>
        '(l, ism, size) ← CertListParser fuel ism nextType nextVal size;
        ProcDictItems fuel ism size (S numOfParsed) (mkReportSet l (Report resTp) (ReportSign resTp))
      | 1%nat =>
        '(b, ism, size) ← BytesParser.Parse ism nextType nextVal size;
        ProcDictItems fuel ism size (S numOfParsed) (mkReportSet (IasCert resTp) b (ReportSign resTp))
      | 2%nat =>
        '(b, ism, size) ← BytesParser.Parse ism nextType nextVal size;
        ProcDictItems fuel ism size (S numOfParsed) (mkReportSet (IasCert resTp) (Report resTp) b)
      | _ => Throw (RlpEncoding.ParseError "The static dict parser encounters more items than expected" (ISM.GetBytesCount ism))
      end
  end.

Definition ParseTyped (fuel : nat) (ism : ISM.t) (rlpType : RlpEncodeType) (rlpVal byteLeft : Z)
  : result RlpError (IasReportSet * ISM.t * Z) :=
  '(size, ism, byteLeft) ← ParserBase.ProcRlpListHeader ism rlpType rlpVal byteLeft;
  byteLeft ← ParserBase.CheckByteLeft byteLeft size (ISM.GetBytesCount ism);
  '(res, ism) ← ProcDictItems fuel ism size 0 (mkReportSet [] [] []);
  Ok (res, ism, byteLeft).

Definition Parse (ctn : bytes) : result RlpError IasReportSet :=
  ParserBase.Parse (ParseTyped (S (length ctn))) ctn true.
End IasReportSetParser.

Definition ra_rlp {A} (r : result RlpError A) : result RaError A := match r with Ok a => Ok a | Throw e => Throw (RaObj (RlpErr e)) end.

(** ** The service provider *)

Module EpidRaSvcProvCore.

Inductive HSState := Initial | Msg0rSent | Msg2Sent | HandshakeDone | HandshakeRefused.

#[export] Instance HSState_eq_dec : EqDecision HSState.
Proof. solve_decision. Defined.

Record t := mk {
  m_mySignKey : bytes; m_myEncKey : bytes; m_peerEncKey : bytes;
  m_smk : bytes; m_mk : bytes; m_sk : bytes; m_vk : bytes;
  m_spid : bytes; m_nonce : bytes; m_epidQuoteVrfy : EpidQuoteVerifier.t;
  m_iasReportSet : IasReportSet; m_handshakeState : HSState }.

Section server.
Context `{X509Ops} `{DoubleOps} `{MbedOps}.

Definition set_state (st : HSState) (s : t) : t :=
  mk (m_mySignKey s) (m_myEncKey s) (m_peerEncKey s) (m_smk s) (m_mk s) (m_sk s) (m_vk s) (m_spid s) (m_nonce s)
    (m_epidQuoteVrfy s) (m_iasReportSet s) st.
Definition set_keys (peer smk mk sk vk : bytes) (s : t) : t :=
  EpidRaSvcProvCore.mk (m_mySignKey s) (m_myEncKey s) peer smk mk sk vk (m_spid s) (m_nonce s)
    (m_epidQuoteVrfy s) (m_iasReportSet s) (m_handshakeState s).
Definition set_vrfy (v : EpidQuoteVerifier.t) (s : t) : t :=
  mk (m_mySignKey s) (m_myEncKey s) (m_peerEncKey s) (m_smk s) (m_mk s) (m_sk s) (m_vk s) (m_spid s) (m_nonce s)
    v (m_iasReportSet s) (m_handshakeState s).
Definition set_report (rs : IasReportSet) (s : t) : t :=
  mk (m_mySignKey s) (m_myEncKey s) (m_peerEncKey s) (m_smk s) (m_mk s) (m_sk s) (m_vk s) (m_spid s) (m_nonce s)
    (m_epidQuoteVrfy s) rs (m_handshakeState s).

Definition sk_iasNonceLen : nat := 32.

(** [BuildNonce]: half as many random bytes, in hexadecimal. *)
Definition BuildNonce (randBytes : bytes) : bytes := Hex.Encode Hex.UpperAlphabet true randBytes [].

(** The constructor, with the key pair it generates and the random bytes of the
    nonce.  The standard report data of the verifier are what they are. *)
Definition create (mySignKey : option bytes) (spid : bytes) (epidQuoteVrfy : EpidQuoteVerifier.t) (encKey randBytes : bytes)
  : result RaError t :=
  match mySignKey with
  | None => Throw (DecentException "The given key pair is null")
  | Some key =>
    let z := replicate 16 0 in
    Ok (mk key encKey (replicate 64 0) z z z z spid (BuildNonce (take (sk_iasNonceLen / 2) randBytes)) epidQuoteVrfy
      (mkReportSet [] [] []) Initial)
  end.

Definition liftR {A} (r : result RaError A) : stx t RaError A := fun s => (s, r).
Definition modify (f : t -> t) : stx t RaError () := fun s => (f s, Ok ()).
Definition gets {A} (f : t -> A) : stx t RaError A := fun s => (s, Ok (f s)).

Definition ValidateExtGrpId (extGrpId : Z) : bool := extGrpId =? 0.

Definition GetMsg0r (extended_grp_id : Z) : stx t RaError bytes :=
  if negb (ValidateExtGrpId extended_grp_id) then liftR (Throw (DecentException "The given extended group ID is unsupported"))
  else
    sp_pub_key ← gets (fun s => ec_public (m_mySignKey s));
    _ ← modify (set_state Msg0rSent);
    mret sp_pub_key.

(** The keys of the secret that is shared with a peer; its public key is taken over
    first. *)
Definition SetPeerEncrPubKey (inEncPubKey : bytes) : stx t RaError () :=
  _ ← modify (fun s => set_keys inEncPubKey (m_smk s) (m_mk s) (m_sk s) (m_vk s) s);
  myEncKey ← gets m_myEncKey;
  sharedKey ← liftR (mbed (DeriveSharedKey myEncKey inEncPubKey));
  modify (set_keys inEncPubKey (Ckdf sharedKey "SMK") (Ckdf sharedKey "MK") (Ckdf sharedKey "SK") (Ckdf sharedKey "VK")).

Definition GenStdReportData (s : t) (myEncSgxKey : bytes) : bytes :=
  ReportDataFromHash (md_sha256 (m_peerEncKey s ++ myEncSgxKey ++ m_vk s)).

(** [GetSigrl]: what the attestation service answers for a group; [rand]: the random
    bytes of the signature. *)
Definition GetMsg2 (GetSigrl : bytes -> result RaError bytes) (rand : bytes) (msg1 : sgx_ra_msg1_t) : stx t RaError bytes :=
  myEncSgxKey ← gets (fun s => ec_public (m_myEncKey s));
  _ ← SetPeerEncrPubKey (m1_g_a msg1);
  _ ← modify (fun s => set_vrfy (EpidQuoteVerifier.SetStdReportData (m_epidQuoteVrfy s) (GenStdReportData s myEncSgxKey)) s);
  s ← gets id;
  let hashToBeSigned := md_sha256 (myEncSgxKey ++ m_peerEncKey s) in
  sign ← liftR (mbed (SignInBigNum (m_mySignKey s) hashToBeSigned rand));
  let msg2 := mkMsg2 myEncSgxKey (m_spid s) 1 1 sign in
  let cmacRes := Cmacer (m_smk s) (maced (msg2 [])) in
  sigrlB64 ← liftR (GetSigrl (m1_gid msg1));
  sigRL ← liftR (ra_codec (Base64C.Decode true sigrlB64));
  _ ← modify (set_state Msg2Sent);
  mret (msg2_bytes (msg2 cmacRes) sigRL).

(** The request to the service; the dictionary is in the order of its insertions. *)
Definition BuildIasReportReqBody (msg3 : bytes) (nonce : bytes) : result RaError bytes :=
  let ps := m3_ps_sec_prop (msg3_of msg3) in
  let quote := drop (Z.to_nat sizeof_msg3) msg3 in
  let str s : Json := JHash (SString s) in
  let pse := if bool_decide (ps = replicate 256 0) then []
             else [(label "pseManifest", str (Base64C.Encode true ps))] in
  ra_json (DumpStr DefaultConfig
    (JDict ([(label "isvEnclaveQuote", str (Base64C.Encode true quote)); (label "nonce", str nonce)] ++ pse))).

Definition GenMsg4 (s : t) (vrfyRes : bool) : result RaError bytes :=
  setBytes ← ra_rlp (WriterGeneric.Write (report_set_obj (m_iasReportSet s)));
  msg4BodyBytes ← ra_obj (GenericWriter.Write (SDict
    [(label "VerifyResult", SHashable (SBool vrfyRes)); (label "ReportSet", SHashable (SBytes setBytes))]));
  let cmacRes := Cmacer (m_sk s) msg4BodyBytes in
  ra_obj (GenericWriter.Write (SDict
    [(label "MsgBody", SHashable (SBytes msg4BodyBytes)); (label "MAC", SHashable (SBytes cmacRes))])).

(** The verification, in which an exception of DecentEnclave is a refusal. *)
Definition VerifyReportSet : stx t RaError bool := fun s =>
  let '(rs, r) := IasEpidReportVerifier.VerifyAndReduceReportSet (m_epidQuoteVrfy s) (Some (m_nonce s)) (m_iasReportSet s) in
  (set_report rs s,
   match r with
   | Ok _ => Ok true
   | Throw e => if is_Exception e then Ok false else Throw e
   end).

Definition GetMsg4 (GetReport : bytes -> result RaError IasReportSet) (msg3 : bytes) : stx t RaError bytes :=
  if zlen msg3 <? sizeof_msg3 then liftR (Throw (DecentException "msg3 is too short"))
  else
    nonce ← gets m_nonce;
    iasReqBody ← liftR (BuildIasReportReqBody msg3 nonce);
    rs ← liftR (GetReport iasReqBody);
    _ ← modify (set_report rs);
    vrfySucc ← VerifyReportSet;
    s ← gets id;
    msg4 ← liftR (GenMsg4 s vrfySucc);
    _ ← modify (set_state (if (vrfySucc : bool) then HandshakeDone else HandshakeRefused));
    mret msg4.

Definition IsHandshakeDone (s : t) : bool := bool_decide (m_handshakeState s = HandshakeDone).
End server.
End EpidRaSvcProvCore.

(** ** The enclave *)

(** [IsTrue] of an object. *)
Definition IsTrue (o : Object) : bool :=
  match o with
  | SHashable SNull => false | SHashable (SBool b) => b | SHashable (SInteger _ v) => negb (v =? 0)
  | SHashable (SBytes b) | SHashable (SString b) => match b with [] => false | _ => true end
  | SList l => match l with [] => false | _ => true end
  | SDict d => match d with [] => false | _ => true end
  | SStaticDict l => match l with [] => false | _ => true end
  end.

Module EpidRaClientCore.

Inductive HSState := Initial | Msg0sSent | RaCtxInit | Msg1Sent | Msg3Sent | HandshakeDone | HandshakeRefused.

#[export] Instance HSState_eq_dec : EqDecision HSState.
Proof. solve_decision. Defined.

Record t := mk {
  m_raCtx : Z; m_addReportData : bytes; m_peerSignKey : bytes; m_mk : bytes; m_sk : bytes;
  m_iasReportSet : IasReportSet; m_handshakeState : HSState }.

Definition create (addReportData : bytes) : t :=
  mk 0 addReportData (replicate 64 0) (replicate 16 0) (replicate 16 0) (mkReportSet [] [] []) Initial.

Section client.
Context `{X509Ops} `{SgxSdk} `{MbedOps} {V : Type} `{SimpleVector V}.

(** The object and the enclave's table of key exchanges. *)
Definition St : Type := t * RaDb V.
Definition M (A : Type) : Type := stx St RaError A.

Definition set_state (st : HSState) (c : t) : t :=
  mk (m_raCtx c) (m_addReportData c) (m_peerSignKey c) (m_mk c) (m_sk c) (m_iasReportSet c) st.

(** The closure given to the table has the object's address; the data does not change
    while the object is where it was. *)
Definition CalcReportData (addReportData : bytes) : SgxReportDataGenerator := fun stdData finalData =>
  if zlen addReportData =? 0 then (true, stdData)
  else
    let hash := md_sha256 (stdData ++ addReportData) in
    (true, hash ++ drop (length hash) finalData).

Definition liftC {A} (r : result RaError A) : M A := fun s => (s, r).
Definition modifyC (f : t -> t) : M () := fun s => ((f s.1, s.2), Ok ()).
Definition getsC {A} (f : t -> A) : M A := fun s => (s, Ok (f s.1)).
Definition sgx_fail {A} (what : string) : M A := liftC (Throw (SgxRuntimeError what)).

(** A call of [TKeyExchange] by the enclave itself. *)
Definition enclave_call (sdk : Sdk) (c : ra_call) : M ra_ret := fun s =>
  match run_call sdk c s.2 with
  | (db, Returned r) => ((s.1, db), Ok r)
  | (db, _) => ((s.1, db), Throw (RaObj (UndefinedBehaviour "freed memory")))
  end.

(** An ocall: the host does what it likes to the table by the calls it can make, and
    answers, or fails. *)
Definition ocall {A} (what : string) (host : RaDb V -> RaDb V * option A) : M A := fun s =>
  let '(db, r) := host s.2 in
  ((s.1, db), match r with Some a => Ok a | None => Throw (SgxRuntimeError what) end).

Definition GetMsg0s (host : RaDb V -> RaDb V * option Z) : M Z :=
  grp ← ocall "ocall_decent_attest_get_extended_epid_grp_id" host;
  _ ← modifyC (set_state Msg0sSent);
  mret grp.

(** [Authenticate] is the check of the provider's key; [p_key] and [p_ctx] are the
    addresses of the members. *)
Definition GetMsg1 (Authenticate : bytes -> bool) (sdk : Sdk) (p_key p_ctx : Z)
    (host : Z -> RaDb V -> RaDb V * option sgx_ra_msg1_t) (sp_pub_key : bytes) : M sgx_ra_msg1_t :=
  if negb (Authenticate sp_pub_key) then
    liftC (Throw (DecentException "Failed to authenticate service provider's signing key"))
  else
    _ ← modifyC (fun c => mk (m_raCtx c) (m_addReportData c) sp_pub_key (m_mk c) (m_sk c) (m_iasReportSet c) (m_handshakeState c));
    add ← getsC m_addReportData;
    r ← enclave_call sdk (decent_ra_init p_key sp_pub_key (CalcReportData add) p_ctx);
    match r with
    | ContextWritten ctx =>
      _ ← modifyC (fun c => mk ctx (m_addReportData c) (m_peerSignKey c) (m_mk c) (m_sk c) (m_iasReportSet c) RaCtxInit);
      res ← ocall "ocall_decent_attest_get_msg1" (host ctx);
      _ ← modifyC (set_state Msg1Sent);
      mret res
    | _ => sgx_fail "decent_ra_init"
    end.

Definition GetKey (sdk : Sdk) (type : sgx_ra_key_type_t) (p_key : Z) : M bytes :=
  ctx ← getsC m_raCtx;
  r ← enclave_call sdk (decent_ra_get_keys ctx type p_key);
  match r with KeyWritten _ key => mret key | _ => sgx_fail "decent_ra_get_keys" end.
Definition GetKeys (sdk : Sdk) (p_sk p_mk : Z) : M () :=
  k ← GetKey sdk SGX_RA_KEY_SK p_sk;
  _ ← modifyC (fun c => mk (m_raCtx c) (m_addReportData c) (m_peerSignKey c) (m_mk c) k (m_iasReportSet c) (m_handshakeState c));
  k ← GetKey sdk SGX_RA_KEY_MK p_mk;
  modifyC (fun c => mk (m_raCtx c) (m_addReportData c) (m_peerSignKey c) k (m_sk c) (m_iasReportSet c) (m_handshakeState c)).

Definition GetMsg3 (sdk : Sdk) (p_sk p_mk : Z) (host : Z -> bytes -> RaDb V -> RaDb V * option bytes) (msg2 : bytes) : M bytes :=
  if zlen msg2 <? sizeof_msg2 then liftC (Throw (DecentException "msg2 is too short"))
  else
    ctx ← getsC m_raCtx;
    res ← ocall "ocall_decent_attest_get_msg3" (host ctx msg2);
    _ ← GetKeys sdk p_sk p_mk;
    _ ← modifyC (set_state Msg3Sent);
    mret res.

Definition ProcMsg4 (msg4 : bytes) : M () :=
  msg4Obj ← liftC (ra_obj (AdvRlp.Parse msg4));
  msg4Dict ← liftC (ra_obj (AdvRlp.AsDict msg4Obj));
  body ← liftC (ra_obj (Dict.at_ msg4Dict (label "MsgBody") ≫= AdvRlp.AsBytes));
  mac ← liftC (ra_obj (Dict.at_ msg4Dict (label "MAC") ≫= AdvRlp.AsBytes));
  key ← getsC m_sk;
  if negb (bool_decide (mac = Cmacer key body)) then liftC (Throw (DecentException "Message 4 MAC verification failed"))
  else
    msg4BodyObj ← liftC (ra_obj (AdvRlp.Parse body));
    msg4BodyDict ← liftC (ra_obj (AdvRlp.AsDict msg4BodyObj));
    reportSetBytes ← liftC (ra_obj (Dict.at_ msg4BodyDict (label "ReportSet") ≫= AdvRlp.AsBytes));
    vrfyRes ← liftC (ra_obj (IsTrue <$> Dict.at_ msg4BodyDict (label "VerifyResult")));
    rs ← liftC (ra_rlp (IasReportSetParser.Parse reportSetBytes));
    modifyC (fun c => mk (m_raCtx c) (m_addReportData c) (m_peerSignKey c) (m_mk c) (m_sk c) rs
      (if (vrfyRes : bool) then HandshakeDone else HandshakeRefused)).

(** The destructor closes the exchange if one was opened. *)
Definition ctx_open (st : HSState) : bool := match st with Initial | Msg0sSent => false | _ => true end.
Definition destroy (sdk : Sdk) : M () := fun s =>
  if ctx_open (m_handshakeState s.1) then ((s.1, (run_call sdk (decent_ra_close (m_raCtx s.1)) s.2).1), Ok ())
  else (s, Ok ()).
End client.
End EpidRaClientCore.
