(* ===== verification/EpidRaTheorems.v ===== *)
(** * The EPID handshake: theorems

    The messages are read back as they were written; what a service provider that
    has completed the handshake knows of its peer; that the two sides then have the
    same keys; and what the enclave accepts as message 4. *)

From stdpp Require Import gmap strings.
From S2P Require Import Prelude RlpEncoding RlpDecoding RlpTheorems EthHeader AdvRlp AdvRlpTheorems Codec Json TKeyExchange IasReport EpidRa.

(** ** Messages *)

(** *** The report set *)

Definition set_bytes_ok (rs : IasReportSet) : Prop :=
  Forall all_bytes (IasCert rs) /\ all_bytes (Report rs) /\ all_bytes (ReportSign rs).

(** One item of either loop: the byte that is taken, and the parser on the rest. *)
Lemma next_bytes b c rest size : all_bytes b -> fits 64 (zlen (EncodeRlpBytes.SerializeBytes b)) ->
  zlen (EncodeRlpBytes.SerializeBytes b) <= size ->
  exists b0 tl t v, EncodeRlpBytes.SerializeBytes b = b0 :: tl /\ (t = Byte \/ t = BytesShort \/ t = BytesLong) /\
    (forall pos, DecodeRlpLeadingByte 8 true b0 pos = Ok (t, v)) /\
    BytesParser.Parse (ISM.at_ (u64 (c + 1)) (tl ++ rest)) t v (size - 1) =
      Ok (b, ISM.at_ (adv_count c (length (b0 :: tl))) rest, size - zlen (b0 :: tl)).
Proof.
  intros Hb Hf Hs. assert (fits 64 (zlen b)) as Hn by (apply (serialize_fits b 0); [by rewrite Z.add_0_r|lia]).
  destruct (bytes_item b Hb Hn) as (b0 & tl & t & v & E & _ & _ & Ht & Hd & Hh). exists b0, tl, t, v.
  split_and!; [done|done|done|]. rewrite E in Hs. cbn [length] in Hs. rewrite Hh by lia. rewrite adv_count_S. cbn [length].
  do 2 f_equal. lia.
Qed.

Lemma cert_items_payload l : Forall all_bytes l -> forall fuel c rest acc,
  fits 64 (zlen (payload l)) -> (length (payload l) < fuel)%nat ->
  IasReportSetParser.cert_items fuel (ISM.at_ c (payload l ++ rest)) (zlen (payload l)) acc =
    Ok (acc ++ l, ISM.at_ (adv_count c (length (payload l))) rest).
Proof.
  induction 1 as [|b l Hb _ IH]; intros fuel c rest acc Hf Hl.
  { destruct fuel; [cbn in Hl; lia|]. cbn. by rewrite app_nil_r. }
  rewrite payload_cons in *. rewrite length_app, Nat2Z.inj_add in *. destruct fuel as [|fuel]; [lia|].
  destruct (next_bytes b c (payload l ++ rest) (zlen (EncodeRlpBytes.SerializeBytes b) + zlen (payload l)) Hb
    ltac:(word_lia) ltac:(lia)) as (b0 & tl & t & v & E & Ht & Hd & Hp).
  rewrite E in *. cbn [length] in *. cbn [IasReportSetParser.cert_items]. rewrite (proj2 (Z.leb_gt _ _)) by lia.
  rewrite <-app_assoc, <-app_comm_cons, ISM.adv_cons. cbn -[IasReportSetParser.cert_items Z.sub Z.of_nat Z.add]. rewrite Hd.
  cbn -[IasReportSetParser.cert_items Z.sub Z.of_nat Z.add].
  assert (forall n, Z.of_nat (S n) + zlen (payload l) - Z.of_nat (S n) = zlen (payload l)) as Hz by lia.
  destruct Ht as [->|[->| ->]]; rewrite Hp; cbn -[IasReportSetParser.cert_items Z.sub Z.of_nat Z.add adv_count]; rewrite Hz, IH by (word_lia || lia);
    by rewrite <-app_assoc, adv_count_add.
Qed.

(** A serialised list, and what of it is behind its first byte. *)
Lemma list_lead p : fits 64 (zlen (EncodeRlpList.SerializeBytes p)) ->
  exists b0 tl t v, EncodeRlpList.SerializeBytes p = b0 :: tl ++ p /\
    (forall pos, DecodeRlpLeadingByte 8 true b0 pos = Ok (t, v)) /\
    forall c rest size, zlen (b0 :: tl ++ p) <= size ->
      ParserBase.ProcRlpListHeader (ISM.at_ (u64 (c + 1)) (tl ++ p ++ rest)) t v (size - 1) =
        Ok (zlen p, ISM.at_ (adv_count c (length (b0 :: tl))) (p ++ rest), size - zlen (b0 :: tl)).
Proof.
  intros Hf. destruct (list_bytes_fits _ Hf) as [Hp _]. destruct (list_header _ Hp) as (b0 & tl & t & v & E & _ & _ & _ & Hd & Hh).
  exists b0, tl, t, v. unfold EncodeRlpList.SerializeBytes. rewrite E. split_and!; [done|done|].
  intros c rest size Hs. cbn [length] in *. rewrite length_app, Nat2Z.inj_succ, Nat2Z.inj_add in Hs. rewrite Hh by lia.
  rewrite adv_count_S. do 2 f_equal. lia.
Qed.

Lemma cert_list_read l c rest size fuel : Forall all_bytes l ->
  let bs := EncodeRlpList.SerializeBytes (payload l) in
  fits 64 (zlen bs) -> zlen bs <= size -> (length bs <= fuel)%nat ->
  exists b0 tl t v, bs = b0 :: tl /\ (forall pos, DecodeRlpLeadingByte 8 true b0 pos = Ok (t, v)) /\
    IasReportSetParser.CertListParser fuel (ISM.at_ (u64 (c + 1)) (tl ++ rest)) t v (size - 1) =
      Ok (l, ISM.at_ (adv_count c (length bs)) rest, size - zlen bs).
Proof.
  intros Hl bs Hf Hs Hfuel. destruct (list_bytes_fits _ Hf) as [Hp Hlt].
  destruct (list_lead _ Hf) as (b0 & tl & t & v & E & Hd & Hh). unfold bs in *. rewrite E in *.
  exists b0, (tl ++ payload l), t, v. split_and!; [done|done|]. unfold IasReportSetParser.CertListParser.
  rewrite <-app_assoc, Hh by done. cbn [mbind result_bind]. unfold ParserBase.CheckByteLeft.
  cbn [length] in *. rewrite length_app in *. rewrite (proj2 (Z.ltb_ge _ _)) by lia. cbn [mbind result_bind].
  rewrite cert_items_payload by (done || lia). cbn [mbind result_bind]. rewrite adv_count_add. cbn [app]. do 2 f_equal. lia.
Qed.

Definition report_set_payload (rs : IasReportSet) : bytes :=
  EncodeRlpList.SerializeBytes (payload (IasCert rs)) ++ payload [Report rs; ReportSign rs].

Lemma write_report_set rs : set_bytes_ok rs ->
  WriterGeneric.Write (report_set_obj rs) = Ok (EncodeRlpList.SerializeBytes (report_set_payload rs)).
Proof.
  intros (Hl & Hr & Hs). unfold report_set_obj. cbn [WriterGeneric.Write WriterList_concat]. unfold WriterStaticDict_Write, WriterList_Write.
  cbn [WriterStaticDict_concat WriterGeneric.Write length Z.of_nat Pos.of_succ_nat Pos.succ Z.leb Z.compare Z.sub Z.add Z.opp Z.pos_sub Pos.compare Pos.compare_cont Pos.pred_double Z.pred_double].
  unfold WriterList_Write. rewrite write_bytes_list by done. cbn [mbind result_bind].
  unfold WriterBytes.Write. rewrite !map_u8_id by done. cbn [mbind result_bind fmap result_fmap].
  unfold EncodeRlpList.SerializeBytes, report_set_payload, payload. cbn [map mjoin list_join]. rewrite ?app_nil_r. done.
Qed.

(** The two byte strings behind the list. *)
Lemma report_set_items rs c fuel : set_bytes_ok rs -> fits 64 (zlen (report_set_payload rs)) ->
  (length (report_set_payload rs) + 1 < fuel)%nat ->
  exists ism, IasReportSetParser.ProcDictItems fuel (ISM.at_ c (report_set_payload rs)) (zlen (report_set_payload rs)) 0
    (mkReportSet [] [] []) = Ok (rs, ism).
Proof.
  intros (Hl & Hr & Hs) Hf Hfuel. unfold report_set_payload in *. set (cl := EncodeRlpList.SerializeBytes (payload (IasCert rs))) in *.
  rewrite !payload_cons in *. change (payload []) with (@nil Z) in *. rewrite app_nil_r in *.
  rewrite !length_app, !Nat2Z.inj_add in *. destruct fuel as [|fuel]; [lia|].
  set (r := EncodeRlpBytes.SerializeBytes (Report rs)) in *. set (s := EncodeRlpBytes.SerializeBytes (ReportSign rs)) in *.
  destruct (cert_list_read (IasCert rs) c (r ++ s) (zlen cl + (zlen r + zlen s)) fuel Hl ltac:(fold cl; word_lia)
    ltac:(fold cl; lia) ltac:(fold cl; lia)) as (b0 & tl & t & v & E & Hd & Hp). fold cl in E, Hp.
  assert (1 <= length cl)%nat as Hcl by (rewrite E; cbn [length]; lia).
  clearbody cl. replace (cl ++ r ++ s) with (b0 :: tl ++ r ++ s) by (rewrite E; done). cbn [IasReportSetParser.ProcDictItems]. rewrite (proj2 (Z.leb_gt _ _)) by lia.
  rewrite ISM.adv_cons. cbn -[IasReportSetParser.ProcDictItems IasReportSetParser.CertListParser Z.sub Z.of_nat Z.add]. rewrite Hd.
  cbn -[IasReportSetParser.ProcDictItems IasReportSetParser.CertListParser Z.sub Z.of_nat Z.add]. rewrite Hp.
  cbn -[IasReportSetParser.ProcDictItems Z.sub Z.of_nat Z.add].
  replace (zlen cl + (zlen r + zlen s) - zlen cl) with (zlen r + zlen s) by lia.
  destruct (next_bytes (Report rs) (adv_count c (length cl)) s (zlen r + zlen s) Hr ltac:(fold r; word_lia) ltac:(fold r; lia))
    as (b1 & tl1 & t1 & v1 & E1 & Ht1 & Hd1 & Hp1). fold r in E1. clearbody r. rewrite E1 in *. cbn [length] in *.
  destruct fuel as [|fuel]; [lia|]. cbn [IasReportSetParser.ProcDictItems]. rewrite (proj2 (Z.leb_gt _ _)) by lia.
  rewrite <-app_comm_cons, ISM.adv_cons. cbn -[IasReportSetParser.ProcDictItems Z.sub Z.of_nat Z.add]. rewrite Hd1.
  cbn -[IasReportSetParser.ProcDictItems Z.sub Z.of_nat Z.add]. rewrite Hp1. cbn -[IasReportSetParser.ProcDictItems Z.sub Z.of_nat Z.add adv_count].
  replace (Z.of_nat (S (length tl1)) + zlen s - Z.of_nat (S (length tl1))) with (zlen s) by lia.
  destruct (next_bytes (ReportSign rs) (adv_count (adv_count c (length cl)) (S (length tl1))) [] (zlen s) Hs ltac:(fold s; word_lia) ltac:(fold s; lia))
    as (b2 & tl2 & t2 & v2 & E2 & Ht2 & Hd2 & Hp2). fold s in E2. clearbody s. rewrite E2 in *. cbn [length] in *.
  destruct fuel as [|fuel]; [lia|]. cbn [IasReportSetParser.ProcDictItems]. rewrite (proj2 (Z.leb_gt _ _)) by lia.
  rewrite ISM.adv_cons. cbn -[IasReportSetParser.ProcDictItems Z.sub Z.of_nat Z.add adv_count]. rewrite Hd2.
  cbn -[IasReportSetParser.ProcDictItems Z.sub Z.of_nat Z.add adv_count]. rewrite app_nil_r in Hp2. rewrite Hp2.
  cbn -[IasReportSetParser.ProcDictItems Z.sub Z.of_nat Z.add adv_count]. rewrite Z.sub_diag. destruct fuel as [|fuel]; [lia|].
  destruct rs. eexists. reflexivity.
Qed.

(** The report set is read back as it was written. *)
Lemma report_set_roundtrip rs bs : set_bytes_ok rs -> WriterGeneric.Write (report_set_obj rs) = Ok bs -> fits 64 (zlen bs) ->
  IasReportSetParser.Parse bs = Ok rs.
Proof.
  intros Hok Hw Hf. rewrite write_report_set in Hw by done. injection Hw as <-.
  destruct (list_bytes_fits _ Hf) as [Hp Hlt]. destruct (list_lead _ Hf) as (b0 & tl & t & v & E & Hd & Hh). rewrite E in *.
  cbn [length] in *. unfold IasReportSetParser.Parse, ParserBase.Parse, ParserBase.ParseRange. rewrite ISM.init_at.
  cbn -[IasReportSetParser.ParseTyped Z.sub Z.of_nat ParserBase.ParseAt]. unfold ParserBase.ParseAt, ParserBase.CheckByteLeft at 1.
  rewrite (proj2 (Z.ltb_ge _ _)) by lia. cbn -[IasReportSetParser.ParseTyped Z.sub Z.of_nat ISM.GetByteAndAdv].
  rewrite ISM.adv_cons. cbn -[IasReportSetParser.ParseTyped Z.sub Z.of_nat]. rewrite Hd.
  cbn -[IasReportSetParser.ParseTyped Z.sub Z.of_nat]. unfold IasReportSetParser.ParseTyped.
  specialize (Hh 0 [] (Z.of_nat (S (length (tl ++ report_set_payload rs)))) ltac:(lia)). rewrite app_nil_r in Hh.
  rewrite Hh. rewrite length_app in *.
  cbn -[IasReportSetParser.ProcDictItems Z.sub Z.of_nat adv_count]. unfold ParserBase.CheckByteLeft.
  rewrite (proj2 (Z.ltb_ge _ _)) by lia. cbn -[IasReportSetParser.ProcDictItems Z.sub Z.of_nat adv_count].
  destruct (report_set_items rs (adv_count 0 (S (length tl))) (S (S (length tl + length (report_set_payload rs)))) Hok Hp ltac:(lia))
    as [ism Hi]. try rewrite app_nil_r. rewrite Hi. cbn -[Z.sub Z.of_nat]. by rewrite (proj2 (Z.eqb_eq _ _)) by lia.
Qed.

(** *** Message 2 *)

Lemma slice_skip a b pos n : (length a <= pos)%nat -> slice (a ++ b) pos n = slice b (pos - length a) n.
Proof. intros H. unfold slice. by rewrite skipn_app, (drop_ge a), app_nil_l by lia. Qed.

Lemma slice_here a b n : length a = n -> slice (a ++ b) 0 n = a.
Proof. intros <-. unfold slice. rewrite drop_0, take_app_le by lia. by rewrite firstn_all. Qed.

Lemma le16_read n : 0 <= n < 2 ^ 16 -> be_val (rev (le16 n)) = n.
Proof. intros H. unfold le16. rewrite rev_involutive, be_val_be_bytes. apply Z.mod_small. cbn. lia. Qed.

Lemma length_le16 n : length (le16 n) = 2%nat.
Proof. unfold le16. by rewrite length_rev, length_be_bytes. Qed.

(** The fields have the sizes of the structure. *)
Definition msg2_sized (m : sgx_ra_msg2_t) : Prop :=
  length (m2_g_b m) = 64%nat /\ length (m2_spid m) = 16%nat /\ 0 <= m2_quote_type m < 2 ^ 16 /\
  0 <= m2_kdf_id m < 2 ^ 16 /\ length (m2_sign_gb_ga m) = 64%nat /\ length (m2_mac m) = 16%nat.

(** The enclave sees the message 2 that was sent. *)
Lemma msg2_roundtrip m sigRL : msg2_sized m -> msg2_of (msg2_bytes m sigRL) = m /\ sizeof_msg2 <= zlen (msg2_bytes m sigRL).
Proof.
  intros (H1 & H2 & H3 & H4 & H5 & H6). destruct m as [g spid ty kdf sg mac]. cbn [m2_g_b m2_spid m2_quote_type m2_kdf_id m2_sign_gb_ga m2_mac] in *.
  pose proof (length_le16 ty) as L3. pose proof (length_le16 kdf) as L4. unfold msg2_bytes, maced, msg2_of.
  cbn [m2_g_b m2_spid m2_quote_type m2_kdf_id m2_sign_gb_ga m2_mac]. rewrite <-!app_assoc. split.
  - f_equal; repeat (rewrite slice_skip by lia); rewrite ?H1, ?H2, ?L3, ?L4, ?H5; cbn [Nat.sub]; rewrite slice_here by done;
      auto using le16_read.
  - unfold sizeof_msg2, le32. rewrite !length_app, length_rev, length_be_bytes. lia.
Qed.

(** ** The provider *)

Section provider.
Context {X : X509Ops} {XL : X509Laws} {D : DoubleOps} {B : MbedOps}.
Import EpidRaSvcProvCore.
#[local] Set Default Proof Using "Type*".

(** A call of the provider: what the attestation service answers and the random
    bytes of the signature are arguments. *)
Inductive sp_call :=
| CallMsg0r (extended_grp_id : Z)
| CallMsg2 (GetSigrl : bytes -> result RaError bytes) (rand : bytes) (msg1 : sgx_ra_msg1_t)
| CallMsg4 (GetReport : bytes -> result RaError IasReportSet) (msg3 : bytes).

Definition sp_run (c : sp_call) : stx t RaError bytes :=
  match c with
  | CallMsg0r grp => GetMsg0r grp
  | CallMsg2 GetSigrl rand msg1 => GetMsg2 GetSigrl rand msg1
  | CallMsg4 GetReport msg3 => GetMsg4 GetReport msg3
  end.

(** The calls of a run, each with the state it left and its result; a call that throws
    leaves what it had changed. *)
Definition event : Type := sp_call * t * result RaError bytes.

Inductive sp_trace (s0 : t) : list event -> t -> Prop :=
| trace_start : sp_trace s0 [] s0
| trace_call l s c s' r : sp_trace s0 l s -> sp_run c s = (s', r) -> sp_trace s0 (l ++ [(c, s', r)]) s'.

(** The keys of the peers that messages 1 have named. *)
Definition peers (l : list event) : list bytes :=
  omap (fun e => match e.1.1 with CallMsg2 _ _ msg1 => Some (m1_g_a msg1) | _ => None end) l.

(** A message 2 has thrown, and no call has returned since. *)
Definition cut_off (l : list event) : bool :=
  foldl (fun b e => if is_ok e.2 then false else match e.1.1 with CallMsg2 _ _ _ => true | _ => b end) false l.

(** The keys are those of the secret shared with a peer's key, and the report data
    that is expected names both keys and the verification key. *)
Definition keyed (peer : bytes) (s : t) : Prop :=
  (exists shared, DeriveSharedKey (m_myEncKey s) peer = Some shared /\
    m_smk s = Ckdf shared "SMK" /\ m_mk s = Ckdf shared "MK" /\ m_sk s = Ckdf shared "SK" /\ m_vk s = Ckdf shared "VK") /\
  EpidQuoteVerifier.m_stdReportData (m_epidQuoteVrfy s) =
    ReportDataFromHash (md_sha256 (peer ++ ec_public (m_myEncKey s) ++ m_vk s)).

(** One of the calls returned a message 4 that says yes, for a report set that is good
    for the verifier of [s] and its nonce. *)
Definition attested (l : list event) (s : t) : Prop :=
  exists GetReport msg3 s4 msg4 chain, (CallMsg4 GetReport msg3, s4, Ok msg4) ∈ l /\ GenMsg4 s4 true = Ok msg4 /\
    parses (IasCert (m_iasReportSet s4)) chain /\
    report_accepted (m_iasReportSet s4) chain (m_epidQuoteVrfy s) (Some (m_nonce s)).

(** Message 2 after message 1. *)
Lemma GetMsg2_ok GetSigrl rand msg1 s s' msg2 : GetMsg2 GetSigrl rand msg1 s = (s', Ok msg2) ->
  keyed (m1_g_a msg1) s' /\ m_handshakeState s' = Msg2Sent /\ m_peerEncKey s' = m1_g_a msg1 /\ m_myEncKey s' = m_myEncKey s /\
  exists sign sigRL, SignInBigNum (m_mySignKey s) (md_sha256 (ec_public (m_myEncKey s) ++ m1_g_a msg1)) rand = Some sign /\
    let m := mkMsg2 (ec_public (m_myEncKey s)) (m_spid s) 1 1 sign in
    msg2 = msg2_bytes (m (Cmacer (m_smk s') (maced (m [])))) sigRL.
Proof.
  unfold GetMsg2, SetPeerEncrPubKey, gets, modify, liftR, mbed. intros H.
  stx_ok H. injection E as <- <-. stx_ok H. stx_ok E. injection E0 as <-. stx_ok E. injection E0 as <- <-.
  stx_ok E. injection E0 as <- Hs. injection E as <-. stx_ok H. injection E as <-. stx_ok H. injection E as <- <-.
  stx_ok H. injection E as <- Hsign. stx_ok H. injection E as <- _. stx_ok H. injection E as <- _. stx_ok H. injection E as <-.
  injection H as <- <-.
  cbn in Hs. destruct (DeriveSharedKey _ _) as [sh|] eqn:Esh; [|done]. injection Hs as <-.
  cbn in Hsign. destruct (SignInBigNum _ _ _) as [sg|] eqn:Esg; [|done]. injection Hsign as <-.
  split_and!; [split; [exists sh|]|..]; cbn; try done. exists sg. eexists. done.
Qed.

(** What the keys and their attestation depend on. *)
Definition same_session (s s' : t) : Prop :=
  m_myEncKey s' = m_myEncKey s /\ m_smk s' = m_smk s /\ m_mk s' = m_mk s /\
  m_sk s' = m_sk s /\ m_vk s' = m_vk s /\ m_nonce s' = m_nonce s /\ m_epidQuoteVrfy s' = m_epidQuoteVrfy s.

Lemma same_keyed peer s s' : same_session s s' -> keyed peer s -> keyed peer s'.
Proof. unfold same_session, keyed. intros (-> & -> & -> & -> & -> & _ & ->). done. Qed.

Lemma same_attested l s s' : same_session s s' -> attested l s -> attested l s'.
Proof. unfold same_session, attested. intros (_ & _ & _ & _ & _ & -> & ->). done. Qed.

Lemma attested_more l e s : attested l s -> attested (l ++ [e]) s.
Proof. intros (G & msg3 & s4 & msg4 & chain & Hin & H). exists G, msg3, s4, msg4, chain. split; [set_solver|done]. Qed.

(** A message 2 that throws leaves the state of the handshake, and either the session
    as it was or the keys of the new peer. *)
Lemma GetMsg2_thrown GetSigrl rand msg1 s s' e : GetMsg2 GetSigrl rand msg1 s = (s', Throw e) ->
  same_session s s' \/ keyed (m1_g_a msg1) s'.
Proof.
  unfold GetMsg2, SetPeerEncrPubKey, gets, modify, liftR, mbed, mbind, stx_bind. cbn.
  destruct (DeriveSharedKey _ _) as [sh|] eqn:Esh; cbn; [|intros [= <- _]; by left].
  destruct (SignInBigNum _ _ _) as [sg|]; cbn; [destruct (GetSigrl (m1_gid msg1)) as [b64|]; cbn; [destruct (Base64C.Decode true b64); cbn; [done|]|]|];
    intros [= <- _]; right; (split; [by exists sh|done]).
Qed.

(** Message 4 says that the report was accepted only if it was; a call that throws
    leaves the state where it was, with the set that it did not accept. *)
Lemma GetMsg4_spec GetReport msg3 s s' r : GetMsg4 GetReport msg3 s = (s', r) -> same_session s s' /\
  match r with
  | Throw _ => m_handshakeState s' = m_handshakeState s
  | Ok msg4 => exists accepted, GenMsg4 s' accepted = Ok msg4 /\
      m_handshakeState s' = (if (accepted : bool) then HandshakeDone else HandshakeRefused) /\
      (accepted = true -> exists chain, parses (IasCert (m_iasReportSet s')) chain /\
        report_accepted (m_iasReportSet s') chain (m_epidQuoteVrfy s') (Some (m_nonce s')))
  end.
Proof.
  unfold GetMsg4. destruct (zlen msg3 <? sizeof_msg3); [by intros [= <- <-]|].
  unfold gets, liftR, modify, VerifyReportSet, mbind, stx_bind, mret, stx_ret. cbn.
  destruct (BuildIasReportReqBody msg3 (m_nonce s)) as [body|e]; [|by intros [= <- <-]].
  destruct (GetReport body) as [rs|e]; [|by intros [= <- <-]]. cbn.
  destruct (IasEpidReportVerifier.VerifyAndReduceReportSet _ _ rs) as [rs' [[]|e]] eqn:Ev.
  - apply VerifyAndReduce_accepted in Ev as (chain & Hp & Ha). destruct (GenMsg4 _ true) as [msg4|e] eqn:Eg.
    + intros [= <- <-]. split; [done|]. exists true. split_and!; [exact Eg|done|]. intros _. by exists chain.
    + by intros [= <- <-].
  - destruct (is_Exception e); [|by intros [= <- <-]]. destruct (GenMsg4 _ false) as [msg4|e'] eqn:Eg.
    + intros [= <- <-]. split; [done|]. exists false. done.
    + by intros [= <- <-].
Qed.

(** What holds after message 2, along any calls. *)
Definition sp_ok (ps : list bytes) (l : list event) (s : t) : Prop :=
  (exists peer, peer ∈ ps ++ peers l /\ keyed peer s) /\
  (cut_off l = false -> m_handshakeState s = HandshakeDone -> attested l s).

Lemma peers_snoc l e : peers (l ++ [e]) = peers l ++ peers [e].
Proof. apply omap_app. Qed.

Lemma cut_off_snoc l c s r : cut_off (l ++ [(c, s, r)]) = if is_ok r then false else match c with CallMsg2 _ _ _ => true | _ => cut_off l end.
Proof. unfold cut_off. by rewrite foldl_app. Qed.

Lemma sp_ok_same ps l s c s' r : sp_ok ps l s -> same_session s s' ->
  (cut_off (l ++ [(c, s', r)]) = false -> m_handshakeState s' = HandshakeDone -> cut_off l = false /\ m_handshakeState s = HandshakeDone \/ attested (l ++ [(c, s', r)]) s') ->
  sp_ok ps (l ++ [(c, s', r)]) s'.
Proof.
  intros [(peer & Hp & Hk) Ha] Hsame Hd. split.
  - exists peer. rewrite peers_snoc. split; [set_solver|by eapply same_keyed].
  - intros H1 H2. destruct (Hd H1 H2) as [[H3 H4]|]; [|done]. by eapply attested_more, same_attested, Ha.
Qed.

Lemma sp_call_ok ps l s c s' r : sp_ok ps l s -> sp_run c s = (s', r) -> sp_ok ps (l ++ [(c, s', r)]) s'.
Proof.
  intros Hok Hr. destruct c as [grp|GetSigrl rand msg1|GetReport msg3]; cbn in Hr.
  - assert (same_session s s' /\ (m_handshakeState s' = Msg0rSent \/ s' = s /\ is_ok r = false)) as [Hs Hst].
    { unfold GetMsg0r in Hr. destruct (ValidateExtGrpId grp); cbn in Hr; injection Hr as <- <-; (split; [done|]); [by left|by right]. }
    apply (sp_ok_same _ _ s); [done|done|]. rewrite cut_off_snoc. intros Hc Hd. destruct Hst as [Hst|[-> Hn]]; [congruence|].
    rewrite Hn in Hc. by left.
  - assert (forall k, keyed (m1_g_a msg1) k -> exists peer, peer ∈ ps ++ peers (l ++ [(CallMsg2 GetSigrl rand msg1, s', r)]) /\ keyed peer k) as Hpeer.
    { intros k Hk. exists (m1_g_a msg1). split; [|done]. rewrite peers_snoc. cbn. set_solver. }
    destruct r as [msg2|e].
    + destruct (GetMsg2_ok _ _ _ _ _ _ Hr) as (Hk & Hs & _). split; [by apply Hpeer|congruence].
    + apply GetMsg2_thrown in Hr as [Hs|Hk].
      * apply (sp_ok_same _ _ s); [done|done|]. by rewrite cut_off_snoc.
      * split; [by apply Hpeer|]. by rewrite cut_off_snoc.
  - apply GetMsg4_spec in Hr as [Hsame Hr]. apply (sp_ok_same _ _ s); [done|done|]. rewrite cut_off_snoc. intros Hc Hd.
    destruct r as [msg4|e]; [|cbn in Hc; rewrite Hr in Hd; by left]. right.
    destruct Hr as ([] & Hg & Hs & Hacc); [|by rewrite Hs in Hd]. destruct (Hacc eq_refl) as (chain & Hp & Hrep).
    exists GetReport, msg3, s', msg4, chain. split; [set_solver|done].
Qed.

(** C22. After a message 2, whatever calls are made, in any order, and whether they return
    or throw: the keys are those of the secret shared with the key of one of the
    peers, and the expected report data name that key, the provider's own, and the
    verification key.  The provider says that the handshake is done only if one of
    the calls returned a message 4 that says yes, for a report set that vouches for
    these keys: the chain of its signer, the nonce of this provider, a status of the
    list, and the quote of an authorised enclave with the expected report data -
    unless a message 2 has thrown and no call has returned since, which leaves the
    state of the handshake with other keys. *)
Theorem provider_attests GetSigrl rand msg1 msg2 s0 s1 l s :
  GetMsg2 GetSigrl rand msg1 s0 = (s1, Ok msg2) -> sp_trace s1 l s ->
  (exists peer, peer ∈ m1_g_a msg1 :: peers l /\ keyed peer s) /\
  (IsHandshakeDone s = true -> cut_off l = false -> attested l s).
Proof.
  intros (Hk & Hs & _)%GetMsg2_ok Hl. assert (sp_ok [m1_g_a msg1] l s) as [Hpeer Ha].
  { induction Hl as [|l s c s' r _ IH Hr]; [|by eapply sp_call_ok]. split; [exists (m1_g_a msg1); split; [set_solver|done]|congruence]. }
  split; [exact Hpeer|]. unfold IsHandshakeDone. rewrite bool_decide_eq_true. auto.
Qed.
End provider.

(** ** Both sides *)

(** The SDK and mbedtls compute the same functions: the hash, the derivation of keys,
    public keys, and the secret that two key pairs share.  A public key has 64
    bytes. *)
Class SameCrypto {X : X509Ops} {B : MbedOps} {S : SgxSdk} := {
  same_hash : forall m, md_sha256 m = sha256 m;
  same_kdf : forall dh_key lbl, derive_key dh_key lbl = Ckdf dh_key lbl;
  same_shared : forall a b, ecc_shared a (ec_public b) = DeriveSharedKey b (ecc_pub a);
  ecc_pub_length : forall a, length (ecc_pub a) = 64%nat;
  ec_public_length : forall b, length (ec_public b) = 64%nat }.

Section agreement.
Context {X : X509Ops} {XL : X509Laws} {B : MbedOps} {S : SgxSdk} {SC : SameCrypto}.
Import EpidRaSvcProvCore EpidRaClientCore.
#[local] Set Default Proof Using "Type*".

(** Two texts that are not the same have the same hash. *)
Definition clash (m m' : bytes) : Prop := m <> m' /\ sha256 m = sha256 m'.

Lemma hash_inj m m' : sha256 m = sha256 m' -> m = m' \/ clash m m'.
Proof. intros Hh. destruct (decide (m = m')); [by left|by right]. Qed.

(** What the report data of the exchange and those the provider expects are hashes of. *)
Definition reported_text (it : ra_db_item_t) : bytes := g_a it ++ g_b it ++ vk_key it.
Definition expected_text (peer : bytes) (p : EpidRaSvcProvCore.t) : bytes := peer ++ ec_public (m_myEncKey p) ++ m_vk p.

Lemma report_hash_inj h h' : length h = 32%nat -> length h' = 32%nat -> ReportDataFromHash h = ReportDataFromHash h' -> h = h'.
Proof. unfold ReportDataFromHash. intros Hh Hh' He. apply app_inj_1 in He as [He _]; [done|]. by rewrite Hh, Hh'. Qed.

(** The report data of an exchange whose generator is the enclave's are the expected
    ones only if the hashed texts are the same. *)
Lemma report_data_inj add std std' data : length std = 64%nat -> length std' = 64%nat ->
  CalcReportData add std (replicate 64 0) = (true, data) ->
  data = (if zlen add =? 0 then std' else ReportDataFromHash (md_sha256 (std' ++ add))) -> std = std' \/ clash (std ++ add) (std' ++ add).
Proof.
  intros H1 H2 Hc ->. unfold CalcReportData in Hc. destruct (zlen add =? 0); [left; congruence|].
  assert (md_sha256 (std ++ add) = md_sha256 (std' ++ add)) as Hh.
  { apply report_hash_inj; [apply md_sha256_length..|]. unfold ReportDataFromHash at 1. congruence. }
  rewrite !same_hash in Hh. apply hash_inj in Hh as [Hh|]; [left|by right]. by apply app_inj_1 in Hh as [? _]; [|congruence].
Qed.

(** C23. A provider with keys, whose expected report data are those of an exchange of the
    enclave with the same additional data and the standard key derivation: the two
    public keys are the other's, and all four keys are the same; or else the keys that
    the enclave reported and those that the provider expected are different texts with
    the same hash, or their hashes with the additional data are. *)
Theorem attested_keys_agree cookie it peer (p : EpidRaSvcProvCore.t) data :
  let add := EpidQuoteVerifier.m_addReportData (m_epidQuoteVrfy p) in
  exchange_ok cookie it -> null (DEC_KDF_POINTER cookie (derive_key_cb it)) = true -> length (g_b it) = 64%nat ->
  report_data_gener it = CalcReportData add -> keyed peer p -> length peer = 64%nat ->
  report_data_of it = (true, data) -> data = EpidQuoteVerifier.expData (m_epidQuoteVrfy p) ->
  g_a it = peer /\ g_b it = ec_public (m_myEncKey p) /\
  item_keys it = mkKeys (m_smk p) (EpidRaSvcProvCore.m_sk p) (EpidRaSvcProvCore.m_mk p) (m_vk p) \/
  clash (reported_text it) (expected_text peer p) \/
  clash (ReportDataFromHash (sha256 (reported_text it)) ++ add) (ReportDataFromHash (sha256 (expected_text peer p)) ++ add).
Proof.
  intros add [Hga (msg2 & Hgb & dh & Hdh & _ & Hkeys & _)] Hcb Lb Hgen [(shared & Hs & K1 & K2 & K3 & K4) Hstd] Lp Hdata Hexp.
  assert (length (g_a it) = 64%nat) as La by (rewrite Hga; apply ecc_pub_length).
  unfold derived in Hkeys. rewrite Hcb in Hkeys. destruct Hkeys as [_ Hkeys].
  unfold report_data_of in Hdata. rewrite Hgen in Hdata. unfold EpidQuoteVerifier.expData in Hexp. rewrite Hstd, same_hash in Hexp.
  fold add in Hexp. fold (reported_text it) in Hdata. fold (expected_text peer p) in Hexp.
  assert (forall h, length h = 32%nat -> length (ReportDataFromHash h) = 64%nat) as HL.
  { intros h Hh. unfold ReportDataFromHash. rewrite length_app, length_drop, length_replicate. lia. }
  assert (forall m, length (sha256 m) = 32%nat) as HS by (intros m; rewrite <-same_hash; apply md_sha256_length).
  destruct (report_data_inj _ _ _ _ ltac:(apply HL, HS) ltac:(apply HL, HS) Hdata Hexp) as [He|]; [|by right; right].
  apply report_hash_inj in He; [|apply HS..]. apply hash_inj in He as [He|]; [left|by right; left]. unfold reported_text, expected_text in He.
  apply app_inj_1 in He as [Ea He]; [|congruence]. apply app_inj_1 in He as [Eb Ev]; [|by rewrite ec_public_length].
  split_and!; [done|done|]. rewrite Hkeys. rewrite Hgb, Eb, same_shared, <-Hga, Ea, Hs in Hdh. injection Hdh as <-.
  unfold standard_keys. rewrite !same_kdf. congruence.
Qed.
End agreement.

(** ** Message 4 *)

(** A dictionary with two entries under different names. *)
Definition two (k1 k2 : string) (v1 v2 : Hashable) : Object := SDict [(label k1, SHashable v1); (label k2, SHashable v2)].
Definition two_keys (k1 k2 : string) : Prop := keys_ok [label k1; label k2] /\
  hash_writable (label k1) /\ hash_writable (label k2) /\ obj_eqb (label k1) (label k2) = false /\ obj_eqb (label k2) (label k1) = false.

Lemma obj_eqb_label k : obj_eqb (label k) (label k) = true.
Proof.
  unfold obj_eqb. cbn. by apply bool_decide_eq_true.
Qed.

Lemma two_writable k1 k2 v1 v2 : two_keys k1 k2 -> hash_writable v1 -> hash_writable v2 -> writable (two k1 k2 v1 v2).
Proof. intros (Hk & H1 & H2 & _) Hv1 Hv2. apply writable_dict; [exact Hk|]. constructor; [|apply Forall_singleton]; (split; [done|by constructor]). Qed.

(** It is read back under both names, whichever comes first. *)
Lemma two_read k1 k2 v1 v2 bs : two_keys k1 k2 -> hash_writable v1 -> hash_writable v2 ->
  GenericWriter.Write (two k1 k2 v1 v2) = Ok bs -> fits 64 (zlen bs) ->
  exists d, AdvRlp.Parse bs = Ok (SDict d) /\ Dict.at_ d (label k1) = Ok (SHashable v1) /\ Dict.at_ d (label k2) = Ok (SHashable v2).
Proof.
  intros Hk H1 H2 Hw Hf. pose proof (two_writable _ _ _ _ Hk H1 H2) as Hwr. destruct Hk as (Hk & _ & _ & N12 & N21).
  destruct (sort_pairs_spec [(label k1, SHashable v1); (label k2, SHashable v2)] Hk) as (r & Hr & Hp & _).
  assert (AdvRlp.Parse bs = Ok (canon (two k1 k2 v1 v2))) as HP by (apply ParseCtn_read, (writable_read _ Hwr); [done|done|lia]).
  unfold two in HP. rewrite (canon_pairs _ _ Hr) in HP. eexists. split; [exact HP|].
  apply Permutation_sym, Permutation_length_2_inv in Hp as [-> | ->]; unfold Dict.at_; cbn -[obj_eqb label]; rewrite !obj_eqb_label, ?N12, ?N21; done.
Qed.

(** A byte string in it is no longer than the whole. *)
Lemma two_contains k1 k2 v1 v2 b bs : two_keys k1 k2 -> hash_writable v1 -> hash_writable v2 ->
  GenericWriter.Write (two k1 k2 v1 v2) = Ok bs -> v1 = SBytes b \/ v2 = SBytes b -> (length b <= length bs)%nat.
Proof.
  intros Hk H1 H2 Hw Hb. destruct Hk as (Hk & _). unfold two in Hw. cbn [GenericWriter.Write] in Hw. rewrite sort_pairs_map in Hw.
  destruct (sort_pairs_spec [(label k1, SHashable v1); (label k2, SHashable v2)] Hk) as (r & Hr & Hp & _). rewrite Hr in Hw.
  cbn [fmap result_fmap mbind result_bind] in Hw. bind_ok Hw. injection Hw as <-. rewrite <-dict_written in E.
  apply concat_bytes_inv in E as (encs & He & ->).
  assert (SHashable (SBytes b) ∈ flat r) as Hin.
  { apply Permutation_sym, Permutation_length_2_inv in Hp as [-> | ->]; unfold flat; cbn -[label]; destruct Hb as [-> | ->]; set_solver. }
  apply (list_elem_of_fmap_2 GenericWriter.Write) in Hin. change (GenericWriter.Write <$> flat r) with (map GenericWriter.Write (flat r)) in Hin.
  rewrite He in Hin. apply list_elem_of_fmap in Hin as (e & Hb' & Hin). injection Hb' as <-.
  apply list_elem_of_split in Hin as (e1 & e2 & ->). unfold CatBytesWriter_Write, WriterBytes.Write, EncodeRlpList.SerializeBytes, EncodeRlpBytes.SerializeBytes.
  rewrite concat_app. cbn [concat]. repeat (rewrite length_app || cbn [length]). case_match; repeat (rewrite length_app || rewrite length_map || cbn [length]); lia.
Qed.

(** What message 4 needs of the MAC: it is made of bytes. *)
Class MacBytes {B : MbedOps} := Cmacer_bytes : forall key msg, all_bytes (Cmacer key msg).

Lemma body_keys : two_keys "VerifyResult" "ReportSet".
Proof.
  split_and!; [|split; [byte_list|done]..|done|done]. right. eexists 1%nat, [_; _]. split; [done|].
  apply NoDup_cons. split; [|apply NoDup_singleton]. rewrite list_elem_of_singleton. done.
Qed.

Lemma msg_keys : two_keys "MsgBody" "MAC".
Proof.
  split_and!; [|split; [byte_list|done]..|done|done]. right. eexists 1%nat, [_; _]. split; [done|].
  apply NoDup_cons. split; [|apply NoDup_singleton]. rewrite list_elem_of_singleton. done.
Qed.

Lemma payload_bytes l : Forall all_bytes l -> all_bytes (payload l).
Proof. induction 1 as [|b l Hb _ IH]; [constructor|]. rewrite payload_cons. apply all_bytes_app. split; [by apply item_written_bytes|done]. Qed.

Section message4.
Context {X : X509Ops} {XL : X509Laws} {D : DoubleOps} {B : MbedOps} {MB : MacBytes} {V : Type}.
#[local] Set Default Proof Using "Type*".

(** Message 4 of a provider, with the byte strings that are in it. *)
Lemma GenMsg4_ok s accepted msg4 : EpidRaSvcProvCore.GenMsg4 s accepted = Ok msg4 -> exists set body,
  WriterGeneric.Write (report_set_obj (EpidRaSvcProvCore.m_iasReportSet s)) = Ok set /\
  GenericWriter.Write (two "VerifyResult" "ReportSet" (SBool accepted) (SBytes set)) = Ok body /\
  GenericWriter.Write (two "MsgBody" "MAC" (SBytes body) (SBytes (Cmacer (EpidRaSvcProvCore.m_sk s) body))) = Ok msg4.
Proof.
  unfold EpidRaSvcProvCore.GenMsg4. intros Hg. bind_ok Hg. bind_ok Hg. exists a, a0.
  destruct (WriterGeneric.Write _) as [x|]; [|done]. injection E as <-. split; [done|]. change (SDict [(label "VerifyResult", _); _])
    with (two "VerifyResult" "ReportSet" (SBool accepted) (SBytes x)) in E0.
  destruct (GenericWriter.Write (two "VerifyResult" _ _ _)) as [y|]; [|done]. injection E0 as <-. split; [done|].
  change (SDict [(label "MsgBody", _); _]) with (two "MsgBody" "MAC" (SBytes y) (SBytes (Cmacer (EpidRaSvcProvCore.m_sk s) y))) in Hg.
  destruct (GenericWriter.Write (two "MsgBody" _ _ _)) as [z|]; [|done]. by injection Hg as <-.
Qed.

Lemma GenMsg4_read s accepted msg4 (c : EpidRaClientCore.t) (db : RaDb V) : EpidRaSvcProvCore.GenMsg4 s accepted = Ok msg4 ->
  set_bytes_ok (EpidRaSvcProvCore.m_iasReportSet s) -> fits 64 (zlen msg4) ->
  EpidRaClientCore.m_sk c = EpidRaSvcProvCore.m_sk s ->
  EpidRaClientCore.ProcMsg4 msg4 (c, db) =
    ((EpidRaClientCore.mk (EpidRaClientCore.m_raCtx c) (EpidRaClientCore.m_addReportData c) (EpidRaClientCore.m_peerSignKey c)
        (EpidRaClientCore.m_mk c) (EpidRaClientCore.m_sk c) (EpidRaSvcProvCore.m_iasReportSet s)
        (if accepted then EpidRaClientCore.HandshakeDone else EpidRaClientCore.HandshakeRefused), db), Ok ()).
Proof.
  intros (set & body & Hset & Hbody & Hmsg)%GenMsg4_ok Hok Hf Hsk.
  assert (all_bytes set) as Hsb.
  { rewrite write_report_set in Hset by done. injection Hset as <-. destruct Hok as (H1 & H2 & H3).
    apply list_written_bytes, all_bytes_app. split; [by apply list_written_bytes, payload_bytes|apply payload_bytes; by repeat constructor]. }
  assert (all_bytes body) as Hbb by (eapply writable_bytes; [|exact Hbody]; apply two_writable; [apply body_keys|done|done]).
  pose proof (two_contains _ _ (SBytes body) (SBytes _) body msg4 msg_keys Hbb (Cmacer_bytes _ _) Hmsg (or_introl eq_refl)) as L1.
  pose proof (two_contains "VerifyResult" "ReportSet" (SBool accepted) (SBytes set) set body body_keys I Hsb Hbody (or_intror eq_refl)) as L2.
  destruct (two_read _ _ (SBytes body) (SBytes _) _ msg_keys Hbb (Cmacer_bytes _ _) Hmsg Hf) as (d & Hd & Hd1 & Hd2).
  destruct (two_read "VerifyResult" "ReportSet" (SBool accepted) (SBytes set) _ body_keys I Hsb Hbody ltac:(word_lia)) as (e & He & He1 & He2).
  unfold EpidRaClientCore.ProcMsg4, EpidRaClientCore.liftC, EpidRaClientCore.getsC, EpidRaClientCore.modifyC, mbind, stx_bind.
  rewrite Hd. cbn [ra_obj AdvRlp.AsDict]. rewrite Hd1, Hd2. cbn [result_bind AdvRlp.AsBytes ra_obj fst snd]. rewrite Hsk, bool_decide_true by done.
  cbn [negb]. rewrite He. cbn [ra_obj AdvRlp.AsDict]. rewrite He1, He2. cbn [result_bind AdvRlp.AsBytes ra_obj fmap result_fmap IsTrue].
  rewrite (report_set_roundtrip _ _ Hok Hset) by word_lia. cbn. by rewrite Hsk.
Qed.

(** C33. The two sides end alike: an enclave with the provider's session key takes the
    message 4 that the provider returned, says that the handshake is done exactly if
    the provider says so, and has the provider's report set. *)
Theorem msg4_agreed GetReport msg3 s s' msg4 (c : EpidRaClientCore.t) (db : RaDb V) :
  EpidRaSvcProvCore.GetMsg4 GetReport msg3 s = (s', Ok msg4) -> fits 64 (zlen msg4) ->
  set_bytes_ok (EpidRaSvcProvCore.m_iasReportSet s') -> EpidRaClientCore.m_sk c = EpidRaSvcProvCore.m_sk s' ->
  exists c', EpidRaClientCore.ProcMsg4 msg4 (c, db) = ((c', db), Ok ()) /\
    EpidRaClientCore.m_iasReportSet c' = EpidRaSvcProvCore.m_iasReportSet s' /\
    (EpidRaClientCore.m_handshakeState c' = EpidRaClientCore.HandshakeDone <-> EpidRaSvcProvCore.IsHandshakeDone s' = true) /\
    (EpidRaClientCore.m_handshakeState c' = EpidRaClientCore.HandshakeDone \/
     EpidRaClientCore.m_handshakeState c' = EpidRaClientCore.HandshakeRefused).
Proof.
  intros [_ (accepted & Hg & Hst & _)]%GetMsg4_spec Hf Hok Hsk. eexists. split; [by eapply GenMsg4_read|].
  cbn. split; [done|]. unfold EpidRaSvcProvCore.IsHandshakeDone. rewrite bool_decide_eq_true, Hst. destruct accepted; naive_solver.
Qed.
End message4.

(** ** A handshake to compute with *)

Definition pad (n : nat) (b : bytes) : bytes := take n (b ++ replicate n 0).

Definition hs_mbed : MbedOps := {|
  ec_public := fun a => pad 64 a;
  DeriveSharedKey := fun a b => Some (zip_with Z.lxor b (pad 64 a));
  SignInBigNum := fun key hash _ => Some (pad 64 (take 32 (pad 64 key) ++ hash));
  Cmacer := fun key msg => map (fun x => u8 x) (zip_with Z.add (pad 16 key) (pad 16 msg)) |}.

#[local] Existing Instances toy_x509 toy_double hs_mbed toy_vector.

Definition hs_sdk : SgxSdk := {|
  ecc_pub := fun a => pad 64 a; ecc_check_point := fun _ => true;
  ecc_shared := fun a b => Some (zip_with Z.lxor (pad 64 a) b);
  ecdsa_verify := fun d pk s => bool_decide (s = pad 64 (take 32 pk ++ md_sha256 d));
  derive_key := Ckdf; cmac := Cmacer; sha256 := md_sha256;
  create_report := fun t d => mkReport (tgt_mr_enclave t) (tgt_attributes t) d [];
  verify_report := fun _ => true; is_within_enclave := fun _ _ => true; is_outside_enclave := fun _ _ => true;
  kdf_at := fun _ _ _ => (SGX_SUCCESS, mkKeys [] [] [] []) |}.

#[local] Existing Instance hs_sdk.

#[local] Instance hs_mac_bytes : MacBytes.
Proof.
  intros key msg. cbn [Cmacer hs_mbed]. apply Forall_map. apply Forall_true. intros x. widths. apply Z.mod_pos_bound. done.
Qed.

#[local] Instance hs_same : SameCrypto.
Proof.
  split; try done; intros a; cbn [ecc_pub ec_public hs_sdk hs_mbed]; unfold pad; rewrite length_take, length_app, length_replicate; lia.
Qed.

(** The host relays the messages, and the attestation service reports on the quote
    it was sent. *)
Definition hs_nonce : bytes := [10; 11; 12; 13; 14; 15; 16; 17; 18; 19; 20; 21; 22; 23; 24; 25].
Definition hs_verifier : EpidQuoteVerifier.t := EpidQuoteVerifier.mk [replicate 32 5] [3; 1; 4] (replicate 64 0).
Definition hs_provider : EpidRaSvcProvCore.t :=
  ok_or (EpidRaSvcProvCore.mk [] [] [] [] [] [] [] [] [] hs_verifier (mkReportSet [] [] []) EpidRaSvcProvCore.Initial)
    (EpidRaSvcProvCore.create (Some [4]) (replicate 16 7) hs_verifier [5; 6] hs_nonce).

Definition hs_quote (report_data : bytes) : bytes := toy_body (replicate 32 5) report_data ++ replicate 4 0.
Definition hs_report (report_data : bytes) : IasReportSet :=
  let text := dquote (chars "{'nonce':'" ++ EpidRaSvcProvCore.m_nonce hs_provider ++
    chars "','isvEnclaveQuoteStatus':'OK','isvEnclaveQuoteBody':'" ++ Base64C.Encode true (toy_body (replicate 32 5) report_data) ++ chars "'}") in
  mkReportSet [[1; 7]; [1]] text ([1; 7] ++ md_sha256 text).

Definition hs_host1 (ctx : Z) (db : RaDb (list Z)) : RaDb (list Z) * option sgx_ra_msg1_t :=
  match run_call (well [1; 2] [] None) (decent_ra_get_ga ctx 1) db with
  | (db, Returned (GaWritten g_a)) => (db, Some (mkMsg1 g_a [0; 0; 0; 9]))
  | (db, _) => (db, None)
  end.
Definition hs_target : sgx_target_info_t := mkTarget (replicate 32 9) (replicate 16 8) [].
Definition hs_host3 (ctx : Z) (msg2 : bytes) (db : RaDb (list Z)) : RaDb (list Z) * option bytes :=
  match run_call (well [] [3] None) (decent_ra_proc_msg2_trusted ctx 1 (msg2_of msg2) 1 hs_target 1 1) db with
  | (db, Returned (ReportWritten report nonce)) =>
    let quote := hs_quote (rep_report_data report) in
    let qe := mkReport (tgt_mr_enclave hs_target) (tgt_attributes hs_target) (md_sha256 (nonce ++ quote)) [] in
    match run_call (well [] [] None) (decent_ra_get_msg3_trusted ctx 436 1 qe 1 772 (fun _ i => nth (Z.to_nat i) quote 0)) db with
    | (db, Returned (Msg3Written mac g_a ps q)) => (db, Some (msg3_bytes mac g_a ps q))
    | (db, _) => (db, None)
    end
  | (db, _) => (db, None)
  end.

(** Message 3 carries the quote behind the structure. *)
Definition quote_report_data (msg3 : bytes) : bytes := q_report_data (quote_of (drop (Z.to_nat sizeof_msg3) msg3)).

Definition ok_val {E A} (r : result E A) : option A := match r with Ok a => Some a | Throw _ => None end.

(** The whole exchange: the enclave and the provider at its end. *)
Definition hs_run : option (EpidRaClientCore.St (V := list Z) * EpidRaSvcProvCore.t * ra_db_item_t) :=
  let c0 : EpidRaClientCore.St (V := list Z) := (EpidRaClientCore.create [3; 1; 4], sys_db sys_init) in
  let '(c1, r) := EpidRaClientCore.GetMsg0s (fun db => (db, Some 0)) c0 in
  msg0s ← ok_val r;
  let '(p1, r) := EpidRaSvcProvCore.GetMsg0r msg0s hs_provider in
  msg0r ← ok_val r;
  let '(c2, r) := EpidRaClientCore.GetMsg1 (fun k => bool_decide (k = pad 64 [4])) (well [] [3] (Some 100)) 1 1 hs_host1 msg0r c1 in
  msg1 ← ok_val r;
  let '(p2, r) := EpidRaSvcProvCore.GetMsg2 (fun _ => Ok []) [] msg1 p1 in
  msg2 ← ok_val r;
  let '(c3, r) := EpidRaClientCore.GetMsg3 (well [] [] None) 1 1 hs_host3 msg2 c2 in
  msg3 ← ok_val r;
  let '(p3, r) := EpidRaSvcProvCore.GetMsg4 (fun _ => Ok (hs_report (quote_report_data msg3))) msg3 p2 in
  msg4 ← ok_val r;
  let '(c4, r) := EpidRaClientCore.ProcMsg4 msg4 c3 in
  _ ← ok_val r;
  it ← heap c4.2 !! 100;
  Some (c4, p3, it).

(** The provider's part of it. *)
Definition hs_msg1 : sgx_ra_msg1_t := mkMsg1 (pad 64 [1; 2]) [0; 0; 0; 9].
Definition hs_keyed : EpidRaSvcProvCore.t := (EpidRaSvcProvCore.GetMsg2 (fun _ => Ok []) [] hs_msg1 hs_provider).1.
Definition hs_msg3 : bytes := replicate 336 0 ++ hs_quote (EpidQuoteVerifier.expData hs_verifier).
Definition hs_set : IasReportSet := hs_report (EpidQuoteVerifier.expData (EpidRaSvcProvCore.m_epidQuoteVrfy hs_keyed)).
Definition hs_done : EpidRaSvcProvCore.t := (EpidRaSvcProvCore.GetMsg4 (fun _ => Ok hs_set) hs_msg3 hs_keyed).1.

(** The provider after its message 4, and after one that was refused before it. *)
Lemma provider_attests_witness :
  EpidRaSvcProvCore.IsHandshakeDone hs_done = true /\ keyed (pad 64 [1; 2]) hs_done /\
  exists l, attested l hs_done /\ length l = 2%nat.
Proof.
  assert (exists msg2, EpidRaSvcProvCore.GetMsg2 (fun _ => Ok []) [] hs_msg1 hs_provider = (hs_keyed, Ok msg2)) as [msg2 E2]
    by (eexists; vm_compute; reflexivity).
  assert (EpidRaSvcProvCore.GetMsg4 (fun _ => Ok hs_set) [] hs_keyed = (hs_keyed, Throw (DecentException "msg3 is too short"))) as E3
    by (vm_compute; reflexivity).
  assert (exists msg4, EpidRaSvcProvCore.GetMsg4 (fun _ => Ok hs_set) hs_msg3 hs_keyed = (hs_done, Ok msg4)) as [msg4 E4]
    by (eexists; vm_compute; reflexivity).
  assert (EpidRaSvcProvCore.IsHandshakeDone hs_done = true) as Hd by (vm_compute; reflexivity).
  set (c3 := CallMsg4 (fun _ => Ok hs_set) []). set (c4 := CallMsg4 (fun _ => Ok hs_set) hs_msg3).
  destruct (provider_attests (fun _ => Ok []) [] hs_msg1 msg2 hs_provider hs_keyed
    [(c3, hs_keyed, Throw (DecentException "msg3 is too short")); (c4, hs_done, Ok msg4)] hs_done E2) as [(peer & Hp & Hk) Ha].
  - apply (trace_call hs_keyed [(c3, hs_keyed, Throw _)] hs_keyed c4); [|exact E4].
    apply (trace_call hs_keyed [] hs_keyed c3); [apply trace_start|exact E3].
  - split; [exact Hd|]. cbn in Hp. apply elem_of_cons in Hp as [->|Hp%elem_of_nil]; [|destruct Hp]. split; [exact Hk|].
    eexists. split; [exact (Ha Hd eq_refl)|reflexivity].
Defined.

Lemma msg4_agreed_witness :
  exists msg4 c', EpidRaSvcProvCore.GetMsg4 (fun _ => Ok hs_set) hs_msg3 hs_keyed = (hs_done, Ok msg4) /\
    EpidRaClientCore.ProcMsg4 (V := list Z) msg4
      (EpidRaClientCore.mk 0 [3; 1; 4] (pad 64 [4]) [] (EpidRaSvcProvCore.m_sk hs_done) (mkReportSet [] [] []) EpidRaClientCore.Msg3Sent,
       sys_db sys_init) = ((c', sys_db sys_init), Ok ()) /\
    EpidRaClientCore.m_handshakeState c' = EpidRaClientCore.HandshakeDone.
Proof.
  assert (exists msg4, EpidRaSvcProvCore.GetMsg4 (fun _ => Ok hs_set) hs_msg3 hs_keyed = (hs_done, Ok msg4) /\ zlen msg4 = 813) as (msg4 & E4 & Hl)
    by (eexists; split; vm_compute; reflexivity).
  destruct (msg4_agreed (fun _ => Ok hs_set) hs_msg3 hs_keyed hs_done msg4
    (EpidRaClientCore.mk 0 [3; 1; 4] (pad 64 [4]) [] (EpidRaSvcProvCore.m_sk hs_done) (mkReportSet [] [] []) EpidRaClientCore.Msg3Sent)
    (sys_db sys_init) E4) as (c' & H1 & H2 & H3 & H4).
  - rewrite Hl. split; vm_compute; congruence.
  - unfold set_bytes_ok, all_bytes. repeat split; vm_compute; repeat constructor; congruence.
  - reflexivity.
  - exists msg4, c'. split; [exact E4|]. split; [exact H1|]. apply H3. vm_compute. reflexivity.
Defined.

(** The exchange of the enclave in the whole run. *)
Definition hs_item : ra_db_item_t := match hs_run with Some (_, _, it) => it | None => zero_item end.

Definition hs_shared : bytes := zip_with Z.lxor (pad 64 [1; 2]) (pad 64 [5; 6]).

Lemma attested_keys_agree_witness :
  let p := hs_keyed in
  g_a hs_item = pad 64 [1; 2] /\ g_b hs_item = ec_public (EpidRaSvcProvCore.m_myEncKey p) /\
  item_keys hs_item = mkKeys (EpidRaSvcProvCore.m_smk p) (EpidRaSvcProvCore.m_sk p) (EpidRaSvcProvCore.m_mk p) (EpidRaSvcProvCore.m_vk p).
Proof.
  destruct (attested_keys_agree 7 hs_item (pad 64 [1; 2]) hs_keyed (EpidQuoteVerifier.expData (EpidRaSvcProvCore.m_epidQuoteVrfy hs_keyed)))
    as [H|[[H _]|[H _]]].
  - split; [vm_compute; reflexivity|]. exists (msg2_of (ok_or [] (EpidRaSvcProvCore.GetMsg2 (fun _ => Ok []) [] hs_msg1 hs_provider).2)).
    split; [vm_compute; reflexivity|]. exists hs_shared. split; [vm_compute; reflexivity|]. split; [vm_compute; reflexivity|].
    split; [|vm_compute; reflexivity]. vm_compute. split; reflexivity.
  - vm_compute. reflexivity.
  - vm_compute. reflexivity.
  - vm_compute. reflexivity.
  - split; [|vm_compute; reflexivity]. exists hs_shared. split; [vm_compute; reflexivity|]. split_and!; vm_compute; reflexivity.
  - vm_compute. reflexivity.
  - vm_compute. reflexivity.
  - vm_compute. reflexivity.
  - exact H.
  - destruct H. vm_compute. reflexivity.
  - destruct H. vm_compute. reflexivity.
Defined.

(** The run ends with both sides done and with the same session keys. *)
Lemma handshake_completes : match hs_run with
  | Some (c, p, it) => EpidRaClientCore.m_handshakeState c.1 = EpidRaClientCore.HandshakeDone /\
      EpidRaSvcProvCore.IsHandshakeDone p = true /\ EpidRaClientCore.m_sk c.1 = EpidRaSvcProvCore.m_sk p /\
      EpidRaClientCore.m_mk c.1 = EpidRaSvcProvCore.m_mk p /\ sk_key it = EpidRaClientCore.m_sk c.1
  | None => False
  end.
Proof. vm_compute. repeat split; reflexivity. Qed.

(** ** Calls out of order *)

(** The state of the provider is not looked at and what a call that throws changed
    stays changed: after a handshake that is done, a message 2 that cannot be made
    leaves the state done with the keys of a peer that nobody attested, and a message
    4 that cannot be made leaves it done with a report set that was not accepted. *)
Lemma done_without_attestation :
  (let p := (EpidRaSvcProvCore.GetMsg2 (fun _ => Throw (DecentException "no list")) [] (mkMsg1 (pad 64 [66]) []) hs_done).1 in
   EpidRaSvcProvCore.IsHandshakeDone p = true /\ EpidRaSvcProvCore.m_peerEncKey p = pad 64 [66]) /\
  (let rs := mkReportSet [[66]] [] [] in
   let p := (EpidRaSvcProvCore.GetMsg4 (fun _ => Ok rs) hs_msg3 hs_done).1 in
   EpidRaSvcProvCore.IsHandshakeDone p = true /\ EpidRaSvcProvCore.m_iasReportSet p = rs).
Proof. split; vm_compute; split; reflexivity. Qed.

(** The state of the enclave is not looked at either: before anything was exchanged
    its session key is zero, and a message 4 that is authenticated with the key zero
    ends the handshake. *)
Lemma done_without_exchange :
  let forged := EpidRaSvcProvCore.mk [] [] [] [] [] (replicate 16 0) [] [] [] hs_verifier (mkReportSet [] [] []) EpidRaSvcProvCore.Initial in
  let c := (EpidRaClientCore.ProcMsg4 (V := list Z) (ok_or [] (EpidRaSvcProvCore.GenMsg4 forged true))
              (EpidRaClientCore.create [], sys_db sys_init)).1 in
  EpidRaClientCore.m_handshakeState c.1 = EpidRaClientCore.HandshakeDone.
Proof. vm_compute. reflexivity. Qed.
