(* ===== verification/Keyring.v ===== *)
(** * The keys of an enclave

    The keyring whose hash the enclave's certificates carry
    ([DE/Common/Keyring.hpp], [KeyringKey.hpp]), the store of certificates
    ([CertStore.hpp]), the keyring of symmetric keys ([DE/Trusted/SKeyring.hpp]) and
    the root key it derives them from ([DE/Trusted/Sgx/SealKey.hpp]).  The keyring is
    shared by the threads of the enclave; the others are used by one thread.  The hash,
    the derivation of keys and the processor's keys are parameters. *)

From stdpp Require Import gmap strings sorting.
From S2P Require Import Prelude AdvRlp AdvRlpTheorems Codec.

(** What a report of the enclave about itself says of its versions. *)
Record SelfReport := mkSelfReport { isv_svn : Z; cpu_svn : bytes; config_svn : Z; isv_prod_id : Z }.

(** SHA-256 and HKDF of mbedtls, and the processor's key for a request and report
    about the enclave; [None] where they fail. *)
Class KeyCrypto := {
  Sha256 : bytes -> bytes;
  Hkdf : Z -> bytes -> bytes -> bytes -> option bytes;
  sgx_get_key : bytes -> option bytes;
  sgx_create_report : option SelfReport }.

(** A hash has 32 bytes, a key of the processor 16, and its version 16. *)
Class KeyCryptoLaws `{KeyCrypto} := {
  Sha256_length : forall m, length (Sha256 m) = 32%nat;
  cpu_svn_length : forall rep, sgx_create_report = Some rep -> length (cpu_svn rep) = 16%nat;
  sgx_get_key_length : forall req k, sgx_get_key req = Some k -> length k = 16%nat }.

Inductive KeyError := Exception (what : string) | mbedTLSRuntimeError | SgxRuntimeError.

#[export] Instance KeyError_eq_dec : EqDecision KeyError.
Proof. solve_decision. Defined.

(** ** A key *)

Record KeyringKey := mkKey { GetName : string; GetPublicDer : bytes }.

#[export] Instance KeyringKey_eq_dec : EqDecision KeyringKey.
Proof. solve_decision. Defined.

(** ** [std::map] with byte strings as keys *)

Section ordered_map.
Context {A : Type}.

Fixpoint map_find (m : list (bytes * A)) (key : bytes) : option A :=
  match m with
  | [] => None
  | (k, v) :: m => if decide (k = key) then Some v else map_find m key
  end.

(** [emplace]: nothing changes if the key is there. *)
Fixpoint map_emplace (key : bytes) (val : A) (m : list (bytes * A)) : list (bytes * A) :=
  match m with
  | [] => [(key, val)]
  | (k, v) :: m' =>
    match lex_compare key k with
    | Lt => (key, val) :: m
    | Eq => m
    | Gt => (k, v) :: map_emplace key val m'
    end
  end.
End ordered_map.

(** ** The keyring *)

Module Keyring.
Section keyring.
Context `{KeyCrypto}.

Definition GetKeySha256 (key : KeyringKey) : bytes := Sha256 (GetPublicDer key).

(** The members; [m_mapMutex] is the thread that has the mutex. *)
Record t := mk {
  m_isLocked : bool; m_mapMutex : option nat;
  m_keyNameMap : gmap string KeyringKey; m_keyHashMap : list (bytes * KeyringKey) }.

Definition empty : t := mk false None ∅ [].

(** *** Calls, between which other threads run

    A writer has the mutex from its checks to its writes; a reader does not take it. *)
Inductive thread :=
| Register (key : KeyringKey) | Register_write (key : KeyringKey)
| GenHashList | GenHashList_lock | GenHashList_read
| FindName (name : string) | FindHash (hash : bytes)
| Registered (key : KeyringKey) | HashList (l : bytes) | Found (key : option KeyringKey) | Threw (e : KeyError)
| DataRace.

(** [RegisterKey] up to its writes. *)
Definition RegisterKey_checks (kr : t) (key : KeyringKey) : result KeyError () :=
  if m_isLocked kr then Throw (Exception "Keyring - Keyring is locked")
  else match m_keyNameMap kr !! GetName key with
  | Some _ => Throw (Exception "Keyring - Key name already exists")
  | None =>
    match map_find (m_keyHashMap kr) (GetKeySha256 key) with
    | Some _ => Throw (Exception "Keyring - Key hash already exists")
    | None => Ok ()
    end
  end.
Definition RegisterKey_writes (kr : t) (key : KeyringKey) : t :=
  mk (m_isLocked kr) None (<[GetName key := key]> (m_keyNameMap kr))
    (map_emplace (GetKeySha256 key) key (m_keyHashMap kr)).

Definition GenKeyHashList (kr : t) : bytes := concat (map fst (m_keyHashMap kr)).
Definition GenHash (kr : t) : bytes := Sha256 (GenKeyHashList kr).

(** A map that is read while a thread writes it. *)
Definition read_maps (kr : t) (th : thread) : t * thread :=
  (kr, match m_mapMutex kr with Some _ => DataRace | None => th end).

(** The next step of thread [i]; [None]: it waits for the mutex, or is done. *)
Definition step (i : nat) (th : thread) (kr : t) : option (t * thread) :=
  match th with
  | Register key =>
    match m_mapMutex kr with
    | Some _ => None
    | None =>
      Some match RegisterKey_checks kr key with
      | Ok _ => (mk (m_isLocked kr) (Some i) (m_keyNameMap kr) (m_keyHashMap kr), Register_write key)
      | Throw e => (kr, Threw e)
      end
    end
  | Register_write key => Some (RegisterKey_writes kr key, Registered key)
  | GenHashList => Some (kr, if m_isLocked kr then GenHashList_read else GenHashList_lock)
  | GenHashList_lock =>
    match m_mapMutex kr with
    | Some _ => None
    | None => Some (mk true None (m_keyNameMap kr) (m_keyHashMap kr), GenHashList_read)
    end
  | GenHashList_read => Some (read_maps kr (HashList (GenKeyHashList kr)))
  | FindName name => Some (read_maps kr (Found (m_keyNameMap kr !! name)))
  | FindHash hash => Some (read_maps kr (Found (map_find (m_keyHashMap kr) hash)))
  | _ => None
  end.

Definition begins (th : thread) : bool :=
  match th with Register _ | GenHashList | FindName _ | FindHash _ => true | _ => false end.

Definition looks_up (th : thread) : bool := match th with FindName _ | FindHash _ => true | _ => false end.

Record Sys := mkSys { sys_kr : t; threads : list thread }.

(** A call begins, or a thread runs on.  With [guarded], keys are looked up only after
    the keyring was locked, which nothing in the code enforces. *)
Inductive sys_step (guarded : bool) : Sys -> Sys -> Prop :=
| Spawn s th : begins th = true -> sys_step guarded s (mkSys (sys_kr s) (threads s ++ [th]))
| Run s i th kr th' :
  threads s !! i = Some th -> (guarded = true -> looks_up th = true -> m_isLocked (sys_kr s) = true) ->
  step i th (sys_kr s) = Some (kr, th') -> sys_step guarded s (mkSys kr (<[i := th']> (threads s))).

Definition reachable (guarded : bool) : Sys -> Prop := rtc (sys_step guarded) (mkSys empty []).

(** [operator[]] and [IsRegistered] of a keyring that no thread writes. *)
Definition at_name (kr : t) (name : string) : result KeyError KeyringKey :=
  match m_keyNameMap kr !! name with Some key => Ok key | None => Throw (Exception "Keyring - Key name not found") end.
Definition at_hash (kr : t) (hash : bytes) : result KeyError KeyringKey :=
  match map_find (m_keyHashMap kr) hash with Some key => Ok key | None => Throw (Exception "Keyring - Key hash not found") end.
Definition IsRegistered (kr : t) (hash : bytes) : bool := bool_decide (is_Some (map_find (m_keyHashMap kr) hash)).

(** [CheckRegistration]: the variable is static in a function of the base class of
    the keys, and is initialised by the first call; [sk_isRegistered] is its value, if
    it has one. *)
Definition CheckRegistration (kr : t) (key : KeyringKey) : stx (option bool) KeyError () := fun sk_isRegistered =>
  let b := default (IsRegistered kr (GetKeySha256 key)) sk_isRegistered in
  (Some b, if b then Ok () else Throw (Exception ("Key named " +:+ GetName key +:+ " must be registered to a Keyring before use"))).
End keyring.
End Keyring.

(** ** The store of certificates *)

Module CertStore.
Record Cert := mkCert { cert_name : string; cert_addr : Z }.
Definition t : Type := gmap string Cert.

Definition IsRegistered (cs : t) (name : string) : bool := bool_decide (is_Some (cs !! name)).
Definition Register (cs : t) (cert : Cert) : result KeyError t :=
  if IsRegistered cs (cert_name cert) then Throw (Exception "CertStore - certificate name already registered")
  else Ok (<[cert_name cert := cert]> cs).
Definition at_ (cs : t) (name : string) : result KeyError Cert :=
  match cs !! name with Some cert => Ok cert | None => Throw (Exception "CertStore - certificate name not found") end.
Definition CheckRegistration (cs : t) (cert : Cert) : stx (option bool) KeyError () := fun sk_isRegistered =>
  let b := default (IsRegistered cs (cert_name cert)) sk_isRegistered in
  (Some b, if b then Ok () else Throw (Exception ("Certificate named " +:+ cert_name cert +:+ " must be registered to a CertStore before use"))).
End CertStore.

(** ** The root key *)

(** [sgx_key_request_t] as the SDK lays it out, 512 bytes: the name of the key at 0,
    the policy at 2, the enclave's version at 4, the processor's at 8, the masks of
    the attributes at 24 and 32, the identifier at 40 and the version of the
    configuration at 76. *)
Definition sizeof_sgx_key_request : nat := 512.
Definition put (off : nat) (v req : bytes) : bytes := take off req ++ v ++ drop (off + length v) req.

Definition SGX_KEYSELECT_SEAL : bytes := [4; 0].
Definition SGX_KEYPOLICY_MRENCLAVE : bytes := [1; 0].

(** A little-endian integer of [n] bytes. *)
Fixpoint le (n : nat) (v : Z) : bytes := match n with O => [] | S n => v `mod` 256 :: le n (v / 256) end.

Module DecentRootSealKey.
Section seal.
Context `{KeyCrypto}.

Definition sk_keyIdLen : nat := 24.

(** [BuildKeyId]: the string with its terminator, in an array that is not cleared;
    [stack] is what was there. *)
Definition BuildKeyId (stack : bytes) : bytes := put 0 (chars "Decent Root Seal Key - " ++ [0]) stack.

(** INITTED, DEBUG, MODE64BIT, PROVISION_KEY, EINITTOKEN_KEY and KSS; LEGACY and AVX. *)
Definition attribute_flags : Z := Z.lor 1 (Z.lor 2 (Z.lor 4 (Z.lor 16 (Z.lor 32 128)))).
Definition attribute_xfrm : Z := Z.lor 3 6.

Definition GenKeyRequest (stack : bytes) : result KeyError bytes :=
  match sgx_create_report with
  | None => Throw SgxRuntimeError
  | Some rep =>
    Ok (put 76 (le 2 (config_svn rep)) (put 40 (BuildKeyId stack)
      (put 32 (le 8 attribute_xfrm) (put 24 (le 8 attribute_flags)
      (put 8 (cpu_svn rep) (put 4 (le 2 (isv_svn rep))
      (put 2 SGX_KEYPOLICY_MRENCLAVE (put 0 SGX_KEYSELECT_SEAL (replicate sizeof_sgx_key_request 0)))))))))
  end.

(** The copies of the structure's memory. *)
Definition KeyReqToMeta (keyReq : bytes) : bytes := keyReq.
Definition MetaToKeyReq (meta : bytes) : result KeyError bytes :=
  if decide (length meta = sizeof_sgx_key_request) then Ok meta
  else Throw (Exception "Invalid meta data size for DecentRootSealKey").

(** One request per 16 bytes of the key; [n] are left. *)
Fixpoint derive_from (i n : nat) (keyReq : bytes) : result KeyError bytes :=
  match n with
  | O => Ok []
  | S n =>
    let keyReq := put (40 + sk_keyIdLen) [Z.of_nat i `mod` 256] keyReq in
    match sgx_get_key keyReq with
    | None => Throw SgxRuntimeError
    | Some k => rest ← derive_from (S i) n keyReq; Ok (k ++ rest)
    end
  end.
Definition DeriveKey (keySizeBits : nat) (keyReq : bytes) : result KeyError bytes :=
  derive_from 0 (keySizeBits / 128) (put 2 SGX_KEYPOLICY_MRENCLAVE (put 0 SGX_KEYSELECT_SEAL keyReq)).
End seal.
End DecentRootSealKey.

(** [PlatformId::GenId]. *)
Definition GenId `{KeyCrypto} : result KeyError bytes :=
  match sgx_create_report with
  | None => Throw SgxRuntimeError
  | Some rep =>
    if isv_prod_id rep =? 0 then
      match sgx_get_key (put 2 [0; 0] (put 0 SGX_KEYSELECT_SEAL (replicate sizeof_sgx_key_request 0))) with
      | None => Throw SgxRuntimeError
      | Some key => Ok (Sha256 key)
      end
    else Throw (Exception "ProdID configured does not meet the requirement to generate platform ID")
  end.

(** ** The keyring of symmetric keys *)

Module SKeyring.
Section skeyring.
Context `{KeyCrypto}.

Record t := mk {
  m_isLocked : bool; m_rootKeyMeta : bytes; m_rootKey : bytes; m_authIDsHash : bytes; m_keyMap : gmap string bytes }.

(** The constructor; a request is generated if no meta data is given. *)
Definition construct (stack rootKeyMeta authIDsHash : bytes) : result KeyError t :=
  keyReq ← match rootKeyMeta with
           | [] => DecentRootSealKey.GenKeyRequest stack
           | _ => DecentRootSealKey.MetaToKeyReq rootKeyMeta
           end;
  rootKey ← DecentRootSealKey.DeriveKey 512 keyReq;
  Ok (mk false (DecentRootSealKey.KeyReqToMeta keyReq) rootKey authIDsHash ∅).

Definition RegisterKey (keyName : string) (keySize : Z) (kr : t) : result KeyError t :=
  if m_isLocked kr then Throw (Exception "SKeyring must remain unlocked in order to register key")
  else match m_keyMap kr !! keyName with
  | Some _ => Throw (Exception "Key name already exists.")
  | None =>
    match Hkdf keySize (m_rootKey kr) (chars keyName) (m_authIDsHash kr) with
    | None => Throw mbedTLSRuntimeError
    | Some key => Ok (mk false (m_rootKeyMeta kr) (m_rootKey kr) (m_authIDsHash kr) (<[keyName := key]> (m_keyMap kr)))
    end
  end.

Definition Lock (kr : t) : t := mk true (m_rootKeyMeta kr) (m_rootKey kr) (m_authIDsHash kr) (m_keyMap kr).

Definition GetKey (kr : t) (keyName : string) : result KeyError bytes :=
  if m_isLocked kr then
    match m_keyMap kr !! keyName with
    | Some key => Ok key
    | None => Throw (Exception ("The skey named " +:+ keyName +:+ " is not found"))
    end
  else Throw (Exception "SKeyring must be locked before getting key").

Definition GetSKey (keyBitSize : nat) (kr : t) (keyName : string) : result KeyError bytes :=
  key ← GetKey kr keyName;
  if decide (length key < keyBitSize / 8)%nat then Throw (Exception "source key size is too small.")
  else Ok (take (keyBitSize / 8) key).

(** [GetKeyHashList]; [order] is the order in which the hash table has the keys. *)
Definition GetKeyHashList (order : list (string * bytes)) (kr : t) : result KeyError bytes :=
  if m_isLocked kr then Ok (concat (map (fun p => Sha256 p.2) order))
  else Throw (Exception "SKeyring must be locked before getting key hash list").

(** Keys are registered one after another. *)
Fixpoint RegisterKeys (l : list (string * Z)) (kr : t) : result KeyError t :=
  match l with
  | [] => Ok kr
  | (name, size) :: l => kr ← RegisterKey name size kr; RegisterKeys l kr
  end.
End skeyring.
End SKeyring.


(** ** Ordered maps *)

Section ordered_map_theory.
Context {A : Type}.
Implicit Types (m : list (bytes * A)).

Definition key_lt (p q : bytes * A) : Prop := lex_compare p.1 q.1 = Lt.
Definition ordered m : Prop := StronglySorted key_lt m.

Lemma map_find_elem m key val : ordered m -> map_find m key = Some val <-> (key, val) ∈ m.
Proof.
  induction 1 as [|[k v] m Hm IH Hk]; cbn [map_find]; [split; [done|by intros ?%not_elem_of_nil]|].
  rewrite elem_of_cons. destruct (decide (k = key)) as [->|Hne].
  - split; [intros [= ->]; by left|]. intros [[= ->]|Hin]; [done|]. exfalso. rewrite Forall_forall in Hk. apply Hk in Hin.
    unfold key_lt in Hin. cbn in Hin. by rewrite (proj2 (lex_eq key key) eq_refl) in Hin.
  - rewrite IH. split; [by right|]. by intros [[= -> ->]|].
Qed.

Lemma map_emplace_elem m key val : map_find m key = None -> forall p, p ∈ map_emplace key val m <-> p = (key, val) \/ p ∈ m.
Proof.
  induction m as [|[k v] m IH]; cbn [map_find map_emplace]; intros Hf p.
  - rewrite list_elem_of_singleton. split; [by left|]. by intros [|?%not_elem_of_nil].
  - destruct (decide (k = key)); [done|]. destruct (lex_compare key k) eqn:E.
    + apply lex_eq in E. congruence.
    + by rewrite (elem_of_cons _ p (key, val)).
    + rewrite !elem_of_cons, IH by done. naive_solver.
Qed.

Lemma map_emplace_ordered m key val : ordered m -> ordered (map_emplace key val m).
Proof.
  induction 1 as [|[k v] m Hm IH Hk]; cbn [map_emplace]; [repeat constructor|].
  destruct (lex_compare key k) eqn:E.
  - by constructor.
  - constructor; [by constructor|]. constructor; [done|]. eapply Forall_impl; [exact Hk|]. intros q Hq. by eapply lex_trans.
  - assert (lex_compare k key = Lt) as Hlt by (rewrite lex_opp, E; done). constructor; [done|].
    clear IH Hm. induction m as [|[k' v'] m IHm]; cbn [map_emplace]; [by repeat constructor|].
    apply Forall_cons in Hk as [Hk1 Hk2]. destruct (lex_compare key k'); [by constructor|by repeat constructor|].
    constructor; [done|by apply IHm].
Qed.
End ordered_map_theory.

(** A list of blocks of one size is determined by its concatenation. *)
Lemma concat_blocks n (l k : list bytes) : (0 < n)%nat -> Forall (fun b => length b = n) l -> Forall (fun b => length b = n) k ->
  concat l = concat k -> l = k.
Proof.
  intros Hn Hl. revert k. induction Hl as [|b l Hb _ IH]; intros k Hk; destruct Hk as [|c k Hc Hk]; cbn; intros E.
  - done.
  - apply (f_equal length) in E. rewrite length_app in E. cbn in E. lia.
  - apply (f_equal length) in E. rewrite length_app in E. cbn in E. lia.
  - apply app_inj_1 in E as [-> E]; [|lia]. f_equal. by apply IH.
Qed.

(** ** The keyring and its threads *)

Section keyring_theory.
Context `{KL : KeyCryptoLaws}.
Import Keyring.

(** What is registered, and what threads know. *)
Record inv (s : Sys) : Prop := {
  inv_ordered : ordered (m_keyHashMap (sys_kr s));
  inv_hash : forall h key, (h, key) ∈ m_keyHashMap (sys_kr s) <-> h = GetKeySha256 key /\ Registered key ∈ threads s;
  inv_name : forall n key, m_keyNameMap (sys_kr s) !! n = Some key <-> n = GetName key /\ Registered key ∈ threads s;
  inv_mutex : forall i, m_mapMutex (sys_kr s) = Some i -> m_isLocked (sys_kr s) = false /\
    exists key, threads s !! i = Some (Register_write key);
  inv_writer : forall i key, threads s !! i = Some (Register_write key) -> m_mapMutex (sys_kr s) = Some i /\
    m_keyNameMap (sys_kr s) !! GetName key = None /\ map_find (m_keyHashMap (sys_kr s)) (GetKeySha256 key) = None;
  inv_reader : GenHashList_read ∈ threads s -> m_isLocked (sys_kr s) = true;
  inv_list : forall l, HashList l ∈ threads s -> m_isLocked (sys_kr s) = true /\ l = GenKeyHashList (sys_kr s);
  inv_race : DataRace ∉ threads s }.

Lemma elem_of_replace {A} (l : list A) i x y z : l !! i = Some x -> x <> z -> z ∈ <[i := y]> l <-> z = y \/ z ∈ l.
Proof.
  intros Hi Hx. rewrite !list_elem_of_lookup. split.
  - intros [j Hj]. destruct (decide (i = j)) as [<-|Hij].
    + rewrite list_lookup_insert_eq in Hj by (by eapply lookup_lt_Some). left. congruence.
    + rewrite list_lookup_insert_ne in Hj by done. eauto.
  - intros [->|[j Hj]].
    + exists i. apply list_lookup_insert_eq. by eapply lookup_lt_Some.
    + exists j. rewrite list_lookup_insert_ne; [done|congruence].
Qed.

Lemma classic_race th : th = DataRace \/ th <> DataRace.
Proof. destruct th; (by left) || (by right). Qed.

(** A thread whose step leaves the maps alone and registers nothing. *)
Lemma inv_other s i th th' locked : inv s -> threads s !! i = Some th ->
  (forall key, th <> Register_write key /\ th <> Registered key) -> (forall l, th <> HashList l) ->
  (forall key, th' <> Register_write key /\ th' <> Registered key) -> th' <> DataRace ->
  (locked = true \/ locked = m_isLocked (sys_kr s)) -> (locked = true -> m_isLocked (sys_kr s) = false -> m_mapMutex (sys_kr s) = None) ->
  (th' = GenHashList_read -> locked = true) -> (forall l, th' = HashList l -> locked = true /\ l = GenKeyHashList (sys_kr s)) ->
  inv (mkSys (mk locked (m_mapMutex (sys_kr s)) (m_keyNameMap (sys_kr s)) (m_keyHashMap (sys_kr s))) (<[i := th']> (threads s))).
Proof.
  intros Hi Hth N1 N2 N3 Nr Hl Hm Hg Hh. pose proof (lookup_lt_Some _ _ _ Hth) as Hlt.
  assert (forall x, x <> th -> x <> th' -> x ∈ <[i := th']> (threads s) <-> x ∈ threads s) as Hel.
  { intros x Hx Hx'. rewrite (elem_of_replace _ _ th) by congruence. split; [by intros [|]|by right]. }
  constructor; cbn [sys_kr threads m_isLocked m_mapMutex m_keyNameMap m_keyHashMap].
  - apply (inv_ordered _ Hi).
  - intros h key. rewrite Hel by (destruct (N1 key), (N3 key); congruence). apply (inv_hash _ Hi).
  - intros n key. rewrite Hel by (destruct (N1 key), (N3 key); congruence). apply (inv_name _ Hi).
  - intros j Hj. destruct (inv_mutex _ Hi j Hj) as (E & key & Hk). split.
    + destruct Hl as [->| ->]; [|done]. by rewrite (Hm eq_refl E) in Hj.
    + exists key. rewrite list_lookup_insert_ne; [done|]. intros <-. rewrite Hth in Hk. injection Hk as ->. by destruct (N1 key).
  - intros j key Hj. destruct (decide (i = j)) as [<-|Hij].
    + rewrite list_lookup_insert_eq in Hj by done. injection Hj as ->. by destruct (N3 key).
    + rewrite list_lookup_insert_ne in Hj by done. by apply (inv_writer _ Hi).
  - intros Hin. apply list_elem_of_lookup in Hin as [j Hj]. destruct (decide (i = j)) as [<-|Hij].
    + rewrite list_lookup_insert_eq in Hj by done. injection Hj as ->. by apply Hg.
    + rewrite list_lookup_insert_ne in Hj by done. apply list_elem_of_lookup_2, (inv_reader _ Hi) in Hj.
      by destruct Hl as [->| ->].
  - intros l Hin. apply list_elem_of_lookup in Hin as [j Hj]. destruct (decide (i = j)) as [<-|Hij].
    + rewrite list_lookup_insert_eq in Hj by done. injection Hj as ->. by apply Hh.
    + rewrite list_lookup_insert_ne in Hj by done. apply list_elem_of_lookup_2, (inv_list _ Hi) in Hj as [E ->].
      split; [|done]. by destruct Hl as [->| ->].
  - intros Hin. destruct (classic_race th) as [->|Hd]; [by apply (inv_race _ Hi), (list_elem_of_lookup_2 _ i)|].
    rewrite Hel in Hin by congruence. by apply (inv_race _ Hi).
Qed.

Lemma inv_init : inv (mkSys empty []).
Proof.
  constructor; cbn [sys_kr threads empty m_isLocked m_mapMutex m_keyNameMap m_keyHashMap].
  - constructor.
  - intros h key. split; [intros ?%not_elem_of_nil|intros [_ ?%not_elem_of_nil]]; done.
  - intros n key. rewrite lookup_empty. split; [done|intros [_ ?%not_elem_of_nil]; done].
  - done.
  - done.
  - by intros ?%not_elem_of_nil.
  - by intros l ?%not_elem_of_nil.
  - by intros ?%not_elem_of_nil.
Qed.

Lemma inv_spawn s th : inv s -> begins th = true -> inv (mkSys (sys_kr s) (threads s ++ [th])).
Proof.
  intros Hi Hb.
  assert (forall x, begins x = false -> x ∈ threads s ++ [th] <-> x ∈ threads s) as Hel.
  { intros x Hx. rewrite elem_of_app, list_elem_of_singleton. split; [intros [?|<-]; [done|congruence]|by left]. }
  constructor; cbn [sys_kr threads].
  - apply (inv_ordered _ Hi).
  - intros h key. rewrite Hel by done. apply (inv_hash _ Hi).
  - intros n key. rewrite Hel by done. apply (inv_name _ Hi).
  - intros j Hj. destruct (inv_mutex _ Hi j Hj) as (E & key & Hk). split; [done|]. exists key. by apply lookup_app_l_Some.
  - intros j key [Hj|[_ Hj]]%lookup_app_Some; [by apply (inv_writer _ Hi)|].
    apply list_lookup_singleton_Some in Hj as [_ ->]. done.
  - rewrite Hel by done. apply (inv_reader _ Hi).
  - intros l. rewrite Hel by done. apply (inv_list _ Hi).
  - rewrite Hel by done. apply (inv_race _ Hi).
Qed.

(** A writer starts. *)
Lemma inv_checks s i key : inv s -> threads s !! i = Some (Register key) -> m_mapMutex (sys_kr s) = None ->
  RegisterKey_checks (sys_kr s) key = Ok tt ->
  inv (mkSys (mk (m_isLocked (sys_kr s)) (Some i) (m_keyNameMap (sys_kr s)) (m_keyHashMap (sys_kr s)))
    (<[i := Register_write key]> (threads s))).
Proof.
  intros Hi Hth Hm Hc. unfold RegisterKey_checks in Hc. destruct (m_isLocked (sys_kr s)) eqn:El; [done|].
  destruct (m_keyNameMap (sys_kr s) !! GetName key) eqn:En; [done|].
  destruct (map_find (m_keyHashMap (sys_kr s)) (GetKeySha256 key)) eqn:Eh; [done|]. clear Hc.
  pose proof (lookup_lt_Some _ _ _ Hth) as Hlt.
  assert (forall x, (forall k, x <> Register k /\ x <> Register_write k) -> x ∈ <[i := Register_write key]> (threads s) <-> x ∈ threads s) as Hel.
  { intros x Hx. rewrite (elem_of_replace _ _ (Register key)) by (destruct (Hx key); congruence).
    split; [intros [->|]; [by destruct (Hx key)|done]|by right]. }
  constructor; cbn [sys_kr threads m_isLocked m_mapMutex m_keyNameMap m_keyHashMap].
  - apply (inv_ordered _ Hi).
  - intros h k. rewrite Hel by done. apply (inv_hash _ Hi).
  - intros n k. rewrite Hel by done. apply (inv_name _ Hi).
  - intros j [= <-]. split; [done|]. exists key. by apply list_lookup_insert_eq.
  - intros j k Hj. destruct (decide (i = j)) as [<-|Hij].
    + rewrite list_lookup_insert_eq in Hj by done. by injection Hj as ->.
    + rewrite list_lookup_insert_ne in Hj by done. apply (inv_writer _ Hi) in Hj as [Hj _]. congruence.
  - rewrite Hel by done. intros Hin%(inv_reader _ Hi). congruence.
  - intros l. rewrite Hel by done. intros Hin%(inv_list _ Hi). destruct Hin. congruence.
  - rewrite Hel by done. apply (inv_race _ Hi).
Qed.

(** A writer writes and is done. *)
Lemma inv_writes s i key : inv s -> threads s !! i = Some (Register_write key) ->
  inv (mkSys (RegisterKey_writes (sys_kr s) key) (<[i := Registered key]> (threads s))).
Proof.
  intros Hi Hth. destruct (inv_writer _ Hi _ _ Hth) as (Hm & Hn & Hh). destruct (inv_mutex _ Hi _ Hm) as [El _].
  pose proof (lookup_lt_Some _ _ _ Hth) as Hlt.
  assert (forall x, (forall k, x <> Register_write k) -> x ∈ <[i := Registered key]> (threads s) <-> x = Registered key \/ x ∈ threads s) as Hel.
  { intros x Hx. apply (elem_of_replace _ _ (Register_write key)); [done|]. intros <-. by apply (Hx key). }
  constructor; cbn [sys_kr threads m_isLocked m_mapMutex m_keyNameMap m_keyHashMap RegisterKey_writes].
  - apply map_emplace_ordered, (inv_ordered _ Hi).
  - intros h k. rewrite Hel, map_emplace_elem, (inv_hash _ Hi) by done. naive_solver.
  - intros n k. rewrite Hel by done. destruct (decide (n = GetName key)) as [->|Hne].
    + rewrite lookup_insert_eq. split; [intros [= ->]; eauto|]. intros [E [[= ->]|Hin]]; [done|].
      assert (m_keyNameMap (sys_kr s) !! GetName key = Some k) by (by apply (inv_name _ Hi)). congruence.
    + rewrite lookup_insert_ne, (inv_name _ Hi) by done. naive_solver.
  - done.
  - intros j k Hj. destruct (decide (i = j)) as [<-|Hij].
    + rewrite list_lookup_insert_eq in Hj by done. done.
    + rewrite list_lookup_insert_ne in Hj by done. apply (inv_writer _ Hi) in Hj as [Hj _]. congruence.
  - rewrite Hel by done. intros [?|Hin%(inv_reader _ Hi)]; congruence.
  - intros l. rewrite Hel by done. intros [?|Hin%(inv_list _ Hi)]; [done|destruct Hin; congruence].
  - rewrite Hel by done. intros [?|Hin]; [done|by apply (inv_race _ Hi)].
Qed.

Lemma mutex_locked s : inv s -> m_isLocked (sys_kr s) = true -> m_mapMutex (sys_kr s) = None.
Proof. intros Hi Hl. destruct (m_mapMutex (sys_kr s)) as [i|] eqn:E; [|done]. destruct (inv_mutex _ Hi i E). congruence. Qed.

Lemma inv_step s s' : inv s -> sys_step true s s' -> inv s'.
Proof.
  intros Hi Hs. destruct Hs as [s th Hb|s i th kr th' Hth Hg Hst]; [by apply inv_spawn|]. specialize (Hg eq_refl).
  assert (forall th'' locked, kr = mk locked (m_mapMutex (sys_kr s)) (m_keyNameMap (sys_kr s)) (m_keyHashMap (sys_kr s)) -> th' = th'' ->
    inv (mkSys (mk locked (m_mapMutex (sys_kr s)) (m_keyNameMap (sys_kr s)) (m_keyHashMap (sys_kr s))) (<[i := th'']> (threads s))) ->
    inv (mkSys kr (<[i := th']> (threads s)))) as Hred by (by intros ?? -> ->).
  assert (sys_kr s = mk (m_isLocked (sys_kr s)) (m_mapMutex (sys_kr s)) (m_keyNameMap (sys_kr s)) (m_keyHashMap (sys_kr s))) as Eta by (by destruct (sys_kr s)).
  destruct th; cbn [step] in Hst; try done.
  - destruct (m_mapMutex (sys_kr s)) as [|] eqn:Em; [done|]. destruct (RegisterKey_checks (sys_kr s) key) as [[]|e] eqn:Ec.
    + injection Hst as <- <-. by apply inv_checks.
    + injection Hst as <- <-. rewrite Eta. rewrite <- Em. apply (inv_other _ _ (Register key)); auto; done.
  - injection Hst as <- <-. by apply inv_writes.
  - injection Hst as <- <-. rewrite Eta. apply (inv_other _ _ GenHashList); auto; try done; destruct (m_isLocked (sys_kr s)) eqn:El; try done.
  - destruct (m_mapMutex (sys_kr s)) as [|] eqn:Em; [done|]. injection Hst as <- <-. rewrite <- Em. apply (inv_other _ _ GenHashList_lock); auto; done.
  - assert (m_isLocked (sys_kr s) = true) as El by (apply (inv_reader _ Hi); by apply list_elem_of_lookup_2 in Hth).
    unfold read_maps in Hst. rewrite (mutex_locked s Hi El) in Hst. injection Hst as <- <-. rewrite Eta.
    apply (inv_other _ _ GenHashList_read); auto; try done; [congruence|]. by by intros l [= <-].
  - unfold read_maps in Hst. rewrite (mutex_locked s Hi (Hg eq_refl)) in Hst. injection Hst as <- <-. rewrite Eta.
    apply (inv_other _ _ (FindName name)); auto; try done. congruence.
  - unfold read_maps in Hst. rewrite (mutex_locked s Hi (Hg eq_refl)) in Hst. injection Hst as <- <-. rewrite Eta.
    apply (inv_other _ _ (FindHash hash)); auto; try done. congruence.
Qed.

Lemma reachable_inv s : reachable true s -> inv s.
Proof.
  intros Hr. refine (rtc_ind_r (R := sys_step true) inv (mkSys empty []) inv_init _ s Hr).
  intros s1 s2 _ Hs Hi. by eapply inv_step.
Qed.

(** A thread that is done stays done. *)
Lemma done_stays g s s' i th : rtc (sys_step g) s s' -> (forall kr, step i th kr = None) -> threads s !! i = Some th -> threads s' !! i = Some th.
Proof.
  intros Hr Hd. induction Hr as [|s s1 s' Hs _ IH]; [done|]. intros Hi. apply IH.
  destruct Hs as [s th' _|s j th' kr th'' Hj _ Hst]; cbn [threads].
  - by apply lookup_app_l_Some.
  - rewrite list_lookup_insert_ne; [done|]. intros <-. assert (th' = th) as -> by congruence. by rewrite Hd in Hst.
Qed.

Lemma map_hashes s : inv s -> Forall (fun b => length b = 32%nat) (map fst (m_keyHashMap (sys_kr s))).
Proof using KL.
  intros Hi. apply Forall_fmap, Forall_forall. intros [h key] Hin. apply (inv_hash _ Hi) in Hin as [-> _]. apply Sha256_length.
Qed.

(** The list that a thread was given stays the list of all keys. *)
Lemma list_final s s' l : reachable true s -> HashList l ∈ threads s -> rtc (sys_step true) s s' ->
  inv s' /\ l = GenKeyHashList (sys_kr s').
Proof.
  intros Hr [i Hi]%list_elem_of_lookup Hs.
  assert (inv s') as Hinv by (apply reachable_inv; by eapply rtc_trans). split; [done|].
  apply (inv_list _ Hinv). by eapply list_elem_of_lookup_2, done_stays.
Qed.

Definition collides (a b : bytes) : Prop := a <> b /\ Sha256 a = Sha256 b.

(** C25. The hash of the list of keys that an enclave puts in its certificate binds
    the enclave to its keys, however its threads run, as long as keys are looked up
    only after the keyring was locked: if two enclaves' lists have the same hash, then
    every key that one of them has registered or ever will register is a key of the
    other, except for a collision of SHA-256 that the two lists or the two keys
    exhibit. *)
Theorem keyring_hash_binding s1 s1' s2 s2' l1 l2 key1 :
  reachable true s1 -> HashList l1 ∈ threads s1 -> rtc (sys_step true) s1 s1' ->
  reachable true s2 -> HashList l2 ∈ threads s2 -> rtc (sys_step true) s2 s2' ->
  Sha256 l1 = Sha256 l2 -> Registered key1 ∈ threads s1' ->
  collides l1 l2 \/ exists key2, Registered key2 ∈ threads s2' /\
    (GetPublicDer key1 = GetPublicDer key2 \/ collides (GetPublicDer key1) (GetPublicDer key2)).
Proof using KL.
  intros R1 L1 S1 R2 L2 S2 Eh Hk. destruct (list_final _ _ _ R1 L1 S1) as [I1 ->]. destruct (list_final _ _ _ R2 L2 S2) as [I2 ->].
  destruct (decide (GenKeyHashList (sys_kr s1') = GenKeyHashList (sys_kr s2'))) as [E|E]; [right|by left].
  apply (concat_blocks 32) in E; [|lia|by apply map_hashes|by apply map_hashes].
  assert (GetKeySha256 key1 ∈ map fst (m_keyHashMap (sys_kr s2'))) as Hin.
  { rewrite <- E. apply list_elem_of_fmap. exists (GetKeySha256 key1, key1). by rewrite (inv_hash _ I1). }
  apply list_elem_of_fmap in Hin as ([h key2] & Eq & Hin). apply (inv_hash _ I2) in Hin as [-> Hin].
  exists key2. split; [done|]. cbn in Eq. unfold collides. destruct (decide (GetPublicDer key1 = GetPublicDer key2)); auto.
Qed.

(** No thread reads the maps while another writes them. *)
Lemma keyring_no_race s : reachable true s -> DataRace ∉ threads s.
Proof. intros Hr. apply (inv_race _ (reachable_inv _ Hr)). Qed.

(** A key that is found by its hash is one that was registered and has the hash. *)
Lemma at_hash_ok s h key : reachable true s -> at_hash (sys_kr s) h = Ok key <-> h = GetKeySha256 key /\ Registered key ∈ threads s.
Proof.
  intros Hr. pose proof (reachable_inv _ Hr) as Hi. rewrite <- (inv_hash _ Hi), <- (map_find_elem _ _ _ (inv_ordered _ Hi)).
  unfold at_hash. destruct (map_find (m_keyHashMap (sys_kr s)) h); [|done]. split; intros [= ->]; done.
Qed.
End keyring_theory.

(** *** Lookups and registration

    A lookup does not take the mutex, so it may read the maps while a key is
    registered. *)
Lemma lookup_races `{KeyCrypto} (key : KeyringKey) (name : string) :
  exists s, Keyring.reachable false s /\ Keyring.DataRace ∈ Keyring.threads s.
Proof.
  eexists. split.
  - eapply rtc_l; [by apply (Keyring.Spawn _ _ (Keyring.Register key))|].
    eapply rtc_l; [by apply (Keyring.Spawn _ _ (Keyring.FindName name))|].
    eapply rtc_l; [by apply (Keyring.Run _ _ 0 (Keyring.Register key))|].
    eapply rtc_l; [by apply (Keyring.Run _ _ 1 (Keyring.FindName name))|]. apply rtc_refl.
  - cbn. right. by left.
Qed.

(** The first key that is checked decides for all of them. *)
Lemma registration_checked_once `{KeyCrypto} (kr : Keyring.t) (key1 key2 : KeyringKey) :
  Keyring.IsRegistered kr (Keyring.GetKeySha256 key1) = true ->
  let sk_isRegistered := (Keyring.CheckRegistration kr key1 None).1 in
  (Keyring.CheckRegistration kr key2 sk_isRegistered).2 = Ok tt.
Proof. intros E. cbn. by rewrite E. Qed.
Lemma certificate_checked_once (cs : CertStore.t) (cert1 cert2 : CertStore.Cert) :
  CertStore.IsRegistered cs (CertStore.cert_name cert1) = true ->
  let sk_isRegistered := (CertStore.CheckRegistration cs cert1 None).1 in
  (CertStore.CheckRegistration cs cert2 sk_isRegistered).2 = Ok tt.
Proof. intros E. cbn. by rewrite E. Qed.

(** A certificate is found under the name it was first registered with. *)
Lemma CertStore_Register_at cs cert cs' name : CertStore.Register cs cert = Ok cs' ->
  CertStore.at_ cs' name = if decide (name = CertStore.cert_name cert) then Ok cert else CertStore.at_ cs name.
Proof.
  unfold CertStore.Register, CertStore.at_. destruct (CertStore.IsRegistered _ _); intros [= <-]. destruct (decide _) as [->|Hne].
  - by rewrite (lookup_insert_eq cs).
  - by rewrite (lookup_insert_ne cs).
Qed.

(** ** The root key and the keys derived from it *)

Section seal_theory.
Context `{KL : KeyCryptoLaws}.
Import DecentRootSealKey SKeyring.

Lemma put_length off v req : (off + length v <= length req)%nat -> length (put off v req) = length req.
Proof. intros Hl. unfold put. rewrite !length_app, length_take, length_drop. lia. Qed.

Lemma put_length_eq off v req n : length req = n -> (off + length v <= n)%nat -> length (put off v req) = n.
Proof. intros <-. apply put_length. Qed.

Lemma put_lookup off v req i : (off + length v <= length req)%nat ->
  put off v req !! i = if decide (off <= i < off + length v)%nat then v !! (i - off)%nat else req !! i.
Proof.
  intros Hl. unfold put. destruct (decide (off <= i < off + length v)%nat) as [Hi|Hi].
  - rewrite lookup_app_r, lookup_app_l; rewrite length_take; [f_equal|..]; lia.
  - destruct (Nat.lt_ge_cases i off).
    + rewrite lookup_app_l by (rewrite length_take; lia). by apply lookup_take_lt.
    + rewrite lookup_app_r, lookup_app_r; rewrite ?length_take; [|lia..]. rewrite lookup_drop. f_equal. lia.
Qed.

Lemma le_length n v : length (le n v) = n.
Proof. revert v. induction n as [|n IH]; intros v; cbn; [done|by rewrite IH]. Qed.

(** The request for block [i] of the key: the name of the sealing key, the policy
    that binds it to the enclave's measurement and the number of the block replace
    what the meta data says; the rest is from the meta data. *)
Definition block_request (meta : bytes) (i : nat) : bytes :=
  put 64 [Z.of_nat i `mod` 256] (put 2 SGX_KEYPOLICY_MRENCLAVE (put 0 SGX_KEYSELECT_SEAL meta)).

Lemma put_put off a b req : length a = length b -> (off + length a <= length req)%nat -> put off a (put off b req) = put off a req.
Proof.
  intros Hab Hl. apply list_eq. intros i. rewrite !put_lookup by (rewrite ?put_length; lia). rewrite Hab.
  destruct (decide (off <= i < off + length b)%nat); done.
Qed.

Lemma derive_from_spec n i req key : length req = sizeof_sgx_key_request -> derive_from i n req = Ok key ->
  exists blocks, key = concat blocks /\ length blocks = n /\
    forall j block, blocks !! j = Some block -> sgx_get_key (put 64 [Z.of_nat (i + j) `mod` 256] req) = Some block.
Proof.
  revert i req key. induction n as [|n IH]; intros i req key Hl; cbn [derive_from].
  - intros [= <-]. by exists [].
  - change (40 + sk_keyIdLen)%nat with 64%nat. destruct (sgx_get_key _) as [k|] eqn:Ek; [|done].
    destruct (derive_from (S i) n _) as [rest|e] eqn:Er; [|done]. cbn. intros [= <-].
    assert (64 + 1 <= length req)%nat as Hle by (rewrite Hl; unfold sizeof_sgx_key_request; lia).
    apply IH in Er as (blocks & -> & Hn & Hb); [|by rewrite put_length]. exists (k :: blocks). split; [done|].
    split; [cbn; congruence|]. intros [|j] block; cbn [lookup list_lookup].
    + intros [= <-]. by rewrite Nat.add_0_r.
    + intros Hj%Hb. rewrite put_put in Hj by done. by rewrite Nat.add_succ_r.
Qed.

(** Whatever the meta data, every block of the key is the processor's answer for this
    enclave's measurement; blocks have requests of their own. *)
Lemma DeriveKey_spec bits meta key : length meta = sizeof_sgx_key_request -> DeriveKey bits meta = Ok key ->
  exists blocks, key = concat blocks /\ length blocks = (bits / 128)%nat /\
    forall j block, blocks !! j = Some block -> sgx_get_key (block_request meta j) = Some block.
Proof.
  intros Hl Hd. apply derive_from_spec in Hd as (blocks & -> & Hn & Hb); [by exists blocks|].
  unfold sizeof_sgx_key_request in *. by rewrite !put_length by (rewrite ?put_length; cbn; lia).
Qed.

Lemma block_request_number meta i : length meta = sizeof_sgx_key_request -> block_request meta i !! 64%nat = Some (Z.of_nat i `mod` 256).
Proof.
  unfold sizeof_sgx_key_request, block_request. intros Hl.
  rewrite put_lookup by (rewrite !put_length; cbn; rewrite ?put_length; cbn; lia). by rewrite decide_True by (cbn; lia).
Qed.
Lemma block_requests_differ meta i j : length meta = sizeof_sgx_key_request -> (i < 256)%nat -> (j < 256)%nat ->
  block_request meta i = block_request meta j -> i = j.
Proof.
  intros Hl Hi Hj E. apply (f_equal (lookup 64%nat)) in E. rewrite !block_request_number in E by done.
  injection E as E. rewrite !Z.mod_small in E by lia. lia.
Qed.

Lemma GenKeyRequest_length stack req : length stack = 32%nat -> GenKeyRequest stack = Ok req -> length req = sizeof_sgx_key_request.
Proof using KL.
  unfold GenKeyRequest. destruct sgx_create_report as [rep|] eqn:Er; [|done]. intros Hs [= <-].
  assert (length (BuildKeyId stack) = 32%nat) as Hk by (apply put_length_eq; [done|vm_compute; lia]).
  pose proof (cpu_svn_length _ Er) as Hc. unfold sizeof_sgx_key_request.
  repeat (apply put_length_eq; [|rewrite ?Hk, ?Hc, ?le_length; cbn; lia]). reflexivity.
Qed.

Lemma construct_fresh stack authIDsHash kr : length stack = 32%nat -> construct stack [] authIDsHash = Ok kr ->
  m_keyMap kr = ∅ /\ length (m_rootKeyMeta kr) = sizeof_sgx_key_request /\ DeriveKey 512 (m_rootKeyMeta kr) = Ok (m_rootKey kr).
Proof using KL.
  intros Hs Hc. unfold construct in Hc. bind_ok Hc. bind_ok Hc. injection Hc as <-. by apply GenKeyRequest_length in E.
Qed.

(** A keyring that is constructed from another's meta data has its root key. *)
Lemma construct_again stack stack' authIDsHash kr : length stack = 32%nat -> construct stack [] authIDsHash = Ok kr ->
  construct stack' (m_rootKeyMeta kr) authIDsHash = Ok kr.
Proof using KL.
  intros Hs Hc. destruct (construct_fresh _ _ _ Hs Hc) as (Em & Hl & Hd). unfold construct in *. bind_ok Hc. bind_ok Hc.
  injection Hc as <-. cbn [m_rootKeyMeta KeyReqToMeta] in *. apply result_bind_ok. exists a. split.
  - destruct a; [discriminate Hl|]. unfold MetaToKeyReq. by destruct (decide _).
  - apply result_bind_ok. by exists a0.
Qed.

(** A registration adds one key; those that were there stay. *)
Lemma RegisterKey_spec name size kr kr' : RegisterKey name size kr = Ok kr' ->
  m_isLocked kr = false /\ m_keyMap kr !! name = None /\
  exists key, Hkdf size (m_rootKey kr) (chars name) (m_authIDsHash kr) = Some key /\
    kr' = mk false (m_rootKeyMeta kr) (m_rootKey kr) (m_authIDsHash kr) (<[name := key]> (m_keyMap kr)).
Proof.
  unfold RegisterKey. destruct (m_isLocked kr); [done|]. destruct (m_keyMap kr !! name); [done|].
  destruct (Hkdf _ _ _ _) as [key|]; [|done]. intros [= <-]. split; [done|]. split; [done|]. by exists key.
Qed.

Lemma RegisterKeys_spec l kr kr' : RegisterKeys l kr = Ok kr' ->
  (forall name, name ∈ map fst l -> m_keyMap kr !! name = None) /\
  (forall name, name ∉ map fst l -> m_keyMap kr' !! name = m_keyMap kr !! name) /\
  forall name size, (name, size) ∈ l -> exists key,
    Hkdf size (m_rootKey kr) (chars name) (m_authIDsHash kr) = Some key /\ m_keyMap kr' !! name = Some key.
Proof.
  revert kr. induction l as [|[n s] l IH]; intros kr; cbn [RegisterKeys map fst].
  - intros [= ->]. split_and!; [by intros ? ?%not_elem_of_nil|done|by intros ?? ?%not_elem_of_nil].
  - destruct (RegisterKey n s kr) as [kr1|] eqn:Er; [|done]. cbn. apply RegisterKey_spec in Er as (El & En & k & Ek & ->).
    intros (Hf & Ho & Hm)%IH. cbn in Hf, Ho, Hm. split_and!.
    + intros name [->|Hin]%elem_of_cons; [done|]. apply Hf in Hin. by apply lookup_insert_None in Hin as [? _].
    + intros name [Hne Hin]%not_elem_of_cons. by rewrite Ho, (lookup_insert_ne (m_keyMap kr)).
    + intros name size [[= -> ->]|Hin]%elem_of_cons; [|by apply Hm]. exists k. split; [done|].
      rewrite Ho; [by rewrite (lookup_insert_eq (m_keyMap kr))|]. intros Hin%Hf. by rewrite (lookup_insert_eq (m_keyMap kr)) in Hin.
Qed.

(** C34. What an enclave seals with a derived key can be opened after a restart, by
    this enclave alone: if a keyring is constructed from the meta data of one that was
    constructed without, on the same processor and with the same identities, then
    once locked both give the same key for every name that was registered in both
    with the same size, in whatever order; a name that was not registered has no key.
    The root key consists of the processor's answers to requests that carry the
    sealing policy of the enclave's measurement, each with a number of its own. *)
Theorem sealed_keys_recovered stack authIDsHash kr :
  length stack = 32%nat -> construct stack [] authIDsHash = Ok kr -> forall stack', exists kr',
    construct stack' (m_rootKeyMeta kr) authIDsHash = Ok kr' /\
    (forall l l' kr1 kr2 name size bits,
      RegisterKeys l kr = Ok kr1 -> RegisterKeys l' kr' = Ok kr2 -> (name, size) ∈ l -> (name, size) ∈ l' ->
      (exists key, GetKey (Lock kr1) name = Ok key) /\ GetSKey bits (Lock kr2) name = GetSKey bits (Lock kr1) name) /\
    (forall l kr1 name, RegisterKeys l kr' = Ok kr1 -> name ∉ map fst l ->
      GetKey (Lock kr1) name = Throw (Exception ("The skey named " +:+ name +:+ " is not found"))) /\
    exists blocks, m_rootKey kr' = concat blocks /\ length blocks = 4%nat /\
      forall j block, blocks !! j = Some block ->
        length block = 16%nat /\ sgx_get_key (block_request (m_rootKeyMeta kr) j) = Some block.
Proof using KL.
  intros Hs Hc stack'. exists kr. split; [by eapply construct_again|].
  destruct (construct_fresh _ _ _ Hs Hc) as (Em & Hl & Hd).
  split_and!.
  - intros l l' kr1 kr2 name size bits (_ & _ & R1)%RegisterKeys_spec (_ & _ & R2)%RegisterKeys_spec H1 H2.
    destruct (R1 _ _ H1) as (k & K1 & E1), (R2 _ _ H2) as (k2 & K2 & E2). assert (k2 = k) as -> by congruence.
    unfold GetSKey, GetKey. cbn. rewrite E1, E2. split; [by exists k|done].
  - intros l kr1 name (_ & R & _)%RegisterKeys_spec Hn. unfold GetKey. cbn. by rewrite R, Em, lookup_empty.
  - apply DeriveKey_spec in Hd as (blocks & E & Hn & Hb); [|done]. exists blocks. split_and!; [done..|].
    intros j block Hj%Hb. split; [by eapply sgx_get_key_length|done].
Qed.

(** The meta data that the constructor takes is not checked beyond its size: the masks
    of the attributes in the requests are those of the meta data. *)
Lemma meta_attributes_unchecked meta i j : length meta = sizeof_sgx_key_request -> (24 <= j < 40)%nat ->
  MetaToKeyReq meta = Ok meta /\ block_request meta i !! j = meta !! j.
Proof.
  intros Hl Hj. unfold MetaToKeyReq, block_request. unfold sizeof_sgx_key_request in *. split; [by destruct (decide _)|].
  rewrite !put_lookup by (rewrite ?put_length; cbn; rewrite ?put_length; cbn; lia). by rewrite !decide_False by (cbn; lia).
Qed.

(** Seven bytes of the identifier are whatever the memory held. *)
Lemma key_id_rest stack i : length stack = 32%nat -> (24 <= i)%nat -> BuildKeyId stack !! i = stack !! i.
Proof.
  intros Hs Hi. unfold BuildKeyId. rewrite put_lookup by (rewrite Hs; vm_compute; lia). rewrite decide_False; [done|vm_compute; lia].
Qed.
End seal_theory.

(** ** Runs *)

(** Calls that begin and threads that run on, in a given order. *)
Fixpoint run_sched `{KeyCrypto} (l : list (Keyring.thread + nat)) (s : Keyring.Sys) : option Keyring.Sys :=
  match l with
  | [] => Some s
  | inl th :: l => if Keyring.begins th then run_sched l (Keyring.mkSys (Keyring.sys_kr s) (Keyring.threads s ++ [th])) else None
  | inr i :: l =>
    match Keyring.threads s !! i with
    | Some th =>
      if Keyring.looks_up th && negb (Keyring.m_isLocked (Keyring.sys_kr s)) then None
      else match Keyring.step i th (Keyring.sys_kr s) with
      | Some (kr, th') => run_sched l (Keyring.mkSys kr (<[i := th']> (Keyring.threads s)))
      | None => None
      end
    | None => None
    end
  end.

Lemma run_sched_rtc `{KeyCrypto} l s s' : run_sched l s = Some s' -> rtc (Keyring.sys_step true) s s'.
Proof.
  revert s. induction l as [|[th|i] l IH]; intros s; cbn [run_sched].
  - intros [= <-]. apply rtc_refl.
  - destruct (Keyring.begins th) eqn:E; [|done]. intros Hr%IH. eapply rtc_l; [by apply Keyring.Spawn|done].
  - destruct (Keyring.threads s !! i) as [th|] eqn:Ei; [|done].
    destruct (Keyring.looks_up th && negb (Keyring.m_isLocked (Keyring.sys_kr s))) eqn:Eg; [done|].
    destruct (Keyring.step i th (Keyring.sys_kr s)) as [[kr th']|] eqn:Es; [|done]. intros Hr%IH.
    eapply rtc_l; [eapply (Keyring.Run _ _ i th); [done| |exact Es]|exact Hr]. intros _ Hl. rewrite Hl in Eg. by apply negb_false_iff in Eg.
Qed.

(** A toy hash, key derivation and processor. *)
#[local] Instance toy_crypto : KeyCrypto := {|
  Sha256 := fun m => take 32 (m ++ replicate 32 0);
  Hkdf := fun n key lbl _ => Some (take (Z.to_nat (Z.max 0 n)) (lbl ++ key ++ replicate (Z.to_nat (Z.max 0 n)) 0) );
  sgx_get_key := fun req => Some (take 16 (drop 56 req ++ replicate 16 0));
  sgx_create_report := Some (mkSelfReport 1 (replicate 16 7) 0 0) |}.

Definition toy_key1 : KeyringKey := mkKey "Secp256r1" [48; 1].
Definition toy_key2 : KeyringKey := mkKey "Secp256k1" [48; 2].

#[local] Instance toy_laws : KeyCryptoLaws.
Proof.
  constructor.
  - intros m. unfold Sha256, toy_crypto. rewrite length_take, length_app, length_replicate. lia.
  - by intros rep [= <-].
  - intros req k. unfold sgx_get_key, toy_crypto. intros [= <-]. rewrite length_take, length_app. cbn [length]. lia.
Qed.

(** One enclave registers a key while another thread already asks for the list, then
    the second; the other registers them the other way round. *)
Definition toy_sched1 : list (Keyring.thread + nat) :=
  [inl (Keyring.Register toy_key1); inr 0%nat; inl Keyring.GenHashList; inr 1%nat; inl (Keyring.Register toy_key2); inr 0%nat;
   inr 2%nat; inr 2%nat; inr 1%nat; inr 1%nat].
Definition toy_sched2 : list (Keyring.thread + nat) :=
  [inl (Keyring.Register toy_key2); inr 0%nat; inr 0%nat; inl (Keyring.Register toy_key1); inr 1%nat; inr 1%nat;
   inl Keyring.GenHashList; inr 2%nat; inr 2%nat; inr 2%nat].
Definition toy_init : Keyring.Sys := Keyring.mkSys Keyring.empty [].
Definition toy_run (l : list (Keyring.thread + nat)) : Keyring.Sys := default toy_init (run_sched l toy_init).
Definition toy_list : bytes := Keyring.GenKeyHashList (Keyring.sys_kr (toy_run toy_sched1)).

Lemma toy_run_reachable l : is_Some (run_sched l toy_init) -> Keyring.reachable true (toy_run l).
Proof. intros [s Es]. apply (run_sched_rtc l). unfold toy_run. by rewrite Es. Qed.

Lemma keyring_hash_binding_witness :
  collides toy_list toy_list \/ exists key2, Keyring.Registered key2 ∈ Keyring.threads (toy_run toy_sched2) /\
    (GetPublicDer toy_key1 = GetPublicDer key2 \/ collides (GetPublicDer toy_key1) (GetPublicDer key2)).
Proof.
  apply (keyring_hash_binding (toy_run toy_sched1) (toy_run toy_sched1) (toy_run toy_sched2) (toy_run toy_sched2) toy_list toy_list toy_key1).
  - apply toy_run_reachable. vm_compute. eauto.
  - apply (list_elem_of_lookup_2 _ 1). vm_compute. reflexivity.
  - apply rtc_refl.
  - apply toy_run_reachable. vm_compute. eauto.
  - apply (list_elem_of_lookup_2 _ 2). vm_compute. reflexivity.
  - apply rtc_refl.
  - reflexivity.
  - apply (list_elem_of_lookup_2 _ 0). vm_compute. reflexivity.
Defined.

Definition toy_skeyring : SKeyring.t :=
  ok_or (SKeyring.mk false [] [] [] ∅) (SKeyring.construct (replicate 32 9) [] (replicate 32 5)).

Lemma sealed_keys_recovered_witness :
  exists kr', SKeyring.construct [] (SKeyring.m_rootKeyMeta toy_skeyring) (replicate 32 5) = Ok kr' /\
    SKeyring.GetSKey 128 (SKeyring.Lock (ok_or kr' (SKeyring.RegisterKeys [("A"%string, 16); ("B"%string, 32)] kr'))) "B" =
    SKeyring.GetSKey 128 (SKeyring.Lock (ok_or kr' (SKeyring.RegisterKeys [("B"%string, 32)] toy_skeyring))) "B".
Proof.
  destruct (sealed_keys_recovered (replicate 32 9) (replicate 32 5) toy_skeyring eq_refl) with (stack' := @nil Z) as (kr' & Ec & Hk & _).
  - vm_compute. reflexivity.
  - exists kr'. split; [exact Ec|]. assert (kr' = toy_skeyring) as -> by (vm_compute in Ec; injection Ec as <-; vm_compute; reflexivity).
    eapply (Hk [("B"%string, 32)] [("A"%string, 16); ("B"%string, 32)] _ _ "B"%string 32 128%nat).
    + vm_compute. reflexivity.
    + vm_compute. reflexivity.
    + by left.
    + right. by left.
Defined.
