(* ===== verification/Asn1Parse.v ===== *)
(** * ASN.1 DER parsing

    [libs/mbedtls/library/asn1parse.c], without the functions on big integers
    and the ones that only free memory.  A pointer is an index into the buffer
    the caller owns; a read outside of it is an outcome of its own. *)

From S2P Require Import Prelude.

(** ** Codes *)

Definition MBEDTLS_ERR_ASN1_OUT_OF_DATA : Z := -0x0060.
Definition MBEDTLS_ERR_ASN1_UNEXPECTED_TAG : Z := -0x0062.
Definition MBEDTLS_ERR_ASN1_INVALID_LENGTH : Z := -0x0064.
Definition MBEDTLS_ERR_ASN1_LENGTH_MISMATCH : Z := -0x0066.
Definition MBEDTLS_ERR_ASN1_INVALID_DATA : Z := -0x0068.
Definition MBEDTLS_ERR_ASN1_ALLOC_FAILED : Z := -0x006A.
Definition MBEDTLS_ERR_ASN1_BUF_TOO_SMALL : Z := -0x006C.

Definition MBEDTLS_ASN1_BOOLEAN : Z := 0x01.
Definition MBEDTLS_ASN1_INTEGER : Z := 0x02.
Definition MBEDTLS_ASN1_BIT_STRING : Z := 0x03.
Definition MBEDTLS_ASN1_OCTET_STRING : Z := 0x04.
Definition MBEDTLS_ASN1_NULL : Z := 0x05.
Definition MBEDTLS_ASN1_OID : Z := 0x06.
Definition MBEDTLS_ASN1_ENUMERATED : Z := 0x0A.
Definition MBEDTLS_ASN1_UTF8_STRING : Z := 0x0C.
Definition MBEDTLS_ASN1_SEQUENCE : Z := 0x10.
Definition MBEDTLS_ASN1_PRINTABLE_STRING : Z := 0x13.
Definition MBEDTLS_ASN1_IA5_STRING : Z := 0x16.
Definition MBEDTLS_ASN1_CONSTRUCTED : Z := 0x20.

(** ** The parser monad *)

(** A call stores a result and returns 0, returns another code, or reads outside
    of the buffer. *)
Inductive presult (A : Type) := Done (a : A) | Fail (ret : Z) | OutOfBounds.
Arguments Done {A}.
Arguments Fail {A}.
Arguments OutOfBounds {A}.

(** The state is [*p]. *)
Definition parser (A : Type) : Type := Z -> Z * presult A.

#[export] Instance parser_ret : MRet parser := fun _ a p => (p, Done a).
#[export] Instance parser_bind : MBind parser := fun _ _ f m p =>
  match m p with
  | (p, Done a) => f a p
  | (p, Fail r) => (p, Fail r)
  | (p, OutOfBounds) => (p, OutOfBounds)
  end.

(** [mbedtls_asn1_buf]: tag, length and content; the null pointer is [None]. *)
Record asn1_buf := mkBuf { buf_tag : Z; buf_len : Z; buf_p : option Z }.

(** [mbedtls_asn1_bitstring]. *)
Record asn1_bitstring := mkBitstring { bs_len : Z; bs_unused_bits : Z; bs_p : Z }.

Section parse.
Context (mem : bytes).

Definition fail {A} (ret : Z) : parser A := fun p => (p, Fail ret).
Definition pos : parser Z := fun p => (p, Done p).
(** [*p += k]. *)
Definition adv (k : Z) : parser unit := fun p => (p + k, Done tt).
(** The byte [k] places after [*p]. *)
Definition rd (k : Z) : parser Z := fun p =>
  if p + k <? 0 then (p, OutOfBounds)
  else match mem !! Z.to_nat (p + k) with Some b => (p, Done b) | None => (p, OutOfBounds) end.

Definition mbedtls_asn1_get_len (end_ : Z) : parser Z :=
  p ← pos;
  if end_ - p <? 1 then fail MBEDTLS_ERR_ASN1_OUT_OF_DATA
  else
    b ← rd 0;
    len ← (if Z.land b 0x80 =? 0 then adv 1 ;; mret b
           else
             let n := Z.land b 0x7F in
             if n =? 1 then
               if end_ - p <? 2 then fail MBEDTLS_ERR_ASN1_OUT_OF_DATA
               else b1 ← rd 1; adv 2 ;; mret b1
             else if n =? 2 then
               if end_ - p <? 3 then fail MBEDTLS_ERR_ASN1_OUT_OF_DATA
               else b1 ← rd 1; b2 ← rd 2; adv 3 ;; mret (Z.lor (Z.shiftl b1 8) b2)
             else if n =? 3 then
               if end_ - p <? 4 then fail MBEDTLS_ERR_ASN1_OUT_OF_DATA
               else b1 ← rd 1; b2 ← rd 2; b3 ← rd 3; adv 4 ;;
                 mret (Z.lor (Z.lor (Z.shiftl b1 16) (Z.shiftl b2 8)) b3)
             else if n =? 4 then
               if end_ - p <? 5 then fail MBEDTLS_ERR_ASN1_OUT_OF_DATA
               else b1 ← rd 1; b2 ← rd 2; b3 ← rd 3; b4 ← rd 4; adv 5 ;;
                 mret (Z.lor (Z.lor (Z.lor (Z.shiftl b1 24) (Z.shiftl b2 16)) (Z.shiftl b3 8)) b4)
             else fail MBEDTLS_ERR_ASN1_INVALID_LENGTH);
    p ← pos;
    if end_ - p <? len then fail MBEDTLS_ERR_ASN1_OUT_OF_DATA else mret len.

Definition mbedtls_asn1_get_tag (end_ tag : Z) : parser Z :=
  p ← pos;
  if end_ - p <? 1 then fail MBEDTLS_ERR_ASN1_OUT_OF_DATA
  else
    b ← rd 0;
    if negb (b =? tag) then fail MBEDTLS_ERR_ASN1_UNEXPECTED_TAG
    else adv 1 ;; mbedtls_asn1_get_len end_.

Definition mbedtls_asn1_get_bool (end_ : Z) : parser Z :=
  len ← mbedtls_asn1_get_tag end_ MBEDTLS_ASN1_BOOLEAN;
  if negb (len =? 1) then fail MBEDTLS_ERR_ASN1_INVALID_LENGTH
  else
    b ← rd 0;
    adv 1 ;; mret (if negb (b =? 0) then 1 else 0).

(** The loop over the leading zeros, at most [len] times. *)
Fixpoint skip_zeros (len : nat) : parser nat :=
  match len with
  | O => mret O
  | S l => b ← rd 0; if b =? 0 then adv 1 ;; skip_zeros l else mret len
  end.

(** The loop over the [len] bytes of the value; it is kept in an [int]. *)
Fixpoint read_int (len : nat) (val : Z) : parser Z :=
  match len with
  | O => mret val
  | S l => b ← rd 0; adv 1 ;; read_int l (Z.lor (Z.shiftl val 8) b)
  end.

(** [sizeof( int )] is 4. *)
Definition asn1_get_tagged_int (end_ tag : Z) : parser Z :=
  len ← mbedtls_asn1_get_tag end_ tag;
  if len =? 0 then fail MBEDTLS_ERR_ASN1_INVALID_LENGTH
  else
    b ← rd 0;
    if negb (Z.land b 0x80 =? 0) then fail MBEDTLS_ERR_ASN1_INVALID_LENGTH
    else
      len ← skip_zeros (Z.to_nat len);
      if 4 <? Z.of_nat len then fail MBEDTLS_ERR_ASN1_INVALID_LENGTH
      else
        big ← (if Z.of_nat len =? 4 then b ← rd 0; mret (negb (Z.land b 0x80 =? 0)) else mret false);
        if (big : bool) then fail MBEDTLS_ERR_ASN1_INVALID_LENGTH
        else read_int len 0.

Definition mbedtls_asn1_get_int (end_ : Z) : parser Z := asn1_get_tagged_int end_ MBEDTLS_ASN1_INTEGER.
Definition mbedtls_asn1_get_enum (end_ : Z) : parser Z := asn1_get_tagged_int end_ MBEDTLS_ASN1_ENUMERATED.

Definition mbedtls_asn1_get_bitstring (end_ : Z) : parser asn1_bitstring :=
  len ← mbedtls_asn1_get_tag end_ MBEDTLS_ASN1_BIT_STRING;
  if len <? 1 then fail MBEDTLS_ERR_ASN1_OUT_OF_DATA
  else
    let len := len - 1 in
    unused_bits ← rd 0;
    if 7 <? unused_bits then fail MBEDTLS_ERR_ASN1_INVALID_LENGTH
    else
      adv 1 ;;
      start ← pos;
      adv len ;;
      p ← pos;
      if negb (p =? end_) then fail MBEDTLS_ERR_ASN1_LENGTH_MISMATCH
      else mret (mkBitstring len unused_bits start).

Definition mbedtls_asn1_get_bitstring_null (end_ : Z) : parser Z :=
  len ← mbedtls_asn1_get_tag end_ MBEDTLS_ASN1_BIT_STRING;
  if len =? 0 then fail MBEDTLS_ERR_ASN1_INVALID_DATA
  else
    let len := len - 1 in
    b ← rd 0;
    if negb (b =? 0) then fail MBEDTLS_ERR_ASN1_INVALID_DATA
    else adv 1 ;; mret len.

(** ** Sequences *)

Section traverse.
(** What the callback does to its context, and what it returns. *)
Context {S : Type} (cb : option (S -> Z -> Z -> Z -> S * Z)).
Context (end_ tag_must_mask tag_must_val tag_may_mask tag_may_val : Z).

(** The context the callback has left, and the outcome. *)
Fixpoint traverse_loop (fuel : nat) (ctx : S) (p : Z) : Z * (S * presult unit) :=
  match fuel with
  | O => (p, (ctx, Done tt))
  | Datatypes.S fuel =>
    if negb (p <? end_) then (p, (ctx, Done tt))
    else
      match rd 0 p with
      | (p, Done tag) =>
        let p := p + 1 in
        if negb (Z.land tag tag_must_mask =? tag_must_val) then (p, (ctx, Fail MBEDTLS_ERR_ASN1_UNEXPECTED_TAG))
        else
          match mbedtls_asn1_get_len end_ p with
          | (p, Done len) =>
            let '(ctx, ret) :=
              if Z.land tag tag_may_mask =? tag_may_val then
                match cb with Some cb => cb ctx tag p len | None => (ctx, 0) end
              else (ctx, 0) in
            if negb (ret =? 0) then (p, (ctx, Fail ret))
            else traverse_loop fuel ctx (p + len)
          | (p, Fail r) => (p, (ctx, Fail r))
          | (p, OutOfBounds) => (p, (ctx, OutOfBounds))
          end
      | (p, Fail r) => (p, (ctx, Fail r))
      | (p, OutOfBounds) => (p, (ctx, OutOfBounds))
      end
  end.

(** Every round consumes a byte, so [end - p] rounds are enough. *)
Definition mbedtls_asn1_traverse_sequence_of (ctx : S) (p : Z) : Z * (S * presult unit) :=
  match mbedtls_asn1_get_tag end_ (Z.lor MBEDTLS_ASN1_CONSTRUCTED MBEDTLS_ASN1_SEQUENCE) p with
  | (p, Done len) =>
    if negb (p + len =? end_) then (p, (ctx, Fail MBEDTLS_ERR_ASN1_LENGTH_MISMATCH))
    else traverse_loop (Z.to_nat (end_ - p)) ctx p
  | (p, Fail r) => (p, (ctx, Fail r))
  | (p, OutOfBounds) => (p, (ctx, OutOfBounds))
  end.
End traverse.

(** The list of items grows at its end; [calloc i] says whether the [i]-th
    allocation succeeds.  The first node is the caller's. *)
Definition asn1_get_sequence_of_cb (calloc : nat -> bool) (cur : list asn1_buf) (tag start len : Z)
  : list asn1_buf * Z :=
  match cur with
  | [] => ([mkBuf tag len (Some start)], 0)
  | _ =>
    if negb (calloc (length cur)) then (cur, MBEDTLS_ERR_ASN1_ALLOC_FAILED)
    else (cur ++ [mkBuf tag len (Some start)], 0)
  end.

Definition mbedtls_asn1_get_sequence_of (calloc : nat -> bool) (end_ tag p : Z)
  : Z * (list asn1_buf * presult unit) :=
  mbedtls_asn1_traverse_sequence_of (Some (asn1_get_sequence_of_cb calloc)) end_ 0xFF tag 0 0 [] p.

(** ** Algorithm identifiers *)

Definition mbedtls_asn1_get_alg (end_ : Z) : parser (asn1_buf * asn1_buf) :=
  len ← mbedtls_asn1_get_tag end_ (Z.lor MBEDTLS_ASN1_CONSTRUCTED MBEDTLS_ASN1_SEQUENCE);
  p ← pos;
  if end_ - p <? 1 then fail MBEDTLS_ERR_ASN1_OUT_OF_DATA
  else
    alg_tag ← rd 0;
    let end_ := p + len in
    alg_len ← mbedtls_asn1_get_tag end_ MBEDTLS_ASN1_OID;
    alg_p ← pos;
    let alg := mkBuf alg_tag alg_len (Some alg_p) in
    adv alg_len ;;
    p ← pos;
    if p =? end_ then mret (alg, mkBuf 0 0 None)
    else
      params_tag ← rd 0;
      adv 1 ;;
      params_len ← mbedtls_asn1_get_len end_;
      params_p ← pos;
      adv params_len ;;
      p ← pos;
      if negb (p =? end_) then fail MBEDTLS_ERR_ASN1_LENGTH_MISMATCH
      else mret (alg, mkBuf params_tag params_len (Some params_p)).

Definition mbedtls_asn1_get_alg_null (end_ : Z) : parser asn1_buf :=
  r ← mbedtls_asn1_get_alg end_;
  let '(alg, params) := r in
  if (negb (buf_tag params =? MBEDTLS_ASN1_NULL) && negb (buf_tag params =? 0)) ||
     negb (buf_len params =? 0) then fail MBEDTLS_ERR_ASN1_INVALID_DATA
  else mret alg.
End parse.

(** ** Safety *)

(** From [p], the call ends in [Q], or returns another code; it does not read
    outside of the buffer. *)
Definition pspec {A} (m : parser A) (p : Z) (Q : Z -> A -> Prop) : Prop :=
  match m p with
  | (p', Done a) => Q p' a
  | (_, Fail _) => True
  | (_, OutOfBounds) => False
  end.

Lemma pspec_bind {A B} (m : parser A) (f : A -> parser B) p Q :
  pspec m p (fun p' a => pspec (f a) p' Q) -> pspec (a ← m; f a) p Q.
Proof. unfold pspec, mbind, parser_bind. by destruct (m p) as [p' [a|r|]]. Qed.

Lemma pspec_weaken {A} (m : parser A) p (Q R : Z -> A -> Prop) :
  pspec m p Q -> (forall p' a, Q p' a -> R p' a) -> pspec m p R.
Proof. unfold pspec. intros H HQR. destruct (m p) as [p' [a|r|]]; auto. Qed.

Lemma pspec_ret {A} (a : A) p (Q : Z -> A -> Prop) : Q p a -> pspec (mret a) p Q.
Proof. done. Qed.

Lemma pspec_fail {A} r p (Q : Z -> A -> Prop) : pspec (fail r) p Q.
Proof. done. Qed.

Lemma pspec_pos p (Q : Z -> Z -> Prop) : Q p p -> pspec pos p Q.
Proof. done. Qed.

Lemma pspec_adv k p (Q : Z -> unit -> Prop) : Q (p + k) tt -> pspec (adv k) p Q.
Proof. done. Qed.

Section safety.
Context (mem : bytes) (Hmem : all_bytes mem).

Lemma pspec_rd k p Q : 0 <= p + k < zlen mem -> (forall b, is_byte b -> Q p b) -> pspec (rd mem k) p Q.
Proof using Hmem.
  intros Hb HQ. unfold pspec, rd. rewrite (proj2 (Z.ltb_ge _ _)) by lia.
  destruct (lookup_lt_is_Some_2 mem (Z.to_nat (p + k))) as [b E]; [lia|]. rewrite E.
  apply HQ. by apply (Forall_lookup_1 _ _ _ _ Hmem E).
Qed.

(** One step of a parser. *)
Ltac pstep :=
  match goal with
  | |- pspec (mbind _ _) _ _ => apply pspec_bind
  | |- pspec (mret _) _ _ => apply pspec_ret
  | |- pspec (fail _) _ _ => exact I
  | |- pspec pos _ _ => apply pspec_pos
  | |- pspec (adv _) _ _ => apply pspec_adv
  | |- pspec (rd _ _) _ _ => apply pspec_rd; [lia|intros ? ?]
  | |- pspec (if ?a <? ?b then _ else _) _ _ => destruct (Z.ltb_spec a b)
  | |- pspec (if ?a =? ?b then _ else _) _ _ => destruct (Z.eqb_spec a b)
  | |- pspec (if negb (?a =? ?b) then _ else _) _ _ => destruct (Z.eqb_spec a b); cbn [negb]
  end.

Lemma lor_nonneg a b : 0 <= a -> 0 <= b -> 0 <= Z.lor a b.
Proof. intros. by apply Z.lor_nonneg. Qed.

Lemma shiftl_nonneg a n : 0 <= a -> 0 <= Z.shiftl a n.
Proof. intros. by apply Z.shiftl_nonneg. Qed.

Lemma get_len_safe p end_ : 0 <= p <= end_ -> end_ <= zlen mem ->
  pspec (mbedtls_asn1_get_len mem end_) p (fun p' len => p < p' /\ 0 <= len /\ p' + len <= end_).
Proof using Hmem.
  intros Hp He. unfold mbedtls_asn1_get_len. do 2 pstep. pstep; [pstep|]. do 2 pstep.
  apply pspec_bind.
  eapply (pspec_weaken _ _ (fun p' len => p < p' <= end_ /\ 0 <= len)).
  - pstep.
    { repeat pstep. unfold fits in *. lia. }
    repeat pstep; unfold fits in *; (split; [lia|]); repeat apply lor_nonneg; try apply shiftl_nonneg; lia.
  - intros p' len [Hp' Hl]. repeat pstep. lia.
Qed.

Lemma get_tag_safe p end_ tag : 0 <= p <= end_ -> end_ <= zlen mem ->
  pspec (mbedtls_asn1_get_tag mem end_ tag) p (fun p' len => p < p' /\ 0 <= len /\ p' + len <= end_).
Proof using Hmem.
  intros Hp He. unfold mbedtls_asn1_get_tag. repeat pstep.
  eapply pspec_weaken; [apply get_len_safe; lia|]. cbn. intros p' len Hl. lia.
Qed.

(** The other parsers stay within the element. *)
Definition stays (p end_ p' : Z) : Prop := p < p' <= end_.

Lemma get_bool_safe p end_ : 0 <= p <= end_ -> end_ <= zlen mem ->
  pspec (mbedtls_asn1_get_bool mem end_) p (fun p' val => stays p end_ p' /\ (val = 0 \/ val = 1)).
Proof using Hmem.
  intros Hp He. unfold mbedtls_asn1_get_bool. pstep.
  eapply pspec_weaken; [by apply get_tag_safe|]. cbn. intros p' len Hl. repeat pstep. unfold stays.
  split; [lia|]. destruct (negb _); auto.
Qed.

Lemma skip_zeros_safe p len end_ : 0 <= p -> p + Z.of_nat len <= end_ -> end_ <= zlen mem ->
  pspec (skip_zeros mem len) p (fun p' len' => p <= p' /\ p' + Z.of_nat len' = p + Z.of_nat len).
Proof using Hmem.
  revert p. induction len as [|len IH]; intros p Hp Hl He; cbn [skip_zeros]; [by apply pspec_ret|].
  do 2 pstep. pstep.
  - do 2 pstep. eapply pspec_weaken; [apply IH; lia|]. cbn. lia.
  - pstep. lia.
Qed.

Lemma read_int_safe p len v end_ : 0 <= p -> p + Z.of_nat len <= end_ -> end_ <= zlen mem ->
  fits 31 (v * 256 ^ Z.of_nat len + (256 ^ Z.of_nat len - 1)) -> 0 <= v ->
  pspec (read_int mem len v) p (fun p' val => p' = p + Z.of_nat len /\ fits 31 val).
Proof using Hmem.
  revert p v. induction len as [|len IH]; intros p v Hp Hl He Hv Hv0; cbn [read_int].
  { apply pspec_ret. split; [lia|]. change (256 ^ Z.of_nat 0) with 1 in Hv. unfold fits in *. lia. }
  repeat pstep. rewrite lor_shiftl_add by (done || lia). change (2 ^ 8) with 256.
  assert (0 < 256 ^ Z.of_nat len) by (apply Z.pow_pos_nonneg; lia).
  eapply pspec_weaken; [apply IH; try lia|]; unfold fits in *; [|nia|cbn; intros; lia].
  rewrite Nat2Z.inj_succ, Z.pow_succ_r in Hv by lia. change (2 ^ 8) with 256 in *. nia.
Qed.

Lemma pspec_if {A} (b : bool) (m n : parser A) p Q :
  (b = true -> pspec m p Q) -> (b = false -> pspec n p Q) -> pspec (if b then m else n) p Q.
Proof. destruct b; auto. Qed.

Lemma sign_bit_clear b : is_byte b -> negb (Z.land b 0x80 =? 0) = false -> fits 7 b.
Proof.
  unfold fits. intros Hb E. apply negb_false_iff, Z.eqb_eq in E. split; [lia|].
  destruct (Z.lt_ge_cases b (2 ^ 7)) as [|Hge]; [done|].
  exfalso. assert (Ht : Z.testbit (Z.land b 0x80) 7 = true); [|by rewrite E in Ht].
  rewrite Z.land_spec. apply andb_true_iff. split; [|reflexivity].
  rewrite Z.testbit_true by lia. change (2 ^ 7) with 128 in *. change (2 ^ 8) with 256 in *.
  assert (b / 128 = 1) as ->; [|done]. symmetry. apply (Z.div_unique b 128 1 (b - 128)); lia.
Qed.

Lemma tagged_int_safe p end_ tag : 0 <= p <= end_ -> end_ <= zlen mem ->
  pspec (asn1_get_tagged_int mem end_ tag) p (fun p' val => stays p end_ p' /\ fits 31 val).
Proof using Hmem.
  intros Hp He. unfold asn1_get_tagged_int. pstep.
  eapply pspec_weaken; [by apply get_tag_safe|]. cbn. intros p1 len Hl. pstep; [done|].
  do 2 pstep. pstep; [|done]. pstep.
  eapply pspec_weaken; [apply (skip_zeros_safe _ _ (p1 + len)); lia|]. cbn. intros p2 len2 [Hp2 Hl2].
  pstep; [done|]. unfold stays. apply pspec_bind.
  apply (pspec_weaken _ _ (fun p' big => p' = p2 /\
    (big = false -> Z.of_nat len2 = 4 -> exists b, mem !! Z.to_nat p2 = Some b /\ fits 7 b))).
  - pstep; [|pstep; split; [done|lia]]. apply pspec_bind.
    destruct (lookup_lt_is_Some_2 mem (Z.to_nat p2)) as [c Ec]; [lia|].
    unfold pspec, rd. rewrite (proj2 (Z.ltb_ge _ _)) by lia. rewrite Z.add_0_r, Ec. cbn.
    split; [done|]. intros Hb _. exists c. split; [done|]. apply sign_bit_clear; [|done].
    by apply (Forall_lookup_1 _ _ _ _ Hmem Ec).
  - intros p' big [-> Hb]. apply pspec_if; intros ->; [done|]. specialize (Hb eq_refl).
    apply (pspec_weaken _ _ (fun p' val => p' = p2 + Z.of_nat len2 /\ fits 31 val));
      [|intros p' val [-> ?]; split; [lia|done]].
    destruct (Z.eq_dec (Z.of_nat len2) 4) as [E4|N4].
    + destruct (Hb E4) as [c [Eb Hb7]]. destruct len2 as [|len3]; [done|]. cbn [read_int]. apply pspec_bind.
      unfold pspec at 1, rd. rewrite (proj2 (Z.ltb_ge _ _)) by lia. rewrite Z.add_0_r, Eb. do 2 pstep.
      change (Z.lor (Z.shiftl 0 8) c) with c.
      eapply pspec_weaken; [apply (read_int_safe _ _ _ (p1 + len)); try lia|].
      3: { intros p' val [-> ?]. split; [lia|done]. }
      * replace (Z.of_nat len3) with 3 by lia. change (256 ^ 3) with 16777216. unfold fits in *.
        change (2 ^ 7) with 128 in *. change (2 ^ 31) with 2147483648. lia.
      * unfold fits in *. lia.
    + apply (read_int_safe _ _ _ (p1 + len)); try lia.
      assert (Z.of_nat len2 = 0 \/ Z.of_nat len2 = 1 \/ Z.of_nat len2 = 2 \/ Z.of_nat len2 = 3) as [-> | [-> | [-> | ->]]]
        by lia; unfold fits; cbv; split; congruence.
Qed.

Lemma bitstring_safe p end_ : 0 <= p <= end_ -> end_ <= zlen mem ->
  pspec (mbedtls_asn1_get_bitstring mem end_) p (fun p' bs =>
    p' = end_ /\ p < bs_p bs /\ 0 <= bs_len bs /\ bs_p bs + bs_len bs = end_ /\ 0 <= bs_unused_bits bs <= 7).
Proof using Hmem.
  intros Hp He. unfold mbedtls_asn1_get_bitstring. pstep.
  eapply pspec_weaken; [by apply get_tag_safe|]. cbn. intros p' len Hl. repeat pstep; try done.
  cbn. unfold fits in *. lia.
Qed.

Lemma bitstring_null_safe p end_ : 0 <= p <= end_ -> end_ <= zlen mem ->
  pspec (mbedtls_asn1_get_bitstring_null mem end_) p (fun p' len => stays p end_ p' /\ 0 <= len /\ p' + len <= end_).
Proof using Hmem.
  intros Hp He. unfold mbedtls_asn1_get_bitstring_null. pstep.
  eapply pspec_weaken; [by apply get_tag_safe|]. cbn. intros p' len Hl. repeat pstep; try done.
  unfold stays. lia.
Qed.

(** An element the parser returns lies between two positions of the buffer. *)
Definition buf_within (lo hi : Z) (b : asn1_buf) : Prop :=
  match buf_p b with
  | Some q => lo <= q /\ 0 <= buf_len b /\ q + buf_len b <= hi
  | None => buf_len b = 0
  end.

Lemma get_alg_safe p end_ : 0 <= p <= end_ -> end_ <= zlen mem ->
  pspec (mbedtls_asn1_get_alg mem end_) p (fun p' r =>
    stays p end_ p' /\ buf_within p p' r.1 /\ buf_within p p' r.2).
Proof using Hmem.
  intros Hp He. unfold mbedtls_asn1_get_alg. pstep.
  eapply pspec_weaken; [by apply get_tag_safe|]. cbn. intros p1 len Hl. do 2 pstep. pstep; [done|].
  do 3 pstep. eapply pspec_weaken; [apply get_tag_safe; lia|]. cbn. intros p2 alen Hal.
  do 6 pstep. pstep.
  { pstep. unfold stays, buf_within. cbn. lia. }
  do 5 pstep. eapply pspec_weaken; [apply get_len_safe; lia|]. cbn. intros p3 plen Hpl.
  repeat pstep. unfold stays, buf_within. cbn. lia.
Qed.

(** *** The traversal *)

Section traverse_safe.
Context {S : Type} (cb : option (S -> Z -> Z -> Z -> S * Z)) (Inv : S -> Prop).
Context (end_ must_mask must_val may_mask may_val lo : Z).
(** The callback keeps its invariant when what it gets is inside the sequence
    and has a tag the masks select. *)
Context (Hcb : forall f ctx tag start len, cb = Some f -> Inv ctx -> is_byte tag ->
  Z.land tag must_mask = must_val -> Z.land tag may_mask = may_val ->
  lo <= start -> 0 <= len -> start + len <= end_ -> Inv (f ctx tag start len).1).

Definition traverse_post (r : Z * (S * presult unit)) : Prop :=
  Inv (r.2).1 /\ match (r.2).2 with Done _ => r.1 = end_ | Fail _ => True | OutOfBounds => False end.

Lemma traverse_loop_safe fuel ctx p : 0 <= lo <= p -> p <= end_ -> end_ <= zlen mem ->
  (Z.to_nat (end_ - p) <= fuel)%nat -> Inv ctx ->
  traverse_post (traverse_loop mem cb end_ must_mask must_val may_mask may_val fuel ctx p).
Proof using Hmem Hcb.
  revert ctx p. induction fuel as [|fuel IH]; intros ctx p Hlo Hp He Hf HI; cbn [traverse_loop].
  { split; [done|]. cbn. lia. }
  destruct (Z.ltb_spec p end_) as [Hlt|Hge]; cbn [negb]; [|split; [done|cbn; lia]].
  destruct (lookup_lt_is_Some_2 mem (Z.to_nat p)) as [tag Et]; [lia|].
  unfold rd at 1. rewrite (proj2 (Z.ltb_ge _ _)) by lia. rewrite Z.add_0_r, Et.
  assert (Ht : is_byte tag) by (by apply (Forall_lookup_1 _ _ _ _ Hmem Et)).
  destruct (Z.eqb_spec (Z.land tag must_mask) must_val) as [Em|]; cbn [negb]; [|done].
  assert (Hlen := get_len_safe (p + 1) end_ ltac:(lia) He). unfold pspec in Hlen.
  destruct (mbedtls_asn1_get_len mem end_ (p + 1)) as [p1 [len|r|]]; [|done..].
  destruct (Z.eqb_spec (Z.land tag may_mask) may_val) as [Ey|].
  - destruct cb as [f|] eqn:Ecb; cbn [negb]; [|apply IH; (done || lia)].
    assert (HI' := Hcb f ctx tag p1 len eq_refl HI Ht Em Ey ltac:(lia) ltac:(lia) ltac:(lia)).
    destruct (f ctx tag p1 len) as [ctx' ret]. cbn in HI'.
    destruct (Z.eqb_spec ret 0); cbn [negb]; [apply IH; (done || lia)|done].
  - cbn [negb]. apply IH; (done || lia).
Qed.

Lemma traverse_safe ctx p : 0 <= lo <= p -> p <= end_ -> end_ <= zlen mem -> Inv ctx ->
  traverse_post (mbedtls_asn1_traverse_sequence_of mem cb end_ must_mask must_val may_mask may_val ctx p).
Proof using Hmem Hcb.
  intros Hlo Hp He HI. unfold mbedtls_asn1_traverse_sequence_of.
  assert (Ht := get_tag_safe p end_ (Z.lor MBEDTLS_ASN1_CONSTRUCTED MBEDTLS_ASN1_SEQUENCE) ltac:(lia) He).
  unfold pspec in Ht. destruct (mbedtls_asn1_get_tag mem end_ _ p) as [p1 [len|r|]]; [|done..].
  destruct (Z.eqb_spec (p1 + len) end_); cbn [negb]; [|done]. apply traverse_loop_safe; (done || lia).
Qed.
End traverse_safe.

Lemma sequence_of_safe calloc p end_ tag : 0 <= p <= end_ -> end_ <= zlen mem ->
  traverse_post (Forall (fun b => buf_tag b = tag /\ buf_p b <> None /\ buf_within p end_ b)) end_
    (mbedtls_asn1_get_sequence_of mem calloc end_ tag p).
Proof using Hmem.
  intros Hp He. unfold mbedtls_asn1_get_sequence_of. apply traverse_safe with (lo := p); [|lia..|done].
  intros f ctx tag' start len [= <-] HI Hb Hm _ Hs Hl Hsl.
  assert (tag' = tag) as ->.
  { rewrite <- Hm. change 0xFF with (Z.ones 8). rewrite Z.land_ones by lia. unfold fits in Hb.
    by rewrite Z.mod_small. }
  assert (Hnew : buf_tag (mkBuf tag len (Some start)) = tag /\ buf_p (mkBuf tag len (Some start)) <> None /\
                 buf_within p end_ (mkBuf tag len (Some start)))
    by (unfold buf_within; cbn; repeat split; (done || lia)).
  unfold asn1_get_sequence_of_cb. destruct ctx as [|c ctx]; [by apply Forall_singleton|].
  destruct (calloc _); cbn [negb fst]; [|done]. apply Forall_app. split; [done|]. by apply Forall_singleton.
Qed.
End safety.

(** Memory safety of the DER parser: for whatever bytes between [p] and
    [end], no parser of the module reads outside of the buffer, and when one
    succeeds it has consumed at least a byte and has not passed [end], what it
    says is the content lies before [end], an integer fits a non-negative
    [int], a bit string has at most 7 unused bits and ends where the buffer
    does, and a sequence is split into elements of the wanted tag that all lie
    inside of it. *)
Theorem asn1_parse_safety (calloc : nat -> bool) (mem : bytes) (p end_ tag : Z) :
  all_bytes mem -> 0 <= p <= end_ -> end_ <= zlen mem ->
  pspec (mbedtls_asn1_get_tag mem end_ tag) p (fun p' len => p < p' /\ 0 <= len /\ p' + len <= end_) /\
  pspec (mbedtls_asn1_get_bool mem end_) p (fun p' val => stays p end_ p' /\ (val = 0 \/ val = 1)) /\
  pspec (mbedtls_asn1_get_int mem end_) p (fun p' val => stays p end_ p' /\ fits 31 val) /\
  pspec (mbedtls_asn1_get_enum mem end_) p (fun p' val => stays p end_ p' /\ fits 31 val) /\
  pspec (mbedtls_asn1_get_bitstring mem end_) p (fun p' bs =>
    p' = end_ /\ p < bs_p bs /\ 0 <= bs_len bs /\ bs_p bs + bs_len bs = end_ /\ 0 <= bs_unused_bits bs <= 7) /\
  pspec (mbedtls_asn1_get_bitstring_null mem end_) p (fun p' len => stays p end_ p' /\ 0 <= len /\ p' + len <= end_) /\
  pspec (mbedtls_asn1_get_alg mem end_) p (fun p' r =>
    stays p end_ p' /\ buf_within p p' r.1 /\ buf_within p p' r.2) /\
  traverse_post (Forall (fun b => buf_tag b = tag /\ buf_p b <> None /\ buf_within p end_ b)) end_
    (mbedtls_asn1_get_sequence_of mem calloc end_ tag p).
Proof.
  intros Hmem Hp He.
  repeat split_and; [by apply get_tag_safe|by apply get_bool_safe|by apply tagged_int_safe|by apply tagged_int_safe|
    by apply bitstring_safe|by apply bitstring_null_safe|by apply get_alg_safe|by apply sequence_of_safe].
Qed.

Lemma asn1_parse_safety_witness :
  mbedtls_asn1_get_sequence_of [0x30; 6; 2; 1; 5; 2; 1; 7] (fun _ => true) 8 MBEDTLS_ASN1_INTEGER 0 =
    (8, ([mkBuf 2 1 (Some 4); mkBuf 2 1 (Some 7)], Done tt)) /\
  traverse_post (Forall (fun b => buf_tag b = 2 /\ buf_p b <> None /\ buf_within 0 8 b)) 8
    (mbedtls_asn1_get_sequence_of [0x30; 6; 2; 1; 5; 2; 1; 7] (fun _ => true) 8 2 0).
Proof.
  split; [reflexivity|].
  refine (proj2 (proj2 (proj2 (proj2 (proj2 (proj2 (proj2
    (asn1_parse_safety (fun _ => true) [0x30; 6; 2; 1; 5; 2; 1; 7] 0 8 2 _ _ _)))))))).
  - repeat constructor; done.
  - done.
  - done.
Defined.
