(* ===== verification/Abi.v ===== *)
(** * The contract ABI parser

    [EclipseMonitor/Eth/AbiParser.hpp]: the data of contract events, for every
    nesting of the types the parser supports.  An iterator is the list of the
    bytes between it and the end of the input. *)

From stdpp Require Import strings.
From S2P Require Import Prelude RlpEncoding RlpDecoding Bloom EthHeader.

Module AbiParserConst.
Definition sk_chunkSize : Z := 32.
End AbiParserConst.

Definition length_error : Error := FromStd "vector::reserve".
Definition abi_error (what : string) : Error := FromMonitor (Exception what).
Definition end_of_input : Error := abi_error "ABI parser - unexpected end of input".

(** ** Types and values *)

(** [RealNumType], as far as [RealNumTypeTraits] is defined for it. *)
Inductive RealNumType := UInt8 | UInt16 | UInt32 | UInt64.

(** [sizeof] the primitive type. *)
Definition sk_consumedSize (t : RealNumType) : nat :=
  match t with UInt8 => 1 | UInt16 => 2 | UInt32 => 4 | UInt64 => 8 end.

(** The instances of [AbiParser]: integers, [bool], [bytes<M>], [bytes],
    [T[k]] and [T[]]. *)
Inductive AbiType :=
| AInteger (t : RealNumType)
| ABool
| ABytesFixed (size : Z)
| ABytes
| AListFixed (item : AbiType) (size : Z)
| AList (item : AbiType).

(** The [Primitive]s. *)
Inductive AbiValue :=
| VInt (z : Z)
| VBool (b : bool)
| VBytes (b : bytes)
| VList (l : list AbiValue).

(** Whether the type has a tail. *)
Fixpoint sk_hasTail (ty : AbiType) : bool :=
  match ty with
  | AInteger _ | ABool | ABytesFixed _ => false
  | ABytes | AList _ => true
  | AListFixed item _ => sk_hasTail item
  end.

(** ** Utilities *)

Definition AbiCeilingDiv (a b : Z) : Z := u64 (a + u64 (b - 1)) / b.

Fixpoint AbiParserSkipPadding (checkVal : bool) (skipLen : Z) (begin : bytes) : result Error bytes :=
  if skipLen <=? 0 then Ok begin
  else match begin with
       | [] => Throw end_of_input
       | b :: rest =>
         if checkVal && negb (b =? 0) then
           Throw (abi_error "ABI parser - there are non-zero bytes in skipped bytes")
         else AbiParserSkipPadding checkVal (skipLen - 1) rest
       end.

(** The bytes written to [dest], and the iterator. *)
Fixpoint AbiParserCopyBytes (len : Z) (begin : bytes) : result Error (bytes * bytes) :=
  if len <=? 0 then Ok ([], begin)
  else match begin with
       | [] => Throw end_of_input
       | b :: rest => '(dest, rest) ← AbiParserCopyBytes (len - 1) rest; Ok (b :: dest, rest)
       end.

Definition AbiParserCopyBytesThenSkip (checkVal : bool) (copyLen skipLen : Z) (begin : bytes)
  : result Error (bytes * bytes) :=
  '(dest, begin) ← AbiParserCopyBytes copyLen begin;
  begin ← AbiParserSkipPadding checkVal skipLen begin;
  Ok (dest, begin).

Definition AbiWithinChunkSize (size : Z) : result Error Z :=
  if size <=? AbiParserConst.sk_chunkSize then Ok size
  else Throw (abi_error "ABI parser - bytes type is too large").

(** ** Codecs *)

(** What a parser returns: the value, the iterator where it stopped, and the
    number of chunks it consumed. *)
Definition parsed (A : Type) : Type := A * bytes * Z.

(** The lambda that feeds the integer parser. *)
Definition next_byte (begin : bytes) : result Error (Z * bytes) :=
  match begin with
  | [] => Throw end_of_input
  | b :: rest => Ok (b, rest)
  end.

Definition Integer_ToPrimitive (t : RealNumType) (begin : bytes) : result Error (parsed Z) :=
  let size := Z.of_nat (sk_consumedSize t) in
  begin ← AbiParserSkipPadding true (AbiParserConst.sk_chunkSize - size) begin;
  '(res, begin) ← ParsePrimitiveIntValue.Parse next_byte (sk_consumedSize t) true size begin;
  Ok (res, begin, 1).

Definition Bool_ToPrimitive (begin : bytes) : result Error (parsed bool) :=
  '(valInt, begin, chunkConsumed) ← Integer_ToPrimitive UInt8 begin;
  valBool ← (if valInt =? 1 then Ok true else if valInt =? 0 then Ok false
             else Throw (abi_error "ABI parser - invalid bool value"));
  Ok (valBool, begin, chunkConsumed).

Section codecs.
Context `{Allocator}.

(** Room for [n] values of a type: the strings and lists in a vector are vectors
    themselves, of three words, and a vector of [bool] packs them. *)
Definition vec_room (ty : AbiType) (n : Z) : bool :=
  match ty with
  | AInteger t => reserve (Z.of_nat (sk_consumedSize t) * n)
  | ABool => (n <? 2 ^ 63) && reserve ((n + 7) / 8)
  | ABytesFixed _ | ABytes | AListFixed _ _ | AList _ => reserve (24 * n)
  end.

Definition BytesFixed_ToPrimitive (m_size : Z) (begin : bytes) : result Error (parsed bytes) :=
  if negb (reserve m_size) then Throw length_error
  else
    '(res, begin) ← AbiParserCopyBytesThenSkip true m_size (AbiParserConst.sk_chunkSize - m_size) begin;
    Ok (res, begin, 1).

Definition Bytes_ToPrimitive (begin : bytes) : result Error (parsed bytes) :=
  '(len, begin, chunkConsumed) ← Integer_ToPrimitive UInt64 begin;
  let numChunk := AbiCeilingDiv len AbiParserConst.sk_chunkSize in
  let paddingSize := u64 (u64 (numChunk * AbiParserConst.sk_chunkSize) - len) in
  if negb (reserve len) then Throw length_error
  else
    '(res, begin) ← AbiParserCopyBytesThenSkip true len paddingSize begin;
    Ok (res, begin, u64 (chunkConsumed + numChunk)).

Section lists.
(** The parser of one item, or of its tail, and the room for the items. *)
Context (item : bytes -> result Error (parsed AbiValue)) (itemRoom : Z -> bool).

Fixpoint items_loop (n : nat) (begin : bytes) (totalChunkConsumed : Z) : result Error (parsed (list AbiValue)) :=
  match n with
  | O => Ok ([], begin, totalChunkConsumed)
  | S n =>
    '(v, begin, chunkConsumed) ← item begin;
    '(res, begin, totalChunkConsumed) ← items_loop n begin (u64 (totalChunkConsumed + chunkConsumed));
    Ok (v :: res, begin, totalChunkConsumed)
  end.

(** Items without a tail. *)
Definition ListStatic_ToPrimitive (size : Z) (begin : bytes) : result Error (parsed (list AbiValue)) :=
  if negb (itemRoom size) then Throw length_error
  else items_loop (Z.to_nat size) begin 0.

Fixpoint heads_loop (n : nat) (begin : bytes) (totalChunkConsumed : Z) : result Error (parsed (list Z)) :=
  match n with
  | O => Ok ([], begin, totalChunkConsumed)
  | S n =>
    '(head, begin, chunkConsumed) ← Integer_ToPrimitive UInt64 begin;
    '(heads, begin, totalChunkConsumed) ← heads_loop n begin (u64 (totalChunkConsumed + chunkConsumed));
    Ok (head :: heads, begin, totalChunkConsumed)
  end.

Fixpoint tails_loop (heads : list Z) (begin : bytes) (totalChunkConsumed : Z)
  : result Error (parsed (list AbiValue)) :=
  match heads with
  | [] => Ok ([], begin, totalChunkConsumed)
  | head :: heads =>
    let bytesConsumed := u64 (totalChunkConsumed * AbiParserConst.sk_chunkSize) in
    if negb (head =? bytesConsumed) then Throw (abi_error "ABI parser - invalid offset")
    else
      '(v, begin, chunkConsumed) ← item begin;
      '(res, begin, totalChunkConsumed) ← tails_loop heads begin (u64 (totalChunkConsumed + chunkConsumed));
      Ok (v :: res, begin, totalChunkConsumed)
  end.

(** Items with a tail: all the heads come first, in a vector of their own. *)
Definition ListDynamic_ToPrimitive (size : Z) (begin : bytes) : result Error (parsed (list AbiValue)) :=
  if negb (vec_room (AInteger UInt64) size) then Throw length_error
  else
    '(heads, begin, totalChunkConsumed) ← heads_loop (Z.to_nat size) begin 0;
    if negb (itemRoom size) then Throw length_error
    else tails_loop heads begin totalChunkConsumed.

Definition List_ToPrimitive (hasTail : bool) (size : Z) (begin : bytes) : result Error (parsed (list AbiValue)) :=
  if hasTail then ListDynamic_ToPrimitive size begin else ListStatic_ToPrimitive size begin.

(** The lists with their length in front. *)
Definition ListSized_ToPrimitive (hasTail : bool) (begin : bytes) : result Error (parsed (list AbiValue)) :=
  '(len, begin, chunkConsumed) ← Integer_ToPrimitive UInt64 begin;
  let totalChunkConsumed := u64 (0 + chunkConsumed) in
  '(res, begin, chunkConsumed) ← List_ToPrimitive hasTail len begin;
  Ok (res, begin, u64 (totalChunkConsumed + chunkConsumed)).
End lists.

Definition as_value {A} (f : A -> AbiValue) (r : result Error (parsed A)) : result Error (parsed AbiValue) :=
  '(v, begin, chunkConsumed) ← r; Ok (f v, begin, chunkConsumed).

(** [AbiCodecImpl]. *)
Fixpoint Codec_ToPrimitive (ty : AbiType) (begin : bytes) : result Error (parsed AbiValue) :=
  match ty with
  | AInteger t => as_value VInt (Integer_ToPrimitive t begin)
  | ABool => as_value VBool (Bool_ToPrimitive begin)
  | ABytesFixed size => as_value VBytes (BytesFixed_ToPrimitive size begin)
  | ABytes => as_value VBytes (Bytes_ToPrimitive begin)
  | AListFixed item size => as_value VList (List_ToPrimitive (Codec_ToPrimitive item) (vec_room item) (sk_hasTail item) size begin)
  | AList item => as_value VList (ListSized_ToPrimitive (Codec_ToPrimitive item) (vec_room item) (sk_hasTail item) begin)
  end.

(** ** The parsers *)

(** [AbiParserHeadOnlyTypes]. *)
Definition HeadOnly_ToPrimitive (ty : AbiType) (begin : bytes) : result Error (AbiValue * bytes) :=
  '(v, begin, _) ← Codec_ToPrimitive ty begin; Ok (v, begin).

(** [AbiParserHeadTailTypes]: the head is an offset from [blockBegin], [None] an
    iterator past the end. *)
Definition HeadTail_ToPrimitive (ty : AbiType) (begin : bytes) (blockBegin : option bytes)
  : result Error (AbiValue * bytes) :=
  '(offset, headEnd, _) ← Integer_ToPrimitive UInt64 begin;
  match blockBegin with
  | None => Throw (abi_error "ABI parser - invalid block begin iterator")
  | Some block =>
    if zlen block <? offset then Throw (abi_error "ABI parser - the input is too short")
    else
      '(res, _, _) ← Codec_ToPrimitive ty (drop (Z.to_nat offset) block);
      Ok (res, headEnd)
  end.

(** [AbiHeadTailTypesSelector] and [AbiParser]. *)
Definition AbiParser_ToPrimitive (ty : AbiType) (begin : bytes) (blockBegin : option bytes)
  : result Error (AbiValue * bytes) :=
  if sk_hasTail ty then HeadTail_ToPrimitive ty begin blockBegin else HeadOnly_ToPrimitive ty begin.
End codecs.

(** ** The encoding of the contract ABI *)

(** A value of a type. *)
Fixpoint has_type (ty : AbiType) (v : AbiValue) : Prop :=
  match ty, v with
  | AInteger t, VInt z => fits (8 * Z.of_nat (sk_consumedSize t)) z
  | ABool, VBool _ => True
  | ABytesFixed size, VBytes b => all_bytes b /\ zlen b = size
  | ABytes, VBytes b => all_bytes b
  | AListFixed item size, VList l => zlen l = size /\ Forall (has_type item) l
  | AList item, VList l => Forall (has_type item) l
  | _, _ => False
  end.

(** The parameters of a type are in range. *)
Fixpoint wf_type (ty : AbiType) : Prop :=
  match ty with
  | ABytesFixed size => 0 < size <= AbiParserConst.sk_chunkSize
  | AListFixed item size => 0 <= size /\ wf_type item
  | AList item => wf_type item
  | _ => True
  end.

(** There is room for the vectors of a list: the heads, if there are any, and the
    items. *)
Definition list_room `{Allocator} (hasTail : bool) (itemRoom : Z -> bool) (n : Z) : bool :=
  implb hasTail (vec_room (AInteger UInt64) n) && itemRoom n.

(** There is room for the vectors of a value. *)
Fixpoint room `{Allocator} (ty : AbiType) (v : AbiValue) : Prop :=
  match ty, v with
  | ABytesFixed _, VBytes b | ABytes, VBytes b => reserve (zlen b) = true
  | AListFixed item _, VList l | AList item, VList l => list_room (sk_hasTail item) (vec_room item) (zlen l) = true /\ Forall (room item) l
  | _, _ => True
  end.

(** A 256-bit word. *)
Definition word (z : Z) : bytes := be_bytes 32 z.

Definition padding (n : Z) : bytes := replicate (Z.to_nat ((- n) mod 32)) 0.

(** Where the tails start when the first one starts at [o]. *)
Fixpoint offsets (enc : AbiValue -> bytes) (o : Z) (l : list AbiValue) : list Z :=
  match l with
  | [] => []
  | v :: l => o :: offsets enc (o + zlen (enc v)) l
  end.

(** The items one after the other, or the offsets of their tails and the tails. *)
Definition encode_items (hasTail : bool) (enc : AbiValue -> bytes) (l : list AbiValue) : bytes :=
  (if hasTail then concat (map word (offsets enc (32 * zlen l) l)) else []) ++ concat (map enc l).

Fixpoint encode (ty : AbiType) (v : AbiValue) : bytes :=
  match ty, v with
  | AInteger _, VInt z => word z
  | ABool, VBool b => word (Z.b2z b)
  | ABytesFixed _, VBytes b => b ++ padding (zlen b)
  | ABytes, VBytes b => word (zlen b) ++ b ++ padding (zlen b)
  | AListFixed item _, VList l => encode_items (sk_hasTail item) (encode item) l
  | AList item, VList l => word (zlen l) ++ encode_items (sk_hasTail item) (encode item) l
  | _, _ => []
  end.

(** ** The helpers *)

Lemma skip_spec k data rest : 0 <= k ->
  AbiParserSkipPadding true k data = Ok rest <-> data = replicate (Z.to_nat k) 0 ++ rest.
Proof.
  intros Hk. revert k Hk. induction data as [|b data IH]; intros k Hk; cbn [AbiParserSkipPadding].
  - destruct (Z.leb_spec k 0).
    + rewrite Z2Nat.nonpos by lia. cbn. by split; [intros [= ->]|intros ->].
    + replace (Z.to_nat k) with (S (Z.to_nat (k - 1))) by lia. cbn. split; discriminate.
  - destruct (Z.leb_spec k 0).
    + rewrite Z2Nat.nonpos by lia. cbn. by split; [intros [= ->]|intros ->].
    + replace (Z.to_nat k) with (S (Z.to_nat (k - 1))) by lia. cbn [replicate app andb].
      destruct (Z.eqb_spec b 0) as [->|Hb]; cbn [negb].
      * rewrite IH by lia. split; [by intros ->|by intros [= ->]].
      * split; [discriminate|by intros [= -> _]].
Qed.

Lemma copy_spec k data b rest : 0 <= k ->
  AbiParserCopyBytes k data = Ok (b, rest) <-> zlen b = k /\ data = b ++ rest.
Proof.
  intros Hk. revert k b Hk. induction data as [|c data IH]; intros k b Hk; cbn [AbiParserCopyBytes].
  - destruct (Z.leb_spec k 0).
    + split; [by intros [= <- <-]; split; [cbn; lia|]|]. intros [Hl E].
      destruct b; [|done]. cbn in E. by subst rest.
    + split; [discriminate|]. intros [Hl E]. destruct b; [cbn in Hl; lia|discriminate].
  - destruct (Z.leb_spec k 0).
    + split; [by intros [= <- <-]; split; [cbn; lia|]|]. intros [Hl E].
      destruct b; [|cbn in Hl; lia]. cbn in E. by subst rest.
    + rewrite result_bind_ok. split.
      * intros ([d r] & E & [= <- <-]). apply IH in E as [Hl ->]; [|lia]. cbn [length]. split; [lia|done].
      * intros [Hl E]. destruct b as [|c' b]; [cbn in Hl; lia|]. injection E as <- ->. exists (b, rest).
        cbn [length] in Hl. split; [|done]. apply IH; [lia|]. split; [lia|done].
Qed.

Lemma copy_skip_spec k s data b rest : 0 <= k -> 0 <= s ->
  AbiParserCopyBytesThenSkip true k s data = Ok (b, rest) <->
  zlen b = k /\ data = b ++ replicate (Z.to_nat s) 0 ++ rest.
Proof.
  intros Hk Hs. unfold AbiParserCopyBytesThenSkip. rewrite result_bind_ok. split.
  - intros ([d r] & E & H). bind_ok H. injection H as -> ->.
    apply copy_spec in E as [Hl ->]; [|done]. by apply skip_spec in E0 as ->.
  - intros [Hl ->]. exists (b, replicate (Z.to_nat s) 0 ++ rest). split; [by apply copy_spec|].
    apply result_bind_ok. exists rest. split; [by apply skip_spec|done].
Qed.

(** An integer that was parsed was delivered byte by byte. *)
Lemma Parse_loop_ok {St E} `{FromRlpError E} (f : St -> result E (Z * St)) sz isByte n r st v st' :
  ParsePrimitiveIntValue.Parse_loop f sz isByte n r st = Ok (v, st') ->
  exists bs, reads f st bs st' /\ length bs = n.
Proof.
  revert r st. induction n as [|n IH]; cbn; intros r st HP.
  { injection HP as _ <-. exists []. by split; [constructor|]. }
  bind_ok HP. destruct a as [b st1]. case_match; [done|].
  apply IH in HP as (bs & Hr & Hl). exists (b :: bs). split; [by econstructor|cbn; by rewrite Hl].
Qed.

Lemma next_byte_reads data bs rest : reads next_byte data bs rest <-> data = bs ++ rest.
Proof.
  split.
  - intros Hr. remember next_byte as f eqn:Ef. induction Hr as [st|st b st1 bs st' Eb Hr IH]; [done|].
    subst f. cbn. destruct st as [|c st]; [done|]. injection Eb as -> ->. by rewrite IH.
  - intros ->. induction bs as [|b bs IH]; [constructor|]. by econstructor.
Qed.

Lemma be_bytes_high n m v : 0 <= v < 256 ^ Z.of_nat m -> be_bytes (n + m) v = replicate n 0 ++ be_bytes m v.
Proof.
  intros Hv. induction n as [|n IH]; [done|]. cbn [be_bytes Nat.add replicate app]. rewrite IH. f_equal.
  rewrite Nat2Z.inj_add, Z.pow_add_r by lia. rewrite Z.div_small; [done|]. pose proof (pow256_pos n). nia.
Qed.

Lemma be_bytes_be_val bs : all_bytes bs -> be_bytes (length bs) (be_val bs) = bs.
Proof.
  intros Hb. apply be_val_inj; [apply all_bytes_be_bytes|done|apply length_be_bytes|].
  rewrite be_val_be_bytes. apply Z.mod_small. by apply be_val_bounds.
Qed.

Lemma word_length z : length (word z) = 32%nat.
Proof. apply length_be_bytes. Qed.

(** *** Integers *)

Lemma Integer_spec t data z rest n : all_bytes data ->
  Integer_ToPrimitive t data = Ok (z, rest, n) <->
  fits (8 * Z.of_nat (sk_consumedSize t)) z /\ data = word z ++ rest /\ n = 1.
Proof.
  intros Hb. unfold Integer_ToPrimitive. set (sz := sk_consumedSize t).
  assert (1 <= sz <= 8)%nat as Hsz by (subst sz; destruct t; cbn; lia).
  assert (forall y, fits (8 * Z.of_nat sz) y <-> 0 <= y < 256 ^ Z.of_nat sz) as Hfit by (intros y; by rewrite pow256_pow2).
  assert (forall y, fits (8 * Z.of_nat sz) y ->
    word y = replicate (Z.to_nat (32 - Z.of_nat sz)) 0 ++ be_bytes sz y) as Hword.
  { intros y Hy%Hfit. unfold word. replace (Z.to_nat (32 - Z.of_nat sz)) with (32 - sz)%nat by lia.
    rewrite <-be_bytes_high by done. f_equal. lia. }
  unfold AbiParserConst.sk_chunkSize. split.
  - intros H. bind_ok H. apply skip_spec in E as ->; [|lia]. apply all_bytes_app in Hb as [_ Hb].
    bind_ok H. destruct a0 as [v r]. injection H as -> -> <-.
    pose proof E as E'. unfold ParsePrimitiveIntValue.Parse in E'. rewrite Z.ltb_irrefl in E'.
    apply Parse_loop_ok in E' as (bs & Hr & Hl). rewrite Nat2Z.id in Hl.
    pose proof Hr as ->%next_byte_reads. apply all_bytes_app in Hb as [Hbs _].
    rewrite <-Hl in E. rewrite (Parse_reads next_byte _ _ bs rest) in E by (done || lia). injection E as <-.
    assert (fits (8 * Z.of_nat sz) (be_val bs)) as Hf.
    { apply Hfit. rewrite <-Hl. by apply be_val_bounds. }
    split_and!; [done| |done]. rewrite Hword by done. rewrite <-app_assoc. f_equal.
    rewrite <-Hl. by rewrite be_bytes_be_val.
  - intros (Hf & -> & ->). rewrite Hword by done. rewrite <-app_assoc.
    apply result_bind_ok. eexists. split; [by apply skip_spec; [lia|]|].
    apply result_bind_ok. exists (z, rest). split; [|done].
    assert (zlen (be_bytes sz z) = Z.of_nat sz) as Hl by (by rewrite length_be_bytes).
    rewrite <-Hl. rewrite (Parse_reads next_byte _ _ (be_bytes sz z) rest); [| |apply all_bytes_be_bytes|lia].
    + rewrite be_val_be_bytes, Z.mod_small by (by apply Hfit). done.
    + by apply next_byte_reads.
Qed.

(** ** Parsers that accept exactly the encodings *)

(** On inputs in memory, a parser returns exactly the values whose encoding the
    input starts with, and counts the chunks of the encoding. *)
Record exact {A} (T : A -> Prop) (enc : A -> bytes) (parse : bytes -> result Error (parsed A)) : Prop := {
  exact_chunks : forall v, T v -> exists n, 32 * n = zlen (enc v);
  exact_parse : forall data v rest n, all_bytes data -> zlen data < 2 ^ 63 ->
    parse data = Ok (v, rest, n) <-> T v /\ data = enc v ++ rest /\ 32 * n = zlen (enc v) }.

Lemma Integer_exact t :
  exact (fun z => fits (8 * Z.of_nat (sk_consumedSize t)) z) word (Integer_ToPrimitive t).
Proof.
  split; [intros v _; exists 1; by rewrite word_length|].
  intros data z rest n Hb _. rewrite Integer_spec by done. rewrite word_length.
  split; intros (? & ? & ?); split_and!; try done; lia.
Qed.

(** The offsets of the tails. *)
Lemma offsets_length enc o l : length (offsets enc o l) = length l.
Proof. revert o. induction l as [|v l IH]; intros o; cbn; [done|by rewrite IH]. Qed.

Lemma offsets_fits enc o l w : 0 <= o -> o + zlen (concat (map enc l)) < 2 ^ w -> Forall (fits w) (offsets enc o l).
Proof.
  revert o. induction l as [|v l IH]; intros o Ho Hl; cbn; [constructor|].
  cbn [map concat] in Hl. rewrite length_app in Hl. constructor; [split; lia|]. apply IH; lia.
Qed.

Lemma words_length l : zlen (concat (map word l)) = 32 * zlen l.
Proof. induction l as [|z l IH]; [done|]. cbn [map concat length]. rewrite length_app, word_length. lia. Qed.

(** The loops share their step: an item, then the rest of the items. *)
Section loops.
Context (item : bytes -> result Error (parsed AbiValue)) (T : AbiValue -> Prop) (enc : AbiValue -> bytes).
Context (Hitem : exact T enc item).

(** [run] parses the rest of the items after [total] chunks. *)
Lemma step_spec (run : bytes -> Z -> result Error (parsed (list AbiValue))) (Q : list AbiValue -> Z -> Prop)
    data total l rest t : all_bytes data -> 0 <= total -> 32 * total + zlen data < 2 ^ 63 ->
  (forall data total l, all_bytes data -> 0 <= total -> 32 * total + zlen data < 2 ^ 63 ->
    run data total = Ok (l, rest, t) <-> Q l total /\ Forall T l /\
      data = concat (map enc l) ++ rest /\ 32 * t = 32 * total + zlen (concat (map enc l))) ->
  ('(v, begin, c) ← item data;
   '(res, begin, total) ← run begin (u64 (total + c));
   Ok (v :: res, begin, total)) = Ok (l, rest, t) <->
  exists v l', l = v :: l' /\ (exists c, 32 * c = zlen (enc v) /\ Q l' (total + c)) /\ Forall T l /\
    data = concat (map enc l) ++ rest /\ 32 * t = 32 * total + zlen (concat (map enc l)).
Proof using Hitem.
  intros Hb Ht Hs IH. rewrite result_bind_ok. split.
  - intros ([[v d] c] & E & H). apply (exact_parse _ _ _ Hitem) in E as (Tv & -> & Hc); [|done|lia].
    apply all_bytes_app in Hb as [_ Hb]. rewrite length_app in Hs.
    bind_ok H. destruct a as [[vs d'] t']. injection H as <- -> ->.
    rewrite wrap_small in E by (unfold fits; lia).
    apply IH in E as (Hq & Hf & -> & E); [|done|lia..]. exists v, vs. cbn [map concat].
    rewrite length_app, <-app_assoc. split_and!; [done|by exists c|by constructor|done|lia].
  - intros (v & l' & -> & (c & Hc & Hq) & Hf & -> & E). cbn [map concat] in *. rewrite <-app_assoc in *.
    rewrite length_app in E. inversion Hf as [|? ? Tv Hf']; subst.
    exists (v, concat (map enc l') ++ rest, c). split; [apply (exact_parse _ _ _ Hitem); try done; lia|].
    apply all_bytes_app in Hb as [_ Hb]. rewrite length_app in Hs.
    apply result_bind_ok. exists (l', rest, t). split; [|done].
    rewrite wrap_small by (unfold fits; lia). apply IH; (done || lia || split_and!; (done || lia)).
Qed.

Lemma items_spec k data total l rest t : all_bytes data -> 0 <= total -> 32 * total + zlen data < 2 ^ 63 ->
  items_loop item k data total = Ok (l, rest, t) <->
  length l = k /\ Forall T l /\ data = concat (map enc l) ++ rest /\ 32 * t = 32 * total + zlen (concat (map enc l)).
Proof using Hitem.
  revert data total l. induction k as [|k IH]; intros data total l Hb Ht Hs; cbn [items_loop].
  - split; [intros [= <- <- <-]; cbn; split_and!; (done || constructor || lia)|].
    intros (Hl & _ & -> & E). destruct l; [|done]. cbn in *. do 2 f_equal; lia.
  - rewrite (step_spec (items_loop item k) (fun l _ => length l = k)) by done. split.
    + intros (v & l' & -> & (c & _ & <-) & ?). done.
    + intros (Hl & Hf & E). destruct l as [|v l]; [done|]. exists v, l. split_and!; try done; [|apply E..].
      inversion Hf as [|? ? Tv _]; subst. destruct (exact_chunks _ _ _ Hitem v Tv) as [c Hc].
      exists c. split; [done|]. cbn in Hl. lia.
Qed.

Lemma tails_spec heads data total l rest t : all_bytes data -> 0 <= total -> 32 * total + zlen data < 2 ^ 63 ->
  tails_loop item heads data total = Ok (l, rest, t) <->
  heads = offsets enc (32 * total) l /\ Forall T l /\ data = concat (map enc l) ++ rest /\
  32 * t = 32 * total + zlen (concat (map enc l)).
Proof using Hitem.
  revert data total l. induction heads as [|h heads IH]; intros data total l Hb Ht Hs; cbn [tails_loop].
  - split; [intros [= <- <- <-]; cbn; split_and!; (done || constructor || lia)|].
    intros (Hl & _ & -> & E). destruct l; [|done]. cbn in *. do 2 f_equal; lia.
  - change AbiParserConst.sk_chunkSize with 32. rewrite wrap_small by (unfold fits; lia).
    rewrite (Z.mul_comm total). destruct (Z.eqb_spec h (32 * total)) as [->|Hh]; cbn [negb].
    + rewrite (step_spec (tails_loop item heads) (fun l o => heads = offsets enc (32 * o) l)) by done. split.
      * intros (v & l' & -> & (c & Hc & ->) & ?). split; [|done]. cbn [offsets]. do 2 f_equal. lia.
      * intros (Hl & Hf & E). destruct l as [|v l]; [done|]. exists v, l. split_and!; try done; [|apply E..].
        inversion Hf as [|? ? Tv _]; subst. destruct (exact_chunks _ _ _ Hitem v Tv) as [c Hc].
        exists c. split; [done|]. injection Hl as ->. f_equal. lia.
    + split; [done|]. intros (Hl & _). destruct l as [|v l]; [done|]. by injection Hl.
Qed.
End loops.

(** *** Codecs *)

Lemma exact_map {A B} (T : A -> Prop) (U : B -> Prop) (enc : A -> bytes) (enc' : B -> bytes)
    (f : A -> B) (p : bytes -> result Error (parsed A)) :
  exact T enc p -> (forall b, U b <-> exists a, b = f a /\ T a) -> (forall a, enc' (f a) = enc a) ->
  exact U enc' (fun data => '(v, begin, n) ← p data; Ok (f v, begin, n)).
Proof.
  intros Hp HU He. split.
  - intros b (a & -> & Ha)%HU. rewrite He. by apply (exact_chunks _ _ _ Hp).
  - intros data b rest n Hb Hs. rewrite result_bind_ok. split.
    + intros ([[a r] m] & E & [= <- <- <-]). apply (exact_parse _ _ _ Hp) in E as (Ta & -> & Hn); [|done..].
      rewrite He. split_and!; [apply HU; by exists a|done|done].
    + intros ((a & -> & Ta)%HU & E & Hn). rewrite He in *. exists (a, rest, n).
      split; [by apply (exact_parse _ _ _ Hp)|done].
Qed.

Lemma Bool_exact : exact (fun _ => True) (fun b => word (Z.b2z b)) Bool_ToPrimitive.
Proof.
  split; [intros b _; exists 1; by rewrite word_length|].
  intros data b rest n Hb Hs. unfold Bool_ToPrimitive. rewrite result_bind_ok. rewrite word_length. split.
  - intros ([[z r] m] & E & H). apply Integer_spec in E as (_ & -> & ->); [|done].
    destruct (Z.eqb_spec z 1) as [->|]; [|destruct (Z.eqb_spec z 0) as [->|]; [|done]];
      injection H as <- <- <-; split_and!; (done || lia).
  - intros (_ & -> & Hn). exists (Z.b2z b, rest, n). split.
    + apply Integer_spec; [done|]. split_and!; [destruct b; done|done|lia].
    + by destruct b.
Qed.

Lemma padding_length n : 0 <= n -> exists k, zlen (padding n) = (- n) mod 32 /\ 32 * k = n + zlen (padding n).
Proof.
  intros Hn. unfold padding. rewrite length_replicate. exists ((n + 31) / 32).
  rewrite Z2Nat.id by mod_lia. split; [done|]. mod_lia.
Qed.

Lemma heads_spec k data total hs rest t : all_bytes data -> 0 <= total -> 32 * total + zlen data < 2 ^ 63 ->
  heads_loop k data total = Ok (hs, rest, t) <->
  length hs = k /\ Forall (fits 64) hs /\ data = concat (map word hs) ++ rest /\ t = total + zlen hs.
Proof.
  revert data total hs. induction k as [|k IH]; intros data total hs Hb Ht Hs; cbn [heads_loop].
  - split; [intros [= <- <- <-]; cbn; split_and!; (done || constructor || lia)|].
    intros (Hl & _ & -> & E). destruct hs; [|done]. cbn in *. do 2 f_equal; lia.
  - rewrite result_bind_ok. split.
    + intros ([[h d] c] & E & H). apply Integer_spec in E as (Th & -> & ->); [|done].
      apply all_bytes_app in Hb as [_ Hb]. rewrite length_app, word_length in Hs.
      bind_ok H. destruct a as [[vs d'] t']. injection H as <- -> ->.
      rewrite wrap_small in E by (unfold fits; lia).
      apply IH in E as (Hl & Hf & -> & ->); [|done|lia..]. cbn [map concat length].
      rewrite <-app_assoc. split_and!; [by rewrite Hl|by constructor|done|lia].
    + intros (Hl & Hf & -> & Et). destruct hs as [|h hs]; [done|]. apply Forall_cons in Hf as [Th Hf'].
      cbn [map concat length] in *. rewrite <-app_assoc in *.
      exists (h, concat (map word hs) ++ rest, 1). split; [by apply Integer_spec|].
      apply all_bytes_app in Hb as [_ Hb]. rewrite length_app, word_length in Hs.
      rewrite wrap_small by (unfold fits; lia).
      apply result_bind_ok. exists (hs, rest, t). split; [|done].
      apply IH; (done || lia || split_and!; (done || lia)).
Qed.

Section codec_laws.
Context `{Alloc : Allocator, Laws : !AllocatorLaws}.

Lemma reserve_lt n : reserve n = true -> n < 2 ^ 63.
Proof using Laws. intros Hr. destruct (Z.lt_ge_cases n (2 ^ 63)); [done|]. by rewrite reserve_max in Hr. Qed.

Lemma vec_room_lt ty n : vec_room ty n = true -> n < 2 ^ 63.
Proof using Laws.
  destruct ty as [t| | | | |]; cbn [vec_room]; intros Hr; try (apply reserve_lt in Hr; lia).
  - apply reserve_lt in Hr. destruct t; cbn [sk_consumedSize] in Hr; lia.
  - apply andb_true_iff in Hr as [Hr _]. lia.
Qed.

Lemma BytesFixed_exact size : 0 < size <= 32 ->
  exact (fun b => (all_bytes b /\ zlen b = size) /\ reserve (zlen b) = true)
    (fun b => b ++ padding (zlen b)) (BytesFixed_ToPrimitive size).
Proof.
  intros Hz. assert (padding size = replicate (Z.to_nat (32 - size)) 0) as Hp.
  { unfold padding. f_equal. f_equal. mod_lia. }
  split.
  { intros b [[_ <-] _]. rewrite length_app, Hp, length_replicate. exists 1. lia. }
  intros data b rest n Hb Hs. unfold BytesFixed_ToPrimitive, AbiParserConst.sk_chunkSize.
  split.
  - destruct (reserve size) eqn:Er; [|done]. intros HP. cbn [negb] in HP. bind_ok HP.
    destruct a as [b' r]. injection HP as -> -> <-. apply copy_skip_spec in E as [Hl ->]; [|lia..].
    apply all_bytes_app in Hb as [Hb _]. rewrite Hl, <-app_assoc, Hp.
    split_and!; try done. rewrite !length_app, length_replicate. lia.
  - intros ([[Hb' Hl] Hr] & -> & Hn). rewrite Hl in *. rewrite Hr. cbn [negb].
    apply result_bind_ok. exists (b, rest). split.
    + apply copy_skip_spec; [lia..|]. split; [done|]. by rewrite <-app_assoc, Hp.
    + do 2 f_equal. rewrite length_app, Hp, length_replicate in Hn. lia.
Qed.

Lemma Bytes_exact :
  exact (fun b => all_bytes b /\ reserve (zlen b) = true)
    (fun b => word (zlen b) ++ b ++ padding (zlen b)) Bytes_ToPrimitive.
Proof using Laws.
  split.
  { intros b _. rewrite !length_app, word_length. destruct (padding_length (zlen b) ltac:(lia)) as (k & _ & Hk).
    exists (k + 1). lia. }
  assert (forall len, 0 <= len < 2 ^ 63 -> AbiCeilingDiv len 32 = (len + 31) / 32 /\
    u64 (u64 (AbiCeilingDiv len 32 * 32) - len) = (- len) mod 32) as Hpad.
  { intros len Hlen. unfold AbiCeilingDiv. change (u64 (32 - 1)) with 31.
    rewrite (wrap_small 64 (len + 31)) by (unfold fits; lia).
    rewrite (wrap_small 64 (_ * 32)) by (unfold fits; mod_lia).
    split; [done|]. rewrite wrap_small by (unfold fits; mod_lia). mod_lia. }
  intros data b rest n Hb Hs. unfold Bytes_ToPrimitive, AbiParserConst.sk_chunkSize. rewrite result_bind_ok. split.
  - intros ([[len d] c] & E & HP). apply Integer_spec in E as (Hf & -> & ->); [|done].
    destruct (reserve len) eqn:Er; [|done]. cbn [negb] in HP. pose proof (reserve_lt _ Er) as Hlt.
    assert (0 <= len) by (unfold fits in Hf; lia).
    destruct (Hpad len ltac:(lia)) as [Hc Hq]. rewrite Hq in HP. rewrite Hc in HP.
    bind_ok HP. destruct a as [b' r]. injection HP as -> -> <-.
    apply copy_skip_spec in E as [Hl ->]; [|mod_lia..]. subst len.
    apply all_bytes_app in Hb as [_ [Hb _]%all_bytes_app].
    split_and!; [done|done|by rewrite <-!app_assoc|].
    rewrite !length_app, word_length. destruct (padding_length (zlen b) ltac:(lia)) as (k & E & Hk).
    rewrite wrap_small by (unfold fits; mod_lia). mod_lia.
  - intros ((Hb' & Hr) & -> & Hn). pose proof (reserve_lt _ Hr) as Hlt.
    exists (zlen b, b ++ padding (zlen b) ++ rest, 1). rewrite <-!app_assoc. split.
    { apply Integer_spec; [by rewrite <-!app_assoc in Hb|]. split_and!; try done. unfold fits. cbn [sk_consumedSize]. lia. }
    rewrite Hr. cbn [negb]. destruct (Hpad (zlen b) ltac:(lia)) as [Hc Hq]. rewrite Hq, Hc.
    apply result_bind_ok. exists (b, rest). split; [by apply copy_skip_spec; [mod_lia..|]|].
    rewrite !length_app, word_length in Hn. destruct (padding_length (zlen b) ltac:(lia)) as (k & E & Hk).
    do 2 f_equal. rewrite wrap_small by (unfold fits; mod_lia). mod_lia.
Qed.

Section list_codec.
Context (item : bytes -> result Error (parsed AbiValue)) (T : AbiValue -> Prop) (enc : AbiValue -> bytes).
Context (Hitem : exact T enc item) (itemRoom : Z -> bool) (Hroom : forall n, itemRoom n = true -> n < 2 ^ 63).

Lemma concat_chunks l : Forall T l -> exists n, 32 * n = zlen (concat (map enc l)).
Proof using Hitem.
  induction 1 as [|v l Hv Hl [n Hn]]; [by exists 0|]. destruct (exact_chunks _ _ _ Hitem v Hv) as [m Hm].
  exists (m + n). cbn [map concat]. rewrite length_app. lia.
Qed.

Lemma encode_items_chunks hasTail l : Forall T l -> exists n, 32 * n = zlen (encode_items hasTail enc l).
Proof using Hitem.
  intros [n Hn]%concat_chunks. unfold encode_items. rewrite length_app. destruct hasTail; [|by exists n].
  exists (n + zlen l). rewrite Nat2Z.inj_add, words_length, offsets_length. lia.
Qed.

Lemma List_exact hasTail size : 0 <= size ->
  exact (fun l => zlen l = size /\ Forall T l /\ list_room hasTail itemRoom (zlen l) = true) (encode_items hasTail enc)
    (List_ToPrimitive item itemRoom hasTail size).
Proof using Hitem.
  intros Hz. split; [intros l (_ & Hl & _); by apply encode_items_chunks|].
  intros data l rest n Hb Hs. unfold List_ToPrimitive, encode_items. destruct hasTail.
  - unfold ListDynamic_ToPrimitive. split.
    + unfold list_room. cbn [implb]. destruct (vec_room (AInteger UInt64) size) eqn:Eh; [|done]. cbn [negb]. intros HP. bind_ok HP. destruct a as [[hs d] t].
      destruct (itemRoom size) eqn:Er; [|done]. cbn [negb] in HP.
      apply heads_spec in E as (Hl & Hf & -> & ->); [|done|lia..].
      apply all_bytes_app in Hb as [_ Hb]. rewrite length_app, Nat2Z.inj_add, words_length in Hs.
      apply (tails_spec item T enc Hitem) in HP as (Eo & HT & -> & Hn); [|done|lia..].
      assert (length hs = length l) as Ehl by (rewrite Eo; apply offsets_length).
      assert (zlen l = size) as El by lia. rewrite El.
      replace (32 * (0 + zlen hs)) with (32 * size) in Eo by lia.
      rewrite <-Eo, <-app_assoc, length_app, Nat2Z.inj_add, words_length. split_and!; try done. by rewrite Eh, Er.
    + intros ((El & HT & [Eh Er]%andb_true_iff) & -> & Hn). cbn [implb] in Eh. rewrite El in *. rewrite Eh. cbn [negb].
      rewrite <-app_assoc in *. rewrite length_app, Nat2Z.inj_add, words_length, offsets_length in Hs, Hn.
      apply result_bind_ok. eexists (offsets enc (32 * size) l, concat (map enc l) ++ rest, 0 + zlen l). split.
      * apply heads_spec; [done|lia|rewrite length_app, Nat2Z.inj_add, words_length, offsets_length; lia|].
        rewrite offsets_length. split_and!; [lia| |done|done].
        apply offsets_fits; [lia|]. rewrite length_app in Hs. lia.
      * apply all_bytes_app in Hb as [_ Hb]. rewrite Er. cbn [negb]. apply (tails_spec item T enc Hitem); [done|lia..|].
        split_and!; [f_equal; lia|done|done|lia].
  - unfold ListStatic_ToPrimitive. cbn [app]. split.
    + destruct (itemRoom size) eqn:Er; [|done]. cbn [negb]. intros HP.
      apply (items_spec item T enc Hitem) in HP as (Hl & HT & -> & Hn); [|done|lia..].
      assert (zlen l = size) as El by lia. rewrite El. split_and!; try done; lia.
    + intros ((El & HT & Er) & -> & Hn). change (itemRoom (zlen l) = true) in Er. rewrite El in Er. rewrite Er. cbn [negb].
      apply (items_spec item T enc Hitem); [done|lia..|]. split_and!; (done || lia).
Qed.

Lemma ListSized_exact hasTail :
  exact (fun l => Forall T l /\ list_room hasTail itemRoom (zlen l) = true)
    (fun l => word (zlen l) ++ encode_items hasTail enc l) (ListSized_ToPrimitive item itemRoom hasTail).
Proof using Hitem Hroom.
  split.
  { intros l [Hl _]. rewrite length_app, word_length. destruct (encode_items_chunks hasTail l Hl) as [n Hn].
    exists (n + 1). lia. }
  intros data l rest n Hb Hs. unfold ListSized_ToPrimitive. rewrite result_bind_ok. split.
  - intros ([[len d] c] & E & HP). apply Integer_spec in E as (Hf & -> & ->); [|done].
    apply all_bytes_app in Hb as [_ Hb]. rewrite length_app, word_length in Hs.
    bind_ok HP. destruct a as [[l' r] m]. injection HP as -> -> <-.
    apply (exact_parse _ _ _ (List_exact hasTail len ltac:(unfold fits in Hf; lia))) in E as ((El & HT & Er) & -> & Hn); [|done|lia].
    rewrite length_app in Hs. rewrite length_app, word_length, <-app_assoc, El. split_and!; try done; [by rewrite <-El|].
    change (u64 (0 + 1)) with 1. rewrite wrap_small by (unfold fits; lia). lia.
  - intros ((HT & Er) & -> & Hn). rewrite <-app_assoc in *. pose proof (Hroom _ (proj2 (andb_prop _ _ Er))) as Hlt.
    rewrite length_app, word_length in Hs, Hn.
    exists (zlen l, encode_items hasTail enc l ++ rest, 1). split.
    { apply Integer_spec; [done|]. split_and!; try done. unfold fits. cbn [sk_consumedSize]. lia. }
    apply all_bytes_app in Hb as [_ Hb]. rewrite length_app in Hs.
    apply result_bind_ok. exists (l, rest, n - 1). split.
    + apply (exact_parse _ _ _ (List_exact hasTail (zlen l) ltac:(lia))); [done|rewrite length_app; lia|].
      split_and!; (done || lia).
    + change (u64 (0 + 1)) with 1. rewrite wrap_small by (unfold fits; lia). do 2 f_equal. lia.
Qed.
End list_codec.

Lemma Forall_and_iff {A} (P Q : A -> Prop) l : Forall P l /\ Forall Q l <-> Forall (fun x => P x /\ Q x) l.
Proof. split; [intros [HP HQ]; by apply Forall_and|by intros ?%Forall_and]. Qed.

(** Every codec is exact for its encoding. *)
Lemma Codec_exact ty : wf_type ty ->
  exact (fun v => has_type ty v /\ room ty v) (encode ty) (Codec_ToPrimitive ty).
Proof using Laws.
  induction ty as [t| |size| |item IH size|item IH]; cbn [wf_type Codec_ToPrimitive as_value]; intros Hw.
  - refine (exact_map _ _ _ _ VInt _ (Integer_exact t) _ _); [|done].
    intros [z|b|b|l]; cbn; naive_solver.
  - refine (exact_map _ _ _ _ VBool _ Bool_exact _ _); [|done]. intros [z|b|b|l]; cbn; naive_solver.
  - refine (exact_map _ _ _ _ VBytes _ (BytesFixed_exact size Hw) _ _); [|done]. intros [z|b|b|l]; cbn; naive_solver.
  - refine (exact_map _ _ _ _ VBytes _ Bytes_exact _ _); [|done]. intros [z|b|b|l]; cbn; naive_solver.
  - destruct Hw as [Hz Hw].
    refine (exact_map _ _ _ _ VList _ (List_exact _ _ _ (IH Hw) (vec_room item) (sk_hasTail item) size Hz) _ _); [|done].
    intros [z|b|b|l]; cbn; try naive_solver. setoid_rewrite <-Forall_and_iff. naive_solver.
  - refine (exact_map _ _ _ _ VList _ (ListSized_exact _ _ _ (IH Hw) (vec_room item) (vec_room_lt item) (sk_hasTail item)) _ _); [|done].
    intros [z|b|b|l]; cbn; try naive_solver. setoid_rewrite <-Forall_and_iff. naive_solver.
Qed.
End codec_laws.

(** ** Properties *)

(** C19. The codec of every type, however nested, is exact for the contract ABI:
    on an input in memory it returns a value, an end and a number of chunks if
    and only if the value is of the type, there is room for its vectors, the
    input up to the end is the value's encoding, and the chunks are its 32-byte
    chunks.  So it reads back every encoding, and every other input - a
    non-zero padding byte, an offset that is not the running one, a short
    input - is refused. *)
Theorem abi_codec_exact `{Alloc : Allocator, Laws : !AllocatorLaws} ty data v rest n :
  wf_type ty -> all_bytes data -> zlen data < 2 ^ 63 ->
  Codec_ToPrimitive ty data = Ok (v, rest, n) <->
  (has_type ty v /\ room ty v) /\ data = encode ty v ++ rest /\ 32 * n = zlen (encode ty v).
Proof. intros Hw. apply (exact_parse _ _ _ (Codec_exact ty Hw)). Qed.

(** Room for a mebibyte. *)
#[local] Instance sample_allocator : Allocator := fun n => n <? 2 ^ 20.
#[local] Instance sample_allocator_laws : AllocatorLaws.
Proof. intros n Hn. apply Z.ltb_ge. lia. Qed.

(** A list of byte strings. *)
Definition sample_strings : AbiValue := VList [VBytes [1; 2; 3]; VBytes []; VBytes (replicate 33 7)].

Lemma abi_codec_exact_witness :
  Codec_ToPrimitive (AList ABytes) (encode (AList ABytes) sample_strings ++ [9]) = Ok (sample_strings, [9], 10).
Proof.
  apply (abi_codec_exact (AList ABytes)); [exact I|apply (bool_decide_unpack _); vm_compute; exact I|vm_compute; reflexivity|].
  split; [split|split; reflexivity]; [|split; [reflexivity|by repeat constructor]].
  repeat (apply Forall_cons_2; [apply (bool_decide_unpack _); vm_compute; exact I|]). apply Forall_nil_2.
Defined.

(** C27. Whatever the bytes, a parser throws or returns a value of its type.  The
    iterator it returns is behind the head: the whole value if the type has no
    tail, the word of the offset otherwise, and then the value's encoding
    starts at that offset in the block. *)
Theorem abi_parser_typed `{Alloc : Allocator, Laws : !AllocatorLaws} ty begin block v rest :
  wf_type ty -> all_bytes begin -> zlen begin < 2 ^ 63 ->
  (forall b, block = Some b -> all_bytes b /\ zlen b < 2 ^ 63) ->
  AbiParser_ToPrimitive ty begin block = Ok (v, rest) ->
  has_type ty v /\
  if sk_hasTail ty then exists pre post, block = Some (pre ++ encode ty v ++ post) /\ begin = word (zlen pre) ++ rest
  else begin = encode ty v ++ rest.
Proof.
  intros Hw Hb Hs Hblk. unfold AbiParser_ToPrimitive. destruct (sk_hasTail ty).
  - unfold HeadTail_ToPrimitive. intros H. bind_ok H. destruct a as [[o he] c].
    apply Integer_spec in E as (Ho & -> & _); [|done].
    destruct block as [b|]; [|done]. destruct (Hblk b eq_refl) as [Hbb Hbs].
    destruct (Z.ltb_spec (zlen b) o) as [|Hle]; [done|]. bind_ok H. destruct a as [[v' r] m]. injection H as -> ->.
    apply (exact_parse _ _ _ (Codec_exact ty Hw)) in E as ([Ht _] & E & _);
      [|by apply all_bytes_drop|rewrite length_drop; lia].
    split; [done|]. exists (take (Z.to_nat o) b), r. rewrite <-E, take_drop. split; [done|].
    do 2 f_equal. rewrite length_take. unfold fits in Ho. lia.
  - unfold HeadOnly_ToPrimitive. intros H. bind_ok H. destruct a as [[v' r] m]. injection H as -> ->.
    by apply (exact_parse _ _ _ (Codec_exact ty Hw)) in E as ([Ht _] & E & _).
Qed.

(** The data of a notification: an offset and the message. *)
Definition sample_event_data : bytes := word 32 ++ encode ABytes (VBytes [1; 2; 3]).

Lemma abi_parser_typed_witness :
  AbiParser_ToPrimitive ABytes sample_event_data (Some sample_event_data)
    = Ok (VBytes [1; 2; 3], drop 32 sample_event_data) /\
  has_type ABytes (VBytes [1; 2; 3]) /\
  exists pre post, Some sample_event_data = Some (pre ++ encode ABytes (VBytes [1; 2; 3]) ++ post) /\
    sample_event_data = word (zlen pre) ++ drop 32 sample_event_data.
Proof.
  split; [reflexivity|].
  apply (abi_parser_typed ABytes sample_event_data (Some sample_event_data));
    [exact I|apply (bool_decide_unpack _); vm_compute; exact I|vm_compute; reflexivity| |reflexivity].
  intros b [= <-]. split; [apply (bool_decide_unpack _); vm_compute; exact I|vm_compute; reflexivity].
Defined.
