(* ===== verification/Heartbeat.v ===== *)
(** * Heartbeats

    [DecentEnclave/Trusted/HeartbeatEmitterMgr.hpp]: the emitters that send to the
    subscribers; [HeartbeatRecvMgr.hpp]: the constraints a receiver puts on the
    heartbeats it waits for, and the status of the enclave they give. *)

From stdpp Require Import gmap sorting.
From S2P Require Import Prelude.

(** ** Emitters *)

Module HeartbeatEmitterMgr.
Section emitters.
(** The state the emitters work on, which holds the list of them. *)
Context {S E Err : Type} (emit : E -> stx S Err unit).
Context (m_emitterList : S -> list E) (set_emitterList : list E -> S -> S).

Definition AddEmitter (emitter : E) (s : S) : S := set_emitterList (m_emitterList s ++ [emitter]) s.

(** The loop: an emitter that throws is erased. *)
Fixpoint EmitAll_loop (tmpList : list E) (s : S) : S * list E :=
  match tmpList with
  | [] => (s, [])
  | emitter :: tmpList =>
    let '(s, r) := emit emitter s in
    let '(s, valid) := EmitAll_loop tmpList s in
    (s, match r with Ok _ => emitter :: valid | Throw _ => valid end)
  end.

Definition EmitAll (s : S) : S :=
  let tmpList := m_emitterList s in
  let s := set_emitterList [] s in
  let '(s, valid) := EmitAll_loop tmpList s in
  set_emitterList (valid ++ m_emitterList s) s.
End emitters.
End HeartbeatEmitterMgr.

(** ** Constraints *)

Inductive HeartbeatStatus := Normal | Suspended | Damaged.

#[export] Instance HeartbeatStatus_eq_dec : EqDecision HeartbeatStatus.
Proof. solve_decision. Defined.

(** [HeartbeatConstraint]: [CheckStatus] may change the [mutable] members. *)
Class HeartbeatConstraint (C : Type) := {
  InitTime : C -> Z -> C;
  CheckStatus : C -> Z -> C * HeartbeatStatus;
  OnHeartbeatRecv : C -> Z -> C }.

Module HeartbeatTimeConstraint.
(** [TimestampType] is [uint64_t]. *)
Record t := mk { m_lastUpdate : Z; m_timeout : Z; m_timeoutStatus : HeartbeatStatus; m_isDamaged : bool }.

Definition create (timeout : Z) (timeoutStatus : HeartbeatStatus) : t := mk 0 timeout timeoutStatus false.

Definition update (c : t) (currTime : Z) : t :=
  mk currTime (m_timeout c) (m_timeoutStatus c) (m_isDamaged c).

Definition CheckStatus (c : t) (currTime : Z) : t * HeartbeatStatus :=
  if m_isDamaged c then (c, Damaged)
  else
    let elapsed := u64 (currTime - m_lastUpdate c) in
    if m_timeout c <? elapsed then
      (mk (m_lastUpdate c) (m_timeout c) (m_timeoutStatus c) (bool_decide (m_timeoutStatus c = Damaged)), m_timeoutStatus c)
    else (c, Normal).
End HeartbeatTimeConstraint.

#[export] Instance TimeConstraint : HeartbeatConstraint HeartbeatTimeConstraint.t := {|
  InitTime := HeartbeatTimeConstraint.update;
  CheckStatus := HeartbeatTimeConstraint.CheckStatus;
  OnHeartbeatRecv := HeartbeatTimeConstraint.update |}.

(** ** The receivers *)

Module HeartbeatRecvMgr.
Section recv.
Context {C : Type} `{Constraint : HeartbeatConstraint C}.

(** Constraints and sockets are owned by the maps, under their addresses;
    [waiting] are the sockets with a receive pending, with the constraint its
    callback refers to. *)
Record t := mk {
  m_constraintMap : gmap Z C; m_socketMap : gset Z; m_status : HeartbeatStatus; waiting : gmap Z Z }.

Definition create : t := mk ∅ ∅ Normal ∅.

Definition StartWaiting (m : t) (constraint socket : Z) : t :=
  mk (m_constraintMap m) (m_socketMap m) (m_status m) (<[socket := constraint]> (waiting m)).

Definition AddConstraint (m : t) (id : Z) (c : C) : t :=
  match m_constraintMap m !! id with
  | None => mk (<[id := c]> (m_constraintMap m)) (m_socketMap m) (m_status m) (waiting m)
  | Some _ => m
  end.

Definition RemoveConstraint (m : t) (id : Z) : t :=
  mk (delete id (m_constraintMap m)) (m_socketMap m) (m_status m) (waiting m).

Definition AddSocket (m : t) (socket : Z) : result unit t :=
  if bool_decide (socket ∈ m_socketMap m) then Throw tt
  else Ok (mk (m_constraintMap m) ({[socket]} ∪ m_socketMap m) (m_status m) (waiting m)).

(** The callback pending on a socket goes with it. *)
Definition RemoveSocket (m : t) (socket : Z) : t :=
  mk (m_constraintMap m) (m_socketMap m ∖ {[socket]}) (m_status m) (delete socket (waiting m)).

Definition update (m : t) (id : Z) (f : C -> C) : t :=
  mk (alter f id (m_constraintMap m)) (m_socketMap m) (m_status m) (waiting m).

(** [now] is read when the constraint is initialised. *)
Definition AddRecv (m : t) (id : Z) (c : C) (socket : Z) (initConstraint : bool) (now : Z) : t * result unit unit :=
  let m := AddConstraint m id c in
  match AddSocket m socket with
  | Throw e => (m, Throw e)
  | Ok m =>
    let m := if initConstraint then update m id (fun c => InitTime c now) else m in
    (StartWaiting m id socket, Ok tt)
  end.

Definition RemoveRecv (m : t) (id socket : Z) : t := RemoveSocket (RemoveConstraint m id) socket.

(** The loop of [GetStatus] over the constraints, by their addresses. *)
Fixpoint GetStatus_loop (ids : list Z) (now : Z) (clean : HeartbeatStatus) (m : t) : t * HeartbeatStatus :=
  match ids with
  | [] => (mk (m_constraintMap m) (m_socketMap m) clean (waiting m), clean)
  | id :: ids =>
    match m_constraintMap m !! id with
    | None => GetStatus_loop ids now clean m
    | Some c =>
      let '(c, status) := CheckStatus c now in
      let m := mk (<[id := c]> (m_constraintMap m)) (m_socketMap m) (m_status m) (waiting m) in
      match status with
      | Damaged => (mk (m_constraintMap m) (m_socketMap m) Damaged (waiting m), Damaged)
      | Suspended => GetStatus_loop ids now Suspended m
      | Normal => GetStatus_loop ids now clean m
      end
    end
  end.

Definition GetStatus (m : t) (now : Z) : t * HeartbeatStatus :=
  match m_status m with
  | Damaged => (m, Damaged)
  | _ => GetStatus_loop (map fst (map_to_list (m_constraintMap m))) now Normal m
  end.

(** [wrappedRecv], the callback of a pending receive: a message or an error has
    arrived on a socket.  [now] and [now'] are its two readings of the clock,
    [recvOk] is whether the handler of the messages returns; the second value is
    whether it is called. *)
Definition wrappedRecv (m : t) (socket : Z) (hasErrorOccurred recvOk : bool) (now now' : Z) : t * bool :=
  match waiting m !! socket with
  | None => (m, false)
  | Some id =>
    let m := mk (m_constraintMap m) (m_socketMap m) (m_status m) (delete socket (waiting m)) in
    match m_constraintMap m !! id with
    | Some c =>
      if negb hasErrorOccurred && bool_decide (socket ∈ m_socketMap m) then
        let '(c, hStatus) := CheckStatus c now in
        let m := mk (<[id := c]> (m_constraintMap m)) (m_socketMap m) (m_status m) (waiting m) in
        match hStatus with
        | Damaged => (RemoveSocket m socket, false)
        | _ =>
          let m := update m id (fun c => OnHeartbeatRecv c now') in
          (if recvOk then StartWaiting m id socket else m, true)
        end
      else (RemoveSocket m socket, false)
    | None => (RemoveSocket m socket, false)
    end
  end.
End recv.
Arguments t : clear implicits.
End HeartbeatRecvMgr.

(** ** The status a history of heartbeats gives *)

Local Abbreviation mgr := (HeartbeatRecvMgr.t HeartbeatTimeConstraint.t).
Local Abbreviation lastUpdate := HeartbeatTimeConstraint.m_lastUpdate.
Local Abbreviation timeout := HeartbeatTimeConstraint.m_timeout.
Local Abbreviation timeoutStatus := HeartbeatTimeConstraint.m_timeoutStatus.
Local Abbreviation isDamaged := HeartbeatTimeConstraint.m_isDamaged.

(** What happens to a manager once its receivers are added: a message arrives on
    a socket, or the status is asked for; with the readings of the clock. *)
Inductive Event := Beat (socket now now' : Z) | Status (now : Z).

Definition step (m : mgr) (ev : Event) : mgr :=
  match ev with
  | Beat socket now now' => fst (HeartbeatRecvMgr.wrappedRecv m socket false true now now')
  | Status now => fst (HeartbeatRecvMgr.GetStatus m now)
  end.
Definition run (m : mgr) (evs : list Event) : mgr := foldl step m evs.

(** The clock does not go back. *)
Fixpoint in_order (t : Z) (evs : list Event) : Prop :=
  match evs with
  | [] => True
  | Beat _ now now' :: evs => t <= now /\ now <= now' < 2 ^ 64 /\ in_order now' evs
  | Status now :: evs => t <= now < 2 ^ 64 /\ in_order now evs
  end.

Section history.
Context (m0 : mgr).

(** The last heartbeat for a constraint, and when an event looks at it. *)
Definition last_beat (id : Z) (t : Z) (evs : list Event) : Z :=
  foldl (fun t ev => match ev with
    | Beat socket _ now' => if decide (HeartbeatRecvMgr.waiting m0 !! socket = Some id) then now' else t
    | Status _ => t
    end) t evs.

Definition looks_at (id : Z) (ev : Event) : option Z :=
  match ev with
  | Beat socket now _ => if decide (HeartbeatRecvMgr.waiting m0 !! socket = Some id) then Some now else None
  | Status now => Some now
  end.

(** Some event found that the last heartbeat before it was too long ago. *)
Definition late_at (id : Z) (pre : list Event) (ev : Event) : Prop :=
  exists c now, HeartbeatRecvMgr.m_constraintMap m0 !! id = Some c /\ timeoutStatus c = Damaged /\
    looks_at id ev = Some now /\ timeout c < now - last_beat id (lastUpdate c) pre.
Definition late (id : Z) (evs : list Event) : Prop :=
  exists pre ev post, evs = pre ++ ev :: post /\ late_at id pre ev.

(** The receivers are added, at a time not after [t], and nothing has come yet. *)
Record started (t : Z) : Prop := {
  st_status : HeartbeatRecvMgr.m_status m0 <> Damaged;
  st_constraints : forall id c, HeartbeatRecvMgr.m_constraintMap m0 !! id = Some c ->
    isDamaged c = false /\ 0 <= lastUpdate c <= t;
  st_waiting : forall socket id, HeartbeatRecvMgr.waiting m0 !! socket = Some id ->
    socket ∈ HeartbeatRecvMgr.m_socketMap m0 /\ is_Some (HeartbeatRecvMgr.m_constraintMap m0 !! id) }.

Lemma late_snoc id evs ev : late id (evs ++ [ev]) <-> late id evs \/ late_at id evs ev.
Proof.
  split.
  - intros (pre & e & post & Heq & Hl). destruct post as [|x post _] using rev_ind.
    + apply app_inj_tail in Heq as [-> ->]. by right.
    + left. exists pre, e, post. split; [|done]. rewrite app_comm_cons, app_assoc in Heq.
      by apply app_inj_tail in Heq as [-> _].
  - intros [(pre & e & post & -> & Hl)|Hl].
    + exists pre, e, (post ++ [ev]). by rewrite <-app_assoc.
    + by exists evs, ev, [].
Qed.

Lemma last_beat_snoc id t evs ev : last_beat id t (evs ++ [ev])
  = match ev with
    | Beat socket _ now' => if decide (HeartbeatRecvMgr.waiting m0 !! socket = Some id) then now' else last_beat id t evs
    | Status _ => last_beat id t evs
    end.
Proof. unfold last_beat. by rewrite foldl_app. Qed.

Definition end_time (t : Z) (evs : list Event) : Z :=
  foldl (fun _ ev => match ev with Beat _ _ now' => now' | Status now => now end) t evs.

Lemma in_order_snoc t evs ev : in_order t (evs ++ [ev]) <-> in_order t evs /\ in_order (end_time t evs) [ev].
Proof.
  revert t. induction evs as [|[s a b|n] evs IH]; intros t; cbn [app in_order]; [by split; [split|intros []]| |];
    rewrite IH; cbn; tauto.
Qed.

Lemma last_beat_bounds id l t evs : 0 <= l <= t -> in_order t evs -> 0 <= last_beat id l evs <= end_time t evs.
Proof.
  revert l t. induction evs as [|[s a b|n] evs IH]; intros l t Hl Ho; [done| |]; cbn in Ho |- *.
  - destruct Ho as (? & ? & Ho). apply IH; [|done]. case_match; lia.
  - destruct Ho as (? & Ho). apply IH; [|done]. lia.
Qed.

(** A constraint in the manager after the history. *)
Definition constraint_ok (evs : list Event) (m : mgr) (id : Z) (c0 : HeartbeatTimeConstraint.t) : Prop :=
  exists c, HeartbeatRecvMgr.m_constraintMap m !! id = Some c /\ timeout c = timeout c0 /\ timeoutStatus c = timeoutStatus c0 /\
    if isDamaged c then late id evs
    else ~ late id evs /\ lastUpdate c = last_beat id (lastUpdate c0) evs /\
      forall s, HeartbeatRecvMgr.waiting m0 !! s = Some id ->
        HeartbeatRecvMgr.waiting m !! s = Some id /\ s ∈ HeartbeatRecvMgr.m_socketMap m.

Record tracks (evs : list Event) (m : mgr) : Prop := {
  tr_waiting : forall s id, HeartbeatRecvMgr.waiting m !! s = Some id -> HeartbeatRecvMgr.waiting m0 !! s = Some id;
  tr_dom : forall id, HeartbeatRecvMgr.m_constraintMap m0 !! id = None -> HeartbeatRecvMgr.m_constraintMap m !! id = None;
  tr_status : if decide (HeartbeatRecvMgr.m_status m = Damaged) then exists id, late id evs
    else forall id c0, HeartbeatRecvMgr.m_constraintMap m0 !! id = Some c0 -> constraint_ok evs m id c0 }.

Lemma late_at_spec id c0 evs ev now : HeartbeatRecvMgr.m_constraintMap m0 !! id = Some c0 -> looks_at id ev = Some now ->
  late_at id evs ev <-> timeoutStatus c0 = Damaged /\ timeout c0 < now - last_beat id (lastUpdate c0) evs.
Proof. intros Hc Hn. unfold late_at. naive_solver. Qed.

(** The check of a constraint that is not damaged. *)
Lemma CheckStatus_run c now : isDamaged c = false -> 0 <= lastUpdate c <= now -> now < 2 ^ 64 ->
  HeartbeatTimeConstraint.CheckStatus c now =
  if decide (timeout c < now - lastUpdate c) then
    (HeartbeatTimeConstraint.mk (lastUpdate c) (timeout c) (timeoutStatus c) (bool_decide (timeoutStatus c = Damaged)), timeoutStatus c)
  else (c, Normal).
Proof.
  intros Hd Hl Hn. unfold HeartbeatTimeConstraint.CheckStatus. rewrite Hd, wrap_small by (unfold fits; lia).
  destruct (decide (timeout c < now - lastUpdate c)) as [Ht|Ht].
  - by rewrite (proj2 (Z.ltb_lt _ _)) by done.
  - by rewrite (proj2 (Z.ltb_ge _ _)) by lia.
Qed.

(** A check that does not say damaged leaves the constraint as it is. *)
Lemma CheckStatus_same c now : (HeartbeatTimeConstraint.CheckStatus c now).2 <> Damaged ->
  (HeartbeatTimeConstraint.CheckStatus c now).1 = c.
Proof.
  unfold HeartbeatTimeConstraint.CheckStatus. destruct (isDamaged c) eqn:Ed; [done|].
  destruct (_ <? _); [|done]. cbn. intros Hs. rewrite bool_decide_eq_false_2 by done. by destruct c; cbn in *; subst.
Qed.
End history.

(** ** The status of all constraints *)

Definition says (m : mgr) (now : Z) (status : HeartbeatStatus) (id : Z) : Prop :=
  exists c, HeartbeatRecvMgr.m_constraintMap m !! id = Some c /\ (CheckStatus c now).2 = status.

(** The worst of what the constraints say; a damaged one ends the loop, and
    otherwise nothing but the status changes. *)
Record worst (m : mgr) (ids : list Z) (now : Z) (clean : HeartbeatStatus) (m' : mgr) (status : HeartbeatStatus) : Prop := {
  ws_status : HeartbeatRecvMgr.m_status m' = status;
  ws_waiting : HeartbeatRecvMgr.waiting m' = HeartbeatRecvMgr.waiting m;
  ws_dom : forall id, HeartbeatRecvMgr.m_constraintMap m !! id = None -> HeartbeatRecvMgr.m_constraintMap m' !! id = None;
  ws_damaged : status = Damaged <-> exists id, id ∈ ids /\ says m now Damaged id;
  ws_same : status <> Damaged -> m' = HeartbeatRecvMgr.mk (HeartbeatRecvMgr.m_constraintMap m)
    (HeartbeatRecvMgr.m_socketMap m) status (HeartbeatRecvMgr.waiting m);
  ws_suspended : status <> Damaged -> (status = Suspended <-> clean = Suspended \/
    exists id, id ∈ ids /\ says m now Suspended id) }.

Lemma worst_cons m id ids now clean m' status st :
  (forall s, says m now s id <-> s = st) -> st <> Damaged -> clean <> Damaged ->
  worst m ids now (match st with Suspended => Suspended | _ => clean end) m' status ->
  worst m (id :: ids) now clean m' status.
Proof.
  intros Hs Hst Hcl [W1 W2 W3 W4 W5 W6]. split; try done.
  - rewrite W4. setoid_rewrite elem_of_cons. split; [naive_solver|].
    intros (i & [->|Hi] & Hd); [by apply Hs in Hd; subst|by exists i].
  - intros Hne. rewrite (W6 Hne). setoid_rewrite elem_of_cons. split.
    + intros [Hc|(i & Hi & Hd)]; [|naive_solver]. destruct st; [by left| |done]. right. exists id. by rewrite Hs; auto.
    + intros [Hc|(i & [->|Hi] & Hd)]; [destruct st; auto|apply Hs in Hd as <-; by left|right; by exists i].
Qed.

Lemma GetStatus_loop_worst (m : mgr) ids now clean m' status :
  clean <> Damaged -> (forall id, id ∈ ids -> is_Some (HeartbeatRecvMgr.m_constraintMap m !! id)) ->
  HeartbeatRecvMgr.GetStatus_loop ids now clean m = (m', status) -> worst m ids now clean m' status.
Proof.
  revert clean. induction ids as [|id ids IH]; intros clean Hcl Hids; cbn [HeartbeatRecvMgr.GetStatus_loop].
  { intros [= <- <-]. split; try done; [|set_solver]. split; [done|]. by intros (? & ?%not_elem_of_nil & _). }
  destruct (Hids id ltac:(left)) as [c Hc]. rewrite Hc.
  pose proof (CheckStatus_same c now) as Hsame. cbn [CheckStatus TimeConstraint] in *.
  assert (forall s, says m now s id <-> s = (HeartbeatTimeConstraint.CheckStatus c now).2) as Hs.
  { intros s. unfold says. rewrite Hc. cbn. naive_solver. }
  destruct (HeartbeatTimeConstraint.CheckStatus c now) as [c' st] eqn:E. cbn [fst snd] in *.
  destruct (decide (st = Damaged)) as [->|Hst].
  { intros [= <- <-]. split; try done; cbn.
    - intros i Hi. rewrite lookup_insert_ne; [done|]. intros ->. by rewrite Hc in Hi.
    - split; [|done]. intros _. exists id. split; [left|]. by apply Hs. }
  rewrite (Hsame Hst) in *. rewrite (insert_id _ _ _ Hc).
  replace (HeartbeatRecvMgr.mk (HeartbeatRecvMgr.m_constraintMap m) (HeartbeatRecvMgr.m_socketMap m)
    (HeartbeatRecvMgr.m_status m) (HeartbeatRecvMgr.waiting m)) with m by (by destruct m).
  intros Hl. apply (worst_cons _ _ _ _ _ _ _ st Hs Hst Hcl), IH; [by destruct st| |by destruct st].
  intros i Hi. apply Hids. by right.
Qed.

Lemma GetStatus_worst (m m' : mgr) now status : HeartbeatRecvMgr.m_status m <> Damaged ->
  HeartbeatRecvMgr.GetStatus m now = (m', status) ->
  worst m (map fst (map_to_list (HeartbeatRecvMgr.m_constraintMap m))) now Normal m' status.
Proof.
  intros Hst HG. apply GetStatus_loop_worst; [done| |].
  - intros id ([i c] & -> & Hi%elem_of_map_to_list)%list_elem_of_fmap. by exists c.
  - unfold HeartbeatRecvMgr.GetStatus in HG. by destruct (HeartbeatRecvMgr.m_status m).
Qed.

(** What a heartbeat on a socket leaves alone. *)
Record beat_frame (s id : Z) (m m' : mgr) : Prop := {
  bf_status : HeartbeatRecvMgr.m_status m' = HeartbeatRecvMgr.m_status m;
  bf_dom : forall i, HeartbeatRecvMgr.m_constraintMap m !! i = None -> HeartbeatRecvMgr.m_constraintMap m' !! i = None;
  bf_constraints : forall i, i <> id -> HeartbeatRecvMgr.m_constraintMap m' !! i = HeartbeatRecvMgr.m_constraintMap m !! i;
  bf_own : forall i, HeartbeatRecvMgr.waiting m' !! s = Some i -> i = id;
  bf_waiting : forall s', s' <> s -> HeartbeatRecvMgr.waiting m' !! s' = HeartbeatRecvMgr.waiting m !! s';
  bf_sockets : forall s', s' <> s -> s' ∈ HeartbeatRecvMgr.m_socketMap m -> s' ∈ HeartbeatRecvMgr.m_socketMap m' }.

Lemma wrappedRecv_frame (m : mgr) s err ok a b id : HeartbeatRecvMgr.waiting m !! s = Some id ->
  beat_frame s id m (HeartbeatRecvMgr.wrappedRecv m s err ok a b).1.
Proof.
  intros Ew. unfold HeartbeatRecvMgr.wrappedRecv. rewrite Ew.
  set (m1 := HeartbeatRecvMgr.mk _ _ _ (delete s _)).
  assert (beat_frame s id m m1) as F1.
  { split; cbn; try done; [by intros i; rewrite lookup_delete_eq|by intros; rewrite lookup_delete_ne]. }
  assert (forall m', beat_frame s id m m' -> beat_frame s id m (HeartbeatRecvMgr.RemoveSocket m' s)) as Hrem.
  { intros m' [F G H O J K]. split; cbn; try done; [by intros i; rewrite lookup_delete_eq
      |by intros; rewrite lookup_delete_ne; auto|intros; set_solver]. }
  destruct (HeartbeatRecvMgr.m_constraintMap m1 !! id) as [c|] eqn:Ec; [|by apply Hrem].
  destruct (_ && _); [|by apply Hrem]. destruct (CheckStatus c a) as [c' st].
  set (m2 := HeartbeatRecvMgr.mk (<[id := c']> _) _ _ _).
  assert (beat_frame s id m m2) as F2.
  { destruct F1 as [F G H O J K]. split; cbn in *; try done; [|by intros; rewrite lookup_insert_ne].
    intros i Hi. rewrite lookup_insert_ne; [auto|]. intros ->. congruence. }
  assert (forall f, beat_frame s id m (HeartbeatRecvMgr.update m2 id f)) as Hupd.
  { intros f. destruct F2 as [F G H O J K]. split; cbn -[m2]; try done.
    - intros i Hi. rewrite lookup_alter_None. auto.
    - intros i Hi. rewrite lookup_alter_ne by done. auto. }
  assert (forall m', beat_frame s id m m' -> beat_frame s id m (HeartbeatRecvMgr.StartWaiting m' id s)) as Hsw.
  { intros m' [F G H O J K]. split; cbn; try done; [intros i; rewrite lookup_insert_eq; by intros [= <-]
      |by intros; rewrite lookup_insert_ne; auto]. }
  destruct st; [destruct ok; cbn [fst]; auto|destruct ok; cbn [fst]; auto|by apply Hrem].
Qed.

(** A heartbeat on a socket that does not wait. *)
Lemma wrappedRecv_none (m : mgr) s err ok a b : HeartbeatRecvMgr.waiting m !! s = None ->
  HeartbeatRecvMgr.wrappedRecv m s err ok a b = (m, false).
Proof. intros Ew. unfold HeartbeatRecvMgr.wrappedRecv. by rewrite Ew. Qed.

(** The constraint of a heartbeat that arrives: damaged, or updated. *)
Lemma wrappedRecv_own (m : mgr) s a b id c : HeartbeatRecvMgr.waiting m !! s = Some id ->
  HeartbeatRecvMgr.m_constraintMap m !! id = Some c -> s ∈ HeartbeatRecvMgr.m_socketMap m ->
  let m' := (HeartbeatRecvMgr.wrappedRecv m s false true a b).1 in
  let '(c', st) := HeartbeatTimeConstraint.CheckStatus c a in
  if decide (st = Damaged) then HeartbeatRecvMgr.m_constraintMap m' !! id = Some c'
  else HeartbeatRecvMgr.m_constraintMap m' !! id = Some (HeartbeatTimeConstraint.update c' b) /\
    HeartbeatRecvMgr.waiting m' !! s = Some id /\ HeartbeatRecvMgr.m_socketMap m' = HeartbeatRecvMgr.m_socketMap m.
Proof.
  intros Ew Ec Hs. unfold HeartbeatRecvMgr.wrappedRecv. rewrite Ew. cbn [HeartbeatRecvMgr.m_constraintMap HeartbeatRecvMgr.m_socketMap].
  rewrite Ec, bool_decide_eq_true_2 by done. cbn [negb andb CheckStatus OnHeartbeatRecv TimeConstraint].
  destruct (HeartbeatTimeConstraint.CheckStatus c a) as [c' st].
  assert (alter (fun c0 => HeartbeatTimeConstraint.update c0 b) id (<[id:=c']> (HeartbeatRecvMgr.m_constraintMap m)) !! id
    = Some (HeartbeatTimeConstraint.update c' b)) as Ha by (by rewrite lookup_alter_eq, lookup_insert_eq).
  destruct st; cbn; rewrite ?Ha, ?lookup_insert_eq; done.
Qed.

(** The constraint of a heartbeat that is damaged already. *)
Lemma wrappedRecv_damaged (m : mgr) s a b id c : HeartbeatRecvMgr.waiting m !! s = Some id ->
  HeartbeatRecvMgr.m_constraintMap m !! id = Some c -> isDamaged c = true ->
  HeartbeatRecvMgr.m_constraintMap (HeartbeatRecvMgr.wrappedRecv m s false true a b).1 !! id = Some c.
Proof.
  intros Ew Ec Hd. unfold HeartbeatRecvMgr.wrappedRecv. rewrite Ew. cbn [HeartbeatRecvMgr.m_constraintMap HeartbeatRecvMgr.m_socketMap].
  rewrite Ec. cbn [CheckStatus TimeConstraint]. unfold HeartbeatTimeConstraint.CheckStatus. rewrite Hd.
  destruct (_ && _); cbn; [by rewrite lookup_insert_eq|done].
Qed.

Section status.
Context (m0 : mgr) (t0 : Z) (Hstart : started m0 t0).

Lemma tracks_start : tracks m0 [] m0.
Proof using Hstart.
  destruct Hstart as [S1 S2 S3]. split; [done|done|]. rewrite decide_False by done.
  intros id c0 Hc. exists c0. destruct (S2 id c0 Hc) as [Hd _]. rewrite Hd. split_and!; try done.
  - intros (pre & ev & post & Heq & _). by destruct pre.
  - intros s Hs. split; [done|]. by apply (S3 s id).
Qed.

(** A constraint is seen in time, unless the event is late for it. *)
Lemma tracked_check evs ev m id c0 now :
  in_order t0 (evs ++ [ev]) -> HeartbeatRecvMgr.m_constraintMap m0 !! id = Some c0 -> looks_at m0 id ev = Some now ->
  constraint_ok m0 evs m id c0 ->
  exists c, HeartbeatRecvMgr.m_constraintMap m !! id = Some c /\ timeout c = timeout c0 /\ timeoutStatus c = timeoutStatus c0 /\
    if isDamaged c then late m0 id evs else
      HeartbeatTimeConstraint.CheckStatus c now =
      (if decide (timeout c < now - lastUpdate c) then
        (HeartbeatTimeConstraint.mk (lastUpdate c) (timeout c) (timeoutStatus c) (bool_decide (timeoutStatus c = Damaged)), timeoutStatus c)
       else (c, Normal)) /\
      (late m0 id (evs ++ [ev]) <-> timeoutStatus c = Damaged /\ timeout c < now - lastUpdate c).
Proof using Hstart.
  intros [Ho Hn]%in_order_snoc Hc0 Hl (c & Hc & Et & Es & Hd). exists c. split_and!; try done.
  destruct (isDamaged c) eqn:Ed; [done|]. destruct Hd as (Hnl & El & _).
  destruct (st_constraints m0 t0 Hstart id c0 Hc0) as [_ Hb].
  pose proof (last_beat_bounds m0 id (lastUpdate c0) t0 evs Hb Ho) as Hlb.
  assert (end_time t0 evs <= now < 2 ^ 64) as Hnow.
  { destruct ev as [s a b|n]; cbn in Hl, Hn; [case_match; [|done]|]; injection Hl as <-; lia. }
  split; [apply CheckStatus_run; [done|rewrite El; lia|lia]|].
  rewrite late_snoc, (late_at_spec m0 id c0 evs ev now Hc0 Hl), El, Es, Et. tauto.
Qed.

(** The status is asked for. *)
Lemma tracks_status evs now m : in_order t0 (evs ++ [Status now]) -> tracks m0 evs m ->
  tracks m0 (evs ++ [Status now]) (HeartbeatRecvMgr.GetStatus m now).1.
Proof using Hstart.
  intros Ho [Tw Td Ts]. case_decide as Hst.
  { unfold HeartbeatRecvMgr.GetStatus. rewrite Hst. cbn. split; [done|done|]. rewrite decide_True by done.
    destruct Ts as [id Hl]. exists id. apply late_snoc. by left. }
  destruct (HeartbeatRecvMgr.GetStatus m now) as [m' status] eqn:E. cbn [fst].
  destruct (GetStatus_worst m m' now status Hst E) as [W1 W2 W3 W4 W5 _].
  split; [by rewrite W2|intros id Hid; by apply W3, Td|]. rewrite W1. case_decide as Hd.
  - apply W4 in Hd as (id & _ & c & Hc & Hs). exists id.
    destruct (HeartbeatRecvMgr.m_constraintMap m0 !! id) as [c0|] eqn:Hc0; [|by rewrite (Td id Hc0) in Hc].
    destruct (tracked_check evs (Status now) m id c0 now Ho Hc0 eq_refl (Ts id c0 Hc0)) as (c' & Hc' & _ & _ & Hk).
    assert (c' = c) as -> by congruence. destruct (isDamaged c); [apply late_snoc; by left|].
    destruct Hk as [Hk Hl]. apply Hl. cbn in Hs. rewrite Hk in Hs. by case_decide.
  - rewrite (W5 Hd). intros id c0 Hc0.
    destruct (tracked_check evs (Status now) m id c0 now Ho Hc0 eq_refl (Ts id c0 Hc0)) as (c & Hc & Et & Es & Hk).
    destruct (Ts id c0 Hc0) as (c' & Hc' & _ & _ & Hk'). assert (c' = c) as -> by congruence. clear Hc'.
    exists c. split_and!; [done..|]. destruct (isDamaged c); [apply late_snoc; by left|].
    destruct Hk as [Hk Hl], Hk' as (_ & El & Hw). rewrite last_beat_snoc. split; [|done].
    rewrite Hl. intros [Hsd Ht]. apply Hd, W4. exists id. split.
    + apply list_elem_of_fmap. exists (id, c). split; [done|]. by apply elem_of_map_to_list.
    + exists c. split; [done|]. cbn. rewrite Hk, decide_True by done. by rewrite <-Hsd.
Qed.

(** A heartbeat for another constraint. *)
Lemma constraint_ok_other evs m m' s a b id id' c0 :
  HeartbeatRecvMgr.waiting m0 !! s <> Some id' \/ id <> id' /\ HeartbeatRecvMgr.waiting m0 !! s = Some id ->
  HeartbeatRecvMgr.m_constraintMap m' !! id' = HeartbeatRecvMgr.m_constraintMap m !! id' ->
  (forall s', s' <> s -> HeartbeatRecvMgr.waiting m' !! s' = HeartbeatRecvMgr.waiting m !! s' /\
    (s' ∈ HeartbeatRecvMgr.m_socketMap m -> s' ∈ HeartbeatRecvMgr.m_socketMap m')) ->
  constraint_ok m0 evs m id' c0 -> constraint_ok m0 (evs ++ [Beat s a b]) m' id' c0.
Proof.
  intros Hs Hm Hw (c & Hc & Et & Es & Hd). assert (HeartbeatRecvMgr.waiting m0 !! s <> Some id') as Hne by naive_solver.
  exists c. rewrite Hm. split_and!; try done. destruct (isDamaged c); [apply late_snoc; by left|].
  destruct Hd as (Hnl & El & Hsock). rewrite late_snoc, last_beat_snoc, decide_False by done. split_and!; [|done|].
  - intros [?|(? & ? & _ & _ & Hl & _)]; [done|]. cbn in Hl. by rewrite decide_False in Hl.
  - intros s' Hs'. destruct (Hw s') as [-> Hi]; [naive_solver|]. naive_solver.
Qed.

Lemma tracks_beat evs s a b m : in_order t0 (evs ++ [Beat s a b]) -> tracks m0 evs m ->
  tracks m0 (evs ++ [Beat s a b]) (HeartbeatRecvMgr.wrappedRecv m s false true a b).1.
Proof using Hstart.
  intros Ho [Tw Td Ts]. destruct (HeartbeatRecvMgr.waiting m !! s) as [id|] eqn:Ew.
  2:{ rewrite wrappedRecv_none by done. split; [done..|]. cbn [fst]. case_decide.
      { destruct Ts as [id Hl]. exists id. apply late_snoc. by left. }
      intros id c0 Hc0. specialize (Ts id c0 Hc0).
      destruct (decide (HeartbeatRecvMgr.waiting m0 !! s = Some id)) as [Hid|Hid];
        [|by eapply (constraint_ok_other evs m m s a b id); [by left| | |exact Ts]].
      destruct Ts as (c & Hc & Et & Es & Hd). exists c. split_and!; try done.
      destruct (isDamaged c); [apply late_snoc; by left|]. destruct Hd as (_ & _ & Hw).
      destruct (Hw s Hid) as [Hw' _]. by rewrite Ew in Hw'. }
  destruct (wrappedRecv_frame m s false true a b id Ew) as [Fst Fd Fc Fo Fw Fs]. pose proof (Tw _ _ Ew) as Ew0.
  split; [|intros i Hid; by apply Fd, Td|rewrite Fst; case_decide as Hst].
  { intros s' i Hi. destruct (decide (s' = s)) as [->|Hne]; [by rewrite (Fo i Hi)|]. apply Tw. by rewrite <-(Fw s' Hne). }
  { destruct Ts as [i Hl]. exists i. apply late_snoc. by left. }
  intros id' c0' Hc0'. destruct (decide (id' = id)) as [->|Hne].
  2:{ eapply (constraint_ok_other evs m _ s a b id id'); [by right|by apply Fc|intros s' Hs'; auto|by apply Ts]. }
  destruct (tracked_check evs (Beat s a b) m id c0' a Ho Hc0') as (c & Hc & Et & Es & Hk);
    [cbn; by rewrite decide_True|by apply Ts|].
  destruct (Ts id c0' Hc0') as (c' & Hc' & _ & _ & Hk'). assert (c' = c) as -> by congruence. clear Hc'.
  unfold constraint_ok. destruct (isDamaged c) eqn:Ed.
  { exists c. rewrite (wrappedRecv_damaged m s a b id c) by done. rewrite Ed. split_and!; try done. apply late_snoc. by left. }
  destruct Hk as [Hk Hl], Hk' as (Hnl & El & Hw). destruct (Hw s Ew0) as [_ Hs].
  pose proof (wrappedRecv_own m s a b id c Ew Hc Hs) as Hown. cbn zeta in Hown. rewrite Hk in Hown.
  destruct (decide (timeoutStatus c = Damaged /\ timeout c < a - lastUpdate c)) as [[Hsd Ht]|Hno].
  { rewrite decide_True, decide_True in Hown by done. eexists. split; [exact Hown|]. cbn.
    split_and!; try done. rewrite bool_decide_eq_true_2 by done. by apply Hl. }
  assert (exists c', timeout c' = timeout c /\ timeoutStatus c' = timeoutStatus c /\ isDamaged c' = false /\
    HeartbeatRecvMgr.m_constraintMap (HeartbeatRecvMgr.wrappedRecv m s false true a b).1 !! id
    = Some (HeartbeatTimeConstraint.update c' b) /\
    HeartbeatRecvMgr.waiting (HeartbeatRecvMgr.wrappedRecv m s false true a b).1 !! s = Some id /\
    HeartbeatRecvMgr.m_socketMap (HeartbeatRecvMgr.wrappedRecv m s false true a b).1 = HeartbeatRecvMgr.m_socketMap m)
    as (c' & Et' & Es' & Ed' & Hm & Hwt & Hso).
  { destruct (decide (timeout c < a - lastUpdate c)); [|by exists c; rewrite decide_False in Hown].
    rewrite decide_False in Hown by naive_solver. eexists. split; [|split; [|split; [|exact Hown]]]; [done..|].
    cbn. apply bool_decide_eq_false_2. naive_solver. }
  exists (HeartbeatTimeConstraint.update c' b). cbn. rewrite Ed', last_beat_snoc, decide_True by done.
  split_and!; try done; [by rewrite Et', Et|by rewrite Es', Es|by rewrite Hl|].
  intros s' Hs'. rewrite Hso. destruct (decide (s' = s)) as [->|Hne]; [done|]. rewrite (Fw s' Hne). by apply Hw.
Qed.

Lemma tracks_run evs : in_order t0 evs -> tracks m0 evs (run m0 evs).
Proof using Hstart.
  induction evs as [|ev evs IH] using rev_ind; intros Ho; [apply tracks_start|].
  unfold run. rewrite foldl_app. pose proof Ho as [Ho' _]%in_order_snoc. cbn [foldl].
  destruct ev; [apply tracks_beat|apply tracks_status]; auto.
Qed.
End status.

Lemma GetStatus_status (m : mgr) now : (HeartbeatRecvMgr.GetStatus m now).2 = HeartbeatRecvMgr.m_status (HeartbeatRecvMgr.GetStatus m now).1.
Proof.
  destruct (decide (HeartbeatRecvMgr.m_status m = Damaged)) as [Hd|Hd].
  - unfold HeartbeatRecvMgr.GetStatus. by rewrite Hd.
  - destruct (HeartbeatRecvMgr.GetStatus m now) as [m' st] eqn:E. symmetry. apply (ws_status _ _ _ _ _ _ (GetStatus_worst m m' now st Hd E)).
Qed.

Lemma GetStatus_final (m : mgr) now : HeartbeatRecvMgr.m_status m = Damaged -> (HeartbeatRecvMgr.GetStatus m now).2 = Damaged.
Proof. intros Hd. unfold HeartbeatRecvMgr.GetStatus. by rewrite Hd. Qed.

Lemma run_snoc m evs ev : run m (evs ++ [ev]) = step (run m evs) ev.
Proof. unfold run. by rewrite foldl_app. Qed.

(** C14. Damage, exactly: after any messages and queries, with a clock that does
    not go back, the enclave reports itself damaged if and only if for some
    constraint that damages on a timeout, a message or a query - the present one
    included - came more than the timeout after the last heartbeat before it.
    So it is damaged forever once it has been too late, and never otherwise. *)
Theorem damaged_iff_late m0 t0 evs now :
  started m0 t0 -> in_order t0 (evs ++ [Status now]) ->
  (HeartbeatRecvMgr.GetStatus (run m0 evs) now).2 = Damaged <-> exists id, late m0 id (evs ++ [Status now]).
Proof.
  intros Hs Ho. pose proof (tracks_run m0 t0 Hs _ Ho) as [_ _ Ht]. rewrite run_snoc in Ht. cbn [step] in Ht.
  rewrite GetStatus_status. case_decide as Hd; [done|]. split; [done|]. intros (id & Hl).
  pose proof Hl as (_ & _ & _ & _ & c0 & _ & Hc0 & _).
  destruct (Ht id c0 Hc0) as (c & Hc & _ & _ & Hk). destruct (isDamaged c) eqn:Ed; [|naive_solver].
  destruct (decide (HeartbeatRecvMgr.m_status (run m0 evs) = Damaged)) as [Hm|Hm];
    [by rewrite <-GetStatus_status, GetStatus_final in Hd|].
  destruct (HeartbeatRecvMgr.GetStatus (run m0 evs) now) as [m' st] eqn:E.
  destruct (GetStatus_worst _ _ _ _ Hm E) as [W1 _ _ W4 W5 _]. cbn [fst] in *. rewrite W1 in Hd |- *.
  apply W4. exists id. rewrite (W5 Hd) in Hc. cbn in Hc. split.
  - apply list_elem_of_fmap. exists (id, c). split; [done|]. by apply elem_of_map_to_list.
  - exists c. split; [done|]. cbn. unfold HeartbeatTimeConstraint.CheckStatus. by rewrite Ed.
Qed.

(** Two receivers, one of which may only suspend the enclave. *)
Definition sample_mgr : mgr :=
  let add m id c socket now := fst (HeartbeatRecvMgr.AddRecv m id c socket true now) in
  add (add HeartbeatRecvMgr.create 1 (HeartbeatTimeConstraint.create 60 Damaged) 10 1000)
    2 (HeartbeatTimeConstraint.create 30 Suspended) 20 1005.
Definition sample_events : list Event := [Beat 10 1050 1051; Status 1100; Beat 20 1110 1110; Beat 10 1112 1112].

Lemma sample_started : started sample_mgr 1005.
Proof.
  split; [done| |].
  - assert (map_Forall (fun _ c => isDamaged c = false /\ 0 <= lastUpdate c <= 1005) (HeartbeatRecvMgr.m_constraintMap sample_mgr))
      as Hall by (apply (bool_decide_unpack _); vm_compute; exact I).
    exact Hall.
  - intros s id. change (HeartbeatRecvMgr.waiting sample_mgr) with (<[20:=2]> (<[10:=1]> (∅ : gmap Z Z))).
    intros [[<- <-]|[_ [[<- <-]|[_ Hx]]%lookup_insert_Some]]%lookup_insert_Some;
      [split; [apply (bool_decide_unpack _); vm_compute; exact I|by eexists]..|].
    by rewrite lookup_empty in Hx.
Qed.

Lemma damaged_iff_late_witness :
  ((HeartbeatRecvMgr.GetStatus (run sample_mgr sample_events) 1120).2 = Damaged <->
    exists id, late sample_mgr id (sample_events ++ [Status 1120])) /\
  (HeartbeatRecvMgr.GetStatus (run sample_mgr sample_events) 1120).2 = Damaged.
Proof.
  split; [|vm_compute; reflexivity]. apply (damaged_iff_late sample_mgr 1005); [apply sample_started|].
  cbn. lia.
Defined.

(** ** A reading of the clock that is older than the last heartbeat *)

(** [GetStatus] and the callback of a receive read the clock before they look
    at the constraint, and a heartbeat another thread takes in between is later
    than that reading: the difference wraps, the constraint counts as timed out,
    and one with the status [Damaged] stays damaged although every heartbeat was
    in time. *)
Theorem stale_reading_damages c now beat later :
  timeoutStatus c = Damaged -> 0 <= now < beat -> beat < 2 ^ 64 -> timeout c < 2 ^ 64 - (beat - now) ->
  let checked := CheckStatus (OnHeartbeatRecv c beat) now in
  checked.2 = Damaged /\ (CheckStatus checked.1 later).2 = Damaged.
Proof.
  intros Hs Hn Hb Ht checked.
  assert (checked.2 = Damaged /\ isDamaged checked.1 = true) as [-> Hd].
  { subst checked. cbn. unfold HeartbeatTimeConstraint.CheckStatus. cbn. destruct (isDamaged c) eqn:Ed; [done|].
    assert (u64 (now - beat) = 2 ^ 64 - (beat - now)) as ->.
    { unfold wrap. rewrite <-(Z_mod_plus_full (now - beat) 1 (2 ^ 64)). rewrite Z.mod_small; lia. }
    rewrite (proj2 (Z.ltb_lt _ _)) by lia. cbn. by rewrite Hs. }
  split; [done|]. clearbody checked. cbn. unfold HeartbeatTimeConstraint.CheckStatus. by rewrite Hd.
Qed.

Lemma stale_reading_damages_witness :
  let c := InitTime (HeartbeatTimeConstraint.create 60 Damaged) 1000 in
  let checked := CheckStatus (OnHeartbeatRecv c 1020) 1019 in
  checked.2 = Damaged /\ (CheckStatus checked.1 1021).2 = Damaged.
Proof. apply (stale_reading_damages (InitTime (HeartbeatTimeConstraint.create 60 Damaged) 1000) 1019 1020 1021); cbn; lia || done. Defined.

(** A receiver for a socket that has one is refused, but its constraint stays,
    with the time it was never given, and damages the enclave. *)
Lemma refused_receiver_damages (m : mgr) id t socket now :
  HeartbeatRecvMgr.m_status m <> Damaged -> HeartbeatRecvMgr.m_constraintMap m !! id = None ->
  socket ∈ HeartbeatRecvMgr.m_socketMap m -> 0 <= t < now -> now < 2 ^ 64 ->
  let '(m', r) := HeartbeatRecvMgr.AddRecv m id (HeartbeatTimeConstraint.create t Damaged) socket true now in
  r = Throw tt /\ (HeartbeatRecvMgr.GetStatus m' now).2 = Damaged.
Proof.
  intros Hm Hid Hs Ht Hn. unfold HeartbeatRecvMgr.AddRecv, HeartbeatRecvMgr.AddConstraint, HeartbeatRecvMgr.AddSocket.
  rewrite Hid. cbn [HeartbeatRecvMgr.m_socketMap]. rewrite bool_decide_eq_true_2 by done. split; [done|].
  set (m' := HeartbeatRecvMgr.mk _ _ _ _). destruct (HeartbeatRecvMgr.GetStatus m' now) as [m'' st] eqn:E.
  destruct (GetStatus_worst m' m'' now st Hm E) as [_ _ _ W4 _ _]. apply W4. exists id. split.
  - apply list_elem_of_fmap. eexists (id, _). split; [done|]. apply elem_of_map_to_list. cbn. apply lookup_insert_eq.
  - eexists. split; [apply lookup_insert_eq|]. cbn. unfold HeartbeatTimeConstraint.CheckStatus. cbn.
    rewrite wrap_small by (unfold fits; lia). by rewrite (proj2 (Z.ltb_lt _ _)) by lia.
Qed.

(** ** What the emitters that are left are *)

Section emitters.
Context {S E Err : Type} (emit : E -> stx S Err unit).
Context (m_emitterList : S -> list E) (set_emitterList : list E -> S -> S).

(** A property of the states that every emitter keeps. *)
Lemma EmitAll_loop_inv (I : list E -> list E -> S -> Prop) l s :
  (forall e l1 l2 s, I l1 (e :: l2) s -> let '(s', r) := emit e s in
    match r with Ok _ => I (l1 ++ [e]) l2 s' | Throw _ => I l1 l2 s' end) ->
  I [] l s -> let '(s', valid) := HeartbeatEmitterMgr.EmitAll_loop emit l s in I valid [] s'.
Proof.
  intros Hstep. enough (forall l1 s, I l1 l s -> let '(s', valid) := HeartbeatEmitterMgr.EmitAll_loop emit l s in
    I (l1 ++ valid) [] s') as Hall by apply (Hall []).
  induction l as [|e l IH]; intros l1 s0 HI; [by cbn; rewrite app_nil_r|]. cbn [HeartbeatEmitterMgr.EmitAll_loop].
  specialize (Hstep e l1 l s0 HI). destruct (emit e s0) as [s1 [x|x]].
  - specialize (IH (l1 ++ [e]) s1 Hstep).
    destruct (HeartbeatEmitterMgr.EmitAll_loop emit l s1) as [s2 valid]. by rewrite <-app_assoc in IH.
  - specialize (IH l1 s1 Hstep). by destruct (HeartbeatEmitterMgr.EmitAll_loop emit l s1) as [s2 valid].
Qed.
End emitters.
