(* ===== verification/Pubsub.v ===== *)
(** * The subscription services

    [EthereumClt/Trusted/Pubsub/SubscriberService.hpp] and [SubscriberHandler.hpp]:
    the callbacks that follow the on-chain publish-subscribe service and store
    the events of every publisher, and the requests of subscribers;
    [ReceiptSubscriber.hpp]: subscriptions to the logs of any contract. *)

From stdpp Require Import strings gmap.
From S2P Require Import Prelude RlpEncoding RlpDecoding Keccak Bloom EthHeader Trie Receipts Events Checkpoint Monitor Heartbeat Abi.

(** ** Data *)

(** The block number and the message of an event. *)
Abbreviation EventData := (list bytes).
Abbreviation EventDataQueue := (list EventData).

(** The block number, the topics and the data of a log. *)
Record ReceiptData := mkReceiptData { rd_number : bytes; rd_topics : list bytes; rd_data : bytes }.

(** What [BuildEmittedMsg] and [SubscribedReceiptEmitter] serialise. *)
Inductive Message :=
| EmittedMsg (secState : MonitorSecState) (latestBlkNum : bytes) (events : EventDataQueue)
| EmittedReceipts (secState : MonitorSecState) (latestBlkNum : bytes) (receipts : list ReceiptData).

(** The closures of the heartbeat emitter: the socket, the queue and the listener
    they capture. *)
Inductive Emitter :=
| PubsubEmitter (socket queue : nat) (listenId : Z)
| ReceiptEmitter (socket queue : nat) (listenId : Z).

Module PubsubServiceStore.
Record t := mk {
  m_pubsubContAddr : bytes; m_deployEvTopic : bytes; m_regEvTopic : bytes; m_notifyEvTopic : bytes;
  m_isDeployed : bool;
  m_evMgrAddrMap : gmap bytes bytes;
  m_pastEventStore : gmap bytes nat }.

Definition create (pubsubContAddr deployEvSign regEvSign notifyEvSign : bytes) : t :=
  mk pubsubContAddr (Keccak256 deployEvSign) (Keccak256 regEvSign) (Keccak256 notifyEvSign) false ∅ ∅.
End PubsubServiceStore.

(** The members of the blockchain manager that its callbacks set, with how often
    the host was asked, and the lines [LogMonitorStatus] has logged: the name of
    the phase, the hashes of the genesis and of the last checkpoint, and the
    iteration. *)
Record Manager := mkManager {
  m_lastChkptIter : Z; m_lastValidatedBlkNum : bytes; m_hostCalls : nat; m_log : list (string * bytes * bytes * Z) }.

(** The state of the application: the store of the service, the queues the
    closures share, by reference, the list of emitters, what was sent on each
    socket, and the blockchain manager. *)
Record Owner := mkOwner {
  m_svcStore : PubsubServiceStore.t;
  m_queues : gmap nat EventDataQueue; m_receiptQueues : gmap nat (list ReceiptData);
  m_emitterList : list Emitter; m_sent : gmap nat (list Message);
  m_mgr : Manager }.

(** The addresses of new objects, which are not in use. *)
Class Malloc := {
  new_listener : EventManager.t Callback -> Z;
  new_queue : forall {A}, gmap nat A -> nat }.
Class MallocLaws `{Malloc} := {
  new_listener_fresh : forall m, m !! new_listener m = None;
  new_queue_fresh : forall A (m : gmap nat A), m !! new_queue m = None }.

Local Abbreviation W := (World Owner).
Local Abbreviation M := (stx (World Owner) Error).

(** ** State operations *)

Definition lift_w {A} (r : result Error A) : M A := fun w => (w, r).
Definition get_w : M W := fun w => (w, Ok w).
Definition set_events (ev : EventManager.t Callback) : M unit := fun w =>
  (mkWorld (w_states w) ev (w_owner w), Ok tt).
Definition set_owner (o : Owner) : M unit := fun w => (mkWorld (w_states w) (w_events w) o, Ok tt).

Definition with_store (s : PubsubServiceStore.t) (o : Owner) : Owner :=
  mkOwner s (m_queues o) (m_receiptQueues o) (m_emitterList o) (m_sent o) (m_mgr o).
Definition with_queues (q : gmap nat EventDataQueue) (o : Owner) : Owner :=
  mkOwner (m_svcStore o) q (m_receiptQueues o) (m_emitterList o) (m_sent o) (m_mgr o).
Definition with_receiptQueues (q : gmap nat (list ReceiptData)) (o : Owner) : Owner :=
  mkOwner (m_svcStore o) (m_queues o) q (m_emitterList o) (m_sent o) (m_mgr o).
Definition with_emitterList (l : list Emitter) (o : Owner) : Owner :=
  mkOwner (m_svcStore o) (m_queues o) (m_receiptQueues o) l (m_sent o) (m_mgr o).
Definition with_sent (s : gmap nat (list Message)) (o : Owner) : Owner :=
  mkOwner (m_svcStore o) (m_queues o) (m_receiptQueues o) (m_emitterList o) s (m_mgr o).

(** [push_back] on a queue. *)
Definition push_event (queue : nat) (ev : EventData) : M unit :=
  w ← get_w;
  set_owner (with_queues (alter (fun q => q ++ [ev]) queue (m_queues (w_owner w))) (w_owner w)).

(** ** Events of the service *)

Section handlers.
Context `{Alloc : Allocator} `{Heap : Malloc}.

(** [_MsgParser().ToPrimitive] on the data of a log. *)
Definition ParseEventMsg (log : ReceiptLogEntry.t) : result Error bytes :=
  let data := ReceiptLogEntry.m_logData log in
  '(evMsg, _) ← AbiParser_ToPrimitive ABytes data (Some data);
  match evMsg with VBytes b => Ok b | _ => Throw (Undefined "type") end.

(** The two [_AddrParser]s of the registration event. *)
Definition ParseAddr (begin : bytes) : result Error (bytes * bytes) :=
  '(abi, begin) ← AbiParser_ToPrimitive (ABytesFixed 32) begin None;
  match abi with VBytes b => Ok (drop 12 b, begin) | _ => Throw (Undefined "type") end.

Definition ListenTo (desc : EventDescription.t Callback) : M Z :=
  w ← get_w;
  let '(events, id) := EventManager.Listen (w_events w) (new_listener (w_events w)) desc in
  set_events events ;;
  mret id.

Definition event_data (headerMgr : HeaderMgr.t) (evMsg : bytes) : EventData :=
  [EthHeader.Number (HeaderMgr.m_rawHeader headerMgr); evMsg].

Definition NotifyPastEventHandler (headerMgr : HeaderMgr.t) (log : ReceiptLogEntry.t) : M unit :=
  evMsg ← lift_w (ParseEventMsg log);
  w ← get_w;
  match PubsubServiceStore.m_pastEventStore (m_svcStore (w_owner w)) !! ReceiptLogEntry.m_contractAddr log with
  | Some evQueue => push_event evQueue (event_data headerMgr evMsg)
  | None => mret tt
  end.

Definition BuildNotifyPastEventDescr (evMgrContAddr : bytes) (svcStore : PubsubServiceStore.t)
  : EventDescription.t Callback :=
  EventDescription.create evMgrContAddr [PubsubServiceStore.m_notifyEvTopic svcStore] (OnUser NotifyPastEvent).

(** The event manager is alive while it makes callbacks, so [lock] succeeds. *)
Definition RegEventHandler (log : ReceiptLogEntry.t) : M unit :=
  '(pubAddr, abiBegin) ← lift_w (ParseAddr (ReceiptLogEntry.m_logData log));
  '(evMgrAddr, _) ← lift_w (ParseAddr abiBegin);
  w ← get_w;
  let s := m_svcStore (w_owner w) in
  let queues := m_queues (w_owner w) in
  let evQueue := new_queue queues in
  let '(store, queues) :=
    match PubsubServiceStore.m_pastEventStore s !! evMgrAddr with
    | Some _ => (PubsubServiceStore.m_pastEventStore s, queues)
    | None => (<[evMgrAddr := evQueue]> (PubsubServiceStore.m_pastEventStore s), <[evQueue := []]> queues)
    end in
  let s := PubsubServiceStore.mk (PubsubServiceStore.m_pubsubContAddr s) (PubsubServiceStore.m_deployEvTopic s)
    (PubsubServiceStore.m_regEvTopic s) (PubsubServiceStore.m_notifyEvTopic s) (PubsubServiceStore.m_isDeployed s)
    (<[pubAddr := evMgrAddr]> (PubsubServiceStore.m_evMgrAddrMap s)) store in
  set_owner (with_queues queues (with_store s (w_owner w))) ;;
  _ ← ListenTo (BuildNotifyPastEventDescr evMgrAddr s);
  mret tt.

Definition BuildRegEventDescr (svcStore : PubsubServiceStore.t) : EventDescription.t Callback :=
  EventDescription.create (PubsubServiceStore.m_pubsubContAddr svcStore)
    [PubsubServiceStore.m_regEvTopic svcStore] (OnUser RegEvent).

Definition DeployEventHandler (cbID : Z) : M unit :=
  w ← get_w;
  let s := m_svcStore (w_owner w) in
  let s := PubsubServiceStore.mk (PubsubServiceStore.m_pubsubContAddr s) (PubsubServiceStore.m_deployEvTopic s)
    (PubsubServiceStore.m_regEvTopic s) (PubsubServiceStore.m_notifyEvTopic s) true
    (PubsubServiceStore.m_evMgrAddrMap s) (PubsubServiceStore.m_pastEventStore s) in
  set_owner (with_store s (w_owner w)) ;;
  set_events (EventManager.Cancel (w_events w) cbID) ;;
  _ ← ListenTo (BuildRegEventDescr s);
  mret tt.

Definition AddressToAbiAddress (addr : bytes) : bytes := replicate 12 0 ++ addr.

Definition BuildDeployEventDescr (svcStore : PubsubServiceStore.t) : EventDescription.t Callback :=
  EventDescription.create (PubsubServiceStore.m_pubsubContAddr svcStore)
    [PubsubServiceStore.m_deployEvTopic svcStore; AddressToAbiAddress (PubsubServiceStore.m_pubsubContAddr svcStore)]
    (OnUser DeployEvent).

(** [SubscriberService::Start]. *)
Definition Start : M unit :=
  w ← get_w;
  _ ← ListenTo (BuildDeployEventDescr (m_svcStore (w_owner w)));
  mret tt.

(** An address of zeros if the publisher is not known. *)
Definition GetEventMgrAddr (s : PubsubServiceStore.t) (publisherAddr : bytes) : bytes :=
  default (replicate 20 0) (PubsubServiceStore.m_evMgrAddrMap s !! publisherAddr).

(** A copy of the queue. *)
Definition GetPastEvents (o : Owner) (evMgrAddr : bytes) : EventDataQueue :=
  match PubsubServiceStore.m_pastEventStore (m_svcStore o) !! evMgrAddr with
  | Some queue => default [] (m_queues o !! queue)
  | None => []
  end.

(** ** Subscribers *)

Definition NotifyEventHandler (evQueue : nat) (headerMgr : HeaderMgr.t) (log : ReceiptLogEntry.t) : M unit :=
  evMsg ← lift_w (ParseEventMsg log);
  push_event evQueue (event_data headerMgr evMsg).

Definition BuildNotifyEventDescr (evMgrContAddr notifyEvTopic : bytes) (eventQueue : nat)
  : EventDescription.t Callback :=
  EventDescription.create evMgrContAddr [notifyEvTopic] (OnUser (NotifyEvent eventQueue)).

Definition SubscribedReceiptHandler (recQueue : nat) (headerMgr : HeaderMgr.t) (log : ReceiptLogEntry.t) : M unit :=
  w ← get_w;
  let item := mkReceiptData (EthHeader.Number (HeaderMgr.m_rawHeader headerMgr)) (ReceiptLogEntry.m_topics log)
    (ReceiptLogEntry.m_logData log) in
  set_owner (with_receiptQueues (alter (fun q => q ++ [item]) recQueue (m_receiptQueues (w_owner w))) (w_owner w)).

Definition BuildSubscribedEventDescr (contAddr : bytes) (notifyEvTopics : list bytes) (receiptQueue : nat)
  : EventDescription.t Callback :=
  EventDescription.create contAddr notifyEvTopics (OnUser (SubscribedReceipt receiptQueue)).

(** What the closures the descriptions hold do. *)
#[export] Instance Pubsub_handler : UserHandler Owner := fun user headerMgr log cbID =>
  match user with
  | DeployEvent => DeployEventHandler cbID
  | RegEvent => RegEventHandler log
  | NotifyPastEvent => NotifyPastEventHandler headerMgr log
  | NotifyEvent queue => NotifyEventHandler queue headerMgr log
  | SubscribedReceipt queue => SubscribedReceiptHandler queue headerMgr log
  end.

(** [SizedSendBytes]: [sendOk] says whether the socket takes the message. *)
Definition SizedSend (sendOk : bool) (socket : nat) (msg : Message) : M unit :=
  if sendOk then
    w ← get_w;
    set_owner (with_sent (<[socket := default [] (m_sent (w_owner w) !! socket) ++ [msg]]> (m_sent (w_owner w))) (w_owner w))
  else lift_w (Throw (FromStd "socket")).

(** [catch (const std::exception&)]: cancel the listener and throw on. *)
Definition cancel_on_throw (listenId : Z) (m : M unit) : M unit := fun w =>
  match m w with
  | (w, Throw e) =>
    (mkWorld (w_states w) (EventManager.Cancel (w_events w) listenId) (w_owner w), Throw e)
  | r => r
  end.

(** The queue is taken, and an empty one left. *)
Definition take_queue (evQueue : nat) : M EventDataQueue :=
  w ← get_w;
  set_owner (with_queues (<[evQueue := []]> (m_queues (w_owner w))) (w_owner w)) ;;
  mret (default [] (m_queues (w_owner w) !! evQueue)).

Definition EmitterHandler (secState : MonitorSecState) (sendOk : bool) (socket evQueue : nat) (listenId : Z) : M unit :=
  cancel_on_throw listenId (
    outEvQueue ← take_queue evQueue;
    w ← get_w;
    SizedSend sendOk socket (EmittedMsg secState (m_lastValidatedBlkNum (m_mgr (w_owner w))) outEvQueue)).

(** The publisher's address is the one of the parsed message. *)
Definition SubReq (secState : MonitorSecState) (sendOk : bool) (socket : nat) (pubAddr : bytes) : M unit :=
  w ← get_w;
  let eventMgrAddr := GetEventMgrAddr (m_svcStore (w_owner w)) pubAddr in
  if bool_decide (eventMgrAddr = replicate 20 0) then mret tt
  else
    let eventQueue := new_queue (m_queues (w_owner w)) in
    set_owner (with_queues (<[eventQueue := []]> (m_queues (w_owner w))) (w_owner w)) ;;
    listenId ← ListenTo (BuildNotifyEventDescr eventMgrAddr
      (PubsubServiceStore.m_notifyEvTopic (m_svcStore (w_owner w))) eventQueue);
    w ← get_w;
    SizedSend sendOk socket (EmittedMsg secState (m_lastValidatedBlkNum (m_mgr (w_owner w)))
      (GetPastEvents (w_owner w) eventMgrAddr)) ;;
    w ← get_w;
    set_owner (with_emitterList (m_emitterList (w_owner w) ++ [PubsubEmitter socket eventQueue listenId]) (w_owner w)).

Definition SubscribedReceiptEmitter (secState : MonitorSecState) (sendOk : bool) (socket recQueue : nat)
    (listenId : Z) : M unit :=
  cancel_on_throw listenId (
    w ← get_w;
    set_owner (with_receiptQueues (<[recQueue := []]> (m_receiptQueues (w_owner w))) (w_owner w)) ;;
    let outQueue := default [] (m_receiptQueues (w_owner w) !! recQueue) in
    w ← get_w;
    SizedSend sendOk socket (EmittedReceipts secState (m_lastValidatedBlkNum (m_mgr (w_owner w))) outQueue)).

(** The contract and the topics are the ones of the parsed message. *)
Definition ReceiptSubReq (socket : nat) (conAddr : bytes) (topics : list bytes) : M unit :=
  if negb (zlen conAddr =? 20) then mret tt
  else if negb (forallb (fun topic => zlen topic =? 32) topics) then mret tt
  else
    w ← get_w;
    let receiptQueue := new_queue (m_receiptQueues (w_owner w)) in
    set_owner (with_receiptQueues (<[receiptQueue := []]> (m_receiptQueues (w_owner w))) (w_owner w)) ;;
    listenId ← ListenTo (BuildSubscribedEventDescr conAddr topics receiptQueue);
    w ← get_w;
    set_owner (with_emitterList (m_emitterList (w_owner w) ++ [ReceiptEmitter socket receiptQueue listenId]) (w_owner w)).

Definition run_emitter (secState : Emitter -> MonitorSecState) (sendOk : Emitter -> bool) (e : Emitter) : M unit :=
  match e with
  | PubsubEmitter socket queue listenId => EmitterHandler (secState e) (sendOk e) socket queue listenId
  | ReceiptEmitter socket queue listenId => SubscribedReceiptEmitter (secState e) (sendOk e) socket queue listenId
  end.

(** One heartbeat to all subscribers: [HeartbeatEmitterMgr::EmitAll]. *)
Definition EmitAll (secState : Emitter -> MonitorSecState) (sendOk : Emitter -> bool) : W -> W :=
  HeartbeatEmitterMgr.EmitAll (run_emitter secState sendOk) (fun w => m_emitterList (w_owner w))
    (fun l w => mkWorld (w_states w) (w_events w) (with_emitterList l (w_owner w))).
End handlers.

(** ** What one callback does *)

Lemma Abi_bytes_value `{Alloc : Allocator} ty begin block v rest :
  (ty = ABytes \/ exists n, ty = ABytesFixed n) ->
  AbiParser_ToPrimitive ty begin block = Ok (v, rest) -> exists b, v = VBytes b.
Proof.
  intros Ht. unfold AbiParser_ToPrimitive, HeadTail_ToPrimitive, HeadOnly_ToPrimitive.
  assert (forall d x, Codec_ToPrimitive ty d = Ok x -> exists b, x.1.1 = VBytes b) as Hc.
  { intros d x. destruct Ht as [->|[n ->]]; cbn [Codec_ToPrimitive as_value]; intros HP; bind_ok HP;
      destruct a as [[b r] m]; injection HP as <-; by exists b. }
  destruct (sk_hasTail ty); intros HP; bind_ok HP; destruct a as [[o he] c].
  - destruct block as [blk|]; [|done]. destruct (zlen blk <? o); [done|]. bind_ok HP.
    destruct a as [[v' r] m]. injection HP as -> _. by apply (Hc _ _ E0).
  - injection HP as -> _. by apply (Hc _ _ E).
Qed.

(** The registrations of a log: the publisher and its event manager. *)
Definition registration `{Alloc : Allocator} (log : ReceiptLogEntry.t) : option (bytes * bytes) :=
  match ParseAddr (ReceiptLogEntry.m_logData log) with
  | Ok (pub, rest) => match ParseAddr rest with Ok (mgr, _) => Some (pub, mgr) | Throw _ => None end
  | Throw _ => None
  end.

(** The event a notification stands for, if its data decodes. *)
Definition event_of `{Alloc : Allocator} (hdr : HeaderMgr.t) (log : ReceiptLogEntry.t) : EventDataQueue :=
  match ParseEventMsg log with Ok msg => [event_data hdr msg] | Throw _ => [] end.

(** The last event manager registered for a publisher counts. *)
Definition register (m : gmap bytes bytes) (r : bytes * bytes) : gmap bytes bytes := <[r.1 := r.2]> m.

(** ** What one callback does *)

Section runs.
Context `{Alloc : Allocator} `{Heap : Malloc}.

(** The world after a new listener. *)
Definition listening (d : EventDescription.t Callback) (ev : EventManager.t Callback) : EventManager.t Callback :=
  fst (EventManager.Listen ev (new_listener ev) d).

Definition deployed (s : PubsubServiceStore.t) : PubsubServiceStore.t :=
  PubsubServiceStore.mk (PubsubServiceStore.m_pubsubContAddr s) (PubsubServiceStore.m_deployEvTopic s)
    (PubsubServiceStore.m_regEvTopic s) (PubsubServiceStore.m_notifyEvTopic s) true
    (PubsubServiceStore.m_evMgrAddrMap s) (PubsubServiceStore.m_pastEventStore s).

(** The owner after a registration: a new queue for a manager that has none. *)
Definition registered (pub mgr : bytes) (o : Owner) : Owner :=
  let s := m_svcStore o in
  let past := PubsubServiceStore.m_pastEventStore s in
  let queue := new_queue (m_queues o) in
  let s' := PubsubServiceStore.mk (PubsubServiceStore.m_pubsubContAddr s) (PubsubServiceStore.m_deployEvTopic s)
    (PubsubServiceStore.m_regEvTopic s) (PubsubServiceStore.m_notifyEvTopic s) (PubsubServiceStore.m_isDeployed s)
    (<[pub := mgr]> (PubsubServiceStore.m_evMgrAddrMap s))
    (match past !! mgr with Some _ => past | None => <[mgr := queue]> past end) in
  with_queues (match past !! mgr with Some _ => m_queues o | None => <[queue := []]> (m_queues o) end) (with_store s' o).

Definition pushed (queue : nat) (ev : EventData) (o : Owner) : Owner :=
  with_queues (alter (fun q => q ++ [ev]) queue (m_queues o)) o.

Lemma DeployEventHandler_run id (w : W) : DeployEventHandler id w =
  (mkWorld (w_states w) (listening (BuildRegEventDescr (m_svcStore (w_owner w))) (EventManager.Cancel (w_events w) id))
    (with_store (deployed (m_svcStore (w_owner w))) (w_owner w)), Ok tt).
Proof. done. Qed.

Lemma RegEventHandler_run log (w : W) :
  match registration log with
  | Some (pub, mgr) => RegEventHandler log w =
    (mkWorld (w_states w) (listening (BuildNotifyPastEventDescr mgr (m_svcStore (w_owner w))) (w_events w))
      (registered pub mgr (w_owner w)), Ok tt)
  | None => exists e, RegEventHandler log w = (w, Throw e)
  end.
Proof.
  unfold registration, RegEventHandler, mbind, stx_bind, lift_w.
  destruct (ParseAddr _) as [[pub rest]|e]; [|by exists e].
  destruct (ParseAddr rest) as [[mgr r]|e]; [|by exists e].
  cbn. unfold registered. by destruct (_ !! mgr).
Qed.

Lemma NotifyPastEventHandler_run hdr log (w : W) :
  match ParseEventMsg log with
  | Ok msg => NotifyPastEventHandler hdr log w =
    (match PubsubServiceStore.m_pastEventStore (m_svcStore (w_owner w)) !! ReceiptLogEntry.m_contractAddr log with
     | Some q => mkWorld (w_states w) (w_events w) (pushed q (event_data hdr msg) (w_owner w))
     | None => w
     end, Ok tt)
  | Throw e => NotifyPastEventHandler hdr log w = (w, Throw e)
  end.
Proof.
  unfold NotifyPastEventHandler, mbind, stx_bind, lift_w. destruct (ParseEventMsg log); [|done].
  cbn. by destruct (_ !! _).
Qed.

Lemma NotifyEventHandler_run q hdr log (w : W) :
  match ParseEventMsg log with
  | Ok msg => NotifyEventHandler q hdr log w =
    (mkWorld (w_states w) (w_events w) (pushed q (event_data hdr msg) (w_owner w)), Ok tt)
  | Throw e => NotifyEventHandler q hdr log w = (w, Throw e)
  end.
Proof. unfold NotifyEventHandler, mbind, stx_bind, lift_w. by destruct (ParseEventMsg log). Qed.

Lemma SubscribedReceiptHandler_run q hdr log (w : W) : SubscribedReceiptHandler q hdr log w =
  (mkWorld (w_states w) (w_events w) (with_receiptQueues (alter (fun l => l ++
    [mkReceiptData (EthHeader.Number (HeaderMgr.m_rawHeader hdr)) (ReceiptLogEntry.m_topics log) (ReceiptLogEntry.m_logData log)])
    q (m_receiptQueues (w_owner w))) (w_owner w)), Ok tt).
Proof. done. Qed.

Lemma listening_lookup d ev i e : user_listener d -> listening d ev !! i = Some e -> ev !! i = Some e \/ user_listener e.
Proof. intros Hd [Hi|[_ ->]]%Listen_lookup; auto. Qed.

(** The callbacks leave the sync states alone and listen for users only. *)
#[export] Instance Pubsub_handler_laws : UserHandlerLaws Owner.
Proof.
  intros user hdr log id w w' r. unfold user_run, Pubsub_handler.
  destruct user as [| | |q|q].
  - rewrite DeployEventHandler_run. intros [= <- <-]. split; [done|]. cbn. intros i e.
    intros [Hi%Cancel_lookup|?]%listening_lookup; [by left|by right|by eexists _, _, _].
  - pose proof (RegEventHandler_run log w) as Hr. destruct (registration log) as [[pub mgr]|].
    + rewrite Hr. intros [= <- <-]. split; [done|]. cbn. intros i e.
      intros Hi. eapply listening_lookup; [|exact Hi]. by eexists _, _, _.
    + destruct Hr as [e ->]. intros [= <- <-]. split; [done|]. by left.
  - pose proof (NotifyPastEventHandler_run hdr log w) as Hr. destruct (ParseEventMsg log); rewrite Hr; intros [= <- <-].
    + case_match; (split; [done|by left]).
    + split; [done|by left].
  - pose proof (NotifyEventHandler_run q hdr log w) as Hr. destruct (ParseEventMsg log); rewrite Hr; intros [= <- <-];
      (split; [done|by left]).
  - intros [= <- <-]. split; [done|by left].
Qed.
End runs.

(** ** The state of the service *)

#[export] Instance UserCallback_eq_dec : EqDecision UserCallback.
Proof. solve_decision. Defined.
#[export] Instance Callback_eq_dec : EqDecision Callback.
Proof. solve_decision. Defined.

Local Abbreviation callback e := (EventDescription.m_notifyCallback e).

Section store.
Context `{Alloc : Allocator} `{Heap : Malloc, HeapLaws : !MallocLaws}.
(** The constants of the service. *)
Context (svc : PubsubServiceStore.t).

Local Abbreviation past w a := (GetPastEvents (w_owner w) a).
Local Abbreviation store w := (PubsubServiceStore.m_pastEventStore (m_svcStore (w_owner w))).
Local Abbreviation managers w := (PubsubServiceStore.m_evMgrAddrMap (m_svcStore (w_owner w))).

(** Where events are kept: the past events of a manager, and the queue of a
    subscriber. *)
Inductive Place := PastOf (a : bytes) | QueueOf (q : nat).
Definition contents (w : W) (p : Place) : EventDataQueue :=
  match p with PastOf a => past w a | QueueOf q => default [] (m_queues (w_owner w) !! q) end.
Definition place_ok (w : W) (p : Place) : Prop :=
  match p with PastOf _ => True | QueueOf q => is_Some (m_queues (w_owner w) !! q) /\ forall a, store w !! a <> Some q end.

(** What a log adds: to a place, to the registrations, and the listener it makes
    the service add. *)
Definition contrib (hdr : HeaderMgr.t) (p : Place) (cb : Callback) (log : ReceiptLogEntry.t) : EventDataQueue :=
  match cb, p with
  | OnUser NotifyPastEvent, PastOf a => if decide (ReceiptLogEntry.m_contractAddr log = a) then event_of hdr log else []
  | OnUser (NotifyEvent q), QueueOf r => if decide (q = r) then event_of hdr log else []
  | _, _ => []
  end.

Definition reg_contrib (cb : Callback) (log : ReceiptLogEntry.t) : list (bytes * bytes) :=
  match cb with OnUser RegEvent => option_list (registration log) | _ => [] end.

Definition new_desc (cb : Callback) (log : ReceiptLogEntry.t) : option (EventDescription.t Callback) :=
  match cb with
  | OnUser DeployEvent => Some (BuildRegEventDescr svc)
  | OnUser RegEvent => match registration log with Some (_, mgr) => Some (BuildNotifyPastEventDescr mgr svc) | None => None end
  | _ => None
  end.

(** A callback that cancels its own listener. *)
Definition cancels (cb : Callback) : bool :=
  match cb with OnSync _ | OnUser DeployEvent => true | _ => false end.

(** The constants are not changed. *)
Definition same_consts (s : PubsubServiceStore.t) : Prop :=
  PubsubServiceStore.m_pubsubContAddr s = PubsubServiceStore.m_pubsubContAddr svc /\
  PubsubServiceStore.m_regEvTopic s = PubsubServiceStore.m_regEvTopic svc /\
  PubsubServiceStore.m_notifyEvTopic s = PubsubServiceStore.m_notifyEvTopic svc.

(** A listener is one of the application's, and what its callback works on
    exists.  The queues of past events are not shared. *)
Definition listener_ok (w : W) (e : EventDescription.t Callback) : Prop :=
  match callback e with
  | OnSync ref => is_Some (w_states w !! ref)
  | OnUser DeployEvent => e = BuildDeployEventDescr svc
  | OnUser RegEvent => e = BuildRegEventDescr svc
  | OnUser NotifyPastEvent => e = BuildNotifyPastEventDescr (EventDescription.m_contractAddr e) svc /\
      is_Some (store w !! EventDescription.m_contractAddr e)
  | OnUser (NotifyEvent q) =>
      e = BuildNotifyEventDescr (EventDescription.m_contractAddr e) (PubsubServiceStore.m_notifyEvTopic svc) q /\
      is_Some (m_queues (w_owner w) !! q) /\ forall a, store w !! a <> Some q
  | OnUser (SubscribedReceipt q) => is_Some (m_receiptQueues (w_owner w) !! q)
  end.

Record service_ok (w : W) : Prop := {
  ok_consts : same_consts (m_svcStore (w_owner w));
  ok_queue : forall a q, store w !! a = Some q -> is_Some (m_queues (w_owner w) !! q);
  ok_inj : forall a b q, store w !! a = Some q -> store w !! b = Some q -> a = b;
  ok_listeners : forall id e, w_events w !! id = Some e -> listener_ok w e;
  ok_described : described (w_events w) }.

(** Objects stay where they are, and what is new was not in use. *)
Record grows (w w' : W) : Prop := {
  grows_states : forall ref, is_Some (w_states w !! ref) -> is_Some (w_states w' !! ref);
  grows_queues : forall q, is_Some (m_queues (w_owner w) !! q) -> is_Some (m_queues (w_owner w') !! q);
  grows_receipts : forall q, is_Some (m_receiptQueues (w_owner w) !! q) -> is_Some (m_receiptQueues (w_owner w') !! q);
  grows_store : forall a q, store w !! a = Some q -> store w' !! a = Some q;
  grows_fresh : forall a q, store w' !! a = Some q -> store w !! a = Some q \/ m_queues (w_owner w) !! q = None }.

Lemma grows_refl w : grows w w.
Proof. split; auto. Qed.

Lemma listener_grows w w' e : grows w w' -> listener_ok w e -> listener_ok w' e.
Proof.
  intros [s q r a f]. unfold listener_ok. destruct (callback e) as [ref|[]]; auto.
  - intros [Hd [x Hx]]. split; [done|]. exists x. by apply a.
  - intros (Hd & Hq & Hs). split_and!; [done|auto|]. intros b [Hb|Hb]%f; [by apply (Hs b)|].
    destruct Hq as [y Hy]. congruence.
Qed.

(** The callback finds what it works on, and the log is one the contract makes. *)
Definition log_decodes (cb : Callback) (log : ReceiptLogEntry.t) : Prop :=
  match cb with
  | OnUser NotifyPastEvent | OnUser (NotifyEvent _) => is_ok (ParseEventMsg log) = true
  | OnUser RegEvent => is_Some (registration log)
  | _ => True
  end.

(** What a callback does to the service, on a log its listener asked for. *)
Record effect (hdr : HeaderMgr.t) (cb : Callback) (log : ReceiptLogEntry.t) (id : Z) (w w' : W) : Prop := {
  eff_grows : grows w w';
  eff_ok : service_ok w';
  eff_contents : forall p, place_ok w p -> contents w' p = contents w p ++ contrib hdr p cb log;
  eff_managers : managers w' = foldl register (managers w) (reg_contrib cb log);
  eff_events :
    let ev := if cancels cb then EventManager.Cancel (w_events w) id else w_events w in
    w_events w' = match new_desc cb log with Some d => listening d ev | None => ev end;
  eff_emitters : m_emitterList (w_owner w') = m_emitterList (w_owner w);
  eff_sent : m_sent (w_owner w') = m_sent (w_owner w) }.

Lemma place_ok_grows w w' p : grows w w' -> place_ok w p -> place_ok w' p.
Proof.
  intros [_ G _ _ F]. destruct p as [a|q]; [done|]. intros [Hq Hs]. split; [by apply G|].
  intros a [Ha|Hn]%F; [by apply (Hs a)|]. destruct Hq as [l Hl]. congruence.
Qed.

Lemma BuildRegEventDescr_consts s : same_consts s -> BuildRegEventDescr s = BuildRegEventDescr svc.
Proof. intros (E1 & E2 & E3). unfold BuildRegEventDescr. by rewrite E1, E2. Qed.

Lemma BuildNotifyPastEventDescr_consts a s :
  same_consts s -> BuildNotifyPastEventDescr a s = BuildNotifyPastEventDescr a svc.
Proof. intros (E1 & E2 & E3). unfold BuildNotifyPastEventDescr. by rewrite E3. Qed.

(** A world that grows, with listeners that are in order, is in order. *)
Lemma service_ok_listening w w' d :
  service_ok w -> grows w w' -> same_consts (m_svcStore (w_owner w')) ->
  (forall a q, store w' !! a = Some q -> is_Some (m_queues (w_owner w') !! q)) ->
  (forall a b q, store w' !! a = Some q -> store w' !! b = Some q -> a = b) ->
  (forall i e, w_events w' !! i = Some e -> w_events w !! i = Some e \/ d = Some e) ->
  (forall e, d = Some e -> listener_ok w' e /\ user_listener e) -> service_ok w'.
Proof.
  intros [C Q I L D] Hg Hc Hq Hi He Hd. split; [done..| |].
  - intros i e [Hl|Hl]%He; [by eapply listener_grows, L|by apply Hd].
  - intros i e [Hl|Hl]%He; [by apply (D i)|]. by destruct (Hd _ Hl) as [_ (? & ? & ? & ->)].
Qed.

Lemma listening_elem (d : EventDescription.t Callback) ev i e : listening d ev !! i = Some e -> ev !! i = Some e \/ Some d = Some e.
Proof. intros [Hi|[_ ->]]%Listen_lookup; auto. Qed.

Lemma push_grows w q ev : grows w (mkWorld (w_states w) (w_events w) (pushed q ev (w_owner w))).
Proof. split; cbn; auto. intros r Hr. by apply lookup_alter_is_Some. Qed.

Lemma push_ok w q ev : service_ok w -> service_ok (mkWorld (w_states w) (w_events w) (pushed q ev (w_owner w))).
Proof.
  intros Hw. apply (service_ok_listening w _ None); try done; [apply push_grows|apply (ok_consts w Hw)| |apply (ok_inj w Hw)|by left].
  cbn. intros a r Hr. by apply lookup_alter_is_Some, (ok_queue w Hw a).
Qed.

(** A push shows in the past events of the manager whose queue it is. *)
Lemma push_past w q ev a : service_ok w ->
  GetPastEvents (pushed q ev (w_owner w)) a
  = past w a ++ (if decide (store w !! a = Some q) then [ev] else []).
Proof.
  intros Hw. unfold GetPastEvents. cbn [pushed with_queues m_svcStore m_queues].
  destruct (store w !! a) as [r|] eqn:Er; [|by rewrite decide_False].
  destruct (decide (r = q)) as [->|Hne].
  - rewrite lookup_alter_eq, decide_True by done. destruct (ok_queue w Hw a q Er) as [l El]. by rewrite El.
  - rewrite lookup_alter_ne, decide_False, app_nil_r by congruence. done.
Qed.

Lemma push_contents w q ev p : service_ok w -> place_ok w p ->
  contents (mkWorld (w_states w) (w_events w) (pushed q ev (w_owner w))) p = contents w p ++
  match p with PastOf a => if decide (store w !! a = Some q) then [ev] else [] | QueueOf r => if decide (q = r) then [ev] else [] end.
Proof.
  intros Hw Hp. destruct p as [a|r]; [by apply push_past|]. cbn. destruct Hp as [[l Hl] _]. destruct (decide (q = r)) as [->|Hne].
  - by rewrite lookup_alter_eq, Hl.
  - by rewrite lookup_alter_ne, app_nil_r.
Qed.

Lemma effect_sync hdr ref log id w s :
  service_ok w -> w_states w !! ref = Some s ->
  exists w', SyncMsgMgr.handler (OnSync ref) hdr log id w = (w', Ok tt) /\ effect hdr (OnSync ref) log id w w'.
Proof.
  intros Hw Hs. cbn. rewrite Hs. eexists. split; [done|]. split; cbn; try done.
  2:{ apply (service_ok_listening w _ None); cbn; try done; try apply Hw.
      - split; cbn; auto. intros r Hr. case_match; [done|]. rewrite lookup_insert_is_Some.
        destruct (decide (ref = r)); auto.
      - intros i e Hi%Cancel_lookup. by left. }
  - split; cbn; auto. intros r Hr. case_match; [done|]. rewrite lookup_insert_is_Some. destruct (decide (ref = r)); auto.
  - intros p _. rewrite app_nil_r. by destruct p.
Qed.

Lemma effect_deploy hdr log id w : service_ok w ->
  exists w', SyncMsgMgr.handler (OnUser DeployEvent) hdr log id w = (w', Ok tt) /\
    effect hdr (OnUser DeployEvent) log id w w'.
Proof.
  intros Hw. cbn. unfold user_run, Pubsub_handler. rewrite DeployEventHandler_run. eexists. split; [done|].
  rewrite (BuildRegEventDescr_consts _ (ok_consts w Hw)).
  set (w' := mkWorld _ _ _). assert (grows w w') as Hg by (split; cbn; auto).
  split; [done| |intros p _; rewrite app_nil_r; by destruct p|done|done|done|done].
  apply (service_ok_listening w _ (Some (BuildRegEventDescr svc))); try done; try apply Hw.
  - intros i e. subst w'. cbn. intros [Hi%Cancel_lookup|Hi]%listening_elem; auto.
  - intros e [= <-]. split; [done|by eexists _, _, _].
Qed.

Lemma registered_store pub mgr o a q :
  PubsubServiceStore.m_pastEventStore (m_svcStore (registered pub mgr o)) !! a = Some q <->
  PubsubServiceStore.m_pastEventStore (m_svcStore o) !! a = Some q \/
  (PubsubServiceStore.m_pastEventStore (m_svcStore o) !! mgr = None /\ a = mgr /\ q = new_queue (m_queues o)).
Proof.
  cbn. destruct (PubsubServiceStore.m_pastEventStore (m_svcStore o) !! mgr) eqn:E; [naive_solver|].
  rewrite lookup_insert_Some. destruct (decide (mgr = a)); naive_solver.
Qed.

Lemma registered_queue pub mgr o q : is_Some (m_queues o !! q) -> m_queues (registered pub mgr o) !! q = m_queues o !! q.
Proof using HeapLaws.
  cbn. case_match; [done|]. intros [l Hl]. rewrite lookup_insert_ne; [done|]. intros Hn.
  rewrite <-Hn, new_queue_fresh in Hl. done.
Qed.

Lemma registered_new pub mgr o : PubsubServiceStore.m_pastEventStore (m_svcStore o) !! mgr = None ->
  m_queues (registered pub mgr o) !! new_queue (m_queues o) = Some [].
Proof. cbn. intros ->. apply lookup_insert_eq. Qed.

Lemma registered_past pub mgr w a : service_ok w -> GetPastEvents (registered pub mgr (w_owner w)) a = past w a.
Proof using HeapLaws.
  intros Hw. unfold GetPastEvents at 1.
  destruct (PubsubServiceStore.m_pastEventStore (m_svcStore (registered pub mgr (w_owner w))) !! a) as [q|] eqn:E.
  - apply registered_store in E as [E|(E & -> & ->)].
    + rewrite registered_queue by (by eapply ok_queue). unfold GetPastEvents. by rewrite E.
    + rewrite registered_new by done. unfold GetPastEvents. by rewrite E.
  - unfold GetPastEvents. destruct (store w !! a) as [q|] eqn:Es; [|done].
    assert (PubsubServiceStore.m_pastEventStore (m_svcStore (registered pub mgr (w_owner w))) !! a = Some q) as E'
      by (apply registered_store; by left). by rewrite E' in E.
Qed.

Lemma registered_grows pub mgr w ev : grows w (mkWorld (w_states w) ev (registered pub mgr (w_owner w))).
Proof using HeapLaws.
  split; [done|intros q Hq; cbn [w_owner]; by rewrite registered_queue|done| |].
  - intros a q Ha. apply registered_store. by left.
  - intros a q. cbn [w_owner]. intros [Ha|(_ & _ & ->)]%registered_store; [by left|right]. apply new_queue_fresh.
Qed.

Lemma effect_reg hdr log id w : service_ok w -> is_Some (registration log) ->
  exists w', SyncMsgMgr.handler (OnUser RegEvent) hdr log id w = (w', Ok tt) /\
    effect hdr (OnUser RegEvent) log id w w'.
Proof using HeapLaws.
  intros Hw [[pub mgr] Hr]. cbn. unfold user_run, Pubsub_handler. pose proof (RegEventHandler_run log w) as Hrun.
  rewrite Hr in Hrun. rewrite Hrun, (BuildNotifyPastEventDescr_consts _ _ (ok_consts w Hw)). clear Hrun.
  eexists. split; [done|]. split; [apply registered_grows| |intros p Hp| | |done|done]; cbn [w_owner].
  - eapply (service_ok_listening w _ (Some _)); [done|apply registered_grows|apply (ok_consts w Hw)|..];
      cbn [w_owner w_events].
    + intros a q [Ha|(Hn & -> & ->)]%registered_store; [rewrite registered_queue; by eapply ok_queue|].
      by rewrite registered_new.
    + intros a b q [Ha|(Hn & -> & ->)]%registered_store [Hb|(Hn' & -> & Hq)]%registered_store; [by eapply ok_inj| | |done].
      * subst q. apply (ok_queue w Hw) in Ha as [l Hl]. by rewrite new_queue_fresh in Hl.
      * apply (ok_queue w Hw) in Hb as [l Hl]. by rewrite new_queue_fresh in Hl.
    + apply listening_elem.
    + intros e [= <-]. split; [|by eexists _, _, _]. split; [done|].
      cbn [w_owner BuildNotifyPastEventDescr EventDescription.create EventDescription.m_contractAddr].
      destruct (store w !! mgr) as [q|] eqn:E; eexists; apply registered_store; [left; exact E|by right].
  - rewrite app_nil_r. destruct p as [a|q]; cbn [contents w_owner]; [by apply registered_past|].
    by rewrite registered_queue by apply Hp.
  - cbn. by rewrite Hr.
  - cbn. by rewrite Hr.
Qed.

Lemma effect_past hdr log id w : service_ok w -> is_ok (ParseEventMsg log) = true ->
  is_Some (store w !! ReceiptLogEntry.m_contractAddr log) ->
  exists w', SyncMsgMgr.handler (OnUser NotifyPastEvent) hdr log id w = (w', Ok tt) /\
    effect hdr (OnUser NotifyPastEvent) log id w w'.
Proof.
  intros Hw Hd [q Hq]. cbn. unfold user_run, Pubsub_handler. pose proof (NotifyPastEventHandler_run hdr log w) as Hrun.
  destruct (ParseEventMsg log) as [msg|] eqn:Em; [|done]. rewrite Hrun, Hq. eexists. split; [done|].
  split; [apply push_grows|by apply push_ok| |done|done|done|done]. intros p Hp. rewrite push_contents by done. f_equal.
  destruct p as [a|r]; cbn [contrib]; [|rewrite decide_False; [done|]; intros ->; by apply (proj2 Hp _ Hq)].
  unfold event_of. rewrite Em. destruct (decide (ReceiptLogEntry.m_contractAddr log = a)) as [<-|Hne]; [by rewrite decide_True|].
  rewrite decide_False; [done|]. intros Ha. apply Hne. by eapply ok_inj.
Qed.

Lemma effect_notify hdr q log id w : service_ok w -> is_ok (ParseEventMsg log) = true ->
  (forall a, store w !! a <> Some q) ->
  exists w', SyncMsgMgr.handler (OnUser (NotifyEvent q)) hdr log id w = (w', Ok tt) /\
    effect hdr (OnUser (NotifyEvent q)) log id w w'.
Proof.
  intros Hw Hd Hq. cbn. unfold user_run, Pubsub_handler. pose proof (NotifyEventHandler_run q hdr log w) as Hrun.
  destruct (ParseEventMsg log) as [msg|] eqn:Em; [|done]. rewrite Hrun. eexists. split; [done|].
  split; [apply push_grows|by apply push_ok| |done|done|done|done]. intros p Hp. rewrite push_contents by done. f_equal.
  destruct p as [a|r]; cbn [contrib]; [by rewrite decide_False|]. unfold event_of. by rewrite Em.
Qed.

Lemma effect_receipt hdr q log id w : service_ok w ->
  exists w', SyncMsgMgr.handler (OnUser (SubscribedReceipt q)) hdr log id w = (w', Ok tt) /\
    effect hdr (OnUser (SubscribedReceipt q)) log id w w'.
Proof.
  intros Hw. cbn. unfold user_run, Pubsub_handler. rewrite SubscribedReceiptHandler_run. eexists. split; [done|].
  assert (forall r l, is_Some (m_receiptQueues (w_owner w) !! r) ->
    is_Some (alter l q (m_receiptQueues (w_owner w)) !! r)) as Hq by (intros; by apply lookup_alter_is_Some).
  split; cbn; try done; [split; cbn; auto| |intros p _; rewrite app_nil_r; by destruct p].
  apply (service_ok_listening w _ None); cbn; try done; try apply Hw; [split; cbn; auto|by left].
Qed.

(** Every callback returns, on a log that decodes, with its effect. *)
Lemma handler_effect hdr e log id w :
  service_ok w -> listener_ok w e -> log_decodes (callback e) log ->
  ReceiptLogEntry.m_contractAddr log = EventDescription.m_contractAddr e ->
  exists w', SyncMsgMgr.handler (callback e) hdr log id w = (w', Ok tt) /\ effect hdr (callback e) log id w w'.
Proof using HeapLaws.
  intros Hw He Hd Ha. unfold listener_ok in He. destruct (callback e) as [ref|[| | |q|q]].
  - destruct He as [s Hs]. by eapply effect_sync.
  - by apply effect_deploy.
  - by apply effect_reg.
  - apply effect_past; [done..|]. rewrite Ha. apply He.
  - apply effect_notify; [done..|]. apply He.
  - by apply effect_receipt.
Qed.

(** *** Runs of callbacks *)

(** How many listeners there are of a kind. *)
Definition listeners (K : EventDescription.t Callback -> Prop) `{forall e, Decision (K e)} (ev : EventManager.t Callback) : nat :=
  size (base.filter (fun p => K p.2) ev).
Definition count_of (K : EventDescription.t Callback -> Prop) `{forall e, Decision (K e)}
    (l : list (EventDescription.t Callback)) : nat := length (base.filter K l).

Lemma listeners_listening K `{forall e, Decision (K e)} d ev :
  listeners K (listening d ev) = (listeners K ev + count_of K [d])%nat.
Proof using HeapLaws.
  unfold listeners, count_of, listening. cbn [EventManager.Listen fst]. rewrite new_listener_fresh.
  destruct (decide (K d)) as [Hd|Hd].
  - rewrite map_filter_insert_True, map_size_insert_None by
      (done || apply map_lookup_filter_None; left; apply new_listener_fresh).
    rewrite filter_cons_True, filter_nil by done. cbn. lia.
  - rewrite map_filter_insert_False, delete_id by (done || apply new_listener_fresh).
    rewrite filter_cons_False, filter_nil by done. cbn. lia.
Qed.

Lemma listeners_cancel K `{forall e, Decision (K e)} ev id :
  (listeners K (EventManager.Cancel ev id) + count_of K (option_list (ev !! id)) = listeners K ev)%nat.
Proof.
  unfold listeners, count_of, EventManager.Cancel. destruct (ev !! id) as [e|] eqn:E; cbn [option_list option_rect].
  2:{ cbn. lia. }
  rewrite map_filter_delete. destruct (decide (K e)) as [Hd|Hd].
  - rewrite filter_cons_True, filter_nil by done. cbn.
    assert (is_Some (base.filter (fun p => K p.2) ev !! id)) as Hs by (exists e; by apply map_lookup_filter_Some).
    rewrite map_size_delete_Some by done. apply map_size_ne_0_lookup_2 in Hs. lia.
  - rewrite filter_cons_False, filter_nil by done. cbn.
    rewrite delete_id; [lia|]. apply map_lookup_filter_None. right. naive_solver.
Qed.

(** What a run of callbacks does: the past events it adds, the registrations it
    makes, the listeners it cancels and the ones it adds; [ids] are the callbacks'
    own. *)
Record effects (w w' : W) (P : Place -> EventDataQueue) (R : list (bytes * bytes))
    (gone news : list (EventDescription.t Callback)) (ids : list Z) : Prop := {
  effs_grows : grows w w';
  effs_ok : service_ok w';
  effs_contents : forall p, place_ok w p -> contents w' p = contents w p ++ P p;
  effs_managers : managers w' = foldl register (managers w) R;
  effs_emitters : m_emitterList (w_owner w') = m_emitterList (w_owner w);
  effs_sent : m_sent (w_owner w') = m_sent (w_owner w);
  effs_kept : forall i e, w_events w !! i = Some e -> i ∉ ids -> w_events w' !! i = Some e;
  effs_stay : forall i e, w_events w !! i = Some e -> cancels (callback e) = false -> w_events w' !! i = Some e;
  effs_count : forall K `{forall e, Decision (K e)},
    (listeners K (w_events w') + count_of K gone = listeners K (w_events w) + count_of K news)%nat }.

Lemma grows_trans w1 w2 w3 : grows w1 w2 -> grows w2 w3 -> grows w1 w3.
Proof.
  intros [s1 q1 r1 a1 f1] [s2 q2 r2 a2 f2]. split; auto.
  intros a q [Ha|Hn]%f2; [by apply f1|]. right. destruct (m_queues (w_owner w1) !! q) eqn:E; [|done].
  destruct (q1 q) as [x Hx]; [by eexists|]. congruence.
Qed.

Lemma effects_nil w ids : service_ok w -> effects w w (fun _ => []) [] [] [] ids.
Proof. intros Hw. split; [apply grows_refl|done|intros p _; by rewrite app_nil_r|done|done|done|done|done|done]. Qed.

Lemma effects_app w1 w2 w3 P1 P2 R1 R2 g1 g2 n1 n2 ids1 ids2 :
  effects w1 w2 P1 R1 g1 n1 ids1 -> effects w2 w3 P2 R2 g2 n2 ids2 ->
  effects w1 w3 (fun p => P1 p ++ P2 p) (R1 ++ R2) (g1 ++ g2) (n1 ++ n2) (ids1 ++ ids2).
Proof.
  intros [G1 O1 E1 M1 L1 N1 K1 S1 C1] [G2 O2 E2 M2 L2 N2 K2 S2 C2].
  split; [by eapply grows_trans|done| | |by rewrite L2|by rewrite N2| | |].
  - intros p Hp. rewrite E2, E1, app_assoc; [done|done|by eapply place_ok_grows].
  - by rewrite M2, M1, foldl_app.
  - intros i e Hi [Hn1 Hn2]%not_elem_of_app. auto.
  - auto.
  - intros K ?. specialize (C1 K _). specialize (C2 K _). unfold count_of in *. rewrite !filter_app, !length_app. lia.
Qed.

(** Runs are described up to equality of what they add. *)
Lemma effects_ext w w' P P' R R' g g' n n' ids ids' : effects w w' P R g n ids ->
  (forall p, P p = P' p) -> R = R' -> g = g' -> n = n' -> ids ⊆ ids' -> effects w w' P' R' g' n' ids'.
Proof.
  intros [G O E M L N K S C] HP <- <- <- Hi.
  split; [exact G|exact O|intros p Hp; by rewrite E, HP|exact M|exact L|exact N| |exact S|exact C].
  intros i e He Hn. apply K; [exact He|]. intros Hin. by apply Hn, Hi.
Qed.

Lemma effect_effects hdr cb log id w w' : effect hdr cb log id w w' ->
  (forall e, w_events w !! id = Some e -> cancels cb = true -> cancels (callback e) = true) ->
  effects w w' (fun p => contrib hdr p cb log) (reg_contrib cb log)
    (if cancels cb then option_list (w_events w !! id) else []) (option_list (new_desc cb log)) [id].
Proof using HeapLaws.
  intros [G O P M E L N] Hown.
  assert (forall i e, w_events w !! i = Some e -> (cancels cb = true -> i <> id) -> w_events w' !! i = Some e) as Hkeep.
  { intros i e Hi Hn. rewrite E.
    assert ((if cancels cb then EventManager.Cancel (w_events w) id else w_events w) !! i = Some e) as Hc.
    { destruct (cancels cb); [|done]. unfold EventManager.Cancel. destruct (w_events w !! id); [|done].
      rewrite lookup_delete_ne; [done|]. intros ->. by apply Hn. }
    destruct (new_desc cb log); [|done]. unfold listening. cbn [EventManager.Listen fst].
    rewrite new_listener_fresh. rewrite lookup_insert_ne; [done|]. intros Hf.
    rewrite <-Hf, new_listener_fresh in Hc. discriminate. }
  split; try done.
  - intros i e Hi Hn. apply Hkeep; [done|]. intros _ ->. apply Hn. by apply list_elem_of_singleton.
  - intros i e Hi Hn. apply Hkeep; [done|]. intros Hcb ->. by rewrite (Hown e Hi Hcb) in Hn.
  - intros K ?. rewrite E. pose proof (listeners_cancel K (w_events w) id) as Hc.
    destruct (new_desc cb log), (cancels cb); cbn [option_list option_rect];
      rewrite ?listeners_listening; unfold count_of in *; cbn in *; lia.
Qed.

(** What the logs of a planned callback add. *)
Definition logs_at (hdr : HeaderMgr.t) (cb : Callback) (logs : list ReceiptLogEntry.t) (p : Place) : EventDataQueue :=
  concat (map (contrib hdr p cb) logs).
Definition logs_regs (cb : Callback) (logs : list ReceiptLogEntry.t) : list (bytes * bytes) :=
  concat (map (reg_contrib cb) logs).
Definition logs_news (cb : Callback) (logs : list ReceiptLogEntry.t) : list (EventDescription.t Callback) :=
  concat (map (fun log => option_list (new_desc cb log)) logs).

(** The logs are the listener's, and decode. *)
Definition logs_for (e : EventDescription.t Callback) (logs : list ReceiptLogEntry.t) : Prop :=
  Forall (fun log => log_decodes (callback e) log /\ ReceiptLogEntry.m_contractAddr log = EventDescription.m_contractAddr e) logs.

(** The logs after the first: a callback that cancels its listener has done so. *)
Lemma run_rest hdr e id logs w :
  service_ok w -> listener_ok w e -> logs_for e logs ->
  (cancels (callback e) = false \/ w_events w !! id = None /\ forall log, new_desc (callback e) log = None) ->
  exists w', EventManager.run_logs SyncMsgMgr.handler hdr id (callback e) logs w = (w', Ok tt) /\
    effects w w' (logs_at hdr (callback e) logs) (logs_regs (callback e) logs) [] (logs_news (callback e) logs) [id].
Proof using HeapLaws.
  intros Hw He Hl Hq. revert w Hw He Hq. induction Hl as [|log logs [Hd Ha] Hl IH]; intros w Hw He Hq.
  { exists w. split; [done|]. by apply effects_nil. }
  destruct (handler_effect hdr e log id w) as (w1 & H1 & E1); [done..|].
  pose proof (effect_effects _ _ _ _ _ _ E1) as F1. specialize (F1 ltac:(intros e' He' Hcb; destruct Hq as [Hq|[Hi _]]; congruence)).
  destruct (IH w1) as (w2 & H2 & E2); [apply E1|by eapply listener_grows, He; apply E1| |].
  { destruct Hq as [Hq|[Hi Hn]]; [by left|right]. split; [|done]. rewrite (eff_events _ _ _ _ _ _ E1), Hn.
    destruct (cancels _); [|done]. unfold EventManager.Cancel. by rewrite Hi. }
  exists w2. split; [cbn [EventManager.run_logs]; unfold mbind, stx_bind; by rewrite H1|].
  eapply effects_ext; [eapply effects_app; [exact F1|exact E2]|done|done| |done|set_solver].
  destruct Hq as [->|[-> _]]; [done|]. by destruct (cancels _).
Qed.

(** A listener's part of the plan. *)
Lemma run_entry hdr e id logs w :
  service_ok w -> w_events w !! id = Some e -> logs_for e logs -> logs <> [] ->
  (callback e = OnUser DeployEvent -> (length logs <= 1)%nat) ->
  exists w', EventManager.run_logs SyncMsgMgr.handler hdr id (callback e) logs w = (w', Ok tt) /\
    effects w w' (logs_at hdr (callback e) logs) (logs_regs (callback e) logs)
      (if cancels (callback e) then [e] else []) (logs_news (callback e) logs) [id].
Proof using HeapLaws.
  intros Hw Hi Hl Hne H1. pose proof (ok_listeners w Hw _ _ Hi) as He.
  destruct (cancels (callback e)) eqn:Ec; [|by apply run_rest; auto].
  destruct logs as [|log logs]; [done|]. apply Forall_cons in Hl as [[Hd Ha] Hl].
  destruct (handler_effect hdr e log id w) as (w1 & Hr1 & E1); [done..|].
  pose proof (effect_effects _ _ _ _ _ _ E1 ltac:(intros; congruence)) as F1. rewrite Ec, Hi in F1.
  assert (exists w', EventManager.run_logs SyncMsgMgr.handler hdr id (callback e) logs w1 = (w', Ok tt) /\
    effects w1 w' (logs_at hdr (callback e) logs) (logs_regs (callback e) logs) []
      (logs_news (callback e) logs) [id]) as (w2 & Hr2 & E2).
  { destruct logs as [|l ls]; [exists w1; split; [done|]; apply effects_nil, E1|].
    apply run_rest; [apply E1|by eapply listener_grows, He; apply E1|done|right].
    destruct (callback e) as [ref|[]] eqn:Ecb; try done; [|specialize (H1 eq_refl); cbn in H1; lia].
    split; [|done]. rewrite (eff_events _ _ _ _ _ _ E1). cbn. unfold EventManager.Cancel. rewrite Hi.
    apply lookup_delete_eq. }
  exists w2. split; [cbn [EventManager.run_logs]; unfold mbind, stx_bind; by rewrite Hr1|].
  eapply effects_ext; [eapply effects_app; [exact F1|exact E2]|done|done|done|done|set_solver].
Qed.

(** A plan, for the listeners there are. *)
Definition plan_for (w : W) (p : EventManager.CallbackPlan) : Prop :=
  exists e, w_events w !! p.1.1 = Some e /\ p.1.2 = callback e /\ logs_for e p.2 /\ p.2 <> [] /\
    (callback e = OnUser DeployEvent -> (length p.2 <= 1)%nat).

Definition entry_gone (w : W) (p : EventManager.CallbackPlan) : list (EventDescription.t Callback) :=
  if cancels p.1.2 then option_list (w_events w !! p.1.1) else [].

Lemma run_plan hdr plans w :
  service_ok w -> Forall (plan_for w) plans -> NoDup (map (fun p => p.1.1) plans) ->
  exists w', EventManager.ConductCallbackPlan SyncMsgMgr.handler hdr plans w = (w', Ok tt) /\
    effects w w' (fun pl => concat (map (fun p => logs_at hdr p.1.2 p.2 pl) plans))
      (concat (map (fun p => logs_regs p.1.2 p.2) plans)) (concat (map (entry_gone w) plans))
      (concat (map (fun p => logs_news p.1.2 p.2) plans)) (map (fun p => p.1.1) plans).
Proof using HeapLaws.
  intros Hw Hp. revert w Hw Hp. induction plans as [|[[id cb] logs] plans IH]; intros w Hw Hp Hn.
  { exists w. split; [done|]. by apply effects_nil. }
  apply Forall_cons in Hp as [(e & Hi & Hcb & Hl & Hne & H1) Hp]. cbn [fst snd] in *. subst cb.
  apply NoDup_cons in Hn as [Hid Hn]. destruct (run_entry hdr e id logs w) as (w1 & Hr1 & E1); [done..|].
  assert (forall p, p ∈ plans -> w_events w1 !! p.1.1 = w_events w !! p.1.1) as Hk.
  { intros p Hin. rewrite Forall_forall in Hp. destruct (Hp p Hin) as (e' & Hi' & _). rewrite Hi'.
    eapply effs_kept; [exact E1|done|]. intros Heq%list_elem_of_singleton. apply Hid. rewrite <-Heq.
    apply list_elem_of_fmap; by exists p. }
  destruct (IH w1) as (w2 & Hr2 & E2); [apply E1| |done|].
  { rewrite Forall_forall in Hp |- *. intros p Hin. destruct (Hp p Hin) as (e' & Hi' & Hrest).
    exists e'. by rewrite Hk. }
  exists w2. split; [cbn [EventManager.ConductCallbackPlan]; unfold mbind, stx_bind; by rewrite Hr1|].
  eapply effects_ext; [eapply effects_app; [exact E1|exact E2]|done|done| |done|set_solver].
  cbn [map concat]. f_equal.
  - unfold entry_gone. cbn [fst snd]. by rewrite Hi.
  - f_equal. apply map_ext_in. intros p Hin%list_elem_of_In. unfold entry_gone. by rewrite Hk.
Qed.

(** *** The abstract service *)

(** What is abstracted from a world, for one event manager: the listeners for the
    deployment and for registrations, the listeners for the manager, its past
    events, and the managers of the publishers. *)
Record Service := mkService {
  v_deploy : nat; v_reg : nat; v_copies : nat; v_past : EventDataQueue; v_managers : gmap bytes bytes }.

Definition on_deploy (e : EventDescription.t Callback) : Prop := callback e = OnUser DeployEvent.
Definition on_reg (e : EventDescription.t Callback) : Prop := callback e = OnUser RegEvent.
Definition on_past (a : bytes) (e : EventDescription.t Callback) : Prop :=
  callback e = OnUser NotifyPastEvent /\ EventDescription.m_contractAddr e = a.
#[export] Instance on_deploy_dec e : Decision (on_deploy e).
Proof. unfold on_deploy. apply _. Defined.
#[export] Instance on_reg_dec e : Decision (on_reg e).
Proof. unfold on_reg. apply _. Defined.
#[export] Instance on_past_dec a e : Decision (on_past a e).
Proof. unfold on_past. apply _. Defined.

Definition service_of (a : bytes) (w : W) : Service :=
  mkService (listeners on_deploy (w_events w)) (listeners on_reg (w_events w)) (listeners (on_past a) (w_events w))
    (past w a) (managers w).

(** What a block has for the service. *)
Definition deploys (logs : list ReceiptLogEntry.t) : list ReceiptLogEntry.t := emitted (BuildDeployEventDescr svc) logs.
Definition registrations (logs : list ReceiptLogEntry.t) : list (bytes * bytes) :=
  concat (map (fun log => option_list (registration log)) (emitted (BuildRegEventDescr svc) logs)).
Definition events (a : bytes) (hdr : HeaderMgr.t) (logs : list ReceiptLogEntry.t) : EventDataQueue :=
  concat (map (event_of hdr) (emitted (BuildNotifyPastEventDescr a svc) logs)).

Definition times {A} (n : nat) (l : list A) : list A := concat (replicate n l).

(** A block, to the abstract service: every listener there was before the block
    gets its logs. *)
Definition after_block (a : bytes) (hdr : HeaderMgr.t) (logs : list ReceiptLogEntry.t) (v : Service) : Service :=
  mkService
    (match deploys logs with [] => v_deploy v | _ => 0%nat end)
    (v_reg v + v_deploy v * length (deploys logs))
    (v_copies v + v_reg v * length (base.filter (fun r => r.2 = a) (registrations logs)))
    (v_past v ++ times (v_copies v) (events a hdr logs))
    (foldl register (v_managers v) (times (v_reg v) (registrations logs))).

Lemma times_nil {A} n : @times A n [] = [].
Proof. unfold times. by induction n. Qed.
Lemma length_times {A} n (l : list A) : length (times n l) = (n * length l)%nat.
Proof. unfold times. induction n as [|n IH]; cbn; [done|]. by rewrite length_app, IH. Qed.
Lemma filter_times {A} (P : A -> Prop) `{forall x, Decision (P x)} n l : base.filter P (times n l) = times n (base.filter P l).
Proof. unfold times. induction n as [|n IH]; cbn; [done|]. by rewrite filter_app, IH. Qed.

Lemma concat_parts {A B} (f : A -> list B) (Q : A -> Prop) `{forall x, Decision (Q x)} L l :
  (forall x, x ∈ l -> f x = if decide (Q x) then L else []) -> concat (map f l) = times (length (base.filter Q l)) L.
Proof.
  induction l as [|x l IH]; intros Hf; [done|]. cbn [map concat]. rewrite (Hf x) by left.
  rewrite IH by (intros y Hy; apply Hf; by right). rewrite filter_cons. by destruct (decide (Q x)).
Qed.

(** A plan that is exact adds as much as there are listeners of a kind. *)
Lemma plan_parts {B} (f : EventManager.CallbackPlan -> list B) (K : EventDescription.t Callback -> Prop)
    `{forall e, Decision (K e)} (L : list B) ev logs plans : exact_plan ev logs plans ->
  (forall id e, ev !! id = Some e -> emitted e logs <> [] -> f (id, callback e, emitted e logs) = if decide (K e) then L else []) ->
  (forall id e, ev !! id = Some e -> K e -> emitted e logs = [] -> L = []) ->
  concat (map f plans) = times (listeners K ev) L.
Proof.
  intros [Hn He] Hf Hl. set (kept := base.filter (fun p => K p.2) ev).
  assert (forall id e, kept !! id = Some e <-> ev !! id = Some e /\ K e) as Hk.
  { intros id e. unfold kept. by rewrite map_lookup_filter_Some. }
  rewrite (concat_parts f (fun p => is_Some (kept !! p.1.1)) L).
  2:{ intros [[id cb] ls] Hin. apply He in Hin as (e & Hi & -> & -> & Hne). rewrite (Hf _ _ Hi Hne). cbn [fst].
      destruct (decide (K e)) as [Hke|Hke]; [by rewrite decide_True by (exists e; by apply Hk)|].
      rewrite decide_False; [done|]. intros [e' [He' Hke']%Hk]. naive_solver. }
  destruct L as [|b L]; [by rewrite !times_nil|]. f_equal. unfold listeners. fold kept.
  rewrite <-length_map_to_list, <-(length_map fst (map_to_list kept)).
  rewrite <-(length_map (fun p : EventManager.CallbackPlan => p.1.1)).
  apply Permutation_length, NoDup_Permutation; [|apply NoDup_fst_map_to_list|].
  - eapply sublist_NoDup; [exact Hn|]. apply (fmap_sublist (fun p : EventManager.CallbackPlan => p.1.1)), sublist_filter.
  - intros id. rewrite !list_elem_of_fmap. split.
    + intros ([[i cb] ls] & -> & [[e Hi] Hin]%list_elem_of_filter). exists (i, e). split; [done|]. by apply elem_of_map_to_list.
    + intros ([i e] & -> & Hi%elem_of_map_to_list). cbn [fst]. pose proof Hi as [Hev Hke]%Hk.
      exists (i, callback e, emitted e logs). split; [done|]. apply list_elem_of_filter. split; [by exists e|].
      apply He. exists e. split_and!; try done. intros Hnil. by specialize (Hl _ _ Hev Hke Hnil).
Qed.

Lemma emitted_addr (e : EventDescription.t Callback) logs log : log ∈ emitted e logs ->
  ReceiptLogEntry.m_contractAddr log = EventDescription.m_contractAddr e.
Proof. intros [Hl _]%list_elem_of_filter. by apply Is_true_true, IsEventEmitted_spec in Hl as [Ha _]. Qed.

Lemma concat_map_nil {A B} (f : A -> list B) l : (forall x, x ∈ l -> f x = []) -> concat (map f l) = [].
Proof. intros Hf. induction l as [|x l IH]; [done|]. cbn. rewrite Hf by left. apply IH. intros y Hy. apply Hf. by right. Qed.

Lemma concat_map_eq {A B} (f g : A -> list B) l : (forall x, x ∈ l -> f x = g x) -> concat (map f l) = concat (map g l).
Proof. intros Hf. f_equal. apply map_ext_in. intros x Hx%list_elem_of_In. by apply Hf. Qed.

(** What each kind of listener adds. *)
Lemma logs_past_of w id e hdr a logs : service_ok w -> w_events w !! id = Some e ->
  logs_at hdr (callback e) (emitted e logs) (PastOf a) = if decide (on_past a e) then events a hdr logs else [].
Proof.
  intros Hw Hi. pose proof (ok_listeners w Hw _ _ Hi) as He. unfold listener_ok in He.
  destruct (decide (on_past a e)) as [[Hcb <-]|Hno].
  - rewrite Hcb in *. destruct He as [He _]. rewrite He at 1. unfold events, logs_at. apply concat_map_eq.
    intros log Hl. apply emitted_addr in Hl. cbn in Hl |- *. by rewrite decide_True.
  - unfold logs_at. apply concat_map_nil. intros log Hl. unfold contrib.
    destruct (callback e) as [|[]] eqn:Hcb; try done. rewrite decide_False; [done|].
    intros Ha. apply Hno. split; [done|]. by rewrite <-Ha, (emitted_addr e logs).
Qed.

Lemma logs_regs_of w id e logs : service_ok w -> w_events w !! id = Some e ->
  logs_regs (callback e) (emitted e logs) = if decide (on_reg e) then registrations logs else [].
Proof.
  intros Hw Hi. pose proof (ok_listeners w Hw _ _ Hi) as He. unfold listener_ok in He.
  destruct (decide (on_reg e)) as [Hcb|Hno].
  - unfold on_reg in Hcb. rewrite Hcb in *. by rewrite He.
  - unfold logs_regs. apply concat_map_nil. intros log _. unfold reg_contrib.
    destruct (callback e) as [|[]] eqn:Hcb; try done.
Qed.

Lemma filter_concat {A B} (P : B -> Prop) `{forall x, Decision (P x)} (f : A -> list B) l :
  base.filter P (concat (map f l)) = concat (map (fun x => base.filter P (f x)) l).
Proof. induction l as [|x l IH]; [done|]. cbn. by rewrite filter_app, IH. Qed.

(** The listeners a log adds are for registrations, after a deployment, and for
    the managers that are registered. *)
Lemma news_reg_of w id e logs : service_ok w -> w_events w !! id = Some e ->
  base.filter on_reg (logs_news (callback e) (emitted e logs))
  = if decide (on_deploy e) then map (fun _ => BuildRegEventDescr svc) (deploys logs) else [].
Proof.
  intros Hw Hi. pose proof (ok_listeners w Hw _ _ Hi) as He. unfold listener_ok in He.
  unfold logs_news. rewrite filter_concat. destruct (decide (on_deploy e)) as [Hcb|Hno].
  - unfold on_deploy in Hcb. rewrite Hcb in *. rewrite He. fold (deploys logs).
    induction (deploys logs) as [|l ls IH]; [done|]. cbn. by rewrite <-IH.
  - rewrite concat_map_nil; [done|]. intros log _. unfold new_desc.
    destruct (callback e) as [|[]] eqn:Hcb; try done. by destruct (registration log) as [[]|].
Qed.

Lemma news_past_of w id e a logs : service_ok w -> w_events w !! id = Some e ->
  base.filter (on_past a) (logs_news (callback e) (emitted e logs))
  = if decide (on_reg e) then map (fun r => BuildNotifyPastEventDescr r.2 svc)
      (base.filter (fun r => r.2 = a) (registrations logs)) else [].
Proof.
  intros Hw Hi. pose proof (ok_listeners w Hw _ _ Hi) as He. unfold listener_ok in He.
  unfold logs_news. rewrite filter_concat. destruct (decide (on_reg e)) as [Hcb|Hno].
  - unfold on_reg in Hcb. rewrite Hcb in *. rewrite He. unfold registrations. rewrite filter_concat.
    induction (emitted _ _) as [|l ls IH]; [done|]. cbn [map concat]. rewrite map_app, IH. f_equal. cbn [new_desc].
    destruct (registration l) as [[pub mgr]|]; [|done]. cbn [option_list option_rect].
    rewrite !filter_cons, !filter_nil. cbn [snd]. destruct (decide (mgr = a)) as [->|Hne].
    + by rewrite decide_True.
    + rewrite decide_False; [done|]. by intros [_ ?].
  - rewrite concat_map_nil; [done|]. intros log _. unfold new_desc.
    destruct (callback e) as [|[]] eqn:Hcb; try done.
Qed.

(** The logs of the block decode, for the listeners there are. *)
Definition block_decodes (w : W) (logs : list ReceiptLogEntry.t) : Prop :=
  forall id e, w_events w !! id = Some e -> Forall (log_decodes (callback e)) (emitted e logs).

Lemma exact_plan_for w logs plans : service_ok w -> block_decodes w logs -> (length (deploys logs) <= 1)%nat ->
  exact_plan (w_events w) logs plans -> Forall (plan_for w) plans.
Proof.
  intros Hw Hd H1 [_ He]. apply Forall_forall. intros [[id cb] ls] Hin.
  apply He in Hin as (e & Hi & -> & -> & Hne). exists e. cbn [fst snd]. split_and!; try done.
  - apply Forall_forall. intros log Hl. split; [by eapply Forall_forall in Hl; [|eapply Hd]|by eapply emitted_addr].
  - intros Hcb. pose proof (ok_listeners w Hw _ _ Hi) as Hl. unfold listener_ok in Hl. rewrite Hcb in Hl.
    by rewrite Hl.
Qed.

(** What is cancelled is the listener for the deployment, once it has come. *)
Lemma entry_gone_of w id e ls (K : EventDescription.t Callback -> Prop) `{forall e, Decision (K e)} :
  w_events w !! id = Some e ->
  base.filter K (entry_gone w (id, callback e, ls)) = if decide (cancels (callback e) = true /\ K e) then [e] else [].
Proof.
  intros Hi. unfold entry_gone. cbn [fst snd]. rewrite Hi. destruct (cancels (callback e)).
  - cbn [option_list option_rect]. rewrite filter_cons, filter_nil. repeat case_decide; naive_solver.
  - by rewrite decide_False by naive_solver.
Qed.

Lemma gone_none w plans logs (K : EventDescription.t Callback -> Prop) `{forall e, Decision (K e)} :
  exact_plan (w_events w) logs plans -> (forall e, K e -> cancels (callback e) = false) ->
  count_of K (concat (map (entry_gone w) plans)) = 0%nat.
Proof.
  intros [_ He] Hk. unfold count_of. rewrite filter_concat, concat_map_nil; [done|].
  intros [[id cb] ls] Hin. apply He in Hin as (e & Hi & -> & -> & _). rewrite (entry_gone_of w id e _ K Hi).
  rewrite decide_False; [done|]. intros [Hc Hke]. by rewrite Hk in Hc.
Qed.

Lemma gone_deploy w logs plans : service_ok w -> exact_plan (w_events w) logs plans ->
  count_of on_deploy (concat (map (entry_gone w) plans))
  = match deploys logs with [] => 0%nat | _ => listeners on_deploy (w_events w) end.
Proof.
  intros Hw He. unfold count_of. rewrite filter_concat.
  assert (forall id e, w_events w !! id = Some e -> on_deploy e -> e = BuildDeployEventDescr svc) as Hdep.
  { intros id e Hi Hcb. pose proof (ok_listeners w Hw _ _ Hi) as Hl. unfold listener_ok in Hl. by rewrite Hcb in Hl. }
  rewrite (plan_parts _ on_deploy (match deploys logs with [] => [] | _ => [BuildDeployEventDescr svc] end) _ _ _ He).
  - rewrite length_times. destruct (deploys logs); cbn; lia.
  - intros id e Hi Hne. rewrite (entry_gone_of w id e _ on_deploy Hi).
    destruct (decide (on_deploy e)) as [Hd|Hd]; [|by rewrite decide_False by naive_solver].
    rewrite decide_True by (split; [by rewrite Hd|done]). rewrite (Hdep _ _ Hi Hd) in *. by destruct (deploys logs) eqn:Ed.
  - intros id e Hi Hd Hnil. rewrite (Hdep _ _ Hi Hd) in Hnil. unfold deploys. by rewrite Hnil.
Qed.

Lemma news_none (e : EventDescription.t Callback) logs (K : EventDescription.t Callback -> Prop) `{forall e, Decision (K e)} :
  (forall cb log d, new_desc cb log = Some d -> ~ K d) -> base.filter K (logs_news (callback e) (emitted e logs)) = [].
Proof.
  intros Hk. unfold logs_news. rewrite filter_concat. apply concat_map_nil. intros log _.
  destruct (new_desc (callback e) log) eqn:E; [|done]. cbn [option_list option_rect].
  by rewrite filter_cons_False by (by eapply Hk).
Qed.

(** A plan that is exact takes the abstract service one block further. *)
Lemma run_exact_plan hdr logs plans w a :
  service_ok w -> block_decodes w logs -> (length (deploys logs) <= 1)%nat -> exact_plan (w_events w) logs plans ->
  exists w', EventManager.ConductCallbackPlan SyncMsgMgr.handler hdr plans w = (w', Ok tt) /\ service_ok w' /\
    (forall i e, w_events w !! i = Some e -> cancels (callback e) = false -> w_events w' !! i = Some e) /\
    m_emitterList (w_owner w') = m_emitterList (w_owner w) /\
    service_of a w' = after_block a hdr logs (service_of a w).
Proof using HeapLaws.
  intros Hw Hd H1 He. pose proof (exact_plan_for w logs plans Hw Hd H1 He) as Hp.
  destruct (run_plan hdr plans w Hw Hp (proj1 He)) as (w' & Hr & E). exists w'. split; [done|]. split; [apply E|].
  split; [exact (effs_stay _ _ _ _ _ _ _ E)|]. split; [exact (effs_emitters _ _ _ _ _ _ _ E)|].
  pose proof (effs_count _ _ _ _ _ _ _ E on_deploy) as Cd. rewrite (gone_deploy w logs plans Hw He) in Cd.
  pose proof (effs_count _ _ _ _ _ _ _ E on_reg) as Cr. rewrite (gone_none w plans logs on_reg He) in Cr by (by intros ? ->).
  pose proof (effs_count _ _ _ _ _ _ _ E (on_past a)) as Cp.
  rewrite (gone_none w plans logs (on_past a) He) in Cp by (by intros ? [-> _]).
  unfold count_of in Cd, Cr, Cp. rewrite !filter_concat in Cd, Cr, Cp.
  rewrite concat_map_nil in Cd.
  2:{ intros p Hin. rewrite Forall_forall in Hp. destruct (Hp p Hin) as (e & _ & -> & _). unfold logs_news.
      rewrite filter_concat. apply concat_map_nil. intros log _. unfold new_desc.
      destruct (callback e) as [|[]]; try done. by destruct (registration log) as [[]|]. }
  rewrite (plan_parts _ on_deploy (map (fun _ => BuildRegEventDescr svc) (deploys logs)) _ _ _ He) in Cr.
  2:{ intros id e Hi _. by apply (news_reg_of w id). }
  2:{ intros id e Hi Hde Hnil. pose proof (ok_listeners w Hw _ _ Hi) as Hl. unfold listener_ok in Hl. rewrite Hde in Hl.
      unfold deploys. by rewrite <-Hl, Hnil. }
  assert (forall id e, w_events w !! id = Some e -> on_reg e -> emitted e logs = [] -> registrations logs = []) as Hreg.
  { intros id e Hi Hde Hnil. pose proof (ok_listeners w Hw _ _ Hi) as Hl. unfold listener_ok in Hl. rewrite Hde in Hl.
    unfold registrations. by rewrite <-Hl, Hnil. }
  rewrite (plan_parts _ on_reg (map (fun r => BuildNotifyPastEventDescr r.2 svc)
    (base.filter (fun r => r.2 = a) (registrations logs))) _ _ _ He) in Cp.
  2:{ intros id e Hi _. by apply (news_past_of w id). }
  2:{ intros id e Hi Hde Hnil. by rewrite (Hreg id e). }
  rewrite !length_times, !length_map in *. unfold service_of, after_block. cbn [v_deploy v_reg v_copies v_past v_managers].
  f_equal.
  - cbn in Cd. destruct (deploys logs); lia.
  - cbn in Cr. lia.
  - cbn in Cp. lia.
  - change (contents w' (PastOf a) = contents w (PastOf a) ++ times (listeners (on_past a) (w_events w)) (events a hdr logs)).
    rewrite (effs_contents _ _ _ _ _ _ _ E) by done. f_equal. apply (plan_parts _ (on_past a) _ _ _ _ He).
    + intros id e Hi _. by apply (logs_past_of w id).
    + intros id e Hi [Hde Ha] Hnil. pose proof (ok_listeners w Hw _ _ Hi) as Hl. unfold listener_ok in Hl.
      rewrite Hde in Hl. destruct Hl as [Hl _]. unfold events. rewrite <-Ha, <-Hl. by rewrite Hnil.
  - rewrite (effs_managers _ _ _ _ _ _ _ E). f_equal. apply (plan_parts _ on_reg _ _ _ _ He); [|done].
    intros id e Hi _. by apply (logs_regs_of w id).
Qed.

(** *** What subscribers do *)

(** A listener that is not one of the service. *)
Definition other (e : EventDescription.t Callback) : Prop :=
  match callback e with OnSync _ | OnUser (NotifyEvent _) | OnUser (SubscribedReceipt _) => True | _ => False end.

(** A step that leaves the service and its listeners alone. *)
Record calm (w w' : W) : Prop := {
  calm_store : m_svcStore (w_owner w') = m_svcStore (w_owner w);
  calm_past : forall a q, store w !! a = Some q -> m_queues (w_owner w') !! q = m_queues (w_owner w) !! q;
  calm_grows : grows w w';
  calm_new : forall i e, w_events w' !! i = Some e -> w_events w !! i = Some e \/
    (other e /\ listener_ok w' e /\ exists c t cb, e = EventDescription.create c t cb);
  calm_old : forall i e, w_events w !! i = Some e -> w_events w' !! i = Some e \/ other e }.

Lemma listeners_same K `{forall e, Decision (K e)} ev ev' :
  (forall i e, K e -> ev !! i = Some e <-> ev' !! i = Some e) -> listeners K ev = listeners K ev'.
Proof.
  intros He. unfold listeners. f_equal. apply map_eq. intros i. apply option_eq. intros e.
  rewrite !map_lookup_filter_Some. cbn. naive_solver.
Qed.

Lemma calm_listeners w w' K `{forall e, Decision (K e)} : calm w w' -> (forall e, K e -> ~ other e) ->
  listeners K (w_events w') = listeners K (w_events w).
Proof.
  intros [_ _ _ Hn Ho] Hk. apply listeners_same. intros i e He. split.
  - intros [?|[Hoe _]]%Hn; [done|by destruct (Hk e He)].
  - intros [?|Hoe]%Ho; [done|by destruct (Hk e He)].
Qed.

Lemma calm_service w w' a : calm w w' -> service_ok w -> service_ok w' /\ service_of a w' = service_of a w.
Proof.
  intros Hc [C Q I L D]. split.
  - split.
    + by rewrite (calm_store _ _ Hc).
    + intros b q. rewrite (calm_store _ _ Hc). intros Hb. rewrite (calm_past _ _ Hc b q Hb). by apply (Q b).
    + rewrite (calm_store _ _ Hc). exact I.
    + intros i e [Hi|(_ & He & _)]%(calm_new _ _ Hc); [|done]. by eapply listener_grows, L; [apply Hc|].
    + intros i e [Hi|(_ & _ & c & t & cb & ->)]%(calm_new _ _ Hc); [by apply (D i)|done].
  - unfold service_of. rewrite !(calm_listeners w w') by
      (done || intros e He Ho; unfold other, on_deploy, on_reg, on_past in *; destruct (callback e) as [|[]]; naive_solver).
    f_equal; [|by rewrite (calm_store _ _ Hc)]. unfold GetPastEvents. rewrite (calm_store _ _ Hc).
    destruct (store w !! a) as [q|] eqn:E; [|done]. by rewrite (calm_past _ _ Hc a q E).
Qed.

Lemma insert_mono {A} (m : gmap nat A) (q : nat) x r : is_Some (m !! r) -> is_Some (<[q := x]> m !! r).
Proof. intros Hr. rewrite lookup_insert_is_Some. destruct (decide (q = r)); auto. Qed.

(** An emitter's listener is there. *)
Definition emitter_id (em : Emitter) : Z :=
  match em with PubsubEmitter _ _ id | ReceiptEmitter _ _ id => id end.
Definition emitter_cb (em : Emitter) : Callback :=
  match em with PubsubEmitter _ q _ => OnUser (NotifyEvent q) | ReceiptEmitter _ q _ => OnUser (SubscribedReceipt q) end.
Definition emitter_ok (w : W) (em : Emitter) : Prop :=
  exists d, w_events w !! emitter_id em = Some d /\ callback d = emitter_cb em.

Lemma EmitterHandler_run secState sendOk socket q id (w : W) :
  let o := with_queues (<[q := []]> (m_queues (w_owner w))) (w_owner w) in
  let msg := EmittedMsg secState (m_lastValidatedBlkNum (m_mgr (w_owner w))) (default [] (m_queues (w_owner w) !! q)) in
  EmitterHandler secState sendOk socket q id w =
  if sendOk then
    (mkWorld (w_states w) (w_events w) (with_sent (<[socket := default [] (m_sent o !! socket) ++ [msg]]> (m_sent o)) o), Ok tt)
  else (mkWorld (w_states w) (EventManager.Cancel (w_events w) id) o, Throw (FromStd "socket")).
Proof. by destruct sendOk. Qed.

Lemma SubscribedReceiptEmitter_run secState sendOk socket q id (w : W) :
  let o := with_receiptQueues (<[q := []]> (m_receiptQueues (w_owner w))) (w_owner w) in
  let msg := EmittedReceipts secState (m_lastValidatedBlkNum (m_mgr (w_owner w))) (default [] (m_receiptQueues (w_owner w) !! q)) in
  SubscribedReceiptEmitter secState sendOk socket q id w =
  if sendOk then
    (mkWorld (w_states w) (w_events w) (with_sent (<[socket := default [] (m_sent o !! socket) ++ [msg]]> (m_sent o)) o), Ok tt)
  else (mkWorld (w_states w) (EventManager.Cancel (w_events w) id) o, Throw (FromStd "socket")).
Proof. by destruct sendOk. Qed.

(** A change of the owner that keeps the store of the service and the queues of
    past events, with listeners that only go away if they are not the service's. *)
Lemma calm_owner w ev o :
  m_svcStore o = m_svcStore (w_owner w) ->
  (forall a q, store w !! a = Some q -> m_queues o !! q = m_queues (w_owner w) !! q) ->
  (forall q, is_Some (m_queues (w_owner w) !! q) -> is_Some (m_queues o !! q)) ->
  (forall q, is_Some (m_receiptQueues (w_owner w) !! q) -> is_Some (m_receiptQueues o !! q)) ->
  (forall i e, ev !! i = Some e -> w_events w !! i = Some e) ->
  (forall i e, w_events w !! i = Some e -> ev !! i = Some e \/ other e) ->
  calm w (mkWorld (w_states w) ev o).
Proof.
  intros Hs Hp Hq Hr He Hk. split; cbn; auto.
  split; cbn; try done; [by rewrite Hs|]. rewrite Hs. by left.
Qed.

Lemma calm_refl w : calm w w.
Proof. split; auto using grows_refl. Qed.

Lemma cancel_other (w : W) id d : w_events w !! id = Some d -> other d ->
  forall i e, w_events w !! i = Some e -> EventManager.Cancel (w_events w) id !! i = Some e \/ other e.
Proof.
  intros Hd Ho i e Hi. unfold EventManager.Cancel. rewrite Hd. destruct (decide (i = id)) as [->|Hne].
  - right. congruence.
  - left. by rewrite lookup_delete_ne.
Qed.

Lemma run_emitter_calm secState sendOk em w : service_ok w -> emitter_ok w em ->
  let '(w', r) := run_emitter secState sendOk em w in
  calm w w' /\ m_emitterList (w_owner w') = m_emitterList (w_owner w) /\
  w_events w' = match r with Ok _ => w_events w | Throw _ => EventManager.Cancel (w_events w) (emitter_id em) end.
Proof.
  intros Hw (d & Hd & Hcb). pose proof (ok_listeners w Hw _ _ Hd) as Hl. unfold listener_ok in Hl. rewrite Hcb in Hl.
  assert (other d) as Ho by (unfold other; rewrite Hcb; by destruct em).
  destruct em as [socket q id|socket q id]; cbn [run_emitter emitter_id emitter_cb] in *.
  - destruct Hl as (_ & Hq & Hno). rewrite EmitterHandler_run.
    assert (forall a r, store w !! a = Some r -> <[q:=[]]> (m_queues (w_owner w)) !! r = m_queues (w_owner w) !! r) as Hp.
    { intros a r Ha. rewrite lookup_insert_ne; [done|]. intros ->. by apply (Hno a). }
    destruct (sendOk _); (split; [apply calm_owner|]); cbn; auto using insert_mono; try by eapply cancel_other.
    intros i e Hi. by apply Cancel_lookup in Hi.
  - rewrite SubscribedReceiptEmitter_run.
    destruct (sendOk _); (split; [apply calm_owner|]); cbn; auto using insert_mono; try by eapply cancel_other.
    intros i e Hi. by apply Cancel_lookup in Hi.
Qed.

(** The listeners of the emitters are theirs alone. *)
Definition emitters_ok (l : list Emitter) (w : W) : Prop := NoDup (map emitter_id l) /\ Forall (emitter_ok w) l.

(** One emitter of a heartbeat; one that throws goes off the list. *)
Lemma emit_step secState sendOk em l1 l2 v : service_ok v -> emitters_ok (l1 ++ em :: l2) v ->
  let '(v', r) := run_emitter secState sendOk em v in
  calm v v' /\ service_ok v' /\ m_emitterList (w_owner v') = m_emitterList (w_owner v) /\
  emitters_ok (match r with Ok _ => l1 ++ em :: l2 | Throw _ => l1 ++ l2 end) v'.
Proof.
  intros Hv [Hn Hf]. pose proof Hf as Hem. apply Forall_app in Hem as [H1 [Hem H2]%Forall_cons].
  pose proof (run_emitter_calm secState sendOk em v Hv Hem) as Hrun.
  destruct (run_emitter secState sendOk em v) as [v1 r]. destruct Hrun as (Hc & Hl1 & Hev1).
  destruct (calm_service v v1 [] Hc Hv) as [Hv1 _]. split_and!; [done|done|done|]. destruct r as [x|x].
  - split; [done|]. eapply Forall_impl; [exact Hf|]. intros e (d & Hd & Hcb). exists d. by rewrite Hev1.
  - unfold emitters_ok. rewrite map_app in Hn |- *. cbn [map] in Hn. apply NoDup_app in Hn as (N1 & N2 & [N3 N4]%NoDup_cons). split.
    + apply NoDup_app. split_and!; [done| |done]. intros i Hi Hi2. apply (N2 i Hi). by right.
    + assert (forall e, emitter_ok v e -> emitter_id e <> emitter_id em -> emitter_ok v1 e) as Hkeep.
      { intros e (d & Hd & Hcb) Hne. exists d. rewrite Hev1. unfold EventManager.Cancel.
        destruct (w_events v !! emitter_id em); [|done]. by rewrite lookup_delete_ne. }
      rewrite Forall_forall in H1, H2. apply Forall_app. split; apply Forall_forall; intros e Hin; apply Hkeep; auto.
      * intros Heq. apply (N2 (emitter_id e)); [by apply (list_elem_of_fmap_2 emitter_id)|]. rewrite Heq. left.
      * intros Heq. apply N3. rewrite <-Heq. by apply (list_elem_of_fmap_2 emitter_id).
Qed.

(** A property of the world, the emitters that have sent and the ones that have
    yet to, which each emitter keeps. *)
Lemma EmitAll_inv (P : list Emitter -> list Emitter -> W -> Prop) secState sendOk w :
  service_ok w -> emitters_ok (m_emitterList (w_owner w)) w ->
  (forall l1 l2 v o, m_svcStore o = m_svcStore (w_owner v) -> m_queues o = m_queues (w_owner v) ->
    m_receiptQueues o = m_receiptQueues (w_owner v) -> m_sent o = m_sent (w_owner v) ->
    P l1 l2 v -> P l1 l2 (mkWorld (w_states v) (w_events v) o)) ->
  (forall em l1 l2 v, service_ok v -> emitters_ok (l1 ++ em :: l2) v -> P l1 (em :: l2) v ->
    let '(v', r) := run_emitter secState sendOk em v in
    match r with Ok _ => P (l1 ++ [em]) l2 v' | Throw _ => P l1 l2 v' end) ->
  P [] (m_emitterList (w_owner w)) w ->
  let w' := EmitAll secState sendOk w in
  service_ok w' /\ emitters_ok (m_emitterList (w_owner w')) w' /\ P (m_emitterList (w_owner w')) [] w'.
Proof.
  intros Hw He Hset Hstep HP. unfold EmitAll, HeartbeatEmitterMgr.EmitAll. set (w0 := mkWorld _ _ (with_emitterList [] _)).
  assert (forall v l, service_ok v -> service_ok (mkWorld (w_states v) (w_events v) (with_emitterList l (w_owner v)))) as Hlist.
  { intros v l Hv. apply (calm_service v _ []); [|done]. apply calm_owner; cbn; auto. }
  pose proof (EmitAll_loop_inv (run_emitter secState sendOk)
    (fun l1 l2 v => service_ok v /\ m_emitterList (w_owner v) = [] /\ emitters_ok (l1 ++ l2) v /\ P l1 l2 v)
    (m_emitterList (w_owner w)) w0) as Hloop.
  destruct (HeartbeatEmitterMgr.EmitAll_loop _ _ w0) as [v valid]. destruct Hloop as (Hv & Hl & Hev & HPv).
  - intros em l1 l2 v0 (Hv0 & Hlv & Hev0 & HP0). pose proof (emit_step secState sendOk em l1 l2 v0 Hv0 Hev0) as Hs.
    pose proof (Hstep em l1 l2 v0 Hv0 Hev0 HP0) as Hp. destruct (run_emitter secState sendOk em v0) as [v1 [x|x]];
      destruct Hs as (_ & Hs1 & Hs2 & Hs3); rewrite Hlv in Hs2; [rewrite <-app_assoc|]; done.
  - split_and!; [by apply Hlist|done|done|by apply (Hset _ _ w)].
  - cbn zeta. rewrite app_nil_r in Hev. rewrite Hl, app_nil_r. split_and!; [by apply Hlist|done|by apply (Hset _ _ v)].
Qed.

Lemma EmitAll_calm secState sendOk w a :
  service_ok w -> emitters_ok (m_emitterList (w_owner w)) w ->
  let w' := EmitAll secState sendOk w in
  service_ok w' /\ service_of a w' = service_of a w /\ emitters_ok (m_emitterList (w_owner w')) w'.
Proof.
  intros Hw He. destruct (EmitAll_inv (fun _ _ v => service_ok v /\ service_of a v = service_of a w) secState sendOk w Hw He)
    as (Hw' & He' & _ & Hs); [| |done|done].
  - intros l1 l2 v o E1 E2 E3 _ [Hv <-]. apply calm_service; [|done]. apply calm_owner; cbn; rewrite ?E2, ?E3; auto.
  - intros em l1 l2 v Hv Hev [_ <-]. pose proof (emit_step secState sendOk em l1 l2 v Hv Hev) as Hstep.
    destruct (run_emitter secState sendOk em v) as [v1 [x|x]]; destruct Hstep as (Hc & _); by apply calm_service.
Qed.

Lemma SubReq_run secState sendOk socket pubAddr (w : W) :
  let addr := GetEventMgrAddr (m_svcStore (w_owner w)) pubAddr in
  let q := new_queue (m_queues (w_owner w)) in
  let o := with_queues (<[q := []]> (m_queues (w_owner w))) (w_owner w) in
  let id := new_listener (w_events w) in
  let ev := listening (BuildNotifyEventDescr addr (PubsubServiceStore.m_notifyEvTopic (m_svcStore (w_owner w))) q) (w_events w) in
  let msg := EmittedMsg secState (m_lastValidatedBlkNum (m_mgr (w_owner w))) (GetPastEvents o addr) in
  SubReq secState sendOk socket pubAddr w =
  if bool_decide (addr = replicate 20 0) then (w, Ok tt)
  else if sendOk then
    (mkWorld (w_states w) ev (with_emitterList (m_emitterList o ++ [PubsubEmitter socket q id])
      (with_sent (<[socket := default [] (m_sent o !! socket) ++ [msg]]> (m_sent o)) o)), Ok tt)
  else (mkWorld (w_states w) ev o, Throw (FromStd "socket")).
Proof. intros addr. unfold SubReq, mbind, stx_bind. cbn. fold addr. by destruct (bool_decide _), sendOk. Qed.

Lemma ReceiptSubReq_run socket conAddr topics (w : W) :
  let q := new_queue (m_receiptQueues (w_owner w)) in
  let o := with_receiptQueues (<[q := []]> (m_receiptQueues (w_owner w))) (w_owner w) in
  ReceiptSubReq socket conAddr topics w =
  if (zlen conAddr =? 20) && forallb (fun topic => zlen topic =? 32) topics then
    (mkWorld (w_states w) (listening (BuildSubscribedEventDescr conAddr topics q) (w_events w))
      (with_emitterList (m_emitterList o ++ [ReceiptEmitter socket q (new_listener (w_events w))]) o), Ok tt)
  else (w, Ok tt).
Proof. unfold ReceiptSubReq. by destruct (zlen conAddr =? 20), (forallb _ _). Qed.

(** A new listener of a subscriber. *)
Lemma calm_listening w d o :
  service_ok w -> m_svcStore o = m_svcStore (w_owner w) ->
  (forall a q, store w !! a = Some q -> m_queues o !! q = m_queues (w_owner w) !! q) ->
  (forall q, is_Some (m_queues (w_owner w) !! q) -> is_Some (m_queues o !! q)) ->
  (forall q, is_Some (m_receiptQueues (w_owner w) !! q) -> is_Some (m_receiptQueues o !! q)) ->
  other d -> user_listener d -> listener_ok (mkWorld (w_states w) (listening d (w_events w)) o) d ->
  calm w (mkWorld (w_states w) (listening d (w_events w)) o).
Proof using HeapLaws.
  intros Hw Hs Hp Hq Hr Hd Hu Hl. split; cbn [w_owner w_events w_states]; auto.
  - split; cbn; try done; [by rewrite Hs|]. rewrite Hs. by left.
  - intros i e [?|[= <-]]%listening_elem; [by left|right]. destruct Hu as (? & ? & ? & ->). eauto 10.
  - intros i e Hi. left. unfold listening. cbn. rewrite new_listener_fresh, lookup_insert_ne; [done|].
    intros <-. by rewrite new_listener_fresh in Hi.
Qed.

Lemma listening_kept d (ev : EventManager.t Callback) i e : ev !! i = Some e -> listening d ev !! i = Some e.
Proof using HeapLaws.
  intros Hi. unfold listening. cbn. rewrite new_listener_fresh, lookup_insert_ne; [done|].
  intros <-. by rewrite new_listener_fresh in Hi.
Qed.

Lemma listening_new d (ev : EventManager.t Callback) : listening d ev !! new_listener ev = Some d.
Proof using HeapLaws. unfold listening. cbn. rewrite new_listener_fresh. apply lookup_insert_eq. Qed.

(** The emitters after a step that keeps their listeners, and adds one. *)
Lemma emitters_ok_kept l w w' : emitters_ok l w ->
  (forall i e, w_events w !! i = Some e -> cancels (callback e) = false -> w_events w' !! i = Some e) -> emitters_ok l w'.
Proof.
  intros [Hn Hf] Hk. split; [done|]. eapply Forall_impl; [exact Hf|]. intros em (d & Hd & Hcb). exists d.
  split; [|done]. apply Hk; [done|]. rewrite Hcb. by destruct em.
Qed.

Lemma emitters_ok_snoc l em d w o : emitters_ok l w -> emitter_id em = new_listener (w_events w) -> callback d = emitter_cb em ->
  emitters_ok (l ++ [em]) (mkWorld (w_states w) (listening d (w_events w)) o).
Proof using HeapLaws.
  intros [Hn Hf] Hid Hcb.
  destruct (emitters_ok_kept l w (mkWorld (w_states w) (listening d (w_events w)) o)) as [_ Hf'];
    [done|intros; by apply listening_kept|]. split.
  - rewrite map_app. apply NoDup_app. split_and!; [done| |apply NoDup_singleton].
    intros i (e & -> & He)%list_elem_of_fmap Hi%list_elem_of_singleton. rewrite Forall_forall in Hf.
    destruct (Hf e He) as (x & Hx & _). by rewrite Hi, Hid, new_listener_fresh in Hx.
  - apply Forall_app. split; [done|]. apply Forall_singleton. exists d. cbn [w_events]. by rewrite Hid, listening_new.
Qed.

Definition subscribers_ok (w : W) : Prop := emitters_ok (m_emitterList (w_owner w)) w.

Lemma SubReq_calm secState sendOk socket pubAddr w : service_ok w -> subscribers_ok w ->
  let w' := (SubReq secState sendOk socket pubAddr w).1 in calm w w' /\ subscribers_ok w'.
Proof using HeapLaws.
  intros Hw He. rewrite SubReq_run. destruct (bool_decide _).
  { split; [apply calm_refl|done]. }
  set (q := new_queue _). set (d := BuildNotifyEventDescr _ _ q).
  assert (forall a r, store w !! a = Some r -> r <> q) as Hne.
  { intros a r Ha ->. destruct (ok_queue w Hw a q Ha) as [x Hx]. unfold q in Hx. by rewrite new_queue_fresh in Hx. }
  assert (forall o, m_svcStore o = m_svcStore (w_owner w) -> m_queues o = <[q := []]> (m_queues (w_owner w)) ->
    m_receiptQueues o = m_receiptQueues (w_owner w) -> calm w (mkWorld (w_states w) (listening d (w_events w)) o)) as Hc.
  { intros o Es Eq Er. apply calm_listening; try done; rewrite ?Eq, ?Er; auto using insert_mono.
    - intros a r Ha. rewrite lookup_insert_ne; [done|]. intros <-. by apply (Hne a q).
    - by eexists _, _, _.
    - unfold listener_ok. cbn. rewrite Eq, Es, lookup_insert_eq. destruct (ok_consts w Hw) as (_ & _ & Et). split_and!.
      + unfold d. by rewrite Et.
      + by eexists.
      + intros a Ha. by apply (Hne a q). }
  destruct sendOk; cbn [fst]; (split; [by apply Hc|]); unfold subscribers_ok; cbn [w_owner m_emitterList with_emitterList with_sent with_queues].
  - by apply (emitters_ok_snoc _ (PubsubEmitter socket q (new_listener (w_events w))) d).
  - eapply emitters_ok_kept; [exact He|]. intros; by apply listening_kept.
Qed.

Lemma ReceiptSubReq_calm socket conAddr topics w : service_ok w -> subscribers_ok w ->
  let w' := (ReceiptSubReq socket conAddr topics w).1 in calm w w' /\ subscribers_ok w'.
Proof using HeapLaws.
  intros Hw He. rewrite ReceiptSubReq_run. destruct (_ && _).
  2:{ split; [apply calm_refl|done]. }
  cbn [fst]. split.
  - apply calm_listening; cbn; auto using insert_mono; [by eexists _, _, _|]. unfold listener_ok. cbn. rewrite lookup_insert_eq. by eexists.
  - by apply (emitters_ok_snoc _ (ReceiptEmitter _ _ _)).
Qed.

(** *** Histories *)

(** The application before [Start]: the service has seen nothing, and the only
    listener is the monitor's. *)
Record first (w : W) : Prop := {
  first_store : m_svcStore (w_owner w) = svc;
  first_managers : PubsubServiceStore.m_evMgrAddrMap svc = ∅;
  first_past : PubsubServiceStore.m_pastEventStore svc = ∅;
  first_emitters : m_emitterList (w_owner w) = [];
  first_events : forall id e, w_events w !! id = Some e ->
    exists ref, callback e = OnSync ref /\ is_Some (w_states w !! ref);
  first_described : described (w_events w) }.

(** The block that is checked: what the getter delivers has the header's root,
    the header's bloom is the logs', the logs of the service decode, and the
    service is deployed once at most. *)
Record checks (w : W) (hdr : HeaderMgr.t) (getter : Z -> result Error ReceiptsMgr.t) (r : ReceiptsMgr.t) : Prop := {
  chk_getter : getter (HeaderMgr.m_blkNum hdr) = Ok r;
  chk_root : ReceiptsMgr.m_rootHashBytes r = EthHeader.ReceiptsRoot (HeaderMgr.m_rawHeader hdr);
  chk_bloom : bloom_covers hdr (block_logs r);
  chk_decodes : block_decodes w (block_logs r);
  chk_deploys : (length (deploys (block_logs r)) <= 1)%nat }.

Definition Block : Type := HeaderMgr.t * list ReceiptLogEntry.t.

(** What the threads of the application do, one call at a time, and the block
    that is checked, if one is.  The address of the monitor's listener has not been
    taken by a listener of the application. *)
Inductive serve_step : list Block -> W -> W -> Prop :=
| step_block w hdr getter r w' res : checks w hdr getter r ->
    EventManager.CheckEvents SyncMsgMgr.handler (w_events w) hdr getter w = (w', res) ->
    serve_step [(hdr, block_logs r)] w w'
| step_SubReq w secState sendOk socket pubAddr w' r :
    SubReq secState sendOk socket pubAddr w = (w', r) -> serve_step [] w w'
| step_ReceiptSubReq w socket conAddr topics w' r :
    ReceiptSubReq socket conAddr topics w = (w', r) -> serve_step [] w w'
| step_EmitAll w secState sendOk : serve_step [] w (EmitAll secState sendOk w)
| step_NewSyncState w m dev now nonce ref id w' m' :
    w_states w !! ref = None -> EventManager.Cancel (w_events w) (SyncMsgMgr.m_syncEventCallbackId m) !! id = None ->
    (forall e, w_events w !! SyncMsgMgr.m_syncEventCallbackId m = Some e -> exists ref, callback e = OnSync ref) ->
    SyncMsgMgr.NewSyncState dev m w now nonce ref id = (w', m') -> serve_step [] w w'
| step_manager w mgr :
    serve_step [] w (mkWorld (w_states w) (w_events w) (mkOwner (m_svcStore (w_owner w)) (m_queues (w_owner w))
      (m_receiptQueues (w_owner w)) (m_emitterList (w_owner w)) (m_sent (w_owner w)) mgr)).

(** With the blocks checked so far. *)
Inductive serves : list Block -> W -> Prop :=
| serves_start w w' r : first w -> Start w = (w', r) -> serves [] w'
| serves_step bs bs' w w' : serves bs w -> serve_step bs' w w' -> serves (bs ++ bs') w'.

Lemma serves_quiet bs w w' : serves bs w -> serve_step [] w w' -> serves bs w'.
Proof. intros Hs Hstep. rewrite <-(app_nil_r bs). by eapply serves_step. Qed.

(** The abstract service after some blocks. *)
Definition service_start : Service := mkService 1 0 0 [] ∅.
Definition after_blocks (a : bytes) (bs : list Block) (v : Service) : Service :=
  foldl (fun v b => after_block a b.1 b.2 v) v bs.

Lemma Start_run (w : W) : Start w =
  (mkWorld (w_states w) (listening (BuildDeployEventDescr (m_svcStore (w_owner w))) (w_events w)) (w_owner w), Ok tt).
Proof. done. Qed.

Lemma start_ok a w w' r : first w -> Start w = (w', r) ->
  service_ok w' /\ subscribers_ok w' /\ service_of a w' = service_start.
Proof using HeapLaws.
  intros [Fs Fm Fp Fe Fl Fd]. rewrite Start_run, Fs. intros [= <- _].
  assert (forall K `{forall e, Decision (K e)}, (forall e, K e -> forall ref, callback e <> OnSync ref) ->
    listeners K (w_events w) = 0%nat) as Hz.
  { intros K ? Hk. unfold listeners. apply map_size_empty_iff, map_empty. intros i. apply map_lookup_filter_None. right.
    intros e Hi Hke. destruct (Fl i e Hi) as (ref & Hr & _). by apply (Hk e Hke ref). }
  split; [split|split]; cbn [w_owner w_events].
  - by rewrite Fs.
  - rewrite Fs, Fp. intros a' q Ha. by rewrite lookup_empty in Ha.
  - rewrite Fs, Fp. intros a' b q Ha. by rewrite lookup_empty in Ha.
  - intros i e [Hi|[= <-]]%listening_elem; [|done]. destruct (Fl i e Hi) as (ref & Hr & Hsome). unfold listener_ok. by rewrite Hr.
  - intros i e [Hi|[= <-]]%listening_elem; [by apply (Fd i)|done].
  - unfold subscribers_ok. cbn [w_owner]. rewrite Fe. split; constructor.
  - unfold service_of, service_start. cbn [w_owner w_events]. rewrite !listeners_listening.
    rewrite !Hz by (intros e He ref Href; unfold on_deploy, on_reg, on_past in He; rewrite Href in He; naive_solver).
    unfold GetPastEvents, count_of. rewrite Fs, Fp, Fm, lookup_empty. by rewrite !filter_cons, !filter_nil.
Qed.

Lemma NewSyncState_calm dev m w now nonce ref id w' m' : service_ok w -> subscribers_ok w ->
  w_states w !! ref = None -> EventManager.Cancel (w_events w) (SyncMsgMgr.m_syncEventCallbackId m) !! id = None ->
  (forall e, w_events w !! SyncMsgMgr.m_syncEventCallbackId m = Some e -> exists ref, callback e = OnSync ref) ->
  SyncMsgMgr.NewSyncState dev m w now nonce ref id = (w', m') -> calm w w' /\ subscribers_ok w'.
Proof.
  intros Hw He Href Hid Hs. unfold SyncMsgMgr.NewSyncState, SyncMsgMgr.RegisterSyncEvent_Locked, EventManager.Listen.
  destruct dev; [intros [= <- _]; by split; [apply calm_refl|]|].
  cbn [w_events w_states w_owner]. rewrite Hid. intros [= <- _].
  set (d := EventDescription.create _ _ _). set (ev := EventManager.Cancel _ _) in *.
  assert (forall i e, w_events w !! i = Some e -> ev !! i = Some e \/ (exists ref, callback e = OnSync ref)) as Hev.
  { intros i e Hi. subst ev. unfold EventManager.Cancel.
    destruct (w_events w !! SyncMsgMgr.m_syncEventCallbackId m) as [x|] eqn:Ex; [|by left].
    destruct (decide (i = SyncMsgMgr.m_syncEventCallbackId m)) as [->|Hne].
    - right. rewrite Ex in Hi. injection Hi as <-. by apply Hs.
    - left. by rewrite lookup_delete_ne. }
  assert (forall i e, ev !! i = Some e -> <[id := d]> ev !! i = Some e) as Hins.
  { intros i e Hi. rewrite lookup_insert_ne; [done|]. intros ->. by rewrite Hid in Hi. }
  assert (grows w (mkWorld (<[ref := SyncState.create (SyncMsgMgr.m_maxWaitTime m) now nonce]> (w_states w))
    (<[id := d]> ev) (w_owner w))) as Hg by (split; cbn; auto using insert_mono).
  split; [split; cbn [w_events w_owner]; auto|].
  - intros i e [[<- <-]|[_ Hi]]%lookup_insert_Some; [right|left; by eapply Cancel_lookup].
    split_and!; [done| |by eexists _, _, _]. unfold listener_ok. cbn. rewrite lookup_insert_eq. by eexists.
  - intros i e [Hi|[r Hr]]%Hev; [left; auto|right]. unfold other. by rewrite Hr.
  - unfold subscribers_ok. cbn [w_owner]. eapply emitters_ok_kept; [exact He|]. cbn [w_events].
    intros i e [Hi|[r Hr]]%Hev Hc; [auto|]. by rewrite Hr in Hc.
Qed.

(** A block takes the service one block further, and no callback throws. *)
Lemma check_block a w hdr getter r : service_ok w -> subscribers_ok w -> checks w hdr getter r ->
  exists w', EventManager.CheckEvents SyncMsgMgr.handler (w_events w) hdr getter w = (w', Ok tt) /\
    service_ok w' /\ subscribers_ok w' /\ service_of a w' = after_block a hdr (block_logs r) (service_of a w) /\
    m_emitterList (w_owner w') = m_emitterList (w_owner w).
Proof using HeapLaws.
  intros Hw He [Cg Cr Cb Cd C1]. unfold EventManager.CheckEvents.
  destruct (plan_exact (w_events w) hdr getter r (ok_described w Hw) Cb Cg Cr) as (plans & -> & Hp).
  destruct (run_exact_plan hdr (block_logs r) plans w a Hw Cd C1 Hp) as (w' & Hr & Hw' & Hk & Hl & Hs).
  exists w'. split_and!; try done. unfold subscribers_ok. rewrite Hl. by eapply emitters_ok_kept.
Qed.

Lemma step_inv a bs w w' : service_ok w -> subscribers_ok w -> serve_step bs w w' ->
  service_ok w' /\ subscribers_ok w' /\ service_of a w' = after_blocks a bs (service_of a w).
Proof using HeapLaws.
  intros Hw He Hstep. destruct Hstep as [w hdr getter r w' res Hc Hr|w ss ok so pub w' r Hr|w so con topics w' r Hr|w ss ok
    |w m dev now nonce ref id w' m' Href Hid Hl Hr|w mgr].
  - destruct (check_block a w hdr getter r Hw He Hc) as (w1 & Hr1 & Hw1 & He1 & Hs1 & _). rewrite Hr1 in Hr. by injection Hr as <- _.
  - pose proof (SubReq_calm ss ok so pub w Hw He) as [Hc He']. rewrite Hr in Hc, He'. cbn [fst] in *.
    by destruct (calm_service w w' a Hc Hw) as [? ->].
  - pose proof (ReceiptSubReq_calm so con topics w Hw He) as [Hc He']. rewrite Hr in Hc, He'. cbn [fst] in *.
    by destruct (calm_service w w' a Hc Hw) as [? ->].
  - by destruct (EmitAll_calm ss ok w a Hw He) as (? & -> & ?).
  - destruct (NewSyncState_calm dev m w now nonce ref id w' m') as [Hc He']; [done..|].
    by destruct (calm_service w w' a Hc Hw) as [? ->].
  - destruct (calm_service w (mkWorld (w_states w) (w_events w) (mkOwner (m_svcStore (w_owner w)) (m_queues (w_owner w))
      (m_receiptQueues (w_owner w)) (m_emitterList (w_owner w)) (m_sent (w_owner w)) mgr)) a) as [? ->]; [|done..].
    apply calm_owner; cbn; auto.
Qed.

Lemma serves_inv a bs w : serves bs w ->
  service_ok w /\ subscribers_ok w /\ service_of a w = after_blocks a bs service_start.
Proof using HeapLaws.
  induction 1 as [w w' r Hf Hr|bs bs' w w' _ (Hw & He & Hs) Hstep]; [by apply (start_ok a w w' r)|].
  destruct (step_inv a bs' w w' Hw He Hstep) as (Hw' & He' & ->). split_and!; [done..|].
  unfold after_blocks. by rewrite foldl_app, Hs.
Qed.

(** C8. Refinement: whatever the subscribers, the heartbeats and the monitor do
    between the blocks, the event manager, the store of the service and the
    closures it registers behave, after any blocks, like the abstract service
    that counts listeners: a block hands its deployments, registrations and
    events to the listeners there were before it, every listener of a manager
    appends the manager's events once, in order, and each registration adds one
    listener; and the next block is checked without an exception. *)
Theorem service_refines a bs w hdr getter r : serves bs w -> checks w hdr getter r ->
  service_of a w = after_blocks a bs service_start /\
  exists w', EventManager.CheckEvents SyncMsgMgr.handler (w_events w) hdr getter w = (w', Ok tt) /\
    service_of a w' = after_blocks a (bs ++ [(hdr, block_logs r)]) service_start.
Proof using HeapLaws.
  intros (Hw & He & Hs)%(serves_inv a) Hc. split; [done|].
  destruct (check_block a w hdr getter r Hw He Hc) as (w1 & Hr1 & _ & _ & Hs1 & _). exists w1. split; [done|].
  unfold after_blocks in *. by rewrite foldl_app, Hs1, Hs.
Qed.

(** *** The past events of a manager *)

Definition regs_of (a : bytes) (b : Block) : nat := length (base.filter (fun r => r.2 = a) (registrations b.2)).

Lemma after_blocks_app a bs bs' v : after_blocks a (bs ++ bs') v = after_blocks a bs' (after_blocks a bs v).
Proof. apply foldl_app. Qed.

Lemma blocks_undeployed a bs v : (forall b, b ∈ bs -> deploys b.2 = []) -> v_reg v = 0%nat -> v_copies v = 0%nat ->
  let v' := after_blocks a bs v in
  v_deploy v' = v_deploy v /\ v_reg v' = 0%nat /\ v_copies v' = 0%nat /\ v_past v' = v_past v.
Proof.
  revert v. induction bs as [|b bs IH]; intros v Hb Hr Hc; [done|]. cbn.
  destruct (IH (after_block a b.1 b.2 v)) as (E1 & E2 & E3 & E4).
  - intros b' Hb'. apply Hb. by right.
  - cbn. rewrite (Hb b) by left. cbn. lia.
  - cbn. rewrite Hr, Hc. lia.
  - unfold after_blocks in *. rewrite E1, E4. cbn. rewrite (Hb b) by left. by rewrite Hc, app_nil_r.
Qed.

Lemma blocks_unregistered a bs v n : (forall b, b ∈ bs -> regs_of a b = 0%nat) -> v_copies v = n -> v_deploy v = 0%nat ->
  let v' := after_blocks a bs v in
  v_deploy v' = 0%nat /\ v_reg v' = v_reg v /\ v_copies v' = n /\
  v_past v' = v_past v ++ concat (map (fun b => times n (events a b.1 b.2)) bs).
Proof.
  revert v. induction bs as [|b bs IH]; intros v Hb Hn Hd; [by cbn; rewrite app_nil_r|]. cbn.
  destruct (IH (after_block a b.1 b.2 v)) as (E1 & E2 & E3 & E4).
  - intros b' Hb'. apply Hb. by right.
  - cbn. fold (regs_of a b). rewrite (Hb b) by left. lia.
  - cbn. rewrite Hd. by destruct (deploys b.2).
  - unfold after_blocks in *. rewrite E1, E2, E3, E4. cbn. rewrite Hd, Hn, app_assoc. split_and!; (done || lia).
Qed.

(** The past events of a manager that was registered [n] times, in one block. *)
Lemma past_events_of a n pre dep mid reg post w :
  serves (pre ++ dep :: mid ++ reg :: post) w ->
  (forall b, b ∈ pre -> deploys b.2 = []) -> length (deploys dep.2) = 1%nat ->
  (forall b, b ∈ mid ++ post -> regs_of a b = 0%nat) -> regs_of a reg = n ->
  past w a = concat (map (fun b => times n (events a b.1 b.2)) post).
Proof using HeapLaws.
  intros (_ & _ & Hs)%(serves_inv a) Hpre Hdep Hmp Hn.
  change (past w a) with (v_past (service_of a w)). rewrite Hs, after_blocks_app.
  destruct (blocks_undeployed a pre service_start Hpre eq_refl eq_refl) as (E1 & E2 & E3 & E4).
  set (v1 := after_blocks a pre service_start) in *. cbn in E1, E4.
  change (after_blocks a (dep :: mid ++ reg :: post) v1) with (after_blocks a (mid ++ reg :: post) (after_block a dep.1 dep.2 v1)).
  set (v2 := after_block a dep.1 dep.2 v1). rewrite after_blocks_app.
  assert (v_deploy v2 = 0%nat /\ v_reg v2 = 1%nat /\ v_copies v2 = 0%nat /\ v_past v2 = []) as (F1 & F2 & F3 & F4).
  { subst v2. cbn. rewrite Hdep, E1, E2, E3, E4. by destruct (deploys dep.2). }
  destruct (blocks_unregistered a mid v2 0 ltac:(intros; apply Hmp, elem_of_app; by left) F3 F1) as (G1 & G2 & G3 & G4).
  set (v3 := after_blocks a mid v2) in *.
  change (after_blocks a (reg :: post) v3) with (after_blocks a post (after_block a reg.1 reg.2 v3)).
  assert (v_past v3 = []) as G4'.
  { rewrite G4, F4. cbn. clear. by induction mid. }
  destruct (blocks_unregistered a post (after_block a reg.1 reg.2 v3) n
    ltac:(intros; apply Hmp, elem_of_app; by right)) as (_ & _ & _ & H4).
  - cbn. fold (regs_of a reg). rewrite G2, G3, F2, Hn. lia.
  - cbn. rewrite G1. by destruct (deploys reg.2).
  - rewrite H4. cbn. by rewrite G4', G3.
Qed.

(** C9. The past events a new subscriber gets, exactly: once the service has been
    deployed in a block and the manager of a publisher registered [n] times in a
    later one, they are the manager's events of the blocks after the
    registration, in order, each [n] times - none of the block of the
    registration itself, and none at all for a registration in the block of the
    deployment or before. *)
Theorem past_events_exact a n pre dep mid reg post w :
  serves (pre ++ dep :: mid ++ reg :: post) w ->
  (forall b, b ∈ pre -> deploys b.2 = []) -> length (deploys dep.2) = 1%nat ->
  (forall b, b ∈ mid ++ post -> regs_of a b = 0%nat) -> regs_of a reg = n ->
  past w a = concat (map (fun b => times n (events a b.1 b.2)) post).
Proof using HeapLaws. apply past_events_of. Qed.
End store.

(** *** A publisher, concretely *)

#[local] Instance sample_malloc : Malloc := {|
  new_listener := fun m => fresh (C := gset Z) (dom m); new_queue := fun A m => fresh (C := gset nat) (dom m) |}.
#[local] Instance sample_malloc_laws : MallocLaws.
Proof.
  split; [intros m|intros A m]; apply not_elem_of_dom.
  - exact (is_fresh (dom m : gset Z)).
  - exact (is_fresh (dom m : gset nat)).
Qed.
#[local] Instance sample_allocator : Allocator := fun n => n <? 2 ^ 20.

Definition sample_service : PubsubServiceStore.t :=
  PubsubServiceStore.mk (replicate 20 1) (replicate 32 2) (replicate 32 3) (replicate 32 4) false ∅ ∅.
Definition sample_manager : bytes := replicate 20 5.
Definition sample_deployment : ReceiptLogEntry.t :=
  ReceiptLogEntry.mk (replicate 20 1) [replicate 32 2; AddressToAbiAddress (replicate 20 1)] [].
Definition sample_registration : ReceiptLogEntry.t :=
  ReceiptLogEntry.mk (replicate 20 1) [replicate 32 3]
    (AddressToAbiAddress (replicate 20 6) ++ AddressToAbiAddress sample_manager).
Definition sample_event (msg : bytes) : ReceiptLogEntry.t :=
  ReceiptLogEntry.mk sample_manager [replicate 32 4] (word 32 ++ encode ABytes (VBytes msg)).
Definition block_header (logs : list ReceiptLogEntry.t) : HeaderMgr.t :=
  HeaderMgr.mk (EthHeader.of_items (<[5%nat := [1; 2]]> (EthHeader.items sample_header)))
    1600 (be_bytes 256 (bloom_of (concat (map log_hashes logs)))) [] 912104 0 512 false.
Definition sample_world : World Owner :=
  mkWorld ∅ ∅ (mkOwner sample_service ∅ ∅ [] ∅ (mkManager 0 [] 0 [])).

(** The logs of the service decode, whatever the listeners. *)
Definition decodes `{Alloc : Allocator} (svc : PubsubServiceStore.t) (log : ReceiptLogEntry.t) : bool :=
  implb (ReceiptLogEntry.IsEventEmitted log (PubsubServiceStore.m_pubsubContAddr svc) [PubsubServiceStore.m_regEvTopic svc])
    (bool_decide (is_Some (registration log))) &&
  implb (ReceiptLogEntry.topics_match [PubsubServiceStore.m_notifyEvTopic svc] (ReceiptLogEntry.m_topics log))
    (is_ok (ParseEventMsg log)).

Lemma block_decodes_of `{Alloc : Allocator} `{Heap : Malloc} svc w logs : service_ok svc w -> forallb (decodes svc) logs = true -> block_decodes w logs.
Proof.
  intros Hw Hd id e Hi. apply Forall_forall. intros log [Hl Hin]%list_elem_of_filter.
  rewrite forallb_forall in Hd. apply list_elem_of_In, Hd, andb_true_iff in Hin as [Hr Hn].
  pose proof (ok_listeners svc w Hw _ _ Hi) as He. unfold listener_ok in He.
  assert (forall t, EventDescription.m_topics e = [t] -> ReceiptLogEntry.topics_match [t] (ReceiptLogEntry.m_topics log) = true) as Ht.
  { intros t Et. apply topics_match_prefix. apply Is_true_true, IsEventEmitted_spec in Hl as [_ Hp]. by rewrite <-Et. }
  unfold log_decodes. destruct (EventDescription.m_notifyCallback e) as [|[]] eqn:Ec; try done.
  - rewrite He in Hl. cbn in Hl. apply Is_true_true in Hl. rewrite Hl in Hr. by apply bool_decide_eq_true in Hr.
  - rewrite Ht in Hn; [done|]. destruct He as [He _]. by rewrite He.
  - rewrite Ht in Hn; [done|]. destruct He as [He _]. by rewrite He.
Qed.

Lemma sample_checks w logs : service_ok sample_service w -> forallb (decodes sample_service) logs = true ->
  (length (deploys sample_service logs) <= 1)%nat ->
  checks sample_service w (block_header logs) (fun _ => Ok (ReceiptsMgr.mk [logs] [1; 2])) (ReceiptsMgr.mk [logs] [1; 2]).
Proof.
  assert (block_logs (ReceiptsMgr.mk [logs] [1; 2]) = logs) as E by apply app_nil_r.
  intros Hw Hd H1. split; [done|done| |rewrite E; by eapply block_decodes_of|by rewrite E].
  rewrite E. split_and!; [apply all_bytes_be_bytes| |apply bloom_bytes_val].
  cbn [block_header HeaderMgr.m_bloomFilter]. by rewrite length_be_bytes.
Qed.

Lemma sample_block bs w logs : serves sample_service bs w -> forallb (decodes sample_service) logs = true ->
  (length (deploys sample_service logs) <= 1)%nat ->
  exists w', serves sample_service (bs ++ [(block_header logs, logs)]) w'.
Proof.
  intros Hs Hd H1. destruct (serves_inv sample_service [] bs w Hs) as (Hw & _ & _).
  eexists. rewrite <-(app_nil_r logs) at 2. eapply serves_step; [exact Hs|]. eapply (step_block _ w (block_header logs) _ (ReceiptsMgr.mk [logs] [1; 2]));
    [by apply sample_checks|apply surjective_pairing].
Qed.

Lemma sample_first : first sample_service sample_world.
Proof. split; try done; intros id e Hi; by apply lookup_empty_Some in Hi. Qed.

Definition sample_history : list Block :=
  map (fun logs => (block_header logs, logs))
    [[sample_deployment]; [sample_registration; sample_event [1]]; [sample_event [2]; sample_event [3]]].

Lemma sample_serves : exists w, serves sample_service sample_history w.
Proof.
  pose proof (serves_start sample_service sample_world _ _ sample_first (surjective_pairing _)) as H0.
  destruct (sample_block _ _ [sample_deployment] H0) as [w1 H1]; [lazy -[Keccak256]; reflexivity|lazy -[Keccak256]; lia|].
  destruct (sample_block _ _ [sample_registration; sample_event [1]] H1) as [w2 H2]; [lazy -[Keccak256]; reflexivity|lazy -[Keccak256]; lia|].
  destruct (sample_block _ _ [sample_event [2]; sample_event [3]] H2) as [w3 H3]; [lazy -[Keccak256]; reflexivity|lazy -[Keccak256]; lia|].
  by exists w3.
Qed.

Lemma past_events_exact_witness : exists w, serves sample_service sample_history w /\
  GetPastEvents (w_owner w) sample_manager =
  [[EthHeader.Number (HeaderMgr.m_rawHeader (block_header [])); [2]];
   [EthHeader.Number (HeaderMgr.m_rawHeader (block_header [])); [3]]].
Proof.
  destruct sample_serves as [w Hs]. exists w. split; [exact Hs|].
  rewrite (past_events_exact sample_service sample_manager 1 [] (block_header [sample_deployment], [sample_deployment]) []
    (block_header [sample_registration; sample_event [1]], [sample_registration; sample_event [1]])
    [(block_header [sample_event [2]; sample_event [3]], [sample_event [2]; sample_event [3]])] w Hs).
  - lazy -[Keccak256]. reflexivity.
  - intros b Hb. by apply not_elem_of_nil in Hb.
  - lazy -[Keccak256]. reflexivity.
  - intros b Hb. apply list_elem_of_singleton in Hb as ->. lazy -[Keccak256]. reflexivity.
  - lazy -[Keccak256]. reflexivity.
Defined.

Lemma service_refines_witness : exists w w', serves sample_service sample_history w /\
  service_of sample_manager w = after_blocks sample_service sample_manager sample_history service_start /\
  service_of sample_manager w' = after_blocks sample_service sample_manager
    (sample_history ++ [(block_header [sample_event [4]], [sample_event [4]])]) service_start.
Proof.
  destruct sample_serves as [w Hs]. exists w.
  destruct (serves_inv sample_service [] sample_history w Hs) as (Hw & _ & _).
  destruct (service_refines sample_service sample_manager sample_history w (block_header [sample_event [4]]) _ _ Hs
    (sample_checks w [sample_event [4]] Hw ltac:(lazy -[Keccak256]; reflexivity) ltac:(lazy -[Keccak256]; lia))) as (E & w' & _ & E').
  exists w'. split; [exact Hs|]. split; [exact E|]. exact E'.
Defined.

(** ** A request whose first message cannot be sent *)

(** The listener stays although nobody will take its events: no emitter knows
    its ID. *)
Lemma failed_request_leaks `{Heap : Malloc, Laws : !MallocLaws} secState socket pubAddr (w : World Owner) :
  GetEventMgrAddr (m_svcStore (w_owner w)) pubAddr <> replicate 20 0 ->
  let '(w', r) := SubReq secState false socket pubAddr w in
  r = Throw (FromStd "socket") /\ size (w_events w') = S (size (w_events w)) /\
  m_emitterList (w_owner w') = m_emitterList (w_owner w).
Proof.
  intros Ha. rewrite SubReq_run. rewrite bool_decide_eq_false_2 by done. split; [done|]. split; [|done].
  cbn [w_events]. unfold listening. cbn. rewrite new_listener_fresh. apply map_size_insert_None, new_listener_fresh.
Qed.
