(* ===== verification/Delivery.v ===== *)
(** * What a subscriber gets

    The messages on the socket of one subscriber, from its request on
    ([Pubsub/SubscriberHandler.hpp]): the past events in the answer and the
    events of later blocks in the heartbeats.  Then the same with the request
    and the check of a block cut into the steps their locks leave whole. *)

From stdpp Require Import strings gmap.
From S2P Require Import Prelude Keccak EthHeader Receipts Events Checkpoint Monitor Heartbeat Abi Pubsub.

Local Abbreviation W := (World Owner).
Local Abbreviation callback e := (EventDescription.m_notifyCallback e).

(** ** Messages *)

(** The events of a message. *)
Definition message_events (m : Message) : EventDataQueue :=
  match m with EmittedMsg _ _ events => events | EmittedReceipts _ _ _ => [] end.

(** What has been sent on a socket. *)
Definition received (socket : nat) (w : W) : EventDataQueue :=
  concat (map message_events (default [] (m_sent (w_owner w) !! socket))).

#[export] Instance Emitter_eq_dec : EqDecision Emitter.
Proof. solve_decision. Defined.

Definition emitter_socket (em : Emitter) : nat :=
  match em with PubsubEmitter socket _ _ | ReceiptEmitter socket _ _ => socket end.

Definition on_queue (q : nat) (e : EventDescription.t Callback) : Prop := callback e = OnUser (NotifyEvent q).
#[export] Instance on_queue_dec q e : Decision (on_queue q e).
Proof. unfold on_queue. apply _. Defined.

(** A subscription: its socket, its queue, its listener and the manager it is for. *)
Record Subscription := mkSubscription { s_socket : nat; s_queue : nat; s_listener : Z; s_manager : bytes }.
Definition emitter_of (s : Subscription) : Emitter := PubsubEmitter (s_socket s) (s_queue s) (s_listener s).

Section delivery.
Context `{Alloc : Allocator} `{Heap : Malloc, HeapLaws : !MallocLaws}.
Context (svc : PubsubServiceStore.t) (sub : Subscription).
Local Abbreviation store w := (PubsubServiceStore.m_pastEventStore (m_svcStore (w_owner w))).
Local Abbreviation queue_of w := (contents w (QueueOf (s_queue sub))).

(** The subscription, with the list of emitters: it is the only one on its socket
    and its queue.  While it is on the list, one listener fills its queue, with
    the events of its manager, and what was sent and what waits is all it is
    due; after that it has got a part from the start. *)
Record subscribed (due : EventDataQueue) (emitters : list Emitter) (w : W) : Prop := {
  sub_place : place_ok w (QueueOf (s_queue sub));
  sub_only : forall em, em ∈ emitters ->
    emitter_socket em = s_socket sub \/ emitter_cb em = OnUser (NotifyEvent (s_queue sub)) -> em = emitter_of sub;
  sub_live : emitter_of sub ∈ emitters ->
    listeners (on_queue (s_queue sub)) (w_events w) = 1%nat /\
    (forall i e, w_events w !! i = Some e -> on_queue (s_queue sub) e -> EventDescription.m_contractAddr e = s_manager sub) /\
    received (s_socket sub) w ++ queue_of w = due;
  sub_ended : emitter_of sub ∉ emitters -> received (s_socket sub) w `prefix_of` due }.

(** Nothing is lost while the subscription is on the list, or after. *)
Lemma subscribed_prefix due l w : subscribed due l w -> received (s_socket sub) w `prefix_of` due.
Proof.
  intros [_ _ L N]. destruct (decide (emitter_of sub ∈ l)) as [Hin|Hin]; [|by apply N].
  destruct (L Hin) as (_ & _ & <-). by apply prefix_app_r.
Qed.

(** A step that does not touch the subscription. *)
Lemma subscribed_step due l l' w w' : subscribed due l w -> grows w w' ->
  (forall em, em ∈ l' -> em ∈ l \/ (emitter_socket em <> s_socket sub /\ emitter_cb em <> OnUser (NotifyEvent (s_queue sub)))) ->
  (emitter_of sub ∈ l' -> emitter_of sub ∈ l ->
    listeners (on_queue (s_queue sub)) (w_events w') = listeners (on_queue (s_queue sub)) (w_events w) /\
    (forall i e, w_events w' !! i = Some e -> on_queue (s_queue sub) e -> exists j, w_events w !! j = Some e) /\
    queue_of w' = queue_of w) ->
  m_sent (w_owner w') !! s_socket sub = m_sent (w_owner w) !! s_socket sub ->
  subscribed due l' w'.
Proof.
  intros Hs Hg Hl Hq Hm. assert (received (s_socket sub) w' = received (s_socket sub) w) as Hr by (unfold received; by rewrite Hm).
  pose proof (subscribed_prefix due l w Hs) as Hpre. destruct Hs as [P O L N]. split.
  - by eapply place_ok_grows.
  - intros em Hin Hor. destruct (Hl em Hin) as [Hin'|[H1 H2]]; [by apply O|]. destruct Hor; congruence.
  - intros Hin. destruct (Hl _ Hin) as [Hin'|[H1 H2]]; [|by destruct H1]. destruct (L Hin') as (L1 & L2 & L3).
    destruct (Hq Hin Hin') as (E1 & E2 & E3). rewrite E1, Hr, E3. split_and!; try done.
    intros i e Hi He. destruct (E2 i e Hi He) as [j Hj]. by apply (L2 j).
  - intros _. by rewrite Hr.
Qed.

(** *** A block *)

Lemma emitted_on (e : EventDescription.t Callback) (w : W) i logs : service_ok svc w -> w_events w !! i = Some e ->
  on_queue (s_queue sub) e -> emitted e logs = emitted (BuildNotifyPastEventDescr (EventDescription.m_contractAddr e) svc) logs.
Proof.
  intros Hw Hi He. pose proof (ok_listeners svc w Hw _ _ Hi) as Hl. unfold listener_ok in Hl. rewrite He in Hl.
  destruct Hl as [Hl _]. by rewrite Hl at 1.
Qed.

(** What one listener of the queue and the others add to it. *)
Lemma logs_at_queue w i e hdr logs : service_ok svc w -> w_events w !! i = Some e ->
  (forall i e, w_events w !! i = Some e -> on_queue (s_queue sub) e -> EventDescription.m_contractAddr e = s_manager sub) ->
  logs_at hdr (callback e) (emitted e logs) (QueueOf (s_queue sub))
  = if decide (on_queue (s_queue sub) e) then events svc (s_manager sub) hdr logs else [].
Proof.
  intros Hw Hi Ha. unfold logs_at. destruct (decide (on_queue (s_queue sub) e)) as [He|He].
  - rewrite (emitted_on e w i logs Hw Hi He), (Ha i e Hi He). unfold events. apply concat_map_eq. intros log _.
    unfold contrib. rewrite He. by rewrite decide_True.
  - apply concat_map_nil. intros log _. unfold contrib. unfold on_queue in He. destruct (callback e) as [|[]]; try done.
    rewrite decide_False; [done|]. by intros ->.
Qed.

(** A plan that is made for the listeners adds the events of the block to the
    queue of the subscription, once for each of its listeners. *)
Lemma run_plan_queue hdr logs plans w : service_ok svc w -> block_decodes w logs -> (length (deploys svc logs) <= 1)%nat ->
  exact_plan (w_events w) logs plans -> place_ok w (QueueOf (s_queue sub)) ->
  exists w', EventManager.ConductCallbackPlan SyncMsgMgr.handler hdr plans w = (w', Ok tt) /\ grows w w' /\
    m_sent (w_owner w') = m_sent (w_owner w) /\ m_emitterList (w_owner w') = m_emitterList (w_owner w) /\
    listeners (on_queue (s_queue sub)) (w_events w') = listeners (on_queue (s_queue sub)) (w_events w) /\
    (forall i e, w_events w !! i = Some e -> on_queue (s_queue sub) e -> w_events w' !! i = Some e) /\
    ((forall i e, w_events w !! i = Some e -> on_queue (s_queue sub) e -> EventDescription.m_contractAddr e = s_manager sub) ->
      queue_of w' = queue_of w ++ times (listeners (on_queue (s_queue sub)) (w_events w)) (events svc (s_manager sub) hdr logs)).
Proof using HeapLaws.
  intros Hw Hd H1 He Hp. pose proof (exact_plan_for svc w logs plans Hw Hd H1 He) as Hf.
  destruct (run_plan svc hdr plans w Hw Hf (proj1 He)) as (w' & Hr & E). exists w'. split_and!; [done|apply E|apply E|apply E| | |].
  - pose proof (effs_count _ _ _ _ _ _ _ _ E (on_queue (s_queue sub))) as Hc.
    rewrite (gone_none w plans logs (on_queue (s_queue sub)) He) in Hc by (by intros ? ->).
    unfold count_of in Hc. rewrite filter_concat, concat_map_nil in Hc; [cbn in Hc; lia|].
    intros p Hin. rewrite Forall_forall in Hf. destruct (Hf p Hin) as (e & _ & -> & _). unfold logs_news.
    rewrite filter_concat. apply concat_map_nil. intros log _. unfold new_desc.
    destruct (callback e) as [|[]]; try done. by destruct (registration log) as [[]|].
  - intros i e Hi Hq. apply (effs_stay _ _ _ _ _ _ _ _ E); [done|]. by rewrite Hq.
  - intros Ha. rewrite (effs_contents _ _ _ _ _ _ _ _ E) by done. f_equal. apply (plan_parts _ (on_queue (s_queue sub)) _ _ _ _ He).
    + intros i e Hi _. by apply (logs_at_queue w i).
    + intros i e Hi Hq Hnil. unfold events. by rewrite <-(Ha i e Hi Hq), <-(emitted_on e w i logs Hw Hi Hq), Hnil.
Qed.

Lemma listeners_one K `{forall e, Decision (K e)} (ev : EventManager.t Callback) : listeners K ev = 1%nat ->
  exists i e, ev !! i = Some e /\ K e /\ forall j e', ev !! j = Some e' -> K e' -> j = i /\ e' = e.
Proof.
  unfold listeners. intros H1. destruct (map_choose (base.filter (fun p => K p.2) ev)) as (i & e & Hie).
  { intros E. by rewrite E, map_size_empty in H1. }
  assert (base.filter (fun p => K p.2) ev = {[i := e]}) as Hm.
  { rewrite <-(insert_delete_id _ _ _ Hie). enough (delete i (base.filter (fun p => K p.2) ev) = ∅) as -> by done.
    apply map_size_empty_inv. rewrite map_size_delete_Some by done. rewrite H1. done. }
  exists i, e. assert (forall j e', base.filter (fun p => K p.2) ev !! j = Some e' <-> ev !! j = Some e' /\ K e') as Hf
    by (intros j e'; apply map_lookup_filter_Some).
  rewrite Hm in Hf. destruct (proj1 (Hf i e)) as [Hi He]; [apply lookup_singleton_eq|]. split_and!; [done|done|].
  intros j e' Hj He'. pose proof (proj2 (Hf j e') (conj Hj He')) as Hs. by apply lookup_singleton_Some in Hs as [<- <-].
Qed.

Lemma subscribed_block due w hdr getter r w' res : service_ok svc w -> checks svc w hdr getter r ->
  EventManager.CheckEvents SyncMsgMgr.handler (w_events w) hdr getter w = (w', res) ->
  subscribed due (m_emitterList (w_owner w)) w ->
  subscribed (due ++ events svc (s_manager sub) hdr (block_logs r)) (m_emitterList (w_owner w')) w'.
Proof using HeapLaws.
  intros Hw [Cg Cr Cb Cd C1] Hc Hs. unfold EventManager.CheckEvents in Hc.
  destruct (plan_exact (w_events w) hdr getter r (ok_described svc w Hw) Cb Cg Cr) as (plans & Hpl & He). rewrite Hpl in Hc.
  destruct (run_plan_queue hdr (block_logs r) plans w Hw Cd C1 He (sub_place _ _ _ Hs)) as (w1 & Hr & Hg & Hsent & Hl & Hn & Hk & Hq).
  rewrite Hr in Hc. injection Hc as <- _. pose proof (subscribed_prefix _ _ _ Hs) as Hpre.
  assert (received (s_socket sub) w1 = received (s_socket sub) w) as Hrec by (unfold received; by rewrite Hsent).
  rewrite Hl. destruct Hs as [P O L N]. split; [by eapply place_ok_grows|done| |].
  - intros Hin. destruct (L Hin) as (L1 & L2 & <-). rewrite Hn, Hrec, (Hq L2), L1. unfold times. cbn [replicate concat].
    rewrite app_nil_r, app_assoc. split_and!; [done| |done].
    destruct (listeners_one _ _ L1) as (i & e & Hi & Hie & _). rewrite L1 in Hn.
    destruct (listeners_one _ _ Hn) as (i' & e' & Hi' & Hie' & Hu).
    intros j x Hj Hx. destruct (Hu j x Hj Hx) as [_ ->]. destruct (Hu i e (Hk i e Hi Hie) Hie) as [_ <-]. by apply (L2 i).
  - intros Hin. rewrite Hrec. by apply prefix_app_r, N.
Qed.

(** *** Other requests *)

Lemma listening_queue d ev : ~ on_queue (s_queue sub) d ->
  listeners (on_queue (s_queue sub)) (listening d ev) = listeners (on_queue (s_queue sub)) ev.
Proof using HeapLaws.
  intros Hd. rewrite listeners_listening. unfold count_of. rewrite filter_cons_False by done. cbn. lia.
Qed.

(** A new emitter is not on the socket of the subscription. *)
Definition apart (w w' : W) : Prop := forall em, em ∈ m_emitterList (w_owner w') -> em ∈ m_emitterList (w_owner w) \/
  emitter_socket em <> s_socket sub.

Lemma grows_new_queue w st ev o : m_svcStore o = m_svcStore (w_owner w) ->
  m_receiptQueues o = m_receiptQueues (w_owner w) -> (exists q x, m_queues o = <[q := x]> (m_queues (w_owner w))) ->
  st = w_states w -> grows w (mkWorld st ev o).
Proof.
  intros Hs Hr (q & x & Hq) ->. split; cbn [w_owner w_states]; [done| |by rewrite Hr|by rewrite Hs|].
  - intros r. rewrite Hq. apply insert_mono.
  - intros a r. rewrite Hs. by left.
Qed.

(** A new emitter, with a listener of its own. *)
Lemma apart_new em w st ev o l : subscribers_ok w -> m_emitterList o = l ++ [em] -> l = m_emitterList (w_owner w) ->
  emitter_id em = new_listener (w_events w) -> apart w (mkWorld st ev o) -> emitter_socket em <> s_socket sub.
Proof using HeapLaws.
  intros [_ Hf] Hl -> Hid Hap. destruct (Hap em) as [Hin|Hne]; [|intros Hs|done].
  - cbn [w_owner]. rewrite Hl. apply elem_of_app. right. by apply list_elem_of_singleton.
  - rewrite Forall_forall in Hf. destruct (Hf em Hin) as (d & Hd & _). by rewrite Hid, new_listener_fresh in Hd.
Qed.

Lemma subscribed_SubReq due w secState sendOk socket pubAddr w' r : subscribers_ok w ->
  SubReq secState sendOk socket pubAddr w = (w', r) -> apart w w' ->
  subscribed due (m_emitterList (w_owner w)) w -> subscribed due (m_emitterList (w_owner w')) w'.
Proof using HeapLaws.
  intros He. rewrite SubReq_run. destruct (bool_decide _); [by intros [= <- _]|].
  set (q := new_queue _). set (d := BuildNotifyEventDescr _ _ q).
  intros E Hap Hs. pose proof (sub_place _ _ _ Hs) as [[x Hx] _].
  assert (q <> s_queue sub) as Hq by (intros Heq; unfold q in Heq; by rewrite <-Heq, new_queue_fresh in Hx).
  assert (~ on_queue (s_queue sub) d) as Hd by (unfold on_queue; cbn; naive_solver).
  assert (forall i e, listening d (w_events w) !! i = Some e -> on_queue (s_queue sub) e -> exists j, w_events w !! j = Some e) as Hev.
  { intros i e [Hi|[= <-]]%listening_elem Hoe; [by exists i|done]. }
  assert (forall o, m_queues o = <[q := []]> (m_queues (w_owner w)) ->
    listeners (on_queue (s_queue sub)) (listening d (w_events w)) = listeners (on_queue (s_queue sub)) (w_events w) /\
    (forall i e, listening d (w_events w) !! i = Some e -> on_queue (s_queue sub) e -> exists j, w_events w !! j = Some e) /\
    queue_of (mkWorld (w_states w) (listening d (w_events w)) o) = queue_of w) as Hsame.
  { intros o Ho. rewrite listening_queue by done. split_and!; [done|exact Hev|]. cbn. by rewrite Ho, lookup_insert_ne. }
  destruct sendOk; injection E as <- _.
  - assert (socket <> s_socket sub) as Hne by (by eapply (apart_new (PubsubEmitter socket q (new_listener (w_events w)))) in Hap).
    eapply subscribed_step; [exact Hs|apply grows_new_queue; [done|done|by exists q, []|done]| |by intros _ _; apply Hsame|].
    + intros em [Hin|Hin%list_elem_of_singleton]%elem_of_app; [by left|right]. subst em. split; [done|cbn; naive_solver].
    + cbn. by rewrite lookup_insert_ne.
  - eapply subscribed_step; [exact Hs|apply grows_new_queue; [done|done|by exists q, []|done]|by left|by intros _ _; apply Hsame|done].
Qed.

Lemma subscribed_ReceiptSubReq due w socket conAddr topics w' r : subscribers_ok w ->
  ReceiptSubReq socket conAddr topics w = (w', r) -> apart w w' ->
  subscribed due (m_emitterList (w_owner w)) w -> subscribed due (m_emitterList (w_owner w')) w'.
Proof using HeapLaws.
  intros He. rewrite ReceiptSubReq_run. destruct (_ && _); [|by intros [= <- _]].
  set (q := new_queue _). set (d := BuildSubscribedEventDescr _ _ q). intros [= <- _] Hap Hs.
  assert (socket <> s_socket sub) as Hne by (by eapply (apart_new (ReceiptEmitter socket q (new_listener (w_events w)))) in Hap).
  eapply subscribed_step; [exact Hs| | | |done].
  - split; cbn; try done; [intros r'; apply insert_mono|by left].
  - intros em [Hin|Hin%list_elem_of_singleton]%elem_of_app; [by left|right]. subst em. by split.
  - intros _ _. cbn [w_events]. rewrite listening_queue by done. split_and!; [done| |done].
    intros i e [Hi|[= <-]]%listening_elem Hoe; [by exists i|done].
Qed.

(** *** Heartbeats *)

Lemma cancel_queue ev id d : ev !! id = Some d -> ~ on_queue (s_queue sub) d ->
  listeners (on_queue (s_queue sub)) (EventManager.Cancel ev id) = listeners (on_queue (s_queue sub)) ev.
Proof.
  intros Hi Hd. pose proof (listeners_cancel (on_queue (s_queue sub)) ev id) as Hc. rewrite Hi in Hc. unfold count_of in Hc.
  cbn [option_list option_rect] in Hc. rewrite filter_cons_False in Hc by done. cbn in Hc. lia.
Qed.

(** The emitter of the subscription: what waits is sent, or it is over. *)
Lemma subscribed_own due l1 l2 w secState sendOk : NoDup (map emitter_id (l1 ++ emitter_of sub :: l2)) ->
  subscribed due (l1 ++ emitter_of sub :: l2) w ->
  let '(w', r) := run_emitter secState sendOk (emitter_of sub) w in
  match r with
  | Ok _ => subscribed due (l1 ++ emitter_of sub :: l2) w' /\ queue_of w' = []
  | Throw _ => subscribed due (l1 ++ l2) w'
  end.
Proof.
  intros Hn [P O L N]. cbn [run_emitter emitter_of]. rewrite EmitterHandler_run.
  destruct L as (L1 & L2 & L3); [apply elem_of_app; right; left|].
  assert (forall st ev sent, place_ok (mkWorld st ev (with_sent sent (with_queues (<[s_queue sub := []]> (m_queues (w_owner w))) (w_owner w))))
    (QueueOf (s_queue sub))) as HP.
  { intros st ev sent. destruct P as [_ Hst]. split; [|done]. cbn. rewrite lookup_insert_eq. by eexists. }
  destruct (sendOk _).
  - split; [|cbn; by rewrite lookup_insert_eq]. split; [apply HP|done| |].
    + intros _. split_and!; [done|done|]. rewrite <-L3. unfold received. cbn. rewrite !lookup_insert_eq. cbn.
      rewrite map_app, concat_app. cbn. by rewrite !app_nil_r.
    + intros []. apply elem_of_app; right; left.
  - split; [apply (HP _ _ (m_sent (w_owner w)))| | |].
    + intros em Hin. apply O. apply elem_of_app in Hin as [Hin|Hin]; apply elem_of_app; [by left|right; by right].
    + intros Hin. exfalso. rewrite map_app in Hn. apply NoDup_app in Hn as (_ & Hn & [Hn2 _]%NoDup_cons).
      apply elem_of_app in Hin as [Hin|Hin]; [|by apply Hn2, (list_elem_of_fmap_2 emitter_id)].
      eapply Hn; [by apply (list_elem_of_fmap_2 emitter_id)|left].
    + intros _. rewrite <-L3. by apply prefix_app_r.
Qed.

(** Any other emitter. *)
Lemma subscribed_other due l em w secState sendOk : service_ok svc w -> emitter_ok w em -> em ∈ l -> em <> emitter_of sub ->
  subscribed due l w -> let w' := (run_emitter secState sendOk em w).1 in
  (forall l', (forall x, x ∈ l' -> x ∈ l) -> subscribed due l' w') /\ queue_of w' = queue_of w.
Proof.
  intros Hw Hem Hin Hne Hs. pose proof (run_emitter_calm svc secState sendOk em w Hw Hem) as Hrun.
  destruct (run_emitter secState sendOk em w) as [w' r] eqn:Er. destruct Hrun as (Hc & _ & Hev).
  assert (emitter_socket em <> s_socket sub) as Hsock by (intros E; apply Hne, (sub_only _ _ _ Hs); auto).
  assert (emitter_cb em <> OnUser (NotifyEvent (s_queue sub))) as Hcb by (intros E; apply Hne, (sub_only _ _ _ Hs); auto).
  assert (queue_of w' = queue_of w /\ m_sent (w_owner w') !! s_socket sub = m_sent (w_owner w) !! s_socket sub) as [Hq Hm].
  { destruct em as [so q id|so q id]; cbn [run_emitter emitter_socket emitter_cb] in *.
    - rewrite EmitterHandler_run in Er. assert (q <> s_queue sub) as Hqq by congruence.
      destruct (sendOk _); injection Er as <- _; cbn; by rewrite !lookup_insert_ne.
    - rewrite SubscribedReceiptEmitter_run in Er. destruct (sendOk _); injection Er as <- _; cbn; by rewrite ?lookup_insert_ne. }
  cbn [fst]. split; [|done]. intros l' Hl. eapply subscribed_step; [exact Hs|apply Hc|intros x Hx; left; by apply Hl| |done].
  intros _ _. rewrite Hev. destruct Hem as (d & Hd & Hdc).
  assert (~ on_queue (s_queue sub) d) as Hno by (unfold on_queue; congruence).
  destruct r as [x|x]; (split_and!; [done || by apply (cancel_queue _ _ d)| |done]); intros i e Hi Hoe; exists i; [done|].
  by eapply Cancel_lookup.
Qed.

Lemma set_emitters due l w o : m_svcStore o = m_svcStore (w_owner w) -> m_queues o = m_queues (w_owner w) ->
  m_receiptQueues o = m_receiptQueues (w_owner w) -> m_sent o = m_sent (w_owner w) ->
  subscribed due l w -> subscribed due l (mkWorld (w_states w) (w_events w) o).
Proof.
  intros Hs Hq Hr Hm Hsub. eapply subscribed_step; [exact Hsub| |by left| |by rewrite <-Hm].
  - split; cbn; [done|by rewrite Hq|by rewrite Hr|by rewrite Hs|rewrite Hs; by left].
  - intros _ _. split_and!; [done|intros i e Hi _; by exists i|]. cbn. by rewrite Hq.
Qed.

(** What one emitter does to the subscription: if it has sent, nothing waits; with
    a socket that takes the message it stays. *)
Definition flushed (due : EventDataQueue) (keep : bool) (l1 l2 : list Emitter) (w : W) : Prop :=
  subscribed due (l1 ++ l2) w /\ (emitter_of sub ∈ l1 -> queue_of w = []) /\
  (keep = true -> emitter_of sub ∈ l1 ++ l2).

Lemma flushed_emit due keep em l1 l2 v secState sendOk : service_ok svc v -> emitters_ok (l1 ++ em :: l2) v ->
  (keep = true -> sendOk (emitter_of sub) = true) -> flushed due keep l1 (em :: l2) v ->
  let '(v', r) := run_emitter secState sendOk em v in
  match r with
  | Ok _ => flushed due keep (l1 ++ [em]) l2 v'
  | Throw _ => flushed due keep l1 l2 v'
  end.
Proof.
  intros Hv [Hn Hf] Hkeep (Hs & Hfl & Hst). pose proof Hf as Hem. apply Forall_app in Hem as [_ [Hem _]%Forall_cons].
  assert (em ∈ l1 ++ em :: l2) as Hin by (apply elem_of_app; right; left).
  assert ((l1 ++ [em]) ++ l2 = l1 ++ em :: l2) as Happ by by rewrite <-app_assoc.
  destruct (decide (em = emitter_of sub)) as [->|Hne].
  - pose proof (subscribed_own due l1 l2 v secState sendOk Hn Hs) as Ho.
    assert (emitter_of sub ∉ l1) as Hno.
    { intros H1. rewrite map_app in Hn. apply NoDup_app in Hn as (_ & Hn & _).
      eapply Hn; [by apply (list_elem_of_fmap_2 emitter_id)|left]. }
    unfold flushed. destruct (run_emitter secState sendOk (emitter_of sub) v) as [v1 [x|x]] eqn:Er.
    + rewrite Happ. split_and!; [apply Ho|intros _; apply Ho|done].
    + split_and!; [done|done|]. intros Hok%Hkeep. cbn [run_emitter emitter_of] in Er. rewrite EmitterHandler_run in Er.
      fold (emitter_of sub) in Er. by rewrite Hok in Er.
  - destruct (subscribed_other due (l1 ++ em :: l2) em v secState sendOk Hv Hem Hin Hne Hs) as [Ho Hq].
    unfold flushed. destruct (run_emitter secState sendOk em v) as [v1 [x|x]]; cbn [fst] in *.
    + rewrite Happ. split_and!; [by apply Ho| |done].
      rewrite Hq. intros [?|E%list_elem_of_singleton]%elem_of_app; [by apply Hfl|by rewrite E in Hne].
    + split_and!; [|by rewrite Hq|].
      * apply Ho. intros y [Hy|Hy]%elem_of_app; apply elem_of_app; [by left|right; by right].
      * intros Hok. specialize (Hst Hok). apply elem_of_app in Hst as [H1|[E|H2]%elem_of_cons]; [|by rewrite E in Hne|]; apply elem_of_app; auto.
Qed.

(** One heartbeat: it reaches the subscriber and nothing waits, or it is over. *)
Lemma flushed_EmitAll due w secState sendOk : service_ok svc w -> subscribers_ok w ->
  subscribed due (m_emitterList (w_owner w)) w ->
  let w' := EmitAll secState sendOk w in
  flushed due (sendOk (emitter_of sub) && bool_decide (emitter_of sub ∈ m_emitterList (w_owner w))) (m_emitterList (w_owner w')) [] w'.
Proof.
  intros Hw He Hs. apply (EmitAll_inv svc (flushed due _) secState sendOk w Hw He).
  - intros l1 l2 v o E1 E2 E3 E4 (Hsv & Hfl & Hst). split_and!; [by apply set_emitters| |done].
    intros Hin. rewrite <-(Hfl Hin). cbn. by rewrite E2.
  - intros em l1 l2 v Hv Hev Hf. apply flushed_emit; [done|done|by intros [? _]%andb_true_iff|done].
  - split_and!; [done|by intros []%not_elem_of_nil|by intros [_ Hin%bool_decide_eq_true]%andb_true_iff].
Qed.

(** *** The other steps *)

Lemma subscribed_NewSyncState due dev m w now nonce ref id w' m' : service_ok svc w -> subscribers_ok w ->
  w_states w !! ref = None -> EventManager.Cancel (w_events w) (SyncMsgMgr.m_syncEventCallbackId m) !! id = None ->
  (forall e, w_events w !! SyncMsgMgr.m_syncEventCallbackId m = Some e -> exists ref, callback e = OnSync ref) ->
  SyncMsgMgr.NewSyncState dev m w now nonce ref id = (w', m') ->
  subscribed due (m_emitterList (w_owner w)) w -> subscribed due (m_emitterList (w_owner w')) w'.
Proof using HeapLaws.
  intros Hw He Href Hid Hsync Hn Hs. destruct (NewSyncState_calm svc dev m w now nonce ref id w' m') as [Hc _]; [done..|].
  revert Hn Hc. unfold SyncMsgMgr.NewSyncState, SyncMsgMgr.RegisterSyncEvent_Locked, EventManager.Listen.
  destruct dev; [by intros [= <- _]|].
  cbn [w_events w_states w_owner]. rewrite Hid. intros [= <- _] Hc. cbn [w_owner].
  assert (forall i e, on_queue (s_queue sub) e -> w_events w !! i = Some e ->
    EventManager.Cancel (w_events w) (SyncMsgMgr.m_syncEventCallbackId m) !! i = Some e) as Hkeep.
  { intros i e Hoe Hi. unfold EventManager.Cancel. destruct (w_events w !! SyncMsgMgr.m_syncEventCallbackId m) as [x|] eqn:Ex; [|done].
    rewrite lookup_delete_ne; [done|]. intros <-. destruct (Hsync x eq_refl) as [r Hr]. unfold on_queue in Hoe. congruence. }
  eapply subscribed_step; [exact Hs|apply Hc|by left| |done]. intros _ _. cbn [w_events].
  set (d := EventDescription.create _ _ _).
  assert (forall i e, on_queue (s_queue sub) e -> <[id := d]>
    (EventManager.Cancel (w_events w) (SyncMsgMgr.m_syncEventCallbackId m)) !! i = Some e <-> w_events w !! i = Some e) as Hiff.
  { intros i e Hoe. split.
    - intros [[<- <-]|[_ Hi]]%lookup_insert_Some; [done|by eapply Cancel_lookup].
    - intros Hi. rewrite lookup_insert_ne; [by apply Hkeep|]. intros ->. by rewrite (Hkeep i e Hoe Hi) in Hid. }
  split_and!; [|intros i e Hi Hoe; exists i; by apply Hiff|done]. apply listeners_same. intros i e Hoe. by apply Hiff.
Qed.

(** What happens later, with the blocks that are checked, without another
    subscription on the socket. *)
Inductive later : list (Block) -> W -> W -> Prop :=
| later_now w : later [] w w
| later_step bs bs' w w1 w2 : later bs w w1 -> serve_step svc bs' w1 w2 -> apart w1 w2 -> later (bs ++ bs') w w2.

Definition due_of (bs : list Block) : EventDataQueue := concat (map (fun b => events svc (s_manager sub) b.1 b.2) bs).

Lemma subscribed_serve due bs w w' : service_ok svc w -> subscribers_ok w -> serve_step svc bs w w' -> apart w w' ->
  subscribed due (m_emitterList (w_owner w)) w -> subscribed (due ++ due_of bs) (m_emitterList (w_owner w')) w'.
Proof using HeapLaws.
  intros Hw He Hstep Hap Hs. destruct Hstep as [w hdr getter r w' res Hc Hr|w ss ok so pub w' r Hr|w so con topics w' r Hr|w ss ok
    |w m dev now nonce ref id w' m' Href Hid Hl Hr|w mgr]; unfold due_of; cbn [map concat]; rewrite app_nil_r; rewrite ?app_nil_r in *.
  - by eapply subscribed_block.
  - by eapply subscribed_SubReq.
  - by eapply subscribed_ReceiptSubReq.
  - destruct (flushed_EmitAll due w ss ok Hw He Hs) as (Hf & _). by rewrite app_nil_r in Hf.
  - by eapply subscribed_NewSyncState.
  - by apply set_emitters.
Qed.

Lemma subscribed_later due bs w w' : service_ok svc w -> subscribers_ok w -> later bs w w' ->
  subscribed due (m_emitterList (w_owner w)) w ->
  service_ok svc w' /\ subscribers_ok w' /\ subscribed (due ++ due_of bs) (m_emitterList (w_owner w')) w'.
Proof using HeapLaws.
  intros Hw He Hl Hs. induction Hl as [w|bs bs' w w1 w2 _ IH Hstep Hap]; [unfold due_of; cbn; by rewrite app_nil_r|].
  destruct (IH Hw He Hs) as (Hw1 & He1 & Hs1). destruct (step_inv svc [] bs' w1 w2 Hw1 He1 Hstep) as (Hw2 & He2 & _).
  split_and!; [done|done|].
  assert (due_of (bs ++ bs') = due_of bs ++ due_of bs') as -> by (unfold due_of; by rewrite map_app, concat_app).
  rewrite app_assoc. exact (subscribed_serve _ _ _ _ Hw1 He1 Hstep Hap Hs1).
Qed.
End delivery.

(** ** From the request on *)

Section request.
Context `{Alloc : Allocator} `{Heap : Malloc, HeapLaws : !MallocLaws}.
Context (svc : PubsubServiceStore.t).

(** Nothing has been sent on the socket, and it has no emitter. *)
Definition fresh_socket (socket : nat) (w : W) : Prop :=
  m_sent (w_owner w) !! socket = None /\ forall em, em ∈ m_emitterList (w_owner w) -> emitter_socket em <> socket.

(** The subscription a request makes. *)
Definition new_subscription (socket : nat) (pubAddr : bytes) (w : W) : Subscription :=
  mkSubscription socket (new_queue (m_queues (w_owner w))) (new_listener (w_events w))
    (GetEventMgrAddr (m_svcStore (w_owner w)) pubAddr).

Lemma no_listener_yet w : service_ok svc w -> listeners (on_queue (new_queue (m_queues (w_owner w)))) (w_events w) = 0%nat.
Proof using HeapLaws.
  intros Hw. unfold listeners. apply map_size_empty_iff, map_empty. intros i. apply map_lookup_filter_None. right.
  intros e Hi Hoe. pose proof (ok_listeners svc w Hw _ _ Hi) as Hl. unfold on_queue in Hoe. cbn [snd] in Hoe.
  unfold listener_ok in Hl. rewrite Hoe in Hl. destruct Hl as (_ & [x Hx] & _). by rewrite new_queue_fresh in Hx.
Qed.

Lemma store_not_new w a : service_ok svc w ->
  PubsubServiceStore.m_pastEventStore (m_svcStore (w_owner w)) !! a <> Some (new_queue (m_queues (w_owner w))).
Proof using HeapLaws. intros Hw Ha. destruct (ok_queue svc w Hw a _ Ha) as [x Hx]. by rewrite new_queue_fresh in Hx. Qed.

Lemma subscribed_new w secState socket pubAddr w' r : service_ok svc w -> subscribers_ok w -> fresh_socket socket w ->
  GetEventMgrAddr (m_svcStore (w_owner w)) pubAddr <> replicate 20 0 ->
  SubReq secState true socket pubAddr w = (w', r) ->
  let sub := new_subscription socket pubAddr w in
  subscribed sub (GetPastEvents (w_owner w) (s_manager sub)) (m_emitterList (w_owner w')) w' /\
  emitter_of sub ∈ m_emitterList (w_owner w').
Proof using HeapLaws.
  intros Hw He [Hm Hf] Ha. rewrite SubReq_run, bool_decide_eq_false_2 by done. intros [= <- _].
  cbn [w_owner w_events with_emitterList with_sent with_queues m_emitterList m_sent].
  set (sub := new_subscription socket pubAddr w). set (q := new_queue (m_queues (w_owner w))).
  set (a := GetEventMgrAddr (m_svcStore (w_owner w)) pubAddr). set (d := BuildNotifyEventDescr a _ q).
  assert (emitter_of sub ∈ m_emitterList (w_owner w) ++ [emitter_of sub]) as Hin by (apply elem_of_app; right; by apply list_elem_of_singleton).
  split; [|done]. split.
  - cbn. rewrite lookup_insert_eq. split; [by eexists|]. intros b. by apply store_not_new.
  - intros em [Hem|Hem%list_elem_of_singleton]%elem_of_app; [|done]. intros [Hs|Hcb]; [by destruct (Hf em Hem)|].
    destruct He as [_ He]. rewrite Forall_forall in He. destruct (He em Hem) as (x & Hx & Hxc). rewrite Hcb in Hxc.
    pose proof (ok_listeners svc w Hw _ _ Hx) as Hl. unfold listener_ok in Hl. rewrite Hxc in Hl.
    destruct Hl as (_ & [y Hy] & _). cbn in Hy. by rewrite new_queue_fresh in Hy.
  - intros _. cbn [w_events s_queue sub new_subscription]. fold q d. split_and!.
    + rewrite listeners_listening. unfold q. rewrite no_listener_yet by done. fold q. unfold count_of.
      by rewrite filter_cons_True, filter_nil by done.
    + intros i e [Hi|[= <-]]%listening_elem Hoe; [|done].
      pose proof (ok_listeners svc w Hw _ _ Hi) as Hl. unfold listener_ok in Hl. rewrite Hoe in Hl.
      destruct Hl as (_ & [y Hy] & _). unfold q in Hy. by rewrite new_queue_fresh in Hy.
    + unfold received. cbn. fold q a. rewrite !lookup_insert_eq, Hm. cbn. rewrite !app_nil_r. unfold GetPastEvents. cbn.
      destruct (_ !! a) as [p|] eqn:Ep; [|done]. rewrite lookup_insert_ne; [done|]. intros <-. by eapply store_not_new.
  - by intros [].
Qed.

(** C3. Every event, once and in order: from its request on, while its heartbeats
    get through, a subscriber of a publisher that registered once, after the
    deployment of the service, has received or has waiting for it the events of the
    publisher's manager in all blocks since the registration - the ones before the
    request in the answer, the later ones in the heartbeats -, whatever other
    subscribers, heartbeats and the monitor do; each heartbeat that gets through
    leaves none waiting; and when one fails, what was received is where the
    sequence was cut.  (Registered [n] times, it gets the events before the request
    [n] times.) *)
Theorem subscriber_gets_every_event n pre dep mid reg post w secState socket pubAddr w1 r bs w2 :
  let sub := new_subscription socket pubAddr w in
  let a := s_manager sub in
  serves svc (pre ++ dep :: mid ++ reg :: post) w ->
  (forall b, b ∈ pre -> deploys svc b.2 = []) -> length (deploys svc dep.2) = 1%nat ->
  (forall b, b ∈ mid ++ post -> regs_of svc a b = 0%nat) -> regs_of svc a reg = n ->
  a <> replicate 20 0 -> fresh_socket socket w ->
  SubReq secState true socket pubAddr w = (w1, r) -> later svc sub bs w1 w2 ->
  let due := concat (map (fun b => times n (events svc a b.1 b.2)) post) ++ concat (map (fun b => events svc a b.1 b.2) bs) in
  received socket w2 `prefix_of` due /\
  (emitter_of sub ∈ m_emitterList (w_owner w2) ->
    received socket w2 ++ default [] (m_queues (w_owner w2) !! s_queue sub) = due /\
    forall secStates sendOk, sendOk (emitter_of sub) = true -> received socket (EmitAll secStates sendOk w2) = due).
Proof using HeapLaws.
  intros sub a Hserves Hpre Hdep Hmp Hn Ha Hfresh Hreq Hlater due.
  pose proof (past_events_of svc a n pre dep mid reg post w Hserves Hpre Hdep Hmp Hn) as Hpast.
  destruct (serves_inv svc [] _ w Hserves) as (Hw & He & _).
  destruct (subscribed_new w secState socket pubAddr w1 r Hw He Hfresh Ha Hreq) as [Hs _]. fold sub a in Hs. rewrite Hpast in Hs.
  destruct (step_inv svc [] [] w w1 Hw He) as (Hw1 & He1 & _); [by eapply step_SubReq|].
  destruct (subscribed_later svc sub _ bs w1 w2 Hw1 He1 Hlater Hs) as (Hw2 & He2 & Hs2).
  change (_ ++ due_of svc sub bs) with due in Hs2. split; [exact (subscribed_prefix sub _ _ _ Hs2)|].
  intros Hin. split; [apply (sub_live sub _ _ _ Hs2 Hin)|]. intros ss ok Hok.
  destruct (flushed_EmitAll svc sub due w2 ss ok Hw2 He2 Hs2) as (Hs3 & Hq & Hst).
  rewrite Hok, bool_decide_eq_true_2 in Hst by done. specialize (Hst eq_refl). rewrite app_nil_r in Hs3, Hst.
  destruct (sub_live sub _ _ _ Hs3 Hst) as (_ & _ & E). rewrite (Hq Hst), app_nil_r in E. exact E.
Qed.
End request.

(** ** A request while a block is checked *)

Section races.
Context `{Alloc : Allocator} `{Heap : Malloc, HeapLaws : !MallocLaws}.
Context (svc : PubsubServiceStore.t).

(** [SubReq] between its locks: the listener, a copy of the past events, and the
    answer with the emitter. *)
Definition SubReq_listen (pubAddr : bytes) : stx W Error (option (bytes * nat * Z)) :=
  w ← get_w;
  let eventMgrAddr := GetEventMgrAddr (m_svcStore (w_owner w)) pubAddr in
  if bool_decide (eventMgrAddr = replicate 20 0) then mret None
  else
    let eventQueue := new_queue (m_queues (w_owner w)) in
    set_owner (with_queues (<[eventQueue := []]> (m_queues (w_owner w))) (w_owner w)) ;;
    listenId ← ListenTo (BuildNotifyEventDescr eventMgrAddr
      (PubsubServiceStore.m_notifyEvTopic (m_svcStore (w_owner w))) eventQueue);
    mret (Some (eventMgrAddr, eventQueue, listenId)).

Definition SubReq_past (eventMgrAddr : bytes) : stx W Error EventDataQueue :=
  w ← get_w;
  mret (GetPastEvents (w_owner w) eventMgrAddr).

Definition SubReq_respond (secState : MonitorSecState) (sendOk : bool) (socket eventQueue : nat) (listenId : Z)
    (past : EventDataQueue) : stx W Error unit :=
  w ← get_w;
  SizedSend sendOk socket (EmittedMsg secState (m_lastValidatedBlkNum (m_mgr (w_owner w))) past) ;;
  w ← get_w;
  set_owner (with_emitterList (m_emitterList (w_owner w) ++ [PubsubEmitter socket eventQueue listenId]) (w_owner w)).

Lemma SubReq_split secState sendOk socket pubAddr w : SubReq secState sendOk socket pubAddr w =
  (x ← SubReq_listen pubAddr;
   match x with
   | None => mret tt
   | Some (eventMgrAddr, eventQueue, listenId) =>
     past ← SubReq_past eventMgrAddr;
     SubReq_respond secState sendOk socket eventQueue listenId past
   end) w.
Proof. unfold SubReq, SubReq_listen, mbind, stx_bind. cbn. by destruct (bool_decide _), sendOk. Qed.

Lemma SubReq_respond_run secState socket q id past (w : W) : SubReq_respond secState true socket q id past w =
  let sent := <[socket := default [] (m_sent (w_owner w) !! socket) ++
    [EmittedMsg secState (m_lastValidatedBlkNum (m_mgr (w_owner w))) past]]> (m_sent (w_owner w)) in
  (mkWorld (w_states w) (w_events w)
    (with_emitterList (m_emitterList (w_owner w) ++ [PubsubEmitter socket q id]) (with_sent sent (w_owner w))), Ok tt).
Proof. done. Qed.

Section race.
Context (w : W) (pubAddr : bytes) (secState : MonitorSecState) (socket : nat).
Local Abbreviation sub := (new_subscription socket pubAddr w).
Local Abbreviation a := (s_manager sub).
Context (Hw : service_ok svc w) (Ha : a <> replicate 20 0) (Hfresh : m_sent (w_owner w) !! socket = None).

Lemma listen_run : exists w1, SubReq_listen pubAddr w = (w1, Ok (Some (a, s_queue sub, s_listener sub))) /\
  service_ok svc w1 /\ GetPastEvents (w_owner w1) a = GetPastEvents (w_owner w) a /\
  m_sent (w_owner w1) = m_sent (w_owner w) /\ contents w1 (QueueOf (s_queue sub)) = [] /\
  place_ok w1 (QueueOf (s_queue sub)) /\
  w_events w1 = listening (BuildNotifyEventDescr a (PubsubServiceStore.m_notifyEvTopic (m_svcStore (w_owner w))) (s_queue sub)) (w_events w).
Proof using HeapLaws Hw Ha.
  set (q := new_queue (m_queues (w_owner w))).
  exists (mkWorld (w_states w) (listening (BuildNotifyEventDescr a (PubsubServiceStore.m_notifyEvTopic (m_svcStore (w_owner w))) q) (w_events w))
    (with_queues (<[q := []]> (m_queues (w_owner w))) (w_owner w))).
  set (w1 := mkWorld _ _ _). split.
  { unfold SubReq_listen, mbind, stx_bind. cbn. by rewrite bool_decide_eq_false_2 by exact Ha. }
  assert (forall b, PubsubServiceStore.m_pastEventStore (m_svcStore (w_owner w)) !! b <> Some q) as Hno
    by (intros b; by apply (store_not_new svc)).
  assert (calm svc w w1) as Hc.
  { apply calm_listening; cbn; auto using insert_mono; [|by eexists _, _, _|].
    - intros b p Hb. rewrite lookup_insert_ne; [done|]. intros <-. by apply (Hno b).
    - unfold listener_ok. cbn. rewrite lookup_insert_eq. destruct (ok_consts svc w Hw) as (_ & _ & Et).
      split_and!; [by rewrite Et|by eexists|exact Hno]. }
  destruct (calm_service svc w w1 a Hc Hw) as [Hw1 Hs1]. split_and!; [done| |done| |split; [|exact Hno]|done].
  - exact (f_equal v_past Hs1).
  - cbn. by rewrite lookup_insert_eq.
  - cbn. rewrite lookup_insert_eq. by eexists.
Qed.

Context (hdr : HeaderMgr.t) (getter : Z -> result Error ReceiptsMgr.t) (r : ReceiptsMgr.t).
Local Abbreviation news := (events svc a hdr (block_logs r)).

Lemma respond_run w2 past : let w3 := (SubReq_respond secState true socket (s_queue sub) (s_listener sub) past w2).1 in
  m_sent (w_owner w2) = m_sent (w_owner w) ->
  received socket w3 = past /\ contents w3 (QueueOf (s_queue sub)) = contents w2 (QueueOf (s_queue sub)).
Proof using Hfresh.
  intros w3 Hm. unfold w3. rewrite SubReq_respond_run. split; [|done]. unfold received. cbn. rewrite lookup_insert_eq, Hm, Hfresh. cbn. by rewrite app_nil_r.
Qed.

(** The new listener is the only one of its queue, and it is for the manager. *)
Lemma listen_only (w1 : W) : w_events w1 = listening (BuildNotifyEventDescr a
    (PubsubServiceStore.m_notifyEvTopic (m_svcStore (w_owner w))) (s_queue sub)) (w_events w) ->
  listeners (on_queue (s_queue sub)) (w_events w1) = 1%nat /\
  forall i e, w_events w1 !! i = Some e -> on_queue (s_queue sub) e -> EventDescription.m_contractAddr e = a.
Proof using HeapLaws Hw.
  intros ->. split.
  - rewrite listeners_listening. cbn [s_queue new_subscription]. rewrite (no_listener_yet svc) by done. unfold count_of.
    by rewrite filter_cons_True, filter_nil by done.
  - intros i e [Hi|[= <-]]%listening_elem Hoe; [|done]. exfalso.
    pose proof (ok_listeners svc w Hw _ _ Hi) as Hl. unfold listener_ok in Hl. rewrite Hoe in Hl.
    destruct Hl as (_ & [y Hy] & _). cbn in Hy. by rewrite new_queue_fresh in Hy.
Qed.

(** A block that is checked after the request has its listener and before it reads
    the past events: the subscriber gets the events of the block twice. *)
Lemma block_between_twice (w1 : W) x w2 res w3 r3 :
  SubReq_listen pubAddr w = (w1, x) -> checks svc w1 hdr getter r ->
  EventManager.CheckEvents SyncMsgMgr.handler (w_events w1) hdr getter w1 = (w2, res) ->
  SubReq_respond secState true socket (s_queue sub) (s_listener sub) (GetPastEvents (w_owner w2) a) w2 = (w3, r3) ->
  received socket w3 = GetPastEvents (w_owner w) a ++ times (v_copies (service_of a w1)) news /\
  contents w3 (QueueOf (s_queue sub)) = news.
Proof using HeapLaws Hw Ha Hfresh.
  intros Hl [Cg Cr Cb Cd C1] Hc Hr. destruct listen_run as (w1' & Hl' & Hw1 & Hp1 & Hm1 & Hq1 & Hok1 & Hev1).
  rewrite Hl in Hl'. injection Hl' as <- _. unfold EventManager.CheckEvents in Hc.
  destruct (plan_exact (w_events w1) hdr getter r (ok_described svc w1 Hw1) Cb Cg Cr) as (plans & Hpl & He). rewrite Hpl in Hc.
  destruct (run_exact_plan svc hdr (block_logs r) plans w1 a Hw1 Cd C1 He) as (w2' & Hr2 & _ & _ & _ & Hs2).
  destruct (run_plan_queue svc sub hdr (block_logs r) plans w1 Hw1 Cd C1 He Hok1) as (w2'' & Hr2' & _ & Hm2 & _ & _ & _ & Hq2).
  rewrite Hc in Hr2, Hr2'. injection Hr2 as <- _. injection Hr2' as <- _.
  destruct (listen_only w1 Hev1) as [Hone Haddr]. rewrite Hq1, Hone in Hq2. specialize (Hq2 Haddr).
  destruct (respond_run w2 (GetPastEvents (w_owner w2) a)) as [Hrec Hq3]; [congruence|]. rewrite Hr in Hrec, Hq3. cbn [fst] in *.
  rewrite Hrec, Hq3, Hq2, <-Hp1. split; [exact (f_equal v_past Hs2)|]. cbn. by rewrite app_nil_r.
Qed.

(** A block whose callbacks were planned before the request had its listener, and
    are made after it has read the past events: the subscriber never gets the
    events of the block, which the service does store. *)
Lemma block_around_lost (w1 : W) x plans w2 res w3 r3 :
  checks svc w hdr getter r -> EventManager.PlanEvents (w_events w) hdr getter = Ok plans ->
  SubReq_listen pubAddr w = (w1, x) ->
  EventManager.ConductCallbackPlan SyncMsgMgr.handler hdr plans w1 = (w2, res) ->
  SubReq_respond secState true socket (s_queue sub) (s_listener sub) (GetPastEvents (w_owner w1) a) w2 = (w3, r3) ->
  received socket w3 = GetPastEvents (w_owner w) a /\ contents w3 (QueueOf (s_queue sub)) = [] /\
  GetPastEvents (w_owner w3) a = GetPastEvents (w_owner w) a ++ times (v_copies (service_of a w)) news.
Proof using HeapLaws Hw Ha Hfresh.
  intros [Cg Cr Cb Cd C1] Hpl Hl Hc Hr. destruct listen_run as (w1' & Hl' & Hw1 & Hp1 & Hm1 & Hq1 & Hok1 & Hev1).
  rewrite Hl in Hl'. injection Hl' as <- _.
  destruct (plan_exact (w_events w) hdr getter r (ok_described svc w Hw) Cb Cg Cr) as (plans' & Hpl' & He).
  rewrite Hpl in Hpl'. injection Hpl' as <-.
  assert (Forall (plan_for w1) plans) as Hf.
  { eapply Forall_impl; [exact (exact_plan_for svc w _ plans Hw Cd C1 He)|]. intros p (e & Hi & Hrest). exists e.
    rewrite Hev1. split; [by apply listening_kept|done]. }
  destruct (run_plan svc hdr plans w1 Hw1 Hf (proj1 He)) as (w2' & Hr2 & E). rewrite Hc in Hr2. injection Hr2 as <- _.
  destruct (respond_run w2 (GetPastEvents (w_owner w1) a)) as [Hrec Hq3]; [rewrite (effs_sent _ _ _ _ _ _ _ _ E); congruence|].
  rewrite Hr in Hrec, Hq3. cbn [fst] in *. rewrite Hrec, Hq3, Hp1. split_and!; [done| |].
  - rewrite (effs_contents _ _ _ _ _ _ _ _ E) by done. rewrite Hq1, concat_map_nil; [done|]. intros [[id cb] ls] Hin.
    apply He in Hin as (e & Hi & -> & -> & _). unfold logs_at. apply concat_map_nil. intros log _. cbn [fst snd].
    unfold contrib. destruct (callback e) as [|[]] eqn:Ecb; try done. rewrite decide_False; [done|]. intros ->.
    pose proof (ok_listeners svc w Hw _ _ Hi) as Hlo. unfold listener_ok in Hlo. rewrite Ecb in Hlo.
    destruct Hlo as (_ & [y Hy] & _). cbn in Hy. by rewrite new_queue_fresh in Hy.
  - assert (GetPastEvents (w_owner w3) a = contents w2 (PastOf a)) as ->.
    { pose proof (f_equal fst Hr) as H3. cbn in H3. by rewrite <-H3. }
    rewrite (effs_contents _ _ _ _ _ _ _ _ E) by done. cbn [contents]. rewrite Hp1. f_equal.
    apply (plan_parts _ (on_past a) _ _ _ _ He).
    + intros i e Hi _. by apply (logs_past_of svc w i).
    + intros i e Hi [Hde Had] Hnil. pose proof (ok_listeners svc w Hw _ _ Hi) as Hlo. unfold listener_ok in Hlo.
      rewrite Hde in Hlo. destruct Hlo as [Hlo _]. unfold events. rewrite <-Had, <-Hlo. by rewrite Hnil.
Qed.
End race.
End races.

(** *** A subscriber, concretely *)

#[local] Existing Instances Pubsub.sample_malloc Pubsub.sample_malloc_laws Pubsub.sample_allocator.

Definition sample_publisher : bytes := replicate 20 6.

(** A socket that nobody uses. *)
Lemma some_socket (w : W) : exists socket, fresh_socket socket w.
Proof.
  set (used := dom (m_sent (w_owner w)) ∪ list_to_set (map emitter_socket (m_emitterList (w_owner w))) : gset nat).
  exists (fresh used). pose proof (is_fresh used) as Hn. split.
  - apply not_elem_of_dom. set_solver.
  - intros em Hem Heq. apply Hn, elem_of_union_r, elem_of_list_to_set. rewrite <-Heq. by apply (list_elem_of_fmap_2 emitter_socket).
Qed.

Lemma sample_manager_of w : serves sample_service sample_history w ->
  GetEventMgrAddr (m_svcStore (w_owner w)) sample_publisher = sample_manager.
Proof.
  intros Hs. destruct (serves_inv sample_service [] _ w Hs) as (_ & _ & E). apply (f_equal v_managers) in E.
  unfold GetEventMgrAddr. change (PubsubServiceStore.m_evMgrAddrMap _) with (v_managers (service_of [] w)). rewrite E.
  lazy -[Keccak256]. reflexivity.
Qed.

Lemma subscriber_gets_every_event_witness : exists w socket secState w1 r w2,
  let sub := new_subscription socket sample_publisher w in
  serves sample_service sample_history w /\ SubReq secState true socket sample_publisher w = (w1, r) /\
  later sample_service sub [(block_header [sample_event [4]], [sample_event [4]])] w1 w2 /\
  emitter_of sub ∈ m_emitterList (w_owner w2) /\
  map (fun e => nth 1 e []) (received socket (EmitAll (fun _ => secState) (fun _ => true) w2)) = [[2]; [3]; [4]].
Proof.
  destruct sample_serves as [w Hs]. destruct (some_socket w) as [socket Hf]. pose proof (sample_manager_of w Hs) as Ea.
  set (ss := mkSecState [] 0 [] [] : MonitorSecState).
  destruct (SubReq ss true socket sample_publisher w) as [w1 r] eqn:Hreq.
  destruct (serves_inv sample_service [] _ w Hs) as (Hw & He & _).
  destruct (step_inv sample_service [] [] w w1 Hw He) as (Hw1 & He1 & _); [by eapply step_SubReq|].
  assert (GetEventMgrAddr (m_svcStore (w_owner w)) sample_publisher <> replicate 20 0) as Hne by (by rewrite Ea).
  destruct (subscribed_new sample_service w ss socket sample_publisher w1 r Hw He Hf Hne Hreq) as [_ Hin].
  pose proof (sample_checks w1 [sample_event [4]] Hw1 ltac:(lazy -[Keccak256]; reflexivity) ltac:(lazy -[Keccak256]; lia)) as Hc.
  destruct (check_block sample_service [] w1 _ _ _ Hw1 He1 Hc) as (w2 & Hr & _ & _ & _ & Hl).
  exists w, socket, ss, w1, r, w2. intros sub.
  assert (later sample_service sub [(block_header [sample_event [4]], [sample_event [4]])] w1 w2) as Hlater.
  { apply (later_step _ _ [] _ w1 w1); [apply later_now|exact (step_block _ _ _ _ _ _ _ Hc Hr)|]. intros em Hem. left. by rewrite <-Hl. }
  assert (emitter_of sub ∈ m_emitterList (w_owner w2)) as Hin2 by (by rewrite Hl).
  split_and!; [exact Hs|exact Hreq|exact Hlater|exact Hin2|].
  destruct (subscriber_gets_every_event sample_service 1 [] (block_header [sample_deployment], [sample_deployment]) []
    (block_header [sample_registration; sample_event [1]], [sample_registration; sample_event [1]])
    [(block_header [sample_event [2]; sample_event [3]], [sample_event [2]; sample_event [3]])]
    w ss socket sample_publisher w1 r [(block_header [sample_event [4]], [sample_event [4]])] w2) as [_ Hall];
    cbn [s_manager new_subscription]; rewrite ?Ea; [exact Hs| | | | |done|exact Hf|exact Hreq|exact Hlater|].
  - intros b Hb. by apply not_elem_of_nil in Hb.
  - lazy -[Keccak256]. reflexivity.
  - intros b Hb. apply list_elem_of_singleton in Hb as ->. lazy -[Keccak256]. reflexivity.
  - lazy -[Keccak256]. reflexivity.
  - destruct (Hall Hin2) as [_ Hfl]. rewrite (Hfl (fun _ => ss) (fun _ => true) eq_refl). cbn [s_manager new_subscription]. rewrite Ea.
    lazy -[Keccak256]. reflexivity.
Defined.
