(* ===== verification/Replay.v ===== *)
(** * One header, delivered again and again

    What [EclipseMonitor/Eth/EclipseMonitor.hpp] does with a header it has seen:
    [UpdateOnRuntime] looks only for the parent, and [HeaderNode::AddChild] counts
    every child it is given as one more descendant. *)

From stdpp Require Import strings gmap.
From S2P Require Import Prelude Keccak Bloom EthHeader Difficulty Events Checkpoint Monitor.

Section replay.
Context {D V X : Type} `{Laws : DiffCheckerLaws D} `{Valid : ValidatorBase V} `{Calls : HeaderCallbacksLaws X}.
Local Abbreviation st_t := (EclipseMonitor.t D V X).

(** A header: its bytes, and what the parser makes of them at a time. *)
Context (hdrBinary : bytes) (header : Z -> HeaderMgr.t) (parent : HeaderMgr.t) (ptr : nat) (hash : bytes).
Context (v : V) (d : D).

(** It is a valid child of [parent], whose callbacks return and leave the sync
    states alone. *)
Record child_of_parent : Prop := {
  rp_parse : forall t, HeaderMgr.create hdrBinary t = Ok (header t);
  rp_parent : forall t, EthHeader.ParentHash (HeaderMgr.m_rawHeader (header t)) = hash;
  rp_valid : forall live live' t, CommonValidate v parent live (header t) live' = Ok true;
  rp_diff : forall t, CheckDifficulty d parent (header t) = Ok true;
  rp_callback : forall vis t sh, exists sh', OnHeader vis (Validated (header t)) sh = (sh', Ok tt) /\
    w_states (sh_world sh') = w_states (sh_world sh) }.

(** The monitor waits for its sync message, [parent] is the first child of the
    last confirmed header with [count] descendants, no child has enough to be
    confirmed, and no header is live. *)
Record waiting (count : Z) (st : st_t) : Prop := {
  wt_phase : EclipseMonitor.m_phase st = Sync;
  wt_validator : EclipseMonitor.m_validator st = v;
  wt_diffChecker : EclipseMonitor.m_diffChecker st = d;
  wt_tree : exists ra rh rs sa l rest,
    CheckpointMgr.m_lastNode (EclipseMonitor.m_checkpoint st)
    = Some (HeaderNode.mk ra rh rs ((count, HeaderNode.mk ptr parent sa l) :: rest)) /\ ra <> ptr /\
    Forall (fun dc => fst dc < checkpointSize (EclipseMonitor.m_mConfig st)) rest;
  wt_windows : windows_ok (EclipseMonitor.m_checkpoint st);
  wt_size : 2 <= CheckpointMgr.m_chkptSize (EclipseMonitor.m_checkpoint st);
  wt_parent : EclipseMonitor.m_offlineNodes st !! hash = Some ptr;
  wt_active : EclipseMonitor.m_activeNodes st = ∅;
  wt_sync : exists s, EclipseMonitor.GetLastSyncState st = Ok s /\ SyncState.m_isSynced s = false }.

Lemma take_child_none l k : Forall (fun dc => fst dc < k) l -> HeaderNode.take_child l k = None.
Proof.
  induction 1 as [|[n c] l Hn _ IH]; [done|]. cbn in *. by rewrite (proj2 (Z.leb_gt _ _)), IH.
Qed.

(** One more delivery. *)
Lemma UpdateOnRuntime_again count env (st : st_t) : child_of_parent -> waiting count st -> 0 <= count < 2 ^ 64 - 1 ->
  exists st', EclipseMonitor.UpdateOnRuntime hdrBinary env st = (st', Ok (HeaderMgr.m_blkNum (header (env_recvTime env)))) /\
    waiting (count + 1) st' /\ EclipseMonitor.m_mConfig st' = EclipseMonitor.m_mConfig st.
Proof.
  intros [Hp Hh Hv Hd Hc] [Wp Wv Wd (ra & rh & rs & sa & l & rest & Wn & Hra & Wr) Ww Wk Wo Wa (s & Ws & Wi)] Hcount.
  unfold EclipseMonitor.UpdateOnRuntime. run_m. rewrite Hp. run_m. rewrite Hh, Wo.
  unfold EclipseMonitor.UpdateOnRuntimeAddChild. run_m. rewrite Ws. run_m.
  assert (HeaderNode.find (HeaderNode.mk ra rh rs ((count, HeaderNode.mk ptr parent sa l) :: rest)) ptr
    = Some (HeaderNode.mk ptr parent sa l)) as Hfind.
  { cbn. rewrite (proj2 (Nat.eqb_neq _ _)) by done. by rewrite Nat.eqb_refl. }
  unfold EclipseMonitor.deref. rewrite Wn, Hfind. run_m.
  cbn [HeaderNode.GetHeader]. rewrite Wv, Wd, Hv. run_m. rewrite Hd. run_m. cbn [andb].
  destruct (notify_noted (Validated (header (env_recvTime env))) st) as (sh & r & Hn & Hcb).
  destruct (Hc (EclipseMonitor.visible st) (env_recvTime env) (EclipseMonitor.m_shared st)) as (sh' & Hcb' & Hst).
  rewrite Hcb in Hcb'. injection Hcb' as -> ->. rewrite Hn. run_m.
  unfold EclipseMonitor.add_child. run_m. change (EclipseMonitor.m_checkpoint (noted _ _ st)) with (EclipseMonitor.m_checkpoint st).
  rewrite Wn.
  set (child := HeaderNode.create _ _ _).
  assert (HeaderNode.AddChild (HeaderNode.mk ra rh rs ((count, HeaderNode.mk ptr parent sa l) :: rest)) ptr child
    = Some (HeaderNode.mk ra rh rs ((count + 1, HeaderNode.mk ptr parent sa (l ++ [(0, child)])) :: rest))) as ->.
  { cbn. rewrite (proj2 (Nat.eqb_neq _ _)) by done. rewrite Nat.eqb_refl. by rewrite wrap_small by (unfold fits; lia). }
  run_m. rewrite Wi. run_m. eexists. split; [done|]. cbn. split; [|done]. split; cbn; try done.
  - by exists ra, rh, rs, sa, (l ++ [(0, child)]), rest.
  - unfold windows_ok in *. by rewrite Wn in Ww.
  - unfold EclipseMonitor.insert_node. destruct (EclipseMonitor.m_offlineNodes st !! HeaderMgr.m_hash _) eqn:E; [done|].
    rewrite lookup_insert_ne; [done|]. intros Heq. by rewrite Heq, Wo in E.
  - exists s. split; [|done]. unfold EclipseMonitor.GetLastSyncState, EclipseMonitor.m_world in *. cbn in *.
    by rewrite Hst.
Qed.

(** The maintenance does nothing until there are enough descendants. *)
Lemma maintenance_waits count env (st : st_t) : waiting count st -> count < checkpointSize (EclipseMonitor.m_mConfig st) ->
  EclipseMonitor.RuntimeMaintenance env st = (st, Ok tt).
Proof.
  intros [_ _ _ (ra & rh & rs & sa & l & rest & Wn & _ & Wr) _ _ _ Wa _] Hc.
  unfold EclipseMonitor.RuntimeMaintenance, EclipseMonitor.ReleaseConfirmed. run_m.
  unfold CheckpointMgr.GetLastNodePtr. rewrite Wn. cbn [HeaderNode.ReleaseChildHasNDesc HeaderNode.take_child].
  rewrite (proj2 (Z.leb_gt _ _)) by done. rewrite (take_child_none rest) by done. run_m. rewrite Wa. by rewrite map_to_list_empty.
Qed.

Lemma Update_runtime env (st st' : st_t) n :
  EclipseMonitor.m_phase st = Sync -> EclipseMonitor.UpdateOnRuntime hdrBinary env st = (st', Ok n) ->
  EclipseMonitor.m_phase st' = Sync ->
  EclipseMonitor.Update hdrBinary env st = EclipseMonitor.RuntimeMaintenance env st'.
Proof.
  intros Hp Hu Hp'. unfold EclipseMonitor.Update, EclipseMonitor.PhaseChangeCheck. run_m.
  rewrite decide_False by congruence. rewrite Hu. run_m. rewrite Hp'. run_m.
  by rewrite decide_False by congruence.
Qed.

(** The host delivers the header once for each of some environments. *)
Definition deliver (envs : list Env) (st : st_t) : st_t :=
  foldl (fun st env => fst (EclipseMonitor.Update hdrBinary env st)) st envs.

Lemma deliver_waits envs count (st : st_t) : child_of_parent -> waiting count st -> 0 <= count ->
  count + zlen envs < checkpointSize (EclipseMonitor.m_mConfig st) -> checkpointSize (EclipseMonitor.m_mConfig st) < 2 ^ 64 ->
  waiting (count + zlen envs) (deliver envs st) /\ EclipseMonitor.m_mConfig (deliver envs st) = EclipseMonitor.m_mConfig st.
Proof.
  intros Hr. revert count st. induction envs as [|env envs IH]; intros count st Hw Hc Hk Hk'; cbn [length] in *.
  { by rewrite Z.add_0_r. }
  destruct (UpdateOnRuntime_again count env st Hr Hw) as (st' & Hu & Hw' & Hconf); [lia|].
  unfold deliver. cbn [foldl]. rewrite (Update_runtime env st st' _ (wt_phase _ _ Hw) Hu (wt_phase _ _ Hw')).
  rewrite (maintenance_waits (count + 1) env st' Hw') by (rewrite Hconf; lia). cbn [fst]. fold (deliver envs st').
  destruct (IH (count + 1) st' Hw' ltac:(lia) ltac:(rewrite Hconf; lia) ltac:(rewrite Hconf; lia)) as [Hw2 ->].
  split; [|done]. by replace (count + Z.of_nat (S (length envs))) with (count + 1 + zlen envs) by lia.
Qed.

(** Confirmation without a chain: while the monitor waits for its sync
    message, a host that has one valid header and one valid child of it confirms
    the header by delivering the child [checkpointSize] times: each delivery
    passes the same checks, is added once more and counts as one more
    descendant, and the last one makes the header the newest confirmed one. *)
Theorem replay_confirms envs count (st : st_t) : child_of_parent -> waiting count st -> 0 <= count ->
  count + zlen envs = checkpointSize (EclipseMonitor.m_mConfig st) -> (0 < length envs)%nat ->
  checkpointSize (EclipseMonitor.m_mConfig st) < 2 ^ 64 ->
  exists confirmed, CheckpointMgr.m_lastNode (EclipseMonitor.m_checkpoint (deliver envs st)) = Some confirmed /\ HeaderNode.addr confirmed = ptr /\ HeaderNode.GetHeader confirmed = parent.
Proof using Laws Calls.
  intros Hr Hw Hc Hk Hn Hk'. destruct envs as [|env envs' _] using rev_ind; [cbn in Hn; lia|].
  rewrite length_app in Hk. cbn [length] in Hk.
  destruct (deliver_waits envs' count st Hr Hw Hc ltac:(lia) Hk') as [Hw1 Hconf1].
  unfold deliver. rewrite foldl_app. cbn [foldl]. fold (deliver envs' st). set (st1 := deliver envs' st) in *.
  destruct (UpdateOnRuntime_again (count + zlen envs') env st1 Hr Hw1) as (st2 & Hu & Hw2 & Hconf2); [lia|].
  rewrite (Update_runtime env st1 st2 _ (wt_phase _ _ Hw1) Hu (wt_phase _ _ Hw2)).
  destruct Hw2 as [_ _ _ (ra & rh & rs & sa & l & rest & Wn & _ & Wr) Ww Wk _ Wa _].
  assert (HeaderNode.ReleaseChildHasNDesc (HeaderNode.mk ra rh rs ((count + zlen envs' + 1, HeaderNode.mk ptr parent sa l) :: rest))
    (checkpointSize (EclipseMonitor.m_mConfig st2)) = Some (HeaderNode.mk ra rh rs rest, HeaderNode.mk ptr parent sa l)) as Er.
  { cbn. rewrite (proj2 (Z.leb_le _ _)); [done|]. rewrite Hconf2, Hconf1. lia. }
  destruct (ReleaseConfirmed_root st2 _ _ _ Wn Wk Ww Er) as (st3 & Hrel & Hl & Ha).
  unfold EclipseMonitor.RuntimeMaintenance. run_m. rewrite Hrel, Ha, Wa, !delete_empty, map_to_list_empty. cbn.
  eexists. split; [exact Hl|]. done.
Qed.
End replay.

(** ** Two deliveries, concretely *)

#[local] Existing Instance no_callbacks.
#[local] Existing Instance no_callbacks_laws.
(** A validator that looks at the parent's hash only. *)
#[local] Instance hash_validator : ValidatorBase unit := {|
  CommonValidate _ parentHdr _ header _ :=
    Ok (bool_decide (EthHeader.ParentHash (HeaderMgr.m_rawHeader header) = HeaderMgr.m_hash parentHdr)) |}.

Definition sample_at (t : Z) : HeaderMgr.t :=
  HeaderMgr.mk sample_header t (replicate 256 0) (Keccak256 sample_raw) 912104 0 512 false.
Definition replayed_parent : HeaderMgr.t :=
  HeaderMgr.mk EthHeader.empty 0 [] (EthHeader.ParentHash sample_header) 912103 0 512 false.
Definition replayed_monitor : EclipseMonitor.t PoSDiffChecker.t unit unit :=
  EclipseMonitor.mk sample_conf (mkSecState [] 1 [] []) Sync
    (CheckpointMgr.mk 2 [HeaderNode.GetHeader (fork_node 0 0 [])] []
      (Some (fork_node 1 1 [(0, HeaderNode.mk 2 replayed_parent 0 [])])) false) tt tt
    (mkShared (fst sample_sync) 0 0 0) (snd sample_sync) {[ EthHeader.ParentHash sample_header := 2%nat ]} ∅ [].

Lemma replayed_child : child_of_parent sample_raw sample_at replayed_parent (EthHeader.ParentHash sample_header) tt tt.
Proof.
  split.
  - intros t. unfold sample_at. lazy -[Keccak256]. reflexivity.
  - done.
  - done.
  - done.
  - intros vis t sh. by exists sh.
Qed.

Lemma replay_confirms_witness :
  exists confirmed, CheckpointMgr.m_lastNode (EclipseMonitor.m_checkpoint
      (deliver sample_raw [sample_env; sample_env] replayed_monitor)) = Some confirmed /\
    HeaderNode.addr confirmed = 2%nat /\ HeaderNode.GetHeader confirmed = replayed_parent.
Proof.
  apply (replay_confirms sample_raw sample_at replayed_parent 2 (EthHeader.ParentHash sample_header) tt tt
    [sample_env; sample_env] 0 replayed_monitor replayed_child); [|vm_compute; congruence|reflexivity|cbn; lia|reflexivity].
  split; [reflexivity|reflexivity|reflexivity| |intros _; reflexivity|cbn; lia|reflexivity|reflexivity|].
  - exists 1%nat, (HeaderNode.GetHeader (fork_node 1 1 [])), 0%nat, 0%nat, [], []. split; [reflexivity|]. split; [lia|constructor].
  - eexists. split; [lazy -[Keccak256]; reflexivity|reflexivity].
Defined.
