(* ===== verification/Follow.v ===== *)
(** * What the header callbacks establish is kept

    The owner of an [EclipseMonitor] follows the headers through the callbacks it
    registers.  Here the monitor's promise to such a follower is proved once, for
    any callbacks: a header is handed to the checkpoints, kept in the header tree
    or reported as confirmed only after the callback for validated headers has
    returned for it ([EclipseMonitor/Eth/EclipseMonitor.hpp]). *)

From stdpp Require Import strings gmap.
From S2P Require Import Prelude EthHeader Difficulty Events Checkpoint Monitor.

(** ** The headers the monitor holds *)

Inductive tree_has (h : HeaderMgr.t) : HeaderNode.t -> Prop :=
| has_here a s l : tree_has h (HeaderNode.mk a h s l)
| has_below a g s l d c : (d, c) ∈ l -> tree_has h c -> tree_has h (HeaderNode.mk a g s l).

(** The headers of the windows and of the tree. *)
Definition held (c : CheckpointMgr.t) (h : HeaderMgr.t) : Prop :=
  h ∈ CheckpointMgr.m_currWindow c \/ h ∈ CheckpointMgr.m_candidate c \/
  exists n, CheckpointMgr.m_lastNode c = Some n /\ tree_has h n.

Lemma has_root n : tree_has (HeaderNode.GetHeader n) n.
Proof. destruct n. constructor. Qed.

Lemma added_has p hp child n n' h : added p hp child n n' -> tree_has h n' -> tree_has h n \/ tree_has h child.
Proof.
  induction 1 as [s l|a g s l1 d c c' l2 _ IH]; intros H; inversion H as [|? ? ? ? d' x Hx Hh]; subst.
  - left. constructor.
  - apply elem_of_app in Hx as [Hx|[= -> ->]%list_elem_of_singleton]; [left; by econstructor|by right].
  - left. constructor.
  - apply elem_of_app in Hx as [Hx|[[= -> ->]|Hx]%elem_of_cons].
    + left. apply (has_below h a g s _ d' x); [|done]. apply elem_of_app. by left.
    + destruct (IH Hh) as [Hc|?]; [left|by right]. apply (has_below h a g s _ d c); [|done].
      apply elem_of_app. right. left.
    + left. apply (has_below h a g s _ d' x); [|done]. apply elem_of_app. right. by right.
Qed.

Lemma release_has n k n' c h : HeaderNode.ReleaseChildHasNDesc n k = Some (n', c) ->
  tree_has h n' \/ tree_has h c -> tree_has h n.
Proof.
  destruct n as [a g s l]. cbn. destruct (HeaderNode.take_child l k) as [[l' c']|] eqn:E; [|done].
  intros [= <- <-]. pose proof (take_child_spec l k) as Hs. rewrite E in Hs. destruct Hs as (l1 & d & l2 & -> & -> & _).
  intros [H|H]; [inversion H as [|? ? ? ? d' x Hx Hh]; subst; [constructor|]|].
  - apply (has_below h a g s _ d' x); [|done]. apply elem_of_app in Hx as [Hx|Hx]; apply elem_of_app; [by left|].
    right. by right.
  - apply (has_below h a g s _ d c'); [|done]. apply elem_of_app. right. left.
Qed.

Lemma iterate_held c h : h ∈ CheckpointMgr.IterateCurrWindow c -> held c h.
Proof.
  unfold CheckpointMgr.IterateCurrWindow. intros [Hh|Hh]%elem_of_app; [by left|]. right. right.
  destruct (CheckpointMgr.m_lastNode c) as [n|]; [|by apply not_elem_of_nil in Hh].
  destruct (CheckpointMgr.m_isLastNodeCandidate c); [by apply not_elem_of_nil in Hh|].
  apply list_elem_of_singleton in Hh as ->. exists n. split; [done|apply has_root].
Qed.

(** What a call of the checkpoint manager leaves was there, or is the new header. *)
Lemma AddHeader_held c x c' b h : CheckpointMgr.AddHeader c (Some x) = Ok (c', b) -> held c' h -> held c h \/ h = x.
Proof.
  unfold CheckpointMgr.AddHeader, held. destruct (CheckpointMgr.m_lastNode c) as [n|] eqn:En; [done|].
  destruct (_ <=? _); intros [= <- <-]; cbn; set_unfold; naive_solver.
Qed.

Lemma AddNode_held c n c' b h : CheckpointMgr.AddNode c (Some n) = Ok (c', b) -> held c' h -> held c h \/ tree_has h n.
Proof.
  unfold CheckpointMgr.AddNode, held.
  pose proof (fun r => has_root r) as Hr.
  destruct (_ <=? _); [|destruct (CheckpointMgr.m_lastNode c) as [r|] eqn:En; [destruct (CheckpointMgr.m_isLastNodeCandidate c)|]];
    intros [= <- <-]; try destruct (CheckpointMgr.m_lastNode c) as [r|] eqn:En; cbn; set_unfold; naive_solver.
Qed.

Lemma EndBootstrapPhase_held c s a c' h : CheckpointMgr.EndBootstrapPhase c s a = Ok c' -> held c' h -> held c h.
Proof.
  unfold CheckpointMgr.EndBootstrapPhase, held. destruct (CheckpointMgr.m_lastNode c); [done|]. destruct (negb _); [done|].
  destruct (last (CheckpointMgr.m_currWindow c)) as [x|] eqn:E; [|done]. intros [= <-]. cbn.
  apply last_Some in E as [l ->]. rewrite removelast_last. intros [H|[H|(n & [= <-] & H)]]; [left|by right; left|left];
    apply elem_of_app; [by left|right]. inversion H as [|? ? ? ? d y Hy]; subst; [by left|by apply not_elem_of_nil in Hy].
Qed.

(** ** Followers *)

Section follow.
Context {D V X : Type} `{Checker : DiffChecker D} `{Valid : ValidatorBase V} `{Calls : HeaderCallbacksLaws X}.
Local Abbreviation st_t := (EclipseMonitor.t D V X).
Implicit Types st : st_t.

(** What the follower has established: the headers for which the callback has
    returned, the sync message manager, and the objects that are shared.  [fresh]:
    the addresses of a call are not in use.  [genuine]: what the follower expects
    of a validated header. *)
Context (genuine : HeaderMgr.t -> Prop) (inv : list HeaderMgr.t -> SyncMsgMgr.t -> World X -> Prop)
  (fresh : Env -> World X -> Prop).

Class Follower : Prop := {
  f_validated : forall hs m vis h sh sh' r, inv hs m (sh_world sh) -> genuine h ->
    OnHeader vis (Validated h) sh = (sh', r) ->
    inv (match r with Ok _ => hs ++ [h] | Throw _ => hs end) m (sh_world sh');
  f_confirmed : forall hs m vis h sh sh' r, inv hs m (sh_world sh) ->
    OnHeader vis (Confirmed h) sh = (sh', r) -> inv hs m (sh_world sh');
  f_fresh : forall env vis n sh sh' r, fresh env (sh_world sh) ->
    OnHeader vis n sh = (sh', r) -> fresh env (sh_world sh');
  f_sync : forall hs m w env w' m', inv hs m w -> fresh env w ->
    SyncMsgMgr.NewSyncState (env_disableRefresh env) m w (env_syncTime env) (env_nonce env) (env_stateRef env) (env_listenerAddr env) = (w', m') ->
    inv hs m' w' }.
Context `{Follows : Follower}.

(** The headers the monitor holds, and the confirmed ones, are among those. *)
Record tracked (hs : list HeaderMgr.t) (st : st_t) : Prop := {
  tr_inv : inv hs (EclipseMonitor.m_syncMsgMgr st) (EclipseMonitor.m_world st);
  tr_held : forall h, held (EclipseMonitor.m_checkpoint st) h -> h ∈ hs;
  tr_confirmed : forall h, Confirmed h ∈ EclipseMonitor.notices st -> h ∈ hs }.

Definition all_genuine (st : st_t) : Prop := forall h, Validated h ∈ EclipseMonitor.notices st -> genuine h.

(** A call that keeps what is tracked, given that the headers [A] are among the
    followed ones; the list of these grows. *)
Record follows (A : HeaderMgr.t -> Prop) (st st' : st_t) : Prop := {
  fo_notices : EclipseMonitor.notices st `prefix_of` EclipseMonitor.notices st';
  fo_tracked : forall hs, all_genuine st' -> tracked hs st -> (forall h, A h -> h ∈ hs) ->
    exists hs', hs `prefix_of` hs' /\ tracked hs' st' }.

Definition keeps_fresh (env : Env) (st st' : st_t) : Prop :=
  fresh env (EclipseMonitor.m_world st) -> fresh env (EclipseMonitor.m_world st').

Definition none (h : HeaderMgr.t) : Prop := False.

Definition carries (st st' : st_t) : Prop := follows none st st' /\ forall env, keeps_fresh env st st'.

Lemma all_genuine_before st st' : EclipseMonitor.notices st `prefix_of` EclipseMonitor.notices st' ->
  all_genuine st' -> all_genuine st.
Proof. intros [k E] Hg h Hh. apply Hg. rewrite E. apply elem_of_app. by left. Qed.

Lemma follows_trans (A : HeaderMgr.t -> Prop) st1 st2 st3 : follows A st1 st2 -> follows A st2 st3 -> follows A st1 st3.
Proof.
  intros [P1 T1] [P2 T2]. split; [by etrans|]. intros hs Hg Ht Ha.
  destruct (T1 hs) as (hs1 & Hp1 & Ht1); [by eapply all_genuine_before|done|done|].
  destruct (T2 hs1) as (hs2 & Hp2 & Ht2); [done|done| |exists hs2; split; [by etrans|done]].
  intros h Hh. destruct Hp1 as [l ->]. apply elem_of_app. left. auto.
Qed.

(** The notices and the shared objects stay, and nothing new is held. *)
Lemma follows_quiet (A : HeaderMgr.t -> Prop) st st' :
  EclipseMonitor.notices st' = EclipseMonitor.notices st -> EclipseMonitor.m_world st' = EclipseMonitor.m_world st ->
  EclipseMonitor.m_syncMsgMgr st' = EclipseMonitor.m_syncMsgMgr st ->
  (forall h, held (EclipseMonitor.m_checkpoint st') h -> held (EclipseMonitor.m_checkpoint st) h \/ A h) ->
  follows A st st'.
Proof.
  intros En Ew Em Hh. split; [by rewrite En|]. intros hs _ [Ti Th Tc] Ha. exists hs. split; [done|]. split.
  - by rewrite Em, Ew.
  - intros h [?|?]%Hh; auto.
  - rewrite En. apply Tc.
Qed.

Lemma follows_refl (A : HeaderMgr.t -> Prop) st : follows A st st.
Proof. apply follows_quiet; auto. Qed.

(** *** The callbacks *)

Lemma notify_keeps_fresh env n st : keeps_fresh env st (EclipseMonitor.notify n st).1.
Proof using Follows.
  destruct (notify_noted n st) as (sh & r & -> & Ho). intros Hf. exact (f_fresh env _ n _ _ _ Hf Ho).
Qed.

Lemma notify_validated h st : exists sh r, EclipseMonitor.notify (Validated h) st = (noted [Validated h] sh st, r) /\
  EclipseMonitor.notices st `prefix_of` EclipseMonitor.notices (noted [Validated h] sh st) /\
  forall hs, all_genuine (noted [Validated h] sh st) -> tracked hs st ->
    tracked (match r with Ok _ => hs ++ [h] | Throw _ => hs end) (noted [Validated h] sh st).
Proof using Follows.
  destruct (notify_noted (Validated h) st) as (sh & r & E & Ho). exists sh, r. split; [done|].
  split; [by exists [Validated h]|]. intros hs Hg [Ti Th Tc].
  assert (forall x, x ∈ hs -> x ∈ (match r with Ok _ => hs ++ [h] | Throw _ => hs end)) as Hin.
  { intros x Hx. destruct r; [apply elem_of_app; by left|done]. }
  split; cbn [noted EclipseMonitor.m_syncMsgMgr EclipseMonitor.m_checkpoint EclipseMonitor.notices].
  - eapply (f_validated hs _ _ h); [exact Ti| |exact Ho]. apply Hg. apply elem_of_app. right. by left.
  - intros x Hx. auto.
  - intros x [Hx|Hx%list_elem_of_singleton]%elem_of_app; [auto|done].
Qed.

Lemma notify_confirmed_follows hs0 st : (forall h, h ∈ hs0 -> held (EclipseMonitor.m_checkpoint st) h) ->
  carries st (EclipseMonitor.notify_all (map Confirmed hs0) st).1.
Proof using Follows Calls.
  revert st. induction hs0 as [|x hs0 IH]; intros st Hh; cbn [map EclipseMonitor.notify_all].
  { split; [apply follows_refl|by intros env Hf]. }
  destruct (notify_noted (Confirmed x) st) as (sh & r & E & Ho).
  destruct (OnHeaderConfirmed_ok (EclipseMonitor.visible st) x (EclipseMonitor.m_shared st)) as [sh' Ho'].
  rewrite Ho in Ho'. injection Ho' as -> ->. unfold mbind, stx_bind. rewrite E.
  destruct (IH (noted [Confirmed x] sh' st)) as [Hf Hfr].
  { intros h Hin. apply Hh. by right. }
  split.
  - eapply follows_trans; [|exact Hf]. split; [by exists [Confirmed x]|].
    intros hs _ [Ti Th Tc] _. exists hs. split; [done|]. split.
    + exact (f_confirmed hs _ _ x _ _ _ Ti Ho).
    + exact Th.
    + cbn [noted EclipseMonitor.notices]. intros y [Hy|[= ->]%list_elem_of_singleton]%elem_of_app; [auto|].
      apply Th, Hh. by left.
  - intros env He. apply Hfr. exact (f_fresh env _ (Confirmed x) _ _ _ He Ho).
Qed.

(** *** The operations *)

Lemma follows_weaken (A B : HeaderMgr.t -> Prop) st st' : (forall h, A h -> B h) -> follows A st st' -> follows B st st'.
Proof. intros Hab [P T]. split; [done|]. intros hs Hg Ht Hb. apply T; auto. Qed.

(** What a header handed to the checkpoints starts: at the end of a window all
    its headers are reported. *)
Lemma run_checkpoint_follows (A : HeaderMgr.t -> Prop) call st :
  (forall c' b h, call (EclipseMonitor.m_checkpoint st) = Ok (c', b) -> held c' h ->
     held (EclipseMonitor.m_checkpoint st) h \/ A h) ->
  follows A st (EclipseMonitor.run_checkpoint call st).1.
Proof using Follows Calls.
  intros Hc. unfold EclipseMonitor.run_checkpoint. run_m.
  destruct (call (EclipseMonitor.m_checkpoint st)) as [[c' b]|e] eqn:E; [|apply follows_refl]. run_m.
  match goal with |- follows A st (?m ?s).1 => set (st1 := s) end.
  assert (follows A st st1) as H1 by (apply follows_quiet; eauto).
  destruct b; run_m; [|done]. eapply follows_trans; [exact H1|].
  unfold EclipseMonitor.OnCheckpointComplete. run_m.
  destruct (CheckpointMgr.GetLastHeader _) as [lh|e]; [run_m|apply follows_refl].
  destruct (OnChkptUpd _ _) as [d|e]; run_m; [|apply follows_quiet; eauto].
  match goal with |- follows A st1 (EclipseMonitor.notify_all _ ?s).1 => set (st2 := s) end.
  apply (follows_trans A st1 st2); [apply follows_quiet; eauto|].
  eapply follows_weaken; [|apply notify_confirmed_follows]; [done|]. intros h. apply iterate_held.
Qed.

Lemma run_checkpoint_fresh env call st : keeps_fresh env st (EclipseMonitor.run_checkpoint call st).1.
Proof using Follows Calls.
  unfold EclipseMonitor.run_checkpoint. run_m. intros Hf.
  destruct (call _) as [[c' b]|e]; [run_m|done]. destruct b; run_m; [|done].
  unfold EclipseMonitor.OnCheckpointComplete. run_m.
  destruct (CheckpointMgr.GetLastHeader _) as [lh|e]; [run_m|done].
  destruct (OnChkptUpd _ _) as [d|e]; run_m; [|done].
  match goal with |- fresh env (sh_world (EclipseMonitor.m_shared (EclipseMonitor.notify_all (map _ ?l) ?s).1)) =>
    exact (proj2 (notify_confirmed_follows l s ltac:(intros h; apply iterate_held)) env Hf) end.
Qed.

(** A callback for a validated header that returns, then a call that may keep it. *)
Lemma validated_then {A} h (m : EclipseMonitor.M A) st :
  (forall st1, follows (eq h) st1 (m st1).1) ->
  (forall st1 env, keeps_fresh env st1 (m st1).1) ->
  carries st (stx_bind _ _ _ _ (fun _ : unit => m) (EclipseMonitor.notify (Validated h)) st).1.
Proof using Follows.
  intros Hm Hf. unfold stx_bind. pose proof (fun env => notify_keeps_fresh env (Validated h) st) as Hn.
  destruct (notify_validated h st) as (sh & r & E & Hp & Ht). rewrite E in Hn |- *. cbn [fst] in Hn.
  destruct r as [[]|e].
  - split; [|by intros env ?; apply Hf, Hn]. destruct (Hm (noted [Validated h] sh st)) as [P T].
    split; [by etrans|]. intros hs Hg Htr _.
    destruct (T (hs ++ [h])) as (hs' & Hp' & Htr'); [done| | |].
    + apply (Ht hs); [|done]. by eapply all_genuine_before.
    + intros ? <-. apply elem_of_app. right. by left.
    + exists hs'. split; [|done]. etrans; [|exact Hp']. by eexists.
  - split; [|exact Hn]. split; [done|]. intros hs Hg Htr _. exists hs. split; [done|]. by apply (Ht hs).
Qed.

Lemma add_child_follows ptr child st : HeaderNode.m_children child = [] ->
  follows (eq (HeaderNode.GetHeader child)) st (EclipseMonitor.add_child ptr child st).1.
Proof.
  intros Hc. unfold EclipseMonitor.add_child. run_m.
  destruct (CheckpointMgr.m_lastNode (EclipseMonitor.m_checkpoint st)) as [root|] eqn:En; [|apply follows_refl].
  destruct (HeaderNode.AddChild root ptr child) as [root'|] eqn:Ea; [|apply follows_refl]. run_m.
  apply follows_quiet; try done. run_m. intros h [Hh|[Hh|(n & [= <-] & Hh)]]; [by left; left|by left; right; left|].
  pose proof (AddChild_added ptr child root) as Had. destruct (HeaderNode.find root ptr) as [x|]; [|congruence].
  destruct Had as (r & E & Had). rewrite Ea in E. injection E as <-.
  destruct (added_has _ _ _ _ _ h Had Hh) as [Hr|Hr]; [left; right; right; by exists root|right].
  destruct child as [a g s l]. cbn in Hc. subst l. inversion Hr as [|? ? ? ? d c Hx]; subst; [done|by apply not_elem_of_nil in Hx].
Qed.

Lemma UpdateOnRuntimeAddChild_follows ptr live header addr st :
  carries st (EclipseMonitor.UpdateOnRuntimeAddChild ptr live header addr st).1.
Proof using Follows.
  assert (carries st st) as H0 by (split; [apply follows_refl|by intros env Hf]).
  unfold EclipseMonitor.UpdateOnRuntimeAddChild. unfold EclipseMonitor.gets, EclipseMonitor.lift, mbind, mret.
  unfold stx_bind at 1. cbn [id]. unfold stx_bind at 1.
  destruct (EclipseMonitor.GetLastSyncState st) as [s|e]; [|done]. unfold stx_bind at 1.
  destruct (EclipseMonitor.deref st ptr) as [parent|e]; [|done]. unfold stx_bind at 1.
  destruct (CommonValidate _ _ _ _ _) as [b|e]; [|done]. unfold stx_bind at 1.
  destruct (if b then _ else _) as [st1 [b'|e]] eqn:E.
  2:{ destruct b; [|done]. injection E as -> _. done. }
  assert (st = st1) as <- by (destruct b; injection E; done). destruct (b && b'); [|done].
  apply validated_then.
  - intros st1. unfold stx_bind. pose proof (add_child_follows ptr (HeaderNode.create addr header
      (SyncMsgMgr.m_lastSyncState (EclipseMonitor.m_syncMsgMgr st))) st1 eq_refl) as Ha.
    destruct (EclipseMonitor.add_child _ _ st1) as [st2 [[]|e]]; [|done]. cbn [fst] in Ha.
    eapply follows_trans; [exact Ha|]. destruct (SyncState.m_isSynced s); run_m; apply follows_quiet; auto.
  - intros st1 env Hf. unfold EclipseMonitor.add_child. run_m.
    destruct (CheckpointMgr.m_lastNode _) as [root|]; [|done]. destruct (HeaderNode.AddChild _ _ _); [run_m|done].
    destruct (SyncState.m_isSynced s); exact Hf.
Qed.

Lemma UpdateOnRuntime_follows hdrBinary env0 st :
  carries st (EclipseMonitor.UpdateOnRuntime hdrBinary env0 st).1.
Proof using Follows.
  assert (carries st st) as H0 by (split; [apply follows_refl|by intros env Hf]).
  unfold EclipseMonitor.UpdateOnRuntime. run_m.
  destruct (HeaderMgr.create _ _) as [header|e]; [|done].
  destruct (EclipseMonitor.m_offlineNodes st !! _) as [p|]; [|destruct (EclipseMonitor.m_activeNodes st !! _) as [p|]; [|done]];
    match goal with |- context [EclipseMonitor.UpdateOnRuntimeAddChild p ?l header ?a st] =>
      pose proof (UpdateOnRuntimeAddChild_follows p l header a st) as Hs;
      by destruct (EclipseMonitor.UpdateOnRuntimeAddChild p l header a st) as [st' [[]|e]] end.
Qed.

Lemma UpdateOnBootstrapI_follows hdrBinary st :
  carries st (EclipseMonitor.UpdateOnBootstrapI hdrBinary st).1.
Proof using Follows Calls.
  assert (carries st st) as H0 by (split; [apply follows_refl|by intros env Hf]).
  unfold EclipseMonitor.UpdateOnBootstrapI. unfold EclipseMonitor.gets at 1, mbind at 1 2 3, mret.
  unfold stx_bind at 1. destruct (HeaderMgr.create hdrBinary 0) as [header|e]; [|done]. unfold EclipseMonitor.lift at 1.
  unfold stx_bind at 1. cbn [id]. unfold stx_bind at 1.
  match goal with |- context [(if CheckpointMgr.IsEmpty ?c then ?a else ?b) st] =>
    destruct ((if CheckpointMgr.IsEmpty c then a else b) st) as [st1 [[]|e]] eqn:E end;
    assert (carries st st1) as H1.
  1,3: revert E; destruct (CheckpointMgr.IsEmpty _); run_m;
    [intros E; first [discriminate E|injection E as <-; split; [apply follows_quiet; auto|by intros env Hf]]|];
    destruct (CheckpointMgr.GetLastHeader _) as [parent|?]; [|intros; by simplify_eq];
    destruct (CommonValidate _ _ _ _ _) as [[]|?]; run_m; intros E; cbn [negb] in E; by simplify_eq.
  - unfold mbind. destruct (validated_then header (stx_bind _ _ _ _ (fun _ : unit => stx_ret _ _ _ (HeaderMgr.m_blkNum header))
      (EclipseMonitor.run_checkpoint (fun c => CheckpointMgr.AddHeader c (Some header)))) st1) as [Hf Hk].
    + intros st2. unfold stx_bind. pose proof (run_checkpoint_follows (eq header)
        (fun c => CheckpointMgr.AddHeader c (Some header)) st2) as Hr.
      destruct (EclipseMonitor.run_checkpoint _ st2) as [st3 [[]|e]]; apply Hr;
        intros c' b h Hc Hh; (destruct (AddHeader_held _ _ _ _ _ Hc Hh) as [?| ->]; auto).
    + intros st2 env Hfr. unfold stx_bind. pose proof (run_checkpoint_fresh env
        (fun c => CheckpointMgr.AddHeader c (Some header)) st2 Hfr) as Hr.
      by destruct (EclipseMonitor.run_checkpoint _ st2) as [st3 [[]|e]].
    + split; [eapply follows_trans; [apply H1|exact Hf]|]. intros env He. apply Hk. by apply H1.
  - done.
Qed.

Lemma ReleaseConfirmed_follows st : follows none st (EclipseMonitor.ReleaseConfirmed st).1.
Proof using Follows Calls.
  unfold EclipseMonitor.ReleaseConfirmed. run_m. unfold CheckpointMgr.GetLastNodePtr.
  destruct (CheckpointMgr.m_lastNode (EclipseMonitor.m_checkpoint st)) as [root|] eqn:En; [run_m|apply follows_refl].
  destruct (HeaderNode.ReleaseChildHasNDesc root _) as [[root' child]|] eqn:Er; [run_m|apply follows_refl].
  set (A := fun h => tree_has h child).
  match goal with |- follows none st (?m ?s).1 => set (st1 := s); set (go := m) end.
  assert (forall h, held (EclipseMonitor.m_checkpoint st1) h \/ tree_has h child -> held (EclipseMonitor.m_checkpoint st) h) as Hh.
  { intros h [[Hh|[Hh|(n & [= <-] & Hh)]]|Hh]; [by left|by right; left| |]; right; right; exists root; (split; [done|]);
      eapply release_has; eauto. }
  assert (follows A st1 (go st1).1) as [P T].
  { apply run_checkpoint_follows. intros c' b h. apply AddNode_held. }
  split; [exact P|]. intros hs Hg [Ti Th Tc] _. destruct (T hs) as (hs' & Hp & Ht); [done| | |by exists hs'].
  - split; [done| |done]. intros h Hh1. apply Th, Hh. by left.
  - intros h Ha. apply Th, Hh. by right.
Qed.

Lemma CheckExpired_follows nodes now st : follows none st (EclipseMonitor.CheckExpired nodes now st).1.
Proof.
  revert st. induction nodes as [|[hash ptr] rest IH]; intros st; cbn [EclipseMonitor.CheckExpired]; run_m; [apply follows_refl|].
  destruct (EclipseMonitor.deref st ptr) as [n|e]; [|apply follows_refl].
  destruct (CheckEstDifficulty _ _ _) as [b|e]; [|apply follows_refl]. destruct b; [by apply IH|run_m].
  apply follows_quiet; auto.
Qed.

Lemma RuntimeMaintenance_follows env st : follows none st (EclipseMonitor.RuntimeMaintenance env st).1.
Proof using Follows Calls.
  unfold EclipseMonitor.RuntimeMaintenance, mbind, stx_bind. pose proof (ReleaseConfirmed_follows st) as Hr.
  destruct (EclipseMonitor.ReleaseConfirmed st) as [st1 [[]|e]]; [|done]. eapply follows_trans; [exact Hr|].
  apply CheckExpired_follows.
Qed.

Lemma EndBootstrapI_follows env st : follows none st (EclipseMonitor.EndBootstrapI env st).1.
Proof.
  unfold EclipseMonitor.EndBootstrapI. run_m. destruct (EclipseMonitor.GetLastSyncState st) as [s|e]; [|apply follows_refl].
  destruct (CheckpointMgr.EndBootstrapPhase _ _ _) as [c|e] eqn:Ee; [run_m|apply follows_refl].
  assert (forall h, held c h -> held (EclipseMonitor.m_checkpoint st) h \/ none h) as Hh
    by (intros h; left; by eapply EndBootstrapPhase_held).
  destruct (CheckpointMgr.GetLastNodePtr c) as [n|e]; run_m; by apply follows_quiet.
Qed.

(** The new sync state needs the addresses of the call. *)
Lemma RefreshSyncMsg_follows env st : fresh env (EclipseMonitor.m_world st) ->
  follows none st (EclipseMonitor.RefreshSyncMsg env st).1.
Proof using Follows.
  intros Hf. unfold EclipseMonitor.RefreshSyncMsg. run_m.
  destruct (SyncMsgMgr.NewSyncState _ _ _ _ _ _ _) as [w m] eqn:E. run_m. split; [done|].
  intros hs _ [Ti Th Tc] _. exists hs. split; [done|]. split; try done. run_m. by eapply f_sync.
Qed.

(** A call of [Update] with fresh addresses: whatever it does, and whether it
    returns or throws, what is held and what is confirmed stays followed. *)
Lemma Update_follows hdrBinary env st : fresh env (EclipseMonitor.m_world st) ->
  follows none st (EclipseMonitor.Update hdrBinary env st).1.
Proof using Follows Calls.
  intros Hf. unfold EclipseMonitor.Update. unfold EclipseMonitor.gets, mbind. unfold stx_bind at 1 2. cbn [id].
  assert (carries st ((if decide (EclipseMonitor.m_phase st = BootstrapI) then EclipseMonitor.UpdateOnBootstrapI hdrBinary
    else EclipseMonitor.UpdateOnRuntime hdrBinary env) st).1) as [H1 Hk].
  { destruct (decide _); [apply UpdateOnBootstrapI_follows|apply UpdateOnRuntime_follows]. }
  specialize (Hk env Hf). match goal with |- context [(if decide ?p then ?a else ?b) st] =>
    destruct ((if decide p then a else b) st) as [st1 [blkNum|e]]; [|done] end. cbn [fst] in *.
  unfold stx_bind at 1.
  assert (follows none st1 (EclipseMonitor.PhaseChangeCheck blkNum env st1).1) as H2.
  { unfold EclipseMonitor.PhaseChangeCheck. unfold EclipseMonitor.gets, mbind, stx_bind at 1. cbn [id].
    destruct (EclipseMonitor.m_phase st1); try apply follows_refl; (destruct (_ =? _); [|apply follows_refl]).
    - apply EndBootstrapI_follows.
    - by apply RefreshSyncMsg_follows. }
  destruct (EclipseMonitor.PhaseChangeCheck blkNum env st1) as [st2 [[]|e]]; (eapply follows_trans; [exact H1|]); [|done].
  eapply follows_trans; [exact H2|]. unfold EclipseMonitor.gets, stx_bind. cbn [id].
  destruct (decide _); [apply follows_refl|]. apply RuntimeMaintenance_follows.
Qed.
End follow.
