(* ===== verification/Messages.v ===== *)
(** * Messages between enclaves

    What the components say to each other, as bytes: the calls of lambda functions
    ([DE/Common/DeterministicMsg.hpp], [DE/Trusted/DecentLambdaClt.hpp],
    [DecentLambdaSvr.hpp]), the configuration and the security state of the monitor
    ([EM/MonitorReport.hpp]), the requests and the heartbeats of the Ethereum
    client ([CLT/Pubsub/SubscriberHandler.hpp], [CLT/ReceiptSubscriber.hpp]), and the
    subscriber that reads them ([Revoker/src/Trusted/EthHeartbeatHandler.hpp]). *)

From Stdlib Require Ascii String.
From stdpp Require Import strings gmap.
From S2P Require Import Prelude Keccak RlpEncoding RlpDecoding EthHeader Receipts Events Checkpoint.
From S2P Require Import Monitor Heartbeat Abi Pubsub Delivery Utf AdvRlp AdvRlpTheorems.

(** ** Data *)

Definition str (s : string) : bytes := map (fun c => Z.of_N (Ascii.N_of_ascii c)) (String.list_ascii_of_string s).

(** A message of a fixed shape: its C++ class derives from [StaticDict], and its
    parser is a [CatStaticDictParserT]. *)
Class StaticMsg (A : Type) := {
  msg_shape : Shape;
  msg_obj : A -> Object;
  msg_of : Object -> option A }.

(** [msg_ok] are the values the members can have. *)
Class StaticMsgLaws (A : Type) `{StaticMsg A} (msg_ok : A -> Prop) := {
  msg_of_obj a : msg_of (msg_obj a) = Some a;
  msg_has_shape a : msg_ok a -> has_shape msg_shape (msg_obj a);
  msg_of_total o : of_shape msg_shape o -> is_Some (msg_of o) }.

Definition WriteMsg `{StaticMsg A} (a : A) : result AdvError bytes := GenericWriter.Write (msg_obj a).
Definition ParseMsg `{StaticMsg A} (bs : bytes) : result AdvError A :=
  o ← ParseShape msg_shape bs;
  match msg_of o with Some a => Ok a | None => Throw (UndefinedBehaviour "members of the tuple") end.

(** [DetMsgId] and [DetMsg]. *)
Module DetMsgId.
Record t := mk { MsgType : bytes; Ext : bytes }.
End DetMsgId.

Module DetMsg.
Record t := mk { Version : Z; MsgId : DetMsgId.t; MsgContent : bytes }.
End DetMsg.

#[export] Instance DetMsgId_msg : StaticMsg DetMsgId.t := {|
  msg_shape := ShDict [ShString; ShBytes];
  msg_obj i := SStaticDict [SHashable (SString (DetMsgId.MsgType i)); SHashable (SBytes (DetMsgId.Ext i))];
  msg_of o :=
    match o with
    | SStaticDict [SHashable (SString ty); SHashable (SBytes ext)] => Some (DetMsgId.mk ty ext)
    | _ => None
    end |}.

#[export] Instance DetMsg_msg : StaticMsg DetMsg.t := {|
  msg_shape := ShDict [ShInt UInt32; @msg_shape DetMsgId.t _; ShBytes];
  msg_obj m := SStaticDict [SHashable (SInteger UInt32 (DetMsg.Version m)); msg_obj (DetMsg.MsgId m); SHashable (SBytes (DetMsg.MsgContent m))];
  msg_of o :=
    match o with
    | SStaticDict [SHashable (SInteger UInt32 ver); id; SHashable (SBytes content)] =>
      (fun id => DetMsg.mk ver id content) <$> msg_of id
    | _ => None
    end |}.

(** [MonitorConfig] and [MonitorSecState], with the members the monitor does not
    use. *)
Record ConfigMsg := mkConfigMsg { cm_SVN : Z; cm_chainName : bytes; cm_conf : MonitorConfig }.
Record SecStateMsg := mkSecStateMsg { sm_SVN : Z; sm_state : MonitorSecState }.

Definition u64_obj (v : Z) : Object := SHashable (SInteger UInt64 v).

#[export] Instance ConfigMsg_msg : StaticMsg ConfigMsg := {|
  msg_shape := ShDict [ShInt UInt32; ShString; ShInt UInt64; ShInt UInt8; ShInt UInt64; ShInt UInt64];
  msg_obj c := SStaticDict [SHashable (SInteger UInt32 (cm_SVN c)); SHashable (SString (cm_chainName c));
    u64_obj (checkpointSize (cm_conf c)); SHashable (SInteger UInt8 (minDiffPercent (cm_conf c)));
    u64_obj (maxWaitTime (cm_conf c)); u64_obj (syncMaxWaitTime (cm_conf c))];
  msg_of o :=
    match o with
    | SStaticDict [SHashable (SInteger UInt32 svn); SHashable (SString name); SHashable (SInteger UInt64 size);
        SHashable (SInteger UInt8 diff); SHashable (SInteger UInt64 wait); SHashable (SInteger UInt64 syncWait)] =>
      Some (mkConfigMsg svn name (mkConfig size diff wait syncWait))
    | _ => None
    end |}.

#[export] Instance SecStateMsg_msg : StaticMsg SecStateMsg := {|
  msg_shape := ShDict [ShInt UInt32; ShBytes; ShInt UInt64; ShBytes; ShBytes];
  msg_obj s := SStaticDict [SHashable (SInteger UInt32 (sm_SVN s)); SHashable (SBytes (genesisHash (sm_state s)));
    u64_obj (checkpointIter (sm_state s)); SHashable (SBytes (checkpointHash (sm_state s)));
    SHashable (SBytes (checkpointNum (sm_state s)))];
  msg_of o :=
    match o with
    | SStaticDict [SHashable (SInteger UInt32 svn); SHashable (SBytes genesis); SHashable (SInteger UInt64 iter);
        SHashable (SBytes hash); SHashable (SBytes num)] =>
      Some (mkSecStateMsg svn (mkSecState genesis iter hash num))
    | _ => None
    end |}.

(** [GetEclipseMonitorSVN] and [BuildEthereumMonitorConfig]. *)
Definition GetEclipseMonitorSVN : Z := Z.lor (Z.shiftl 0x01 16) 0x0000.
Definition BuildEthereumMonitorConfig : ConfigMsg :=
  mkConfigMsg GetEclipseMonitorSVN (str "Ethereum") (mkConfig 430 103 400 13).

(** ** Dictionaries *)

(** The order in which a hash map iterates. *)
Class HashOrder := {
  iterate : list (Hashable * Object) -> list (Hashable * Object);
  iterate_perm d : iterate d ≡ₚ d }.

(** [dict[key] = val]. *)
Fixpoint set_item (d : list (Hashable * Object)) (key : Hashable) (val : Object) : list (Hashable * Object) :=
  match d with
  | [] => [(key, val)]
  | (k, v) :: d => if obj_eqb k key then (k, val) :: d else (k, v) :: set_item d key val
  end.

Definition sk_labelSecState : Hashable := SString (str "SecState").
Definition sk_labelLatestBlkNum : Hashable := SString (str "LatestBlkNum").
Definition sk_labelEvents : Hashable := SString (str "Events").
Definition sk_labelReceipts : Hashable := SString (str "Receipts").
Definition sk_labelPublisher : Hashable := SString (str "publisher").
Definition sk_labelContract : Hashable := SString (str "contract").
Definition sk_labelTopics : Hashable := SString (str "topics").

Definition bytes_obj (b : bytes) : Object := SHashable (SBytes b).
Definition event_obj (ev : EventData) : Object := SList (map bytes_obj ev).
Definition receipt_obj (r : ReceiptData) : Object :=
  SList [bytes_obj (rd_number r); SList (map bytes_obj (rd_topics r)); bytes_obj (rd_data r)].

(** ** Exceptions of a call *)

Inductive CallError := FromWire (e : AdvError) | FromApp (e : Error) | NoHandler.

Definition wire_err {A} (r : result AdvError A) : result CallError A :=
  match r with Ok a => Ok a | Throw e => Throw (FromWire e) end.
Definition app_err {A} (r : result Error A) : result CallError A :=
  match r with Ok a => Ok a | Throw e => Throw (FromApp e) end.

(** ** The client of a lambda function *)

(** What [MakeLambdaCall] sends; it sets the version. *)
Definition MakeLambdaCall (msg : DetMsg.t) : result AdvError bytes :=
  WriteMsg (DetMsg.mk 1 (DetMsg.MsgId msg) (DetMsg.MsgContent msg)).

(** ** The server of lambda functions *)

Module LambdaHandlerMgr.
Section mgr.
Context {World : Type}.

(** A handler gets the socket by reference to the owning pointer, and may take it. *)
Definition Handler : Type := bytes -> bytes -> stx (option nat * World) CallError unit.

Definition RegisterHandler (msgType : bytes) (handler : Handler) (m_handlerMap : gmap bytes (list Handler)) : gmap bytes (list Handler) :=
  <[msgType := default [] (m_handlerMap !! msgType) ++ [handler]]> m_handlerMap.

Fixpoint call_all (handlers : list Handler) (ext content : bytes) : stx (option nat * World) CallError unit :=
  match handlers with
  | [] => mret tt
  | handler :: handlers => handler ext content ;; call_all handlers ext content
  end.

(** What is left of the socket at the end is closed. *)
Definition HandleCall (m_handlerMap : gmap bytes (list Handler)) (socket : nat) (msgAdvRlp : bytes) : stx World CallError unit := fun w =>
  match @ParseMsg DetMsg.t _ msgAdvRlp with
  | Throw e => (w, Throw (FromWire e))
  | Ok detMsg =>
    match m_handlerMap !! DetMsgId.MsgType (DetMsg.MsgId detMsg) with
    | None | Some [] => (w, Throw NoHandler)
    | Some handlers =>
      let '((_, w'), r) := call_all handlers (DetMsgId.Ext (DetMsg.MsgId detMsg)) (DetMsg.MsgContent detMsg) (Some socket, w) in (w', r)
    end
  end.

(** [ecall_decent_lambda_handler]: an exception is logged. *)
Definition ecall_decent_lambda_handler (m_handlerMap : gmap bytes (list Handler)) (socket : nat) (detMsgAdvRlp : bytes) (w : World) : World :=
  (HandleCall m_handlerMap socket detMsgAdvRlp w).1.
End mgr.
End LambdaHandlerMgr.

(** ** The Ethereum client *)

Local Abbreviation W := (World Owner).

(** The publisher in the content of a request. *)
Definition SubReq_args (msgContentAdvRlp : bytes) : result AdvError bytes :=
  msgContent ← AdvRlp.Parse msgContentAdvRlp;
  msgContentDict ← AdvRlp.AsDict msgContent;
  pubAddrObj ← AdvRlp.Dict.at_ msgContentDict sk_labelPublisher;
  AdvRlp.AsBytes pubAddrObj.

(** The topics are read one by one; a wrong size ends the request. *)
Fixpoint ReceiptSubReq_topics (l : list Object) : result AdvError (option (list bytes)) :=
  match l with
  | [] => Ok (Some [])
  | topicObj :: l =>
    topic ← AdvRlp.AsBytes topicObj;
    if negb (zlen topic =? 32) then Ok None
    else topics ← ReceiptSubReq_topics l; Ok (option_map (cons topic) topics)
  end.

Definition ReceiptSubReq_args (msgContentAdvRlp : bytes) : result AdvError (option (bytes * list bytes)) :=
  msgContent ← AdvRlp.Parse msgContentAdvRlp;
  msgContentDict ← AdvRlp.AsDict msgContent;
  conAddrObj ← AdvRlp.Dict.at_ msgContentDict sk_labelContract;
  conAddr ← AdvRlp.AsBytes conAddrObj;
  if negb (zlen conAddr =? 20) then Ok None
  else
    topicsObj ← AdvRlp.Dict.at_ msgContentDict sk_labelTopics;
    l ← AdvRlp.AsList topicsObj;
    topics ← ReceiptSubReq_topics l;
    Ok (option_map (pair conAddr) topics).

Section client.
Context `{Alloc : Allocator} `{Heap : Malloc}.

Definition HandlePubsubSubReq (secState : MonitorSecState) (sendOk : bool) : @LambdaHandlerMgr.Handler W :=
  fun msgIdExt msgContent '(socket, w) =>
  match SubReq_args msgContent with
  | Throw e => ((socket, w), Throw (FromWire e))
  | Ok pubAddr =>
    let unknown := bool_decide (GetEventMgrAddr (m_svcStore (w_owner w)) pubAddr = replicate 20 0) in
    match socket with
    | Some s =>
      let '(w', r) := SubReq secState sendOk s pubAddr w in
      ((if negb unknown && is_ok r then None else socket, w'), app_err r)
    | None => ((None, w), if unknown then Ok tt else Throw (FromApp (Undefined "null pointer")))
    end
  end.

Definition HandleReceiptSubReq : @LambdaHandlerMgr.Handler W :=
  fun msgIdExt msgContent '(socket, w) =>
  match ReceiptSubReq_args msgContent with
  | Throw e => ((socket, w), Throw (FromWire e))
  | Ok None => ((socket, w), Ok tt)
  | Ok (Some (conAddr, topics)) =>
    match socket with
    | Some s =>
      let '(w', r) := ReceiptSubReq s conAddr topics w in
      ((if is_ok r then None else socket, w'), app_err r)
    | None => ((None, w), Throw (FromApp (Undefined "null pointer")))
    end
  end.

(** The handlers [Init] registers. *)
Definition RegisteredHandlers (secState : MonitorSecState) (sendOk : bool) : gmap bytes (list (@LambdaHandlerMgr.Handler W)) :=
  LambdaHandlerMgr.RegisterHandler (str "Receipt.Subscribe") HandleReceiptSubReq
    (LambdaHandlerMgr.RegisterHandler (str "PubSub.Subscribe") (HandlePubsubSubReq secState sendOk) ∅).
End client.

(** [ecall_ethereum_clt_init]: the configuration from the host. *)
Definition ParseConfig (mConfAdvRlp : bytes) : result AdvError ConfigMsg := ParseMsg mConfAdvRlp.

Section emitted.
Context `{HashOrder}.

Definition BuildEmittedMsg (secState latestBlkNum : bytes) (evQueue : EventDataQueue) : result AdvError bytes :=
  let respDict := set_item [] sk_labelSecState (bytes_obj secState) in
  let respDict := set_item respDict sk_labelLatestBlkNum (bytes_obj latestBlkNum) in
  let respDict := set_item respDict sk_labelEvents (SList (map event_obj evQueue)) in
  GenericWriter.Write (SDict (iterate respDict)).

(** The message of [SubscribedReceiptEmitter]. *)
Definition BuildEmittedReceipts (secState latestBlkNum : bytes) (outQueue : list ReceiptData) : result AdvError bytes :=
  let respDict := set_item [] sk_labelSecState (bytes_obj secState) in
  let respDict := set_item respDict sk_labelLatestBlkNum (bytes_obj latestBlkNum) in
  let respDict := set_item respDict sk_labelReceipts (SList (map receipt_obj outQueue)) in
  GenericWriter.Write (SDict (iterate respDict)).

(** The bytes of a message; nothing sets the [SVN] of the security state. *)
Definition WireMsg (m : Message) : result AdvError bytes :=
  match m with
  | EmittedMsg secState latestBlkNum events =>
    s ← WriteMsg (mkSecStateMsg 0 secState);
    BuildEmittedMsg s latestBlkNum events
  | EmittedReceipts secState latestBlkNum receipts =>
    s ← WriteMsg (mkSecStateMsg 0 secState);
    BuildEmittedReceipts s latestBlkNum receipts
  end.

(** ** The revoker *)

Definition BuildSubscribeMsg (publisherAddr : bytes) : result AdvError DetMsg.t :=
  let msgContent := set_item [] sk_labelPublisher (bytes_obj publisherAddr) in
  content ← GenericWriter.Write (SDict (iterate msgContent));
  Ok (DetMsg.mk 0 (DetMsgId.mk (str "PubSub.Subscribe") []) content).
End emitted.

Definition BlkNumFromBytesBase (b : bytes) : result AdvError Z := rlp (U64_FromBytes b).

(** What is logged; the byte strings are printed in hexadecimal. *)
Inductive LogLine :=
| ReceivedHeartbeat (latestBlkNum chkptNum : Z) (chkptHash : bytes)
| ReceivedEvents (size : Z)
| ReceivedData (data : bytes) (blkNum : Z).

#[export] Instance LogLine_eq_dec : EqDecision LogLine.
Proof. solve_decision. Defined.

Definition logged (line : LogLine) : stx (list LogLine) AdvError unit := fun log => (log ++ [line], Ok tt).
Definition lift_log {A} (r : result AdvError A) : stx (list LogLine) AdvError A := fun log => (log, r).

Fixpoint HandleRevokeEvent_loop (evList : list Object) : stx (list LogLine) AdvError unit :=
  match evList with
  | [] => mret tt
  | ev :: evList =>
    evFields ← lift_log (AdvRlp.AsList ev);
    f0 ← lift_log (AdvRlp.at_index evFields 0);
    blkNumRef ← lift_log (AdvRlp.AsBytes f0);
    f1 ← lift_log (AdvRlp.at_index evFields 1);
    evDataRef ← lift_log (AdvRlp.AsBytes f1);
    blkNum ← lift_log (BlkNumFromBytesBase blkNumRef);
    logged (ReceivedData evDataRef blkNum) ;;
    HandleRevokeEvent_loop evList
  end.

Definition HandleRevokeEvent (evList : list Object) : stx (list LogLine) AdvError unit :=
  logged (ReceivedEvents (zlen evList)) ;;
  HandleRevokeEvent_loop evList.

Definition HandleEthHeartbeatMsg (msgAdvRlp : bytes) : stx (list LogLine) AdvError unit :=
  msg ← lift_log (AdvRlp.Parse msgAdvRlp);
  msgDict ← lift_log (AdvRlp.AsDict msg);
  o ← lift_log (AdvRlp.Dict.at_ msgDict sk_labelSecState);
  secStateAdvRlp ← lift_log (AdvRlp.AsBytes o);
  o ← lift_log (AdvRlp.Dict.at_ msgDict sk_labelLatestBlkNum);
  latestBlkNumBytes ← lift_log (AdvRlp.AsBytes o);
  o ← lift_log (AdvRlp.Dict.at_ msgDict sk_labelEvents);
  evQueue ← lift_log (AdvRlp.AsList o);
  secState ← lift_log (@ParseMsg SecStateMsg _ secStateAdvRlp);
  latestBlkNum ← lift_log (BlkNumFromBytesBase latestBlkNumBytes);
  chkptNum ← lift_log (BlkNumFromBytesBase (checkpointNum (sm_state secState)));
  logged (ReceivedHeartbeat latestBlkNum chkptNum (checkpointHash (sm_state secState))) ;;
  HandleRevokeEvent evQueue.

(** ** Messages of a fixed shape *)

Definition DetMsgId_ok (i : DetMsgId.t) : Prop := hash_writable (SString (DetMsgId.MsgType i)) /\ all_bytes (DetMsgId.Ext i).
Definition DetMsg_ok (m : DetMsg.t) : Prop :=
  fits 32 (DetMsg.Version m) /\ DetMsgId_ok (DetMsg.MsgId m) /\ all_bytes (DetMsg.MsgContent m).
Definition ConfigMsg_ok (c : ConfigMsg) : Prop :=
  fits 32 (cm_SVN c) /\ hash_writable (SString (cm_chainName c)) /\ fits 64 (checkpointSize (cm_conf c)) /\
  fits 8 (minDiffPercent (cm_conf c)) /\ fits 64 (maxWaitTime (cm_conf c)) /\ fits 64 (syncMaxWaitTime (cm_conf c)).

(** A block number as the chain has it. *)
Definition number_ok (b : bytes) : Prop := all_bytes b /\ (length b <= 8)%nat.

Definition state_ok (s : MonitorSecState) : Prop :=
  all_bytes (genesisHash s) /\ fits 64 (checkpointIter s) /\ all_bytes (checkpointHash s) /\ number_ok (checkpointNum s).
Definition SecStateMsg_ok (s : SecStateMsg) : Prop := fits 32 (sm_SVN s) /\ state_ok (sm_state s).

Lemma unsigned_writable ty v : int_signed ty = false -> fits (int_bits ty) v -> int_writable ty v.
Proof. unfold int_writable, int_max, fits. intros ->. lia. Qed.

(** The members of a value of a shape, one by one. *)
Ltac of_shape_inv :=
  repeat match goal with
  | H : of_shape _ _ |- _ => inversion H; clear H; subst
  | H : Forall2 _ (_ :: _) _ |- _ => inversion H; clear H; subst
  | H : Forall2 _ [] _ |- _ => inversion H; clear H; subst
  end.

Ltac has_members := cbn; constructor; repeat constructor; try (by apply unsigned_writable); try done.

#[export] Instance DetMsgId_laws : StaticMsgLaws DetMsgId.t DetMsgId_ok.
Proof.
  split.
  - by intros [].
  - intros i [[Ht Hu] He]. by has_members.
  - intros o Ho. cbn in Ho. of_shape_inv. by eexists.
Qed.

#[export] Instance DetMsg_laws : StaticMsgLaws DetMsg.t DetMsg_ok.
Proof.
  split.
  - intros [v [ty ext] c]. done.
  - intros m (Hv & Hi & Hc). apply (shape_dict [ShInt UInt32; @msg_shape DetMsgId.t _; ShBytes]
      [SHashable (SInteger UInt32 (DetMsg.Version m)); msg_obj (DetMsg.MsgId m); SHashable (SBytes (DetMsg.MsgContent m))]).
    constructor; [constructor; by apply unsigned_writable|]. constructor; [exact (msg_has_shape _ Hi)|].
    constructor; [by constructor|constructor].
  - intros o Ho. cbn in Ho. of_shape_inv. by eexists.
Qed.

#[export] Instance ConfigMsg_laws : StaticMsgLaws ConfigMsg ConfigMsg_ok.
Proof.
  split.
  - by intros [? ? []].
  - intros c (H1 & [H2 H3] & H4 & H5 & H6 & H7). by has_members.
  - intros o Ho. cbn in Ho. of_shape_inv. by eexists.
Qed.

#[export] Instance SecStateMsg_laws : StaticMsgLaws SecStateMsg SecStateMsg_ok.
Proof.
  split.
  - by intros [? []].
  - intros s (H1 & H2 & H3 & H4 & [H5 H6]). by has_members.
  - intros o Ho. cbn in Ho. of_shape_inv. by eexists.
Qed.

Section static.
Context {A : Type} `{Laws : StaticMsgLaws A msg_ok}.

Lemma msg_written a : msg_ok a -> exists bs, WriteMsg a = Ok bs /\ (fits 64 (zlen bs) -> ParseMsg bs = Ok a).
Proof using Laws.
  intros Ha. destruct (shapes_read msg_shape (msg_obj a) (msg_has_shape a Ha)) as (bs & Hbs & Hr). exists bs. split; [done|].
  intros Hf. unfold ParseMsg, ParseShape. rewrite (ParseCtn_read _ bs (msg_obj a)) by (apply Hr; [done|lia]).
  cbn. by rewrite msg_of_obj.
Qed.

(** Every outcome of the parser is a value or an exception of the libraries. *)
Lemma msg_members bs a : ParseShape msg_shape bs = Ok a -> is_ok (@ParseMsg A _ bs) = true.
Proof using Laws.
  intros Hp. pose proof (ParseCtn_gives _ _ bs a (shapes_give msg_shape _) Hp) as Ho.
  apply msg_of_total in Ho as [x Hx]. unfold ParseMsg. rewrite Hp. cbn. by rewrite Hx.
Qed.
End static.

(** The configuration of the host is the one the enclave gets. *)
Lemma config_passed : (WriteMsg BuildEthereumMonitorConfig ≫= ParseConfig) = Ok BuildEthereumMonitorConfig.
Proof. reflexivity. Qed.

(** ** Messages that are dictionaries *)

Lemma keys_ok_map {A B} (f : A -> B) (d : list (Hashable * A)) : keys_ok (map fst d) -> keys_ok (map fst (map (fun p => (p.1, f p.2)) d)).
Proof. by rewrite map_map. Qed.

(** The order in which the hash map iterates is not in the canonical form. *)
Lemma canon_perm d d' : keys_ok (map fst d) -> d' ≡ₚ d -> canon (SDict d') = canon (SDict d).
Proof.
  intros Hk Hp. cbn [canon]. do 2 f_equal. apply sort_pairs_perm.
  - apply keys_ok_map. eapply keys_ok_perm; [|exact Hk]. by rewrite Hp.
  - by rewrite Hp.
  - by apply keys_ok_map.
Qed.

Lemma writable_perm d d' : d' ≡ₚ d -> writable (SDict d) -> writable (SDict d').
Proof.
  intros Hp Hw. inversion Hw as [| |? Hk Ha]; subst. constructor; [|by rewrite Hp].
  eapply keys_ok_perm; [|exact Hk]. by rewrite Hp.
Qed.

Lemma bytes_writable b : all_bytes b -> writable (bytes_obj b).
Proof. intros H. by constructor. Qed.

Lemma list_of_bytes_writable l : Forall all_bytes l -> writable (SList (map bytes_obj l)).
Proof. intros H. constructor. apply Forall_map. by eapply Forall_impl; [|apply bytes_writable]. Qed.

Lemma canon_bytes_list l : canon (SList (map bytes_obj l)) = SList (map bytes_obj l).
Proof. cbn. by rewrite map_map. Qed.

(** A part of what is written is shorter than the whole. *)
Lemma bytes_written_length b bs : all_bytes b -> GenericWriter.Write (bytes_obj b) = Ok bs -> (length b <= length bs)%nat.
Proof.
  intros Hb H. injection H as <-. unfold CatBytesWriter_Write, WriterBytes.Write, EncodeRlpList.SerializeBytes. rewrite map_u8_id by done.
  assert (length b <= length (EncodeRlpBytes.SerializeBytes b))%nat; [|rewrite length_app; cbn [length]; lia].
  unfold EncodeRlpBytes.SerializeBytes. case_match; [done|]. rewrite length_app. lia.
Qed.

Lemma concat_length (l : list bytes) x : x ∈ l -> (length x <= length (concat l))%nat.
Proof. intros (l1 & l2 & ->)%list_elem_of_split. rewrite concat_app. cbn. rewrite !length_app. lia. Qed.

Lemma part_shorter d bs p b : writable (SDict d) -> GenericWriter.Write (SDict d) = Ok bs -> p ∈ d ->
  GenericWriter.Write p.2 = Ok b -> (length b <= length bs)%nat.
Proof.
  intros Hw H Hin Hb. inversion Hw as [| |? Hk Ha]; subst. cbn [GenericWriter.Write] in H. rewrite sort_pairs_map in H.
  destruct (sort_pairs_spec d Hk) as (r & Hr & Hp & _). rewrite Hr in H. cbn [fmap result_fmap mbind result_bind] in H.
  bind_ok H. injection H as <-. rewrite <-dict_written in E. apply concat_bytes_inv in E as (encs & He & ->).
  unfold EncodeRlpList.SerializeBytes. rewrite length_app. cbn [length].
  assert (b ∈ encs) as Hbe; [|apply concat_length in Hbe; lia].
  assert (p.2 ∈ flat r) as Hf.
  { unfold flat. rewrite <-Hp in Hin. apply list_elem_of_In, in_concat. exists [SHashable p.1; p.2]. split; [|right; by left].
    apply in_map_iff. exists p. split; [done|]. by apply list_elem_of_In. }
  apply list_elem_of_In. apply list_elem_of_In in Hf. apply (in_map GenericWriter.Write) in Hf. rewrite He, Hb in Hf.
  apply in_map_iff in Hf as (? & [= ->] & ?). done.
Qed.

(** ** Heartbeats *)

Definition event_ok (ev : EventData) : Prop := exists n d, ev = [n; d] /\ number_ok n /\ all_bytes d.

(** A message of [BuildEmittedMsg] whose members are what the code puts in them. *)
Definition emitted_ok (m : Message) : Prop :=
  match m with
  | EmittedMsg secState latestBlkNum events => state_ok secState /\ number_ok latestBlkNum /\ Forall event_ok events
  | EmittedReceipts _ _ _ => False
  end.

Definition event_line (ev : EventData) : LogLine :=
  match ev with n :: d :: _ => ReceivedData d (be_val n) | _ => ReceivedData [] 0 end.

(** What a subscriber has to log for a message. *)
Definition lines_of (m : Message) : list LogLine :=
  match m with
  | EmittedMsg secState latestBlkNum events =>
    ReceivedHeartbeat (be_val latestBlkNum) (be_val (checkpointNum secState)) (checkpointHash secState) ::
    ReceivedEvents (zlen events) :: map event_line events
  | EmittedReceipts _ _ _ => []
  end.

Lemma number_read b : number_ok b -> BlkNumFromBytesBase b = Ok (be_val b).
Proof. intros [Hb Hl]. unfold BlkNumFromBytesBase. rewrite U64_FromBytes_spec by done. by rewrite decide_True. Qed.

Lemma events_writable events : Forall event_ok events -> writable (SList (map event_obj events)).
Proof.
  intros He. constructor. apply Forall_map. eapply Forall_impl; [exact He|]. intros ev (n & d & -> & [Hn _] & Hd).
  apply list_of_bytes_writable. by repeat constructor.
Qed.

Lemma events_canon events : canon (SList (map event_obj events)) = SList (map event_obj events).
Proof. cbn. rewrite map_map. f_equal. apply map_ext. intros ev. apply canon_bytes_list. Qed.

Lemma events_read events log : Forall event_ok events ->
  HandleRevokeEvent_loop (map event_obj events) log = (log ++ map event_line events, Ok tt).
Proof.
  intros He. revert log. induction He as [|ev events (n & d & -> & Hn & Hd) _ IH]; intros log; cbn [map].
  { unfold HandleRevokeEvent_loop, mret, stx_ret. by rewrite app_nil_r. }
  cbn [HandleRevokeEvent_loop]. unfold mbind, stx_bind, lift_log, logged. cbn -[BlkNumFromBytesBase]. rewrite number_read by done.
  rewrite IH. by rewrite <-app_assoc.
Qed.

Section emitted_laws.
Context `{Order : HashOrder}.

(** The dictionary of a message, and what the parser makes of it. *)
Definition emitted_dict (s latest : bytes) (events : EventDataQueue) : list (Hashable * Object) :=
  [(sk_labelSecState, bytes_obj s); (sk_labelLatestBlkNum, bytes_obj latest); (sk_labelEvents, SList (map event_obj events))].

Lemma emitted_writable s latest events : all_bytes s -> all_bytes latest -> Forall event_ok events ->
  writable (SDict (emitted_dict s latest events)).
Proof.
  intros Hs Hl He. constructor.
  - right. exists 1%nat, (map (fun s => map char_val (str s)) ["SecState"; "LatestBlkNum"; "Events"]). split; [reflexivity|].
    apply (bool_decide_unpack (NoDup _)). by vm_compute.
  - assert (hash_writable sk_labelSecState /\ hash_writable sk_labelLatestBlkNum /\ hash_writable sk_labelEvents) as (H1 & H2 & H3)
      by (split_and!; split; [byte_list|reflexivity|byte_list|reflexivity|byte_list|reflexivity]).
    apply Forall_cons_2; [split; [exact H1|by apply bytes_writable]|]. apply Forall_cons_2; [split; [exact H2|by apply bytes_writable]|].
    apply Forall_cons_2; [split; [exact H3|by apply events_writable]|constructor].
Qed.

Lemma emitted_canon s latest events : canon (SDict (emitted_dict s latest events)) =
  SDict [(sk_labelEvents, SList (map event_obj events)); (sk_labelLatestBlkNum, bytes_obj latest); (sk_labelSecState, bytes_obj s)].
Proof.
  unfold emitted_dict. cbn [canon map fst snd]. rewrite (map_map event_obj). rewrite (map_ext _ event_obj) by (intros ev; apply canon_bytes_list).
  reflexivity.
Qed.

Lemma emitted_fields s latest events :
  let d := [(sk_labelEvents, SList (map event_obj events)); (sk_labelLatestBlkNum, bytes_obj latest); (sk_labelSecState, bytes_obj s)] in
  AdvRlp.Dict.at_ d sk_labelSecState = Ok (bytes_obj s) /\ AdvRlp.Dict.at_ d sk_labelLatestBlkNum = Ok (bytes_obj latest) /\
  AdvRlp.Dict.at_ d sk_labelEvents = Ok (SList (map event_obj events)).
Proof. split_and!; reflexivity. Qed.

(** One heartbeat: the bytes are written, and reading them logs what was emitted. *)
Lemma heartbeat_read m : emitted_ok m -> exists bs, WireMsg m = Ok bs /\
  (fits 64 (zlen bs) -> forall log, HandleEthHeartbeatMsg bs log = (log ++ lines_of m, Ok tt)).
Proof using Order.
  destruct m as [secState latest events|]; [|done]. intros (Hs & [Hl Hl8] & He).
  destruct (msg_written (mkSecStateMsg 0 secState)) as (s & Hws & Hps); [by split|].
  assert (all_bytes s) as Hsb by (eapply has_shape_bytes; [apply (msg_has_shape (mkSecStateMsg 0 secState)); by split|exact Hws]).
  pose proof (emitted_writable s latest events Hsb Hl He) as Hw.
  pose proof (writable_perm _ _ (iterate_perm (emitted_dict s latest events)) Hw) as Hw'.
  destruct (writable_written _ Hw') as [bs Hbs]. exists bs. split; [cbn [WireMsg]; rewrite Hws; exact Hbs|]. intros Hf log.
  assert (AdvRlp.Parse bs = Ok (canon (SDict (emitted_dict s latest events)))) as Hp.
  { rewrite <-(canon_perm _ _ ltac:(by inversion Hw) (iterate_perm (emitted_dict s latest events))).
    apply ParseCtn_read, (writable_read _ Hw'); [done|done|lia]. }
  assert (fits 64 (zlen s)) as Hfs.
  { destruct (Write_hashable_ok (SBytes s) Hsb) as [x Hx]. pose proof (bytes_written_length s x Hsb Hx).
    pose proof (part_shorter _ bs (sk_labelSecState, bytes_obj s) x Hw' Hbs ltac:(rewrite iterate_perm; by left) Hx). word_lia. }
  rewrite emitted_canon in Hp. destruct (emitted_fields s latest events) as (E1 & E2 & E3).
  unfold HandleEthHeartbeatMsg, mbind, stx_bind, lift_log. rewrite Hp. cbn [AdvRlp.AsDict]. rewrite E1. cbn [AdvRlp.AsBytes bytes_obj].
  rewrite E2. cbn [AdvRlp.AsBytes bytes_obj]. rewrite E3. cbn [AdvRlp.AsList]. rewrite (Hps Hfs), (number_read latest) by done.
  cbn [sm_state]. rewrite (number_read (checkpointNum secState)) by apply Hs. unfold HandleRevokeEvent, logged, mbind, stx_bind.
  rewrite events_read, length_map by done. by rewrite <-!app_assoc.
Qed.
End emitted_laws.

(** ** A subscriber's log *)

(** The messages of a connection, as its receiver handles them one by one. *)
Fixpoint HandleAll (msgs : list bytes) : stx (list LogLine) AdvError unit :=
  match msgs with
  | [] => mret tt
  | msg :: msgs => HandleEthHeartbeatMsg msg ;; HandleAll msgs
  end.

(** The events in a log, and the event the client queued. *)
Definition logged_events (log : list LogLine) : list (bytes * Z) :=
  omap (fun line => match line with ReceivedData data num => Some (data, num) | _ => None end) log.
Definition reported (ev : EventData) : bytes * Z :=
  match ev with n :: d :: _ => (d, be_val n) | _ => ([], 0) end.

Definition sent (socket : nat) (w : W) : list Message := default [] (m_sent (w_owner w) !! socket).

Lemma logged_lines events : Forall event_ok events -> logged_events (map event_line events) = map reported events.
Proof. induction 1 as [|ev events (n & d & -> & _) _ IH]; [done|]. cbn. unfold logged_events in IH. by rewrite IH. Qed.

Lemma logged_app l1 l2 : logged_events (l1 ++ l2) = logged_events l1 ++ logged_events l2.
Proof. apply omap_app. Qed.

Lemma logged_message m : emitted_ok m -> logged_events (lines_of m) = map reported (message_events m).
Proof. destruct m as [s n events|]; [|done]. intros (_ & _ & He). exact (logged_lines events He). Qed.

Section reader.
Context `{Order : HashOrder}.

Lemma messages_read ms : Forall emitted_ok ms -> exists wire, Forall2 (fun m bs => WireMsg m = Ok bs) ms wire /\
  (Forall (fun bs => fits 64 (zlen bs)) wire -> forall log, HandleAll wire log = (log ++ concat (map lines_of ms), Ok tt)).
Proof using Order.
  induction 1 as [|m ms Hm _ (wire & Hw & IH)].
  { exists []. split; [constructor|]. intros _ log. cbn. unfold mret, stx_ret. by rewrite app_nil_r. }
  destruct (heartbeat_read m Hm) as (bs & Hbs & Hr). exists (bs :: wire). split; [by constructor|].
  intros [Hf Hfs]%Forall_cons log. cbn [HandleAll]. unfold mbind, stx_bind. rewrite Hr by done. rewrite IH by done.
  cbn [map concat]. by rewrite app_assoc.
Qed.

(** C4. The subscriber's side of the heartbeats, on the wire: whatever the client has
    sent on a connection, in any iteration order of its hash maps, the handler of
    the revoker reads every message without an exception and logs, message after
    message, exactly the events of those messages, in their order and with the
    numbers of their blocks (together with the delivery of events to the
    connection: every event of the publisher, once and in order, is logged at the
    subscriber). *)
Theorem revoker_reads_received socket w : Forall emitted_ok (sent socket w) ->
  exists wire, Forall2 (fun m bs => WireMsg m = Ok bs) (sent socket w) wire /\
    (Forall (fun bs => fits 64 (zlen bs)) wire ->
     (HandleAll wire []).2 = Ok tt /\ (HandleAll wire []).1 = concat (map lines_of (sent socket w)) /\
     logged_events (HandleAll wire []).1 = map reported (received socket w)).
Proof using Order.
  intros Hok. destruct (messages_read _ Hok) as (wire & Hw & Hr). exists wire. split; [exact Hw|]. intros Hf.
  rewrite (Hr Hf []). cbn [fst snd app]. split_and!; [done|done|]. unfold received. fold (sent socket w). clear -Hok.
  induction Hok as [|m ms Hm _ IH]; [done|]. cbn [map concat]. by rewrite logged_app, logged_message, IH, map_app.
Qed.
End reader.

(** ** A call from the request to the handler *)

Lemma str_bytes s : all_bytes (str s).
Proof.
  unfold str. apply Forall_map, Forall_forall. intros c _. pose proof (Ascii.N_ascii_bounded c). unfold fits. lia.
Qed.

Section call.
Context `{Alloc : Allocator} `{Heap : Malloc}.

(** What a call does, by the type and the content of its message. *)
Lemma HandleCall_run secState sendOk socket bs (w : W) :
  LambdaHandlerMgr.HandleCall (RegisteredHandlers secState sendOk) socket bs w =
  match @ParseMsg DetMsg.t _ bs with
  | Throw e => (w, Throw (FromWire e))
  | Ok m =>
    let content := DetMsg.MsgContent m in
    if decide (DetMsgId.MsgType (DetMsg.MsgId m) = str "PubSub.Subscribe") then
      match SubReq_args content with
      | Throw e => (w, Throw (FromWire e))
      | Ok pubAddr => let '(w', r) := SubReq secState sendOk socket pubAddr w in (w', app_err r)
      end
    else if decide (DetMsgId.MsgType (DetMsg.MsgId m) = str "Receipt.Subscribe") then
      match ReceiptSubReq_args content with
      | Throw e => (w, Throw (FromWire e))
      | Ok None => (w, Ok tt)
      | Ok (Some (conAddr, topics)) => let '(w', r) := ReceiptSubReq socket conAddr topics w in (w', app_err r)
      end
    else (w, Throw NoHandler)
  end.
Proof.
  unfold LambdaHandlerMgr.HandleCall. destruct (ParseMsg bs) as [[ver [ty ext] content]|e]; [|done].
  cbn [DetMsg.MsgId DetMsg.MsgContent DetMsgId.MsgType DetMsgId.Ext].
  unfold RegisteredHandlers, LambdaHandlerMgr.RegisterHandler. rewrite lookup_empty.
  assert (str "PubSub.Subscribe" <> str "Receipt.Subscribe") as Hne by discriminate. rewrite (lookup_insert_ne _ (str "PubSub.Subscribe") (str "Receipt.Subscribe")), lookup_empty by done.
  cbn [default app]. destruct (decide (ty = str "PubSub.Subscribe")) as [->|H1].
  - rewrite lookup_insert_ne, lookup_insert_eq by done. cbn [LambdaHandlerMgr.call_all]. unfold mbind, stx_bind, HandlePubsubSubReq.
    destruct (SubReq_args content) as [pub|e]; [|done]. destruct (SubReq secState sendOk socket pub w) as [w' [[]|e]]; [|done].
    by destruct (negb _ && _).
  - destruct (decide (ty = str "Receipt.Subscribe")) as [->|H2]; [|by rewrite !lookup_insert_ne, lookup_empty by done].
    rewrite lookup_insert_eq. cbn [LambdaHandlerMgr.call_all]. unfold mbind, stx_bind, HandleReceiptSubReq.
    destruct (ReceiptSubReq_args content) as [[[con topics]|]|e]; [|done|done].
    by destruct (ReceiptSubReq socket con topics w) as [w' [[]|e]].
Qed.

Context `{Order : HashOrder}.

Lemma publisher_dict addr : all_bytes addr -> exists content,
  GenericWriter.Write (SDict (iterate (set_item [] sk_labelPublisher (bytes_obj addr)))) = Ok content /\ all_bytes content /\
  (fits 64 (zlen content) -> SubReq_args content = Ok addr).
Proof.
  intros Ha. set (d := set_item [] sk_labelPublisher (bytes_obj addr)).
  assert (writable (SDict d)) as Hw.
  { constructor; [left; cbn; lia|]. apply Forall_singleton. split; [split; [apply str_bytes|reflexivity]|by apply bytes_writable]. }
  pose proof (writable_perm _ _ (iterate_perm d) Hw) as Hw'. destruct (writable_written _ Hw') as [content Hc].
  exists content. split; [done|]. split; [by apply (writable_bytes _ Hw')|]. intros Hf. unfold SubReq_args.
  assert (AdvRlp.Parse content = Ok (canon (SDict d))) as ->; [|reflexivity].
  rewrite <-(canon_perm d (iterate d)) by (left + apply iterate_perm; cbn; lia). apply ParseCtn_read, (writable_read _ Hw'); [done|done|lia].
Qed.
End call.

(** A part of a static dictionary is shorter than the whole. *)
Lemma member_shorter l bs o b : GenericWriter.Write (SStaticDict l) = Ok bs -> o ∈ l -> GenericWriter.Write o = Ok b ->
  (length b <= length bs)%nat.
Proof.
  intros H Hin Hb. cbn [GenericWriter.Write] in H. bind_ok H. injection H as <-. apply concat_bytes_inv in E as (encs & He & ->).
  unfold EncodeRlpList.SerializeBytes. rewrite length_app. cbn [length]. apply list_elem_of_In, (in_map GenericWriter.Write) in Hin.
  rewrite He, Hb in Hin. apply in_map_iff in Hin as (? & [= ->] & Hin%list_elem_of_In). apply concat_length in Hin. lia.
Qed.

Section subscribe.
Context `{Alloc : Allocator} `{Heap : Malloc} `{Order : HashOrder}.

(** C29. A call from one enclave to another: for every publisher the message of the
    revoker is written, and the handler table of the Ethereum client turns its bytes
    into the request for exactly that publisher; and a call whose bytes are not a
    message, whose type has no handler or whose content does not name a
    publisher (a contract and its topics) ends without changing the server. *)
Theorem subscribe_call_served secState sendOk socket (w : W) :
  (forall publisherAddr, all_bytes publisherAddr -> exists msg bs,
    BuildSubscribeMsg publisherAddr = Ok msg /\ MakeLambdaCall msg = Ok bs /\
    (fits 64 (zlen bs) -> LambdaHandlerMgr.HandleCall (RegisteredHandlers secState sendOk) socket bs w =
      let '(w', r) := SubReq secState sendOk socket publisherAddr w in (w', app_err r))) /\
  forall bs,
    (forall m, ParseMsg bs = Ok m ->
      (DetMsgId.MsgType (DetMsg.MsgId m) = str "PubSub.Subscribe" -> is_ok (SubReq_args (DetMsg.MsgContent m)) = false) /\
      (DetMsgId.MsgType (DetMsg.MsgId m) = str "Receipt.Subscribe" -> forall args, ReceiptSubReq_args (DetMsg.MsgContent m) <> Ok (Some args))) ->
    LambdaHandlerMgr.ecall_decent_lambda_handler (RegisteredHandlers secState sendOk) socket bs w = w.
Proof.
  split.
  - intros addr Ha. destruct (publisher_dict addr Ha) as (content & Hc & Hcb & Hargs). unfold BuildSubscribeMsg. rewrite Hc.
    set (msg := DetMsg.mk 1 (DetMsgId.mk (str "PubSub.Subscribe") []) content).
    assert (DetMsg_ok msg) as Hok by (split_and!; [done|split; [split; [apply str_bytes|reflexivity]|constructor]|done]).
    destruct (msg_written msg Hok) as (bs & Hbs & Hp). eexists _, bs. split; [done|]. split; [exact Hbs|]. intros Hf.
    rewrite HandleCall_run, Hp by done. cbn [msg DetMsg.MsgContent DetMsg.MsgId DetMsgId.MsgType]. rewrite decide_True by done.
    rewrite Hargs; [done|]. destruct (Write_hashable_ok (SBytes content) Hcb) as [x Hx]. pose proof (bytes_written_length content x Hcb Hx).
    pose proof (member_shorter _ bs (bytes_obj content) x Hbs ltac:(right; right; by left) Hx). word_lia.
  - intros bs Hno. unfold LambdaHandlerMgr.ecall_decent_lambda_handler. rewrite HandleCall_run.
    destruct (ParseMsg bs) as [m|e]; [|done]. destruct (Hno m eq_refl) as [H1 H2]. cbn zeta. case_decide as E1.
    { specialize (H1 E1). by destruct (SubReq_args _). }
    case_decide as E2; [|done]. specialize (H2 E2). destruct (ReceiptSubReq_args _) as [[[con topics]|]|e]; [|done|done].
    by destruct (H2 (con, topics)).
Qed.
End subscribe.

(** ** Witnesses *)

Definition sample_order : HashOrder := {| iterate := @rev _; iterate_perm := fun d => symmetry (Permutation_rev d) |}.

Definition sample_message : Message :=
  EmittedMsg (mkSecState (replicate 32 1) 7 (replicate 32 2) [0x1B; 0x5D]) [0x1B; 0x60] [[[0x1B; 0x5F]; [0xCA; 0xFE]]; [[0x1B; 0x60]; []]].

Definition sample_world : W :=
  mkWorld ∅ EventManager.create
    (mkOwner (PubsubServiceStore.create [] [] [] []) ∅ ∅ [] {[ 5%nat := [sample_message] ]} (mkManager 0 [] 0 [])).

Lemma sample_emitted_ok : Forall emitted_ok (sent 5 sample_world).
Proof.
  apply Forall_singleton. split; [split_and!; [byte_list|by vm_compute|byte_list|split; [byte_list|cbn; lia]]|].
  split; [split; [byte_list|cbn; lia]|].
  repeat apply Forall_cons_2; [..|constructor]; (eexists _, _; split; [reflexivity|]; split; [split; [byte_list|cbn; lia]|byte_list]).
Qed.

Lemma revoker_reads_received_witness : exists wire,
  Forall2 (fun m bs => @WireMsg sample_order m = Ok bs) [sample_message] wire /\
  (Forall (fun bs => fits 64 (zlen bs)) wire ->
   logged_events (HandleAll wire []).1 = [([0xCA; 0xFE], 7007); ([], 7008)]).
Proof.
  destruct (@revoker_reads_received sample_order 5 sample_world sample_emitted_ok) as (wire & Hw & H). exists wire.
  split; [exact Hw|]. intros Hf. exact (proj2 (proj2 (H Hf))).
Defined.

#[local] Instance call_malloc : Malloc := {|
  new_listener := fun m => 0; new_queue := fun A m => 0%nat |}.
#[local] Instance call_allocator : Allocator := fun n => n <? 2 ^ 20.

(** A request for an unknown publisher is answered by closing the connection. *)
Lemma subscribe_call_served_witness : exists bs,
  (@BuildSubscribeMsg sample_order (replicate 20 9) ≫= MakeLambdaCall) = Ok bs /\
  LambdaHandlerMgr.HandleCall (RegisteredHandlers (mkSecState [] 0 [] []) true) 4 bs sample_world = (sample_world, Ok tt) /\
  LambdaHandlerMgr.ecall_decent_lambda_handler (RegisteredHandlers (mkSecState [] 0 [] []) true) 4 [0xC0] sample_world = sample_world.
Proof.
  destruct (subscribe_call_served (Order := sample_order) (mkSecState [] 0 [] []) true 4 sample_world) as [Hserved Hno].
  destruct (Hserved (replicate 20 9) ltac:(byte_list)) as (msg & bs & Hm & Hb & Hcall). exists bs.
  split; [rewrite Hm; exact Hb|]. split.
  - rewrite Hcall; [vm_compute; reflexivity|]. vm_compute in Hm. injection Hm as <-. vm_compute in Hb. injection Hb as <-. split; vm_compute; congruence.
  - apply Hno. intros m Hp. vm_compute in Hp. discriminate Hp.
Defined.
