(* ===== verification/BlockchainMgr.v ===== *)
(** * The blockchain manager

    [EthereumClt/Trusted/HostBlockService.hpp]: what the enclave asks the host;
    [BlockchainMgr.hpp]: the owner of the eclipse monitor, whose callbacks check
    the events of every validated block and report the state of the monitor.
    Here the components are put together: the application that follows a chain
    and serves the subscribers. *)

From stdpp Require Import strings gmap.
From S2P Require Import Prelude RlpEncoding RlpDecoding Keccak Bloom EthHeader Difficulty Trie TrieHash Receipts Events Checkpoint Monitor Abi Heartbeat Pubsub Follow.

(** ** The host *)

(** The two ocalls.  What the host answers may differ from call to call; [None]
    is a status other than success. *)
Class Host := {
  ocall_get_receipts : nat -> Z -> option bytes;
  ocall_get_latest_blknum : nat -> option Z }.

Module HostBlockService.
Section service.
Context `{Answers : Host}.

Definition ocall_failed : Error := FromStd "SgxRuntimeError".

(** [CopyToContainer] takes the address of the first element. *)
Definition GetReceiptsRlpByNum (call : nat) (blockNum : Z) : result Error Obj :=
  match ocall_get_receipts call blockNum with
  | None => Throw ocall_failed
  | Some [] => Throw (Undefined "first element of an empty vector")
  | Some rlp => lift_rlp (GeneralParser.Parse rlp true)
  end.

Definition GetLatestBlockNum (call : nat) : result Error Z :=
  match ocall_get_latest_blknum call with
  | None => Throw ocall_failed
  | Some n => Ok n
  end.
End service.
End HostBlockService.

(** ** The manager *)

Local Abbreviation W := (World Owner).
Local Abbreviation Call := (stx (Shared Owner) Error).

Definition with_mgr (m : Manager) (o : Owner) : Owner :=
  mkOwner (m_svcStore o) (m_queues o) (m_receiptQueues o) (m_emitterList o) (m_sent o) m.
Definition set_mgr (m : Manager) (w : W) : W := mkWorld (w_states w) (w_events w) (with_mgr m (w_owner w)).
Definition mgr_of (w : W) : Manager := m_mgr (w_owner w).

Definition with_call (m : Manager) : Manager :=
  mkManager (m_lastChkptIter m) (m_lastValidatedBlkNum m) (S (m_hostCalls m)) (m_log m).

Module BlockchainMgr.
Section manager.
Context `{Details : ConfigDetails, DAAs : !DAASelector Details}.
Context `{Alloc : Allocator} `{Heap : Malloc} `{Answers : Host}.

Definition t : Type := EclipseMonitor.t GenericDiffCheckerImpl.t Validator.t Owner.

Definition MakeValidator : Validator.t := Validator.mk Calculator.
Definition MakeDiffChecker (mConfig : MonitorConfig) : GenericDiffCheckerImpl.t :=
  GenericDiffCheckerImpl.create mConfig Estimator.

(** A call on the objects behind the event manager. *)
Definition on_world {A} (f : stx W Error A) : Call A := fun sh =>
  let '(w, r) := f (sh_world sh) in
  (mkShared w (m_startBlockNum sh) (m_bootstrapIEndBlkNum sh) (m_planedSyncBlkNum sh), r).

(** A question to the host; the calls are numbered. *)
Definition ask {A} (f : nat -> result Error A) : stx W Error A := fun w =>
  (set_mgr (with_call (mgr_of w)) w, f (m_hostCalls (mgr_of w))).

(** [receiptsMgrGetter]. *)
Definition receiptsMgrGetter (call : nat) (blkNum : Z) : result Error ReceiptsMgr.t :=
  obj ← HostBlockService.GetReceiptsRlpByNum call blkNum;
  receipts ← AsList obj;
  ReceiptsMgr.create receipts.

(** The call's number is used up also if the receipts are not needed. *)
Definition CheckBlock (hdr : HeaderMgr.t) : stx W Error unit := fun w =>
  let call := m_hostCalls (mgr_of w) in
  let w := set_mgr (with_call (mgr_of w)) w in
  EventManager.CheckEvents SyncMsgMgr.handler (w_events w) hdr (receiptsMgrGetter call) w.

(** [RefreshBootstrapPlan] with the host's latest block. *)
Definition RefreshPlan (vis : Visible) : Call unit :=
  latestBlkNum ← on_world (ask HostBlockService.GetLatestBlockNum);
  EclipseMonitor.RefreshPlan latestBlkNum None vis.

Definition RefreshAtEnd (vis : Visible) (hdr : HeaderMgr.t) : Call unit := fun sh =>
  if HeaderMgr.m_blkNum hdr =? m_bootstrapIEndBlkNum sh then RefreshPlan vis sh else (sh, Ok tt).

Definition validating (hdr : HeaderMgr.t) (w : W) : W :=
  let m := mgr_of w in
  set_mgr (mkManager (m_lastChkptIter m) (EthHeader.Number (HeaderMgr.m_rawHeader hdr)) (m_hostCalls m) (m_log m)) w.

Definition OnHeaderValidated (vis : Visible) (hdr : HeaderMgr.t) : Call unit :=
  on_world (fun w => (validating hdr w, Ok tt)) ;;
  on_world (CheckBlock hdr) ;;
  match vis_phase vis with
  | BootstrapI => RefreshAtEnd vis hdr
  | BootstrapII => RefreshPlan vis
  | _ => mret tt
  end.

(** The line that is logged. *)
Definition LogMonitorStatus (vis : Visible) (m : Manager) : Manager :=
  let phaseStr := match vis_phase vis with
                  | BootstrapI => "BootstrapII"
                  | BootstrapII => "BootstrapII"
                  | Sync => "Sync"
                  | Runtime => "Runtime"
                  end%string in
  let secState := vis_secState vis in
  mkManager (m_lastChkptIter m) (m_lastValidatedBlkNum m) (m_hostCalls m)
    (m_log m ++ [(phaseStr, genesisHash secState, checkpointHash secState, checkpointIter secState)]).

Definition OnHeaderConfirmed (vis : Visible) (hdr : HeaderMgr.t) : Call unit :=
  on_world (fun w =>
    let m := mgr_of w in
    let chkptIter := checkpointIter (vis_secState vis) in
    if m_lastChkptIter m =? chkptIter then (w, Ok tt)
    else
      let m := mkManager chkptIter (m_lastValidatedBlkNum m) (m_hostCalls m) (m_log m) in
      let logStatus := match vis_phase vis with
                       | BootstrapI => chkptIter mod 3 =? 0
                       | _ => true
                       end in
      (set_mgr (if logStatus then LogMonitorStatus vis m else m) w, Ok tt)).

#[export] Instance Callbacks : HeaderCallbacks Owner := fun vis n =>
  match n with
  | Validated hdr => OnHeaderValidated vis hdr
  | Confirmed hdr => OnHeaderConfirmed vis hdr
  end.

#[export] Instance Checker : DiffChecker GenericDiffCheckerImpl.t := Generic_checker Details.
#[export] Instance Network : ValidatorBase Validator.t := Network_validator Details.

(** The constructor; [svcStore] is the state of the [SubscriberService] it gets. *)
Definition create (mConfig : MonitorConfig) (sessionID : bytes) (startBlockNum : Z) (syncContractAddr syncEventSign : bytes)
    (svcStore : PubsubServiceStore.t) (env : Env) : result Error t :=
  let owner := mkOwner svcStore ∅ ∅ [] ∅ (mkManager 0 [] 0 []) in
  st ← EclipseMonitor.create mConfig sessionID owner MakeValidator (MakeDiffChecker mConfig)
    syncContractAddr (Keccak256 syncEventSign) env;
  let body : EclipseMonitor.M unit :=
    latestBlkNum ← EclipseMonitor.on_shared (fun _ => on_world (ask HostBlockService.GetLatestBlockNum));
    EclipseMonitor.RefreshBootstrapPlan latestBlkNum (Some startBlockNum) ;;
    EclipseMonitor.on_shared (fun _ => on_world Start) in
  match body st with
  | (st, Ok _) => Ok st
  | (_, Throw e) => Throw e
  end.

Definition AppendBlock (headerRlp : bytes) (env : Env) : t -> t * result Error unit :=
  EclipseMonitor.Update headerRlp env.

Definition GetMonitorSecState (st : t) : MonitorSecState := EclipseMonitor.m_mSecState st.
Definition GetLastValidatedBlkNum (st : t) : bytes := m_lastValidatedBlkNum (mgr_of (EclipseMonitor.m_world st)).

(** A call of the services that work on the shared objects. *)
Definition serve {A} (f : stx W Error A) (st : t) : t * result Error A :=
  EclipseMonitor.on_shared (fun _ => on_world f) st.
End manager.
End BlockchainMgr.
#[export] Existing Instances BlockchainMgr.Callbacks BlockchainMgr.Checker BlockchainMgr.Network.

(** ** The addresses of listeners *)

Section addresses.
Context `{Alloc : Allocator} `{Heap : Malloc}.

(** No sync state is new, and every new listener has an address that was
    allocated for a listener of the application. *)
Record adds (w w' : W) : Prop := {
  adds_states : forall ref, w_states w !! ref = None -> w_states w' !! ref = None;
  adds_events : forall id e, w_events w' !! id = Some e -> w_events w !! id = Some e \/ exists m, id = new_listener m }.

#[export] Instance adds_preorder : PreOrder adds.
Proof.
  split.
  - intros w. split; auto.
  - intros w1 w2 w3 [S1 E1] [S2 E2]. split; [auto|]. intros id e [He|?]%E2; [by apply E1 in He|by right].
Qed.

(** A change of the owner, with listeners that may go away. *)
Lemma adds_cancel (w : W) ev o : (forall id e, ev !! id = Some e -> w_events w !! id = Some e) ->
  adds w (mkWorld (w_states w) ev o).
Proof. intros He. split; [done|]. intros id e Hi. left. by apply He. Qed.

Lemma adds_listening (w : W) ev d o : (forall id e, ev !! id = Some e -> w_events w !! id = Some e) ->
  adds w (mkWorld (w_states w) (listening d ev) o).
Proof.
  intros He. split; [done|]. intros id e [Hi|[-> _]]%Listen_lookup; [left; by apply He|by right; eexists].
Qed.

Lemma handler_adds cb hdr log id (w : W) : adds w (SyncMsgMgr.handler cb hdr log id w).1.
Proof.
  assert (forall v : W, adds v v) as Hrefl by (intros v; reflexivity).
  destruct cb as [ref|user].
  - cbn. destruct (w_states w !! ref) as [s|] eqn:Es; [|apply Hrefl]. split; cbn.
    + intros r Hr. destruct (SyncState.m_isSynced s); [done|]. rewrite lookup_insert_ne; [done|]. congruence.
    + intros i e Hi. left. by eapply Cancel_lookup.
  - cbn. unfold user_run, Pubsub_handler. destruct user as [| | |q|q].
    + rewrite DeployEventHandler_run. apply adds_listening. intros i e Hi. by eapply Cancel_lookup.
    + pose proof (RegEventHandler_run log w) as Hr. destruct (registration log) as [[pub mgr]|].
      * rewrite Hr. by apply adds_listening.
      * destruct Hr as [e ->]. apply Hrefl.
    + pose proof (NotifyPastEventHandler_run hdr log w) as Hr. destruct (ParseEventMsg log); rewrite Hr; [|apply Hrefl].
      destruct (_ !! _); [by apply adds_cancel|apply Hrefl].
    + pose proof (NotifyEventHandler_run q hdr log w) as Hr. destruct (ParseEventMsg log); rewrite Hr; [|apply Hrefl].
      by apply adds_cancel.
    + rewrite SubscribedReceiptHandler_run. by apply adds_cancel.
Qed.

(** What every callback keeps, the check of a block keeps. *)
Lemma run_logs_adds hdr id cb logs (w : W) : adds w (EventManager.run_logs SyncMsgMgr.handler hdr id cb logs w).1.
Proof.
  revert w. induction logs as [|log logs IH]; intros w; cbn [EventManager.run_logs]; [reflexivity|].
  unfold mbind, stx_bind. pose proof (handler_adds cb hdr log id w) as Hh.
  destruct (SyncMsgMgr.handler cb hdr log id w) as [w1 [[]|e]]; [|done]. etrans; [exact Hh|apply IH].
Qed.

Lemma conduct_adds hdr plans (w : W) : adds w (EventManager.ConductCallbackPlan SyncMsgMgr.handler hdr plans w).1.
Proof.
  revert w. induction plans as [|[[id cb] logs] plans IH]; intros w; cbn [EventManager.ConductCallbackPlan]; [reflexivity|].
  unfold mbind, stx_bind. pose proof (run_logs_adds hdr id cb logs w) as Hh.
  destruct (EventManager.run_logs _ hdr id cb logs w) as [w1 [[]|e]]; [|done]. etrans; [exact Hh|apply IH].
Qed.

Lemma CheckEvents_adds m hdr getter (w : W) : adds w (EventManager.CheckEvents SyncMsgMgr.handler m hdr getter w).1.
Proof. unfold EventManager.CheckEvents. destruct (EventManager.PlanEvents _ _ _); [apply conduct_adds|reflexivity]. Qed.

Lemma SubReq_adds secState sendOk socket pubAddr (w : W) : adds w (SubReq secState sendOk socket pubAddr w).1.
Proof.
  rewrite SubReq_run. cbn zeta. destruct (bool_decide _); [reflexivity|]. destruct sendOk; by apply adds_listening.
Qed.

Lemma ReceiptSubReq_adds socket conAddr topics (w : W) : adds w (ReceiptSubReq socket conAddr topics w).1.
Proof.
  rewrite ReceiptSubReq_run. cbn zeta. destruct (_ && _); [by apply adds_listening|reflexivity].
Qed.

Lemma EmitAll_adds secState sendOk (w : W) : adds w (EmitAll secState sendOk w).
Proof.
  unfold EmitAll, HeartbeatEmitterMgr.EmitAll.
  pose proof (Heartbeat.EmitAll_loop_inv (run_emitter secState sendOk) (fun _ _ v => adds w v) (m_emitterList (w_owner w))
    (mkWorld (w_states w) (w_events w) (with_emitterList [] (w_owner w)))) as Hloop.
  destruct (HeartbeatEmitterMgr.EmitAll_loop _ _ _) as [v valid]. etrans; [|by apply adds_cancel].
  apply Hloop; [|by apply adds_cancel]. intros em l1 l2 s Hs.
  assert (adds s (run_emitter secState sendOk em s).1) as Hr.
  { destruct em as [so q id|so q id]; cbn [run_emitter]; [rewrite EmitterHandler_run|rewrite SubscribedReceiptEmitter_run];
      cbn zeta; destruct (sendOk _); apply adds_cancel; intros i e; [done|apply Cancel_lookup|done|apply Cancel_lookup]. }
  destruct (run_emitter secState sendOk em s) as [s' [x|x]]; (etrans; [exact Hs|exact Hr]).
Qed.
End addresses.

(** ** The application *)

Section application.
Context `{Details : ConfigDetails, DAAs : !DAASelector Details}.
Context `{Alloc : Allocator} `{Heap : Malloc, HeapLaws : !MallocLaws} `{Answers : Host}.
Local Abbreviation t := BlockchainMgr.t.

(** The callback for confirmed headers only updates the manager. *)
Lemma OnHeaderConfirmed_run vis hdr sh : exists mgr, BlockchainMgr.OnHeaderConfirmed vis hdr sh =
  (mkShared (set_mgr mgr (sh_world sh)) (m_startBlockNum sh) (m_bootstrapIEndBlkNum sh) (m_planedSyncBlkNum sh), Ok tt).
Proof.
  unfold BlockchainMgr.OnHeaderConfirmed, BlockchainMgr.on_world.
  destruct (_ =? _); [exists (mgr_of (sh_world sh))|by eexists]. by destruct sh as [[? ? []]].
Qed.

#[export] Instance Callbacks_laws : HeaderCallbacksLaws Owner.
Proof. intros vis h sh. destruct (OnHeaderConfirmed_run vis h sh) as [m E]. by eexists. Qed.

(** The service the manager is given, and the addresses the monitor's listeners
    may have: the application's listeners get others. *)
Context (svc : PubsubServiceStore.t) (Reserved : Z -> Prop).
Context (Apart : forall m, ~ Reserved (new_listener m)).
Context (Managers0 : PubsubServiceStore.m_evMgrAddrMap svc = ∅) (Past0 : PubsubServiceStore.m_pastEventStore svc = ∅).

(** *** The blocks behind the headers *)

(** The receipts of a block: their root is the header's, the header's bloom
    covers their logs, and the contracts of the service made the logs of the
    service, at most one deployment among them. *)
Record receipts_of (hdr : HeaderMgr.t) (rs : list bytes) (r : ReceiptsMgr.t) : Prop := {
  ro_fits : zlen rs < 2 ^ 64 /\ Forall all_bytes rs /\ items_sizes_ok rs;
  ro_create : ReceiptsMgr.create (map OBytes rs) = Ok r;
  ro_root : ReceiptsMgr.m_rootHashBytes r = EthHeader.ReceiptsRoot (HeaderMgr.m_rawHeader hdr);
  ro_bloom : bloom_covers hdr (block_logs r);
  ro_decodes : forallb (decodes svc) (block_logs r) = true;
  ro_deploys : (length (deploys svc (block_logs r)) <= 1)%nat }.

(** A header of the chain, and its logs. *)
Definition genuine_block (b : Block) : Prop := exists rs r, receipts_of b.1 rs r /\ b.2 = block_logs r.
Definition genuine (hdr : HeaderMgr.t) : Prop := exists logs, genuine_block (hdr, logs).

(** The lists the host delivers are as long as a process can hold. *)
Context (Host_fits : forall call blkNum rlp rs, ocall_get_receipts call blkNum = Some rlp ->
  GeneralParser.Parse rlp true = Ok (OList (map OBytes rs)) ->
  zlen rs < 2 ^ 64 /\ Forall all_bytes rs /\ items_sizes_ok rs).

(** Two different messages with one digest, in the tries of a block's receipts
    and of the ones the host has delivered for it. *)
Definition collision : Prop := exists hdr rs r call rlp rs',
  receipts_of hdr rs r /\ ocall_get_receipts call (HeaderMgr.m_blkNum hdr) = Some rlp /\
  GeneralParser.Parse rlp true = Ok (OList (map OBytes rs')) /\ rs' <> rs /\ items_collision rs' rs.

(** The manager's getter delivers the block's receipts, or the check fails before
    any callback, or there is a collision. *)
Lemma getter_cases {Cb} (m : EventManager.t Cb) hdr rs r call : receipts_of hdr rs r ->
  let planned := EventManager.PlanEvents m hdr (BlockchainMgr.receiptsMgrGetter call) in
  planned = EventManager.PlanEvents m hdr (fun _ => Ok r) \/ (exists e, planned = Throw e) \/ collision.
Proof using Host_fits.
  intros Hro. unfold EventManager.PlanEvents. destruct (EventManager.BloomEventDesc_Locked _ _) as [|e0 es]; [by left|].
  destruct (BlockchainMgr.receiptsMgrGetter call (HeaderMgr.m_blkNum hdr)) as [r'|e] eqn:E; [|right; left; by eexists].
  cbn. case_bool_decide as Hr; [right; left; by eexists|].
  unfold BlockchainMgr.receiptsMgrGetter, HostBlockService.GetReceiptsRlpByNum in E.
  destruct (ocall_get_receipts call _) as [[|b rlp]|] eqn:Eo; [done| |done].
  bind_ok E. bind_ok E. unfold lift_rlp in E0. destruct (GeneralParser.Parse (b :: rlp) true) as [o|] eqn:Ep; [|done].
  injection E0 as ->. unfold AsList in E1. destruct a as [|l| |]; try done. injection E1 as ->.
  destruct (receipts_create_ok _ _ E) as (rs' & _ & -> & _). destruct Hro as [(L & B & Z) C R Bl De D1].
  destruct (Host_fits call _ _ _ Eo Ep) as (L' & B' & Z').
  destruct (receipts_same_root rs' rs r' r) as [->|Hc]; try done; [by rewrite Hr| |].
  - assert (r' = r) as -> by congruence. left. rewrite bool_decide_eq_false_2; [done|]. by intros Hn.
  - destruct (decide (rs' = rs)) as [->|Hne].
    + assert (r' = r) as -> by congruence. left. rewrite bool_decide_eq_false_2; [done|]. by intros Hn.
    + right. right. by exists hdr, rs, r, call, (b :: rlp), rs'.
Qed.

(** *** What the manager has established *)

(** The listeners at the addresses of the monitor are sync listeners. *)
Definition reserved_ok (w : W) : Prop := forall id e, Reserved id -> w_events w !! id = Some e ->
  exists ref, EventDescription.m_notifyCallback e = OnSync ref.

Lemma adds_reserved w w' : adds w w' -> reserved_ok w -> reserved_ok w'.
Proof using Apart. intros [_ He] Hr id e Hid [Hi|[m ->]]%He; [by eapply Hr|by apply Apart in Hid]. Qed.

(** The service has been shown the blocks of all these headers, and only blocks
    of the chain. *)
Record serving (hs : list HeaderMgr.t) (m : SyncMsgMgr.t) (w : W) (bs : list Block) : Prop := {
  sv_serves : serves svc bs w;
  sv_genuine : Forall genuine_block bs;
  sv_seen : forall h, h ∈ hs -> h ∈ map fst bs;
  sv_reserved : reserved_ok w;
  sv_sync : Reserved (SyncMsgMgr.m_syncEventCallbackId m) }.

Definition established (hs : list HeaderMgr.t) (m : SyncMsgMgr.t) (w : W) : Prop :=
  collision \/ exists bs, serving hs m w bs.

(** The addresses of a call. *)
Definition fresh_env (env : Env) (w : W) : Prop :=
  w_states w !! env_stateRef env = None /\ w_events w !! env_listenerAddr env = None /\ Reserved (env_listenerAddr env).

Lemma adds_fresh env w w' : adds w w' -> fresh_env env w -> fresh_env env w'.
Proof using Apart.
  intros [Hs He] (H1 & H2 & H3). split_and!; [auto| |done]. apply eq_None_not_Some. intros [e [Hi|[m Hm]]%He]; [congruence|].
  apply (Apart m). by rewrite <-Hm.
Qed.

Lemma serving_mgr hs m w bs mgr : serving hs m w bs -> serving hs m (set_mgr mgr w) bs.
Proof. intros [S G H R Y]. split; try done. eapply serves_quiet; [done|apply step_manager]. Qed.

(** The check of a genuine block shows it to the service, once it returns. *)
Lemma CheckBlock_serving hs m w bs hdr : serving hs m w bs -> genuine hdr ->
  let '(w', r) := BlockchainMgr.CheckBlock hdr w in
  collision \/ exists bs', serving (match r with Ok _ => hs ++ [hdr] | Throw _ => hs end) m w' bs'.
Proof using HeapLaws Apart Host_fits.
  intros Hs (logs & rs & r & Hro & _). unfold BlockchainMgr.CheckBlock.
  set (w1 := set_mgr _ w). assert (serving hs m w1 bs) as H1 by by apply serving_mgr.
  pose proof (CheckEvents_adds (w_events w1) hdr (BlockchainMgr.receiptsMgrGetter (m_hostCalls (mgr_of w))) w1) as Hadds.
  pose proof (getter_cases (w_events w1) hdr rs r (m_hostCalls (mgr_of w)) Hro) as Hg.
  destruct (EventManager.CheckEvents _ _ _ _ w1) as [w' res] eqn:Hc. cbn [fst] in Hadds.
  destruct Hg as [Hg|[[e Hg]|?]]; [right|right|by left]; unfold EventManager.CheckEvents in Hc; rewrite Hg in Hc.
  2:{ injection Hc as <- <-. by exists bs. }
  destruct H1 as [S G H R Y]. destruct (serves_inv svc [] bs w1 S) as (Hw & Hsub & _).
  assert (checks svc w1 hdr (fun _ => Ok r) r) as Hch.
  { destruct Hro. split; try done. by eapply block_decodes_of. }
  destruct (check_block svc [] w1 hdr _ r Hw Hsub Hch) as (w2 & Hr & _).
  assert (w2 = w' /\ res = Ok tt) as [-> ->].
  { unfold EventManager.CheckEvents in Hr. rewrite Hc in Hr. by injection Hr. }
  exists (bs ++ [(hdr, block_logs r)]). split; [|..|done].
  - eapply serves_step; [exact S|]. by eapply step_block; [exact Hch|exact Hr].
  - apply Forall_app. split; [done|]. apply Forall_singleton. by exists rs, r.
  - intros h [Hh|Hh%list_elem_of_singleton]%elem_of_app; rewrite map_app; apply elem_of_app; [left; auto|right]. subst h. left.
  - by eapply adds_reserved.
Qed.

(** A call that only updates the manager. *)
Lemma RefreshPlan_world vis sh : exists mgr, sh_world (BlockchainMgr.RefreshPlan vis sh).1 = set_mgr mgr (sh_world sh).
Proof.
  exists (with_call (mgr_of (sh_world sh))).
  unfold BlockchainMgr.RefreshPlan, BlockchainMgr.on_world, BlockchainMgr.ask, mbind, stx_bind.
  destruct (HostBlockService.GetLatestBlockNum _) as [n|e]; [|done]. unfold EclipseMonitor.RefreshPlan.
  destruct (vis_phase vis); try done. cbn. by destruct (EclipseMonitor.CalcBootstrapIEndBlkNum _ _ _).
Qed.

Lemma mgr_refl (w : W) : w = set_mgr (mgr_of w) w.
Proof. by destruct w as [? ? []]. Qed.

(** What the callback for validated headers does: the check, and the manager. *)
Lemma OnHeaderValidated_run vis hdr sh : exists mgr,
  let '(w', r) := BlockchainMgr.CheckBlock hdr (BlockchainMgr.validating hdr (sh_world sh)) in
  let '(sh2, r') := BlockchainMgr.OnHeaderValidated vis hdr sh in
  match r with Ok _ => sh_world sh2 = set_mgr mgr w' | Throw e => sh_world sh2 = w' /\ r' = Throw e end.
Proof.
  unfold BlockchainMgr.OnHeaderValidated, BlockchainMgr.on_world, mbind, stx_bind. cbn [sh_world].
  destruct (BlockchainMgr.CheckBlock hdr _) as [w' [[]|e]]; [|by exists (mgr_of w')].
  cbn [m_startBlockNum m_bootstrapIEndBlkNum m_planedSyncBlkNum].
  set (sh1 := mkShared w' _ _ _).
  destruct (RefreshPlan_world vis sh1) as [mgr' Hm]. change (sh_world sh1) with w' in Hm.
  destruct (vis_phase vis); unfold BlockchainMgr.RefreshAtEnd.
  - destruct (_ =? _); [exists mgr'; by destruct (BlockchainMgr.RefreshPlan vis sh1)|]. exists (mgr_of w'). apply mgr_refl.
  - exists mgr'. by destruct (BlockchainMgr.RefreshPlan vis sh1).
  - exists (mgr_of w'). apply mgr_refl.
  - exists (mgr_of w'). apply mgr_refl.
Qed.

(** The manager follows the monitor. *)
#[export] Instance manager_follows : Follower genuine established fresh_env.
Proof using HeapLaws Apart Host_fits.
  split.
  - intros hs m vis h sh sh' r [Hc|[bs Hs]] Hg Ho; [by left|]. unfold OnHeader, BlockchainMgr.Callbacks in Ho.
    destruct (OnHeaderValidated_run vis h sh) as (mgr & Hrun). rewrite Ho in Hrun.
    pose proof (CheckBlock_serving hs m (BlockchainMgr.validating h (sh_world sh)) bs h (serving_mgr _ _ _ _ _ Hs) Hg) as Hcb.
    destruct (BlockchainMgr.CheckBlock h _) as [w' rc]. destruct Hcb as [?|[bs' Hcb]]; [by left|right]. exists bs'.
    destruct rc as [[]|e].
    + rewrite Hrun. apply serving_mgr. destruct r; [done|]. destruct Hcb as [S G H R Y]. split; try done.
      intros x Hx. apply H, elem_of_app. by left.
    + destruct Hrun as [-> ->]. done.
  - intros hs m vis h sh sh' r [Hc|[bs Hs]] Ho; [by left|right]. unfold OnHeader, BlockchainMgr.Callbacks in Ho.
    destruct (OnHeaderConfirmed_run vis h sh) as [mgr E]. rewrite E in Ho. injection Ho as <- _.
    exists bs. by apply serving_mgr.
  - intros env vis n sh sh' r Hf Ho. unfold OnHeader, BlockchainMgr.Callbacks in Ho. destruct n as [h|h].
    + destruct (OnHeaderValidated_run vis h sh) as (mgr & Hrun). rewrite Ho in Hrun.
      assert (fresh_env env (BlockchainMgr.CheckBlock h (BlockchainMgr.validating h (sh_world sh))).1) as Hf'.
      { eapply adds_fresh; [apply CheckEvents_adds|exact Hf]. }
      destruct (BlockchainMgr.CheckBlock h _) as [w' [[]|e]]; [by rewrite Hrun|by destruct Hrun as [-> _]].
    + destruct (OnHeaderConfirmed_run vis h sh) as [mgr E]. rewrite E in Ho. by injection Ho as <- _.
  - intros hs m w env w' m' [Hc|[bs [S G H R Y]]] (F1 & F2 & F3) Hn; [by left|right]. exists bs.
    assert (EventManager.Cancel (w_events w) (SyncMsgMgr.m_syncEventCallbackId m) !! env_listenerAddr env = None) as Hid.
    { apply eq_None_not_Some. intros [e He%Cancel_lookup]. congruence. }
    destruct (env_disableRefresh env) eqn:Edev; [by injection Hn as <- <-|].
    split; try done.
    + eapply serves_quiet; [done|]. apply (step_NewSyncState svc w m false (env_syncTime env) (env_nonce env) (env_stateRef env) (env_listenerAddr env) w' m'); try done.
      intros e He. by apply (R _ e Y).
    + unfold SyncMsgMgr.NewSyncState, SyncMsgMgr.RegisterSyncEvent_Locked in Hn.
      cbn [w_events w_states w_owner EventManager.Listen] in Hn. rewrite Hid in Hn. injection Hn as <- _.
      intros id e Hr. cbn [w_events]. intros [[<- <-]|[_ Hi%Cancel_lookup]]%lookup_insert_Some; [by eexists|by eapply R].
    + unfold SyncMsgMgr.NewSyncState, SyncMsgMgr.RegisterSyncEvent_Locked in Hn.
      cbn [w_events w_states w_owner EventManager.Listen] in Hn. rewrite Hid in Hn. by injection Hn as _ <-.
Qed.

(** *** Runs of the application *)

(** What its threads do, one call at a time: the monitor is given headers, and
    subscribers and the heartbeat are served; a call may throw. *)
Inductive runs : t -> Prop :=
| runs_create conf sessionID startBlockNum addr sign env st :
    Reserved (env_listenerAddr env) ->
    BlockchainMgr.create conf sessionID startBlockNum addr sign svc env = Ok st -> runs st
| runs_AppendBlock st headerRlp env st' r : runs st -> fresh_env env (EclipseMonitor.m_world st) ->
    BlockchainMgr.AppendBlock headerRlp env st = (st', r) -> runs st'
| runs_SubReq st sendOk socket pubAddr st' r : runs st ->
    BlockchainMgr.serve (SubReq (BlockchainMgr.GetMonitorSecState st) sendOk socket pubAddr) st = (st', r) -> runs st'
| runs_ReceiptSubReq st socket conAddr topics st' r : runs st ->
    BlockchainMgr.serve (ReceiptSubReq socket conAddr topics) st = (st', r) -> runs st'
| runs_EmitAll st sendOk st' r : runs st ->
    BlockchainMgr.serve (fun w => (EmitAll (fun _ => BlockchainMgr.GetMonitorSecState st) sendOk w, Ok tt)) st = (st', r) ->
    runs st'.

Local Abbreviation tracked_by := (tracked (D := GenericDiffCheckerImpl.t) (V := Validator.t) established).

(** The new monitor, and the services. *)
Lemma create_tracked conf sessionID startBlockNum addr sign env st :
  Reserved (env_listenerAddr env) ->
  BlockchainMgr.create conf sessionID startBlockNum addr sign svc env = Ok st -> tracked_by [] st.
Proof using Apart Managers0 Past0.
  intros Hres Hc. unfold BlockchainMgr.create in Hc. bind_ok Hc. unfold EclipseMonitor.create in E. bind_ok E.
  destruct a0 as [w0 m]. injection E as <-. unfold SyncMsgMgr.create in E0. bind_ok E0.
  cbn [SyncMsgMgr.RegisterSyncEvent_Locked EventManager.Listen w_events w_states] in E0.
  unfold SyncMsgMgr.RegisterSyncEvent_Locked, EventManager.Listen, EventManager.create in E0. cbn [w_events w_states w_owner] in E0.
  rewrite lookup_empty in E0. injection E0 as <- <-.
  match type of Hc with match ?b ?s with _ => _ end = _ => set (st0 := s) in Hc end.
  unfold EclipseMonitor.on_shared, EclipseMonitor.RefreshBootstrapPlan, mbind, stx_bind, BlockchainMgr.on_world, BlockchainMgr.ask in Hc.
  destruct (HostBlockService.GetLatestBlockNum _) as [n|]; [|done].
  unfold EclipseMonitor.on_shared, EclipseMonitor.RefreshPlan in Hc. cbn [EclipseMonitor.visible vis_phase vis_conf st0
    EclipseMonitor.m_phase EclipseMonitor.put_shared EclipseMonitor.m_shared EclipseMonitor.m_mConfig] in Hc.
  destruct (EclipseMonitor.CalcBootstrapIEndBlkNum _ _ _) as [e|]; [|done].
  unfold mbind, stx_bind in Hc. cbn [EclipseMonitor.m_shared sh_world EclipseMonitor.put_shared] in Hc.
  match type of Hc with context [Start ?w] => set (w1 := w) in Hc; destruct (Start w1) as [w' r] eqn:Es end.
  assert (st = EclipseMonitor.put_shared (mkShared w' startBlockNum e n) st0) as ->.
  { rewrite Start_run in Es. injection Es as <- <-. by injection Hc as <-. }
  clear Hc. assert (first svc w1) as Hf.
  { split; try done.
    - intros id d. cbn [w1 w_events set_mgr st0]. intros [[<- <-]|[_ Hi]]%lookup_insert_Some; [|by rewrite lookup_empty in Hi].
      exists (env_stateRef env). split; [done|]. cbn. rewrite lookup_insert_eq. by eexists.
    - intros id d. cbn [w1 w_events set_mgr st0]. intros [[<- <-]|[_ Hi]]%lookup_insert_Some; [done|by rewrite lookup_empty in Hi]. }
  split; [right; exists []|by intros h [H|[H|(n' & [=] & _)]]; apply not_elem_of_nil in H|by intros h H; apply not_elem_of_nil in H].
  split; [by eapply serves_start|constructor|by intros h H; apply not_elem_of_nil in H| |done].
  intros id d Hid. change (EclipseMonitor.m_world _) with w'. rewrite Start_run in Es. injection Es as <- _. cbn [w_events].
  intros [Hi|[-> _]]%Listen_lookup; [|by apply Apart in Hid].
  destruct (first_events svc w1 Hf id d Hi) as (ref & Hr & _). by exists ref.
Qed.

(** A service that keeps what is shared in order. *)
Lemma serve_tracked {A} hs st (f : stx W Error A) :
  (forall bs w, serves svc bs w -> serves svc bs (f w).1) -> (forall w, adds w (f w).1) ->
  tracked_by hs st -> tracked_by hs (BlockchainMgr.serve f st).1.
Proof using Apart.
  intros Hf Ha [Ti Th Tc]. unfold BlockchainMgr.serve, EclipseMonitor.on_shared, BlockchainMgr.on_world.
  pose proof (Ha (EclipseMonitor.m_world st)) as Hadd. pose proof (fun bs => Hf bs (EclipseMonitor.m_world st)) as Hs.
  unfold EclipseMonitor.m_world in Hadd, Hs. destruct (f (sh_world (EclipseMonitor.m_shared st))) as [w' r]. cbn [fst] in *.
  split; [|done..]. destruct Ti as [?|[bs [S G H R Y]]]; [by left|right; exists bs]. split; try done; [by apply Hs|].
  by eapply adds_reserved.
Qed.

Lemma serve_notices {A} st (f : stx W Error A) :
  EclipseMonitor.notices (BlockchainMgr.serve f st).1 = EclipseMonitor.notices st.
Proof.
  unfold BlockchainMgr.serve, EclipseMonitor.on_shared, BlockchainMgr.on_world. by destruct (f _).
Qed.

Lemma runs_tracked st : runs st -> all_genuine genuine st -> exists hs, tracked_by hs st.
Proof using HeapLaws Apart Managers0 Past0 Host_fits.
  induction 1 as [conf sess start addr sign env st Hres Hc|st raw env st' r _ IH Hf Hr|st ok so pub st' r _ IH Hr
    |st so con topics st' r _ IH Hr|st ok st' r _ IH Hr]; intros Hg.
  - exists []. by eapply create_tracked.
  - pose proof (Update_follows genuine established fresh_env raw env st Hf) as [P T].
    unfold BlockchainMgr.AppendBlock in Hr. rewrite Hr in P, T. cbn [fst] in *.
    destruct IH as [hs Ht]; [by eapply all_genuine_before|].
    destruct (T hs Hg Ht) as (hs' & _ & Ht'); [by intros h []|by exists hs'].
  - pose proof (f_equal fst Hr) as E. cbn [fst] in E. subst st'. destruct IH as [hs Ht].
    { intros h. rewrite <-(serve_notices st (SubReq (BlockchainMgr.GetMonitorSecState st) ok so pub)). apply Hg. }
    exists hs. apply serve_tracked; [|intros; apply SubReq_adds|done].
    intros bs w Hs. eapply serves_quiet; [exact Hs|]. eapply step_SubReq, surjective_pairing.
  - pose proof (f_equal fst Hr) as E. cbn [fst] in E. subst st'. destruct IH as [hs Ht].
    { intros h. rewrite <-(serve_notices st (ReceiptSubReq so con topics)). apply Hg. }
    exists hs. apply serve_tracked; [|intros; apply ReceiptSubReq_adds|done].
    intros bs w Hs. eapply serves_quiet; [exact Hs|]. eapply step_ReceiptSubReq, surjective_pairing.
  - pose proof (f_equal fst Hr) as E. cbn [fst] in E. subst st'. set (f := fun w : W => _) in *. destruct IH as [hs Ht].
    { intros h. rewrite <-(serve_notices st f). apply Hg. }
    exists hs. apply serve_tracked; [|intros; apply EmitAll_adds|done].
    intros bs w Hs. eapply serves_quiet; [exact Hs|apply step_EmitAll].
Qed.

(** C2. The application, from the host's answers to the subscribers: in every run,
    whatever headers the host delivers, in whatever order, whatever receipts it
    answers with and whichever calls it fails, if the headers the monitor has
    validated are headers of blocks with receipts, then the service has been
    shown blocks with the logs of the very receipts the headers commit to -
    every confirmed header's block among them - and holds, for every event
    manager, the past events that the abstract service has after these blocks;
    or else the host has delivered receipts that collide with a block's under
    Keccak-256.  (A block whose callback threw after its check may be among them
    more than once.) *)
Theorem confirmed_blocks_delivered st : runs st -> all_genuine genuine st ->
  collision \/ exists bs,
    Forall genuine_block bs /\
    (forall h, Confirmed h ∈ EclipseMonitor.notices st -> h ∈ map fst bs) /\
    forall a, GetPastEvents (w_owner (EclipseMonitor.m_world st)) a = v_past (after_blocks svc a bs service_start).
Proof using HeapLaws Apart Managers0 Past0 Host_fits.
  intros Hr Hg. destruct (runs_tracked st Hr Hg) as [hs [[?|[bs [S G H R Y]]] Th Tc]]; [by left|right].
  exists bs. split_and!; [done|auto|]. intros a. destruct (serves_inv svc a bs _ S) as (_ & _ & <-). done.
Qed.
End application.

(** ** What the callbacks do not promise *)

Section shortcomings.
Context `{Details : ConfigDetails, DAAs : !DAASelector Details}.
Context `{Alloc : Allocator} `{Heap : Malloc} `{Answers : Host}.

(** If the host fails the question for its latest block, the callback throws
    after the events of the block were handed out: the header is not kept, and
    handing it in again hands the events out again. *)
Lemma events_before_failed_ocall vis hdr sh w' :
  vis_phase vis = BootstrapII ->
  BlockchainMgr.CheckBlock hdr (BlockchainMgr.validating hdr (sh_world sh)) = (w', Ok tt) ->
  ocall_get_latest_blknum (m_hostCalls (mgr_of w')) = None ->
  exists sh', BlockchainMgr.OnHeaderValidated vis hdr sh = (sh', Throw HostBlockService.ocall_failed) /\
    sh_world sh' = set_mgr (with_call (mgr_of w')) w'.
Proof.
  intros Hp Hc Hn. unfold BlockchainMgr.OnHeaderValidated, BlockchainMgr.on_world, mbind, stx_bind. cbn [sh_world].
  rewrite Hc, Hp. unfold BlockchainMgr.RefreshPlan, BlockchainMgr.on_world, BlockchainMgr.ask, mbind, stx_bind. cbn [sh_world].
  unfold HostBlockService.GetLatestBlockNum. rewrite Hn. by eexists.
Qed.

(** The status line of the first phase names the second. *)
Lemma status_of_BootstrapI vis m : vis_phase vis = BootstrapI ->
  m_log (BlockchainMgr.LogMonitorStatus vis m) = m_log m ++ [("BootstrapII"%string, genesisHash (vis_secState vis),
    checkpointHash (vis_secState vis), checkpointIter (vis_secState vis))].
Proof. intros Hp. unfold BlockchainMgr.LogMonitorStatus. by rewrite Hp. Qed.

(** A sync listener cancels itself when a message arrives, in time or not, and the
    manager keeps its address: a listener that gets this address afterwards is
    cancelled by the next sync state. *)
Lemma stale_listener_cancelled (m : SyncMsgMgr.t) (w : W) now nonce ref id w' m' :
  id <> SyncMsgMgr.m_syncEventCallbackId m ->
  SyncMsgMgr.NewSyncState false m w now nonce ref id = (w', m') ->
  w_events w' !! SyncMsgMgr.m_syncEventCallbackId m = None.
Proof.
  intros Hne. unfold SyncMsgMgr.NewSyncState, SyncMsgMgr.RegisterSyncEvent_Locked, EventManager.Listen. cbn [w_events w_states w_owner].
  intros [= <- _]. cbn [w_events]. assert (EventManager.Cancel (w_events w) (SyncMsgMgr.m_syncEventCallbackId m)
    !! SyncMsgMgr.m_syncEventCallbackId m = None) as Hn.
  { unfold EventManager.Cancel. destruct (w_events w !! SyncMsgMgr.m_syncEventCallbackId m) eqn:E; [apply lookup_delete_eq|done]. }
  destruct (_ !! id); [done|]. by rewrite lookup_insert_ne.
Qed.
End shortcomings.

(** ** A run, concretely *)

(** Listeners of the application get positive addresses, above all in use. *)
Definition above (ids : list Z) : Z := foldr Z.max 0 ids + 1.

Lemma above_lt ids id : id ∈ ids -> id < above ids.
Proof. unfold above. induction 1 as [id ids|id x ids _ IH]; cbn; lia. Qed.

Lemma above_positive ids : 0 < above ids.
Proof. unfold above. induction ids as [|x ids IH]; cbn; lia. Qed.

#[local] Instance apart_malloc : Malloc := {|
  new_listener := fun m => above (map fst (map_to_list m));
  new_queue := fun A m => fresh (C := gset nat) (dom m) |}.
#[local] Instance apart_malloc_laws : MallocLaws.
Proof.
  split; intros; [|apply not_elem_of_dom; exact (is_fresh (dom m : gset nat))].
  apply eq_None_not_Some. intros [e He]. cbn in He.
  pose proof (above_lt (map fst (map_to_list m)) (above (map fst (map_to_list m)))) as Hlt.
  enough (above (map fst (map_to_list m)) < above (map fst (map_to_list m))) by lia. apply Hlt.
  apply list_elem_of_fmap. eexists (_, e). split; [|by apply elem_of_map_to_list]. done.
Qed.
#[local] Instance run_allocator : Allocator := fun n => n <? 2 ^ 20.

(** The host answers with an empty list. *)
#[local] Instance empty_host : Host := {|
  ocall_get_receipts := fun _ _ => Some [0xC0]; ocall_get_latest_blknum := fun _ => Some 912200 |}.
#[local] Existing Instance MainnetConfigDetails.

Definition at_monitor (id : Z) : Prop := id <= 0.
Definition run_env (state : nat) (id : Z) : Env := mkEnv 100 101 102 sample_nonce 2 1 state id false.
Definition run_conf : MonitorConfig := mkConfig 1 64 600 600.

(** The header of a block without transactions. *)
Definition empty_root : bytes :=
  Eval vm_compute in ok_or [] (PatriciaTrie.Hash PatriciaTrie.create).
Definition empty_block : EthHeader.t := EthHeader.of_items (<[5%nat := empty_root]> (EthHeader.items sample_header)).
Definition empty_raw : bytes := ok_or [] (EthHeader.Write empty_block 4).
Definition empty_hash : bytes := Eval vm_compute in Keccak256 empty_raw.
Definition empty_hdr : HeaderMgr.t := HeaderMgr.mk empty_block 0 (replicate 256 0) empty_hash 912104 0 512 false.

Lemma empty_hdr_genuine : genuine sample_service empty_hdr.
Proof.
  exists [], [], (ReceiptsMgr.mk [] empty_root). split; [|done]. split.
  - split_and!; [done|constructor|]. apply items_sizes_decided. apply (bool_decide_unpack _). vm_compute. exact I.
  - vm_compute. reflexivity.
  - reflexivity.
  - split_and!; [apply Forall_replicate; split; vm_compute; congruence|reflexivity|].
    vm_compute. reflexivity.
  - reflexivity.
  - cbn. lia.
Qed.

Lemma empty_host_fits call blkNum rlp rs : ocall_get_receipts call blkNum = Some rlp ->
  GeneralParser.Parse rlp true = Ok (OList (map OBytes rs)) ->
  zlen rs < 2 ^ 64 /\ Forall all_bytes rs /\ items_sizes_ok rs.
Proof.
  intros [= <-] Hp. vm_compute in Hp. destruct rs as [|r rs]; [|done].
  split_and!; [done|constructor|]. apply items_sizes_decided. apply (bool_decide_unpack _). vm_compute. exact I.
Qed.

Definition run_create : result Error BlockchainMgr.t :=
  BlockchainMgr.create run_conf sample_session 912104 sample_sync_addr [1; 2; 3] sample_service (run_env 0 0).

(** One block is confirmed at once with windows of one block. *)
Lemma run_confirms : exists st st', run_create = Ok st /\ fresh_env at_monitor (run_env 1 (-1)) (EclipseMonitor.m_world st) /\
  BlockchainMgr.AppendBlock empty_raw (run_env 1 (-1)) st = (st', Ok tt) /\
  EclipseMonitor.notices st' = [Validated empty_hdr; Confirmed empty_hdr].
Proof.
  assert (is_ok run_create = true) as Hok by (lazy -[Keccak256]; reflexivity).
  destruct run_create as [st|e] eqn:E; [|done]. clear Hok.
  assert (st = match run_create with Ok st => st | Throw _ => st end) as E' by by rewrite E.
  assert ((fun r => (r.2, EclipseMonitor.notices r.1)) (BlockchainMgr.AppendBlock empty_raw (run_env 1 (-1)) st)
    = (Ok tt, [Validated empty_hdr; Confirmed empty_hdr])) as Hr by (rewrite E'; vm_compute; reflexivity).
  exists st, (BlockchainMgr.AppendBlock empty_raw (run_env 1 (-1)) st).1. split; [done|].
  destruct (BlockchainMgr.AppendBlock empty_raw (run_env 1 (-1)) st) as [st' r]. cbn [fst snd] in *.
  injection Hr as -> ->. split; [|done]. rewrite E'. clear.
  split; [|split]; [lazy -[Keccak256]; reflexivity|lazy -[Keccak256]; reflexivity|done].
Qed.

Lemma confirmed_blocks_delivered_witness : exists st : BlockchainMgr.t,
  Confirmed empty_hdr ∈ EclipseMonitor.notices st /\
  (collision sample_service \/ exists bs,
    Forall (genuine_block sample_service) bs /\
    (forall h, Confirmed h ∈ EclipseMonitor.notices st -> h ∈ map fst bs) /\
    forall a, GetPastEvents (w_owner (EclipseMonitor.m_world st)) a
      = v_past (after_blocks sample_service a bs service_start)).
Proof.
  destruct run_confirms as (st & st' & Hc & Hf & Ha & Hn). exists st'. split; [rewrite Hn; right; left|].
  apply (confirmed_blocks_delivered sample_service at_monitor).
  - intros m. pose proof (above_positive (map fst (map_to_list m))). unfold at_monitor. cbn. lia.
  - reflexivity.
  - reflexivity.
  - exact empty_host_fits.
  - eapply runs_AppendBlock; [|exact Hf|exact Ha]. eapply runs_create; [|exact Hc]. unfold at_monitor. cbn. lia.
  - intros h. rewrite Hn. intros [[= ->]|[[=]|Hh%not_elem_of_nil]%elem_of_cons]%elem_of_cons; [exact empty_hdr_genuine|done].
Defined.
