(* ===== verification/AesGcm.v ===== *)
(** * Encrypted packages

    [DecentEnclave/Common/AesGcmPackager.hpp]: data and metadata in a package that
    is padded to whole blocks, encrypted, and authenticated together with
    additional data of the caller.  The cipher is the platform's
    ([Common/Platform/AesGcm.hpp] forwards to the SGX SDK or to mbedtls). *)

From stdpp Require Import strings.
From S2P Require Import Prelude.

(** How a call can end without a value: an exception, undefined behaviour, or a
    wait for bytes that do not come. *)
Inductive Fault := Thrown (what : string) | Undefined (what : string) | Waiting.

(** ** Memory *)

(** [memcpy] into a vector, at an offset. *)
Definition blit (dst : bytes) (pos : Z) (src : bytes) : result Fault bytes :=
  if (0 <=? pos) && (pos + zlen src <=? zlen dst) then
    Ok (take (Z.to_nat pos) dst ++ src ++ drop (Z.to_nat pos + length src) dst)
  else Throw (Undefined "write outside of a vector").

(** The bytes between two pointers into a vector. *)
Definition between (b : bytes) (from to : Z) : result Fault bytes :=
  if (0 <=? from) && (from <=? to) && (to <=? zlen b) then Ok (take (Z.to_nat (to - from)) (drop (Z.to_nat from) b))
  else Throw (Undefined "pointers outside of a vector").

(** [CtnByteRgR]. *)
Definition CtnByteRgR (b : bytes) (from to : Z) : result Fault bytes :=
  if (from <=? to) && (to <=? zlen b) then between b from to else Throw (Thrown "out_of_range").

(** A vector of zeros, and [reserve]. *)
Definition vec `{Allocator} (n : Z) : result Fault bytes :=
  if reserve n then Ok (replicate (Z.to_nat n) 0) else Throw (Thrown "bad_alloc").
Definition room_for `{Allocator} (n : Z) : result Fault unit :=
  if reserve n then Ok tt else Throw (Thrown "length_error").

(** A [uint64_t] of the platform, which is little-endian. *)
Definition le64 (n : Z) : bytes := rev (be_bytes 8 n).
Definition read64 (b : bytes) (pos : Z) : result Fault Z :=
  w ← between b pos (pos + 8);
  Ok (be_val (rev w)).

(** ** The cipher *)

(** [sgx_rijndael128GCM_encrypt] and [_decrypt]: key, IV, additional data and
    text; the text and the tag.  [None] is a status other than success. *)
Class GcmSdk := {
  sgx_encrypt : bytes -> bytes -> bytes -> bytes -> option (bytes * bytes);
  sgx_decrypt : bytes -> bytes -> bytes -> bytes -> bytes -> option bytes }.

(** The text keeps its length, the tag has 16 bytes, and what was encrypted
    decrypts under the same key, IV and additional data. *)
Class GcmLaws `{GcmSdk} := {
  sgx_encrypt_length : forall k iv aad p c t, sgx_encrypt k iv aad p = Some (c, t) ->
    length c = length p /\ length t = 16%nat;
  sgx_decrypt_encrypt : forall k iv aad p c t, sgx_encrypt k iv aad p = Some (c, t) ->
    sgx_decrypt k iv aad c t = Some p }.

(** The lengths are cast to [uint32_t]. *)
Definition cast32 (b : bytes) : bytes := take (Z.to_nat (u32 (zlen b))) b.

Module AesGcmOneGoNative.
Section cipher.
Context `{Alloc : Allocator} `{Gcm : GcmSdk}.

Definition Encrypt (m_key iv aad data : bytes) : result Fault (bytes * bytes) :=
  res ← vec (zlen data);
  match sgx_encrypt m_key (cast32 iv) (cast32 aad) (cast32 data) with
  | Some (c, tag) => Ok (c ++ drop (length c) res, tag)
  | None => Throw (Thrown "SgxRuntimeError")
  end.

Definition Decrypt (m_key iv aad data tag : bytes) : result Fault bytes :=
  res ← vec (zlen data);
  match sgx_decrypt m_key (cast32 iv) (cast32 aad) (cast32 data) tag with
  | Some p => Ok (p ++ drop (length p) res)
  | None => Throw (Thrown "SgxRuntimeError")
  end.
End cipher.
End AesGcmOneGoNative.

(** ** The packager *)

Module AesGcmPackager.
Definition sk_ivSize : Z := 12.
Definition sk_tagSize : Z := 16.
Definition sk_knownAddSize : Z := sk_ivSize + 8 + 8.
Definition sk_sealMetaSize : Z := sk_tagSize + sk_knownAddSize.
Definition sk_sealPkgAllKnownSize : Z := sk_sealMetaSize + 8 + 8.

Record t := mk { m_key : bytes; m_sealedBlockSize : Z }.

(** The sizes of the package, of its additional data and of its payload. *)
Definition GetTotalSealedBlockSize (inSealedBlockSize inKeyMetaSize inMetaSize inDataSize : Z)
  : result Fault (Z * Z * Z) :=
  let totalDataSize := u64 (sk_sealPkgAllKnownSize + inKeyMetaSize + inMetaSize + inDataSize) in
  if inSealedBlockSize =? 0 then Throw (Undefined "division by zero")
  else
    let totalBlockNum := u64 (totalDataSize / inSealedBlockSize +
      (if totalDataSize mod inSealedBlockSize =? 0 then 0 else 1)) in
    let totalBlockSize := u64 (totalBlockNum * inSealedBlockSize) in
    let padSize := u64 (totalBlockSize - totalDataSize) in
    let encryptedSize := u64 (8 + 8 + inMetaSize + inDataSize + padSize) in
    let addSize := u64 (sk_knownAddSize + inKeyMetaSize) in
    Ok (totalBlockSize, addSize, encryptedSize).

Definition GetKeyMeta (pack : bytes) : result Fault bytes :=
  if zlen pack <? sk_sealMetaSize then Throw (Thrown "GetKeyMeta: the package is too small")
  else
    keyMetaSize ← read64 pack 36;
    let keyMetaEndPos := u64 (sk_sealMetaSize + keyMetaSize) in
    if zlen pack <? keyMetaEndPos then Throw (Thrown "GetKeyMeta: the package is too small")
    else between pack sk_sealMetaSize keyMetaEndPos.

Section cipher.
Context `{Alloc : Allocator} `{Gcm : GcmSdk}.

(** [iv]: the random bytes.  The full package and its tag. *)
Definition Pack (p : t) (keyMeta meta data addData iv : bytes) : result Fault (bytes * bytes) :=
  '(totalPackSize, packAddSize, encryptSize) ←
    GetTotalSealedBlockSize (m_sealedBlockSize p) (zlen keyMeta) (zlen meta) (zlen data);
  inputPkg ← vec encryptSize;
  inputPkg ← blit inputPkg 0 (le64 (zlen meta));
  inputPkg ← blit inputPkg 8 (le64 (zlen data));
  inputPkg ← blit inputPkg 16 meta;
  inputPkg ← blit inputPkg (16 + zlen meta) data;
  finPackage ← vec totalPackSize;
  let fpEncDataPos := 44 + zlen keyMeta in
  finPackage ← blit finPackage 16 iv;
  finPackage ← blit finPackage 28 (le64 encryptSize);
  finPackage ← blit finPackage 36 (le64 (zlen keyMeta));
  finPackage ← blit finPackage 44 keyMeta;
  aad ← (if 0 <? zlen addData then
      room_for (u64 (packAddSize + zlen addData)) ;;
      known ← between finPackage 16 fpEncDataPos;
      Ok (known ++ addData)
    else CtnByteRgR finPackage 16 fpEncDataPos);
  iv ← CtnByteRgR finPackage 16 28;
  '(encrypted, tag) ← AesGcmOneGoNative.Encrypt (m_key p) iv aad inputPkg;
  finPackage ← blit finPackage 0 tag;
  finPackage ← blit finPackage fpEncDataPos encrypted;
  Ok (finPackage, tag).

(** The data and the metadata of a decrypted payload. *)
Definition SeparatePayload (outputPkg : bytes) : result Fault (bytes * bytes) :=
  metaSize ← read64 outputPkg 0;
  dataSize ← read64 outputPkg 8;
  if zlen outputPkg <? u64 (16 + metaSize + dataSize) then
    Throw (Thrown "Unpack: the payload is smaller than the expected size")
  else
    outMeta ← between outputPkg 16 (u64 (16 + metaSize));
    outData ← between outputPkg (u64 (16 + metaSize)) (u64 (16 + metaSize + dataSize));
    Ok (outData, outMeta).

Definition Unpack (p : t) (package addData : bytes) (inTag : option bytes) : result Fault (bytes * bytes) :=
  payloadSize ← read64 package 28;
  keyMetaSize ← read64 package 36;
  let fpEncDataPos := u64 (44 + keyMetaSize) in
  if negb (zlen package =? u64 (fpEncDataPos + payloadSize)) then
    Throw (Thrown "Unpack: the package size doesn't match the expected size")
  else
    aad ← (if 0 <? zlen addData then
        room_for (u64 (sk_knownAddSize + keyMetaSize + zlen addData)) ;;
        known ← between package 16 fpEncDataPos;
        Ok (known ++ addData)
      else CtnByteRgR package 16 fpEncDataPos);
    iv ← CtnByteRgR package 16 28;
    encrypted ← CtnByteRgR package fpEncDataPos (zlen package);
    tag ← CtnByteRgR package 0 16;
    outputPkg ← AesGcmOneGoNative.Decrypt (m_key p) iv aad encrypted tag;
    if match inTag with Some inTag => negb (bool_decide (tag = inTag)) | None => false end then
      Throw (Thrown "Unpack: the tag doesn't match the given one")
    else
      SeparatePayload outputPkg.
End cipher.
End AesGcmPackager.

(** ** Offsets *)

Lemma Ok_pair {E A B} (a a' : A) (b b' : B) : Ok (a, b) = Ok (a', b') :> result E (A * B) -> a' = a /\ b' = b.
Proof. by intros [= -> ->]. Qed.

Lemma length_le64 n : length (le64 n) = 8%nat.
Proof. unfold le64. by rewrite length_rev, length_be_bytes. Qed.

Lemma le64_val n : fits 64 n -> be_val (rev (le64 n)) = n.
Proof. intros Hn. unfold le64. rewrite rev_involutive, be_val_be_bytes. by apply Z.mod_small. Qed.

Lemma blit_at a b c src pos : pos = zlen a -> length src = length b ->
  blit (a ++ b ++ c) pos src = Ok (a ++ src ++ c).
Proof.
  intros -> Hl. unfold blit. rewrite !length_app, Hl.
  rewrite (proj2 (Z.leb_le _ _)), (proj2 (Z.leb_le _ _)) by lia. cbn [andb]. rewrite Nat2Z.id.
  rewrite take_app_length, drop_app_ge by lia. replace (length a + length b - length a)%nat with (length b) by lia. by rewrite drop_app_length.
Qed.

Lemma between_at a b c from to : from = zlen a -> to = zlen a + zlen b -> between (a ++ b ++ c) from to = Ok b.
Proof.
  intros -> ->. unfold between. rewrite !length_app.
  rewrite (proj2 (Z.leb_le _ _)), (proj2 (Z.leb_le _ _)), (proj2 (Z.leb_le _ _)) by lia. cbn [andb].
  rewrite Nat2Z.id, drop_app_length, Z.add_simpl_l, Nat2Z.id. by rewrite take_app_length.
Qed.

Lemma CtnByteRgR_at a b c from to : from = zlen a -> to = zlen a + zlen b -> CtnByteRgR (a ++ b ++ c) from to = Ok b.
Proof.
  intros Hf Ht. unfold CtnByteRgR. rewrite (between_at a b c from to Hf Ht), Hf, Ht, !length_app.
  by rewrite (proj2 (Z.leb_le _ _)), (proj2 (Z.leb_le _ _)) by lia.
Qed.

Lemma read64_at a n c pos : pos = zlen a -> fits 64 n -> read64 (a ++ le64 n ++ c) pos = Ok n.
Proof.
  intros -> Hn. unfold read64. rewrite (between_at a (le64 n) c) by (rewrite ?length_le64; lia).
  cbn [mbind result_bind]. by rewrite le64_val.
Qed.

Lemma zeros_app n m : replicate (n + m) 0 = replicate n 0 ++ replicate m 0 :> bytes.
Proof. apply replicate_add. Qed.

(** ** What a package contains *)

Section packages.
Context `{Alloc : Allocator} `{Gcm : GcmSdk, Laws : !GcmLaws}.

(** There is room for vectors of up to [n] elements. *)
Definition ample (n : Z) : Prop := forall m, 0 <= m <= n -> reserve m = true.

Lemma ample_le n n' : ample n -> n' <= n -> ample n'.
Proof. intros H Hn m Hm. apply H. lia. Qed.

Lemma vec_ample n m : ample m -> 0 <= n <= m -> vec n = Ok (replicate (Z.to_nat n) 0).
Proof. intros H Hn. unfold vec. by rewrite H. Qed.

Lemma room_ample n m : ample m -> 0 <= n <= m -> room_for n = Ok tt.
Proof. intros H Hn. unfold room_for. by rewrite H. Qed.

(** *** The cipher *)

Lemma cast32_small b : zlen b < 2 ^ 32 -> cast32 b = b.
Proof. intros Hb. unfold cast32. rewrite wrap_small by (unfold fits; lia). rewrite Nat2Z.id. by apply take_ge. Qed.

Lemma full_text (c b : bytes) : length c = length b -> c ++ drop (length c) (replicate (Z.to_nat (zlen b)) 0) = c.
Proof. intros Hl. rewrite drop_ge by (rewrite length_replicate; lia). apply app_nil_r. Qed.

Lemma Encrypt_ok k iv aad p c t : zlen p < 2 ^ 32 -> AesGcmOneGoNative.Encrypt k iv aad p = Ok (c, t) ->
  length c = length p /\ length t = 16%nat /\ AesGcmOneGoNative.Decrypt k iv aad c t = Ok p.
Proof using Laws.
  intros Hp. unfold AesGcmOneGoNative.Encrypt, AesGcmOneGoNative.Decrypt, vec.
  destruct (reserve (zlen p)) eqn:Er; cbn [mbind result_bind]; [|done].
  rewrite (cast32_small p) by done. destruct (sgx_encrypt _ _ _ p) as [[c' t']|] eqn:Ee; [|done].
  pose proof (sgx_encrypt_length _ _ _ _ _ _ Ee) as [Hc Ht]. rewrite full_text by done. intros [= <- <-].
  rewrite Hc, Er. cbn [mbind result_bind]. rewrite (cast32_small c') by lia.
  rewrite (sgx_decrypt_encrypt _ _ _ _ _ _ Ee). split; [done|]. split; [done|]. by rewrite full_text.
Qed.

(** *** The parts of a package *)

(** The bytes that are authenticated but not encrypted, and the ones that are
    encrypted. *)
Definition known_part (keyMeta iv : bytes) (encryptSize : Z) : bytes :=
  iv ++ le64 encryptSize ++ le64 (zlen keyMeta) ++ keyMeta.
Definition payload (meta data : bytes) (pad : nat) : bytes :=
  le64 (zlen meta) ++ le64 (zlen data) ++ meta ++ data ++ replicate pad 0.

(** The blocks a package fills, and what is left of the last. *)
Definition blocks (p : AesGcmPackager.t) (keyMeta meta data : bytes) : Z :=
  (60 + zlen keyMeta + zlen meta + zlen data + AesGcmPackager.m_sealedBlockSize p - 1) / AesGcmPackager.m_sealedBlockSize p.
Definition pad_of (p : AesGcmPackager.t) (keyMeta meta data : bytes) : nat :=
  Z.to_nat (blocks p keyMeta meta data * AesGcmPackager.m_sealedBlockSize p - (60 + zlen keyMeta + zlen meta + zlen data)).

(** The package is no longer than the lengths the cipher is told. *)
Definition parts_fit (p : AesGcmPackager.t) (keyMeta meta data : bytes) : Prop :=
  0 < AesGcmPackager.m_sealedBlockSize p /\
  60 + zlen keyMeta + zlen meta + zlen data + AesGcmPackager.m_sealedBlockSize p < 2 ^ 32.

Lemma blocks_round (x b : Z) : 0 < b -> 0 < x ->
  x / b + (if x mod b =? 0 then 0 else 1) = (x + b - 1) / b /\ x <= (x + b - 1) / b * b < x + b.
Proof.
  intros Hb Hx. pose proof (Z.div_mod x b ltac:(lia)) as Hd. pose proof (Z.mod_pos_bound x b Hb) as Hm.
  set (q := x / b) in *. set (r := x mod b) in *.
  destruct (Z.eqb_spec r 0) as [Hr|Hr].
  - assert ((x + b - 1) / b = q) as -> by (symmetry; apply Z.div_unique with (b - 1); [left; lia|nia]). split; [lia|nia].
  - assert ((x + b - 1) / b = q + 1) as -> by (symmetry; apply Z.div_unique with (r - 1); [left; lia|nia]). split; [lia|nia].
Qed.

Lemma GetTotalSealedBlockSize_spec p keyMeta meta data : parts_fit p keyMeta meta data ->
  let b := AesGcmPackager.m_sealedBlockSize p in
  AesGcmPackager.GetTotalSealedBlockSize b (zlen keyMeta) (zlen meta) (zlen data)
  = Ok (blocks p keyMeta meta data * b, 28 + zlen keyMeta,
        16 + zlen meta + zlen data + Z.of_nat (pad_of p keyMeta meta data)).
Proof.
  intros [Hb Hf] b. unfold AesGcmPackager.GetTotalSealedBlockSize, pad_of, blocks. fold b. fold b in Hb, Hf.
  change (AesGcmPackager.sk_sealPkgAllKnownSize) with 60. change (AesGcmPackager.sk_knownAddSize) with 28.
  set (x := 60 + zlen keyMeta + zlen meta + zlen data) in *.
  destruct (blocks_round x b Hb ltac:(lia)) as [E [H1 H2]]. set (n := (x + b - 1) / b) in *.
  rewrite (wrap_small 64 x) by (unfold fits; lia). rewrite (proj2 (Z.eqb_neq b 0)) by lia. rewrite E.
  assert (0 <= n <= n * b) as Hn by nia.
  rewrite (wrap_small 64 n), (wrap_small 64 (n * b)), (wrap_small 64 (n * b - x)), !wrap_small by (unfold fits; lia).
  do 2 f_equal. lia.
Qed.

(** Four parts, one after the other. *)
Lemma blit_four {A} pre a b c d rest sa sb sc sd p1 p2 p3 p4 (k : bytes -> result Fault A) :
  p1 = zlen pre -> p2 = p1 + zlen a -> p3 = p2 + zlen b -> p4 = p3 + zlen c ->
  length sa = length a -> length sb = length b -> length sc = length c -> length sd = length d ->
  (x ← blit (pre ++ a ++ b ++ c ++ d ++ rest) p1 sa; x ← blit x p2 sb; x ← blit x p3 sc; x ← blit x p4 sd; k x)
  = k (pre ++ sa ++ sb ++ sc ++ sd ++ rest).
Proof.
  intros E1 E2 E3 E4 Ha Hb Hc Hd.
  rewrite (blit_at pre a) by done. cbn [mbind result_bind].
  rewrite (app_assoc pre sa), (blit_at (pre ++ sa) b) by (rewrite ?length_app; lia). cbn [mbind result_bind].
  rewrite (app_assoc _ sb), (blit_at ((pre ++ sa) ++ sb) c) by (rewrite ?length_app; lia). cbn [mbind result_bind].
  rewrite (app_assoc _ sc), (blit_at (((pre ++ sa) ++ sb) ++ sc) d) by (rewrite ?length_app; lia). cbn [mbind result_bind].
  by rewrite <-!app_assoc.
Qed.

Lemma length_payload meta data pad : length (payload meta data pad) = (16 + length meta + length data + pad)%nat.
Proof. unfold payload. rewrite !length_app, !length_le64, length_replicate. lia. Qed.

Lemma length_known keyMeta iv enc : length iv = 12%nat -> length (known_part keyMeta iv enc) = (28 + length keyMeta)%nat.
Proof. intros Hiv. unfold known_part. rewrite !length_app, !length_le64. lia. Qed.

Lemma package_length p keyMeta meta data : parts_fit p keyMeta meta data ->
  blocks p keyMeta meta data * AesGcmPackager.m_sealedBlockSize p
  = 44 + zlen keyMeta + zlen (payload meta data (pad_of p keyMeta meta data)) /\
  60 + zlen keyMeta + zlen meta + zlen data <= blocks p keyMeta meta data * AesGcmPackager.m_sealedBlockSize p
    < 60 + zlen keyMeta + zlen meta + zlen data + AesGcmPackager.m_sealedBlockSize p.
Proof.
  intros [Hb Hs]. rewrite length_payload. unfold pad_of, blocks.
  destruct (blocks_round (60 + zlen keyMeta + zlen meta + zlen data) (AesGcmPackager.m_sealedBlockSize p) Hb ltac:(lia)) as [_ H].
  lia.
Qed.

Lemma aad_parts (known addData : bytes) :
  (if 0 <? zlen addData then Ok (known ++ addData) else Ok known) = Ok (known ++ addData) :> result Fault bytes.
Proof. destruct addData as [|x addData]; cbn [length]; [by rewrite app_nil_r|]. by rewrite (proj2 (Z.ltb_lt _ _)) by lia. Qed.

(** The package, whatever the parts: nothing is written outside of it. *)
Lemma Pack_spec p keyMeta meta data addData iv : parts_fit p keyMeta meta data -> length iv = 12%nat ->
  let body := payload meta data (pad_of p keyMeta meta data) in
  let known := known_part keyMeta iv (zlen body) in
  ample (zlen known + zlen body + 16 + zlen addData) -> zlen known + zlen addData < 2 ^ 64 ->
  AesGcmPackager.Pack p keyMeta meta data addData iv =
  match AesGcmOneGoNative.Encrypt (AesGcmPackager.m_key p) iv (known ++ addData) body with
  | Ok (c, tag) => Ok (tag ++ known ++ c, tag)
  | Throw e => Throw e
  end.
Proof using Laws.
  intros Hf Hiv body known Ha Hadd. unfold AesGcmPackager.Pack. rewrite (GetTotalSealedBlockSize_spec p keyMeta meta data Hf).
  cbn [mbind result_bind]. destruct (package_length p keyMeta meta data Hf) as [Htotal Hround].
  fold body in Htotal. rewrite Htotal in Hround |- *. set (pad := pad_of p keyMeta meta data) in *.
  assert (16 + zlen meta + zlen data + Z.of_nat pad = zlen body) as -> by (unfold body; rewrite length_payload; lia).
  assert (length known = (28 + length keyMeta)%nat) as Hkn by by apply length_known.
  rewrite !(vec_ample _ _ Ha) by lia. cbn [mbind result_bind].
  replace (replicate (Z.to_nat (zlen body)) 0) with
    ([] ++ replicate 8 0 ++ replicate 8 0 ++ replicate (length meta) 0 ++ replicate (length data) 0 ++ replicate pad 0)
    by (unfold body; rewrite length_payload; cbn [app]; rewrite <-!replicate_add; f_equal; lia).
  rewrite blit_four by (rewrite ?length_le64, ?length_replicate; cbn [length]; lia).
  change ([] ++ le64 (zlen meta) ++ le64 (zlen data) ++ meta ++ data ++ replicate pad 0) with body.
  replace (replicate (Z.to_nat (44 + zlen keyMeta + zlen body)) 0) with
    (replicate 16 0 ++ replicate 12 0 ++ replicate 8 0 ++ replicate 8 0 ++ replicate (length keyMeta) 0 ++ replicate (length body) 0)
    by (rewrite <-!replicate_add; f_equal; lia).
  rewrite blit_four by (rewrite ?length_le64, ?length_replicate; lia).
  rewrite (CtnByteRgR_at (replicate 16 0) iv _ 16 28) by (rewrite ?length_replicate; lia).
  assert (replicate 16 0 ++ iv ++ le64 (zlen body) ++ le64 (zlen keyMeta) ++ keyMeta ++ replicate (length body) 0
    = replicate 16 0 ++ known ++ replicate (length body) 0) as -> by (unfold known, known_part; by rewrite <-!app_assoc).
  rewrite (between_at (replicate 16 0) known _ 16 (44 + zlen keyMeta)), (CtnByteRgR_at (replicate 16 0) known _ 16 (44 + zlen keyMeta)) by (rewrite ?length_replicate; lia).
  rewrite (wrap_small 64 (28 + zlen keyMeta + zlen addData)) by (unfold fits; lia).
  rewrite (room_ample _ _ Ha) by lia. cbn [mbind result_bind].
  assert ((if 0 <? zlen addData then Ok (known ++ addData) else Ok known) = Ok (known ++ addData) :> result Fault bytes) as ->
    by by apply aad_parts.
  cbn [mbind result_bind]. destruct (AesGcmOneGoNative.Encrypt _ iv _ body) as [[c tag]|] eqn:Ee; [|done].
  pose proof (proj2 Hf) as Hs. apply Encrypt_ok in Ee as (Hc & Ht & _); [|lia]. cbn [mbind result_bind].
  pose proof (blit_at [] (replicate 16 0) (known ++ replicate (length body) 0) tag 0 eq_refl) as Hb. cbn [app] in Hb.
  rewrite Hb by (rewrite length_replicate; lia). cbn [mbind result_bind].
  rewrite (app_assoc tag known), <-(app_nil_r (replicate (length body) 0)).
  rewrite (blit_at (tag ++ known) (replicate (length body) 0) []) by (rewrite ?length_app, ?length_replicate; lia).
  cbn [mbind result_bind]. by rewrite app_nil_r, <-app_assoc.
Qed.

Lemma SeparatePayload_payload meta data pad : 16 + zlen meta + zlen data < 2 ^ 64 ->
  AesGcmPackager.SeparatePayload (payload meta data pad) = Ok (data, meta).
Proof.
  intros Hf. unfold AesGcmPackager.SeparatePayload.
  assert (read64 (payload meta data pad) 0 = Ok (zlen meta)) as ->.
  { exact (read64_at [] (zlen meta) _ 0 eq_refl ltac:(unfold fits; lia)). }
  assert (read64 (payload meta data pad) 8 = Ok (zlen data)) as ->.
  { exact (read64_at (le64 (zlen meta)) (zlen data) _ 8 ltac:(by rewrite length_le64) ltac:(unfold fits; lia)). }
  cbn [mbind result_bind]. rewrite !wrap_small by (unfold fits; lia).
  rewrite (proj2 (Z.ltb_ge _ _)) by (rewrite length_payload; lia).
  assert (payload meta data pad = (le64 (zlen meta) ++ le64 (zlen data)) ++ meta ++ data ++ replicate pad 0) as ->
    by (unfold payload; by rewrite <-!app_assoc).
  rewrite (between_at (le64 (zlen meta) ++ le64 (zlen data)) meta _ 16) by (rewrite ?length_app, ?length_le64; lia).
  cbn [mbind result_bind]. rewrite (app_assoc _ meta).
  by rewrite (between_at _ data) by (rewrite ?length_app, ?length_le64; lia).
Qed.

(** Unpacking what has the shape of a package. *)
Lemma Unpack_spec p tag keyMeta iv c addData inTag :
  length tag = 16%nat -> length iv = 12%nat -> 44 + zlen keyMeta + zlen c + zlen addData < 2 ^ 64 ->
  ample (28 + zlen keyMeta + zlen addData) ->
  AesGcmPackager.Unpack p (tag ++ known_part keyMeta iv (zlen c) ++ c) addData inTag =
  match AesGcmOneGoNative.Decrypt (AesGcmPackager.m_key p) iv (known_part keyMeta iv (zlen c) ++ addData) c tag with
  | Ok out =>
    if match inTag with Some inTag => negb (bool_decide (tag = inTag)) | None => false end then
      Throw (Thrown "Unpack: the tag doesn't match the given one")
    else AesGcmPackager.SeparatePayload out
  | Throw e => Throw e
  end.
Proof.
  intros Ht Hiv Hf Ha. set (known := known_part keyMeta iv (zlen c)).
  assert (length known = (28 + length keyMeta)%nat) as Hkn by by apply length_known.
  assert (tag ++ known ++ c = (tag ++ iv) ++ le64 (zlen c) ++ le64 (zlen keyMeta) ++ keyMeta ++ c) as E1
    by (unfold known, known_part; by rewrite <-!app_assoc).
  assert (read64 (tag ++ known ++ c) 28 = Ok (zlen c)) as R1.
  { rewrite E1. apply read64_at; [rewrite length_app; lia|unfold fits; lia]. }
  assert (read64 (tag ++ known ++ c) 36 = Ok (zlen keyMeta)) as R2.
  { rewrite E1, app_assoc. apply read64_at; [rewrite !length_app, length_le64; lia|unfold fits; lia]. }
  unfold AesGcmPackager.Unpack. rewrite R1, R2. cbn [mbind result_bind].
  rewrite (wrap_small 64 (44 + zlen keyMeta)), (wrap_small 64 (44 + zlen keyMeta + zlen c)) by (unfold fits; lia).
  rewrite (proj2 (Z.eqb_eq _ _)) by (rewrite !length_app; lia). cbn [negb].
  rewrite (between_at tag known c 16 (44 + zlen keyMeta)), (CtnByteRgR_at tag known c 16 (44 + zlen keyMeta)) by lia.
  change AesGcmPackager.sk_knownAddSize with 28.
  rewrite (wrap_small 64 (28 + zlen keyMeta + zlen addData)) by (unfold fits; lia).
  rewrite (room_ample _ _ Ha) by lia. cbn [mbind result_bind].
  assert ((if 0 <? zlen addData then Ok (known ++ addData) else Ok known) = Ok (known ++ addData) :> result Fault bytes) as ->
    by by apply aad_parts.
  cbn [mbind result_bind].
  assert (CtnByteRgR (tag ++ known ++ c) 16 28 = Ok iv) as ->.
  { rewrite E1, <-app_assoc. apply (CtnByteRgR_at tag iv); lia. }
  assert (CtnByteRgR (tag ++ known ++ c) (44 + zlen keyMeta) (zlen (tag ++ known ++ c)) = Ok c) as ->.
  { rewrite app_assoc, <-(app_nil_r c) at 1. apply CtnByteRgR_at; rewrite !length_app; lia. }
  assert (CtnByteRgR (tag ++ known ++ c) 0 16 = Ok tag) as -> by (apply (CtnByteRgR_at [] tag); cbn; lia).
  cbn [mbind result_bind]. by destruct (AesGcmOneGoNative.Decrypt _ _ _ _ _).
Qed.

(** A package that was packed: how it is made up, and what comes back. *)
Lemma Unpack_Pack p q keyMeta meta data addData iv pkg tag :
  parts_fit p keyMeta meta data -> length iv = 12%nat -> AesGcmPackager.m_key q = AesGcmPackager.m_key p ->
  ample (60 + zlen keyMeta + zlen meta + zlen data + AesGcmPackager.m_sealedBlockSize p + zlen addData) ->
  zlen addData < 2 ^ 32 ->
  AesGcmPackager.Pack p keyMeta meta data addData iv = Ok (pkg, tag) ->
  exists c, pkg = tag ++ known_part keyMeta iv (zlen c) ++ c /\ length tag = 16%nat /\
    zlen pkg = blocks p keyMeta meta data * AesGcmPackager.m_sealedBlockSize p /\
    forall inTag, inTag = None \/ inTag = Some tag -> AesGcmPackager.Unpack q pkg addData inTag = Ok (data, meta).
Proof using Laws.
  intros Hf Hiv Hq Ha Hadd. destruct (package_length p keyMeta meta data Hf) as [Htotal Hround].
  assert (length (known_part keyMeta iv (zlen (payload meta data (pad_of p keyMeta meta data)))) = (28 + length keyMeta)%nat)
    as Hkn by by apply length_known.
  pose proof (proj2 Hf) as Hs.
  rewrite Pack_spec by (done || lia || apply (ample_le _ _ Ha); lia). rewrite <-Hq.
  destruct (AesGcmOneGoNative.Encrypt _ _ _ _) as [[c t]|] eqn:Ee; [|done]. intros [-> ->]%Ok_pair.
  apply Encrypt_ok in Ee as (Hc & Ht & Hd); [|lia]. rewrite <-Hc in Hd, Hkn, Htotal |- *.
  exists c. split_and!; [done|done|rewrite !length_app; lia|]. intros inTag Htag.
  rewrite Unpack_spec, Hd by (done || lia || apply (ample_le _ _ Ha); lia).
  assert (match inTag with Some i => negb (bool_decide (t = i)) | None => false end = false) as ->.
  { destruct Htag as [->| ->]; [done|]. by rewrite bool_decide_eq_true_2. }
  apply SeparatePayload_payload. lia.
Qed.

Lemma GetKeyMeta_package tag keyMeta iv c : length tag = 16%nat -> length iv = 12%nat ->
  44 + zlen keyMeta + zlen c < 2 ^ 64 ->
  AesGcmPackager.GetKeyMeta (tag ++ known_part keyMeta iv (zlen c) ++ c) = Ok keyMeta.
Proof.
  intros Ht Hiv Hf. pose proof (length_known keyMeta iv (zlen c) Hiv) as Hkn.
  assert (zlen (tag ++ known_part keyMeta iv (zlen c) ++ c) = 44 + zlen keyMeta + zlen c) as Hlen
    by (rewrite !length_app; lia).
  unfold AesGcmPackager.GetKeyMeta. rewrite Hlen. change AesGcmPackager.sk_sealMetaSize with 44.
  rewrite (proj2 (Z.ltb_ge _ 44)) by lia.
  assert (tag ++ known_part keyMeta iv (zlen c) ++ c = (tag ++ iv ++ le64 (zlen c)) ++ le64 (zlen keyMeta) ++ keyMeta ++ c) as E
    by (unfold known_part; by rewrite <-!app_assoc).
  assert (zlen (tag ++ iv ++ le64 (zlen c)) = 36) as Hp by (rewrite !length_app, length_le64; lia).
  rewrite E, (read64_at _ (zlen keyMeta)) by (unfold fits; lia). cbn [mbind result_bind].
  rewrite wrap_small by (unfold fits; lia). rewrite (proj2 (Z.ltb_ge _ _)) by lia.
  rewrite (app_assoc _ (le64 (zlen keyMeta))). apply between_at; rewrite length_app, length_le64; lia.
Qed.

(** A package is whole blocks, at most one more than it must be, and gives
    back what was packed: [Unpack] with the key and the additional data, and with
    any block size and the tag or none, the data and the metadata, and
    [GetKeyMeta], without a key, the metadata of the key. *)
Theorem pack_roundtrip p q keyMeta meta data addData iv inTag pkg tag :
  parts_fit p keyMeta meta data -> length iv = 12%nat ->
  AesGcmPackager.m_key q = AesGcmPackager.m_key p -> inTag = None \/ inTag = Some tag ->
  ample (60 + zlen keyMeta + zlen meta + zlen data + AesGcmPackager.m_sealedBlockSize p + zlen addData) ->
  zlen addData < 2 ^ 32 ->
  AesGcmPackager.Pack p keyMeta meta data addData iv = Ok (pkg, tag) ->
  AesGcmPackager.Unpack q pkg addData inTag = Ok (data, meta) /\
  AesGcmPackager.GetKeyMeta pkg = Ok keyMeta /\
  (AesGcmPackager.m_sealedBlockSize p | zlen pkg) /\
  60 + zlen keyMeta + zlen meta + zlen data <= zlen pkg
    < 60 + zlen keyMeta + zlen meta + zlen data + AesGcmPackager.m_sealedBlockSize p.
Proof using Laws.
  intros Hf Hiv Hq Htag Ha Hadd Hp. pose proof (package_length p keyMeta meta data Hf) as [_ Hround].
  destruct (Unpack_Pack p q _ _ _ _ _ _ _ Hf Hiv Hq Ha Hadd Hp) as (c & E & Ht & Hlen & Hun).
  pose proof (proj2 Hf) as Hs. pose proof (length_known keyMeta iv (zlen c) Hiv) as Hkn. split_and!.
  - by apply Hun.
  - rewrite E in Hlen |- *. rewrite !length_app in Hlen. apply GetKeyMeta_package; [done|done|lia].
  - rewrite Hlen. apply Z.divide_factor_r.
  - lia.
  - lia.
Qed.

(** *** What is not checked *)

(** The sizes in a package are read before its length is looked at. *)
Lemma Unpack_short p package addData inTag : zlen package < 36 ->
  AesGcmPackager.Unpack p package addData inTag = Throw (Undefined "pointers outside of a vector").
Proof.
  intros Hl. unfold AesGcmPackager.Unpack, read64, between.
  by rewrite (proj2 (Z.leb_gt (28 + 8) (zlen package))), andb_false_r by lia.
Qed.

(** A size of the key's metadata for which the sum wraps passes the check of the
    package's length, before anything was authenticated, and ends the known part
    before it begins. *)
Lemma Unpack_wraps p tag iv rest addData inTag keyMetaSize payloadSize :
  length tag = 16%nat -> length iv = 12%nat -> 16 <= zlen addData < 2 ^ 32 -> ample (2 ^ 32) ->
  2 ^ 64 - 44 <= keyMetaSize < 2 ^ 64 - 28 -> payloadSize = u64 (zlen rest - keyMetaSize) -> 44 + zlen rest < 2 ^ 64 ->
  AesGcmPackager.Unpack p (tag ++ iv ++ le64 payloadSize ++ le64 keyMetaSize ++ rest) addData inTag
  = Throw (Undefined "pointers outside of a vector").
Proof.
  intros Ht Hiv Hadd Ha Hk Hpay Hr. set (package := tag ++ _).
  assert (read64 package 28 = Ok payloadSize) as R1.
  { unfold package. rewrite app_assoc. apply read64_at; [rewrite length_app; lia|]. subst payloadSize. by apply wrap_fits. }
  assert (read64 package 36 = Ok keyMetaSize) as R2.
  { unfold package. rewrite 2!app_assoc. apply read64_at; [rewrite !length_app, length_le64; lia|unfold fits; lia]. }
  assert (zlen package = 44 + zlen rest) as Hlen by (unfold package; rewrite !length_app, !length_le64; lia).
  assert (u64 (44 + keyMetaSize) = 44 + keyMetaSize - 2 ^ 64) as Hfp.
  { symmetry. apply Z.mod_unique_pos with 1; lia. }
  unfold AesGcmPackager.Unpack. rewrite R1, R2. cbn [mbind result_bind]. rewrite Hlen.
  assert (u64 (u64 (44 + keyMetaSize) + payloadSize) = 44 + zlen rest) as ->.
  { subst payloadSize. autorewrite with word. replace (44 + keyMetaSize + (zlen rest - keyMetaSize)) with (44 + zlen rest) by lia.
    apply wrap_small. unfold fits. lia. }
  rewrite Z.eqb_refl. cbn [negb]. rewrite (proj2 (Z.ltb_lt 0 (zlen addData))) by lia.
  change AesGcmPackager.sk_knownAddSize with 28.
  assert (u64 (28 + keyMetaSize + zlen addData) <= 2 ^ 32) as Hw.
  { assert (28 + keyMetaSize + zlen addData - 2 ^ 64 = u64 (28 + keyMetaSize + zlen addData)); [|lia].
    apply Z.mod_unique_pos with 1; lia. }
  rewrite (room_ample _ _ Ha) by (pose proof (wrap_fits 64 (28 + keyMetaSize + zlen addData)); unfold fits in *; lia).
  cbn [mbind result_bind]. unfold between at 1.
  by rewrite Hfp, (proj2 (Z.leb_gt 16 _)), andb_false_r by lia.
Qed.
End packages.

(** ** An instance *)

(** A cipher that is none: the text backwards, with a checksum. *)
Definition checksum (k iv aad p : bytes) : bytes := replicate 16 (foldr Z.add 0 (k ++ iv ++ aad ++ p) mod 256).
Definition backwards : GcmSdk := {|
  sgx_encrypt k iv aad p := Some (rev p, checksum k iv aad p);
  sgx_decrypt k iv aad c t := if bool_decide (checksum k iv aad (rev c) = t) then Some (rev c) else None |}.

Lemma backwards_laws : @GcmLaws backwards.
Proof.
  split; intros k iv aad p c t; cbn; intros [= <- <-].
  - rewrite length_rev. done.
  - by rewrite rev_involutive, bool_decide_eq_true_2.
Qed.

#[local] Existing Instances backwards backwards_laws.
#[local] Instance pack_allocator : Allocator := fun n => n <=? 2 ^ 33.

Definition sample_packager : AesGcmPackager.t := AesGcmPackager.mk (replicate 16 7) 128.
Definition sample_iv : bytes := replicate 12 3.

Lemma pack_roundtrip_witness :
  let p := sample_packager in
  let r := AesGcmPackager.Pack p [9; 9] [1] [2; 3; 4] [5; 6] sample_iv in
  match r with
  | Ok (pkg, tag) => AesGcmPackager.Unpack p pkg [5; 6] (Some tag) = Ok ([2; 3; 4], [1]) /\ zlen pkg = 128
  | Throw _ => False
  end.
Proof.
  intros p r. destruct r as [[pkg tag]|] eqn:E; [|by vm_compute in E].
  destruct (pack_roundtrip p p [9; 9] [1] [2; 3; 4] [5; 6] sample_iv (Some tag) pkg tag) as (Hu & _ & [n Hn] & Hl).
  - unfold parts_fit. cbn. lia.
  - done.
  - done.
  - by right.
  - intros m Hm. cbn in Hm. unfold reserve, pack_allocator. lia.
  - cbn. lia.
  - done.
  - cbn in Hl, Hn. split; [done|]. lia.
Defined.
