(* ===== verification/SecureSocket.v ===== *)
(** * The sockets between enclaves

    [SimpleSysIO/StreamSocketBase.hpp]: what every stream socket offers on top of
    its [SendRaw] and [RecvRaw]; and
    [DecentEnclave/Common/AesGcmStreamSocket.hpp]: a stream socket that sends
    packages over another one, under keys and counters of its own for each
    direction. *)

From stdpp Require Import strings.
From S2P Require Import Prelude AesGcm.

(** ** Stream sockets *)

(** [SendRaw] returns how much it sent, [RecvRaw] at most so many bytes. *)
Class StreamSocket (W : Type) := {
  SendRaw : bytes -> stx W Fault Z;
  RecvRaw : Z -> stx W Fault bytes }.

(** How often a loop calls the socket before it counts as waiting for ever. *)
Class Patience := patience : nat.

Definition waits {W A} : stx W Fault A := fun s => (s, Throw Waiting).
Definition pure {W A} (r : result Fault A) : stx W Fault A := fun s => (s, r).
Definition get {W} : stx W Fault W := fun s => (s, Ok s).
Definition modify {W} (f : W -> W) : stx W Fault unit := fun s => (f s, Ok tt).

Module StreamSocketBase.
Section socket.
Context `{Alloc : Allocator} `{Pat : Patience} `{Sock : StreamSocket W}.

Fixpoint SendLoop (fuel : nat) (data : bytes) (sent : Z) : stx W Fault unit :=
  if sent <? zlen data then
    match fuel with
    | O => waits
    | S fuel =>
      n ← SendRaw (drop (Z.to_nat sent) data);
      SendLoop fuel data (u64 (sent + n))
    end
  else mret tt.

Definition SendRawUntilComplete (data : bytes) : stx W Fault unit := SendLoop patience data 0.

(** [data]: what the buffer holds already. *)
Fixpoint RecvLoop (fuel : nat) (size : Z) (data : bytes) : stx W Fault bytes :=
  if zlen data <? size then
    match fuel with
    | O => waits
    | S fuel =>
      d ← RecvRaw (size - zlen data);
      RecvLoop fuel size (data ++ d)
    end
  else mret data.

Definition RecvRawUntilComplete (size : Z) : stx W Fault bytes := RecvLoop patience size [].

Definition SendBytes (data : bytes) : stx W Fault unit := SendRawUntilComplete data.

Definition RecvBytes (dataSize : Z) : stx W Fault bytes :=
  _ ← pure (vec dataSize);
  RecvRawUntilComplete dataSize.

(** [SendPrimitive] and [RecvPrimitive] of a [uint64_t]. *)
Definition SendPrimitive (n : Z) : stx W Fault unit := SendRawUntilComplete (le64 n).
Definition RecvPrimitive : stx W Fault Z :=
  b ← RecvRawUntilComplete 8;
  mret (be_val (rev b)).

Definition SizedSendBytes (data : bytes) : stx W Fault unit :=
  SendPrimitive (zlen data) ;;
  SendBytes data.

Definition SizedRecvBytes : stx W Fault bytes :=
  dataSize ← RecvPrimitive;
  RecvBytes dataSize.
End socket.
End StreamSocketBase.

(** ** The encrypted socket *)

(** [mbedTLScpp::Hkdf<SHA256>]: key, label and salt. *)
Class KeyDerivation := Hkdf : bytes -> bytes -> bytes -> bytes.

Module AesGcmStreamSocket.
Definition sk_packBlockSize : Z := 128.
Definition sk_maxCounter : Z := 2 ^ 64 - 1.

(** The keys of one direction and its counter, [AddData[2]]. *)
Record Direction := mkDirection { d_secKey : bytes; d_makKey : bytes; d_counter : Z }.

(** [m_rand]: what the generator will return. *)
Record t (W : Type) := mk {
  m_rand : list bytes;
  m_self : Direction;
  m_peer : Direction;
  m_socket : W;
  m_recvBuf : bytes }.
Arguments mk {W}. Arguments m_rand {W}. Arguments m_self {W}. Arguments m_peer {W}.
Arguments m_socket {W}. Arguments m_recvBuf {W}.

Definition set_rand {W} (r : list bytes) (s : t W) : t W := mk r (m_self s) (m_peer s) (m_socket s) (m_recvBuf s).
Definition set_self {W} (d : Direction) (s : t W) : t W := mk (m_rand s) d (m_peer s) (m_socket s) (m_recvBuf s).
Definition set_peer {W} (d : Direction) (s : t W) : t W := mk (m_rand s) (m_self s) d (m_socket s) (m_recvBuf s).
Definition set_socket {W} (x : W) (s : t W) : t W := mk (m_rand s) (m_self s) (m_peer s) x (m_recvBuf s).
Definition set_recvBuf {W} (b : bytes) (s : t W) : t W := mk (m_rand s) (m_self s) (m_peer s) (m_socket s) b.

(** The constructor. *)
Definition create {W} (secretKey maskKey : bytes) (sock : W) (rand : list bytes) : t W :=
  mk rand (mkDirection secretKey maskKey 0) (mkDirection secretKey maskKey 0) sock [].

(** [AddData]: the masking key and the counter. *)
Definition AddData (d : Direction) : bytes := d_makKey d ++ le64 (d_counter d).

Section socket.
Context `{Alloc : Allocator} `{Gcm : GcmSdk} `{Kdf : KeyDerivation} `{Pat : Patience}.

Definition GetSecKeyDerLabel : bytes := map (fun a => Z.of_N (Ascii.N_of_ascii a)) (String.list_ascii_of_string "next_secret_key").
Definition GetMakKeyDerLabel : bytes := map (fun a => Z.of_N (Ascii.N_of_ascii a)) (String.list_ascii_of_string "next_maskin_key").

Definition AesGcm (d : Direction) : AesGcmPackager.t := AesGcmPackager.mk (d_secKey d) sk_packBlockSize.

Definition RefreshKeys (d : Direction) : Direction :=
  mkDirection (Hkdf (d_secKey d) GetSecKeyDerLabel []) (Hkdf (d_makKey d) GetMakKeyDerLabel []) 0.

Definition CheckKeysLifetime (d : Direction) : Direction :=
  if sk_maxCounter <=? d_counter d then RefreshKeys d
  else mkDirection (d_secKey d) (d_makKey d) (u64 (d_counter d + 1)).

Context `{Sock : StreamSocket W}.

(** A call of the socket below. *)
Definition on_socket {A} (m : stx W Fault A) : stx (t W) Fault A :=
  fun s => let '(x, r) := m (m_socket s) in (set_socket x s, r).

Definition Rand : stx (t W) Fault bytes :=
  s ← get;
  match m_rand s with
  | iv :: rest => modify (set_rand rest) ;; mret iv
  | [] => pure (Throw (Thrown "Rand"))
  end.

Definition EncryptMsg (inMsg : bytes) : stx (t W) Fault bytes :=
  iv ← Rand;
  s ← get;
  '(res, _) ← pure (AesGcmPackager.Pack (AesGcm (m_self s)) [] [] inMsg (AddData (m_self s)) iv);
  modify (set_self (CheckKeysLifetime (m_self s))) ;;
  mret res.

Definition DecryptMsg (inMsg : bytes) : stx (t W) Fault bytes :=
  s ← get;
  '(res, _) ← pure (AesGcmPackager.Unpack (AesGcm (m_peer s)) inMsg (AddData (m_peer s)) None);
  modify (set_peer (CheckKeysLifetime (m_peer s))) ;;
  mret res.

Definition SendRaw (buf : bytes) : stx (t W) Fault Z :=
  encBlock ← EncryptMsg buf;
  on_socket (StreamSocketBase.SizedSendBytes encBlock) ;;
  mret (zlen buf).

(** What [size] bytes of the buffer are, and what stays in it. *)
Definition TakeBuffer (size : Z) : stx (t W) Fault bytes :=
  s ← get;
  let isOutBufEnough := zlen (m_recvBuf s) <=? size in
  let byteToCopy := Z.to_nat (if isOutBufEnough then zlen (m_recvBuf s) else size) in
  modify (set_recvBuf (if isOutBufEnough then [] else drop byteToCopy (m_recvBuf s))) ;;
  mret (take byteToCopy (m_recvBuf s)).

Definition RecvRaw (size : Z) : stx (t W) Fault bytes :=
  s ← get;
  (if zlen (m_recvBuf s) =? 0 then
    encBlock ← on_socket StreamSocketBase.SizedRecvBytes;
    res ← DecryptMsg encBlock;
    modify (set_recvBuf res)
  else mret tt) ;;
  TakeBuffer size.
End socket.
End AesGcmStreamSocket.

#[export] Instance AesGcm_socket `{Alloc : Allocator} `{Gcm : GcmSdk} `{Kdf : KeyDerivation} `{Pat : Patience}
  `{Sock : StreamSocket W} : StreamSocket (AesGcmStreamSocket.t W) := {|
  SendRaw := AesGcmStreamSocket.SendRaw;
  RecvRaw := AesGcmStreamSocket.RecvRaw |}.

(** ** A reliable stream *)

(** What TCP promises: bytes arrive in order, cut up anyhow.  [outgoing]: all that
    was sent; [incoming]: what has arrived and was not read; [deliver]: bytes
    arrive. *)
Class ReliableStream (W : Type) `{StreamSocket W} := {
  outgoing : W -> bytes;
  incoming : W -> bytes;
  deliver : bytes -> W -> W;
  SendRaw_stream : forall data s, data <> [] -> exists n s', SendRaw data s = (s', Ok (Z.of_nat n)) /\
    (0 < n <= length data)%nat /\ outgoing s' = outgoing s ++ take n data /\ incoming s' = incoming s;
  RecvRaw_stream : forall size s, 0 < size -> incoming s <> [] -> exists d s', RecvRaw size s = (s', Ok d) /\
    0 < zlen d <= size /\ incoming s = d ++ incoming s' /\ outgoing s' = outgoing s;
  RecvRaw_waits : forall size s, 0 < size -> incoming s = [] -> RecvRaw size s = (s, Throw Waiting);
  deliver_stream : forall b s, incoming (deliver b s) = incoming s ++ b /\ outgoing (deliver b s) = outgoing s }.

Section stream.
Context `{Alloc : Allocator} `{Pat : Patience} `{Sock : StreamSocket W} `{!ReliableStream W}.
Import StreamSocketBase.

Lemma SendLoop_stream fuel data sent (s : W) :
  0 <= sent <= zlen data -> zlen data - sent <= Z.of_nat fuel -> zlen data < 2 ^ 64 ->
  exists s', SendLoop fuel data sent s = (s', Ok tt) /\
    outgoing s' = outgoing s ++ drop (Z.to_nat sent) data /\ incoming s' = incoming s.
Proof.
  revert sent s. induction fuel as [|fuel IH]; intros sent s Hsent Hfuel Hlen; cbn [SendLoop].
  - rewrite (proj2 (Z.ltb_ge _ _)) by lia. exists s. rewrite drop_ge, app_nil_r by lia. done.
  - destruct (Z.ltb_spec sent (zlen data)) as [Hlt|Hge].
    2: { exists s. rewrite drop_ge, app_nil_r by lia. done. }
    destruct (SendRaw_stream (drop (Z.to_nat sent) data) s) as (n & s1 & E & Hn & Ho & Hi).
    { intros Hd. apply (f_equal length) in Hd. rewrite length_drop in Hd. cbn in Hd. lia. }
    rewrite length_drop in Hn. unfold mbind, stx_bind. rewrite E, wrap_small by (unfold fits; lia).
    destruct (IH (sent + Z.of_nat n) s1) as (s2 & E2 & Ho2 & Hi2); [lia|lia|done|].
    exists s2. rewrite E2. split; [done|]. split; [|congruence].
    rewrite Ho2, Ho, Z2Nat.inj_add, Nat2Z.id, <-drop_drop, <-app_assoc, take_drop by lia. done.
Qed.

Lemma SendRawUntilComplete_stream data (s : W) : zlen data <= Z.of_nat patience -> zlen data < 2 ^ 64 ->
  exists s', SendRawUntilComplete data s = (s', Ok tt) /\
    outgoing s' = outgoing s ++ data /\ incoming s' = incoming s.
Proof. intros Hp Hl. by apply (SendLoop_stream patience data 0 s); lia. Qed.

Lemma RecvLoop_stream fuel size data (s : W) :
  zlen data <= size <= zlen data + zlen (incoming s) -> size - zlen data <= Z.of_nat fuel ->
  exists d s', RecvLoop fuel size data s = (s', Ok (data ++ d)) /\ zlen data + zlen d = size /\
    incoming s = d ++ incoming s' /\ outgoing s' = outgoing s.
Proof.
  revert data s. induction fuel as [|fuel IH]; intros data s Hsize Hfuel; cbn [RecvLoop].
  - rewrite (proj2 (Z.ltb_ge _ _)) by lia. exists [], s. rewrite app_nil_r. cbn. split_and!; (done || lia).
  - destruct (Z.ltb_spec (zlen data) size) as [Hlt|Hge].
    2: { exists [], s. rewrite app_nil_r. cbn. split_and!; (done || lia). }
    destruct (RecvRaw_stream (size - zlen data) s) as (d & s1 & E & Hd & Hi & Ho); [lia| |].
    { intros Hi. rewrite Hi in Hsize. cbn in Hsize. lia. }
    pose proof (f_equal length Hi) as Hli. rewrite length_app in Hli.
    unfold mbind, stx_bind. rewrite E.
    destruct (IH (data ++ d) s1) as (d2 & s2 & E2 & Hl2 & Hi2 & Ho2); [rewrite length_app; lia|rewrite length_app; lia|].
    exists (d ++ d2), s2. rewrite E2, app_assoc. rewrite length_app in Hl2 |- *. rewrite Hi, Hi2, app_assoc.
    split_and!; (done || lia || congruence).
Qed.

Lemma RecvRawUntilComplete_stream size (s : W) : 0 <= size <= zlen (incoming s) -> size <= Z.of_nat patience ->
  exists d s', RecvRawUntilComplete size s = (s', Ok d) /\ zlen d = size /\
    incoming s = d ++ incoming s' /\ outgoing s' = outgoing s.
Proof. intros Hs Hp. apply (RecvLoop_stream patience size [] s); cbn [length]; lia. Qed.

(** What is sent with its size is received whole, and nothing after it is read. *)
Definition frame (data : bytes) : bytes := le64 (zlen data) ++ data.

Definition patient (data : bytes) : Prop := 8 <= Z.of_nat patience /\ zlen data <= Z.of_nat patience /\ zlen data < 2 ^ 64.

Lemma SizedSendBytes_stream data (s : W) : patient data ->
  exists s', SizedSendBytes data s = (s', Ok tt) /\ outgoing s' = outgoing s ++ frame data /\ incoming s' = incoming s.
Proof.
  intros (H8 & Hp & Hl). unfold SizedSendBytes, SendPrimitive, SendBytes, mbind, stx_bind.
  destruct (SendRawUntilComplete_stream (le64 (zlen data)) s) as (s1 & E1 & Ho1 & Hi1); [by rewrite length_le64|by rewrite length_le64|].
  rewrite E1. destruct (SendRawUntilComplete_stream data s1 Hp Hl) as (s2 & E2 & Ho2 & Hi2). exists s2. rewrite E2.
  split; [done|]. split; [|congruence]. rewrite Ho2, Ho1. unfold frame. by rewrite app_assoc.
Qed.

Lemma SizedRecvBytes_stream data rest (s : W) : patient data -> reserve (zlen data) = true ->
  incoming s = frame data ++ rest ->
  exists s', SizedRecvBytes s = (s', Ok data) /\ incoming s' = rest /\ outgoing s' = outgoing s.
Proof.
  intros (H8 & Hp & Hl) Hr Hin. unfold SizedRecvBytes, RecvPrimitive, RecvBytes, pure, vec, mbind, stx_bind.
  pose proof (f_equal length Hin) as Hlen. unfold frame in Hlen. rewrite !length_app, length_le64 in Hlen.
  destruct (RecvRawUntilComplete_stream 8 s) as (h & s1 & E1 & Hh & Hi1 & Ho1); [lia|done|].
  unfold frame in Hin. rewrite Hi1, <-app_assoc in Hin.
  apply app_inj_1 in Hin as [-> Hi2]; [|rewrite length_le64; lia].
  rewrite E1. cbn [mret stx_ret]. rewrite le64_val by (unfold fits; lia). rewrite Hr.
  destruct (RecvRawUntilComplete_stream (zlen data) s1) as (d & s2 & E2 & Hd & Hi3 & Ho3);
    [rewrite Hi2, length_app; lia|done|].
  rewrite Hi2 in Hi3. apply app_inj_1 in Hi3 as [-> Hi3]; [|lia]. exists s2. rewrite E2. split_and!; congruence.
Qed.

(** With nothing there it waits, and loses nothing. *)
Lemma SizedRecvBytes_waits (s : W) : incoming s = [] -> SizedRecvBytes s = (s, Throw Waiting).
Proof.
  intros Hi. unfold SizedRecvBytes, RecvPrimitive, RecvRawUntilComplete, mbind, stx_bind.
  destruct patience as [|fuel]; [done|]. cbn [RecvLoop]. change (zlen [] <? 8) with true.
  unfold mbind, stx_bind. by rewrite (RecvRaw_waits (8 - zlen []) s).
Qed.
End stream.

(** ** Two encrypted sockets over a reliable stream *)

(** A key has sixteen bytes. *)
Class KeyDerivationLaws `{Kdf : KeyDerivation} := Hkdf_length : forall k l s, length (Hkdf k l s) = 16%nat.

(** An application calls an end, and what that one sends arrives at the other. *)
Inductive Call := Send (data : bytes) | Recv (size : Z).
Inductive Outcome := Sent (size : Z) | Got (data : bytes) | Failed (f : Fault).

Section channel.
Context `{Alloc : Allocator} `{Gcm : GcmSdk} `{Kdf : KeyDerivation} `{Pat : Patience}.
Context `{Sock : StreamSocket W} `{Str : !ReliableStream W}.
Abbreviation End := (AesGcmStreamSocket.t W).
Import AesGcmStreamSocket.

Definition call (c : Call) (me other : End) : End * End * Outcome :=
  match c with
  | Send data =>
    let '(me', r) := AesGcmStreamSocket.SendRaw data me in
    let sent := drop (length (outgoing (m_socket me))) (outgoing (m_socket me')) in
    (me', set_socket (deliver sent (m_socket other)) other,
     match r with Ok n => Sent n | Throw e => Failed e end)
  | Recv size =>
    let '(me', r) := AesGcmStreamSocket.RecvRaw size me in
    (me', other, match r with Ok d => Got d | Throw e => Failed e end)
  end.

(** The calls of both ends ([true]: the first), one after the other. *)
Fixpoint conversation (calls : list (bool * Call)) (a b : End) : End * End * list Outcome :=
  match calls with
  | [] => (a, b, [])
  | (first, c) :: calls =>
    let '(a, b, o) := if first then call c a b else let '(b, a, o) := call c b a in (a, b, o) in
    let '(a, b, os) := conversation calls a b in
    (a, b, o :: os)
  end.

(** *** The abstract channel *)

(** A queue of messages in each direction.  A message is sent whole or not at all;
    a read takes from the first message only. *)
Inductive channel_step : Call -> Outcome -> list bytes * list bytes -> list bytes * list bytes -> Prop :=
| step_sent data out inc : channel_step (Send data) (Sent (zlen data)) (out, inc) (out ++ [data], inc)
| step_not_sent data what out inc : channel_step (Send data) (Failed (Thrown what)) (out, inc) (out, inc)
| step_nothing size out : channel_step (Recv size) (Failed Waiting) (out, []) (out, [])
| step_whole size m out inc : zlen m <= size -> channel_step (Recv size) (Got m) (out, m :: inc) (out, inc)
| step_part size m out inc : 0 <= size < zlen m ->
    channel_step (Recv size) (Got (take (Z.to_nat size) m)) (out, m :: inc) (out, drop (Z.to_nat size) m :: inc).

Inductive channel_steps : list (bool * Call) -> list Outcome -> list bytes * list bytes -> list bytes * list bytes -> Prop :=
| steps_nil q : channel_steps [] [] q q
| steps_first c o calls os q q1 q2 : channel_step c o q q1 -> channel_steps calls os q1 q2 ->
    channel_steps ((true, c) :: calls) (o :: os) q q2
| steps_second c o calls os ab ba ab1 ba1 q2 : channel_step c o (ba, ab) (ba1, ab1) ->
    channel_steps calls os (ab1, ba1) q2 -> channel_steps ((false, c) :: calls) (o :: os) (ab, ba) q2.

(** The bytes an end has sent, and the ones the other has got. *)
Fixpoint sent_by (first : bool) (calls : list (bool * Call)) (os : list Outcome) : bytes :=
  match calls, os with
  | (who, Send data) :: calls, Sent _ :: os => (if Bool.eqb who first then data else []) ++ sent_by first calls os
  | _ :: calls, _ :: os => sent_by first calls os
  | _, _ => []
  end.
Fixpoint got_by (first : bool) (calls : list (bool * Call)) (os : list Outcome) : bytes :=
  match calls, os with
  | (who, Recv _) :: calls, Got d :: os => (if Bool.eqb who first then d else []) ++ got_by first calls os
  | _ :: calls, _ :: os => got_by first calls os
  | _, _ => []
  end.

Lemma channel_fifo calls os q q' : channel_steps calls os q q' ->
  concat q.1 ++ sent_by true calls os = got_by false calls os ++ concat q'.1 /\
  concat q.2 ++ sent_by false calls os = got_by true calls os ++ concat q'.2.
Proof.
  induction 1 as [q|c o calls os q q1 q2 Hs _ [IH1 IH2]|c o calls os ab ba ab1 ba1 q2 Hs _ [IH1 IH2]].
  - cbn. by rewrite !app_nil_r.
  - inversion Hs; subst; cbn in *; rewrite ?concat_app in IH1; cbn in *; rewrite ?app_nil_r, <-?app_assoc in *; split;
      try done; rewrite <-?IH2; rewrite ?app_assoc, ?take_drop; done.
  - inversion Hs; subst; cbn in *; rewrite ?concat_app in IH2; cbn in *; rewrite ?app_nil_r, <-?app_assoc in *; split;
      try done; rewrite <-?IH1; rewrite ?app_assoc, ?take_drop; done.
Qed.

(** *** What is on its way *)

(** A package that the other end will open, and the state that leaves it in. *)
Definition sealed (d : Direction) (msg pkg : bytes) : Prop :=
  patient pkg /\ reserve (zlen pkg) = true /\ AesGcmPackager.Unpack (AesGcm d) pkg (AddData d) None = Ok (msg, []).

Inductive in_flight : Direction -> list bytes -> bytes -> Direction -> Prop :=
| flight_nil d : in_flight d [] [] d
| flight_cons d msg pkg msgs wire d' : sealed d msg pkg -> in_flight (CheckKeysLifetime d) msgs wire d' ->
    in_flight d (msg :: msgs) (frame pkg ++ wire) d'.

Lemma in_flight_snoc d msgs wire d' msg pkg : in_flight d msgs wire d' -> sealed d' msg pkg ->
  in_flight d (msgs ++ [msg]) (wire ++ frame pkg) (CheckKeysLifetime d').
Proof.
  intros H Hs. induction H as [d|d m p msgs wire d' Hm _ IH].
  - rewrite <-(app_nil_r (frame pkg)), app_nil_l. apply flight_cons; [done|constructor].
  - rewrite <-app_assoc. cbn [app]. apply flight_cons; [done|by apply IH].
Qed.

Lemma in_flight_inv d msgs wire d' : in_flight d msgs wire d' ->
  match msgs with
  | [] => wire = [] /\ d' = d
  | msg :: msgs => exists pkg wire', sealed d msg pkg /\ wire = frame pkg ++ wire' /\ in_flight (CheckKeysLifetime d) msgs wire' d'
  end.
Proof. destruct 1; eauto. Qed.

(** The messages an end has yet to read: a part of one in its buffer, and the ones
    on their way. *)
Definition unread (buf : bytes) (msgs : list bytes) : list bytes := match buf with [] => msgs | _ => buf :: msgs end.

Definition half (from to : End) (q : list bytes) : Prop := exists msgs,
  in_flight (m_peer to) msgs (incoming (m_socket to)) (m_self from) /\ unread (m_recvBuf to) msgs = q.

Definition keys_ok (s : End) : Prop :=
  length (d_makKey (m_self s)) = 16%nat /\ Forall (fun iv => length iv = 12%nat) (m_rand s).

Definition linked (a b : End) (q : list bytes * list bytes) : Prop :=
  half a b q.1 /\ half b a q.2 /\ keys_ok a /\ keys_ok b.

(** *** The ends *)

Context `{Laws : !GcmLaws} `{KLaws : !KeyDerivationLaws}.

(** A message for which there is room, in the memory and in the lengths. *)
Definition sendable (data : bytes) : Prop :=
  212 + zlen data < 2 ^ 32 /\ 212 + zlen data <= Z.of_nat patience /\ ample (212 + zlen data).

(** The cipher has refused some text. *)
Definition refused : Prop := exists k iv aad p, sgx_encrypt k iv aad p = None.

Lemma Encrypt_throws k iv aad p e : reserve (zlen p) = true -> AesGcmOneGoNative.Encrypt k iv aad p = Throw e ->
  refused /\ exists what, e = Thrown what.
Proof.
  intros Hr. unfold AesGcmOneGoNative.Encrypt, vec. rewrite Hr. cbn [mbind result_bind].
  destruct (sgx_encrypt _ _ _ _) as [[c t]|] eqn:E; [done|]. intros [= <-].
  split; [by do 4 eexists|by eexists].
Qed.

Lemma CheckKeysLifetime_keys d : length (d_makKey d) = 16%nat -> length (d_makKey (CheckKeysLifetime d)) = 16%nat.
Proof using KLaws. intros H. unfold CheckKeysLifetime. destruct (_ <=? _); [apply Hkdf_length|done]. Qed.

Lemma Pack_sealed d data iv : sendable data -> length (d_makKey d) = 16%nat -> length iv = 12%nat ->
  match AesGcmPackager.Pack (AesGcm d) [] [] data (AddData d) iv with
  | Ok (pkg, _) => sealed d data pkg
  | Throw e => refused /\ exists what, e = Thrown what
  end.
Proof using Laws.
  intros (Hs & Hp & Ha) Hmak Hiv.
  assert (length (AddData d) = 24%nat) as Hadd by (unfold AddData; rewrite length_app, length_le64; lia).
  assert (parts_fit (AesGcm d) [] [] data) as Hf by (unfold parts_fit; cbn; unfold sk_packBlockSize; lia).
  destruct (package_length _ _ _ _ Hf) as [Htotal Hround]. cbn [AesGcm AesGcmPackager.m_sealedBlockSize] in *.
  unfold sk_packBlockSize in *. cbn [length] in *.
  destruct (AesGcmPackager.Pack _ _ _ _ _ _) as [[pkg tag]|e] eqn:E.
  - destruct (Unpack_Pack _ (AesGcm d) _ _ _ (AddData d) _ pkg tag Hf Hiv eq_refl) as (c & _ & _ & Hl & Hu);
      [apply (ample_le _ _ Ha); cbn; unfold sk_packBlockSize; lia|lia|done|].
    cbn [AesGcm AesGcmPackager.m_sealedBlockSize] in Hl. unfold sk_packBlockSize in Hl.
    split_and!; [unfold patient; lia|apply Ha; lia|]. apply Hu. by left.
  - pose proof (length_known [] iv (zlen (payload [] data (pad_of (AesGcm d) [] [] data))) Hiv) as Hk. cbn [length] in Hk.
    rewrite Pack_spec in E by (done || (cbn [length]; lia) || (apply (ample_le _ _ Ha); cbn [length]; lia)).
    destruct (AesGcmOneGoNative.Encrypt _ _ _ _) as [[c t]|e'] eqn:Ee; [done|]. injection E as <-.
    apply Encrypt_throws in Ee; [done|]. apply Ha. lia.
Qed.

(** A message is sealed and framed; or not a thing is sent and the keys stay. *)
Lemma SendRaw_end data me : sendable data -> keys_ok me -> exists me' r,
  AesGcmStreamSocket.SendRaw data me = (me', r) /\ keys_ok me' /\
  m_peer me' = m_peer me /\ m_recvBuf me' = m_recvBuf me /\ m_rand me' = drop 1 (m_rand me) /\
  incoming (m_socket me') = incoming (m_socket me) /\
  ((exists pkg, r = Ok (zlen data) /\ sealed (m_self me) data pkg /\ m_self me' = CheckKeysLifetime (m_self me) /\
      outgoing (m_socket me') = outgoing (m_socket me) ++ frame pkg) \/
   (exists what, r = Throw (Thrown what) /\ (m_rand me = [] \/ refused) /\
      m_self me' = m_self me /\ outgoing (m_socket me') = outgoing (m_socket me))).
Proof using Laws KLaws Str.
  intros Hd [Hmak Hivs]. unfold AesGcmStreamSocket.SendRaw, EncryptMsg, Rand, get, modify, pure, mbind, stx_bind, mret, stx_ret.
  destruct (m_rand me) as [|iv ivs] eqn:Er.
  { do 2 eexists. split; [done|]. split_and!; [|done|done|by rewrite Er|done|]; [by split; [|rewrite Er]|]. right. eauto 6. }
  apply Forall_cons in Hivs as [Hiv Hivs]. cbn [set_rand m_self].
  pose proof (Pack_sealed (m_self me) data iv Hd Hmak Hiv) as Hp.
  destruct (AesGcmPackager.Pack _ _ _ _ _ _) as [[pkg tag]|e].
  - unfold on_socket. cbn [set_rand set_self m_socket].
    destruct (SizedSendBytes_stream pkg (m_socket me)) as (x & E & Ho & Hi); [apply Hp|]. rewrite E.
    do 2 eexists. split; [done|]. split_and!; [|done|done|done|done|].
    + split; [by apply CheckKeysLifetime_keys|done].
    + left. exists pkg. done.
  - destruct Hp as [Href [what ->]]. do 2 eexists. split; [done|]. split_and!; [|done|done|done|done|]; [by split|]. right. eauto 6.
Qed.

Lemma TakeBuffer_spec size (s : End) : 0 <= size ->
  exists s', TakeBuffer size s = (s', Ok (take (Z.to_nat size) (m_recvBuf s))) /\
    s' = set_recvBuf (drop (Z.to_nat size) (m_recvBuf s)) s.
Proof.
  intros Hs. unfold TakeBuffer, get, modify, mbind, stx_bind, mret, stx_ret.
  destruct (Z.leb_spec (zlen (m_recvBuf s)) size) as [Hl|Hl]; [|by eexists].
  rewrite Nat2Z.id, (take_ge _ (length _)), take_ge, drop_ge by lia. by eexists.
Qed.

(** What a read returns and leaves. *)
Lemma RecvRaw_end size me d' msgs : 0 <= size -> in_flight (m_peer me) msgs (incoming (m_socket me)) d' ->
  match unread (m_recvBuf me) msgs with
  | [] => AesGcmStreamSocket.RecvRaw size me = (me, Throw Waiting)
  | m :: q => exists me' msgs', AesGcmStreamSocket.RecvRaw size me = (me', Ok (take (Z.to_nat size) m)) /\
      m_self me' = m_self me /\ m_rand me' = m_rand me /\ outgoing (m_socket me') = outgoing (m_socket me) /\
      in_flight (m_peer me') msgs' (incoming (m_socket me')) d' /\
      unread (m_recvBuf me') msgs' = unread (drop (Z.to_nat size) m) q
  end.
Proof using Str.
  intros Hs Hf. unfold AesGcmStreamSocket.RecvRaw, get, mbind at 1, stx_bind at 1. cbv beta iota.
  destruct (m_recvBuf me) as [|x buf] eqn:Eb; cbn [unread].
  - unfold on_socket, mbind, stx_bind. rewrite Eb. change (zlen [] =? 0) with true. cbv beta iota. apply in_flight_inv in Hf.
    destruct msgs as [|m msgs].
    + rewrite SizedRecvBytes_waits by apply Hf. by destruct me.
    + destruct Hf as (pkg & wire & (Hp & Hr & Hu) & Hw & Hf).
      destruct (SizedRecvBytes_stream pkg wire (m_socket me) Hp Hr Hw) as (y & E & Hi & Ho). rewrite E.
      unfold DecryptMsg, get, pure, modify, mbind, stx_bind, mret, stx_ret. cbn [set_socket m_peer]. rewrite Hu.
      destruct (TakeBuffer_spec size (set_recvBuf m (set_peer (CheckKeysLifetime (m_peer me)) (set_socket y me)))) as (s' & Et & ->); [done|].
      rewrite Et. do 2 eexists. split; [done|]. cbn. rewrite Hi. done.
  - unfold mbind, stx_bind, mret, stx_ret. rewrite Eb, (proj2 (Z.eqb_neq (zlen (x :: buf)) 0)) by (cbn; lia).
    destruct (TakeBuffer_spec size me Hs) as (s' & Et & ->). rewrite Et, Eb. do 2 eexists. split; [done|]. cbn. done.
Qed.

(** *** The channel *)

Definition fair (c : Call) : Prop := match c with Send data => sendable data | Recv size => 0 <= size end.

Definition thrown (o : Outcome) : Prop := exists what, o = Failed (Thrown what).

(** A call of one end. *)
Lemma call_step c me other me' other' o out inc : fair c -> linked me other (out, inc) ->
  call c me other = (me', other', o) -> (exists q, channel_step c o (out, inc) q /\ linked me' other' q) /\
  (length (m_rand me) <= S (length (m_rand me')))%nat /\ m_rand other' = m_rand other /\
  (thrown o -> m_rand me = [] \/ refused).
Proof using Laws KLaws Str.
  intros Hc (Ho & Hi & Hk & Hk'). cbn [fst snd] in *. destruct c as [data|size]; cbn [call].
  - destruct (SendRaw_end data me Hc Hk) as (me1 & r & E & Hk1 & Hp1 & Hb1 & Hrand & Hi1 & Hr).
    rewrite E. intros [= <- <- <-]. apply and_comm. split.
    { rewrite Hrand, length_drop. split_and!; [lia|done|]. destruct Hr as [(pkg & -> & _)|(what & -> & Hr & _)]; [by intros [? [=]]|done]. }
    destruct (deliver_stream (drop (length (outgoing (m_socket me))) (outgoing (m_socket me1))) (m_socket other)) as [Hdi Hdo].
    assert (half other me1 inc) as Hinc by (destruct Hi as (ms & Hf & Hu); exists ms; by rewrite Hp1, Hb1, Hi1).
    assert (half (set_socket (deliver (drop (length (outgoing (m_socket me))) (outgoing (m_socket me1))) (m_socket other)) other) me1 inc)
      as Hinc' by done.
    destruct Ho as (msgs & Hf & Hu). destruct Hr as [(pkg & -> & Hs & Hself & Hout)|(what & -> & _ & Hself & Hout)]; rewrite Hout in *.
    + exists (out ++ [data], inc). split; [constructor|]. split_and!; [|done|done|done].
      rewrite drop_app_length in *. exists (msgs ++ [data]). cbn [set_socket m_socket m_peer m_recvBuf]. rewrite Hdi, Hself. split; [by apply in_flight_snoc|].
      rewrite <-Hu. by destruct (m_recvBuf other).
    + exists (out, inc). split; [constructor|]. split_and!; [|done|done|done].
      rewrite drop_ge in * by done. exists msgs. cbn [set_socket m_socket m_peer m_recvBuf]. by rewrite Hdi, app_nil_r, Hself.
  - destruct Hi as (msgs & Hf & Hu). pose proof (RecvRaw_end size me _ _ Hc Hf) as Hr. rewrite Hu in Hr.
    destruct inc as [|m q].
    + rewrite Hr. intros [= <- <- <-]. split; [|split_and!; [lia|done|by intros [? [=]]]]. exists (out, []). split; [constructor|]. split_and!; [done|by exists msgs|done|done].
    + destruct Hr as (me1 & msgs1 & E & Hself & Hrand & Hout & Hf1 & Hu1). rewrite E. intros [= <- <- <-].
      rewrite Hrand. split; [|split_and!; [lia|done|by intros [? [=]]]].
      exists (out, unread (drop (Z.to_nat size) m) q). split.
      * destruct (Z_le_gt_dec (zlen m) size) as [Hl|Hl].
        -- rewrite take_ge, drop_ge by lia. by constructor.
        -- assert (unread (drop (Z.to_nat size) m) q = drop (Z.to_nat size) m :: q) as ->; [|constructor; cbn in Hc; lia].
           destruct (drop _ m) eqn:Ed; [|done]. apply (f_equal length) in Ed. rewrite length_drop in Ed. cbn in Ed, Hc. lia.
      * split_and!; [|by exists msgs1| |done].
        -- destruct Ho as (ms & Hf2 & Hu2). exists ms. by rewrite Hself.
        -- unfold keys_ok. by rewrite Hself, Hrand.
Qed.

Lemma linked_sym a b ab ba : linked a b (ab, ba) -> linked b a (ba, ab).
Proof. intros (H1 & H2 & H3 & H4). by split_and!. Qed.

Lemma conversation_steps calls a b a' b' os q : Forall (fun c => fair c.2) calls -> linked a b q ->
  conversation calls a b = (a', b', os) -> (exists q', channel_steps calls os q q' /\ linked a' b' q') /\
  (~ refused -> (length calls <= length (m_rand a))%nat -> (length calls <= length (m_rand b))%nat -> Forall (fun o => ~ thrown o) os).
Proof using Laws KLaws Str.
  intros Hc. revert a b a' b' os q. induction Hc as [|[first c] calls Hc _ IH]; intros a b a' b' os [ab ba] Hl; cbn [conversation].
  - intros [= <- <- <-]. split; [exists (ab, ba); split; [constructor|done]|constructor].
  - destruct first.
    + destruct (call c a b) as [[a1 b1] o] eqn:E. destruct (call_step c a b a1 b1 o ab ba Hc Hl E) as ((q1 & Hs & Hl1) & Hr & Hro & Ht).
      destruct (conversation calls a1 b1) as [[a2 b2] os2] eqn:E2. intros [= <- <- <-].
      destruct (IH _ _ _ _ _ _ Hl1 E2) as ((q2 & Hs2 & Hl2) & Hw). split; [exists q2; split; [by econstructor|done]|].
      cbn [length]. intros Hn Ha Hb. constructor; [|apply Hw; [done|lia|rewrite Hro; lia]].
      intros Hth. destruct (Ht Hth) as [H0|H0]; [rewrite H0 in Ha; cbn in Ha; lia|done].
    + destruct (call c b a) as [[b1 a1] o] eqn:E.
      destruct (call_step c b a b1 a1 o ba ab Hc (linked_sym _ _ _ _ Hl) E) as (([ba1 ab1] & Hs & Hl1) & Hr & Hro & Ht).
      destruct (conversation calls a1 b1) as [[a2 b2] os2] eqn:E2. intros [= <- <- <-].
      destruct (IH _ _ _ _ _ _ (linked_sym _ _ _ _ Hl1) E2) as ((q2 & Hs2 & Hl2) & Hw). split; [exists q2; split; [by econstructor|done]|].
      cbn [length]. intros Hn Ha Hb. constructor; [|apply Hw; [done|rewrite Hro; lia|lia]].
      intros Hth. destruct (Ht Hth) as [H0|H0]; [rewrite H0 in Hb; cbn in Hb; lia|done].
Qed.

(** C11. Two sockets with the keys of one handshake, over any reliable stream, are
    a channel of messages: whatever they are called to do and in whatever order,
    and however the stream cuts up the bytes, every call returns what the abstract
    channel returns, in both directions at once and across changes of keys.  So
    what one end has got, followed by what is still on its way, is what the other
    end has sent.  A call throws only if the generator fails or the cipher refuses
    a text. *)
Theorem secure_channel_refines secretKey maskKey x y ivs_a ivs_b calls a b os :
  length maskKey = 16%nat -> Forall (fun iv => length iv = 12%nat) (ivs_a ++ ivs_b) ->
  incoming x = [] -> incoming y = [] -> Forall (fun c => fair c.2) calls ->
  conversation calls (create secretKey maskKey x ivs_a) (create secretKey maskKey y ivs_b) = (a, b, os) ->
  (exists ab ba, channel_steps calls os ([], []) (ab, ba) /\
    sent_by true calls os = got_by false calls os ++ concat ab /\
    sent_by false calls os = got_by true calls os ++ concat ba) /\
  (~ refused -> (length calls <= length ivs_a)%nat -> (length calls <= length ivs_b)%nat -> Forall (fun o => ~ thrown o) os).
Proof using Laws KLaws Str.
  intros Hm Hivs Hx Hy Hc E. apply Forall_app in Hivs as [Ha Hb].
  assert (linked (create secretKey maskKey x ivs_a) (create secretKey maskKey y ivs_b) ([], [])) as Hl.
  { split_and!; [exists []|exists []|by split|by split]; cbn; rewrite ?Hx, ?Hy; by split; [constructor|]. }
  destruct (conversation_steps _ _ _ _ _ _ _ Hc Hl E) as (([ab ba] & Hs & _) & Hw). split; [|exact Hw].
  exists ab, ba. split; [done|]. apply (channel_fifo _ _ _ _ Hs).
Qed.

(** *** Reflection *)

(** Both directions start with the same keys and the same counter, and nothing in
    a package says who made it: what an end has sent comes back to it as a message
    of its peer. *)
Lemma reflected_message_accepted secretKey maskKey x ivs data size me n :
  length maskKey = 16%nat -> Forall (fun iv => length iv = 12%nat) ivs -> incoming x = [] ->
  sendable data -> data <> [] -> 0 <= size ->
  AesGcmStreamSocket.SendRaw data (create secretKey maskKey x ivs) = (me, Ok n) ->
  exists me', AesGcmStreamSocket.RecvRaw size
    (set_socket (deliver (drop (length (outgoing x)) (outgoing (m_socket me))) (m_socket me)) me)
    = (me', Ok (take (Z.to_nat size) data)).
Proof using Laws KLaws Str.
  intros Hm Hivs Hx Hd Hne Hs E.
  destruct (SendRaw_end data (create secretKey maskKey x ivs) Hd) as (me1 & r & E1 & Hk & Hp & Hb & _ & Hi & Hr); [by split|].
  rewrite E in E1. injection E1 as <- <-. cbn [create m_socket m_peer m_self m_recvBuf] in *.
  destruct Hr as [(pkg & _ & Hsl & Hself & Ho)|(what & [=] & _)]. rewrite Ho, drop_app_length.
  set (back := set_socket _ me).
  assert (in_flight (m_peer back) [data] (incoming (m_socket back)) (CheckKeysLifetime (m_peer back))) as Hf.
  { unfold back. cbn [set_socket m_peer m_socket]. rewrite (proj1 (deliver_stream _ _)), Hi, Hx, Hp. cbn [app].
    rewrite <-(app_nil_r (frame pkg)). apply flight_cons; [done|constructor]. }
  pose proof (RecvRaw_end size back _ _ Hs Hf) as Hrecv.
  assert (m_recvBuf back = []) as Hbuf by done. rewrite Hbuf in Hrecv. cbn [unread] in Hrecv.
  destruct Hrecv as (me' & _ & Er & _). by exists me'.
Qed.
End channel.

(** ** Any network *)

Section authentic.
Context `{Alloc : Allocator} `{Gcm : GcmSdk} `{Kdf : KeyDerivation} `{Pat : Patience} `{Sock : StreamSocket W}.
Abbreviation End := (AesGcmStreamSocket.t W).
Import AesGcmStreamSocket.

(** The keys of the session, and what its two ends send under them: the random
    bytes and the text of every message. *)
Context (secretKey maskKey : bytes) (theirs ours : list (bytes * bytes)).

Definition direction (n : nat) : Direction := mkDirection secretKey maskKey (Z.of_nat n).
Definition body_of (msg : bytes) : bytes := payload [] msg (pad_of (AesGcm (direction 0)) [] [] msg).
Definition aad_of (n : nat) (iv msg : bytes) : bytes := known_part [] iv (zlen (body_of msg)) ++ AddData (direction n).

(** The [n]-th message of one of the two ends. *)
Definition nth_of_either (n : nat) (iv msg : bytes) : Prop := theirs !! n = Some (iv, msg) \/ ours !! n = Some (iv, msg).

(** The authenticity of the cipher: under the key, what decrypts is what one of
    the two ends has encrypted. *)
Class Unforgeable : Prop := {
  decrypts_only_made : forall iv aad c t p, sgx_decrypt secretKey iv aad c t = Some p ->
    exists n msg, nth_of_either n iv msg /\ aad = aad_of n iv msg /\ p = body_of msg;
  maskKey_length : length maskKey = 16%nat;
  made_fit : forall n iv msg, nth_of_either n iv msg ->
    length iv = 12%nat /\ 212 + zlen msg < 2 ^ 32 /\ Z.of_nat n < 2 ^ 64 - 1 }.

Lemma le64_inj n m : fits 64 n -> fits 64 m -> le64 n = le64 m -> n = m.
Proof. intros Hn Hm E. rewrite <-(le64_val n), <-(le64_val m), E by done. done. Qed.

Lemma length_aad_of n iv msg : length maskKey = 16%nat -> length iv = 12%nat -> length (aad_of n iv msg) = 52%nat.
Proof.
  intros Hm Hiv. unfold aad_of, AddData. cbn [direction d_makKey d_counter]. rewrite length_app, length_app, length_le64.
  pose proof (length_known [] iv (zlen (body_of msg)) Hiv) as Hk. cbn [length] in Hk. lia.
Qed.

Lemma between_ok b from to w : between b from to = Ok w ->
  0 <= from <= to /\ to <= zlen b /\ w = take (Z.to_nat (to - from)) (drop (Z.to_nat from) b).
Proof.
  unfold between. destruct (_ && _) eqn:E; [|done]. intros [= <-]. rewrite !andb_true_iff, !Z.leb_le in E. split_and!; (done || lia).
Qed.

Lemma Unpack_ok p package addData r : 0 < zlen addData -> AesGcmPackager.Unpack p package addData None = Ok r ->
  exists keyMetaSize known iv encrypted tag out,
    read64 package 36 = Ok keyMetaSize /\ between package 16 (u64 (44 + keyMetaSize)) = Ok known /\
    AesGcmOneGoNative.Decrypt (AesGcmPackager.m_key p) iv (known ++ addData) encrypted tag = Ok out /\
    AesGcmPackager.SeparatePayload out = Ok r.
Proof.
  intros Hadd. unfold AesGcmPackager.Unpack. rewrite (proj2 (Z.ltb_lt 0 (zlen addData)) Hadd). intros H.
  bind_ok H. bind_ok H. destruct (negb _); [done|]. bind_ok H. bind_ok H. bind_ok H. bind_ok H. bind_ok H.
  bind_ok E1. bind_ok E1. injection E1 as <-. eauto 12.
Qed.

(** The additional data of a package is that of a message only if the receiver is
    at that message: the sizes in front say where the keys and the counter begin. *)
Lemma aad_binds package keyMetaSize known n i iv msg : length maskKey = 16%nat -> length iv = 12%nat ->
  Z.of_nat n < 2 ^ 64 -> Z.of_nat i < 2 ^ 64 ->
  read64 package 36 = Ok keyMetaSize -> between package 16 (u64 (44 + keyMetaSize)) = Ok known ->
  cast32 (known ++ AddData (direction n)) = aad_of i iv msg -> n = i.
Proof.
  intros Hm Hiv Hn Hi Hk Hb E.
  set (pl := zlen (body_of msg)) in *.
  assert (length (AddData (direction n)) = 24%nat) as Hadd by (unfold AddData; rewrite length_app, length_le64; cbn; lia).
  pose proof (length_known [] iv pl Hiv) as Hkp. cbn [length] in Hkp.
  apply between_ok in Hb as (Hfp & Hle & Hknown). set (fp := u64 (44 + keyMetaSize)) in *.
  assert (length known = Z.to_nat (fp - 16)) as Hlk by (rewrite Hknown, length_take, length_drop; lia).
  pose proof (f_equal length E) as HlE. rewrite length_aad_of in HlE by done.
  set (X := known ++ AddData (direction n)) in *.
  assert (length X = (length known + 24)%nat) as HX by (unfold X; rewrite length_app; lia).
  assert (fp = 44) as Hfp44.
  { assert (length (cast32 X) <= length X)%nat by (unfold cast32; rewrite length_take; lia).
    unfold read64 in Hk. bind_ok Hk. injection Hk as Hk. apply between_ok in E0 as (_ & _ & Ha).
    assert (take 28 known = known_part [] iv pl) as Htk.
    { assert (take 28 (cast32 X) = take 28 (aad_of i iv msg)) as Et by by rewrite E.
      unfold aad_of in Et. fold pl in Et. rewrite take_app_le, (take_ge (known_part [] iv pl)) in Et by lia. rewrite <-Et. unfold cast32 in HlE |- *.
      set (k := Z.to_nat (u32 (zlen X))) in *. rewrite length_take in HlE.
      rewrite take_take. unfold X. rewrite take_app_le by lia. f_equal. lia. }
    assert (a = le64 0) as ->.
    { rewrite Ha. assert (drop 20 (take 28 known) = le64 0) as Hd.
      { rewrite Htk. unfold known_part. cbn [length]. rewrite app_nil_r, app_assoc. change (Z.of_nat 0) with 0.
        rewrite drop_app_ge by (rewrite length_app, length_le64; lia). rewrite length_app, length_le64, Hiv. done. }
      rewrite <-Hd, Hknown, take_take, skipn_firstn_comm, drop_drop. f_equal. lia. }
    rewrite le64_val in Hk by done. subst keyMetaSize. unfold fp. by vm_compute. }
  assert (cast32 X = X) as Hc by (apply cast32_small; lia). rewrite Hc in E. unfold X, aad_of in E. fold pl in E.
  apply app_inj_1 in E as [_ E]; [|lia]. unfold AddData in E. cbn [direction d_makKey d_counter] in E.
  apply app_inv_head in E. apply le64_inj in E; [lia|unfold fits; lia|unfold fits; lia].
Qed.

Lemma payload_more meta data pad k : payload meta data pad ++ replicate k 0 = payload meta data (pad + k).
Proof. unfold payload. by rewrite replicate_add, <-!app_assoc. Qed.

Context {Auth : Unforgeable}.

Lemma Unpack_authentic n package data meta : Z.of_nat n < 2 ^ 64 ->
  AesGcmPackager.Unpack (AesGcm (direction n)) package (AddData (direction n)) None = Ok (data, meta) ->
  exists iv, nth_of_either n iv data.
Proof using Auth.
  intros Hn E. apply Unpack_ok in E as (kms & known & iv & c & tag & out & Hk & Hb & Hd & Hs).
  2: { unfold AddData. rewrite length_app, length_le64. lia. }
  unfold AesGcmOneGoNative.Decrypt in Hd. bind_ok Hd. unfold vec in E. destruct (reserve _); [|done]. injection E as <-.
  destruct (sgx_decrypt _ _ _ _ _) as [p|] eqn:Ep; [|done]. injection Hd as <-.
  apply decrypts_only_made in Ep as (i & msg & Hmade & Haad & ->). destruct (made_fit _ _ _ Hmade) as (Hiv & Hmsg & Hi).
  eapply aad_binds in Haad; [|exact maskKey_length|done|done|lia|done|done]. subst i.
  rewrite drop_replicate in Hs. unfold body_of in Hs. rewrite payload_more, SeparatePayload_payload in Hs by (cbn; lia).
  apply Ok_pair in Hs as [-> _]. by exists (cast32 iv).
Qed.

(** *** A session of one end *)

(** Its calls, whatever the socket below does. *)
Fixpoint session (calls : list Call) (s : End) : End * list Outcome :=
  match calls with
  | [] => (s, [])
  | Send data :: calls =>
    let '(s, r) := AesGcmStreamSocket.SendRaw data s in
    let '(s, os) := session calls s in
    (s, match r with Ok n => Sent n | Throw e => Failed e end :: os)
  | Recv size :: calls =>
    let '(s, r) := AesGcmStreamSocket.RecvRaw size s in
    let '(s, os) := session calls s in
    (s, match r with Ok d => Got d | Throw e => Failed e end :: os)
  end.

Fixpoint got (os : list Outcome) : bytes :=
  match os with
  | Got d :: os => d ++ got os
  | _ :: os => got os
  | [] => []
  end.

(** The messages accepted so far, and the bytes handed out of them. *)
Definition accepted (s : End) (ms : list bytes) (handed : bytes) : Prop :=
  m_peer s = direction (length ms) /\ handed ++ m_recvBuf s = concat ms /\
  forall n m, ms !! n = Some m -> exists iv, nth_of_either n iv m.

Lemma SendRaw_keeps data (s : End) :
  m_peer (AesGcmStreamSocket.SendRaw data s).1 = m_peer s /\ m_recvBuf (AesGcmStreamSocket.SendRaw data s).1 = m_recvBuf s.
Proof.
  unfold AesGcmStreamSocket.SendRaw, EncryptMsg, Rand, get, modify, pure, mbind, stx_bind, mret, stx_ret, on_socket.
  destruct (m_rand s) as [|iv ivs]; [done|].
  destruct (AesGcmPackager.Pack _ _ _ _ _ _) as [[pkg tag]|e]; [|done]. cbn [set_rand set_self m_socket].
  by destruct (StreamSocketBase.SizedSendBytes pkg (m_socket s)) as [x [[]|e]].
Qed.

Lemma accepted_count ms : (forall n m, ms !! n = Some m -> exists iv, nth_of_either n iv m) -> Z.of_nat (length ms) < 2 ^ 64.
Proof using Auth.
  intros H. destruct (last ms) as [m|] eqn:E; [|apply last_None in E as ->; done].
  rewrite last_lookup in E. destruct (H _ _ E) as [iv Hm]. apply made_fit in Hm. lia.
Qed.

Lemma DecryptMsg_accepted encBlock (s : End) ms handed : accepted s ms handed -> m_recvBuf s = [] ->
  let '(s', r) := (res ← DecryptMsg encBlock; modify (set_recvBuf res)) s in exists ms', accepted s' ms' handed.
Proof using Auth.
  intros (Hp & Hc & Hm) Hb. unfold DecryptMsg, get, modify, pure, mbind, stx_bind, mret, stx_ret. rewrite Hp.
  destruct (AesGcmPackager.Unpack _ _ _ _) as [[data meta]|e] eqn:E; [|by exists ms].
  pose proof (accepted_count ms Hm) as Hn.
  apply Unpack_authentic in E as [iv Hmade]; [|done]. destruct (made_fit _ _ _ Hmade) as (_ & _ & Hlt).
  exists (ms ++ [data]). rewrite Hb, app_nil_r in Hc. split_and!.
  - cbn. unfold CheckKeysLifetime, direction, sk_maxCounter. cbn [d_counter d_secKey d_makKey].
    rewrite (proj2 (Z.leb_gt _ _)), wrap_small, length_app by (unfold fits; lia). cbn [length]. f_equal. lia.
  - cbn. rewrite concat_app. cbn. by rewrite app_nil_r, Hc.
  - intros k m Hk. apply lookup_snoc_Some in Hk as [[_ Hk]|[-> <-]]; [by apply Hm|by exists iv].
Qed.

Lemma RecvRaw_accepted size (s : End) ms handed : 0 <= size -> accepted s ms handed ->
  let '(s', r) := AesGcmStreamSocket.RecvRaw size s in
  exists ms', accepted s' ms' (handed ++ match r with Ok d => d | Throw _ => [] end).
Proof using Auth.
  intros Hs Ha. unfold AesGcmStreamSocket.RecvRaw. unfold get, mbind at 1, stx_bind at 1. cbv beta iota.
  assert (forall s1 ms1, accepted s1 ms1 handed ->
    let '(s', r) := TakeBuffer size s1 in exists ms', accepted s' ms' (handed ++ match r with Ok d => d | Throw _ => [] end)) as Htake.
  { intros s1 ms1 (Hp & Hc & Hm). destruct (TakeBuffer_spec size s1 Hs) as (s' & -> & ->). exists ms1. split; [done|]. split; [|done].
    cbn. by rewrite <-app_assoc, take_drop. }
  destruct (Z.eqb_spec (zlen (m_recvBuf s)) 0) as [Hz|Hz].
  2: { unfold mbind, stx_bind, mret, stx_ret. by apply (Htake s ms). }
  unfold on_socket. unfold mbind at 1, stx_bind at 1. unfold mbind at 1, stx_bind at 1.
  destruct (StreamSocketBase.SizedRecvBytes (m_socket s)) as [x [pkg|e]].
  2: { exists ms. by rewrite app_nil_r. }
  assert (m_recvBuf s = []) as Hb by (destruct (m_recvBuf s); [done|cbn in Hz; lia]).
  pose proof (DecryptMsg_accepted pkg (set_socket x s) ms handed Ha Hb) as Hd.
  destruct ((res ← DecryptMsg pkg; modify (set_recvBuf res)) (set_socket x s)) as [s1 [[]|e]]; destruct Hd as [ms1 Hd].
  - by apply (Htake s1 ms1).
  - exists ms1. by rewrite app_nil_r.
Qed.

Lemma session_accepted calls (s : End) ms handed : Forall (fun c => match c with Recv size => 0 <= size | Send _ => True end) calls ->
  accepted s ms handed -> let '(s', os) := session calls s in exists ms', accepted s' ms' (handed ++ got os).
Proof using Auth.
  intros Hc. revert s ms handed. induction Hc as [|[data|size] calls Hc _ IH]; intros s ms handed Ha; cbn [session].
  - exists ms. cbn. by rewrite app_nil_r.
  - destruct (SendRaw_keeps data s) as [Hp Hb]. destruct (AesGcmStreamSocket.SendRaw data s) as [s1 r]. cbn in Hp, Hb.
    assert (accepted s1 ms handed) as Ha1 by (unfold accepted; by rewrite Hp, Hb).
    specialize (IH s1 ms handed Ha1). destruct (session calls s1) as [s2 os]. by destruct r.
  - pose proof (RecvRaw_accepted size s ms handed Hc Ha) as H1. destruct (AesGcmStreamSocket.RecvRaw size s) as [s1 r].
    destruct H1 as [ms1 Ha1]. specialize (IH s1 ms1 _ Ha1). destruct (session calls s1) as [s2 os].
    destruct r as [d|e]; cbn [got]; rewrite <-app_assoc in IH; exact IH.
Qed.

(** C10. Whatever the network does to the bytes, and whichever calls fail on the
    way, what an end hands out are messages in order, of which the [n]-th is the
    [n]-th message of the peer or the [n]-th of its own: nothing is forged,
    replayed, reordered or left out, only cut off or reflected. *)
Theorem session_authentic calls x ivs (s : End) os :
  Forall (fun c => match c with Recv size => 0 <= size | Send _ => True end) calls ->
  session calls (create secretKey maskKey x ivs) = (s, os) ->
  exists ms, got os ++ m_recvBuf s = concat ms /\
    forall n m, ms !! n = Some m -> exists iv, theirs !! n = Some (iv, m) \/ ours !! n = Some (iv, m).
Proof using Auth.
  intros Hc E. pose proof (session_accepted calls (create secretKey maskKey x ivs) [] [] Hc) as H.
  rewrite E in H. destruct H as (ms & _ & Hg & Hm); [by split_and!|]. by exists ms.
Qed.
End authentic.

(** ** An instance *)

(** A wire that takes at most seven bytes of a message at a time and gives at most
    [w_segment] and one more. *)
Record Wire := mkWire { w_segment : nat; w_in : bytes; w_out : bytes }.

#[export] Instance Wire_socket : StreamSocket Wire := {|
  SendRaw data w := (mkWire (w_segment w) (w_in w) (w_out w ++ take 7 data), Ok (Z.of_nat (Nat.min 7 (length data))));
  RecvRaw size w :=
    match w_in w with
    | [] => (w, Throw Waiting)
    | _ => let n := Nat.min (Z.to_nat size) (S (w_segment w)) in
           (mkWire (w_segment w) (drop n (w_in w)) (w_out w), Ok (take n (w_in w)))
    end |}.

#[export, refine] Instance Wire_stream : ReliableStream Wire := {|
  outgoing := w_out;
  incoming := w_in;
  deliver b w := mkWire (w_segment w) (w_in w ++ b) (w_out w) |}.
Proof.
  - intros [|x data] w Hne; [done|]. eexists _, _. split; [done|]. cbn [w_out w_in].
    split_and!; [cbn [length]; lia|lia| |done]. destruct (le_ge_dec 7 (length (x :: data))).
    + by rewrite Nat.min_l by done.
    + by rewrite Nat.min_r, !take_ge by lia.
  - intros size w Hs Hne. cbn. destruct (w_in w) as [|x l] eqn:E; [done|]. eexists _, _. split; [done|]. cbn [w_in w_out].
    split_and!; [| |by rewrite take_drop|done]; rewrite length_take; cbn [length]; lia.
  - intros size w _ E. cbn. by rewrite E.
  - done.
Defined.

Section sample.
#[local] Existing Instances backwards backwards_laws pack_allocator.
#[local] Instance sample_kdf : KeyDerivation := fun k l s => take 16 (l ++ k ++ replicate 16 0).
#[local] Instance sample_kdf_laws : KeyDerivationLaws.
Proof. intros k l s. unfold Hkdf, sample_kdf. rewrite length_take, !length_app, length_replicate. lia. Qed.
#[local] Instance sample_patience : Patience := 1024%nat.

Definition sample_calls : list (bool * Call) :=
  [(true, Send [1; 2; 3]); (true, Send [4; 5]); (false, Recv 2); (false, Send [9]); (false, Recv 2); (false, Recv 2);
   (true, Recv 100); (false, Recv 1)].
Definition key_a : bytes := replicate 16 7.
Definition key_b : bytes := replicate 16 8.
Definition sample_ends : AesGcmStreamSocket.t Wire * AesGcmStreamSocket.t Wire :=
  (AesGcmStreamSocket.create key_a key_b (mkWire 4 [] []) [replicate 12 1; replicate 12 2],
   AesGcmStreamSocket.create key_a key_b (mkWire 10 [] []) [replicate 12 3]).

Lemma sample_sendable data : (length data < 100)%nat -> sendable data.
Proof.
  intros Hl. unfold sendable, patience, sample_patience, ample, reserve, pack_allocator. split_and!; [lia|lia|]. lia.
Qed.

Lemma secure_channel_refines_witness :
  match conversation sample_calls sample_ends.1 sample_ends.2 with
  | (a, b, os) =>
    os = [Sent 3; Sent 2; Got [1; 2]; Sent 1; Got [3]; Got [4; 5]; Got [9]; Failed Waiting] /\
    exists ab ba, sent_by true sample_calls os = got_by false sample_calls os ++ concat ab /\
      sent_by false sample_calls os = got_by true sample_calls os ++ concat ba
  end.
Proof.
  destruct (conversation _ _ _) as [[a b] os] eqn:E. split.
  - vm_compute in E. by injection E as _ _ <-.
  - destruct (secure_channel_refines key_a key_b (mkWire 4 [] []) (mkWire 10 [] []) [replicate 12 1; replicate 12 2]
      [replicate 12 3] sample_calls a b os) as ((ab & ba & _ & H1 & H2) & _); [done| |done|done| |exact E|].
    + cbn [app]. repeat (apply Forall_cons_2; [done|]). apply Forall_nil_2.
    + repeat (apply Forall_cons_2; [cbn [fair snd]; first [lia|apply sample_sendable; cbn [length]; lia]|]). apply Forall_nil_2.
    + exists ab, ba. split; [exact H1|exact H2].
Defined.

(** A cipher that encrypts for the two ends of one session only. *)
Definition theirs_sample : list (bytes * bytes) := [(replicate 12 1, [1; 2; 3])].
Definition ours_sample : list (bytes * bytes) := [(replicate 12 3, [9])].
Definition made_sample : list (bytes * bytes * bytes) :=
  map (fun '(iv, msg) => (iv, aad_of key_a key_b 0 iv msg, body_of key_a key_b msg)) (theirs_sample ++ ours_sample).
#[local] Instance gated : GcmSdk := {|
  sgx_encrypt k iv aad p := if bool_decide (k = key_a /\ (iv, aad, p) ∈ made_sample) then Some (rev p, checksum k iv aad p) else None;
  sgx_decrypt k iv aad c t := if bool_decide (k = key_a /\ (iv, aad, rev c) ∈ made_sample /\ checksum k iv aad (rev c) = t)
    then Some (rev c) else None |}.

Lemma gated_unforgeable : Unforgeable key_a key_b theirs_sample ours_sample.
Proof.
  split.
  - intros iv aad c t p. cbn [sgx_decrypt gated]. case_bool_decide as H; [|done]. intros [= <-]. destruct H as (_ & H & _).
    unfold made_sample in H. apply list_elem_of_fmap in H as ([iv' msg] & [= -> -> ->] & Hin).
    exists 0%nat, msg. split; [|done]. unfold nth_of_either.
    apply elem_of_cons in Hin as [[= -> ->]|Hin]; [by left|]. apply list_elem_of_singleton in Hin as [= -> ->]. by right.
  - done.
  - intros n iv msg [H|H]; destruct n as [|n]; try done; injection H as <- <-; cbn; lia.
Qed.

(** The peer's message comes twice, and then our own. *)
Definition replayed : bytes :=
  match AesGcmPackager.Pack (AesGcmStreamSocket.AesGcm (direction key_a key_b 0)) [] [] [1; 2; 3]
    (AesGcmStreamSocket.AddData (direction key_a key_b 0)) (replicate 12 1) with
  | Ok (pkg, _) => frame pkg ++ frame pkg
  | Throw _ => []
  end.

Lemma session_authentic_witness :
  match session [Recv 2; Send [9]; Recv 5; Recv 5] (AesGcmStreamSocket.create key_a key_b (mkWire 4 replayed []) [replicate 12 3]) with
  | (s, os) => os = [Got [1; 2]; Sent 1; Got [3]; Failed (Thrown "SgxRuntimeError")] /\
    exists ms, got os ++ AesGcmStreamSocket.m_recvBuf s = concat ms
  end.
Proof.
  destruct (session _ _) as [s os] eqn:E. split.
  - vm_compute in E. by injection E as _ <-.
  - pose proof gated_unforgeable as Hu.
    destruct (session_authentic key_a key_b theirs_sample ours_sample [Recv 2; Send [9]; Recv 5; Recv 5]
      (mkWire 4 replayed []) [replicate 12 3] s os) as (ms & Hg & _); [|exact E|exists ms; exact Hg].
    repeat (apply Forall_cons_2; [first [exact I|lia]|]). apply Forall_nil_2.
Defined.
End sample.
