(* ===== verification/LocalAttest.v ===== *)
(** * Local attestation

    The handshake of two enclaves on one machine, after which they talk through the
    socket of [SecureSocket]: the interface of
    [DE/Common/AesGcmSocketHandshaker.hpp], its two sides in
    [DE/Trusted/Sgx/LaInitiator.hpp] and [LaResponder.hpp], and
    [AesGcmStreamSocket::FromHandshake].  The Diffie-Hellman exchange itself is the
    SGX SDK's. *)

From stdpp Require Import strings.
From S2P Require Import Prelude AesGcm SecureSocket EpidRa.

(** ** The SDK *)

(** [sgx_dh.h]: its calls with the structures as their bytes.  Each returns the
    status, [0] for success, and what it leaves in the session and in the objects it
    writes, which mean nothing unless it succeeded.  A session carries the random
    numbers it will use. *)
Class DhSdk := {
  sgx_dh_session_t : Type;
  sizeof_dh_msg1 : Z; sizeof_dh_msg2 : Z; sizeof_dh_msg3 : Z;
  sgx_dh_responder_gen_msg1 : sgx_dh_session_t -> Z * sgx_dh_session_t * bytes;
  sgx_dh_initiator_proc_msg1 : bytes -> sgx_dh_session_t -> Z * sgx_dh_session_t * bytes;
  sgx_dh_responder_proc_msg2 : bytes -> sgx_dh_session_t -> Z * sgx_dh_session_t * (bytes * bytes * bytes);
  sgx_dh_initiator_proc_msg3 : bytes -> sgx_dh_session_t -> Z * sgx_dh_session_t * (bytes * bytes) }.

(** [DECENTENCLAVE_CHECK_SGX_RUNTIME_ERROR]. *)
Definition CHECK_SGX {W} (sgxRet : Z) : stx W Fault unit :=
  pure (if sgxRet =? 0 then Ok tt else Throw (Thrown "SgxRuntimeError")).

(** ** The interface *)

(** [AesGcmSocketHandshaker<128>] over a socket [W]. *)
Class AesGcmSocketHandshaker (H W : Type) := {
  GetSecretKey : H -> bytes;
  GetMaskKey : H -> bytes;
  IsHandshakeDone : H -> bool;
  HandshakeStep : stx (H * W) Fault unit }.
#[export] Hint Mode AesGcmSocketHandshaker ! - : typeclass_instances.

Section handshaker.
Context `{Pat : Patience} `{Shaker : AesGcmSocketHandshaker H W}.

Fixpoint HandshakeLoop (fuel : nat) : stx (H * W) Fault unit :=
  s ← get;
  if IsHandshakeDone s.1 then mret tt
  else
    match fuel with
    | O => waits
    | S fuel => HandshakeStep ;; HandshakeLoop fuel
    end.
Definition Handshake : stx (H * W) Fault unit := HandshakeLoop patience.

(** [AesGcmStreamSocket::FromHandshake]. *)
Definition FromHandshake (handshaker : H) (sock : W) (rand : list bytes) : result Fault (AesGcmStreamSocket.t W) :=
  let '((h, w), r) := Handshake (handshaker, sock) in
  _ ← r;
  Ok (AesGcmStreamSocket.create (GetSecretKey h) (GetMaskKey h) w rand).
End handshaker.

(** [RecvPrimitive] and [SendPrimitive] of a structure. *)
Definition RecvStruct `{Patience} `{StreamSocket W} {H} (size : Z) : stx (H * W) Fault bytes :=
  fun s => let '(w, r) := StreamSocketBase.RecvRawUntilComplete size s.2 in ((s.1, w), r).
Definition SendStruct `{Patience} `{StreamSocket W} {H} (data : bytes) : stx (H * W) Fault unit :=
  fun s => let '(w, r) := StreamSocketBase.SendRawUntilComplete data s.2 in ((s.1, w), r).

(** A method of the handshaker itself. *)
Definition on_self {H W A} (m : stx H Fault A) : stx (H * W) Fault A :=
  fun s => let '(h, r) := m s.1 in ((h, s.2), r).

(** ** The initiator *)

Module LaInitiator.
Inductive HSState := Initial | Msg2Sent | HandshakeDone.

#[export] Instance HSState_eq_dec : EqDecision HSState.
Proof. solve_decision. Defined.

Section initiator.
Context `{Dh : DhSdk}.

(** The callback looks at the peer's identity and can throw. *)
Record t := mk {
  m_session : sgx_dh_session_t; m_state : HSState; m_aek : bytes; m_peerId : bytes;
  m_peerIdVrfyCallback : option (bytes -> result Fault unit) }.

(** The constructor, with what [sgx_dh_init_session] returns and leaves in the
    session, and the zeros of an identity. *)
Definition create (init : Z * sgx_dh_session_t) (noId : bytes) (cb : option (bytes -> result Fault unit)) : result Fault t :=
  if init.1 =? 0 then Ok (mk init.2 Initial (replicate 16 0) noId cb) else Throw (Thrown "SgxRuntimeError").

Definition set_session (x : sgx_dh_session_t) (s : t) : t := mk x (m_state s) (m_aek s) (m_peerId s) (m_peerIdVrfyCallback s).
Definition set_state (st : HSState) (s : t) : t := mk (m_session s) st (m_aek s) (m_peerId s) (m_peerIdVrfyCallback s).
Definition set_peer (x : sgx_dh_session_t) (aek id : bytes) (s : t) : t := mk x (m_state s) aek id (m_peerIdVrfyCallback s).

Definition ProcMsg1 (msg1 : bytes) : stx t Fault bytes :=
  s ← get;
  let '(sgxRet, session, msg2) := sgx_dh_initiator_proc_msg1 msg1 (m_session s) in
  modify (set_session session) ;;
  CHECK_SGX sgxRet ;;
  modify (set_state Msg2Sent) ;;
  mret msg2.

(** The key is copied before the status is looked at. *)
Definition ProcMsg3 (msg3 : bytes) : stx t Fault unit :=
  s ← get;
  let '(sgxRet, session, (aek, peerId)) := sgx_dh_initiator_proc_msg3 msg3 (m_session s) in
  modify (set_peer session aek peerId) ;;
  CHECK_SGX sgxRet ;;
  pure (match m_peerIdVrfyCallback s with Some cb => cb peerId | None => Ok tt end) ;;
  modify (set_state HandshakeDone).

Definition GetSecretKey `{MbedOps} (s : t) : bytes := Ckdf (m_aek s) "SK".
Definition GetMaskKey `{MbedOps} (s : t) : bytes := Ckdf (m_aek s) "MK".
Definition IsHandshakeDone (s : t) : bool := bool_decide (m_state s = HandshakeDone).

Definition HandshakeStep `{Patience} `{StreamSocket W} : stx (t * W) Fault unit :=
  s ← get;
  match m_state s.1 with
  | Initial =>
    peerMsg1 ← RecvStruct sizeof_dh_msg1;
    msg2 ← on_self (ProcMsg1 peerMsg1);
    SendStruct msg2
  | Msg2Sent =>
    peerMsg3 ← RecvStruct sizeof_dh_msg3;
    on_self (ProcMsg3 peerMsg3)
  | HandshakeDone => pure (Throw (Thrown "Invalid handshake state"))
  end.
End initiator.
End LaInitiator.

#[export] Instance LaInitiator_handshaker `{DhSdk} `{MbedOps} `{Patience} `{StreamSocket W} :
  AesGcmSocketHandshaker LaInitiator.t W := {|
  GetSecretKey := LaInitiator.GetSecretKey;
  GetMaskKey := LaInitiator.GetMaskKey;
  IsHandshakeDone := LaInitiator.IsHandshakeDone;
  HandshakeStep := LaInitiator.HandshakeStep |}.

(** ** The responder *)

Module LaResponder.
Inductive HSState := Initial | Msg1Sent | HandshakeDone.

#[export] Instance HSState_eq_dec : EqDecision HSState.
Proof. solve_decision. Defined.

Section responder.
Context `{Dh : DhSdk}.

Record t := mk {
  m_session : sgx_dh_session_t; m_state : HSState; m_aek : bytes; m_peerId : bytes;
  m_peerIdVrfyCallback : option (bytes -> result Fault unit) }.

Definition create (init : Z * sgx_dh_session_t) (noId : bytes) (cb : option (bytes -> result Fault unit)) : result Fault t :=
  if init.1 =? 0 then Ok (mk init.2 Initial (replicate 16 0) noId cb) else Throw (Thrown "SgxRuntimeError").

Definition set_session (x : sgx_dh_session_t) (s : t) : t := mk x (m_state s) (m_aek s) (m_peerId s) (m_peerIdVrfyCallback s).
Definition set_state (st : HSState) (s : t) : t := mk (m_session s) st (m_aek s) (m_peerId s) (m_peerIdVrfyCallback s).
Definition set_peer (x : sgx_dh_session_t) (aek id : bytes) (s : t) : t := mk x (m_state s) aek id (m_peerIdVrfyCallback s).

Definition GenMsg1 : stx t Fault bytes :=
  s ← get;
  let '(sgxRet, session, msg1) := sgx_dh_responder_gen_msg1 (m_session s) in
  modify (set_session session) ;;
  CHECK_SGX sgxRet ;;
  modify (set_state Msg1Sent) ;;
  mret msg1.

Definition ProcMsg2 (msg2 : bytes) : stx t Fault bytes :=
  s ← get;
  let '(sgxRet, session, (msg3, aek, peerId)) := sgx_dh_responder_proc_msg2 msg2 (m_session s) in
  modify (set_peer session aek peerId) ;;
  CHECK_SGX sgxRet ;;
  pure (match m_peerIdVrfyCallback s with Some cb => cb peerId | None => Ok tt end) ;;
  modify (set_state HandshakeDone) ;;
  mret msg3.

Definition GetSecretKey `{MbedOps} (s : t) : bytes := Ckdf (m_aek s) "SK".
Definition GetMaskKey `{MbedOps} (s : t) : bytes := Ckdf (m_aek s) "MK".
Definition IsHandshakeDone (s : t) : bool := bool_decide (m_state s = HandshakeDone).

Definition HandshakeStep `{Patience} `{StreamSocket W} : stx (t * W) Fault unit :=
  s ← get;
  match m_state s.1 with
  | Initial =>
    msg1 ← on_self GenMsg1;
    SendStruct msg1
  | Msg1Sent =>
    peerMsg2 ← RecvStruct sizeof_dh_msg2;
    msg3 ← on_self (ProcMsg2 peerMsg2);
    SendStruct msg3
  | HandshakeDone => pure (Throw (Thrown "Invalid handshake state"))
  end.
End responder.
End LaResponder.

#[export] Instance LaResponder_handshaker `{DhSdk} `{MbedOps} `{Patience} `{StreamSocket W} :
  AesGcmSocketHandshaker LaResponder.t W := {|
  GetSecretKey := LaResponder.GetSecretKey;
  GetMaskKey := LaResponder.GetMaskKey;
  IsHandshakeDone := LaResponder.IsHandshakeDone;
  HandshakeStep := LaResponder.HandshakeStep |}.

(** ** One side, whatever the network does *)

(** The SDK has accepted the messages of a session and the callback the identity it
    returned with the key. *)
Definition accepts (cb : option (bytes -> result Fault unit)) (id : bytes) : Prop :=
  match cb with Some f => f id = Ok tt | None => True end.

Definition initiator_attested `{DhSdk} (session : sgx_dh_session_t) (cb : option (bytes -> result Fault unit)) (aek : bytes) : Prop :=
  exists msg1 s1 msg2 msg3 s2 id,
    sgx_dh_initiator_proc_msg1 msg1 session = (0, s1, msg2) /\
    sgx_dh_initiator_proc_msg3 msg3 s1 = (0, s2, (aek, id)) /\ accepts cb id.
Definition responder_attested `{DhSdk} (session : sgx_dh_session_t) (cb : option (bytes -> result Fault unit)) (aek : bytes) : Prop :=
  exists s1 msg1 msg2 s2 msg3 id,
    sgx_dh_responder_gen_msg1 session = (0, s1, msg1) /\
    sgx_dh_responder_proc_msg2 msg2 s1 = (0, s2, (msg3, aek, id)) /\ accepts cb id.

Section loop.
Context `{Pat : Patience} `{Shaker : AesGcmSocketHandshaker H W}.

Lemma HandshakeLoop_eq fuel (s : H * W) : HandshakeLoop fuel s =
  if IsHandshakeDone s.1 then (s, Ok tt)
  else match fuel with
       | O => (s, Throw Waiting)
       | S fuel => match HandshakeStep s with (s', Ok _) => HandshakeLoop fuel s' | (s', Throw e) => (s', Throw e) end
       end.
Proof. destruct fuel; cbn; unfold mbind, stx_bind, get; by destruct (IsHandshakeDone s.1). Qed.

(** The loop as the two steps that a handshake has. *)
Lemma Handshake_two_steps (s : H * W) : (2 <= patience)%nat ->
  IsHandshakeDone s.1 = false ->
  (forall s1, HandshakeStep s = (s1, Ok tt) -> IsHandshakeDone s1.1 = false) ->
  (forall s1 s2, HandshakeStep s = (s1, Ok tt) -> HandshakeStep s1 = (s2, Ok tt) -> IsHandshakeDone s2.1 = true) ->
  Handshake s = (HandshakeStep ;; HandshakeStep) s.
Proof.
  intros Hp H0 H1 H2. unfold Handshake. destruct patience as [|[|fuel]]; [lia|lia|].
  rewrite HandshakeLoop_eq, H0. unfold mbind, stx_bind. destruct (HandshakeStep s) as [s1 [[]|e]]; [|done].
  rewrite HandshakeLoop_eq, (H1 s1) by done. destruct (HandshakeStep s1) as [s2 [[]|e]] eqn:E2; [|done].
  by rewrite HandshakeLoop_eq, (H2 s1 s2).
Qed.
End loop.

Section sides.
Context `{Dh : DhSdk} `{Mb : MbedOps} `{Pat : Patience} `{Sock : StreamSocket W}.

(** A step of the initiator, and of the responder. *)
Lemma initiator_step (h : LaInitiator.t) (w : W) :
  LaInitiator.HandshakeStep (h, w) =
  match LaInitiator.m_state h with
  | LaInitiator.Initial =>
    match StreamSocketBase.RecvRawUntilComplete sizeof_dh_msg1 w with
    | (w, Ok msg1) =>
      let '(ret, session, msg2) := sgx_dh_initiator_proc_msg1 msg1 (LaInitiator.m_session h) in
      let h := LaInitiator.set_session session h in
      if ret =? 0 then let '(w, r) := StreamSocketBase.SendRawUntilComplete msg2 w in (LaInitiator.set_state LaInitiator.Msg2Sent h, w, r)
      else (h, w, Throw (Thrown "SgxRuntimeError"))
    | (w, Throw e) => (h, w, Throw e)
    end
  | LaInitiator.Msg2Sent =>
    match StreamSocketBase.RecvRawUntilComplete sizeof_dh_msg3 w with
    | (w, Ok msg3) =>
      let '(ret, session, (aek, id)) := sgx_dh_initiator_proc_msg3 msg3 (LaInitiator.m_session h) in
      let h' := LaInitiator.set_peer session aek id h in
      if ret =? 0 then
        match LaInitiator.m_peerIdVrfyCallback h with
        | Some cb => match cb id with Ok _ => (LaInitiator.set_state LaInitiator.HandshakeDone h', w, Ok tt) | Throw e => (h', w, Throw e) end
        | None => (LaInitiator.set_state LaInitiator.HandshakeDone h', w, Ok tt)
        end
      else (h', w, Throw (Thrown "SgxRuntimeError"))
    | (w, Throw e) => (h, w, Throw e)
    end
  | LaInitiator.HandshakeDone => (h, w, Throw (Thrown "Invalid handshake state"))
  end.
Proof.
  unfold LaInitiator.HandshakeStep, RecvStruct, on_self, SendStruct, LaInitiator.ProcMsg1, LaInitiator.ProcMsg3, CHECK_SGX,
    get, modify, pure, mbind, stx_bind, mret, stx_ret. cbn [fst snd].
  destruct (LaInitiator.m_state h); [| |done]; cbn [fst snd];
    destruct (StreamSocketBase.RecvRawUntilComplete _ w) as [w1 [msg|e]]; try done; cbn [fst snd].
  - destruct (sgx_dh_initiator_proc_msg1 _ _) as [[ret session] msg2]. by destruct (ret =? 0).
  - destruct (sgx_dh_initiator_proc_msg3 _ _) as [[ret session] [aek id]]. destruct (ret =? 0); [|done].
    destruct (LaInitiator.m_peerIdVrfyCallback h) as [cb|]; [|done]. by destruct (cb id).
Qed.

Lemma responder_step (h : LaResponder.t) (w : W) :
  LaResponder.HandshakeStep (h, w) =
  match LaResponder.m_state h with
  | LaResponder.Initial =>
    let '(ret, session, msg1) := sgx_dh_responder_gen_msg1 (LaResponder.m_session h) in
    let h := LaResponder.set_session session h in
    if ret =? 0 then let '(w, r) := StreamSocketBase.SendRawUntilComplete msg1 w in (LaResponder.set_state LaResponder.Msg1Sent h, w, r)
    else (h, w, Throw (Thrown "SgxRuntimeError"))
  | LaResponder.Msg1Sent =>
    match StreamSocketBase.RecvRawUntilComplete sizeof_dh_msg2 w with
    | (w, Ok msg2) =>
      let '(ret, session, (msg3, aek, id)) := sgx_dh_responder_proc_msg2 msg2 (LaResponder.m_session h) in
      let h' := LaResponder.set_peer session aek id h in
      let done w := let '(w, r) := StreamSocketBase.SendRawUntilComplete msg3 w in (LaResponder.set_state LaResponder.HandshakeDone h', w, r) in
      if ret =? 0 then
        match LaResponder.m_peerIdVrfyCallback h with
        | Some cb => match cb id with Ok _ => done w | Throw e => (h', w, Throw e) end
        | None => done w
        end
      else (h', w, Throw (Thrown "SgxRuntimeError"))
    | (w, Throw e) => (h, w, Throw e)
    end
  | LaResponder.HandshakeDone => (h, w, Throw (Thrown "Invalid handshake state"))
  end.
Proof.
  unfold LaResponder.HandshakeStep, RecvStruct, on_self, SendStruct, LaResponder.GenMsg1, LaResponder.ProcMsg2, CHECK_SGX,
    get, modify, pure, mbind, stx_bind, mret, stx_ret. cbn [fst snd].
  destruct (LaResponder.m_state h); [| |done]; cbn [fst snd].
  - destruct (sgx_dh_responder_gen_msg1 _) as [[ret session] msg1]. by destruct (ret =? 0).
  - destruct (StreamSocketBase.RecvRawUntilComplete _ w) as [w1 [msg|e]]; [|done]. cbn [fst snd].
    destruct (sgx_dh_responder_proc_msg2 _ _) as [[ret session] [[msg3 aek] id]]. destruct (ret =? 0); [|done].
    destruct (LaResponder.m_peerIdVrfyCallback h) as [cb|]; [|done]. by destruct (cb id).
Qed.

Lemma initiator_Handshake (h : LaInitiator.t) (w : W) : (2 <= patience)%nat -> LaInitiator.m_state h = LaInitiator.Initial ->
  Handshake (h, w) = (LaInitiator.HandshakeStep ;; LaInitiator.HandshakeStep) (h, w).
Proof.
  intros Hp Hi. assert (forall s1, LaInitiator.HandshakeStep (h, w) = (s1, Ok tt) -> LaInitiator.m_state s1.1 = LaInitiator.Msg2Sent) as H1.
  { intros s1. rewrite initiator_step, Hi.
    destruct (StreamSocketBase.RecvRawUntilComplete _ _) as [w1 [m|e]]; [|done].
    destruct (sgx_dh_initiator_proc_msg1 _ _) as [[ret session] msg2]. destruct (ret =? 0); [|done].
    destruct (StreamSocketBase.SendRawUntilComplete _ _) as [w2 r]. by intros [= <- _]. }
  etransitivity; [apply (Handshake_two_steps (h, w)); [done| | |]|reflexivity].
  - cbn. unfold LaInitiator.IsHandshakeDone. by rewrite Hi.
  - intros s1 E. cbn. unfold LaInitiator.IsHandshakeDone. by rewrite (H1 s1 E).
  - intros [h1 w1] s2 E E2. cbn in *. rewrite initiator_step, (H1 _ E : LaInitiator.m_state h1 = _) in E2.
    destruct (StreamSocketBase.RecvRawUntilComplete _ _) as [w2 [m|e]]; [|done].
    destruct (sgx_dh_initiator_proc_msg3 _ _) as [[ret session] [aek id]]. destruct (ret =? 0); [|done].
    destruct (LaInitiator.m_peerIdVrfyCallback h1) as [cb|]; [destruct (cb id); [|done]|]; by injection E2 as <-.
Qed.

Lemma responder_Handshake (h : LaResponder.t) (w : W) : (2 <= patience)%nat -> LaResponder.m_state h = LaResponder.Initial ->
  Handshake (h, w) = (LaResponder.HandshakeStep ;; LaResponder.HandshakeStep) (h, w).
Proof.
  intros Hp Hi. assert (forall s1, LaResponder.HandshakeStep (h, w) = (s1, Ok tt) -> LaResponder.m_state s1.1 = LaResponder.Msg1Sent) as H1.
  { intros s1. rewrite responder_step, Hi.
    destruct (sgx_dh_responder_gen_msg1 _) as [[ret session] msg1]. destruct (ret =? 0); [|done].
    destruct (StreamSocketBase.SendRawUntilComplete _ _) as [w2 r]. by intros [= <- _]. }
  etransitivity; [apply (Handshake_two_steps (h, w)); [done| | |]|reflexivity].
  - cbn. unfold LaResponder.IsHandshakeDone. by rewrite Hi.
  - intros s1 E. cbn. unfold LaResponder.IsHandshakeDone. by rewrite (H1 s1 E).
  - intros [h1 w1] s2 E E2. cbn in *. rewrite responder_step, (H1 _ E : LaResponder.m_state h1 = _) in E2.
    destruct (StreamSocketBase.RecvRawUntilComplete _ _) as [w2 [m|e]]; [|done].
    destruct (sgx_dh_responder_proc_msg2 _ _) as [[ret session] [[msg3 aek] id]]. destruct (ret =? 0); [|done].
    cbv zeta beta in E2. destruct (StreamSocketBase.SendRawUntilComplete _ _) as [w3 r].
    destruct (LaResponder.m_peerIdVrfyCallback h1) as [cb|]; [destruct (cb id); [|done]|]; by injection E2 as <- _.
Qed.

(** A handshake that ends well. *)
Lemma initiator_accepts (h h' : LaInitiator.t) (w w' : W) : (2 <= patience)%nat -> LaInitiator.m_state h = LaInitiator.Initial ->
  Handshake (h, w) = (h', w', Ok tt) ->
  initiator_attested (LaInitiator.m_session h) (LaInitiator.m_peerIdVrfyCallback h) (LaInitiator.m_aek h').
Proof.
  intros Hp Hi. rewrite initiator_Handshake by done. unfold mbind, stx_bind. rewrite initiator_step, Hi.
  destruct (StreamSocketBase.RecvRawUntilComplete _ _) as [w1 [msg1|e]]; [|done].
  destruct (sgx_dh_initiator_proc_msg1 _ _) as [[ret s1] msg2] eqn:E1. destruct (Z.eqb_spec ret 0) as [->|]; [|done].
  destruct (StreamSocketBase.SendRawUntilComplete _ _) as [w2 [u|e]]; cbv beta iota zeta; [|done]. rewrite initiator_step.
  cbn [LaInitiator.set_state LaInitiator.set_session LaInitiator.m_state LaInitiator.m_session LaInitiator.m_peerIdVrfyCallback].
  destruct (StreamSocketBase.RecvRawUntilComplete _ _) as [w3 [msg3|e]]; [|done].
  destruct (sgx_dh_initiator_proc_msg3 _ _) as [[ret s2] [aek id]] eqn:E2. destruct (Z.eqb_spec ret 0) as [->|]; [|done].
  destruct (LaInitiator.m_peerIdVrfyCallback h) as [cb|] eqn:Ecb; [destruct (cb id) as [[]|e] eqn:Ec; [|done]|];
    intros [= <- _]; by exists msg1, s1, msg2, msg3, s2, id.
Qed.

Lemma responder_accepts (h h' : LaResponder.t) (w w' : W) : (2 <= patience)%nat -> LaResponder.m_state h = LaResponder.Initial ->
  Handshake (h, w) = (h', w', Ok tt) ->
  responder_attested (LaResponder.m_session h) (LaResponder.m_peerIdVrfyCallback h) (LaResponder.m_aek h').
Proof.
  intros Hp Hi. rewrite responder_Handshake by done. unfold mbind, stx_bind. rewrite responder_step, Hi.
  destruct (sgx_dh_responder_gen_msg1 _) as [[ret s1] msg1] eqn:E1. destruct (Z.eqb_spec ret 0) as [->|]; [|done].
  destruct (StreamSocketBase.SendRawUntilComplete _ _) as [w1 [u|e]]; cbv beta iota zeta; [|done]. rewrite responder_step.
  cbn [LaResponder.set_state LaResponder.set_session LaResponder.m_state LaResponder.m_session LaResponder.m_peerIdVrfyCallback].
  destruct (StreamSocketBase.RecvRawUntilComplete _ _) as [w2 [msg2|e]]; [|done].
  destruct (sgx_dh_responder_proc_msg2 _ _) as [[ret s2] [[msg3 aek] id]] eqn:E2. destruct (Z.eqb_spec ret 0) as [->|]; [|done].
  cbv zeta beta. destruct (StreamSocketBase.SendRawUntilComplete _ _) as [w3 r].
  destruct (LaResponder.m_peerIdVrfyCallback h) as [cb|] eqn:Ecb; [destruct (cb id) as [[]|e] eqn:Ec; [|done]|];
    intros [= <- _ _]; by exists s1, msg1, msg2, s2, msg3, id.
Qed.

(** [ProcMsg3] does not look at the state, and takes the key over before it looks at
    the status: a message that is refused leaves a handshake that was done as done,
    under a key that means nothing. *)
Lemma refused_key_taken (h : LaInitiator.t) msg3 ret session aek id :
  LaInitiator.IsHandshakeDone h = true -> sgx_dh_initiator_proc_msg3 msg3 (LaInitiator.m_session h) = (ret, session, (aek, id)) -> ret <> 0 ->
  exists h', LaInitiator.ProcMsg3 msg3 h = (h', Throw (Thrown "SgxRuntimeError")) /\
    LaInitiator.IsHandshakeDone h' = true /\ LaInitiator.GetSecretKey h' = Ckdf aek "SK".
Proof.
  intros Hd E Hret. unfold LaInitiator.ProcMsg3, CHECK_SGX, get, modify, pure, mbind, stx_bind. rewrite E.
  rewrite (proj2 (Z.eqb_neq ret 0) Hret). by eexists.
Qed.

(** C30. Whatever arrives on the socket, an enclave gets a socket from a local
    attestation only if the SDK has accepted each message of the peer in the session
    of this handshake and the callback, where there is one, has accepted the identity
    that the SDK gave with the key; the keys of the socket are then the ones derived
    from that key, in both roles. *)
Theorem local_handshake_attested init noId cb (x : W) rand k : (2 <= patience)%nat ->
  (h ← LaInitiator.create init noId cb; FromHandshake h x rand) = Ok k \/
  (h ← LaResponder.create init noId cb; FromHandshake h x rand) = Ok k ->
  exists aek x', init.1 = 0 /\ (initiator_attested init.2 cb aek \/ responder_attested init.2 cb aek) /\
    k = AesGcmStreamSocket.create (Ckdf aek "SK") (Ckdf aek "MK") x' rand.
Proof.
  intros Hp [E|E]; bind_ok E; unfold LaInitiator.create, LaResponder.create, FromHandshake in *;
    (destruct (Z.eqb_spec init.1 0) as [H0|]; [|done]); injection E0 as <-;
    destruct (Handshake _) as [[h' x'] [[]|e]] eqn:Eh; try done; injection E as <-.
  - apply initiator_accepts in Eh; [|done..]. exists (LaInitiator.m_aek h'), x'. auto.
  - apply responder_accepts in Eh; [|done..]. exists (LaResponder.m_aek h'), x'. auto.
Qed.
End sides.

(** ** The two sides of one handshake *)

(** What the SDK answers when it accepts every message: what each side is given, the
    key and the identity of its peer. *)
Inductive sdk_exchange `{DhSdk} (si sr : sgx_dh_session_t) : bytes * bytes -> bytes * bytes -> Prop :=
| sdk_exchange_intro sr1 msg1 si1 msg2 sr2 msg3 ki idr si2 kr idi :
    sgx_dh_responder_gen_msg1 sr = (0, sr1, msg1) ->
    sgx_dh_initiator_proc_msg1 msg1 si = (0, si1, msg2) ->
    sgx_dh_responder_proc_msg2 msg2 sr1 = (0, sr2, (msg3, kr, idi)) ->
    sgx_dh_initiator_proc_msg3 msg3 si1 = (0, si2, (ki, idr)) ->
    sdk_exchange si sr (ki, idr) (kr, idi).

(** The messages are of the types the SDK declares, and the two sides of an exchange
    are given one key. *)
Class DhLaws `{DhSdk} := {
  sizeof_dh : 0 < sizeof_dh_msg1 /\ 0 < sizeof_dh_msg2 /\ 0 < sizeof_dh_msg3;
  dh_msg1_size : forall s ret s1 m, sgx_dh_responder_gen_msg1 s = (ret, s1, m) -> zlen m = sizeof_dh_msg1;
  dh_msg2_size : forall m1 s ret s1 m, sgx_dh_initiator_proc_msg1 m1 s = (ret, s1, m) -> zlen m = sizeof_dh_msg2;
  dh_msg3_size : forall m2 s ret s1 m k id, sgx_dh_responder_proc_msg2 m2 s = (ret, s1, (m, k, id)) -> zlen m = sizeof_dh_msg3;
  dh_same_key : forall si sr ki idr kr idi, sdk_exchange si sr (ki, idr) (kr, idi) -> ki = kr }.

(** The sides take turns in any order; what one sends arrives at the other.  A step
    that would wait is put off. *)
Section pair.
Context `{Pat : Patience} `{Sock : StreamSocket W} `{Str : !ReliableStream W}.

Definition turn `{AesGcmSocketHandshaker H1 W} {H2} (me : H1 * W) (other : H2 * W) : result Fault ((H1 * W) * (H2 * W)) :=
  if IsHandshakeDone me.1 then Ok (me, other)
  else
    match HandshakeStep me with
    | (me', Ok _) => Ok (me', (other.1, deliver (drop (length (outgoing me.2)) (outgoing me'.2)) other.2))
    | (_, Throw Waiting) => Ok (me, other)
    | (_, Throw e) => Throw e
    end.

Fixpoint handshakes `{AesGcmSocketHandshaker H1 W} `{AesGcmSocketHandshaker H2 W} (turns : list bool) (a : H1 * W) (b : H2 * W)
  : result Fault ((H1 * W) * (H2 * W)) :=
  match turns with
  | [] => Ok (a, b)
  | true :: turns => '(a, b) ← turn a b; handshakes turns a b
  | false :: turns => '(b, a) ← turn b a; handshakes turns a b
  end.

(** A structure that has arrived whole, and one that has not. *)
Lemma RecvStruct_stream size (w : W) : 0 <= size <= Z.of_nat patience -> zlen (incoming w) = size ->
  exists w', StreamSocketBase.RecvRawUntilComplete size w = (w', Ok (incoming w)) /\ incoming w' = [] /\ outgoing w' = outgoing w.
Proof.
  intros Hs Hl. destruct (RecvRawUntilComplete_stream size w) as (d & w' & E & Hd & Hi & Ho); [lia|lia|].
  exists w'. assert (incoming w' = []) as Hn.
  { apply nil_length_inv. pose proof (f_equal length Hi) as H. rewrite length_app in H. lia. }
  rewrite Hn, app_nil_r in Hi. by rewrite Hi.
Qed.

Lemma RecvStruct_waits size (w : W) : 0 < size -> incoming w = [] ->
  StreamSocketBase.RecvRawUntilComplete size w = (w, Throw Waiting).
Proof.
  intros Hs Hi. unfold StreamSocketBase.RecvRawUntilComplete. destruct patience as [|fuel];
    cbn [StreamSocketBase.RecvLoop]; (rewrite (proj2 (Z.ltb_lt _ _)) by (cbn; lia)); [done|].
  unfold mbind, stx_bind. by rewrite (RecvRaw_waits (size - zlen []) w) by (done || (cbn; lia)).
Qed.
End pair.

(** What a step does when the callback accepts. *)
Lemma accepted {A} cb id (ok : A) (bad : Fault -> A) : accepts cb id ->
  match cb with Some f => match f id with Ok _ => ok | Throw e => bad e end | None => ok end = ok.
Proof. destruct cb as [f|]; cbn; [by intros ->|done]. Qed.

Section exchange.
Context `{Dh : DhSdk} `{Laws : !DhLaws} `{Mb : MbedOps} `{Pat : Patience} `{Sock : StreamSocket W} `{Str : !ReliableStream W}.

(** The exchange, and the states of the two sides after each of its messages. *)
Context (si si1 si2 sr sr1 sr2 : sgx_dh_session_t) (msg1 msg2 msg3 ki kr idi idr noId : bytes).
Context (cbi cbr : option (bytes -> result Fault unit)).
Context (E1 : sgx_dh_responder_gen_msg1 sr = (0, sr1, msg1)) (E2 : sgx_dh_initiator_proc_msg1 msg1 si = (0, si1, msg2)).
Context (E3 : sgx_dh_responder_proc_msg2 msg2 sr1 = (0, sr2, (msg3, kr, idi))) (E4 : sgx_dh_initiator_proc_msg3 msg3 si1 = (0, si2, (ki, idr))).
Context (Hi : accepts cbi idr) (Hr : accepts cbr idi).
Context (Hroom : sizeof_dh_msg1 <= Z.of_nat patience /\ sizeof_dh_msg2 <= Z.of_nat patience /\ sizeof_dh_msg3 <= Z.of_nat patience)
  (Hlt : Z.of_nat patience < 2 ^ 64).

Definition initiator_at (p : nat) : LaInitiator.t :=
  if (p <? 2)%nat then LaInitiator.mk si LaInitiator.Initial (replicate 16 0) noId cbi
  else if (p <? 4)%nat then LaInitiator.mk si1 LaInitiator.Msg2Sent (replicate 16 0) noId cbi
  else LaInitiator.mk si2 LaInitiator.HandshakeDone ki idr cbi.
Definition responder_at (p : nat) : LaResponder.t :=
  if (p <? 1)%nat then LaResponder.mk sr LaResponder.Initial (replicate 16 0) noId cbr
  else if (p <? 3)%nat then LaResponder.mk sr1 LaResponder.Msg1Sent (replicate 16 0) noId cbr
  else LaResponder.mk sr2 LaResponder.HandshakeDone kr idi cbr.

(** After [p] messages: the sides, and the one message on its way. *)
Definition phase (p : nat) (a : LaInitiator.t * W) (b : LaResponder.t * W) : Prop :=
  (p <= 4)%nat /\ a.1 = initiator_at p /\ b.1 = responder_at p /\
  incoming a.2 = match p with 1%nat => msg1 | 3%nat => msg3 | _ => [] end /\
  incoming b.2 = match p with 2%nat => msg2 | _ => [] end.

(** The responder moves after an even number of messages, the initiator after an odd
    one. *)
Definition advance (p : nat) (initiator : bool) : nat :=
  if (p <? 4)%nat && Bool.eqb (Nat.odd p) initiator then S p else p.

Lemma initiator_turn p a b : phase p a b -> exists a' b', turn a b = Ok (a', b') /\ phase (advance p true) a' b'.
Proof using E1 E2 E3 E4 Hi Hlt Hroom Laws Str.
  clear Hr. destruct a as [ha x], b as [hb y]. intros (Hp & Ha & Hb & Hx & Hy). cbn [fst snd] in *. subst ha hb.
  destruct sizeof_dh as (S1 & S2 & S3). pose proof (dh_msg1_size _ _ _ _ E1) as L1.
  pose proof (dh_msg2_size _ _ _ _ _ E2) as L2. pose proof (dh_msg3_size _ _ _ _ _ _ _ E3) as L3.
  unfold turn. cbn [IsHandshakeDone HandshakeStep LaInitiator_handshaker fst snd]. rewrite initiator_step.
  destruct p as [|[|[|[|[|?]]]]]; [| | | | |lia]; cbn [initiator_at Nat.ltb Nat.leb LaInitiator.m_state LaInitiator.m_session
    LaInitiator.m_peerIdVrfyCallback LaInitiator.IsHandshakeDone bool_decide decide advance Nat.odd Nat.even negb Bool.eqb andb].
  - rewrite (RecvStruct_waits sizeof_dh_msg1 x S1 Hx). cbn. do 2 eexists. by split.
  - destruct (RecvStruct_stream sizeof_dh_msg1 x) as (x1 & Er & Hx1 & Ho1); [lia|by rewrite Hx|].
    rewrite Er, Hx, E2. change (0 =? 0) with true. cbn iota.
    destruct (SendRawUntilComplete_stream msg2 x1) as (x2 & Es & Ho2 & Hx2); [lia|lia|]. rewrite Es.
    do 2 eexists. split; [done|]. cbn [fst snd]. rewrite Ho2, Ho1, drop_app_length.
    split_and!; cbn; [lia|done|done|congruence|]. by rewrite (proj1 (deliver_stream _ _)), Hy.
  - rewrite (RecvStruct_waits sizeof_dh_msg3 x S3 Hx). cbn. do 2 eexists. by split.
  - destruct (RecvStruct_stream sizeof_dh_msg3 x) as (x1 & Er & Hx1 & Ho1); [lia|by rewrite Hx|].
    rewrite Er, Hx, E4. change (0 =? 0) with true. cbn iota.
    rewrite (accepted cbi idr _ _ Hi). do 2 eexists. split; [done|]. cbn [fst snd]. rewrite Ho1, drop_all.
    split_and!; cbn; [lia|done|done|done|]. by rewrite (proj1 (deliver_stream _ _)), Hy.
  - do 2 eexists. by split.
Qed.

Lemma responder_turn p a b : phase p a b -> exists a' b', turn b a = Ok (b', a') /\ phase (advance p false) a' b'.
Proof using E1 E2 E3 E4 Hr Hlt Hroom Laws Str.
  clear Hi. destruct a as [ha x], b as [hb y]. intros (Hp & Ha & Hb & Hx & Hy). cbn [fst snd] in *. subst ha hb.
  destruct sizeof_dh as (S1 & S2 & S3). pose proof (dh_msg1_size _ _ _ _ E1) as L1.
  pose proof (dh_msg2_size _ _ _ _ _ E2) as L2. pose proof (dh_msg3_size _ _ _ _ _ _ _ E3) as L3.
  unfold turn. cbn [IsHandshakeDone HandshakeStep LaResponder_handshaker fst snd]. rewrite responder_step.
  destruct p as [|[|[|[|[|?]]]]]; [| | | | |lia]; cbn [responder_at Nat.ltb Nat.leb LaResponder.m_state LaResponder.m_session
    LaResponder.m_peerIdVrfyCallback LaResponder.IsHandshakeDone bool_decide decide advance Nat.odd Nat.even negb Bool.eqb andb].
  - rewrite E1. change (0 =? 0) with true. cbn iota.
    destruct (SendRawUntilComplete_stream msg1 y) as (y1 & Es & Ho1 & Hy1); [lia|lia|]. rewrite Es.
    do 2 eexists. split; [done|]. cbn [fst snd]. rewrite Ho1, drop_app_length.
    split_and!; cbn; [lia|done|done| |congruence]. by rewrite (proj1 (deliver_stream _ _)), Hx.
  - rewrite (RecvStruct_waits sizeof_dh_msg2 y S2 Hy). cbn. do 2 eexists. by split.
  - destruct (RecvStruct_stream sizeof_dh_msg2 y) as (y1 & Er & Hy1 & Ho1); [lia|by rewrite Hy|].
    rewrite Er, Hy, E3. change (0 =? 0) with true. cbv zeta beta iota. rewrite (accepted cbr idi _ _ Hr).
    destruct (SendRawUntilComplete_stream msg3 y1) as (y2 & Es & Ho2 & Hy2); [lia|lia|]. rewrite Es.
    do 2 eexists. split; [done|]. cbn [fst snd]. rewrite Ho2, Ho1, drop_app_length.
    split_and!; cbn; [lia|done|done| |congruence]. by rewrite (proj1 (deliver_stream _ _)), Hx.
  - do 2 eexists. by split.
  - do 2 eexists. by split.
Qed.

Lemma handshakes_phase turns p a b : phase p a b ->
  exists a' b', handshakes turns a b = Ok (a', b') /\ phase (fold_left advance turns p) a' b'.
Proof using E1 E2 E3 E4 Hi Hr Hlt Hroom Laws Str.
  revert p a b. induction turns as [|[] turns IH]; intros p a b Hp; cbn [handshakes fold_left].
  - by do 2 eexists.
  - destruct (initiator_turn p a b Hp) as (a1 & b1 & -> & Hp1). by apply IH.
  - destruct (responder_turn p a b Hp) as (a1 & b1 & -> & Hp1). by apply IH.
Qed.
End exchange.

(** The four messages need no more than a turn each, whatever turns are in between. *)
Definition four_turns : list bool := [false; true; false; true].

Lemma advance_le p who : (p <= advance p who)%nat.
Proof. unfold advance. destruct (_ && _); lia. Qed.

Lemma advance_all turns p : (p <= 4)%nat -> drop p four_turns `sublist_of` turns -> fold_left advance turns p = 4%nat.
Proof.
  revert p. induction turns as [|who turns IH]; intros p Hp Hs; cbn [fold_left].
  - apply sublist_nil_r in Hs. destruct p as [|[|[|[|[|?]]]]]; (done || lia).
  - apply IH.
    + unfold advance. destruct (Nat.ltb_spec p 4); cbn; [destruct (Bool.eqb _ _); lia|lia].
    + destruct p as [|[|[|[|[|?]]]]]; [| | | | |lia]; cbn in Hs |- *;
        apply sublist_cons_r in Hs as [Hs|(l & E & Hs)]; try done; try (injection E as <- <-; done);
        destruct who; cbn; try done; (etransitivity; [|exact Hs]; by apply sublist_cons).
Qed.

(** ** The sockets *)

Section channel.
Context `{Alloc : Allocator} `{Gcm : GcmSdk} `{Kdf : KeyDerivation} `{Dh : DhSdk} `{Mb : MbedOps} `{Pat : Patience}.
Context `{Sock : StreamSocket W} `{Str : !ReliableStream W}.
Context `{Laws : !GcmLaws} `{KLaws : !KeyDerivationLaws} `{DLaws : !DhLaws}.

(** The socket that [FromHandshake] makes of a side that is done. *)
Definition socket_of `{AesGcmSocketHandshaker H W} (s : H * W) (rand : list bytes) : AesGcmStreamSocket.t W :=
  AesGcmStreamSocket.create (GetSecretKey s.1) (GetMaskKey s.1) s.2 rand.

(** C31. Two enclaves on one machine that the SDK and their callbacks let through:
    however the steps of the two handshakes are interleaved and the streams cut up
    the bytes, no call fails, and as soon as each side has had its two turns in
    order both are done; and the two sockets are then one channel of messages in both
    directions, whatever calls are made on them. *)
Theorem local_attestation_channel ini inr noId cbi cbr hi hr (x y : W) ki idr kr idi turns :
  LaInitiator.create ini noId cbi = Ok hi -> LaResponder.create inr noId cbr = Ok hr ->
  sdk_exchange ini.2 inr.2 (ki, idr) (kr, idi) -> accepts cbi idr -> accepts cbr idi ->
  incoming x = [] -> incoming y = [] ->
  Z.max sizeof_dh_msg1 (Z.max sizeof_dh_msg2 sizeof_dh_msg3) <= Z.of_nat patience < 2 ^ 64 ->
  four_turns `sublist_of` turns -> length (Ckdf ki "MK") = 16%nat ->
  exists a b, handshakes turns (hi, x) (hr, y) = Ok (a, b) /\
    IsHandshakeDone a.1 = true /\ IsHandshakeDone b.1 = true /\
    forall ivs_a ivs_b calls, Forall (fun iv => length iv = 12%nat) (ivs_a ++ ivs_b) -> Forall (fun c => fair c.2) calls ->
      exists a' b' os ab ba, conversation calls (socket_of a ivs_a) (socket_of b ivs_b) = (a', b', os) /\
        channel_steps calls os ([], []) (ab, ba).
Proof using Laws KLaws DLaws Str.
  intros Ei Er Hx Hi Hr Hinx Hiny Hroom Hturns Hmak. pose proof (dh_same_key _ _ _ _ _ _ Hx) as <-.
  unfold LaInitiator.create, LaResponder.create in Ei, Er. destruct (ini.1 =? 0); [injection Ei as <-|done].
  destruct (inr.1 =? 0); [injection Er as <-|done]. inversion Hx as [sr1 msg1 si1 msg2 sr2 msg3 ? ? si2 ? ? E1 E2 E3 E4]; subst.
  assert (sizeof_dh_msg1 <= Z.of_nat patience /\ sizeof_dh_msg2 <= Z.of_nat patience /\ sizeof_dh_msg3 <= Z.of_nat patience) as Hrm by lia.
  assert (Z.of_nat patience < 2 ^ 64) as Hlt by lia.
  destruct (handshakes_phase ini.2 si1 si2 inr.2 sr1 sr2 msg1 msg2 msg3 ki ki idi idr noId cbi cbr E1 E2 E3 E4 Hi Hr
    Hrm Hlt turns 0 (LaInitiator.mk ini.2 LaInitiator.Initial (replicate 16 0) noId cbi, x)
    (LaResponder.mk inr.2 LaResponder.Initial (replicate 16 0) noId cbr, y)) as ([a x'] & [b y'] & E & Hp).
  { split_and!; (done || lia). }
  rewrite advance_all in Hp by (done || lia). destruct Hp as (_ & Ha & Hb & Hx' & Hy'). cbn [fst snd] in *. subst a b.
  exists (initiator_at ini.2 si1 si2 ki idr noId cbi 4, x'), (responder_at inr.2 sr1 sr2 ki idi noId cbr 4, y').
  split; [exact E|]. split; [done|]. split; [done|]. intros ivs_a ivs_b calls Hivs Hc. apply Forall_app in Hivs as [Hia Hib].
  destruct (conversation calls _ _) as [[a' b'] os] eqn:Ec. exists a', b', os.
  assert (linked (socket_of (initiator_at ini.2 si1 si2 ki idr noId cbi 4, x') ivs_a)
    (socket_of (responder_at inr.2 sr1 sr2 ki idi noId cbr 4, y') ivs_b) ([], [])) as Hl.
  { split_and!; [exists []|exists []|by split|by split]; cbn; rewrite ?Hx', ?Hy'; by split; [constructor|]. }
  destruct (conversation_steps _ _ _ _ _ _ _ Hc Hl Ec) as (([ab ba] & Hs & _) & _). by exists ab, ba.
Qed.
End channel.

(** ** An instance *)

(** A toy exchange: a session is a secret and what the peer has sent of its own; the
    key is made of their product. *)
Definition toy_key (a b : Z) : bytes := replicate 16 (u8 (a * b)).

#[local] Instance toy_dh : DhSdk := {|
  sgx_dh_session_t := Z * Z;
  sizeof_dh_msg1 := 1; sizeof_dh_msg2 := 1; sizeof_dh_msg3 := 1;
  sgx_dh_responder_gen_msg1 s := (0, s, [u8 s.1]);
  sgx_dh_initiator_proc_msg1 m s :=
    match m with [p] => (0, (s.1, p), [u8 s.1]) | _ => (1, s, [0]) end;
  sgx_dh_responder_proc_msg2 m s :=
    match m with [p] => (0, (s.1, p), ([7], toy_key p (u8 s.1), [p])) | _ => (1, s, ([0], [], [])) end;
  sgx_dh_initiator_proc_msg3 m s :=
    if bool_decide (m = [7]) then (0, s, (toy_key s.2 (u8 s.1), [s.2])) else (1, s, ([], [])) |}.

#[local] Instance toy_laws : DhLaws.
Proof.
  split.
  - cbn. lia.
  - intros s ret s1 m. cbn. by intros [= <- <- <-].
  - intros m1 s ret s1 m. cbn. destruct m1 as [|p [|]]; by intros [= <- <- <-].
  - intros m2 s ret s1 m k id. cbn. destruct m2 as [|p [|]]; by intros [= <- <- <- _ _].
  - intros si sr ki idr kr idi Hx. inversion Hx as [? ? ? ? ? ? ? ? ? ? ? E1 E2 E3 E4]; subst. cbn in *.
    injection E1 as <- <-. injection E2 as <- <-. injection E3 as <- <- <- <-. injection E4 as _ <- _.
    unfold toy_key. cbn. by rewrite Z.mul_comm.
Qed.

Section sample.
#[local] Existing Instances backwards backwards_laws pack_allocator sample_kdf sample_kdf_laws sample_patience.
#[local] Instance toy_mbed : MbedOps := {|
  ec_public k := k; DeriveSharedKey k p := Some (k ++ p); SignInBigNum k h r := Some h;
  Cmacer k m := replicate 16 (u8 (foldr Z.add 0 (k ++ m))) |}.

(** The initiator takes the responder for the enclave [9] and for no other. *)
Definition only_nine : bytes -> result Fault unit := fun id =>
  if bool_decide (id = [9]) then Ok tt else Throw (Thrown "wrong peer").

Definition toy_i : Z * sgx_dh_session_t := (0, (5, 0)).
Definition toy_r : Z * sgx_dh_session_t := (0, (9, 0)).

Definition sample_handshake : result Fault (AesGcmStreamSocket.t Wire) :=
  h ← LaInitiator.create toy_i [] (Some only_nine);
  FromHandshake (h : LaInitiator.t) (mkWire 3 [9; 7] []) [replicate 12 1].

Lemma local_handshake_attested_witness :
  match sample_handshake with
  | Ok k => exists aek x', (initiator_attested toy_i.2 (Some only_nine) aek \/ responder_attested toy_i.2 (Some only_nine) aek) /\
      k = AesGcmStreamSocket.create (Ckdf aek "SK") (Ckdf aek "MK") x' [replicate 12 1]
  | Throw _ => False
  end.
Proof.
  destruct sample_handshake as [k|e] eqn:E; [|vm_compute in E; discriminate E].
  destruct (local_handshake_attested toy_i [] (Some only_nine) (mkWire 3 [9; 7] []) [replicate 12 1] k)
    as (aek & x' & _ & Ha & Hk); [unfold patience, sample_patience; lia|left; exact E|].
  exists aek, x'. split; [exact Ha|exact Hk].
Defined.

(** Another peer's identity, or a message 3 that is not for this session, leaves no
    socket. *)
Example wrong_peer : FromHandshake (LaInitiator.mk (5, 0) LaInitiator.Initial [] [] (Some only_nine)) (mkWire 3 [8; 7] []) [] =
  Throw (Thrown "wrong peer").
Proof. reflexivity. Qed.
Example wrong_msg3 : FromHandshake (LaInitiator.mk (5, 0) LaInitiator.Initial [] [] None) (mkWire 3 [9; 6] []) [] =
  Throw (Thrown "SgxRuntimeError").
Proof. reflexivity. Qed.

(** The responder goes first; turns that come too early are put off. *)
Definition sample_turns : list bool := [true; false; false; true; true; false; false; true].

Lemma local_attestation_channel_witness :
  exists (hi : LaInitiator.t) (hr : LaResponder.t),
    LaInitiator.create toy_i [] (Some only_nine) = Ok hi /\ LaResponder.create toy_r [] None = Ok hr /\
  exists a b, handshakes sample_turns (hi, mkWire 2 [] []) (hr, mkWire 0 [] []) = Ok (a, b) /\
    exists a' b' os ab ba,
      conversation sample_calls (socket_of a [replicate 12 1; replicate 12 2]) (socket_of b [replicate 12 3]) = (a', b', os) /\
      channel_steps sample_calls os ([], []) (ab, ba).
Proof.
  do 2 eexists. split; [reflexivity|]. split; [reflexivity|].
  destruct (local_attestation_channel toy_i toy_r [] (Some only_nine) None _ _ (mkWire 2 [] []) (mkWire 0 [] [])
    (toy_key 9 5) [9] (toy_key 5 9) [5] sample_turns eq_refl eq_refl) as (a & b & E & _ & _ & H).
  - eapply sdk_exchange_intro; reflexivity.
  - reflexivity.
  - exact I.
  - reflexivity.
  - reflexivity.
  - cbn. unfold patience, sample_patience. lia.
  - unfold four_turns, sample_turns. repeat constructor.
  - reflexivity.
  - exists a, b. split; [exact E|]. apply H.
    + cbn [app]. repeat (apply Forall_cons_2; [done|]). apply Forall_nil_2.
    + repeat (apply Forall_cons_2; [cbn [fair snd]; first [lia|apply sample_sendable; cbn [length]; lia]|]). apply Forall_nil_2.
Defined.
End sample.
