(* ===== verification/Deployment.v ===== *)
(** * The list of authorized enclaves, certificate requests, hosted functions

    What a component is deployed with: the list of enclaves it knows, from the
    configuration of the host ([DE/Untrusted/Config/AuthList.hpp]) to the enclave
    ([DE/Common/AuthList.hpp], [DE/Trusted/AuthListMgr.hpp]); the request for its
    certificate ([DE/Common/DecentCerts.hpp], [DE/Trusted/AppCertRequester.hpp]); and
    the host's server that accepts the calls of its functions
    ([DE/Untrusted/Hosting/LambdaFuncServer.hpp], [LambdaFuncTask.hpp]). *)

From stdpp Require Import gmap strings.
From S2P Require Import Prelude RlpEncoding RlpDecoding AdvRlp AdvRlpTheorems Codec Json IasReport EpidRa Messages AesGcm SecureSocket LocalAttest.

(** ** The list of authorized enclaves *)

Module AuthList.
Definition sk_authListSVN : Z := 1.

(** [AuthList]: the version and the names by hash. *)
Record t := mk { SVN : Z; HashToName : list (Hashable * Object) }.

Definition auth_obj (l : t) : Object := SStaticDict [SHashable (SInteger UInt32 (SVN l)); SDict (HashToName l)].

(** [AuthListParser], the two parsers of its items; neither missing nor extra items
    are allowed. *)
Definition item_parsers (fuel : nat) : list (Typed Object) := [CatIntegerParser UInt32 fuel; CatDictParser fuel].
Definition AuthListParser (bs : bytes) : result AdvError t :=
  let f := S (length bs) in
  o ← ParseCtn (CatStaticDictParser.Parse (fun i => nth i (item_parsers f) FailingParser) 2 f) bs;
  match o with
  | SStaticDict [SHashable (SInteger UInt32 svn); SDict d] => Ok (mk svn d)
  | _ => Throw (UndefinedBehaviour "members of the tuple")
  end.

(** [operator[]] of a dictionary, assigned to. *)
Fixpoint assign (d : list (Hashable * Object)) (key : Hashable) (val : Object) : list (Hashable * Object) :=
  match d with
  | [] => [(key, val)]
  | (k, v) :: d => if obj_eqb k key then (k, val) :: d else (k, v) :: assign d key val
  end.

Section config.
Context `{DoubleOps}.
Import IasEpidReportVerifier.

Definition KeyAsString (k : Hashable) : result RaError bytes :=
  match k with SString s => Ok s | _ => Throw (RaObj (AdvTypeError "String" (GetCategoryName (SHashable k)))) end.

(** The constant [operator[]] of a dictionary of JSON. *)
Definition JsonAt (d : list (Hashable * Json)) (key : Hashable) : result RaError Json :=
  match FindVal d key with Some v => Ok v | None => Throw (RaObj AdvKeyError) end.

(** The components in the order in which the hash map iterates. *)
Fixpoint ConfigLoop (hashMap : list (Hashable * Json)) (hashToName : list (Hashable * Object))
  : result RaError (list (Hashable * Object)) :=
  match hashMap with
  | [] => Ok hashToName
  | (k, v) :: hashMap =>
    hashHex ← KeyAsString k;
    cmpConfig ← AsDict v;
    it ← JsonAt cmpConfig (label "Name");
    name ← AsString it;
    hash ← ra_codec (Hex.Decode true true Hex.PadDisabled hashHex);
    ConfigLoop hashMap (assign hashToName (SBytes hash) (SHashable (SString name)))
  end.

Definition ConfigToAuthListAdvRlp (config : Json) : result RaError bytes :=
  cfg ← AsDict config;
  cmps ← JsonAt cfg (label "AuthorizedComponents");
  hashMap ← AsDict cmps;
  hashToName ← ConfigLoop hashMap [];
  ra_obj (GenericWriter.Write (auth_obj (mk sk_authListSVN hashToName))).
End config.
End AuthList.

Module AuthListMgr.
Record t := mk { m_authListAdvRlp : bytes; m_authList : AuthList.t }.

Definition create (authListAdvRlp : option bytes) : result AdvError t :=
  let b := default [] authListAdvRlp in
  l ← AuthList.AuthListParser b;
  Ok (mk b l).

(** [sk_inst] is made by the first call that does not throw; the argument of a later
    one is not looked at. *)
Definition GetInstance (authListAdvRlp : option bytes) : stx (option t) AdvError t := fun inst =>
  match inst with
  | Some m => (inst, Ok m)
  | None => match create authListAdvRlp with Ok m => (Some m, Ok m) | Throw e => (None, Throw e) end
  end.
End AuthListMgr.

(** ** Requests for a certificate *)

Module AppCertRequest.
Record t := mk { KeyName : bytes; CSR : bytes; AuthList : bytes }.
End AppCertRequest.

#[export] Instance AppCertRequest_msg : StaticMsg AppCertRequest.t := {|
  msg_shape := ShDict [ShString; ShBytes; ShBytes];
  msg_obj r := SStaticDict [SHashable (SString (AppCertRequest.KeyName r)); SHashable (SBytes (AppCertRequest.CSR r));
    SHashable (SBytes (AppCertRequest.AuthList r))];
  msg_of o :=
    match o with
    | SStaticDict [SHashable (SString n); SHashable (SBytes c); SHashable (SBytes l)] => Some (AppCertRequest.mk n c l)
    | _ => None
    end |}.

Module AppCertRequester.

Definition quoted (s : string) : bytes := 34 :: chars s ++ [34].
Definition sk_reqBody : bytes := chars "{" ++ quoted "method" ++ chars ":" ++ quoted "req_app_cert" ++ chars "}".

(** [BuildAppCertReq]; the instance of the list exists by then. *)
Definition BuildAppCertReq (m_keyName m_csr : bytes) (inst : AuthListMgr.t) : result AdvError bytes :=
  WriteMsg (AppCertRequest.mk m_keyName m_csr (AuthListMgr.m_authListAdvRlp inst)).

(** [Request], on the socket [Connect] made: the call of the server's function, the
    local attestation without a callback, and the request and its answer on the
    encrypted socket. *)
Section request.
Context `{Alloc : Allocator} `{Gcm : GcmSdk} `{Kdf : KeyDerivation} `{Dh : DhSdk} `{Mb : MbedOps} `{Pat : Patience} `{Sock : StreamSocket W}.

Definition Request (init : Z * sgx_dh_session_t) (noId : bytes) (rand : list bytes) (m_appCertReq : bytes) (socket : W)
  : result Fault bytes :=
  let '(socket, r) := StreamSocketBase.SizedSendBytes sk_reqBody socket in
  _ ← r;
  handshaker ← LaInitiator.create init noId None;
  secSocket ← FromHandshake handshaker socket rand;
  let '(secSocket, r) := StreamSocketBase.SizedSendBytes m_appCertReq secSocket in
  _ ← r;
  (StreamSocketBase.SizedRecvBytes secSocket).2.
End request.
End AppCertRequester.

(** ** Hosted functions *)

Module LambdaFuncServer.

(** A function and its acceptor, by the name of the function; the acceptors that wait
    for a connection; and the tasks that were given to the pool. *)
Record t (F S : Type) := mk { m_funcMap : gmap string F; accepting : gset string; m_tasks : list (F * S) }.
Arguments mk {F S}. Arguments m_funcMap {F S}. Arguments accepting {F S}. Arguments m_tasks {F S}.

Section server.
Context {F S : Type}.

(** [GetStreamAcceptor] of the endpoints; [None]: it throws. *)
Definition AddFunction (GetStreamAcceptor : string -> option ()) (name : string) (func : F) : stx (t F S) Fault unit := fun s =>
  match m_funcMap s !! name with
  | Some _ => (s, Throw (Thrown "Function name already exists."))
  | None =>
    match GetStreamAcceptor name with
    | None => (s, Throw (Thrown "EndpointMgr::PickAnyEndpointWithName"))
    | Some _ => (mk (<[name := func]> (m_funcMap s)) ({[name]} ∪ accepting s) (m_tasks s), Ok tt)
    end
  end.

(** The callback of [StartAccepting], called with a connection or an error when the
    acceptor was waiting.  The server lives, so that the weak pointers to function and
    acceptor are good; [poolAlive]: the one to the pool. *)
Definition on_accept (poolAlive : bool) (name : string) (sock : S) (hasErrorOccurred : bool) (s : t F S) : t F S :=
  if bool_decide (name ∈ accepting s) then
    let waiting := accepting s ∖ {[name]} in
    match m_funcMap s !! name with
    | Some func =>
      if negb hasErrorOccurred && poolAlive then mk (m_funcMap s) ({[name]} ∪ waiting) (m_tasks s ++ [(func, sock)])
      else mk (m_funcMap s) waiting (m_tasks s)
    | None => mk (m_funcMap s) waiting (m_tasks s)
    end
  else s.

(** What arrives at the acceptors, with the pool alive. *)
Definition serve (events : list (string * S * bool)) (s : t F S) : t F S :=
  foldl (fun s e => on_accept true e.1.1 e.1.2 e.2 s) s events.
End server.
End LambdaFuncServer.

(** ** The list on its way into the enclave *)

Section auth_list.
Context `{DoubleOps}.
Import AuthList IasEpidReportVerifier.

(** An entry of the configuration for the enclave with a hash, under a name. *)
Definition is_component (p : Hashable * Json) (c : bytes * bytes) : Prop :=
  exists hex d, p = (SString hex, JDict d) /\ Hex.Decode true true Hex.PadDisabled hex = Ok c.1 /\
    FindVal d (label "Name") = Some (JHash (SString c.2)).

Definition entry (c : bytes * bytes) : Hashable * Object := (SBytes c.1, SHashable (SString c.2)).

Lemma assign_fresh d h v : Forall (fun p => obj_eqb p.1 (SBytes h) = false) d -> assign d (SBytes h) v = d ++ [(SBytes h, v)].
Proof. induction 1 as [|[k w] d Hk _ IH]; [done|]. cbn in Hk |- *. by rewrite Hk, IH. Qed.

Lemma ConfigLoop_components hashMap comps acc :
  Forall2 is_component hashMap comps -> NoDup (map fst acc ++ map fst comps) ->
  ConfigLoop hashMap (map entry acc) = Ok (map entry (acc ++ comps)).
Proof.
  intros Hc. revert acc. induction Hc as [|p c hashMap comps (hex & d & -> & Hh & Hn) _ IH]; intros acc Hnd; cbn [ConfigLoop].
  - by rewrite app_nil_r.
  - cbn [KeyAsString AsDict mbind result_bind]. unfold JsonAt. rewrite Hn. cbn [AsString mbind result_bind]. rewrite Hh.
    cbn [ra_codec mbind result_bind map] in *. rewrite assign_fresh.
    + change [(SBytes c.1, _)] with (map entry [c]). rewrite <-map_app, IH; [by rewrite <-app_assoc|].
      rewrite map_app, <-app_assoc. exact Hnd.
    + apply Forall_map, Forall_forall. intros a Ha. cbn. apply bool_decide_eq_false. intros E.
      apply NoDup_app in Hnd as (_ & Hd & _). apply (Hd c.1); [|by left]. rewrite <-E. apply list_elem_of_fmap. by exists a.
Qed.

(** A dictionary, read by its own parser. *)
Lemma dict_parser_read d bs f : writable (SDict d) -> GenericWriter.Write (SDict d) = Ok bs -> fits 64 (zlen bs) ->
  (length bs <= f)%nat -> reads_as (CatDictParser f) bs (canon (SDict d)).
Proof.
  intros Hw Hwr Hfit Hl. inversion Hw as [| |d' Hk Hall]; subst. cbn [GenericWriter.Write] in Hwr.
  rewrite sort_pairs_map in Hwr. destruct (sort_pairs_spec d Hk) as (r & Hr & Hp & Hs). rewrite Hr in Hwr.
  cbn [fmap result_fmap mbind result_bind] in Hwr. bind_ok Hwr. injection Hwr as <-.
  rewrite <-dict_written in E. apply concat_bytes_inv in E as (encs & He & ->). rewrite (canon_pairs d r Hr).
  pose proof (list_bytes_fits _ Hfit) as [Hpf Hlt]. cbn [length] in Hpf, Hlt.
  change (34 :: concat encs) with (concat ([34] :: encs)) in *.
  unfold CatDictParser, CompositeParser. apply (list_read _ _ _ _ (SHashable (SBytes [34]) :: map canon (flat r)));
    [|intros pos; rewrite map_flat by done|done|cbn [concat app length] in *; lia].
  - constructor; [|apply items_written; [|done|word_lia|cbn [concat app length] in *; lia]].
    + assert ([34] = EncodeRlpBytes.SerializeBytes [34]) as E by reflexivity.
      rewrite E at 1. apply item_bytes; [by repeat constructor|by vm_compute].
    + apply Forall_flat. rewrite Hp. eapply Forall_impl; [exact Hall|]. intros q [Hq Hv].
      split; [by apply hash_read_back|by apply writable_read].
  - rewrite <-(TransformGeneric_dict pos _ (dict_sorted canon r Hs)). reflexivity.
Qed.

Lemma find_entry l h n : NoDup (map fst l) ->
  Dict.find (map entry l) (SBytes h) = Some (SHashable (SString n)) <-> (h, n) ∈ l.
Proof.
  induction l as [|[h' n'] l IH]; intros Hnd; cbn in *; [by split; [|intros []%not_elem_of_nil]|].
  apply NoDup_cons in Hnd as [Hh Hnd]. rewrite elem_of_cons. case_bool_decide as E.
  - subst h'. split; [intros [= ->]; by left|]. intros [[= ->]|Hin]; [done|].
    exfalso. apply Hh, list_elem_of_fmap. by exists (h, n).
  - rewrite IH by done. split; [by right|]. intros [[= -> ->]|Hin]; [by destruct E|done].
Qed.

Lemma entries_writable comps : NoDup (map fst comps) -> Forall (fun c => all_bytes c.1 /\ hash_writable (SString c.2)) comps ->
  writable (SDict (map entry comps)).
Proof.
  intros Hnd Hc. constructor.
  - right. exists 2%nat, (map fst comps). split; [|done]. rewrite !map_map. by apply map_ext.
  - apply Forall_map. eapply Forall_impl; [exact Hc|]. intros c [Hb Hs]. cbn. split; [done|]. by constructor.
Qed.

(** What is written of the list is read as the list in the order of the hashes. *)
Lemma auth_list_read comps : NoDup (map fst comps) -> Forall (fun c => all_bytes c.1 /\ hash_writable (SString c.2)) comps ->
  exists bs comps', GenericWriter.Write (auth_obj (mk sk_authListSVN (map entry comps))) = Ok bs /\ comps' ≡ₚ comps /\
    (fits 64 (zlen bs) -> AuthListParser bs = Ok (mk sk_authListSVN (map entry comps'))).
Proof.
  intros Hnd Hc. pose proof (entries_writable comps Hnd Hc) as Hw. destruct (writable_written _ Hw) as [db Hdb].
  destruct (shapes_read (ShInt UInt32) (SHashable (SInteger UInt32 sk_authListSVN))) as (ib & Hib & Hir);
    [constructor; unfold int_writable; by vm_compute|].
  inversion Hw as [| |d' Hk _]; subst. destruct (sort_pairs_spec _ Hk) as (r & Hr & Hp & _).
  pose proof (Permutation_sym Hp) as Hp1. apply Permutation_sym, Permutation_map_inv in Hp1 as (comps' & -> & Hp').
  exists (EncodeRlpList.SerializeBytes (SerializeCatId CatStaticDict :: concat [ib; db])), comps'. split; [|split; [by symmetry|]].
  - unfold auth_obj. cbn [GenericWriter.Write SVN HashToName map] in *. rewrite Hib, Hdb. cbn -[EncodeRlpList.SerializeBytes]. done.
  - intros Hfit. unfold AuthListParser. set (bs := EncodeRlpList.SerializeBytes _) in *.
    pose proof (list_bytes_fits _ Hfit) as [Hpf Hlt]. fold bs in Hlt. cbn [concat length] in Hpf, Hlt. rewrite !length_app in Hpf, Hlt.
    rewrite (ParseCtn_read _ bs (SStaticDict [SHashable (SInteger UInt32 sk_authListSVN); canon (SDict (map entry comps))])).
    + cbn [mbind result_bind]. rewrite (canon_pairs _ _ Hr), map_map. done.
    + apply (static_dict_read (item_parsers (S (length bs))) [ib; db]); [|exact Hfit|apply Nat.le_succ_diag_r].
      constructor; [apply Hir; [word_lia|lia]|]. constructor; [apply dict_parser_read; [done|done|word_lia|lia]|]. constructor.
Qed.

(** The list of the configuration is the list in the enclave: the host writes
    the components by the hashes their keys spell, and the first instance that the
    enclave makes of these bytes has this name for this hash and no other name for any
    hash; whatever bytes the enclave is offered later, the list stays. *)
Theorem auth_list_installed cfg hashMap comps :
  FindVal cfg (label "AuthorizedComponents") = Some (JDict hashMap) -> Forall2 is_component hashMap comps ->
  NoDup (map fst comps) -> Forall (fun c => all_bytes c.1 /\ hash_writable (SString c.2)) comps ->
  exists bs, ConfigToAuthListAdvRlp (JDict cfg) = Ok bs /\
    (fits 64 (zlen bs) -> exists m, AuthListMgr.GetInstance (Some bs) None = (Some m, Ok m) /\
      (forall later, AuthListMgr.GetInstance later (Some m) = (Some m, Ok m)) /\
      SVN (AuthListMgr.m_authList m) = sk_authListSVN /\
      (forall h n, Dict.find (HashToName (AuthListMgr.m_authList m)) (SBytes h) = Some (SHashable (SString n)) <-> (h, n) ∈ comps)).
Proof.
  intros Hcfg Hcs Hnd Hok. destruct (auth_list_read comps Hnd Hok) as (bs & comps' & Hwr & Hp & Hread). exists bs. split.
  - unfold ConfigToAuthListAdvRlp, JsonAt. cbn [AsDict mbind result_bind]. rewrite Hcfg. cbn [AsDict mbind result_bind].
    pose proof (ConfigLoop_components hashMap comps [] Hcs Hnd) as El. cbn [map] in El. rewrite El. cbn [app mbind result_bind]. by rewrite Hwr.
  - intros Hfit. exists (AuthListMgr.mk bs (mk sk_authListSVN (map entry comps'))).
    unfold AuthListMgr.GetInstance, AuthListMgr.create. cbn [default from_option id]. rewrite (Hread Hfit). split; [done|]. split; [done|].
    split; [done|]. intros h n. cbn [AuthListMgr.m_authList HashToName]. rewrite find_entry; [by rewrite Hp|].
    by rewrite (Permutation_map fst Hp).
Qed.
End auth_list.

(** ** The request on its way to the server *)

Definition AppCertRequest_ok (r : AppCertRequest.t) : Prop :=
  hash_writable (SString (AppCertRequest.KeyName r)) /\ all_bytes (AppCertRequest.CSR r) /\ all_bytes (AppCertRequest.AuthList r).

#[export] Instance AppCertRequest_laws : StaticMsgLaws AppCertRequest.t AppCertRequest_ok.
Proof.
  split.
  - by intros [].
  - intros r ([Hn Hu] & Hc & Hl). by has_members.
  - intros o Ho. cbn in Ho. of_shape_inv. by eexists.
Qed.

(** The server reads the name of the key, the request for it and the very list that
    the enclave uses. *)
Lemma request_carries_list m_keyName m_csr b inst :
  AuthListMgr.create (Some b) = Ok inst -> AppCertRequest_ok (AppCertRequest.mk m_keyName m_csr b) ->
  exists bs, AppCertRequester.BuildAppCertReq m_keyName m_csr inst = Ok bs /\
    (fits 64 (zlen bs) -> exists r, ParseMsg bs = Ok r /\ AppCertRequest.KeyName r = m_keyName /\ AppCertRequest.CSR r = m_csr /\
      AuthList.AuthListParser (AppCertRequest.AuthList r) = Ok (AuthListMgr.m_authList inst)).
Proof.
  intros Hi Hok. unfold AuthListMgr.create in Hi. bind_ok Hi. injection Hi as <-.
  destruct (msg_written _ Hok) as (bs & Hbs & Hr). exists bs. split; [done|]. intros Hf. by exists (AppCertRequest.mk m_keyName m_csr b); rewrite Hr.
Qed.

(** The request goes to whichever enclave answers the local attestation: its identity
    is not looked at. *)
Lemma requested_from_any `{Alloc : Allocator} `{Gcm : GcmSdk} `{Kdf : KeyDerivation} `{Dh : DhSdk} `{Mb : MbedOps} `{Pat : Patience}
    `{Sock : StreamSocket W} init noId rand req (socket : W) pem : (2 <= patience)%nat ->
  AppCertRequester.Request init noId rand req socket = Ok pem -> exists aek, initiator_attested init.2 None aek.
Proof.
  intros Hp. unfold AppCertRequester.Request. destruct (StreamSocketBase.SizedSendBytes _ socket) as [w [[]|e]]; [|done].
  cbn [mbind result_bind]. unfold LaInitiator.create. destruct (init.1 =? 0); [|done]. cbn [mbind result_bind]. unfold FromHandshake.
  destruct (Handshake _) as [[h w'] [[]|e]] eqn:E; [|done]. intros _. eexists. by apply (initiator_accepts _ _ _ _ Hp) in E.
Qed.

(** ** Hosted functions *)

Section hosted.
Context {F S : Type}.
Import LambdaFuncServer.

(** Without errors every connection is handed to the pool, once and in order, with the
    function of its acceptor, and no acceptor stops. *)
Lemma connections_served (events : list (string * S)) (s : t F S) tasks :
  Forall2 (fun e task => e.1 ∈ accepting s /\ exists f, m_funcMap s !! e.1 = Some f /\ task = (f, e.2)) events tasks ->
  serve (map (fun e => (e, false)) events) s = mk (m_funcMap s) (accepting s) (m_tasks s ++ tasks).
Proof.
  intros He. destruct s as [fs acc ts]. unfold serve. cbn in *. revert ts.
  induction He as [|[name sock] task events tasks (Hin & f & Hf & ->) _ IH]; intros ts; cbn; [by rewrite app_nil_r|].
  unfold on_accept at 2. cbn in *. rewrite bool_decide_eq_true_2, Hf by done.
  assert ({[name]} ∪ acc ∖ {[name]} = acc) as -> by (apply set_eq; intros x; destruct (decide (x = name)); set_solver).
  rewrite IH. by rewrite <-app_assoc.
Qed.

(** One accept that fails is the last: nothing makes the acceptor wait again, and the
    function cannot be added a second time. *)
Lemma accept_error_final name func sock (s : t F S) events GetStreamAcceptor :
  m_funcMap s !! name = Some func ->
  let s' := serve events (on_accept true name sock true s) in
  name ∉ accepting s' /\ (AddFunction GetStreamAcceptor name func s').2 = Throw (Thrown "Function name already exists.").
Proof.
  intros Hf. assert (forall s1 : t F S, name ∉ accepting s1 -> m_funcMap s1 !! name = Some func ->
    name ∉ accepting (serve events s1) /\ m_funcMap (serve events s1) !! name = Some func) as Hkeep.
  { induction events as [|[[n k] err] events IH]; intros s1 Hn Hm; [done|]. cbn. apply IH; unfold on_accept; cbn;
      case_bool_decide as Hin; try done; destruct (m_funcMap s1 !! n); try destruct (negb err && true); cbn; try done; set_solver. }
  cbn. destruct (Hkeep (on_accept true name sock true s)) as [H1 H2].
  - unfold on_accept. case_bool_decide; [|done]. rewrite Hf. cbn. set_solver.
  - unfold on_accept. case_bool_decide; [|done]. by rewrite Hf.
  - split; [exact H1|]. unfold AddFunction. by rewrite H2.
Qed.
End hosted.

(** ** An instance *)

Section sample.
Context `{DoubleOps}.
Definition ex_hash (n : Z) : bytes := replicate 31 0 ++ [n].
Definition ex_entry (n : Z) (name : string) : Hashable * Json :=
  (SString (Hex.Encode Hex.LowerAlphabet true (ex_hash n) []), JDict [(label "Name", JHash (SString (chars name)))]).
Definition ex_cfg : list (Hashable * Json) :=
  [(label "AuthorizedComponents", JDict [ex_entry 2 "EthereumClt"; ex_entry 1 "Revoker"])].
Definition ex_comps : list (bytes * bytes) := [(ex_hash 2, chars "EthereumClt"); (ex_hash 1, chars "Revoker")].

Lemma auth_list_installed_witness :
  exists bs, AuthList.ConfigToAuthListAdvRlp (JDict ex_cfg) = Ok bs /\
    (fits 64 (zlen bs) -> exists m, AuthListMgr.GetInstance (Some bs) None = (Some m, Ok m) /\
      (forall h n, Dict.find (AuthList.HashToName (AuthListMgr.m_authList m)) (SBytes h) = Some (SHashable (SString n)) <-> (h, n) ∈ ex_comps)).
Proof.
  destruct (auth_list_installed ex_cfg [ex_entry 2 "EthereumClt"; ex_entry 1 "Revoker"] ex_comps) as (bs & Hbs & Hb).
  - reflexivity.
  - constructor; [|constructor; [|constructor]]; (do 2 eexists; split; [reflexivity|split; [vm_compute; reflexivity|reflexivity]]).
  - apply (bool_decide_unpack _). vm_compute. exact I.
  - repeat apply Forall_cons_2; try apply Forall_nil_2; (split; [apply (bool_decide_unpack _); vm_compute; exact I|split; [apply (bool_decide_unpack _); vm_compute; exact I|vm_compute; reflexivity]]).
  - exists bs. split; [exact Hbs|]. intros Hf. destruct (Hb Hf) as (m & Hm & _ & _ & Hfind). exists m. split; [exact Hm|exact Hfind].
Defined.
End sample.
