(* ===== verification/AsyncRecv.v ===== *)
(** * Receiving without waiting

    How the enclave receives when it does not block: the callbacks of
    [SimpleSysIO/StreamSocketBase.hpp] and [DE/Common/AesGcmStreamSocket.hpp], the
    table of callbacks the host may invoke
    ([DE/Trusted/UntrustedAsyncEventHandler.hpp], [DE/SgxEdgeSources/SysIO_t.cpp]),
    what the enclave copies from the host ([DE/Trusted/Sgx/ComponentConnection.hpp],
    [Files.hpp]), and the buffer between a socket and the TLS library
    ([DE/Common/TlsSocket.hpp], [RecvData] of [mbedTLScpp/Tls.hpp]).  A callback is a
    value, the function object with its members; the socket below is a request that the
    host completes with any bytes. *)

From stdpp Require Import strings gmap relations.
From Stdlib Require Import ZifyBool.
From S2P Require Import Prelude AesGcm SecureSocket.

(** ** Callbacks *)

(** The function objects of [StreamSocketBase] around the application's callback. *)
Inductive Callback :=
| User
| UntilComplete (m_expSize : Z) (m_cached : bytes) (m_callback : Callback)
| SizedSize (m_dataCallback : Callback)
| SizedData (m_callback : Callback).

(** A socket's [AsyncRecvRaw], and what the application does with what it is given. *)
Class AsyncSocket (W : Type) := { AsyncRecvRaw : Z -> Callback -> W -> W; called : bytes -> bool -> W -> W }.

Module AsyncStream.
Section async.
Context `{Sock : AsyncSocket W}.

Definition AsyncRecvRawUntilComplete (expSize : Z) (callback : Callback) : W -> W :=
  AsyncRecvRaw expSize (UntilComplete expSize [] callback).

(** The call operator of each. *)
Fixpoint invoke (cb : Callback) (buf : bytes) (hasErrorOccurred : bool) : W -> W :=
  match cb with
  | User => called buf hasErrorOccurred
  | UntilComplete expSize cached callback =>
    if hasErrorOccurred then invoke callback [] true
    else
      let cached := cached ++ buf in
      if zlen cached <? expSize then AsyncRecvRaw (expSize - zlen cached) (UntilComplete expSize cached callback)
      else invoke callback cached false
  | SizedSize dataCallback =>
    if hasErrorOccurred then invoke dataCallback [] true
    else AsyncRecvRawUntilComplete (be_val (rev (take 8 buf))) dataCallback
  | SizedData callback => if hasErrorOccurred then invoke callback [] true else invoke callback buf false
  end.

Definition AsyncSizedRecvBytes : W -> W := AsyncRecvRawUntilComplete 8 (SizedSize (SizedData User)).
End async.
End AsyncStream.

(** ** A socket whose requests are completed from outside *)

Module HostSocket.
(** The request that is under way, and what the application was given. *)
Record t := mk { pending : option (Z * Callback); calls : list (bytes * bool) }.

#[export] Instance HostSocket_async : AsyncSocket t := {|
  AsyncRecvRaw := fun size cb s => mk (Some (size, cb)) (calls s);
  called := fun buf err s => mk (pending s) (calls s ++ [(buf, err)]) |}.

Definition init : t := mk None [].

Definition complete (buf : bytes) (hasErrorOccurred : bool) (s : t) : t :=
  match pending s with
  | None => s
  | Some (_, cb) => AsyncStream.invoke cb buf hasErrorOccurred (mk None (calls s))
  end.
End HostSocket.

(** ** The encrypted socket *)

Module AesGcmAsync.
Section aes.
Context `{Alloc : Allocator} `{Gcm : GcmSdk} `{Kdf : KeyDerivation}.

(** [AsyncRecvHandler]: it has read part of the size, or part of the package. *)
Inductive AsyncRecvHandler := InSize (m_packSize : bytes) | InPack (m_packSize : Z) (m_recvBuf : bytes).

(** The socket, the request below with what it belongs to, and what the application
    was given. *)
Record t := mk {
  sock : AesGcmStreamSocket.t unit;
  pending : option (Z * AsyncRecvHandler * Z * Callback);
  calls : list (bytes * bool) }.

(** [InitAsyncRecv] and [PackAsyncRecv]. *)
Definition request (h : AsyncRecvHandler) : Z :=
  match h with InSize b => 8 - zlen b | InPack size b => size - zlen b end.

(** [PackSizeRecvHandler] and [PackRecvHandler] without an error: the handler that
    goes on, or the package.  A copy beyond the variable or the buffer is undefined. *)
Definition handle (h : AsyncRecvHandler) (data : bytes) : result Fault (AsyncRecvHandler + bytes) :=
  match h with
  | InSize b =>
    let b := b ++ data in
    if 8 <? zlen b then Throw (Undefined "memcpy")
    else if zlen b <? 8 then Ok (inl (InSize b))
    else
      _ ← room_for (be_val (rev b));
      Ok (inl (InPack (be_val (rev b)) []))
  | InPack size b =>
    let b := b ++ data in
    if size <? zlen b then Throw (Undefined "memcpy")
    else if zlen b <? size then Ok (inl (InPack size b))
    else Ok (inr b)
  end.

Definition set_sock (k : AesGcmStreamSocket.t unit) (s : t) : t := mk k (pending s) (calls s).
Definition user_called (buf : bytes) (hasErrorOccurred : bool) (s : t) : t := mk (sock s) (pending s) (calls s ++ [(buf, hasErrorOccurred)]).

(** [AsyncRecvRaw]: the buffer is passed on whole, and cleared after the callback
    returned, which may call it again; [fuel] is the depth of these calls. *)
Fixpoint AsyncRecvRaw (fuel : nat) (buffSize : Z) (callback : Callback) (s : t) : t :=
  match fuel with
  | O => s
  | S fuel =>
    match AesGcmStreamSocket.m_recvBuf (sock s) with
    | [] => mk (sock s) (Some (request (InSize []), InSize [], buffSize, callback)) (calls s)
    | buf =>
      let s := AsyncStream.invoke (Sock := {| AsyncRecv.AsyncRecvRaw := AsyncRecvRaw fuel; called := user_called |}) callback buf false s in
      set_sock (AesGcmStreamSocket.set_recvBuf [] (sock s)) s
    end
  end.

#[local] Instance aes_async (fuel : nat) : AsyncSocket t := {| AsyncRecv.AsyncRecvRaw := AsyncRecvRaw fuel; called := user_called |}.

(** The callback that [AsyncRecvRaw] gives the handler. *)
Definition on_package (fuel : nat) (buffSize : Z) (callback : Callback) (data : bytes) (s : t) : t * result Fault () :=
  let '(k, r) := AesGcmStreamSocket.DecryptMsg data (sock s) in
  match r with
  | Throw e => (set_sock k s, Throw e)
  | Ok decMsg =>
    let k := if buffSize <? zlen decMsg then AesGcmStreamSocket.set_recvBuf (drop (Z.to_nat buffSize) decMsg) k else k in
    (AsyncStream.invoke (Sock := aes_async fuel) callback (take (Z.to_nat buffSize) decMsg) false (set_sock k s), Ok tt)
  end.

(** The host completes the request below; an error ends the handler. *)
Definition complete (fuel : nat) (data : bytes) (hasErrorOccurred : bool) (s : t) : t * result Fault () :=
  match pending s with
  | None => (s, Ok tt)
  | Some (_, h, buffSize, callback) =>
    let s := mk (sock s) None (calls s) in
    if hasErrorOccurred then (s, Ok tt)
    else match handle h data with
    | Throw e => (s, Throw e)
    | Ok (inl h) => (mk (sock s) (Some (request h, h, buffSize, callback)) (calls s), Ok tt)
    | Ok (inr package) => on_package fuel buffSize callback package s
    end
  end.
End aes.
End AesGcmAsync.

(** ** The table of callbacks *)

Module UntrustedAsyncEventHandler.
Section handler.
Context {CallbackFuncType : Type}.

Record t := mk { m_counter : Z; m_callbackMap : gmap Z CallbackFuncType }.

Definition create : t := mk 0 ∅.

(** The loop of [AfterLockGetAvailableID]: the first free identifier. *)
Fixpoint next_free (fuel : nat) (counter : Z) (m : gmap Z CallbackFuncType) : option Z :=
  match fuel with
  | O => None
  | S fuel => match m !! counter with None => Some counter | Some _ => next_free fuel (u64 (counter + 1)) m end
  end.

(** [RegisterCallback]: [None] if the loop has not ended. *)
Definition RegisterCallback (callback : CallbackFuncType) (h : t) : option (t * result Fault Z) :=
  if 2 ^ 64 - 1 <=? Z.of_nat (size (m_callbackMap h)) then Some (h, Throw (Thrown "Too many callbacks are registered."))
  else
    id ← next_free (S (size (m_callbackMap h))) (m_counter h) (m_callbackMap h);
    Some (mk (u64 (id + 1)) (<[id := callback]> (m_callbackMap h)), Ok id).

(** [DispatchCallback]: the callback that is called. *)
Definition DispatchCallback (id : Z) (dispose : bool) (h : t) : t * result Fault CallbackFuncType :=
  match m_callbackMap h !! id with
  | None => (h, Throw (Thrown "Callback ID is not registered."))
  | Some callback => (if dispose then mk (m_counter h) (delete id (m_callbackMap h)) else h, Ok callback)
  end.
End handler.
End UntrustedAsyncEventHandler.

(** ** Copies from the host *)

(** [RecvRaw] of the enclave's socket and [ReadBytesRaw] of its files, into a buffer of
    [size] bytes: the host's buffer has the size the host says. *)
Definition RecvRaw (buffer ub : bytes) : result Fault (bytes * Z) :=
  data ← blit buffer 0 ub;
  Ok (data, zlen ub).

(** ** The buffer below TLS *)

Module TlsNonblockingSocket.
Record t := mk { m_asyncMode : bool; m_recvBuf : bytes; m_recvBufPos : nat; m_recvAsyncRequested : Z }.

Definition create (asyncMode : bool) : t := mk asyncMode [] 0 0.
Definition SetAsyncMode (asyncMode : bool) (s : t) : t := mk asyncMode (m_recvBuf s) (m_recvBufPos s) (m_recvAsyncRequested s).
Definition ResetRecvBuf (buf : bytes) (s : t) : t := mk (m_asyncMode s) buf 0 (m_recvAsyncRequested s).

(** The bytes of the buffer that were not read. *)
Definition unread (s : t) : bytes := drop (m_recvBufPos s) (m_recvBuf s).

(** [Recv]: bytes of the buffer, a blocking call of the socket, or
    [MBEDTLS_ERR_SSL_WANT_READ]. *)
Inductive RecvRet := Bytes (b : bytes) | Blocks (len : Z) | WantRead.
Definition Recv (len : Z) (s : t) : t * RecvRet :=
  match m_recvBuf s with
  | _ :: _ =>
    let copyLen := Nat.min (Z.to_nat len) (length (m_recvBuf s) - m_recvBufPos s) in
    let pos := (m_recvBufPos s + copyLen)%nat in
    (if (length (m_recvBuf s) <=? pos)%nat then mk (m_asyncMode s) [] 0 (m_recvAsyncRequested s)
     else mk (m_asyncMode s) (m_recvBuf s) pos (m_recvAsyncRequested s),
     Bytes (take copyLen (drop (m_recvBufPos s) (m_recvBuf s))))
  | [] =>
    if m_asyncMode s then (mk (m_asyncMode s) (m_recvBuf s) (m_recvBufPos s) len, WantRead)
    else (s, Blocks len)
  end.
End TlsNonblockingSocket.

(** The TLS library: asked for application data, it needs bytes of the record layer or
    returns data or an error, [None].  It asks for a byte at least. *)
Class TlsLibrary (T : Type) := { tls_read : T -> Z -> (Z * (bytes -> T)) + (T * option bytes) }.
Class TlsLaws `{TlsLibrary T} : Prop := { tls_read_some : forall e bufSize len k, tls_read e bufSize = inl (len, k) -> 0 < len }.

Module TlsAsync.
Section tls.
Context `{Tls : TlsLibrary T}.

(** The session with its socket, the size of the request below with that of the
    application's buffer, what the application was given; and the bytes the library
    was given. *)
Record t := mk {
  tls : T; socket : TlsNonblockingSocket.t; pending : option (Z * Z); calls : list (bytes * bool); fed : bytes }.

(** [mbedtls_ssl_read] over [TlsSocketWrapper::Recv]. *)
Inductive ReadRet := Data (b : bytes) | WantRead | Negative.

(** [fuel]: one more than the reads of the library that are answered with bytes;
    [None] without fuel, or when the socket below would block. *)
Fixpoint ssl_read (fuel : nat) (bufSize : Z) (s : t) : t * option ReadRet :=
  match fuel with
  | O => (s, None)
  | S fuel =>
    match tls_read (tls s) bufSize with
    | inr (e, r) => (mk e (socket s) (pending s) (calls s) (fed s), Some (match r with Some data => Data data | None => Negative end))
    | inl (len, k) =>
      let '(x, r) := TlsNonblockingSocket.Recv len (socket s) in
      match r with
      | TlsNonblockingSocket.Bytes b => ssl_read fuel bufSize (mk (k b) x (pending s) (calls s) (fed s ++ b))
      | TlsNonblockingSocket.WantRead => (mk (tls s) x (pending s) (calls s) (fed s), Some WantRead)
      | TlsNonblockingSocket.Blocks _ => (mk (tls s) x (pending s) (calls s) (fed s), None)
      end
    end
  end.

(** [RecvData] of mbedTLScpp: the data, [None] for [MBEDTLS_ERR_SSL_WANT_READ]; every
    other negative value is thrown.  Each read that is answered takes a byte. *)
Definition RecvData (bufSize : Z) (s : t) : t * result Fault (option bytes) :=
  let '(s, r) := ssl_read (S (length (TlsNonblockingSocket.unread (socket s)))) bufSize s in
  (s, match r with
      | Some (Data data) => Ok (Some data)
      | Some WantRead => Ok None
      | Some Negative => Throw (Thrown "mbedTLSRuntimeError")
      | None => Throw Waiting
      end).

(** [TlsRecvOrAsyncRecv]: an exception of [RecvData] leaves it before anything is
    called or asked for, and its last branch, for other errors, is never taken. *)
Definition TlsRecvOrAsyncRecv (bufSize : Z) (s : t) : t * result Fault () :=
  let '(s, r) := RecvData bufSize s in
  match r with
  | Throw e => (s, Throw e)
  | Ok (Some data) => (mk (tls s) (socket s) (pending s) (calls s ++ [(data, false)]) (fed s), Ok tt)
  | Ok None => (mk (tls s) (socket s) (Some (TlsNonblockingSocket.m_recvAsyncRequested (socket s), bufSize)) (calls s) (fed s), Ok tt)
  end.

Definition AsyncRecvRaw (bufSize : Z) (s : t) : t * result Fault () :=
  TlsRecvOrAsyncRecv bufSize (mk (tls s) (TlsNonblockingSocket.SetAsyncMode true (socket s)) (pending s) (calls s) (fed s)).

(** The request below is completed; an error, or that the session is gone, is told to
    the application. *)
Definition complete (buf : bytes) (hasErrorOccurred : bool) (s : t) : t * result Fault () :=
  match pending s with
  | None => (s, Ok tt)
  | Some (_, bufSize) =>
    if hasErrorOccurred then (mk (tls s) (socket s) None (calls s ++ [([], true)]) (fed s), Ok tt)
    else TlsRecvOrAsyncRecv bufSize (mk (tls s) (TlsNonblockingSocket.ResetRecvBuf buf (socket s)) None (calls s) (fed s))
  end.
End tls.
End TlsAsync.

(** ** A frame that arrives in pieces *)

(** A piece that the host may complete a request for [n] bytes with. *)
Definition fits_request (n : Z) (b : bytes) : bool := (zlen b <=? n) && ((n =? 0) || (0 <? zlen b)).

Lemma frame_split data got rest : frame data = got ++ rest -> 8 <= zlen got -> take 8 got = le64 (zlen data) /\ data = drop 8 got ++ rest.
Proof.
  unfold frame. intros E Hl. rewrite <- (take_drop 8 got), <- app_assoc in E.
  apply app_inj_1 in E as [E1 E2]; [done|]. rewrite length_le64, length_take. lia.
Qed.

Lemma frame_length data : zlen (frame data) = 8 + zlen data.
Proof. unfold frame. rewrite length_app, length_le64. lia. Qed.

Section host_socket.
Import HostSocket.

(** The host completes requests with pieces that fit them. *)
Fixpoint feed (cs : list bytes) (s : t) : option t :=
  match cs with
  | [] => Some s
  | b :: cs =>
    match pending s with
    | Some (n, _) => if fits_request n b then feed cs (complete b false s) else None
    | None => None
    end
  end.

(** The state after part of a frame. *)
Definition reading (data got : bytes) : t :=
  if zlen got <? 8 then mk (Some (8 - zlen got, UntilComplete 8 got (SizedSize (SizedData User)))) []
  else mk (Some (8 + zlen data - zlen got, UntilComplete (zlen data) (drop 8 got) (SizedData User))) [].

Lemma reading_complete data got b rest : zlen data < 2 ^ 64 -> frame data = got ++ b ++ rest ->
  (forall n cb, pending (reading data got) = Some (n, cb) -> fits_request n b = true) ->
  complete b false (reading data got) = reading data (got ++ b) /\ (zlen (got ++ b) < zlen (frame data) \/ data = []) \/
  complete b false (reading data got) = mk None [(data, false)] /\ rest = [].
Proof.
  intros Hd Hf Hb. pose proof (frame_length data) as Hfl. rewrite Hfl. rewrite Hf, !length_app in Hfl. unfold reading in *. rewrite length_app in *.
  destruct (zlen got <? 8) eqn:Eg; specialize (Hb _ _ eq_refl); unfold fits_request in Hb; unfold complete; cbn [pending AsyncStream.invoke calls].
  - left. split; [|destruct data; [by right|left; cbn in *; lia]]. rewrite length_app. destruct (Z.of_nat (length got + length b) <? 8) eqn:Eb.
    + cbn. do 3 f_equal; lia.
    + destruct (frame_split data (got ++ b) rest) as [E1 _]; [by rewrite <- app_assoc|rewrite length_app; lia|].
      assert (length (got ++ b) = 8%nat) as El by (rewrite length_app; lia). cbn [AsyncStream.invoke].
      rewrite E1, le64_val by (unfold fits; lia). unfold AsyncStream.AsyncRecvRawUntilComplete. cbn.
      rewrite drop_ge by lia. do 3 f_equal; rewrite length_app in El; lia.
  - replace (Z.of_nat (length got + length b) <? 8) with false by lia. rewrite <- (drop_app_le got b 8) by lia.
    destruct (zlen (drop 8 (got ++ b)) <? zlen data) eqn:Eb; rewrite length_drop, length_app in Eb.
    + left. split; [|left; lia]. cbn. do 3 f_equal; rewrite length_drop, length_app; lia.
    + right. assert (rest = []) as -> by (destruct rest; [done|cbn in *; lia]). split; [|done].
      destruct (frame_split data (got ++ b) []) as [_ E2]; [by rewrite app_nil_r in *|rewrite length_app; lia|].
      rewrite app_nil_r in E2. cbn. by rewrite <- E2.
Qed.

Lemma feed_reading cs data got s' rest : zlen data < 2 ^ 64 -> frame data = got ++ concat cs ++ rest -> feed cs (reading data got) = Some s' ->
  zlen got < zlen (frame data) \/ data = [] ->
  s' = reading data (got ++ concat cs) /\ (zlen (got ++ concat cs) < zlen (frame data) \/ data = []) \/ s' = mk None [(data, false)] /\ rest = [].
Proof.
  intros Hd. revert got. induction cs as [|b cs IH]; intros got; cbn [feed concat].
  - rewrite app_nil_r. intros _ [= <-]. by left.
  - rewrite <- app_assoc. intros Hf. destruct (pending (reading data got)) as [[n cb]|] eqn:Ep; [|done]. destruct (fits_request n b) eqn:Eb; [|done].
    destruct (reading_complete data got b (concat cs ++ rest) Hd Hf) as [[-> Hl] | [-> Er]]; [intros ? ? E; congruence| |].
    + intros Hs _. rewrite (app_assoc got). apply (IH (got ++ b)); [by rewrite <- app_assoc|done|done].
    + intros Hs _. destruct cs; [|done]. injection Hs as <-. right. by destruct rest.
Qed.

(** A message that is received asynchronously arrives once and whole, however
    the host cuts its frame into pieces, as long as a piece is no longer than the
    request it answers: after a part of the frame the application has been called
    for nothing, and a request for no more than the rest is under way, whose failure
    calls the application once, with the error; after the whole frame it has been
    called once, with exactly the message, and nothing is under way. *)
Theorem async_message_exact data cs s' : zlen data < 2 ^ 64 -> concat cs `prefix_of` frame data ->
  feed cs (AsyncStream.AsyncSizedRecvBytes init) = Some s' ->
  (s' = mk None [(data, false)] /\ concat cs = frame data) \/
  (calls s' = [] /\ complete [] true s' = mk None [([], true)] /\
   exists n cb, pending s' = Some (n, cb) /\ 0 <= n <= zlen (frame data) - zlen (concat cs) /\ (n = 0 -> concat cs = frame data /\ data = [])).
Proof.
  intros Hd [rest Hr] Hf. pose proof (frame_length data) as Hfl.
  destruct (feed_reading cs data [] s' rest Hd Hr Hf) as [[-> Hl]|[-> ->]]; [left; cbn; lia| |left; by rewrite app_nil_r in Hr].
  right. cbn [app] in *. rewrite Hfl in *. assert (zlen (concat cs) <= 8 + zlen data) by (rewrite <- Hfl, Hr, length_app; lia).
  unfold reading. destruct (zlen (concat cs) <? 8) eqn:E; (split; [done|]; split; [done|]); eexists _, _; (split; [done|]); (split; [lia|]); [lia|].
  intros En. assert (data = []) as -> by (destruct Hl; [lia|done]). split; [|done].
  assert (rest = []) as -> by (apply length_zero_iff_nil; apply (f_equal length) in Hr; rewrite length_app in Hr; cbn in *; lia).
  by rewrite app_nil_r in Hr.
Qed.
End host_socket.

(** ** The encrypted socket without and with waiting *)

Section aes_async.
Context `{Alloc : Allocator} `{Gcm : GcmSdk} `{Kdf : KeyDerivation}.
Import AesGcmAsync.

Fixpoint aes_feed (fuel : nat) (cs : list bytes) (s : t) : option (t * result Fault ()) :=
  match cs with
  | [] => Some (s, Ok tt)
  | b :: cs =>
    match pending s with
    | Some (n, _, _, _) =>
      if fits_request n b then
        let '(s, r) := complete fuel b false s in
        match r, cs with
        | Throw e, [] => Some (s, Throw e)
        | Throw e, _ => None
        | Ok _, _ => aes_feed fuel cs s
        end
      else None
    | None => None
    end
  end.

Definition handler_at (pack got : bytes) : AsyncRecvHandler :=
  if zlen got <? 8 then InSize got else InPack (zlen pack) (drop 8 got).
Definition aes_reading (k : AesGcmStreamSocket.t unit) (calls : list (bytes * bool)) (size : Z) (cb : Callback) (pack got : bytes) : t :=
  mk k (Some (request (handler_at pack got), handler_at pack got, size, cb)) calls.

Lemma aes_reading_complete fuel k calls size cb pack got b rest : zlen pack < 2 ^ 64 -> reserve (zlen pack) = true ->
  frame pack = got ++ b ++ rest -> fits_request (request (handler_at pack got)) b = true ->
  complete fuel b false (aes_reading k calls size cb pack got) = (aes_reading k calls size cb pack (got ++ b), Ok tt) /\ (zlen (got ++ b) < zlen (frame pack) \/ pack = []) \/
  complete fuel b false (aes_reading k calls size cb pack got) = on_package fuel size cb pack (mk k None calls) /\ rest = [].
Proof.
  intros Hp Hr Hf Hb. pose proof (frame_length pack) as Hfl. rewrite Hfl. rewrite Hf, !length_app in Hfl. unfold complete, aes_reading.
  cbn [pending sock AesGcmAsync.calls]. unfold handler_at, fits_request in *. rewrite length_app. destruct (zlen got <? 8) eqn:Eg; cbn [request handle] in *.
  - left. split; [|destruct pack; [by right|left; cbn in *; lia]]. rewrite !length_app. replace (8 <? Z.of_nat (length got + length b)) with false by lia.
    destruct (Z.of_nat (length got + length b) <? 8) eqn:Eb; [done|].
    destruct (frame_split pack (got ++ b) rest) as [E1 _]; [by rewrite <- app_assoc|rewrite length_app; lia|].
    assert (length (got ++ b) = 8%nat) as El by (rewrite length_app; lia). rewrite take_ge in E1 by lia.
    replace (be_val (rev (got ++ b))) with (zlen pack) by (by rewrite E1, le64_val by (unfold fits; lia)).
    unfold room_for. rewrite Hr, (drop_ge (got ++ b)) by lia. done.
  - replace (Z.of_nat (length got + length b) <? 8) with false by lia. rewrite <- (drop_app_le got b 8) by lia. rewrite length_drop in Hb.
    rewrite !length_drop, length_app. replace (zlen pack <? Z.of_nat (length got + length b - 8)) with false by lia.
    destruct (Z.of_nat (length got + length b - 8) <? zlen pack) eqn:Eb; [left; split; [done|left; lia]|]. right.
    assert (rest = []) as -> by (destruct rest; [done|cbn in *; lia]). split; [|done].
    destruct (frame_split pack (got ++ b) []) as [_ E2]; [by rewrite app_nil_r in *|rewrite length_app; lia|].
    rewrite app_nil_r in E2. by rewrite <- E2.
Qed.

Lemma aes_feed_reading fuel cs k calls size cb pack got x rest : zlen pack < 2 ^ 64 -> reserve (zlen pack) = true ->
  frame pack = got ++ concat cs ++ rest -> aes_feed fuel cs (aes_reading k calls size cb pack got) = Some x ->
  zlen got < zlen (frame pack) \/ pack = [] ->
  x = (aes_reading k calls size cb pack (got ++ concat cs), Ok tt) /\ (zlen (got ++ concat cs) < zlen (frame pack) \/ pack = []) \/
  rest = [] /\ exists cs', let '(s, r) := on_package fuel size cb pack (mk k None calls) in
    match r with Ok _ => aes_feed fuel cs' s = Some x /\ concat cs' = [] | Throw e => x = (s, Throw e) end.
Proof.
  intros Hp Hr. revert got. induction cs as [|b cs IH]; intros got; cbn [aes_feed concat].
  - rewrite app_nil_r. intros _ [= <-]. by left.
  - rewrite <- app_assoc. intros Hf. cbn [pending aes_reading]. destruct (fits_request (request (handler_at pack got)) b) eqn:Eb; [|done].
    destruct (aes_reading_complete fuel k calls size cb pack got b (concat cs ++ rest) Hp Hr Hf Eb) as [[-> Hl] | [-> Er]].
    + intros Hs _. rewrite (app_assoc got). apply (IH (got ++ b)); [by rewrite <- app_assoc|done|done].
    + intros Hs _. right. apply app_eq_nil in Er as [Ec ->]. split; [done|]. exists cs.
      destruct (on_package fuel size cb pack (mk k None calls)) as [s [u|e]]; [done|]. destruct cs; [|done]. by injection Hs as <-.
Qed.

(** The socket without the one below it. *)
Definition plain {W} (s : AesGcmStreamSocket.t W) : AesGcmStreamSocket.t unit := AesGcmStreamSocket.mk
  (AesGcmStreamSocket.m_rand s) (AesGcmStreamSocket.m_self s) (AesGcmStreamSocket.m_peer s) tt (AesGcmStreamSocket.m_recvBuf s).

Lemma DecryptMsg_plain {W} pack (s : AesGcmStreamSocket.t W) :
  AesGcmStreamSocket.DecryptMsg pack (plain s) = (plain (AesGcmStreamSocket.DecryptMsg pack s).1, (AesGcmStreamSocket.DecryptMsg pack s).2).
Proof.
  unfold AesGcmStreamSocket.DecryptMsg, plain, mbind, stx_bind, get, pure, modify. cbn.
  by destruct (AesGcmPackager.Unpack _ _ _ _) as [[res d]|e].
Qed.

Lemma DecryptMsg_recvBuf {W} pack (s : AesGcmStreamSocket.t W) :
  AesGcmStreamSocket.m_recvBuf (AesGcmStreamSocket.DecryptMsg pack s).1 = AesGcmStreamSocket.m_recvBuf s.
Proof.
  unfold AesGcmStreamSocket.DecryptMsg, mbind, stx_bind, get, pure, modify. cbn. by destruct (AesGcmPackager.Unpack _ _ _ _) as [[res d]|e].
Qed.

Context `{Pat : Patience} `{Sock : StreamSocket W}.

(** What the blocking call does with a package that is there. *)
Lemma RecvRaw_package size (s : AesGcmStreamSocket.t W) x' pack :
  AesGcmStreamSocket.m_recvBuf s = [] -> StreamSocketBase.SizedRecvBytes (AesGcmStreamSocket.m_socket s) = (x', Ok pack) ->
  let '(k, r) := AesGcmStreamSocket.DecryptMsg pack (AesGcmStreamSocket.set_socket x' s) in
  AesGcmStreamSocket.RecvRaw size s = match r with
    | Throw e => (k, Throw e)
    | Ok msg => AesGcmStreamSocket.TakeBuffer size (AesGcmStreamSocket.set_recvBuf msg k)
    end.
Proof.
  intros Hb Hs. unfold AesGcmStreamSocket.RecvRaw, AesGcmStreamSocket.on_socket. unfold mbind, stx_bind, get, modify. rewrite Hb. change (zlen [] =? 0) with true. cbv beta iota zeta.
  rewrite Hs. destruct (AesGcmStreamSocket.DecryptMsg pack (AesGcmStreamSocket.set_socket x' s)) as [k [msg|e]]; done.
Qed.

(** C35. With nothing in its buffer, the encrypted socket receives the same without
    waiting as with: if the blocking call would read a certain package from the socket
    below, and the host delivers the frame of the package in any pieces that fit the
    requests, then the asynchronous call hands the application what the blocking call
    returns, throws what it throws and leaves the same keys, counters and buffer;
    before the frame is complete it has changed nothing, called nobody and asks for no
    more than the rest.  (What differs when a message is left in the buffer is
    [buffered_as_blocking].) *)
Theorem async_recv_as_blocking fuel cs size (s : AesGcmStreamSocket.t W) x' pack calls y :
  AesGcmStreamSocket.m_recvBuf s = [] -> StreamSocketBase.SizedRecvBytes (AesGcmStreamSocket.m_socket s) = (x', Ok pack) ->
  0 <= size -> zlen pack < 2 ^ 64 -> reserve (zlen pack) = true -> concat cs `prefix_of` frame pack ->
  aes_feed fuel cs (AesGcmAsync.AsyncRecvRaw 1 size User (mk (plain s) None calls)) = Some y ->
  (concat cs = frame pack /\ let '(s', r) := AesGcmStreamSocket.RecvRaw size s in
   y = match r with Ok d => (mk (plain s') None (calls ++ [(d, false)]), Ok tt) | Throw e => (mk (plain s') None calls, Throw e) end) \/
  (sock y.1 = plain s /\ AesGcmAsync.calls y.1 = calls /\ y.2 = Ok tt /\ exists n h, pending y.1 = Some (n, h, size, User) /\ 0 <= n <= zlen (frame pack) - zlen (concat cs) /\ (n = 0 -> pack = [])).
Proof.
  intros Hb Hs Hsize Hp Hr [rest Hf] Hy.
  assert (AesGcmAsync.AsyncRecvRaw 1 size User (mk (plain s) None calls) = aes_reading (plain s) calls size User pack []) as Er.
  { cbn. by rewrite Hb. }
  rewrite Er in Hy. pose proof (frame_length pack) as Hfl.
  destruct (aes_feed_reading fuel cs (plain s) calls size User pack [] y rest Hp Hr Hf Hy) as [[-> Hl]|(-> & cs' & Hx)]; [left; cbn; lia|right|left].
  - cbn [app] in *. rewrite Hfl in *. assert (zlen (concat cs) <= 8 + zlen pack) by (rewrite <- Hfl, Hf, length_app; lia).
    split; [done|]. split; [done|]. split; [done|]. eexists _, _. split; [done|]. unfold handler_at.
    destruct (zlen (concat cs) <? 8) eqn:E; cbn [request]; rewrite ?length_drop; split; lia || (intros En; destruct Hl; [lia|done]).
  - rewrite app_nil_r in Hf. split; [done|]. pose proof (RecvRaw_package size s x' pack Hb Hs) as Hblock.
    unfold on_package in Hx. cbn [sock] in Hx. change (plain s) with (plain (AesGcmStreamSocket.set_socket x' s)) in Hx. rewrite DecryptMsg_plain in Hx.
    pose proof (DecryptMsg_recvBuf pack (AesGcmStreamSocket.set_socket x' s)) as Hbuf. cbn [AesGcmStreamSocket.set_socket AesGcmStreamSocket.m_recvBuf] in Hbuf. rewrite Hb in Hbuf.
    destruct (AesGcmStreamSocket.DecryptMsg pack (AesGcmStreamSocket.set_socket x' s)) as [k [msg|e]]; rewrite Hblock; cbn [fst snd] in *; [|by subst].
    unfold AesGcmStreamSocket.TakeBuffer, mbind, stx_bind, get, modify. cbn [AesGcmStreamSocket.m_recvBuf AesGcmStreamSocket.set_recvBuf].
    destruct Hx as [Hx Hc]. cbn in Hx. destruct cs'; [|done]. injection Hx as <-.
    destruct (zlen msg <=? size) eqn:El.
    + replace (size <? zlen msg) with false by lia. cbn. unfold set_sock, user_called, plain. cbn. rewrite Hbuf. rewrite !take_ge by lia. done.
    + replace (size <? zlen msg) with true by lia. done.
Qed.
(** With bytes in the buffer, the asynchronous call hands all of them on at once, and
    the blocking call no more than was asked for: they do the same exactly if the
    whole buffer was asked for. *)
Lemma buffered_as_blocking size (s : AesGcmStreamSocket.t W) calls : AesGcmStreamSocket.m_recvBuf s <> [] ->
  AesGcmAsync.AsyncRecvRaw 1 size User (mk (plain s) None calls) =
    mk (plain (AesGcmStreamSocket.set_recvBuf [] s)) None (calls ++ [(AesGcmStreamSocket.m_recvBuf s, false)]) /\
  (AesGcmStreamSocket.RecvRaw size s = (AesGcmStreamSocket.set_recvBuf [] s, Ok (AesGcmStreamSocket.m_recvBuf s)) <->
   zlen (AesGcmStreamSocket.m_recvBuf s) <= size).
Proof.
  intros Hne. assert (0 < length (AesGcmStreamSocket.m_recvBuf s))%nat as Hpos by (destruct (AesGcmStreamSocket.m_recvBuf s); [done|cbn; lia]). split.
  - cbn. destruct (AesGcmStreamSocket.m_recvBuf s) as [|c buf] eqn:E; [done|]. done.
  - unfold AesGcmStreamSocket.RecvRaw, AesGcmStreamSocket.TakeBuffer, mbind, stx_bind, mret, stx_ret, get, modify.
    replace (zlen (AesGcmStreamSocket.m_recvBuf s) =? 0) with false by lia.
    destruct (zlen (AesGcmStreamSocket.m_recvBuf s) <=? size) eqn:El; cbn.
    + rewrite take_ge by lia. split; [lia|done].
    + split; [|lia]. intros [= Hd _]. apply (f_equal length) in Hd. rewrite length_drop in Hd. cbn in Hd. lia.
Qed.
End aes_async.

(** ** What the encrypted socket does with its buffer and with errors *)

(** A piece that is longer than the request is copied past the end of the size or of
    the buffer. *)
Lemma handle_overflow `{Alloc : Allocator} h data : AesGcmAsync.request h < zlen data -> AesGcmAsync.handle h data = Throw (Undefined "memcpy").
Proof.
  destruct h as [b|size b]; cbn [AesGcmAsync.request AesGcmAsync.handle]; rewrite length_app; intros Hd.
  - by replace (8 <? Z.of_nat (length b + length data)) with true by lia.
  - by replace (size <? Z.of_nat (length b + length data)) with true by lia.
Qed.

(** An error of the request below ends the receiving, and the application is not told. *)
Lemma error_swallowed `{Alloc : Allocator, Gcm : GcmSdk, Kdf : KeyDerivation} fuel data s : AesGcmAsync.pending s <> None ->
  AesGcmAsync.complete fuel data true s = (AesGcmAsync.mk (AesGcmAsync.sock s) None (AesGcmAsync.calls s), Ok tt).
Proof. intros Hp. unfold AesGcmAsync.complete. by destruct (AesGcmAsync.pending s) as [[[[n h] size] cb]|]. Qed.

Definition buffered (buf : bytes) : AesGcmAsync.t :=
  AesGcmAsync.mk (AesGcmStreamSocket.set_recvBuf buf (AesGcmStreamSocket.create [] [] tt [])) None [].

(** Three bytes are in the buffer and five are asked for: the three come twice. *)
Lemma buffer_passed_twice :
  AesGcmAsync.calls (AsyncStream.AsyncRecvRawUntilComplete (Sock := AesGcmAsync.aes_async 10) 5 User (buffered [1; 2; 3])) = [([1; 2; 3; 1; 2; 3], false)].
Proof. reflexivity. Qed.

(** The frame of a message is in the buffer: the message that arrives is the frame. *)
Lemma frame_passed_as_message :
  AesGcmAsync.calls (AsyncStream.AsyncSizedRecvBytes (Sock := AesGcmAsync.aes_async 10) (buffered (frame [7; 8]))) = [(frame [7; 8], false)].
Proof. reflexivity. Qed.

(** ** The table of callbacks *)

Section table.
Context {F : Type}.
Import UntrustedAsyncEventHandler.
Implicit Types (m : gmap Z F) (h : @UntrustedAsyncEventHandler.t F).

Lemma next_free_free fuel c m id : next_free fuel c m = Some id -> m !! id = None.
Proof. revert c. induction fuel as [|fuel IH]; intros c; [done|]. cbn. destruct (m !! c) eqn:E; [apply IH|]. by intros [= <-]. Qed.

Lemma next_free_range fuel c m id : 0 <= c < 2 ^ 64 -> next_free fuel c m = Some id -> 0 <= id < 2 ^ 64.
Proof.
  revert c. induction fuel as [|fuel IH]; intros c Hc; [done|]. cbn. destruct (m !! c); [|by intros [= <-]].
  apply IH. unfold wrap. apply Z.mod_pos_bound. lia.
Qed.

(** The identifiers that the loop has tried. *)
Lemma next_free_tried fuel c m : 0 <= c < 2 ^ 64 -> next_free fuel c m = None -> forall i, (i < fuel)%nat -> is_Some (m !! ((c + Z.of_nat i) `mod` 2 ^ 64)).
Proof.
  revert c. induction fuel as [|fuel IH]; intros c Hc; cbn; [lia|]. destruct (m !! c) as [x|] eqn:E; [|done]. intros Hn [|i] Hi.
  - rewrite Z.add_0_r, Z.mod_small by lia. by exists x.
  - specialize (IH (u64 (c + 1))). unfold wrap in IH. pose proof (Z.mod_pos_bound (c + 1) (2 ^ 64) ltac:(lia)).
    specialize (IH ltac:(lia) Hn i ltac:(lia)). rewrite Zplus_mod_idemp_l in IH. by replace (c + Z.of_nat (S i)) with (c + 1 + Z.of_nat i) by lia.
Qed.

(** The loop ends: fewer identifiers than there are have been given out. *)
Lemma next_free_ends c m : 0 <= c < 2 ^ 64 -> Z.of_nat (size m) < 2 ^ 64 - 1 -> is_Some (next_free (S (size m)) c m).
Proof.
  intros Hc Hs. destruct (next_free (S (size m)) c m) as [id|] eqn:E; [by exists id|]. exfalso.
  pose proof (next_free_tried _ _ _ Hc E) as Ht. set (l := map (fun i => (c + Z.of_nat i) `mod` 2 ^ 64) (seq 0 (S (size m)))).
  assert (NoDup l) as Hl.
  { apply NoDup_alt. intros i j x Hi Hj. unfold l in *. rewrite list_lookup_fmap_Some in Hi, Hj.
    destruct Hi as (i' & -> & [-> Hi]%lookup_seq), Hj as (j' & Ej & [-> Hj]%lookup_seq). cbn in Ej.
    apply (f_equal (fun v => (v - c) `mod` 2 ^ 64)) in Ej. rewrite !Zminus_mod_idemp_l in Ej.
    replace (c + Z.of_nat (0 + i) - c) with (Z.of_nat i) in Ej by lia. replace (c + Z.of_nat j - c) with (Z.of_nat j) in Ej by lia.
    rewrite !Z.mod_small in Ej by lia. lia. }
  assert (list_to_set l ⊆ (dom m : gset Z)) as Hsub.
  { intros x. rewrite elem_of_list_to_set, elem_of_dom. intros (i & -> & Hi)%list_elem_of_fmap. apply elem_of_seq in Hi. apply Ht. lia. }
  apply subseteq_size in Hsub. rewrite size_list_to_set, size_dom in Hsub by done. unfold l in Hsub. rewrite length_map, length_seq in Hsub. lia.
Qed.

(** Registering a callback gives it an identifier of its own. *)
Lemma RegisterCallback_ok f h : 0 <= m_counter h < 2 ^ 64 -> Z.of_nat (size (m_callbackMap h)) < 2 ^ 64 - 1 -> exists id,
  RegisterCallback f h = Some (mk (u64 (id + 1)) (<[id := f]> (m_callbackMap h)), Ok id) /\ m_callbackMap h !! id = None /\ 0 <= id < 2 ^ 64.
Proof.
  intros Hc Hs. destruct (next_free_ends _ _ Hc Hs) as [id Hid]. exists id. split; [|split; [by eapply next_free_free|by eapply next_free_range]].
  unfold RegisterCallback. replace (2 ^ 64 - 1 <=? Z.of_nat (size (m_callbackMap h))) with false by lia. by rewrite Hid.
Qed.

(** Callbacks are registered, and the host asks for identifiers; every request is
    answered with a callback or an exception. *)
Inductive table_op := Register (f : F) | Dispatch (id : Z).

Fixpoint table_run (ops : list table_op) (h : t) : option (t * list F * list F) :=
  match ops with
  | [] => Some (h, [], [])
  | Register f :: ops =>
    '(h, r) ← RegisterCallback f h;
    '(h, reg, called) ← table_run ops h;
    Some (h, match r with Ok _ => f :: reg | Throw _ => reg end, called)
  | Dispatch id :: ops =>
    let '(h, r) := DispatchCallback id true h in
    '(h, reg, called) ← table_run ops h;
    Some (h, reg, match r with Ok f => f :: called | Throw _ => called end)
  end.

(** Whatever identifiers the host makes up, a callback is called at most as often as
    it was registered, and the others are still there. *)
Lemma callbacks_called_once ops h h' reg called : table_run ops h = Some (h', reg, called) ->
  called ++ map snd (map_to_list (m_callbackMap h')) ≡ₚ reg ++ map snd (map_to_list (m_callbackMap h)).
Proof.
  revert h reg called. induction ops as [|[f|id] ops IH]; intros h reg called; cbn [table_run].
  - by intros [= <- <- <-].
  - destruct (RegisterCallback f h) as [[h1 r]|] eqn:Er; [|done]. cbn. destruct (table_run ops h1) as [[[h2 reg2] called2]|] eqn:Et; [|done].
    cbn. intros [= <- <- <-]. rewrite (IH _ _ _ Et). unfold RegisterCallback in Er. destruct (_ <=? _); [injection Er as <- <-; done|].
    destruct (next_free _ _ _) as [id|] eqn:En; [|done]. injection Er as <- <-. cbn. rewrite map_to_list_insert by (by eapply next_free_free).
    cbn. by rewrite Permutation_middle.
  - unfold DispatchCallback. destruct (m_callbackMap h !! id) as [f|] eqn:Ei.
    + destruct (table_run ops _) as [[[h2 reg2] called2]|] eqn:Et; [|done]. cbn. intros [= <- <- <-]. cbn. rewrite (IH _ _ _ Et). cbn.
      rewrite Permutation_middle. f_equiv. by rewrite <- (map_to_list_delete _ id f Ei).
    + destruct (table_run ops h) as [[[h2 reg2] called2]|] eqn:Et; [|done]. cbn. intros [= <- <- <-]. by apply IH.
Qed.
End table.

(** ** Copies from the host *)

(** A host that returns no more than was asked for changes the caller's buffer only. *)
Lemma RecvRaw_fits buffer ub : zlen ub <= zlen buffer -> exists data, RecvRaw buffer ub = Ok (data, zlen ub) /\ zlen data = zlen buffer.
Proof.
  intros Hl. unfold RecvRaw, blit. replace ((0 <=? 0) && (0 + zlen ub <=? zlen buffer)) with true by lia. eexists. split; [reflexivity|].
  rewrite !length_app, length_take, length_drop. lia.
Qed.

(** One that returns more writes past its end: the size is the host's. *)
Lemma RecvRaw_overflow buffer ub : zlen buffer < zlen ub -> RecvRaw buffer ub = Throw (Undefined "write outside of a vector").
Proof. intros Hl. unfold RecvRaw, blit. by replace ((0 <=? 0) && (0 + zlen ub <=? zlen buffer)) with false by lia. Qed.

(** ** Bytes for the TLS library *)

Section tls_theory.
Context `{Tls : TlsLibrary T} {Laws : TlsLaws}.
Import TlsAsync.
#[local] Notation unread := TlsNonblockingSocket.unread.
#[local] Set Default Proof Using "Type*".

Definition buffer_ok (x : TlsNonblockingSocket.t) : Prop := TlsNonblockingSocket.m_asyncMode x = true /\
  (TlsNonblockingSocket.m_recvBuf x = [] \/ (TlsNonblockingSocket.m_recvBufPos x < length (TlsNonblockingSocket.m_recvBuf x))%nat).

Lemma Recv_unread len x : buffer_ok x -> let '(x', r) := TlsNonblockingSocket.Recv len x in buffer_ok x' /\
  match r with
  | TlsNonblockingSocket.Bytes b => b ++ unread x' = unread x /\ (0 < len -> b <> [])
  | TlsNonblockingSocket.WantRead => unread x = [] /\ unread x' = [] /\ TlsNonblockingSocket.m_recvBuf x' = []
  | TlsNonblockingSocket.Blocks _ => False
  end.
Proof.
  intros [Hm Hb]. unfold TlsNonblockingSocket.Recv, TlsNonblockingSocket.unread. destruct x as [mode buf pos req]; cbn in *. subst. destruct buf as [|c buf].
  - cbn. split; [split; [done|by left]|]. by rewrite drop_nil.
  - destruct Hb as [|Hb]; [done|]. remember (c :: buf) as l eqn:El. clear El. set (n := Nat.min (Z.to_nat len) (length l - pos)).
    destruct (length l <=? pos + n)%nat eqn:E.
    + apply Nat.leb_le in E. cbn. split; [split; [done|by left]|]. split.
      * rewrite app_nil_r. rewrite take_ge; [done|]. rewrite length_drop. lia.
      * intros Hl Ht. apply (f_equal length) in Ht. rewrite length_take, length_drop in Ht. cbn in Ht. lia.
    + apply Nat.leb_gt in E. cbn. split; [split; [done|by right]|]. split.
      * by rewrite <- drop_drop, take_drop.
      * intros Hl Ht. apply (f_equal length) in Ht. rewrite length_take, length_drop in Ht. cbn in Ht. lia.
Qed.

(** The library reads on until it has an answer, or the buffer is empty. *)
Lemma ssl_read_fed fuel bufSize (s : @TlsAsync.t T) : buffer_ok (socket s) -> (length (unread (socket s)) < fuel)%nat ->
  let '(s', r) := ssl_read fuel bufSize s in
  buffer_ok (socket s') /\ fed s' ++ unread (socket s') = fed s ++ unread (socket s) /\ pending s' = pending s /\ calls s' = calls s /\
  match r with None => False | Some WantRead => TlsNonblockingSocket.m_recvBuf (socket s') = [] | _ => True end.
Proof.
  revert s. induction fuel as [|fuel IH]; intros s Hb Hf; [lia|]. cbn [ssl_read]. destruct (tls_read (tls s) bufSize) as [[len k]|[e r]] eqn:Et.
  2:{ split_and!; try done. by destruct r. }
  pose proof (Recv_unread len (socket s) Hb) as Hr. destruct (TlsNonblockingSocket.Recv len (socket s)) as [x [b|n|]]; destruct Hr as [Hx Hr]; [|done|].
  - destruct Hr as [Hu Hn]. assert (length (unread (socket s)) = length b + length (unread x))%nat as Hl by (by rewrite <- Hu, length_app).
    specialize (Hn ltac:(by eapply tls_read_some)).
    specialize (IH (mk (k b) x (pending s) (calls s) (fed s ++ b)) Hx). cbn [socket fed pending calls] in IH.
    destruct b; [done|]. cbn [length] in Hl. specialize (IH ltac:(lia)).
    destruct (ssl_read fuel bufSize _) as [s' r]. destruct IH as (I1 & I2 & I3). split; [done|]. split; [|done].
    by rewrite I2, <- app_assoc, Hu.
  - destruct Hr as (E1 & E2 & E3). cbn. split_and!; try done. by rewrite E1, E2.
Qed.

(** [RecvData] returns, or throws the error of the library. *)
Lemma RecvData_fed bufSize (s : @TlsAsync.t T) : buffer_ok (socket s) -> let '(s', r) := RecvData bufSize s in
  buffer_ok (socket s') /\ fed s' ++ unread (socket s') = fed s ++ unread (socket s) /\ pending s' = pending s /\ calls s' = calls s /\
  match r with
  | Throw e => e = Thrown "mbedTLSRuntimeError"
  | Ok None => TlsNonblockingSocket.m_recvBuf (socket s') = []
  | Ok (Some _) => True
  end.
Proof.
  intros Hb. unfold RecvData. pose proof (ssl_read_fed (S (length (unread (socket s)))) bufSize s Hb ltac:(lia)) as Hr.
  destruct (ssl_read _ bufSize s) as [s' r]. destruct Hr as (H1 & H2 & H3 & H4 & H5). split_and!; try done. by destruct r as [[]|].
Qed.




(** The receives that are not over: one at most. *)
Definition under_way (s : @TlsAsync.t T) : nat := match pending s with Some _ => 1 | None => 0 end.

Record tls_ok (s : @TlsAsync.t T) (bs : bytes) (n : nat) : Prop := {
  tls_fed : fed s ++ unread (socket s) = bs;
  tls_buffer : TlsNonblockingSocket.m_recvBuf (socket s) = [] \/ (TlsNonblockingSocket.m_recvBufPos (socket s) < length (TlsNonblockingSocket.m_recvBuf (socket s)))%nat;
  tls_mode : TlsNonblockingSocket.m_asyncMode (socket s) = true \/ pending s = None;
  tls_pending : pending s <> None -> TlsNonblockingSocket.m_recvBuf (socket s) = [];
  tls_calls : (length (calls s) + under_way s = n)%nat }.

(** A receive calls the application, has a request under way, or throws. *)
Lemma TlsRecvOrAsyncRecv_ok bufSize (s : @TlsAsync.t T) bs n : buffer_ok (socket s) -> pending s = None -> fed s ++ unread (socket s) = bs -> length (calls s) = n ->
  let '(s', r) := TlsRecvOrAsyncRecv bufSize s in
  (r = Ok tt /\ tls_ok s' bs (S n)) \/ (r = Throw (Thrown "mbedTLSRuntimeError") /\ calls s' = calls s /\ tls_ok s' bs n).
Proof.
  intros Hb Hp Hf Hn. unfold TlsRecvOrAsyncRecv. pose proof (RecvData_fed bufSize s Hb) as Hr.
  destruct (RecvData bufSize s) as [s' r]. destruct Hr as ([I1 I1'] & I2 & I3 & I4 & I5). rewrite Hp in I3.
  destruct r as [[data|]|e]; [left; split; [done|]..|right; split; [congruence|]; split; [done|]]; constructor; unfold under_way; cbn;
    rewrite ?I3, ?I4, ?length_app; cbn; auto; try congruence; try lia.
Qed.



(** When the library fails on the bytes of a completion, the exception goes to the
    socket below: the application, which waits for its callback, is not called, and
    nothing is under way that could call it. *)
Lemma tls_error_not_told buf (s s' : @TlsAsync.t T) n size e :
  TlsNonblockingSocket.m_asyncMode (socket s) = true -> pending s = Some (n, size) -> complete buf false s = (s', Throw e) ->
  e = Thrown "mbedTLSRuntimeError" /\ pending s' = None /\ calls s' = calls s.
Proof.
  intros Hm Hp. unfold complete. rewrite Hp. set (s1 := mk _ _ _ _ _).
  pose proof (TlsRecvOrAsyncRecv_ok size s1 _ _ ltac:(split; [done|]; destruct buf; [by left|right; cbn; lia]) eq_refl eq_refl eq_refl) as Hr.
  destruct (TlsRecvOrAsyncRecv size s1) as [s2 r]. intros [= <- ->]. destruct Hr as [[? _]|([= ->] & Hc & [_ _ _ _ Hu])]; [done|].
  split; [done|]. split; [|done]. rewrite Hc in Hu. unfold under_way in Hu. destruct (pending s2); [lia|done].
Qed.
End tls_theory.

(** ** Instances *)

Lemma async_message_exact_witness :
  let s' := HostSocket.mk None [([7; 8; 9], false)] in
  (s' = HostSocket.mk None [([7; 8; 9], false)] /\ concat [take 3 (frame [7; 8; 9]); drop 3 (take 8 (frame [7; 8; 9])); [7; 8]; [9]] = frame [7; 8; 9]) \/
  (HostSocket.calls s' = [] /\ HostSocket.complete [] true s' = HostSocket.mk None [([], true)] /\
   exists n cb, HostSocket.pending s' = Some (n, cb) /\ 0 <= n <= zlen (frame [7; 8; 9]) - 11 /\ (n = 0 -> frame [7; 8; 9] = frame [7; 8; 9] /\ [7; 8; 9] = [])).
Proof.
  apply (async_message_exact [7; 8; 9] [take 3 (frame [7; 8; 9]); drop 3 (take 8 (frame [7; 8; 9])); [7; 8]; [9]]).
  - reflexivity.
  - exists []. reflexivity.
  - vm_compute. reflexivity.
Defined.

Section sample.
#[local] Existing Instances backwards pack_allocator sample_kdf sample_patience.

(** A package of three bytes on a wire, of which the application wants two. *)
Definition sample_package : bytes :=
  match AesGcmPackager.Pack (AesGcmStreamSocket.AesGcm (direction key_a key_b 0)) [] [] [1; 2; 3]
    (AesGcmStreamSocket.AddData (direction key_a key_b 0)) (replicate 12 1) with Ok (pkg, _) => pkg | Throw _ => [] end.
Definition sample_socket : AesGcmStreamSocket.t Wire := AesGcmStreamSocket.create key_a key_b (mkWire 20 (frame sample_package) []) [].
Definition sample_pieces : list bytes := [take 3 (frame sample_package); take 5 (drop 3 (frame sample_package)); drop 8 (frame sample_package)].

Definition sample_received : AesGcmAsync.t * result Fault () :=
  default (AesGcmAsync.mk (plain sample_socket) None [], Ok tt)
    (aes_feed 1 sample_pieces (AesGcmAsync.AsyncRecvRaw 1 2 User (AesGcmAsync.mk (plain sample_socket) None []))).

Lemma async_recv_as_blocking_witness :
  AesGcmAsync.calls sample_received.1 = [([1; 2], false)] /\
  (concat sample_pieces = frame sample_package \/ AesGcmAsync.calls sample_received.1 = []).
Proof.
  split; [vm_compute; reflexivity|].
  destruct (async_recv_as_blocking 1 sample_pieces 2 sample_socket (StreamSocketBase.SizedRecvBytes (AesGcmStreamSocket.m_socket sample_socket)).1
    sample_package [] sample_received) as [[H _]|(_ & H & _)].
  - vm_compute. reflexivity.
  - vm_compute. reflexivity.
  - lia.
  - vm_compute. reflexivity.
  - vm_compute. reflexivity.
  - exists []. vm_compute. reflexivity.
  - vm_compute. reflexivity.
  - left. exact H.
  - right. exact H.
Defined.
End sample.

(** A library whose records are five bytes, of which it returns the last four; the
    first byte of a good record is below a hundred. *)
Definition record_reader : TlsLibrary bytes := {|
  tls_read e _ :=
    if (length e <? 5)%nat then inl (5 - zlen e, fun b => e ++ b)
    else if nth 0 e 0 <? 100 then inr (drop 5 e, Some (take 4 (drop 1 e))) else inr (drop 5 e, None) |}.

#[local] Instance record_reader_laws : TlsLaws (H := record_reader).
Proof.
  constructor. intros e bufSize len k. cbn [tls_read record_reader]. destruct (length e <? 5)%nat eqn:E.
  - intros He. injection He as <- _. lia.
  - destruct (nth 0 e 0 <? 100); discriminate.
Qed.

