(* ===== verification/Threads.v ===== *)
(** * Threads of the host

    The pool of threads that runs the tasks of the host
    ([libs/SimpleConcurrency/include/SimpleConcurrency/Threading/ThreadPool.hpp] and
    [TaskRunner.hpp]) and the task that ticks ([TickingTask.hpp]).  The threads of the
    pool and the calls on it, on any number of other threads, are a step relation: a
    step is what a thread does between two points at which it waits for a mutex or a
    condition variable, or reads an atomic variable that others write.  A region under
    a mutex within which nothing waits is one step. *)

From stdpp Require Import list relations.
From S2P Require Import Prelude.

(** ** The pool *)

Module ThreadPool.
Section pool.
Context {Task : Type} (m_poolSize : nat).

(** *** Runners *)

(** Where [ThreadRunner] is: at the head of its loop; waiting for a task or the end;
    in [Run] of its task; with a task that has run, on its way to [PushTaskToFinishQueue];
    before and in the wait of [BlockingFetchPendingTask]; with what that returned; at
    the end. *)
Inductive runner_pc :=
| RLoop | RWait | RRun | RPush (task : Task) | RFetch | RAsleep | RStore (tmpTask : option Task) | RExit.

Record TaskRunner := mkRunner { pc : runner_pc; m_task : option Task; m_isTerminating : bool; m_isTerminated : bool }.

(** *** Calls on the pool

    [AddTask]: before the task is pushed; before the first notification; before the
    unlocked test; before the mutex is locked again; with the mutex, before
    [CreateNewThread] locks that of the threads; before the second notification.
    [Update]: before its test, and before it takes a task.  [Terminate]: at its start,
    before it locks the threads' mutex, at the runner [k], before it joins. *)
Inductive client :=
| Add_push (task : Task) | Add_notify | Add_check | Add_lock | Add_create | Add_renotify
| Upd_check | Upd_pop | Term_set | Term_lock | Term_kill (k : nat) | Term_join | Finished | Undefined.

(** The members; the two vectors of [m_threads] and [m_busyTaskRunners] change together. *)
Record t := mk {
  m_terminated : bool; m_threadsMutex : option nat; m_busyTaskRunners : list TaskRunner; m_threadsSize : nat;
  m_pendingTasksMutex : option nat; m_pendingTasksSize : nat; m_pendingTasks : list Task;
  m_finishTasksQueue : list Task; m_finishTasksQueueSize : nat }.

Definition empty : t := mk false None [] 0 None 0 [] [] 0.

Definition set_runners (rs : list TaskRunner) (p : t) : t :=
  mk (m_terminated p) (m_threadsMutex p) rs (m_threadsSize p)
    (m_pendingTasksMutex p) (m_pendingTasksSize p) (m_pendingTasks p) (m_finishTasksQueue p) (m_finishTasksQueueSize p).
Definition set_pending (mutex : option nat) (size : nat) (l : list Task) (p : t) : t :=
  mk (m_terminated p) (m_threadsMutex p) (m_busyTaskRunners p) (m_threadsSize p) mutex size l
    (m_finishTasksQueue p) (m_finishTasksQueueSize p).
Definition set_finish (l : list Task) (size : nat) (p : t) : t :=
  mk (m_terminated p) (m_threadsMutex p) (m_busyTaskRunners p) (m_threadsSize p)
    (m_pendingTasksMutex p) (m_pendingTasksSize p) (m_pendingTasks p) l size.

(** *** One step of a runner

    With the task whose [Run] it enters; [None] if it has to wait. *)
Definition runner_step (r : TaskRunner) (p : t) : option (TaskRunner * t * list Task) :=
  match pc r with
  | RLoop =>
    if m_isTerminating r then Some (mkRunner RExit (m_task r) true true, p, [])
    else Some (mkRunner RWait (m_task r) (m_isTerminating r) (m_isTerminated r), p, [])
  | RWait =>
    if m_isTerminating r then Some (mkRunner RLoop (m_task r) (m_isTerminating r) (m_isTerminated r), p, [])
    else match m_task r with
    | Some task => Some (mkRunner RRun (m_task r) (m_isTerminating r) (m_isTerminated r), p, [task])
    | None => None
    end
  | RRun =>
    match m_task r with
    | Some task => Some (mkRunner (RPush task) None (m_isTerminating r) (m_isTerminated r), p, [])
    | None => None
    end
  | RPush task =>
    Some (mkRunner RFetch (m_task r) (m_isTerminating r) (m_isTerminated r),
      set_finish (m_finishTasksQueue p ++ [task]) (S (m_finishTasksQueueSize p)) p, [])
  | RFetch =>
    match m_pendingTasksMutex p with
    | Some _ => None
    | None =>
      if m_terminated p then Some (mkRunner (RStore None) (m_task r) (m_isTerminating r) (m_isTerminated r), p, [])
      else match m_pendingTasks p with
      | [] => Some (mkRunner RAsleep (m_task r) (m_isTerminating r) (m_isTerminated r), p, [])
      | task :: l =>
        Some (mkRunner (RStore (Some task)) (m_task r) (m_isTerminating r) (m_isTerminated r),
          set_pending None (pred (m_pendingTasksSize p)) l p, [])
      end
    end
  | RStore tmpTask => Some (mkRunner RLoop tmpTask (m_isTerminating r) (m_isTerminated r), p, [])
  | RAsleep | RExit => None
  end.

(** *** One step of a call *)

(** Whom it notifies on [m_pendingTasksCV]. *)
Inductive Notify := Nobody | One | All.

(** What a call does to the bookkeeping of the model: a task that was pushed, one
    whose [Finishing] is called, and those that are destroyed with their runners. *)
Inductive effect := Pushed (task : Task) | Finishing (task : Task) | Dropped (l : list Task) | NoEffect.

Definition held_by (r : TaskRunner) : list Task := option_list (m_task r).

Definition client_step (i : nat) (c : client) (p : t) : option (client * t * Notify * effect) :=
  match c with
  | Add_push task =>
    match m_pendingTasksMutex p with
    | Some _ => None
    | None => Some (Add_notify, set_pending None (S (m_pendingTasksSize p)) (m_pendingTasks p ++ [task]) p, Nobody, Pushed task)
    end
  | Add_notify => Some (Add_check, p, One, NoEffect)
  | Add_check =>
    if ((0 <? m_pendingTasksSize p) && (m_threadsSize p <? m_poolSize))%nat then Some (Add_lock, p, Nobody, NoEffect)
    else Some (Finished, p, Nobody, NoEffect)
  | Add_lock =>
    match m_pendingTasksMutex p, m_pendingTasks p with
    | Some _, _ => None
    | None, [] => Some (Finished, p, Nobody, NoEffect)
    | None, _ => Some (Add_create, set_pending (Some i) (m_pendingTasksSize p) (m_pendingTasks p) p, Nobody, NoEffect)
    end
  | Add_create =>
    match m_threadsMutex p, m_pendingTasks p with
    | None, firstTask :: l =>
      if (m_poolSize <=? length (m_busyTaskRunners p))%nat then
        Some (Add_renotify, set_pending None (m_pendingTasksSize p) (m_pendingTasks p) p, Nobody, NoEffect)
      else
        Some (Finished,
          mk (m_terminated p) None (m_busyTaskRunners p ++ [mkRunner RLoop (Some firstTask) false false]) (S (m_threadsSize p))
            None (pred (m_pendingTasksSize p)) l (m_finishTasksQueue p) (m_finishTasksQueueSize p), Nobody, NoEffect)
    | _, _ => None
    end
  | Add_renotify => Some (Finished, p, One, NoEffect)
  | Upd_check => Some (if (0 <? m_finishTasksQueueSize p)%nat then Upd_pop else Finished, p, Nobody, NoEffect)
  | Upd_pop =>
    match m_finishTasksQueue p with
    | [] => Some (Undefined, p, Nobody, NoEffect)
    | task :: l => Some (Upd_check, set_finish l (pred (m_finishTasksQueueSize p)) p, Nobody, Finishing task)
    end
  | Term_set =>
    Some (Term_lock, mk true (m_threadsMutex p) (m_busyTaskRunners p) (m_threadsSize p)
      (m_pendingTasksMutex p) (m_pendingTasksSize p) (m_pendingTasks p) (m_finishTasksQueue p) (m_finishTasksQueueSize p), All, NoEffect)
  | Term_lock =>
    match m_threadsMutex p with
    | Some _ => None
    | None => Some (Term_kill 0, mk (m_terminated p) (Some i) (m_busyTaskRunners p) (m_threadsSize p)
      (m_pendingTasksMutex p) (m_pendingTasksSize p) (m_pendingTasks p) (m_finishTasksQueue p) (m_finishTasksQueueSize p), Nobody, NoEffect)
    end
  | Term_kill k =>
    match m_busyTaskRunners p !! k with
    | None => Some (Term_join, p, Nobody, NoEffect)
    | Some r =>
      if m_isTerminated r then Some (Term_kill (S k), p, Nobody, NoEffect)
      else Some (Term_kill k, set_runners (<[k := mkRunner (pc r) (m_task r) true false]> (m_busyTaskRunners p)) p, All, NoEffect)
    end
  | Term_join =>
    if forallb (fun r => match pc r with RExit => true | _ => false end) (m_busyTaskRunners p) then
      Some (Finished, mk (m_terminated p) None [] (m_threadsSize p)
        (m_pendingTasksMutex p) (m_pendingTasksSize p) (m_pendingTasks p) (m_finishTasksQueue p) (m_finishTasksQueueSize p),
        Nobody, Dropped (flat_map held_by (m_busyTaskRunners p)))
    else None
  | Finished | Undefined => None
  end.

Definition begins (c : client) : bool := match c with Add_push _ | Upd_check | Term_set => true | _ => false end.

(** *** The condition variable *)

Definition asleep (r : TaskRunner) : bool := match pc r with RAsleep => true | _ => false end.
Definition awaken (r : TaskRunner) : TaskRunner :=
  if asleep r then mkRunner RFetch (m_task r) (m_isTerminating r) (m_isTerminated r) else r.

(** The runners after a notification; [j] is the one that is woken, if one is. *)
Definition notify (n : Notify) (j : nat) (rs : list TaskRunner) : option (list TaskRunner) :=
  match n with
  | Nobody => Some rs
  | All => Some (map awaken rs)
  | One =>
    if existsb asleep rs then
      r ← rs !! j;
      if asleep r then Some (<[j := awaken r]> rs) else None
    else Some rs
  end.

(** *** The system *)

(** The pool and the calls, with what happened: the tasks that were pushed, those
    whose [Run] was called, those whose [Finishing] was called, and those that were
    destroyed. *)
Record Sys := mkSys {
  pool : t; clients : list client; added : list Task; ran : list Task; finished : list Task; dropped : list Task }.

Definition apply_effect (e : effect) (s : Sys) : Sys :=
  match e with
  | NoEffect => s
  | Pushed task => mkSys (pool s) (clients s) (added s ++ [task]) (ran s) (finished s) (dropped s)
  | Finishing task => mkSys (pool s) (clients s) (added s) (ran s) (finished s ++ [task]) (dropped s)
  | Dropped l => mkSys (pool s) (clients s) (added s) (ran s) (finished s) (dropped s ++ l)
  end.

(** A call begins; a runner runs on; a call runs on, and wakes the runner [j] if it
    notifies one; a runner wakes up by itself. *)
Inductive label := Spawn (c : client) | Run (i : nat) | Call (i j : nat) | Wake (i : nat).

Definition exec (l : label) (s : Sys) : option Sys :=
  match l with
  | Spawn c => if begins c then Some (mkSys (pool s) (clients s ++ [c]) (added s) (ran s) (finished s) (dropped s)) else None
  | Run i =>
    r ← m_busyTaskRunners (pool s) !! i;
    '(r', p, tasks) ← runner_step r (pool s);
    Some (mkSys (set_runners (<[i := r']> (m_busyTaskRunners p)) p) (clients s) (added s) (ran s ++ tasks) (finished s) (dropped s))
  | Call i j =>
    c ← clients s !! i;
    '(c', p, n, e) ← client_step i c (pool s);
    rs ← notify n j (m_busyTaskRunners p);
    Some (apply_effect e (mkSys (set_runners rs p) (<[i := c']> (clients s)) (added s) (ran s) (finished s) (dropped s)))
  | Wake i =>
    r ← m_busyTaskRunners (pool s) !! i;
    if asleep r then
      Some (mkSys (set_runners (<[i := awaken r]> (m_busyTaskRunners (pool s))) (pool s)) (clients s) (added s) (ran s) (finished s) (dropped s))
    else None
  end.

Definition init : Sys := mkSys empty [] [] [] [] [].
Definition step (s s' : Sys) : Prop := exists l, exec l s = Some s'.
Definition reachable : Sys -> Prop := rtc step init.

(** What runners and calls do that are under way. *)
Definition internal (s s' : Sys) : Prop := exists l, exec l s = Some s' /\ match l with Run _ | Call _ _ => True | _ => False end.

(** A pool that is not terminated, and is updated by one thread at a time. *)
Definition updates (c : client) : bool := match c with Upd_check | Upd_pop => true | _ => false end.
Definition running (s s' : Sys) : Prop := exists l, exec l s = Some s' /\
  match l with
  | Spawn Term_set => False
  | Spawn Upd_check => existsb updates (clients s) = false
  | _ => True
  end.
End pool.
End ThreadPool.

(** ** A task that ticks *)

Module TickingTask.

(** The members, of a signed or unsigned type whose arithmetic does not overflow. *)
Record t := mk { m_isTerminating : bool; m_enableTickInterval : bool; m_updInterval : Z; m_tickInterval : Z; m_sinceLastUpd : Z }.

Definition create0 : t := mk false false 0 0 0.
Definition create (updInterval tickInterval : Z) : t := mk false true updInterval tickInterval tickInterval.
Definition ResetSinceLastUpd (k : t) : t := mk (m_isTerminating k) (m_enableTickInterval k) (m_updInterval k) (m_tickInterval k) 0.
Definition UpdateSinceLastUpd (k : t) : t :=
  mk (m_isTerminating k) (m_enableTickInterval k) (m_updInterval k) (m_tickInterval k) (m_sinceLastUpd k + m_updInterval k).
Definition SetInterval (updInterval tickInterval : Z) (k : t) : t := mk (m_isTerminating k) true updInterval tickInterval tickInterval.
Definition DisableTickInterval (k : t) : t := mk (m_isTerminating k) false (m_updInterval k) (m_tickInterval k) (m_sinceLastUpd k).
Definition Terminate (k : t) : t := mk true (m_enableTickInterval k) (m_updInterval k) (m_tickInterval k) (m_sinceLastUpd k).

(** What a task is seen to do. *)
Inductive event := Ticked | Slept (time : Z).

(** One turn of the loop of [Run], with the task's own [Tick]; [S] is its state. *)
Definition turn {S} (Tick : S -> t -> S * t) (s : S) (k : t) : S * t * list event :=
  if m_enableTickInterval k then
    let '(s, k, tick) := if m_tickInterval k <=? m_sinceLastUpd k then
      let '(s, k) := Tick s k in (s, ResetSinceLastUpd k, [Ticked]) else (s, k, []) in
    (s, UpdateSinceLastUpd k, tick ++ [Slept (m_updInterval k)])
  else let '(s, k) := Tick s k in (s, k, [Ticked]).

Fixpoint turns {S} (Tick : S -> t -> S * t) (n : nat) (s : S) (k : t) : S * t * list event :=
  match n with
  | O => (s, k, [])
  | S n =>
    if m_isTerminating k then (s, k, [])
    else let '(s, k, e) := turn Tick s k in let '(s, k, e') := turns Tick n s k in (s, k, e ++ e')
  end.
End TickingTask.

(** [BlockUpdatorServiceTask::Tick]: the state is whether the next pushes of a block
    succeed. *)
Definition sk_taskUpdIntervalMliSec : Z := 200.
Definition BlockUpdatorServiceTask_Tick (m_retryIntervalMilSec : Z) (pushes : list bool) (k : TickingTask.t) : list bool * TickingTask.t :=
  (tail pushes,
   if hd false pushes then
     if TickingTask.m_enableTickInterval k then TickingTask.DisableTickInterval k else k
   else
     if TickingTask.m_enableTickInterval k then k else TickingTask.SetInterval sk_taskUpdIntervalMliSec m_retryIntervalMilSec k).

(** ** Every task is run once, by at most as many threads as the pool has *)

Section pool_theory.
#[local] Set Default Proof Using "Type*".
Context {Task : Type} `{EqDecision Task} (m_poolSize : nat).
Import ThreadPool.

Notation Pool := (@ThreadPool.t Task).
Notation Runner := (@TaskRunner Task).
Notation Sys := (@ThreadPool.Sys Task).

(** How often a task is in a list. *)
Definition num (x : Task) (l : list Task) : nat := length (filter (x =.) l).
#[local] Arguments num : simpl never.

Lemma num_app x l k : num x (l ++ k) = (num x l + num x k)%nat.
Proof. unfold num. by rewrite filter_app, length_app. Qed.
Lemma num_cons x y l : num x (y :: l) = (num x [y] + num x l)%nat.
Proof. apply (num_app x [y] l). Qed.
Lemma num_nil x : num x [] = 0%nat.
Proof. done. Qed.

Lemma num_Permutation l k : (forall x, num x l = num x k) <-> l ≡ₚ k.
Proof.
  split; [|intros E x; unfold num; by rewrite E]. revert k. induction l as [|y l IH]; intros k Hn.
  - destruct k as [|z k]; [done|]. specialize (Hn z). unfold num in Hn. rewrite filter_cons_True in Hn by done. done.
  - assert (y ∈ k) as Hin.
    { specialize (Hn y). unfold num in Hn. rewrite filter_cons_True in Hn by done.
      destruct (filter (y =.) k) as [|z m] eqn:E; [done|]. assert (z ∈ filter (y =.) k) as Hz by (rewrite E; by left).
      apply list_elem_of_filter in Hz as [<- Hz]. done. }
    apply list_elem_of_split in Hin as (k1 & k2 & ->). rewrite <- Permutation_middle. f_equiv. apply IH. intros x.
    specialize (Hn x). rewrite (num_cons x y l), num_app, (num_cons x y k2) in Hn. rewrite num_app. lia.
Qed.

Lemma num_insert {A} (f : A -> list Task) x l i a b : l !! i = Some a ->
  (num x (flat_map f (<[i := b]> l)) + num x (f a) = num x (flat_map f l) + num x (f b))%nat.
Proof.
  revert i. induction l as [|c l IH]; intros [|i]; [done..| |]; simpl; rewrite !num_app.
  - intros [= ->]. lia.
  - intros Hi%IH. lia.
Qed.

(** The tasks that a runner has, and has not run yet; the one it runs or has run. *)
Definition waiting (r : Runner) : list Task :=
  match pc r with RLoop | RWait | RExit => option_list (m_task r) | RStore tmpTask => option_list tmpTask | _ => [] end.
Definition at_work (r : Runner) : list Task :=
  match pc r with RRun => option_list (m_task r) | RPush task => [task] | _ => [] end.
Definition runner_ok (r : Runner) : Prop :=
  match pc r with RLoop | RWait | RExit => True | RRun => is_Some (m_task r) | _ => m_task r = None end.

Record pool_ok (p : Pool) (n : nat) : Prop := {
  ok_runners : Forall runner_ok (m_busyTaskRunners p);
  ok_bound : (length (m_busyTaskRunners p) <= n)%nat;
  ok_pending : m_pendingTasksSize p = length (m_pendingTasks p);
  ok_finish : m_finishTasksQueueSize p = length (m_finishTasksQueue p);
  ok_held : m_pendingTasksMutex p <> None -> m_pendingTasks p <> [] }.

Record inv (s : Sys) : Prop := {
  inv_pool : pool_ok (pool s) m_poolSize;
  inv_mutex : forall i, m_pendingTasksMutex (pool s) = Some i <-> clients s !! i = Some Add_create;
  inv_added : forall x, (num x (m_pendingTasks (pool s)) + num x (flat_map waiting (m_busyTaskRunners (pool s))) +
    num x (dropped s) + num x (ran s) = num x (added s))%nat;
  inv_ran : forall x, (num x (flat_map at_work (m_busyTaskRunners (pool s))) + num x (m_finishTasksQueue (pool s)) +
    num x (finished s) = num x (ran s))%nat }.

(** What one step of a runner moves. *)
Lemma runner_step_spec r p n r' p' tasks : runner_step r p = Some (r', p', tasks) -> runner_ok r -> pool_ok p n ->
  runner_ok r' /\ pool_ok p' n /\ m_busyTaskRunners p' = m_busyTaskRunners p /\ m_pendingTasksMutex p' = m_pendingTasksMutex p /\
  forall x, (num x (waiting r') + num x (m_pendingTasks p') + num x tasks = num x (waiting r) + num x (m_pendingTasks p) /\
    num x (at_work r') + num x (m_finishTasksQueue p') = num x (at_work r) + num x (m_finishTasksQueue p) + num x tasks)%nat.
Proof.
  intros Hs Hr Hok. pose proof Hok as [Ho Hb Hp Hf Hh]. unfold runner_step, runner_ok, waiting, at_work in *. destruct (pc r) eqn:Ep.
  - destruct (m_isTerminating r); injection Hs as <- <- <-; cbn; split_and!; try done; intros; rewrite ?num_nil; lia.
  - destruct (m_isTerminating r); [|destruct (m_task r) as [task|] eqn:Et; [|done]]; injection Hs as <- <- <-; cbn;
      split_and!; try done; intros; rewrite ?num_nil; lia.
  - destruct (m_task r) as [task|] eqn:Et; [|done]. injection Hs as <- <- <-. cbn. split_and!; try done; intros; rewrite ?num_nil; lia.
  - injection Hs as <- <- <-. cbn. rewrite Hr. split_and!; try done; [constructor; cbn; try done; rewrite length_app; cbn; lia|].
    intros x. rewrite num_app, num_nil. lia.
  - destruct (m_pendingTasksMutex p) eqn:Em; [done|]. destruct (m_terminated p); [|destruct (m_pendingTasks p) as [|task l] eqn:El];
      injection Hs as <- <- <-; cbn; split_and!; try done; try (intros; rewrite ?num_nil; lia).
    + intros x. rewrite El, num_nil. lia.
    + constructor; cbn; try done. rewrite Hp. done.
    + intros x. rewrite (num_cons x task l), num_nil. lia.
  - done.
  - injection Hs as <- <- <-. cbn. split_and!; try done; intros; rewrite ?num_nil; lia.
  - done.
Qed.

(** A notification changes nothing but whether runners sleep. *)
Lemma notify_spec n j (rs rs' : list Runner) : notify n j rs = Some rs' -> Forall2 (fun r r' => r' = r \/ r' = awaken r) rs rs'.
Proof.
  unfold notify. destruct n.
  - intros [= <-]. apply Forall_Forall2_diag, Forall_true. by left.
  - destruct (existsb asleep rs); [|intros [= <-]; apply Forall_Forall2_diag, Forall_true; by left].
    destruct (rs !! j) as [r|] eqn:Ej; [|done]. cbn. destruct (asleep r); [|done]. intros [= <-].
    apply Forall2_same_length_lookup. split; [by rewrite length_insert|]. intros i x y Hx Hy. destruct (decide (j = i)) as [<-|Hij].
    + rewrite list_lookup_insert_eq in Hy by (by eapply lookup_lt_Some). right. congruence.
    + rewrite list_lookup_insert_ne in Hy by done. left. congruence.
  - intros [= <-]. apply Forall2_fmap_r, Forall_Forall2_diag, Forall_true. by right.
Qed.

Lemma awaken_same r : waiting (awaken r) = waiting r /\ at_work (awaken r) = at_work r /\ (runner_ok r -> runner_ok (awaken r)).
Proof. unfold awaken, asleep, waiting, at_work, runner_ok. destruct r as [[] ? ? ?]; done. Qed.

Lemma notified_same n j (rs rs' : list Runner) : notify n j rs = Some rs' ->
  length rs' = length rs /\ flat_map waiting rs' = flat_map waiting rs /\ flat_map at_work rs' = flat_map at_work rs /\
  (Forall runner_ok rs -> Forall runner_ok rs').
Proof.
  intros Hn%notify_spec. induction Hn as [|r r' rs rs' Hr _ (IH1 & IH2 & IH3 & IH4)]; [done|]. cbn [length flat_map].
  destruct (awaken_same r) as (A1 & A2 & A3). split_and!; [congruence| | |].
  - destruct Hr as [->| ->]; congruence.
  - destruct Hr as [->| ->]; congruence.
  - intros [H1 H2]%Forall_cons. constructor; [destruct Hr as [->| ->]; auto|auto].
Qed.

Definition pushed (e : @effect Task) : list Task := match e with Pushed task => [task] | _ => [] end.
Definition finishes (e : @effect Task) : list Task := match e with Finishing task => [task] | _ => [] end.
Definition drops (e : @effect Task) : list Task := match e with Dropped l => l | _ => [] end.

Lemma exited rs : forallb (fun r => match pc r with RExit => true | _ => false end) rs = true ->
  flat_map held_by rs = flat_map waiting rs /\ flat_map at_work rs = [].
Proof.
  induction rs as [|r rs IH]; [done|]. cbn [forallb flat_map]. intros [Hr Hrs]%andb_prop. destruct (IH Hrs) as [-> ->].
  unfold waiting, at_work. by destruct (pc r).
Qed.

(** What one step of a call moves. *)
Lemma client_step_moves i c p n c' p' w e : client_step m_poolSize i c p = Some (c', p', w, e) -> pool_ok p n -> forall x,
  (num x (m_pendingTasks p') + num x (flat_map waiting (m_busyTaskRunners p')) + num x (drops e) =
    num x (m_pendingTasks p) + num x (flat_map waiting (m_busyTaskRunners p)) + num x (pushed e) /\
  num x (flat_map at_work (m_busyTaskRunners p')) + num x (m_finishTasksQueue p') + num x (finishes e) =
    num x (flat_map at_work (m_busyTaskRunners p)) + num x (m_finishTasksQueue p))%nat.
Proof.
  intros Hs Hok x. destruct c; cbn [client_step] in Hs; try done.
  - destruct (m_pendingTasksMutex p); [done|]. injection Hs as <- <- <- <-. cbn. rewrite num_app, !num_nil. lia.
  - injection Hs as <- <- <- <-. cbn. rewrite !num_nil. lia.
  - destruct ((_ <? _) && _)%nat; injection Hs as <- <- <- <-; cbn; rewrite !num_nil; lia.
  - destruct (m_pendingTasksMutex p); [done|]. destruct (m_pendingTasks p) eqn:El; injection Hs as <- <- <- <-; cbn; rewrite ?El, !num_nil; lia.
  - destruct (m_threadsMutex p); [done|]. destruct (m_pendingTasks p) as [|task l] eqn:El; [done|].
    destruct (_ <=? _)%nat; injection Hs as <- <- <- <-; cbn; rewrite ?num_nil; [lia|].
    rewrite !flat_map_app, !num_app, (num_cons x task l). unfold waiting at 2, at_work at 2. cbn. rewrite num_nil. lia.
  - injection Hs as <- <- <- <-. cbn. rewrite !num_nil. lia.
  - injection Hs as <- <- <- <-. cbn. rewrite !num_nil. lia.
  - destruct (m_finishTasksQueue p) as [|task l] eqn:El; injection Hs as <- <- <- <-; cbn; rewrite ?El, ?num_nil; [lia|].
    rewrite (num_cons x task l). lia.
  - injection Hs as <- <- <- <-. cbn. rewrite !num_nil. lia.
  - destruct (m_threadsMutex p); [done|]. injection Hs as <- <- <- <-. cbn. rewrite !num_nil. lia.
  - destruct (m_busyTaskRunners p !! k) as [r|] eqn:Er; [destruct (m_isTerminated r)|]; injection Hs as <- <- <- <-; cbn;
      rewrite ?num_nil; try lia.
    pose proof (num_insert waiting x _ _ _ (mkRunner (pc r) (m_task r) true false) Er) as Hw.
    pose proof (num_insert at_work x _ _ _ (mkRunner (pc r) (m_task r) true false) Er) as Ha.
    change (waiting (mkRunner (pc r) (m_task r) true false)) with (waiting r) in Hw.
    change (at_work (mkRunner (pc r) (m_task r) true false)) with (at_work r) in Ha. lia.
  - destruct (forallb _ _) eqn:Ef; [|done]. injection Hs as <- <- <- <-. cbn. destruct (exited _ Ef) as [-> ->]. rewrite !num_nil. lia.
Qed.

Lemma client_step_ok i c p c' p' w e : client_step m_poolSize i c p = Some (c', p', w, e) -> pool_ok p m_poolSize -> pool_ok p' m_poolSize.
Proof.
  intros Hs [Ho Hb Hp Hf Hh]. destruct c; cbn [client_step] in Hs; try done.
  - destruct (m_pendingTasksMutex p); [done|]. injection Hs as <- <- <- <-. constructor; cbn; try done. rewrite length_app. cbn. lia.
  - by injection Hs as <- <- <- <-.
  - by destruct ((_ <? _) && _)%nat; injection Hs as <- <- <- <-.
  - destruct (m_pendingTasksMutex p) eqn:Em; [done|]. destruct (m_pendingTasks p) eqn:El; injection Hs as <- <- <- <-; constructor; cbn; rewrite ?El; done.
  - destruct (m_threadsMutex p); [done|]. destruct (m_pendingTasks p) as [|task l] eqn:El; [done|].
    destruct (m_poolSize <=? _)%nat eqn:Es; injection Hs as <- <- <- <-; constructor; cbn; try done.
    + apply Forall_app. split; [done|]. by repeat constructor.
    + apply Nat.leb_gt in Es. rewrite length_app. cbn. lia.
    + rewrite Hp. done.
  - by injection Hs as <- <- <- <-.
  - by injection Hs as <- <- <- <-.
  - destruct (m_finishTasksQueue p) as [|task l] eqn:El; injection Hs as <- <- <- <-; constructor; cbn; rewrite ?El; try done. rewrite Hf. done.
  - by injection Hs as <- <- <- <-.
  - destruct (m_threadsMutex p); [done|]. by injection Hs as <- <- <- <-.
  - destruct (m_busyTaskRunners p !! k) as [r|] eqn:Er; [destruct (m_isTerminated r)|]; injection Hs as <- <- <- <-; try done.
    constructor; cbn; try done; [|by rewrite length_insert]. apply Forall_insert; [done|]. by apply (Forall_lookup_1 _ _ k r) in Ho.
  - destruct (forallb _ _) eqn:Ef; [|done]. injection Hs as <- <- <- <-. constructor; cbn; try done. lia.
Qed.

(** A call gets the mutex of the pending tasks when nobody has it, and keeps it until
    it has created the thread. *)
Lemma client_step_mutex i c (p : Pool) c' p' w e : client_step m_poolSize i c p = Some (c', p', w, e) ->
  (m_pendingTasksMutex p' = m_pendingTasksMutex p /\ c <> Add_create /\ c' <> Add_create) \/
  (m_pendingTasksMutex p = None /\ m_pendingTasksMutex p' = Some i /\ c' = Add_create) \/
  (c = Add_create /\ m_pendingTasksMutex p' = None /\ c' <> Add_create).
Proof.
  intros Hs. destruct c; cbn [client_step] in Hs; try done; try (injection Hs as <- <- <- <-; by left).
  - destruct (m_pendingTasksMutex p); [done|]. injection Hs as <- <- <- <-. by left.
  - destruct ((_ <? _) && _)%nat; injection Hs as <- <- <- <-; by left.
  - destruct (m_pendingTasksMutex p) eqn:Em; [done|]. destruct (m_pendingTasks p) eqn:El; injection Hs as <- <- <- <-; [by left|]. right. by left.
  - destruct (m_threadsMutex p); [done|]. destruct (m_pendingTasks p) as [|task l] eqn:El; [done|].
    destruct (_ <=? _)%nat; injection Hs as <- <- <- <-; right; by right.
  - injection Hs as <- <- <- <-. left. by destruct (_ <? _)%nat.
  - destruct (m_finishTasksQueue p) as [|task l]; injection Hs as <- <- <- <-; by left.
  - destruct (m_threadsMutex p); [done|]. injection Hs as <- <- <- <-. by left.
  - destruct (m_busyTaskRunners p !! k) as [r|]; [destruct (m_isTerminated r)|]; injection Hs as <- <- <- <-; by left.
  - destruct (forallb _ _); [|done]. injection Hs as <- <- <- <-. by left.
Qed.

(** The four kinds of steps. *)
Lemma exec_Run i (s s' : Sys) : exec m_poolSize (Run i) s = Some s' -> exists r r' p tasks,
  m_busyTaskRunners (pool s) !! i = Some r /\ runner_step r (pool s) = Some (r', p, tasks) /\
  s' = mkSys (set_runners (<[i := r']> (m_busyTaskRunners p)) p) (clients s) (added s) (ran s ++ tasks) (finished s) (dropped s).
Proof.
  cbn [exec]. destruct (m_busyTaskRunners (pool s) !! i) as [r|]; [|done]. cbn. destruct (runner_step r (pool s)) as [[[r' p] tasks]|] eqn:E; [|done].
  intros [= <-]. by exists r, r', p, tasks.
Qed.
Lemma exec_Call i j (s s' : Sys) : exec m_poolSize (Call i j) s = Some s' -> exists c c' p n e rs,
  clients s !! i = Some c /\ client_step m_poolSize i c (pool s) = Some (c', p, n, e) /\ notify n j (m_busyTaskRunners p) = Some rs /\
  s' = mkSys (set_runners rs p) (<[i := c']> (clients s)) (added s ++ pushed e) (ran s) (finished s ++ finishes e) (dropped s ++ drops e).
Proof.
  cbn [exec]. destruct (clients s !! i) as [c|]; [|done]. cbn. destruct (client_step m_poolSize i c (pool s)) as [[[[c' p] n] e]|] eqn:E; [|done].
  cbn. destruct (notify n j (m_busyTaskRunners p)) as [rs|] eqn:En; [|done]. cbn. intros [= <-]. exists c, c', p, n, e, rs.
  split_and!; try done. destruct e; cbn; by rewrite ?app_nil_r.
Qed.
Lemma exec_Wake i (s s' : Sys) : exec m_poolSize (Wake i) s = Some s' -> exists r,
  m_busyTaskRunners (pool s) !! i = Some r /\ asleep r = true /\
  s' = mkSys (set_runners (<[i := awaken r]> (m_busyTaskRunners (pool s))) (pool s)) (clients s) (added s) (ran s) (finished s) (dropped s).
Proof.
  cbn [exec]. destruct (m_busyTaskRunners (pool s) !! i) as [r|]; [|done]. cbn. destruct (asleep r) eqn:E; [|done].
  intros [= <-]. by exists r.
Qed.
Lemma exec_Spawn c (s s' : Sys) : exec m_poolSize (Spawn c) s = Some s' ->
  begins c = true /\ s' = mkSys (pool s) (clients s ++ [c]) (added s) (ran s) (finished s) (dropped s).
Proof. cbn [exec]. destruct (begins c); [|done]. by intros [= <-]. Qed.

Lemma pool_ok_runners (p : Pool) n rs : pool_ok p n -> Forall runner_ok rs -> length rs = length (m_busyTaskRunners p) -> pool_ok (set_runners rs p) n.
Proof. intros [Ho Hb Hp Hf Hh] Hr Hl. constructor; cbn; try done. lia. Qed.

Lemma pool_inv_init : inv init.
Proof. constructor; cbn; [constructor; cbn; try done; lia|done|done|done]. Qed.

Lemma inv_exec l s s' : inv s -> exec m_poolSize l s = Some s' -> inv s'.
Proof.
  intros [Hok Hm Ha Hr] He. destruct l as [c|i|i j|i].
  - apply exec_Spawn in He as [Hb ->]. constructor; cbn; try done. intros i. rewrite Hm. split.
    + intros Hi. by apply lookup_app_l_Some.
    + intros [Hi|[_ Hi]]%lookup_app_Some; [done|]. apply list_lookup_singleton_Some in Hi as [_ ->]. done.
  - apply exec_Run in He as (r & r' & p & tasks & Hi & Hs & ->).
    assert (runner_ok r) as Hrok by (destruct Hok as [Ho _ _ _ _]; by apply (Forall_lookup_1 _ _ _ _ Ho) in Hi).
    destruct (runner_step_spec _ _ _ _ _ _ Hs Hrok Hok) as (Hr' & Hok' & Er & Em & Hx). rewrite Er. constructor; cbn.
    + apply pool_ok_runners; [done|apply Forall_insert; [apply Hok|done]|by rewrite length_insert, Er].
    + intros k. rewrite Em. apply Hm.
    + intros x. specialize (Hx x). specialize (Ha x). pose proof (num_insert waiting x _ _ _ r' Hi). rewrite num_app. lia.
    + intros x. specialize (Hx x). specialize (Hr x). pose proof (num_insert at_work x _ _ _ r' Hi). rewrite num_app. lia.
  - apply exec_Call in He as (c & c' & p & n & e & rs & Hi & Hs & Hn & ->).
    pose proof (client_step_ok _ _ _ _ _ _ _ Hs Hok) as Hok'. pose proof (client_step_moves _ _ _ _ _ _ _ _ Hs Hok) as Hx.
    destruct (notified_same _ _ _ _ Hn) as (El & Ew & Ea & Hro). constructor; cbn.
    + apply pool_ok_runners; [done|apply Hro, Hok'|done].
    + pose proof (lookup_lt_Some _ _ _ Hi) as Hlt. intros k. destruct (decide (i = k)) as [<-|Hk].
      * rewrite list_lookup_insert_eq by done. destruct (client_step_mutex _ _ _ _ _ _ _ Hs) as [(-> & N1 & N2)|[(E1 & -> & ->)|(-> & -> & N)]].
        -- rewrite Hm, Hi. split; congruence.
        -- done.
        -- split; congruence.
      * rewrite list_lookup_insert_ne by done. destruct (client_step_mutex _ _ _ _ _ _ _ Hs) as [(-> & N1 & N2)|[(E1 & -> & ->)|(-> & -> & N)]].
        -- apply Hm.
        -- rewrite <- Hm, E1. split; congruence.
        -- rewrite <- Hm. apply Hm in Hi. rewrite Hi. split; congruence.
    + intros x. specialize (Ha x). destruct (Hx x) as [H1 _]. rewrite Ew, !num_app. lia.
    + intros x. specialize (Hr x). destruct (Hx x) as [_ H2]. rewrite Ea, !num_app. lia.
  - apply exec_Wake in He as (r & Hi & _ & ->). destruct (awaken_same r) as (E1 & E2 & Hrok). constructor; cbn; [|done|..].
    + apply pool_ok_runners; [done| |by rewrite length_insert]. destruct Hok as [Ho _ _ _ _]. apply Forall_insert; [done|].
      apply Hrok. by apply (Forall_lookup_1 _ _ _ _ Ho) in Hi.
    + intros x. specialize (Ha x). pose proof (num_insert waiting x _ _ _ (awaken r) Hi). rewrite E1 in *. lia.
    + intros x. specialize (Hr x). pose proof (num_insert at_work x _ _ _ (awaken r) Hi). rewrite E2 in *. lia.
Qed.

Lemma pool_reachable_inv s : reachable m_poolSize s -> inv s.
Proof.
  intros Hr. refine (rtc_ind_r (R := step m_poolSize) inv init pool_inv_init _ s Hr). intros s1 s2 _ [l Hl] Hi. by eapply inv_exec.
Qed.

(** However calls of the pool overlap, also with its end: no more threads run than the
    pool has, a task's [Run] is called at most as often as the task was added, and its
    [Finishing] at most as often as it has run. *)
Lemma pool_safe (s : Sys) : reachable m_poolSize s ->
  (length (m_busyTaskRunners (pool s)) <= m_poolSize)%nat /\
  (exists rest, ran s ++ rest ≡ₚ added s) /\ (exists rest, finished s ++ rest ≡ₚ ran s).
Proof.
  intros [Hok _ Ha Hr]%pool_reachable_inv. split; [apply Hok|]. split.
  - exists (m_pendingTasks (pool s) ++ flat_map waiting (m_busyTaskRunners (pool s)) ++ dropped s).
    apply num_Permutation. intros x. specialize (Ha x). rewrite !num_app. lia.
  - exists (flat_map at_work (m_busyTaskRunners (pool s)) ++ m_finishTasksQueue (pool s)).
    apply num_Permutation. intros x. specialize (Hr x). rewrite !num_app. lia.
Qed.

(** ** A pool that is not terminated completes every task *)

Definition live_runner (r : Runner) : Prop := m_isTerminating r = false /\ m_isTerminated r = false /\
  match pc r with RLoop | RWait => is_Some (m_task r) | RStore tmpTask => is_Some tmpTask | RExit => False | _ => True end.
Definition live_client (c : @client Task) : Prop :=
  match c with Term_set | Term_lock | Term_kill _ | Term_join | Undefined => False | _ => True end.
Definition awake (r : Runner) : bool := negb (asleep r).
(** A call that has pushed, or put back, a task and has yet to notify a runner. *)
Definition to_notify (c : @client Task) : bool := match c with Add_notify | Add_renotify => true | _ => false end.
Definition to_create (c : @client Task) : bool := match c with Add_check | Add_lock | Add_create => true | _ => false end.

Definition live_wake (p : Pool) (cs : list client) : Prop :=
  m_pendingTasks p <> [] -> existsb awake (m_busyTaskRunners p) = true \/ existsb to_notify cs = true \/
    m_busyTaskRunners p = [] /\ existsb to_create cs = true.

Record live (s : Sys) : Prop := {
  live_inv : inv s;
  live_terminated : m_terminated (pool s) = false /\ m_threadsMutex (pool s) = None /\ dropped s = [];
  live_size : m_threadsSize (pool s) = length (m_busyTaskRunners (pool s));
  live_runners : Forall live_runner (m_busyTaskRunners (pool s));
  live_clients : Forall live_client (clients s);
  live_updates : forall i j c d, clients s !! i = Some c -> clients s !! j = Some d -> updates c = true -> updates d = true -> i = j;
  live_pop : Upd_pop ∈ clients s -> m_finishTasksQueue (pool s) <> [];
  live_renotify : Add_renotify ∈ clients s -> m_busyTaskRunners (pool s) <> [];
  live_waking : live_wake (pool s) (clients s) }.

Lemma existsb_elem {A} (f : A -> bool) l : existsb f l = true <-> exists x, x ∈ l /\ f x = true.
Proof. rewrite List.existsb_exists. by setoid_rewrite <- list_elem_of_In. Qed.

Lemma existsb_insert {A} (f : A -> bool) l i a b : l !! i = Some a -> existsb f l = true -> f a = false \/ f b = true -> existsb f (<[i := b]> l) = true.
Proof.
  intros Hi He Hf. apply existsb_elem in He as (x & Hx & Fx). apply list_elem_of_lookup in Hx as [j Hj].
  apply existsb_elem. destruct (decide (i = j)) as [<-|Hij].
  - exists b. split; [apply (list_elem_of_lookup_2 _ i), list_lookup_insert_eq; by eapply lookup_lt_Some|].
    assert (x = a) as -> by congruence. destruct Hf as [Hf|Hf]; congruence.
  - exists x. split; [|done]. apply (list_elem_of_lookup_2 _ j). by rewrite list_lookup_insert_ne.
Qed.

Lemma live_runner_step r (p : Pool) r' p' tasks : runner_step r p = Some (r', p', tasks) -> live_runner r -> runner_ok r -> m_terminated p = false ->
  live_runner r' /\ m_terminated p' = m_terminated p /\ m_threadsMutex p' = m_threadsMutex p /\ m_threadsSize p' = m_threadsSize p /\
  (m_finishTasksQueue p <> [] -> m_finishTasksQueue p' <> []) /\ (m_pendingTasks p = [] -> m_pendingTasks p' = []) /\
  (awake r' = true \/ m_pendingTasks p' = []).
Proof.
  intros Hs (Ht & Hd & Hl) Hr Htm. unfold runner_step, live_runner, runner_ok, awake, asleep in *. destruct (pc r) eqn:Ep; try done.
  - rewrite Ht in Hs. injection Hs as <- <- <-. cbn. split_and!; auto.
  - rewrite Ht in Hs. destruct (m_task r); [|done]. injection Hs as <- <- <-. cbn. split_and!; auto.
  - destruct (m_task r); [|done]. injection Hs as <- <- <-. cbn. split_and!; auto.
  - injection Hs as <- <- <-. cbn. split_and!; auto. by intros _ [_ ?]%app_eq_nil.
  - destruct (m_pendingTasksMutex p); [done|]. rewrite Htm in Hs. destruct (m_pendingTasks p) as [|task l] eqn:El; injection Hs as <- <- <-; cbn;
      split_and!; eauto. by destruct l.
  - injection Hs as <- <- <-. cbn. split_and!; auto.
Qed.

Lemma live_client_step i c (p : Pool) c' p' w e : client_step m_poolSize i c p = Some (c', p', w, e) ->
  live_client c -> pool_ok p m_poolSize -> m_threadsMutex p = None -> m_threadsSize p = length (m_busyTaskRunners p) ->
  Forall live_runner (m_busyTaskRunners p) -> (c = Upd_pop -> m_finishTasksQueue p <> []) -> (0 < m_poolSize)%nat ->
  (live_client c' /\ m_terminated p' = m_terminated p /\ m_threadsMutex p' = None /\ m_threadsSize p' = length (m_busyTaskRunners p') /\
    drops e = [] /\ Forall live_runner (m_busyTaskRunners p')) /\
  (updates c' = true -> updates c = true) /\ (c' = Upd_pop -> m_finishTasksQueue p' <> []) /\
  (m_finishTasksQueue p <> [] -> c <> Upd_pop -> m_finishTasksQueue p' <> []) /\
  (c' = Add_renotify -> m_busyTaskRunners p' <> []) /\ (m_busyTaskRunners p <> [] -> m_busyTaskRunners p' <> []).
Proof.
  intros Hs Hc [Ho Hb Hp Hf Hh] Htm Hsz Hl Hpop Hpos. destruct c; cbn [client_step] in Hs; try done.
  - destruct (m_pendingTasksMutex p); [done|]. injection Hs as <- <- <- <-. cbn. split_and!; auto; done.
  - injection Hs as <- <- <- <-. cbn. split_and!; auto; done.
  - destruct ((_ <? _) && _)%nat; injection Hs as <- <- <- <-; cbn; split_and!; auto; done.
  - destruct (m_pendingTasksMutex p); [done|]. destruct (m_pendingTasks p) eqn:El; injection Hs as <- <- <- <-; cbn; split_and!; auto; done.
  - rewrite Htm in Hs. destruct (m_pendingTasks p) as [|task l] eqn:El; [done|].
    destruct (m_poolSize <=? _)%nat eqn:Es; injection Hs as <- <- <- <-; cbn; split_and!; auto; try done.
    + intros _ E. rewrite E in Es. apply Nat.leb_le in Es. cbn in Es. lia.
    + rewrite length_app, Hsz. cbn. lia.
    + apply Forall_app. split; [done|]. repeat constructor. by exists task.
    + by intros _ [_ ?]%app_eq_nil.
  - injection Hs as <- <- <- <-. cbn. split_and!; auto; done.
  - destruct (0 <? _)%nat eqn:Es; injection Hs as <- <- <- <-; cbn; split_and!; auto; try done. intros _ E.
    rewrite Hf, E in Es. done.
  - destruct (m_finishTasksQueue p) as [|task l] eqn:El; injection Hs as <- <- <- <-; cbn; [by destruct Hpop|]. split_and!; auto; done.
Qed.

(** A notification leaves nobody asleep, or wakes somebody. *)
Lemma notify_one_awake j (rs rs' : list Runner) : notify One j rs = Some rs' -> rs <> [] -> existsb awake rs' = true.
Proof.
  unfold notify. destruct (existsb asleep rs) eqn:Ea.
  - destruct (rs !! j) as [r|] eqn:Ej; [|done]. cbn. destruct (asleep r) eqn:Er; [|done]. intros [= <-] _.
    apply existsb_elem. exists (awaken r). split.
    + apply (list_elem_of_lookup_2 _ j), list_lookup_insert_eq. by eapply lookup_lt_Some.
    + unfold awaken. rewrite Er. done.
  - intros [= <-]. destruct rs as [|r rs]; [done|]. cbn in *. apply orb_false_iff in Ea as [Er _]. unfold awake. by rewrite Er.
Qed.

Lemma notify_nil n j (rs rs' : list Runner) : notify n j rs = Some rs' -> rs = [] <-> rs' = [].
Proof. intros (El & _)%notified_same. destruct rs, rs'; done. Qed.

Lemma awake_notified n j (rs rs' : list Runner) : notify n j rs = Some rs' -> existsb awake rs = true -> existsb awake rs' = true.
Proof.
  intros Hn%notify_spec. induction Hn as [|r r' rs rs' Hr _ IH]; [done|]. cbn [existsb]. intros [Ha|Ha]%orb_prop.
  - apply orb_true_intro. left. destruct Hr as [->| ->]; [done|]. unfold awake, awaken in *. destruct (asleep r) eqn:E; [done|]. by rewrite E.
  - apply orb_true_intro. right. auto.
Qed.

Lemma live_notified n j (rs rs' : list Runner) : notify n j rs = Some rs' -> Forall live_runner rs -> Forall live_runner rs'.
Proof.
  intros Hn%notify_spec. induction Hn as [|r r' rs rs' Hr _ IH]; [done|]. intros [H1 H2]%Forall_cons. constructor; [|auto].
  destruct Hr as [->| ->]; [done|]. unfold awaken, asleep, live_runner in *. by destruct r as [[] ? ? ?].
Qed.

Lemma existsb_here {A} (f : A -> bool) l i a b : l !! i = Some a -> f b = true -> existsb f (<[i := b]> l) = true.
Proof.
  intros Hi Hf. apply existsb_elem. exists b. split; [|done].
  apply (list_elem_of_lookup_2 _ i), list_lookup_insert_eq. by eapply lookup_lt_Some.
Qed.

(** A call that leaves the pending tasks, the runners and the sleepers alone, and is
    none of those that are relied on. *)
Lemma live_wake_other (p : Pool) cs i c c' : live_wake p cs -> cs !! i = Some c ->
  to_notify c = false \/ to_notify c' = true -> to_create c = false \/ to_create c' = true \/ m_busyTaskRunners p <> [] ->
  live_wake p (<[i := c']> cs).
Proof.
  intros Hw Hi Hn Hc Hp. destruct (Hw Hp) as [?|[?|[Hr Hx]]]; [by left| |].
  - right. left. by eapply existsb_insert.
  - right. right. split; [done|]. eapply existsb_insert; [done..|]. destruct Hc as [?|[?|?]]; auto.
Qed.

Lemma live_wake_runners (p p' : Pool) cs : live_wake p cs -> m_pendingTasks p' = m_pendingTasks p ->
  m_busyTaskRunners p' = m_busyTaskRunners p -> live_wake p' cs.
Proof. unfold live_wake. by intros ? -> ->. Qed.

Lemma wake_client i c (p : Pool) c' p' w e cs j rs : client_step m_poolSize i c p = Some (c', p', w, e) -> cs !! i = Some c ->
  notify w j (m_busyTaskRunners p') = Some rs -> live_client c -> pool_ok p m_poolSize -> m_threadsMutex p = None ->
  m_threadsSize p = length (m_busyTaskRunners p) -> (c = Add_renotify -> m_busyTaskRunners p <> []) -> (0 < m_poolSize)%nat ->
  live_wake p cs -> live_wake (set_runners rs p') (<[i := c']> cs).
Proof.
  intros Hs Hi Hn Hc [Ho Hb Hp Hf Hh] Htm Hsz Hre Hpos Hw. destruct c; cbn [client_step] in Hs; try done.
  - destruct (m_pendingTasksMutex p); [done|]. injection Hs as <- <- <- <-. injection Hn as <-. intros _. right. left. by eapply existsb_here.
  - injection Hs as <- <- <- <-. intros _. cbn. destruct (m_busyTaskRunners p) as [|r l] eqn:Er.
    + right. right. split; [by apply (notify_nil _ _ _ _ Hn)|]. by eapply existsb_here.
    + left. by eapply notify_one_awake.
  - destruct ((0 <? m_pendingTasksSize p) && (m_threadsSize p <? m_poolSize))%nat eqn:Et; injection Hs as <- <- <- <-; injection Hn as <-.
    + eapply live_wake_runners; [eapply live_wake_other; [exact Hw|done|by left|right; by left]|done..].
    + destruct (m_pendingTasks p) as [|task l] eqn:El; [intros Hne; by cbn in Hne; rewrite El in Hne|].
      eapply live_wake_runners; [eapply live_wake_other; [exact Hw|done|by left|right; right]|done..].
      intros E'. apply andb_false_iff in Et as [Et|Et]; apply Nat.ltb_ge in Et.
      * rewrite Hp in Et. cbn in Et. lia.
      * rewrite Hsz, E' in Et. cbn in Et. lia.
  - destruct (m_pendingTasksMutex p); [done|]. destruct (m_pendingTasks p) as [|task l] eqn:El; injection Hs as <- <- <- <-; injection Hn as <-.
    + intros Hne. cbn in Hne. rewrite El in Hne. done.
    + eapply live_wake_runners; [eapply live_wake_other; [exact Hw|done|by left|right; by left]|by cbn; rewrite ?El|done].
  - rewrite Htm in Hs. destruct (m_pendingTasks p) as [|task l] eqn:El; [done|].
    destruct (m_poolSize <=? _)%nat eqn:Es; injection Hs as <- <- <- <-; injection Hn as <-; intros _; cbn.
    + right. left. by eapply existsb_here.
    + left. rewrite existsb_app. cbn. by rewrite orb_true_r.
  - injection Hs as <- <- <- <-. intros _. left. cbn. eapply notify_one_awake; [done|auto].
  - destruct (0 <? _)%nat; injection Hs as <- <- <- <-; injection Hn as <-;
      (eapply live_wake_runners; [eapply live_wake_other; [exact Hw|done|by left|by left]|done..]).
  - destruct (m_finishTasksQueue p) as [|task l] eqn:El; injection Hs as <- <- <- <-; injection Hn as <-;
      (eapply live_wake_runners; [eapply live_wake_other; [exact Hw|done|by left|by left]|done..]).
Qed.

Lemma live_init : live init.
Proof. constructor; cbn; try done; first [apply pool_inv_init|by intros ?%not_elem_of_nil|by intros Hne; destruct Hne]. Qed.

Lemma elem_of_insert_inv {A} (l : list A) i x y : y ∈ <[i := x]> l -> y = x \/ y ∈ l.
Proof. intros [j Hj]%list_elem_of_lookup. apply list_lookup_insert_Some in Hj as [(_ & <- & _)|[_ Hj]]; [by left|]. right. by eapply list_elem_of_lookup_2. Qed.

Lemma live_run i s s' : live s -> exec m_poolSize (Run i) s = Some s' -> live s'.
Proof.
  intros Hl He. pose proof (inv_exec _ _ _ (live_inv _ Hl) He) as Hinv. destruct Hl as [[Hok _ _ _] (T1 & T2 & T3) Hsz Hr Hc Hu Hpop Hre Hw].
  apply exec_Run in He as (r & r' & p & tasks & Hi & Hs & ->).
  assert (runner_ok r) as Hrok by (destruct Hok as [Ho _ _ _ _]; by apply (Forall_lookup_1 _ _ _ _ Ho) in Hi).
  destruct (runner_step_spec _ _ _ _ _ _ Hs Hrok Hok) as (_ & _ & Er & _ & _).
  destruct (live_runner_step _ _ _ _ _ Hs (Forall_lookup_1 _ _ _ _ Hr Hi) Hrok T1) as (L & E1 & E2 & E3 & Hf & Hp & Ha).
  constructor; [exact Hinv|..]; cbn; rewrite ?E1, ?E2, ?E3, ?Er; auto.
  - by rewrite length_insert.
  - by apply Forall_insert.
  - intros Hin E. apply (f_equal length) in E. rewrite length_insert in E. apply (Hre Hin). by destruct (m_busyTaskRunners (pool s)).
  - intros Hne. cbn in *. left. destruct Ha as [Ha|Ha]; [|done]. by eapply existsb_here.
Qed.

Lemma live_wakeup i s s' : live s -> exec m_poolSize (Wake i) s = Some s' -> live s'.
Proof.
  intros Hl He. pose proof (inv_exec _ _ _ (live_inv _ Hl) He) as Hinv. destruct Hl as [_ (T1 & T2 & T3) Hsz Hr Hc Hu Hpop Hre Hw].
  apply exec_Wake in He as (r & Hi & Hs & ->). constructor; [exact Hinv|..]; cbn; auto.
  - by rewrite length_insert.
  - apply Forall_insert; [done|]. apply (Forall_lookup_1 _ _ _ _ Hr) in Hi. unfold awaken, asleep, live_runner in *. by destruct r as [[] ? ? ?].
  - intros Hin E. apply (f_equal length) in E. rewrite length_insert in E. apply (Hre Hin). by destruct (m_busyTaskRunners (pool s)).
  - intros _. left. cbn. eapply existsb_here; [done|]. unfold awaken. by rewrite Hs.
Qed.

Lemma live_spawn c s s' : (0 < m_poolSize)%nat -> live s -> exec m_poolSize (Spawn c) s = Some s' -> c <> Term_set -> (c = Upd_check -> existsb updates (clients s) = false) -> live s'.
Proof.
  intros Hpos Hl He Hnt Hup. pose proof (inv_exec _ _ _ (live_inv _ Hl) He) as Hinv. destruct Hl as [_ (T1 & T2 & T3) Hsz Hr Hc Hu Hpop Hre Hw].
  apply exec_Spawn in He as [Hb ->]. constructor; [exact Hinv|..]; cbn; auto.
  - apply Forall_app. split; [done|]. constructor; [by destruct c|done].
  - assert (forall i d, clients s !! i = Some d -> updates d = true -> updates c = true -> False) as Hno.
    { intros i d Hi Hd Huc. destruct c; try done. specialize (Hup eq_refl). apply not_true_iff_false in Hup. apply Hup, existsb_elem.
      exists d. split; [by eapply list_elem_of_lookup_2|done]. }
    intros i j d d' Hi Hj U U'. apply lookup_app_Some in Hi as [Hi|[Li Hi]]; apply lookup_app_Some in Hj as [Hj|[Lj Hj]].
    + by eapply Hu.
    + apply list_lookup_singleton_Some in Hj as [_ <-]. by destruct (Hno i d).
    + apply list_lookup_singleton_Some in Hi as [_ <-]. by destruct (Hno j d').
    + apply list_lookup_singleton_Some in Hi as [Hi _]. apply list_lookup_singleton_Some in Hj as [Hj _]. lia.
  - intros [Hin|<-%list_elem_of_singleton]%elem_of_app; [auto|done].
  - intros [Hin|<-%list_elem_of_singleton]%elem_of_app; [auto|done].
  - intros Hne. destruct (Hw Hne) as [?|[H|[? H]]]; [by left|right; left|right; right; split; [done|]]; rewrite existsb_app, H; done.
Qed.

Lemma live_call i j s s' : (0 < m_poolSize)%nat -> live s -> exec m_poolSize (Call i j) s = Some s' -> live s'.
Proof.
  intros Hpos Hl He. pose proof (inv_exec _ _ _ (live_inv _ Hl) He) as Hinv. destruct Hl as [[Hok _ _ _] (T1 & T2 & T3) Hsz Hr Hc Hu Hpop Hre Hw].
  apply exec_Call in He as (c & c' & p & n & e & rs & Hi & Hs & Hn & ->). pose proof (Forall_lookup_1 _ _ _ _ Hc Hi) as Hlc.
  assert (forall d, c = d -> d ∈ clients s) as Hin by (intros d <-; by eapply list_elem_of_lookup_2).
  destruct (live_client_step _ _ _ _ _ _ _ Hs Hlc Hok T2 Hsz Hr) as ((L1 & L2 & L3 & L4 & L5 & L6) & U & P1 & P2 & R1 & R2); [auto|done|].
  destruct (notified_same _ _ _ _ Hn) as (El & _ & _ & _). constructor; [exact Hinv|..]; cbn.
  - rewrite L2, L5, app_nil_r. done.
  - by rewrite El.
  - by eapply live_notified.
  - by apply Forall_insert.
  - assert (forall k d, <[i:=c']> (clients s) !! k = Some d -> updates d = true -> exists d', clients s !! k = Some d' /\ updates d' = true) as Hk.
    { intros k d [(<- & <- & _)|[_ Hk]]%list_lookup_insert_Some Hd; eauto. }
    intros k l d d' Hk1 Hl1 Ud Ud'. destruct (Hk _ _ Hk1 Ud) as (x & Hx & Ux), (Hk _ _ Hl1 Ud') as (y & Hy & Uy). by eapply Hu.
  - intros [k Hk]%list_elem_of_lookup. apply list_lookup_insert_Some in Hk as [(_ & E & _)|[Hik Hk]]; [by apply P1|].
    apply P2; [by apply Hpop, (list_elem_of_lookup_2 _ k)|]. intros ->. by apply Hik, (Hu i k Upd_pop Upd_pop).
  - intros [E|Hx]%elem_of_insert_inv E'; apply (notify_nil _ _ _ _ Hn) in E'; [by apply R1|]. by apply R2; [apply Hre|].
  - by eapply wake_client; eauto.
Qed.

(** The steps that are left: those of the runners and calls that are under way, with
    those of the runners that they can wake. *)
Definition runner_weight (r : Runner) : nat :=
  match pc r with RStore _ => 8 | RLoop => 7 | RWait => 6 | RRun => 5 | RPush _ => 4 | RFetch => 1 | RAsleep | RExit => 0 end.
Definition client_weight (c : @client Task) : nat :=
  match c with
  | Add_push _ => 17 | Add_notify => 8 | Add_check => 6 | Add_lock => 5 | Add_create => 4 | Add_renotify => 2
  | Upd_check => 2 | Upd_pop => 1 | _ => 0
  end.
Definition measure (s : Sys) : nat :=
  (sum_list_with runner_weight (m_busyTaskRunners (pool s)) + sum_list_with client_weight (clients s) +
   8 * length (m_pendingTasks (pool s)) + 2 * length (m_finishTasksQueue (pool s)))%nat.

Lemma sum_insert {A} (f : A -> nat) l i a b : l !! i = Some a ->
  (sum_list_with f (<[i := b]> l) + f a = sum_list_with f l + f b)%nat.
Proof.
  revert i. induction l as [|c l IH]; intros [|i]; [done..| |]; simpl.
  - intros [= ->]. lia.
  - intros Hi%IH. lia.
Qed.

Lemma notify_weight n j (rs rs' : list Runner) : notify n j rs = Some rs' ->
  match n with
  | Nobody => rs' = rs
  | One => (sum_list_with runner_weight rs' <= sum_list_with runner_weight rs + 1)%nat
  | All => True
  end.
Proof.
  unfold notify. destruct n; [by intros [= <-]| |done]. destruct (existsb asleep rs); [|intros [= <-]; lia].
  destruct (rs !! j) as [r|] eqn:Ej; [|done]. cbn. destruct (asleep r) eqn:Er; [|done]. intros [= <-].
  pose proof (sum_insert runner_weight _ _ _ (awaken r) Ej). assert (runner_weight (awaken r) = 1%nat) by (unfold awaken; by rewrite Er). lia.
Qed.

Lemma run_decreases i s s' : live s -> exec m_poolSize (Run i) s = Some s' -> (measure s' < measure s)%nat.
Proof.
  intros [_ (T1 & _) _ Hr _ _ _ _ _] He. apply exec_Run in He as (r & r' & p & tasks & Hi & Hs & ->).
  destruct (Forall_lookup_1 _ _ _ _ Hr Hi) as (Ht & _ & Hl). pose proof (sum_insert runner_weight _ _ _ r' Hi) as Hw.
  unfold measure. cbn [pool clients set_runners m_busyTaskRunners m_pendingTasks m_finishTasksQueue]. unfold runner_step in Hs. destruct (pc r) eqn:Ep; try done.
  - rewrite Ht in Hs. injection Hs as <- <- <-. unfold runner_weight in Hw at 2 4. rewrite Ep in Hw. cbn in *. lia.
  - rewrite Ht in Hs. destruct (m_task r); [|done]. injection Hs as <- <- <-. unfold runner_weight in Hw at 2 4. rewrite Ep in Hw. cbn in *. lia.
  - destruct (m_task r); [|done]. injection Hs as <- <- <-. unfold runner_weight in Hw at 2 4. rewrite Ep in Hw. cbn in *. lia.
  - injection Hs as <- <- <-. unfold runner_weight in Hw at 2 4. rewrite Ep in Hw. cbn in *. rewrite length_app. cbn. lia.
  - destruct (m_pendingTasksMutex (pool s)); [done|]. rewrite T1 in Hs.
    destruct (m_pendingTasks (pool s)) eqn:El; injection Hs as <- <- <-; unfold runner_weight in Hw at 2 4; rewrite Ep in Hw; cbn in *; rewrite ?El; cbn; lia.
  - injection Hs as <- <- <-. unfold runner_weight in Hw at 2 4. rewrite Ep in Hw. cbn in *. lia.
Qed.

Lemma call_decreases i j s s' : live s -> exec m_poolSize (Call i j) s = Some s' -> (measure s' < measure s)%nat.
Proof.
  intros [_ (_ & T2 & _) _ _ Hc _ _ _ _] He. apply exec_Call in He as (c & c' & p & n & e & rs & Hi & Hs & Hn & ->).
  pose proof (Forall_lookup_1 _ _ _ _ Hc Hi) as Hl. pose proof (sum_insert client_weight _ _ _ c' Hi) as Hw.
  apply notify_weight in Hn. unfold measure. cbn [pool clients set_runners m_busyTaskRunners m_pendingTasks m_finishTasksQueue].
  destruct c; cbn [client_step] in Hs; try done.
  - destruct (m_pendingTasksMutex (pool s)); [done|]. injection Hs as <- <- <- <-. cbn in *. subst. rewrite length_app. cbn. lia.
  - injection Hs as <- <- <- <-. cbn in *. lia.
  - destruct ((_ <? _) && _)%nat; injection Hs as <- <- <- <-; cbn in *; subst; lia.
  - destruct (m_pendingTasksMutex (pool s)); [done|]. destruct (m_pendingTasks (pool s)) eqn:El; injection Hs as <- <- <- <-; cbn in *; subst; rewrite ?El; cbn; lia.
  - rewrite T2 in Hs. destruct (m_pendingTasks (pool s)) as [|task l] eqn:El; [done|].
    destruct (_ <=? _)%nat; injection Hs as <- <- <- <-; cbn in *; subst; rewrite ?El, ?sum_list_with_app; cbn; lia.
  - injection Hs as <- <- <- <-. cbn in *. lia.
  - destruct (0 <? _)%nat; injection Hs as <- <- <- <-; cbn in *; subst; lia.
  - destruct (m_finishTasksQueue (pool s)) eqn:El; injection Hs as <- <- <- <-; cbn in *; subst; rewrite ?El; cbn; lia.
Qed.

Lemma internal_live s s' : (0 < m_poolSize)%nat -> live s -> internal m_poolSize s s' -> live s' /\ (measure s' < measure s)%nat.
Proof.
  intros Hpos Hl (l & He & Hi). destruct l as [c|i|i j|i]; try done.
  - split; [by eapply live_run|by eapply run_decreases].
  - split; [by eapply live_call|by eapply call_decreases].
Qed.

Lemma running_live s : (0 < m_poolSize)%nat -> rtc (running m_poolSize) init s -> live s.
Proof.
  intros Hpos Hr. refine (rtc_ind_r (R := running m_poolSize) live init live_init _ s Hr). intros s1 s2 _ (l & He & Hl) Hi.
  destruct l as [c|i|i j|i]; [|by eapply live_run|by eapply live_call|by eapply live_wakeup].
  eapply live_spawn; [done|exact Hi|exact He|..]; by intros ->.
Qed.

(** A call that cannot run on has ended, or waits for the mutex. *)
Lemma call_stuck i c s : live s -> clients s !! i = Some c -> (forall s', ~ internal m_poolSize s s') ->
  c = Finished \/ m_pendingTasksMutex (pool s) <> None /\ c <> Add_create.
Proof.
  intros [[Hok Hm _ _] (_ & T2 & _) _ _ Hc _ _ _ _] Hi Hno. pose proof (Forall_lookup_1 _ _ _ _ Hc Hi) as Hl.
  destruct (client_step m_poolSize i c (pool s)) as [[[[c' p] n] e]|] eqn:Es.
  - exfalso. assert (exists j rs, notify n j (m_busyTaskRunners p) = Some rs) as (j & rs & Hn).
    { unfold notify. destruct n; [by exists 0%nat, (m_busyTaskRunners p)| |by exists 0%nat; eexists].
      destruct (existsb asleep (m_busyTaskRunners p)) eqn:Ea; [|by exists 0%nat, (m_busyTaskRunners p)].
      apply existsb_elem in Ea as (r & Hr & Er). apply list_elem_of_lookup in Hr as [j Hj]. exists j. rewrite Hj. cbn. rewrite Er. by eexists. }
    apply (Hno (apply_effect e (mkSys (set_runners rs p) (<[i := c']> (clients s)) (added s) (ran s) (finished s) (dropped s)))).
    exists (Call i j). split; [|done]. cbn [exec]. rewrite Hi. cbn. rewrite Es. cbn. rewrite Hn. done.
  - destruct c; cbn [client_step] in Es; try done; auto.
    + right. by destruct (m_pendingTasksMutex (pool s)).
    + by destruct (_ && _).
    + right. by destruct (m_pendingTasksMutex (pool s)), (m_pendingTasks (pool s)).
    + rewrite T2 in Es. apply Hm in Hi. destruct (m_pendingTasks (pool s)) eqn:El; [|by destruct (_ <=? _)%nat].
      exfalso. apply (ok_held _ _ Hok); [by rewrite Hi|done].
    + by destruct (m_finishTasksQueue (pool s)).
Qed.

Lemma quiescent s : live s -> (forall s', ~ internal m_poolSize s s') ->
  Forall (fun c => c = Finished) (clients s) /\ Forall (fun r => pc r = RAsleep) (m_busyTaskRunners (pool s)) /\ m_pendingTasks (pool s) = [].
Proof.
  intros Hl Hno. assert (m_pendingTasksMutex (pool s) = None) as Hmu.
  { destruct (m_pendingTasksMutex (pool s)) as [i|] eqn:Em; [|done]. apply (inv_mutex _ (live_inv _ Hl)) in Em.
    by destruct (call_stuck _ _ _ Hl Em Hno) as [|[_ ?]]. }
  assert (Forall (fun c => c = Finished) (clients s)) as Hf.
  { apply Forall_lookup. intros i c Hi. by destruct (call_stuck _ _ _ Hl Hi Hno) as [|[? _]]. }
  assert (Forall (fun r => pc r = RAsleep) (m_busyTaskRunners (pool s))) as Hr.
  { apply Forall_lookup. intros i r Hi. destruct (Forall_lookup_1 _ _ _ _ (live_runners _ Hl) Hi) as (Ht & _ & Hx).
    pose proof (Forall_lookup_1 _ _ _ _ (ok_runners _ _ (inv_pool _ (live_inv _ Hl))) Hi) as Hok. unfold runner_ok in Hok.
    destruct (runner_step r (pool s)) as [[[r' p] tasks]|] eqn:Es.
    - exfalso. apply (Hno (mkSys (set_runners (<[i := r']> (m_busyTaskRunners p)) p) (clients s) (added s) (ran s ++ tasks) (finished s) (dropped s))).
      exists (ThreadPool.Run i). split; [|done]. cbn [exec]. rewrite Hi. cbn. by rewrite Es.
    - unfold runner_step in Es. destruct (pc r) eqn:Ep; try done; rewrite ?Ht in Es; try done.
      + by destruct Hx as [task E]; rewrite E in Es.
      + by destruct Hok as [task E]; rewrite E in Es.
      + rewrite Hmu in Es. destruct (m_terminated (pool s)); [done|]. by destruct (m_pendingTasks (pool s)). }
  split_and!; [done..|]. destruct (m_pendingTasks (pool s)) eqn:El; [done|]. exfalso.
  assert (existsb to_notify (clients s) = false /\ existsb to_create (clients s) = false) as [Hn1 Hn2].
  { clear -Hf. induction Hf as [|c cs -> _ [IH1 IH2]]; done. }
  assert (existsb awake (m_busyTaskRunners (pool s)) = false) as Hn3.
  { clear -Hr. induction Hr as [|r rs Hp _ IH]; [done|]. cbn. rewrite IH. unfold awake, asleep. by rewrite Hp. }
  destruct (live_waking _ Hl) as [?|[?|[_ ?]]]; rewrite ?El; congruence.
Qed.

(** C37. A pool with room for a thread completes every task, however calls that add
    tasks and one thread that updates the pool overlap with the runners, as long as
    the pool is not terminated: what is under way comes to an end if every task does,
    no wakeup is lost, and at the end all calls have returned, every task that was
    added has been run exactly once, and each of them has had its [Finishing] called or
    waits for the next update; at no time are there more threads than the pool has. *)
Theorem pool_completes (s : Sys) : (0 < m_poolSize)%nat -> rtc (running m_poolSize) init s ->
  (length (m_busyTaskRunners (pool s)) <= m_poolSize)%nat /\ sn (internal m_poolSize) s /\
  forall s', rtc (internal m_poolSize) s s' -> (forall s'', ~ internal m_poolSize s' s'') ->
    Forall (fun c => c = Finished) (clients s') /\ ran s' ≡ₚ added s' /\
    finished s' ++ m_finishTasksQueue (pool s') ≡ₚ added s'.
Proof.
  intros Hpos Hr%running_live; [|done]. split_and!.
  - apply (ok_bound _ _ (inv_pool _ (live_inv _ Hr))).
  - remember (measure s) as n eqn:En. revert s Hr En. induction (lt_wf n) as [n _ IH]. intros s Hl ->. constructor. intros s' Hs.
    destruct (internal_live s s' Hpos Hl Hs) as [Hl' Hm]. by apply (IH (measure s')).
  - intros s' Hs Hno. assert (live s') as Hl.
    { clear Hno. induction Hs as [s|s s1 s' H1 _ IH]; [done|]. apply IH. by eapply internal_live. }
    destruct (quiescent s' Hl Hno) as (Hf & Ha & Hp). split; [done|].
    destruct (live_inv _ Hl) as [_ _ Hadd Hran]. destruct (live_terminated _ Hl) as (_ & _ & Hd).
    assert (flat_map waiting (m_busyTaskRunners (pool s')) = [] /\ flat_map at_work (m_busyTaskRunners (pool s')) = []) as [Ew Ea].
    { clear -Ha. induction Ha as [|r rs Hp _ [IH1 IH2]]; [done|]. cbn. unfold waiting, at_work in *. by rewrite Hp, IH1, IH2. }
    rewrite Hp, Ew, Hd in Hadd. rewrite Ea in Hran. split; apply num_Permutation; intros x; specialize (Hadd x); specialize (Hran x);
      rewrite ?num_app, ?num_nil in *; lia.
Qed.
End pool_theory.

(** ** The end of the pool *)

Section end_theory.
Context {Task : Type} `{EqDecision Task} (m_poolSize : nat).
#[local] Set Default Proof Using "Type*".
Import ThreadPool.

(** A call [a] of [AddTask] that is about to create a thread, while a call [b] of
    [Terminate] waits for a runner that needs the mutex [a] has. *)
Record deadlocked (a b k : nat) (s : @ThreadPool.Sys Task) : Prop := {
  dead_add : clients s !! a = Some Add_create;
  dead_term : clients s !! b = Some (Term_kill k);
  dead_pending : m_pendingTasksMutex (pool s) = Some a;
  dead_threads : m_threadsMutex (pool s) = Some b;
  dead_others : forall i c, clients s !! i = Some c -> (c = Add_create -> i = a) /\ ((exists k, c = Term_kill k) \/ c = Term_join -> i = b);
  dead_runner : exists r, m_busyTaskRunners (pool s) !! k = Some r /\ pc r = RFetch /\ m_isTerminated r = false }.

Lemma notified_fetch n j (rs rs' : list (@TaskRunner Task)) k r : notify n j rs = Some rs' -> rs !! k = Some r -> pc r = RFetch -> rs' !! k = Some r.
Proof.
  intros Hn Hk Hp. assert (asleep r = false) as Ha by (unfold asleep; by rewrite Hp).
  unfold notify in Hn. destruct n; [congruence| |].
  - destruct (existsb asleep rs); [|congruence]. destruct (rs !! j) as [q|] eqn:Ej; [|done]. cbn in Hn. destruct (asleep q) eqn:Eq; [|done].
    injection Hn as <-. rewrite list_lookup_insert_ne; [done|]. intros ->. congruence.
  - injection Hn as <-. rewrite list_lookup_fmap, Hk. cbn. unfold awaken. by rewrite Ha.
Qed.

(** What the other calls can still do leaves the two and the runner where they are. *)
Lemma deadlocked_client a b k s i c c' p n e : deadlocked a b k s -> clients s !! i = Some c ->
  client_step m_poolSize i c (pool s) = Some (c', p, n, e) ->
  i <> a /\ (i = b -> c' = Term_kill k) /\ c' <> Add_create /\ (i <> b -> c' <> Term_join /\ forall k, c' <> Term_kill k) /\
  m_pendingTasksMutex p = Some a /\ m_threadsMutex p = Some b /\
  exists r, m_busyTaskRunners p !! k = Some r /\ pc r = RFetch /\ m_isTerminated r = false.
Proof.
  intros [Da Db Dp Dt Do (r & Hr & Hp & Ht)] Hi Hs. destruct (Do _ _ Hi) as [Oa Ob].
  assert (i = a -> c = Add_create) as Hia by (intros ->; congruence). assert (i = b -> c = Term_kill k) as Hib by (intros ->; congruence).
  destruct c; cbn [client_step] in Hs; rewrite ?Dp, ?Dt in Hs; try done;
    try (injection Hs as <- <- <- <-; split_and!; cbn; try done; [intros E; by specialize (Hia E)|intros E; by specialize (Hib E)|eauto]).
  - destruct (_ && _); injection Hs as <- <- <- <-; split_and!; try done; [intros E; by specialize (Hia E)|intros E; by specialize (Hib E)|eauto
      |intros E; by specialize (Hia E)|intros E; by specialize (Hib E)|eauto].
  - destruct (_ <? _)%nat; injection Hs as <- <- <- <-; split_and!; try done; [intros E; by specialize (Hia E)|intros E; by specialize (Hib E)|eauto
      |intros E; by specialize (Hia E)|intros E; by specialize (Hib E)|eauto].
  - destruct (m_finishTasksQueue (pool s)); injection Hs as <- <- <- <-; split_and!; cbn; try done; [intros E; by specialize (Hia E)|intros E; by specialize (Hib E)|eauto
      |intros E; by specialize (Hia E)|intros E; by specialize (Hib E)|eauto].
  - assert (i = b) as -> by eauto. specialize (Hib eq_refl) as [= ->]. rewrite Hr, Ht in Hs. injection Hs as <- <- <- <-.
    split_and!; cbn; try done; [intros E; by specialize (Hia E)|]. exists (mkRunner (pc r) (m_task r) true false). split_and!; try done.
    apply list_lookup_insert_eq. by eapply lookup_lt_Some.
  - assert (i = b) as -> by eauto. specialize (Hib eq_refl). done.
Qed.

Lemma deadlocked_step a b k s s' : deadlocked a b k s -> step m_poolSize s s' -> deadlocked a b k s'.
Proof.
  intros D [l He]. pose proof D as [Da Db Dp Dt Do (r & Hr & Hp & Ht)]. destruct l as [c|i|i j|i].
  - apply exec_Spawn in He as [Hb ->]. constructor; cbn; try done; try by apply lookup_app_l_Some.
    + intros i d [Hi|[_ Hi]]%lookup_app_Some; [by apply Do|]. apply list_lookup_singleton_Some in Hi as [_ <-].
      split; [by intros ->|]. by intros [[? ->]| ->].
    + eauto.
  - apply exec_Run in He as (q & q' & p & tasks & Hi & Hs & ->).
    assert (i <> k) as Hik. { intros ->. assert (q = r) as -> by congruence. unfold runner_step in Hs. by rewrite Hp, Dp in Hs. }
    assert (m_busyTaskRunners p = m_busyTaskRunners (pool s) /\ m_pendingTasksMutex p = Some a /\ m_threadsMutex p = Some b) as (E1 & E2 & E3).
    { unfold runner_step in Hs. rewrite Dp in Hs. destruct (pc q); try done; repeat case_match; try done; by injection Hs as <- <- <-. }
    constructor; cbn; try done. exists r. rewrite E1, list_lookup_insert_ne by done. done.
  - apply exec_Call in He as (c & c' & p & n & e & rs & Hi & Hs & Hn & ->).
    destruct (deadlocked_client _ _ _ _ _ _ _ _ _ _ D Hi Hs) as (N1 & N2 & N3 & N4 & E1 & E2 & q & Hq & Hqp & Hqt).
    pose proof (lookup_lt_Some _ _ _ Hi) as Hlt. constructor; cbn; try done.
    + by rewrite list_lookup_insert_ne.
    + destruct (decide (i = b)) as [->|Hb]; [rewrite list_lookup_insert_eq by done; f_equal; auto|by rewrite list_lookup_insert_ne].
    + intros x d [(<- & <- & _)|[_ Hx]]%list_lookup_insert_Some; [|by apply Do]. split; [done|].
      destruct (decide (i = b)) as [->|Hb]; [done|]. destruct (N4 Hb) as [M1 M2]. intros [[k' E]|E]; [by destruct (M2 k')|done].
    + exists q. split; [by eapply notified_fetch|done].
  - apply exec_Wake in He as (q & Hi & Ha & ->). assert (i <> k) as Hik by (intros ->; assert (q = r) as -> by congruence; unfold asleep in Ha; by rewrite Hp in Ha).
    constructor; cbn; try done. exists r. by rewrite list_lookup_insert_ne.
Qed.

Lemma deadlocked_forever a b k s s' : deadlocked a b k s -> rtc (step m_poolSize) s s' -> clients s' !! a = Some Add_create /\ clients s' !! b = Some (Term_kill k).
Proof.
  intros D Hr. assert (deadlocked a b k s') as D'.
  { induction Hr as [|x y z Hs _ IH]; [done|]. apply IH. by eapply deadlocked_step. }
  split; apply D'.
Qed.
End end_theory.

(** Steps in a given order. *)
Fixpoint run_labels {Task} (n : nat) (l : list (@ThreadPool.label Task)) (s : ThreadPool.Sys) : option ThreadPool.Sys :=
  match l with [] => Some s | x :: l => match ThreadPool.exec n x s with Some s => run_labels n l s | None => None end end.

Lemma run_labels_rtc {Task} n (l : list (@ThreadPool.label Task)) s s' : run_labels n l s = Some s' -> rtc (ThreadPool.step n) s s'.
Proof.
  revert s. induction l as [|x l IH]; intros s; cbn; [intros [= <-]; apply rtc_refl|].
  destruct (ThreadPool.exec n x s) as [s1|] eqn:E; [|done]. intros Hr%IH. eapply rtc_l; [by exists x|done].
Qed.

(** A task is added by one call, which creates the thread; it is run, and while the
    runner is on its way to the next task, a second call adds a task and a third
    terminates the pool. *)
Definition deadlock_run : list (@ThreadPool.label nat) :=
  [ThreadPool.Spawn (ThreadPool.Add_push 7%nat); ThreadPool.Call 0 0; ThreadPool.Call 0 0; ThreadPool.Call 0 0; ThreadPool.Call 0 0; ThreadPool.Call 0 0;
   ThreadPool.Run 0; ThreadPool.Run 0; ThreadPool.Run 0; ThreadPool.Run 0;
   ThreadPool.Spawn (ThreadPool.Add_push 8%nat); ThreadPool.Call 1 0; ThreadPool.Call 1 0; ThreadPool.Call 1 0; ThreadPool.Call 1 0;
   ThreadPool.Spawn ThreadPool.Term_set; ThreadPool.Call 2 0; ThreadPool.Call 2 0].

(** [AddTask] and [Terminate] can wait for each other for ever. *)
Lemma add_terminate_deadlock : exists s, ThreadPool.reachable 5 s /\ forall s', rtc (ThreadPool.step 5) s s' ->
  ThreadPool.clients s' !! 1%nat = Some (@ThreadPool.Add_create nat) /\ ThreadPool.clients s' !! 2%nat = Some (ThreadPool.Term_kill 0).
Proof.
  destruct (run_labels 5 deadlock_run ThreadPool.init) as [s|] eqn:E; [|by vm_compute in E]. exists s.
  split; [by eapply run_labels_rtc|]. intros s' Hr. eapply deadlocked_forever; [|exact Hr]. vm_compute in E. injection E as <-.
  constructor; cbn; try done.
  - intros [|[|[|i]]] c; cbn; intros [= <-]; (split; [done|]); by intros [[? ?]|?].
  - eexists. by split_and!.
Qed.

(** Two threads that update the pool at a time can take a task from an empty queue. *)
Definition update_run : list (@ThreadPool.label nat) :=
  [ThreadPool.Spawn (ThreadPool.Add_push 7%nat); ThreadPool.Call 0 0; ThreadPool.Call 0 0; ThreadPool.Call 0 0; ThreadPool.Call 0 0; ThreadPool.Call 0 0;
   ThreadPool.Run 0; ThreadPool.Run 0; ThreadPool.Run 0; ThreadPool.Run 0;
   ThreadPool.Spawn ThreadPool.Upd_check; ThreadPool.Spawn ThreadPool.Upd_check; ThreadPool.Call 1 0; ThreadPool.Call 2 0; ThreadPool.Call 1 0; ThreadPool.Call 2 0].
Lemma two_updates_undefined : exists s, ThreadPool.reachable 5 s /\ @ThreadPool.Undefined nat ∈ ThreadPool.clients s.
Proof.
  destruct (run_labels 5 update_run ThreadPool.init) as [s|] eqn:E; [|by vm_compute in E]. exists s.
  split; [by eapply run_labels_rtc|]. vm_compute in E. injection E as <-. apply (list_elem_of_lookup_2 _ 2). done.
Qed.

(** Two tasks are added to a pool of one thread while it is updated. *)
Definition toy_pool : @ThreadPool.Sys nat :=
  ThreadPool.mkSys ThreadPool.empty [ThreadPool.Add_push 7%nat; ThreadPool.Add_push 8%nat; ThreadPool.Upd_check] [] [] [] [].

Lemma pool_completes_witness :
  (length (ThreadPool.m_busyTaskRunners (ThreadPool.pool toy_pool)) <= 1)%nat /\ sn (ThreadPool.internal 1) toy_pool.
Proof.
  destruct (pool_completes 1 toy_pool) as (Hl & Hs & _).
  - lia.
  - eapply rtc_l; [exists (ThreadPool.Spawn (ThreadPool.Add_push 7%nat)); split; [reflexivity|exact I]|].
    eapply rtc_l; [exists (ThreadPool.Spawn (ThreadPool.Add_push 8%nat)); split; [reflexivity|exact I]|].
    eapply rtc_l; [exists (ThreadPool.Spawn ThreadPool.Upd_check); split; reflexivity|]. apply rtc_refl.
  - split; [exact Hl|exact Hs].
Defined.

(** One order in which it ends: both tasks are run by one thread, and finished by a
    second update. *)
Example toy_pool_run : option_map (fun s => (ThreadPool.ran s, ThreadPool.finished s, length (ThreadPool.m_busyTaskRunners (ThreadPool.pool s))))
  (run_labels 1 ([ThreadPool.Call 0 0; ThreadPool.Call 0 0; ThreadPool.Call 1 0; ThreadPool.Call 0 0; ThreadPool.Call 0 0; ThreadPool.Call 0 0;
    ThreadPool.Call 1 0; ThreadPool.Call 1 0; ThreadPool.Call 2 0] ++ replicate 10 (ThreadPool.Run 0) ++
    [ThreadPool.Spawn ThreadPool.Upd_check] ++ replicate 5 (ThreadPool.Call 3 0)) toy_pool) = Some ([7; 8]%nat, [7; 8]%nat, 1%nat).
Proof. vm_compute. reflexivity. Qed.

(** ** How often a task ticks *)

Section ticking.
Import TickingTask.
Context {St : Type} (f : St -> St).

(** A tick that does not change the interval. *)
Definition plain_tick (s : St) (k : t) : St * t := (f s, k).
#[local] Arguments plain_tick : simpl never.

Lemma turns_waiting n s u d since : 0 < u -> since + Z.of_nat n * u < d + u ->
  turns plain_tick n s (mk false true u d since) = (s, mk false true u d (since + Z.of_nat n * u), replicate n (Slept u)).
Proof.
  intros Hu. revert since. induction n as [|n IH]; intros since Hd.
  - cbn. do 2 f_equal. f_equal. lia.
  - cbn [turns m_isTerminating]. unfold turn at 1. cbn [m_enableTickInterval m_tickInterval m_sinceLastUpd].
    replace (d <=? since) with false by nia. unfold UpdateSinceLastUpd. cbn. rewrite IH by lia. do 2 f_equal. f_equal. lia.
Qed.

(** A task with a positive interval ticks at once, and then sleeps until the interval
    is over, but for less than one step of the sleep longer: the next tick follows. *)
Lemma tick_cadence s u d since : 0 < u -> 0 < d -> d <= since -> let n := Z.to_nat ((d + u - 1) / u) in
  turns plain_tick n s (mk false true u d since) = (f s, mk false true u d (Z.of_nat n * u), Ticked :: replicate n (Slept u)) /\
  d <= Z.of_nat n * u < d + u.
Proof.
  intros Hu Hd Hs n. assert (0 < (d + u - 1) / u) as Hq by (apply Z.div_str_pos; lia).
  pose proof (Z.div_mod (d + u - 1) u) as Hdm. pose proof (Z.mod_pos_bound (d + u - 1) u Hu).
  assert (d <= Z.of_nat n * u < d + u) as Hn by (unfold n; rewrite Z2Nat.id by lia; nia). split; [|done].
  destruct n as [|m] eqn:En; [lia|]. cbn [turns m_isTerminating]. unfold turn at 1. cbn [m_enableTickInterval m_tickInterval m_sinceLastUpd].
  replace (d <=? since) with true by lia. unfold plain_tick at 1, UpdateSinceLastUpd, ResetSinceLastUpd. cbn. rewrite turns_waiting by lia. do 2 f_equal. f_equal. lia.
Qed.

(** With steps of zero it never ticks again. *)
Lemma zero_step_never_ticks n s d since : since < d -> turns plain_tick n s (mk false true 0 d since) = (s, mk false true 0 d since, replicate n (Slept 0)).
Proof.
  intros Hs. induction n as [|n IH]; [done|]. cbn [turns m_isTerminating]. unfold turn at 1. cbn [m_enableTickInterval m_tickInterval m_sinceLastUpd].
  replace (d <=? since) with false by lia. unfold UpdateSinceLastUpd. cbn. replace (since + 0) with since by lia. by rewrite IH.
Qed.
End ticking.

(** The first time a block cannot be pushed there is no wait before the second try;
    and a block that could be pushed after a wait is followed by one more sleep. *)
Lemma first_retry_at_once :
  (TickingTask.turns (BlockUpdatorServiceTask_Tick 1000) 2 [false; false] TickingTask.create0).2 =
    [TickingTask.Ticked; TickingTask.Ticked; TickingTask.Slept 200].
Proof. reflexivity. Qed.
Lemma success_then_sleep :
  (TickingTask.turns (BlockUpdatorServiceTask_Tick 1000) 4 [false; true; true] TickingTask.create0).2 =
    [TickingTask.Ticked; TickingTask.Ticked; TickingTask.Slept 200; TickingTask.Ticked; TickingTask.Ticked].
Proof. reflexivity. Qed.
